(* ===== verification/_CoqProject ===== *)
-Q . S2P
Prelude.v
BitString.v
BitVec.v
JtagTap.v
JtagEncoder.v
JtagWalker.v
JtagTunnel.v
JtagChain.v
JtagRefresh.v
JtagFlush.v
JtagProbe.v
Memory.v
Crc.v
CrcCatalog.v
Hdlc.v
MemoryMap.v
Ihex.v
Flash.v
Allocator.v
PyText.v
GdbPacket.v
Telnet.v
Jop.v
JopFraming.v
JopSession.v
JopControl.v
GdbResponder.v
GdbDebugger.v
GdbRun.v
GdbFlash.v
GdbServer.v
GdbXml.v
Aca.v
StaplExpr.v
StaplLexer.v
StaplEval.v
StaplExec.v
StaplParser.v
StaplValues.v
StaplBits.v
StaplRun.v
StaplTypes.v
StaplJtag.v
StaplProgram.v
ArmDp.v
SwDp.v
JtagDp.v
MemAp.v
ArmMemory.v
Rtt.v
RttStreams.v
Engine.v
SpiFlash.v
Uf2.v
NodePath.v
