(* ===== verification/Prelude.v ===== *)
(** * Verification of acrobe

    acrobe (src/acrobe) is a Python toolkit for debug probes: it drives JTAG, SWD
    and memory buses, reaches the memory of ARM systems through their debug ports,
    exchanges bytes with running firmware, loads images into targets and flash
    chips, plays STAPL programs, serves GDB, and carries its operations over byte
    streams and networks.  This library models the parts of it that compute, as
    executable definitions translated from the source, and proves what makes them
    correct.

    ** Conventions

    Objects are values: a method that mutates its receiver is a function from
    the old object to the new one.  A call that may raise returns [result], the
    value or the exception class ([Prelude.exn]); messages and logging are left
    out.  Python integers are [Z]; bytes are integers of [Z], and [bytes_ok]
    says that they are between 0 and 255.  Sequences are lists, with Python's indexing and
    slicing ([index], [slice], [slice_assign], ...).  Sets whose iteration
    order is observable are lists with the order as a parameter ([Allocator]).
    A loop that is not structural takes fuel; the theorems show that the fuel
    given is enough, so no result is conditional on it ([Crc.gfexp]: the number of bits of the exponent;
    [JtagProbe.ir_merge]: one more than the number of segments;
    [MemoryMap.addressable_descendants]: the size of the tree;
    [Ihex.hex_lines]: the length of the chunk; [Memory.take_words]: the
    number of bytes; [CrcCatalog.hex_digits]: the number of bits of the
    number; [Jop.feed]: the number of bytes; [JopSession.h2t_loop]: one more
    than the number of bytes of the stream; [StaplExpr.parse_expr]: four calls
    per character; [StaplParser.parse]: the length of the list of statements;
    [GdbServer.serve_session]: one more than the number of chunks;
    [Rtt.scan]: one more than the number of bytes of the RAM; [SpiFlash.read_chunks],
    [SpiFlash.program_pages] and [SpiFlash.erase]: one more than the number of
    bytes).  Three loops of the code need not end, the polling of a running core, the
    polling of a busy flash chip and the execution of
    a STAPL program: their fuel is an argument, and the theorems say which result
    any sufficient amount gives ([gdb_run_returns], [stapl_for_loop]) and that
    more of it changes no result ([stapl_procedure_steps]).  Asynchronous batches are modelled at the level of the list of
    operations a flush receives and the list of results it settles; where tasks
    interleave over shared state ([Engine], [RttStreams]) each step is what the
    event loop runs between two awaits, and the theorems range over all schedules.

    ** Files

    - [Prelude]: the error monad, Python sequences, bit-level reasoning on [Z]
      ([bitwise]), bytes and integers, sorting.
    - [BitString] (src/acrobe/bitstring.py): [BitString] with its chunk list and
      partial last byte, [BitStringSlice], [MutableBitString].  The refinement
      [bitstring_refines_bits] abstracts an object to the list of its bits.
    - [BitVec]: the interface (a type class with laws) through which the
      protocol files use bit strings; instances for [BitString] and for lists.
    - [JtagTap]: the operations of src/acrobe/protocol/jtag.py, the IEEE 1149.1
      controller, and the meaning of a stream of clocks and of operations.
    - [JtagEncoder] (src/acrobe/protocol/jtag_encoder.py), [JtagWalker]
      (src/acrobe/protocol/jtag_walker.py): operations to TMS/TDI streams and
      back; [JtagTunnel] composes them.
    - [JtagChain], [JtagRefresh], [JtagFlush], [JtagProbe]
      (src/acrobe/protocol/jtag.py, [Chain]): geometry and controllers,
      identity matching after a reset, translation of TAP operations to chain
      scans with elided instruction shifts, decoding of the blind probe.
    - [Memory] (src/acrobe/protocol/memory.py): blob accesses from register
      accesses and back.
    - [Crc], [CrcCatalog] (src/acrobe/util/crc.py): the CRC engine, its textual
      descriptions and its catalogue; [Hdlc] (src/acrobe/component/hdlc.py).
    - [MemoryMap] (src/acrobe/memory_map.py), [Ihex] (its Intel HEX writer and
      src/acrobe/vfs/ihex.py), [Flash] (src/acrobe/target/region.py and
      loadable.py): images, files, and programming them into a target.
    - [Allocator] (src/acrobe/allocator.py): best-fit ranges.
    - [GdbPacket] (src/acrobe/target/gdb/message.py), [Telnet]
      (src/acrobe/protocol/telnet.py): framing of streams; [PyText]: the text
      functions of Python that several files use.
    - [GdbResponder] (src/acrobe/target/gdb/protocol.py, [Responder]): every
      packet handler over a debuggable target, given as the record [Target] of
      the operations of its cores, memory and loadable.  [GdbDebugger] proves
      what a debugger sees of memory, registers, threads and documents,
      [GdbRun] of continue, step and interrupts, [GdbFlash] of a download, which
      composes the responder with [MemoryMap] and [Flash].  [GdbServer]
      (server.py, [Session]) puts the connection under it; [GdbXml] builds the
      two documents it serves.
    - [Aca] (src/acrobe/stapl/aca.py): decompression of ACA arrays.
    - [StaplLexer] (src/acrobe/stapl/lexer.py), [StaplExpr] and [StaplParser]
      (parser.py: expressions; statements and programs): from a text to a
      [Program].
    - [StaplEval] and [StaplExec] (interpreter.py): variables and evaluation;
      statements, procedures and actions, in a state and exception monad over a
      player, the record [StaplPlayer].  [StaplValues] proves its arithmetic,
      [StaplBits] its bit arrays and comparing scans, [StaplRun] its control
      flow, [StaplTypes] the typing of its arrays.
    - [StaplJtag] (player.py): the player over a JTAG interface, against the
      controller of [JtagTap]; [StaplProgram] runs a text from end to end.
    - [Jop] (src/acrobe/jop/bytestream.py), [JopFraming] (framing.py),
      [JopSession] (session.py, the data plane) and [JopControl] (its control
      plane and control.py): a JTAG server for remote hosts; it composes the
      decoder, the walker and the response encoder.

    - [Engine] (src/acrobe/engine.py): the batching engine every bus is built on,
      futures, and nodes that work in the background.
    - [ArmDp] (src/acrobe/component/arm/dp.py): the operations of an ARM debug port
      and the contract of a port, the class [DebugPort]; [SwDp] (sw_dp.py and
      src/acrobe/protocol/swd.py) and [JtagDp] (jtag_dp.py) implement it over the
      two wires; [MemAp] (mem_ap.py) lowers memory accesses to it; [ArmMemory]
      composes [Memory], [MemAp] and any port.
    - [Rtt] (src/acrobe/target/rtt.py): the host's operations on an RTT control
      block and the search for it; [RttStreams]: its tasks and the firmware,
      interleaved over one memory.
    - [SpiFlash] (src/acrobe/component/spi_flash.py): the driver of serial NOR
      flash.
    - [Uf2] (src/acrobe/vfs/uf2.py): the reader of UF2 files.
    - [NodePath] (src/acrobe/node.py): the options in the name of a node, and
      paths.

    ** What the theorems show

    Refinement: bit strings behave as lists of bits; encoder and walker have the
    meaning of the operations; a flush of the chain behaves as each TAP alone; a
    batch of blob accesses as the bytes one by one; a remote session returns the
    TDO bits its capture windows ask for; a debugger's packets read and write
    memory as a flat memory, in whatever pieces they arrive; a STAPL scan
    reaches the chain as one capture, shift and update; memory accesses through a
    debug port, over SWD or JTAG, behave as a flat memory.  Invariants: the geometry of
    the chain, the partition of the allocator's arena, the two byte streams of RTT
    under any interleaving, over every reachable state.  Progress: the batching
    engine hands over all that is posted, a node in the background settles it, a
    poll empties RTT's ring.  Round trips: HDLC datagrams in any chunking, Intel HEX files, CRC
    descriptions, GDB packets and documents, Telnet streams, remote JTAG commands
    and packets, STAPL expressions, statements and bit subranges, ACA arrays, UF2 files, options
    of node names.
    Termination: the STAPL front end on every text, a FOR loop, a run command
    whose core stops.  Types: the bit arrays of a STAPL program keep their size.
    Equivalences: CRC seeking and state order; splitting of clock streams; the
    STAPL program loop and its steps.  Functional behaviour: CRC
    validity and patching, merging and page alignment of images, programming and
    verifying a target, erasing, programming and reading a flash chip, best fit.  Errors: corrupted records and packets are
    refused; no input makes a remote session fail; a batch on a JTAG debug port
    with a failing access is rejected as a whole.  Some theorems are about behaviour that is not what
    the code means to do: [bypass_scan_misaligned], [empty_shift_shifts_a_bit],
    [blank_flag_survives_write], [paged_fill_hides_data],
    [overflow_shortens_window], [eop_of_silent_window_lost],
    [malformed_flash_write_raises], [erase_range_ignored],
    [aca_overlapping_repeat], [keyword_prefix_hijacks],
    [overlapping_subrange_smears], [state_reset_idles],
    [swd_write_fault_unreported], [shared_wire_race], [high_address_truncated],
    [rtt_write_lost], [no_sfdp_no_erase] and others.

    ** Parameters

    Code that is not modelled but relied on is a parameter with its documented
    behaviour as hypotheses: the interface that executes the walker's operations
    ([answers_shifts], [JopSession.answers]), the devices on a scan chain ([device_ok]), flash cells
    ([FlashCell]), the database of instruction lengths, the iteration order of
    sets, the target under the GDB responder ([MemoryTarget], [ObservedCore],
    [FlashTarget]), the player under the STAPL interpreter, the system behind a
    debug port ([System], [WordSystem], with what a port leaves undefined as an
    arbitrary function), a memory access port ([MemoryAp]), the firmware of RTT (the
    steps [Put], [Publish] and [Take]), a serial flash chip ([NorFlash]).  Sample
    instances show that the hypotheses can hold.

    ** Not modelled

    The lifecycle, events and links of the node tree (src/acrobe/node.py) and the asynchronous
    orchestration around the modelled operations: discovery, start-up and power-up
    sequences, enumeration of debug and access ports; adapters and targets that talk
    to devices; the listeners that accept connections; the STAPL transpiler, whose
    output is Python source; the wire protocol (its encoding is a third-party
    library); the remaining file formats and protocols; command-line code; generated
    tables.  They are I/O, or glue whose meaning is that of code outside the
    repository. *)

From Stdlib Require Export ZArith Lia Bool Btauto.
From stdpp Require Export base tactics list list_numbers numbers option gmap sorting.

Open Scope Z_scope.

#[global] Arguments Nat.modulo : simpl never.
#[global] Arguments Nat.div : simpl never.
#[global] Arguments Z.of_nat : simpl never.

(** ** Python exceptions and the error monad

    A Python call either returns or raises; [result] records which
    exception class was raised, not its message. *)

Inductive exn : Type :=
  | ValueError | IndexError | TypeError | RuntimeError | AssertionError
  | OverflowError | KeyError | NoMatch | EOFError | Truncated | GuardbandError
  | OpenChain | RefreshAmbiguity | UnsupportedAccess | ZeroDivisionError | AttributeError
  | NotImplementedError | ConnectionResetError
  | StaplError | StaplRuntimeError
  | DpAccessFailure | SwdAccessFailure | RttError
  | InvalidStateError | CancelledError | StructError
  | StaplExit (code : Z)          (* raised by EXIT, with its code *)
  | BinasciiError                 (* binascii.Error and UnicodeDecodeError, subclasses of ValueError *)
  | OutOfFuel.                    (* no exception: a loop cut short by the model *)

#[global] Instance exn_eq_dec : EqDecision exn.
Proof. solve_decision. Defined.

Inductive result (A : Type) : Type :=
  | Ok (a : A)
  | Err (e : exn).
Arguments Ok {A} _.
Arguments Err {A} _.

#[global] Instance result_ret : MRet result := fun A a => Ok a.
#[global] Instance result_bind : MBind result :=
  fun A B f r => match r with Ok a => f a | Err e => Err e end.
#[global] Instance result_fmap : FMap result :=
  fun A B f r => match r with Ok a => Ok (f a) | Err e => Err e end.

#[global] Instance result_eq_dec {A} `{EqDecision A} : EqDecision (result A).
Proof. solve_decision. Defined.

(** [guard_or b e] models a guard that raises [e] unless [b]. *)
Definition guard_or (b : bool) (e : exn) : result unit :=
  if b then Ok tt else Err e.

Definition is_ok {A} (r : result A) : bool :=
  match r with Ok _ => true | Err _ => false end.

Lemma bind_Ok {A B} (r : result A) (f : A -> result B) b :
  (r ≫= f) = Ok b <-> exists a, r = Ok a /\ f a = Ok b.
Proof.
  destruct r; simpl; split; [eauto|intros (?&[= <-]&?); done|done|intros (?&?&?); done].
Qed.

Lemma bind_of_Ok {A B} (a : A) (f : A -> result B) : (Ok a ≫= f) = f a.
Proof. done. Qed.

(** Left fold of a loop body that may raise. *)
Fixpoint foldM {A S : Type} (f : S -> A -> result S) (s : S) (l : list A) : result S :=
  match l with
  | [] => Ok s
  | x :: l => s' ← f s x; foldM f s' l
  end.

Lemma foldM_app {A S} (f : S -> A -> result S) s l1 l2 :
  foldM f s (l1 ++ l2) = (s' ← foldM f s l1; foldM f s' l2).
Proof.
  revert s; induction l1 as [|x l1 IH]; intros s; [done|]; simpl.
  destruct (f s x); simpl; [apply IH|done].
Qed.

Lemma foldM_Ok {A S} (f : S -> A -> S) s l :
  foldM (fun s x => Ok (f s x)) s l = Ok (foldl f s l).
Proof. revert s; induction l; simpl; auto. Qed.

(** Simulation of a fallible computation by its specification: same
    exception, or related results. *)
Definition sim {S T : Type} (R : S -> T -> Prop) (r : result S) (t : result T) : Prop :=
  match r, t with
  | Ok s, Ok t => R s t
  | Err e, Err e' => e = e'
  | _, _ => False
  end.

Lemma foldM_sim {A S T} (R : S -> T -> Prop) (f : S -> A -> result S) (g : T -> A -> result T) l :
  forall s t, R s t -> (forall s t x, R s t -> x ∈ l -> sim R (f s x) (g t x)) ->
  sim R (foldM f s l) (foldM g t l).
Proof.
  induction l as [|x l IH]; intros s t Hst Hfg; [done|]. simpl.
  pose proof (Hfg s t x Hst (list_elem_of_here _ _)) as Hx.
  destruct (f s x), (g t x); simpl in *; try done.
  apply IH; [done|]. intros. apply Hfg; [done|by right].
Qed.

Lemma foldM_ext {A S} (f g : S -> A -> result S) (P : S -> Prop) s l :
  P s -> (forall s x, P s -> x ∈ l -> f s x = g s x) ->
  (forall s x s', P s -> x ∈ l -> g s x = Ok s' -> P s') -> foldM f s l = foldM g s l.
Proof.
  revert s. induction l as [|x l IH]; intros s Hs Hfg Hp; [done|]. simpl.
  rewrite Hfg by (done || left). destruct (g s x) as [s'|] eqn:E; [|done]. simpl.
  apply IH; [by eapply Hp; [..|left|]|..]; intros; [apply Hfg|eapply Hp]; try done; by right.
Qed.

(** ** Python sequences

    [len], indexing and slicing of [bytes], [bytearray] and [list], with
    Python's treatment of negative and out-of-range indices. *)

Abbreviation zlen l := (Z.of_nat (length l)).

Section Sequences.
Context {A : Type}.
Implicit Types (l v : list A) (i a b : Z).

(** [l[i]]: negative [i] counts from the end; [IndexError] out of range. *)
Definition index l i : result A :=
  let i := if i <? 0 then i + zlen l else i in
  if (0 <=? i) && (i <? zlen l)
  then match l !! Z.to_nat i with Some x => Ok x | None => Err IndexError end
  else Err IndexError.

(** Clamping of a slice bound. *)
Definition slice_bound (n i : Z) : Z :=
  if i <? 0 then Z.max 0 (i + n) else Z.min i n.

(** [l[a:b]] *)
Definition slice l a b : list A :=
  let a := slice_bound (zlen l) a in
  let b := slice_bound (zlen l) b in
  take (Z.to_nat (b - a)) (drop (Z.to_nat a) l).

(** [l[a:]] *)
Definition slice_from l a : list A :=
  drop (Z.to_nat (slice_bound (zlen l) a)) l.

(** [l[:b]] *)
Definition slice_to l b : list A :=
  take (Z.to_nat (slice_bound (zlen l) b)) l.

(** [l[a:b] = v] *)
Definition slice_assign l a b v : list A :=
  let a := slice_bound (zlen l) a in
  let b := Z.max a (slice_bound (zlen l) b) in
  take (Z.to_nat a) l ++ v ++ drop (Z.to_nat b) l.

(** [l[i] = x] *)
Definition set_item l i (x : A) : result (list A) :=
  let i := if i <? 0 then i + zlen l else i in
  if (0 <=? i) && (i <? zlen l) then Ok (<[Z.to_nat i := x]> l) else Err IndexError.

Lemma index_lookup l i x :
  0 <= i -> l !! Z.to_nat i = Some x -> index l i = Ok x.
Proof.
  intros Hi Hx. apply lookup_lt_Some in Hx as Hlt. unfold index.
  destruct (Z.ltb_spec i 0); [lia|].
  rewrite (proj2 (Z.leb_le 0 i)), (proj2 (Z.ltb_lt i (zlen l))) by lia.
  simpl. by rewrite Hx.
Qed.

Lemma index_Ok_inv l i x :
  0 <= i -> index l i = Ok x -> l !! Z.to_nat i = Some x.
Proof.
  unfold index. intros Hi. destruct (Z.ltb_spec i 0); [lia|].
  destruct ((0 <=? i) && (i <? zlen l)); [|done].
  destruct (l !! Z.to_nat i); naive_solver.
Qed.

Lemma index_Err l i : 0 <= i -> zlen l <= i -> index l i = Err IndexError.
Proof.
  intros. unfold index. destruct (Z.ltb_spec i 0); [lia|].
  rewrite (proj2 (Z.ltb_ge i (zlen l))) by lia. by rewrite andb_false_r.
Qed.

Lemma slice_nonneg l a b :
  0 <= a -> 0 <= b ->
  slice l a b = take (Z.to_nat b - Z.to_nat a) (drop (Z.to_nat a) l).
Proof.
  intros Ha Hb. unfold slice, slice_bound.
  destruct (Z.ltb_spec a 0), (Z.ltb_spec b 0); try lia.
  destruct (Z.le_gt_cases (zlen l) a).
  - rewrite !drop_ge by lia. by rewrite !take_nil.
  - rewrite (Z.min_l a) by lia. destruct (Z.le_gt_cases (zlen l) b).
    + rewrite !take_ge; [done|rewrite length_drop; lia..].
    + rewrite Z.min_l by lia. f_equal. lia.
Qed.

Lemma length_slice l a b :
  0 <= a <= b -> b <= zlen l -> length (slice l a b) = Z.to_nat (b - a).
Proof. intros. rewrite slice_nonneg, length_take, length_drop by lia. lia. Qed.

Lemma lookup_slice l a b (i : nat) :
  0 <= a -> a <= b -> (i < Z.to_nat (b - a))%nat ->
  slice l a b !! i = l !! (Z.to_nat a + i)%nat.
Proof.
  intros. rewrite slice_nonneg by lia.
  rewrite lookup_take_lt by lia. by rewrite lookup_drop.
Qed.

Lemma slice_to_nonneg l b : 0 <= b -> slice_to l b = take (Z.to_nat b) l.
Proof.
  intros. unfold slice_to, slice_bound. destruct (Z.ltb_spec b 0); [lia|].
  destruct (Z.le_gt_cases b (zlen l)); [by rewrite Z.min_l|].
  rewrite Z.min_r, !take_ge by lia. done.
Qed.

Lemma slice_from_nonneg l a : 0 <= a -> slice_from l a = drop (Z.to_nat a) l.
Proof.
  intros. unfold slice_from, slice_bound. destruct (Z.ltb_spec a 0); [lia|].
  destruct (Z.le_gt_cases a (zlen l)); [by rewrite Z.min_l|].
  rewrite Z.min_r, !drop_ge by lia. done.
Qed.

Lemma slice_full l b : zlen l <= b -> slice l 0 b = l.
Proof. intros. rewrite slice_nonneg by lia. rewrite drop_0, take_ge; [done|lia]. Qed.

Lemma slice_app_mid (l1 l2 l3 : list A) a b :
  a = zlen l1 -> b = a + zlen l2 -> slice (l1 ++ l2 ++ l3) a b = l2.
Proof.
  intros -> ->. rewrite slice_nonneg by lia.
  rewrite drop_app_length' by lia. by rewrite take_app_length' by lia.
Qed.

Lemma slice_app_l (l1 l2 : list A) a b :
  0 <= a -> 0 <= b -> b <= zlen l1 -> slice (l1 ++ l2) a b = slice l1 a b.
Proof.
  intros. rewrite !slice_nonneg by lia. destruct (decide (Z.to_nat a <= length l1)%nat).
  - rewrite drop_app_le by lia. rewrite take_app_le by (rewrite length_drop; lia). done.
  - by replace (Z.to_nat b - Z.to_nat a)%nat with 0%nat by lia.
Qed.

Lemma slice_assign_in l a b v :
  0 <= a <= b -> b <= zlen l ->
  slice_assign l a b v = take (Z.to_nat a) l ++ v ++ drop (Z.to_nat b) l.
Proof.
  intros. unfold slice_assign, slice_bound.
  destruct (Z.ltb_spec a 0), (Z.ltb_spec b 0); try lia.
  by rewrite !Z.min_l, Z.max_r by lia.
Qed.

Lemma length_slice_assign l a b v :
  0 <= a <= b -> b <= zlen l -> zlen v = b - a ->
  length (slice_assign l a b v) = length l.
Proof.
  intros. rewrite slice_assign_in by lia.
  rewrite !length_app, length_take, length_drop. lia.
Qed.

Lemma lookup_slice_assign l a b v (i : nat) :
  0 <= a <= b -> b <= zlen l -> zlen v = b - a ->
  slice_assign l a b v !! i =
  if (a <=? Z.of_nat i) && (Z.of_nat i <? b) then v !! Z.to_nat (Z.of_nat i - a) else l !! i.
Proof.
  intros Ha Hb Hv. rewrite slice_assign_in by lia.
  destruct (Z.leb_spec a (Z.of_nat i)), (Z.ltb_spec (Z.of_nat i) b); simpl.
  - rewrite lookup_app_r, length_take by (rewrite length_take; lia).
    rewrite lookup_app_l by lia. f_equal. lia.
  - rewrite lookup_app_r, length_take by (rewrite length_take; lia).
    rewrite lookup_app_r, lookup_drop by lia. f_equal. lia.
  - rewrite lookup_app_l, lookup_take_lt by (rewrite ?length_take; lia). done.
  - lia.
Qed.

Lemma set_item_Ok l i x :
  0 <= i < zlen l -> set_item l i x = Ok (<[Z.to_nat i := x]> l).
Proof.
  intros. unfold set_item. destruct (Z.ltb_spec i 0); [lia|].
  by rewrite (proj2 (Z.leb_le 0 i)), (proj2 (Z.ltb_lt i (zlen l))) by lia.
Qed.
End Sequences.

(** ** Bit-level reasoning on [Z]

    [bit_rewrite] pushes [Z.testbit] through the bit operations; [bitwise]
    proves an equality of integers bit by bit. *)

Create Rewrite HintDb bits.

Lemma testbit_ones_ltb n i : 0 <= n -> 0 <= i -> Z.testbit (Z.ones n) i = (i <? n).
Proof. intros. rewrite Z.testbit_ones_nonneg by lia. done. Qed.

Lemma testbit_pow2_sub1 n i :
  0 <= n -> 0 <= i -> Z.testbit (Z.shiftl 1 n - 1) i = (i <? n).
Proof.
  intros. rewrite Z.shiftl_mul_pow2, Z.mul_1_l by lia.
  replace (2 ^ n - 1) with (Z.ones n) by (rewrite Z.ones_equiv; lia).
  by apply testbit_ones_ltb.
Qed.

Lemma testbit_1 i : Z.testbit 1 i = (i =? 0).
Proof.
  destruct (Z.eqb_spec i 0) as [->|]; [done|].
  destruct (Z.le_gt_cases 0 i); [|by rewrite Z.testbit_neg_r by lia].
  change 1 with (2 ^ 0). apply Z.pow2_bits_false. lia.
Qed.

Lemma testbit_mod_pow2 a n i :
  0 <= n -> 0 <= i -> Z.testbit (a mod 2 ^ n) i = (i <? n) && Z.testbit a i.
Proof.
  intros. destruct (Z.ltb_spec i n).
  - by rewrite Z.mod_pow2_bits_low by lia.
  - by rewrite Z.mod_pow2_bits_high by lia.
Qed.

Lemma testbit_above z n i : 0 <= z < 2 ^ n -> n <= i -> Z.testbit z i = false.
Proof.
  intros Hz Hi. destruct (Z.le_gt_cases 0 n).
  - rewrite <- (Z.mod_small z (2 ^ n)) by lia. by apply Z.mod_pow2_bits_high; lia.
  - rewrite Z.pow_neg_r in Hz by lia. lia.
Qed.

#[export] Hint Rewrite Z.land_spec Z.lor_spec Z.lxor_spec Z.ldiff_spec
  Z.bits_0 testbit_1 andb_true_r andb_true_l andb_false_r andb_false_l
  orb_true_r orb_true_l orb_false_r orb_false_l xorb_false_r xorb_false_l : bits.
#[export] Hint Rewrite Z.shiftr_spec Z.shiftl_spec Z.lnot_spec testbit_ones_ltb
  testbit_pow2_sub1 testbit_mod_pow2 using lia : bits.

Ltac bit_rewrite := autorewrite with bits in *.

Ltac bit_case :=
  match goal with
  | |- context [?a <? ?b] => destruct (Z.ltb_spec a b)
  | |- context [?a <=? ?b] => destruct (Z.leb_spec a b)
  | |- context [?a =? ?b] => destruct (Z.eqb_spec a b)
  end.

(** Bits above a known bound are zero. *)
Ltac bit_above :=
  match goal with
  | H : 0 <= ?z < 2 ^ ?n |- context [Z.testbit ?z ?i] =>
      rewrite (testbit_above z n i H) by lia
  end.

(** A negative bit index reads [false]. *)
Ltac bit_below :=
  match goal with
  | |- context [Z.testbit ?z ?i] => rewrite (Z.testbit_neg_r z i) by lia
  end.

Ltac bitwise_core :=
  repeat (first [ progress bit_rewrite | bit_above | bit_below | bit_case ]);
  subst; try done; try lia; try btauto; try (f_equal; lia).

Ltac bitwise :=
  apply Z.bits_inj'; let i := fresh "i" in let Hi := fresh "Hi" in
  intros i Hi; bitwise_core.

Lemma land_low z n : 0 <= n -> Z.land z (Z.shiftl 1 n - 1) = z mod 2 ^ n.
Proof. intros. bitwise. Qed.

Lemma shiftl_1 n : 0 <= n -> Z.shiftl 1 n = 2 ^ n.
Proof. intros. rewrite Z.shiftl_mul_pow2 by lia. lia. Qed.

Lemma land_mod_8 n : Z.land n 7 = n mod 8.
Proof. change 7 with (Z.ones 3). rewrite Z.land_ones by lia. done. Qed.

Lemma shiftr_div_8 n : Z.shiftr n 3 = n / 8.
Proof. rewrite Z.shiftr_div_pow2 by lia. done. Qed.

Lemma bounded_bits z n :
  0 <= n -> 0 <= z -> (forall i, n <= i -> Z.testbit z i = false) -> z < 2 ^ n.
Proof.
  intros Hn Hz Hb. assert (z = z mod 2 ^ n) as ->.
  { bitwise. symmetry. rewrite Hb by lia. done. }
  apply Z.mod_pos_bound. lia.
Qed.

Lemma lor_bound a b n :
  0 <= a < 2 ^ n -> 0 <= b < 2 ^ n -> 0 <= Z.lor a b < 2 ^ n.
Proof.
  intros Ha Hb. assert (0 <= n) by (destruct (Z.le_gt_cases 0 n); [done|];
    rewrite Z.pow_neg_r in Ha by lia; lia).
  split; [apply Z.lor_nonneg; lia|].
  apply bounded_bits; [lia|apply Z.lor_nonneg; lia|].
  intros i ?. rewrite Z.lor_spec. by repeat bit_above.
Qed.

Lemma lxor_bound a b n :
  0 <= a < 2 ^ n -> 0 <= b < 2 ^ n -> 0 <= Z.lxor a b < 2 ^ n.
Proof.
  intros Ha Hb. assert (0 <= n) by (destruct (Z.le_gt_cases 0 n); [done|];
    rewrite Z.pow_neg_r in Ha by lia; lia).
  split; [apply Z.lxor_nonneg; lia|].
  apply bounded_bits; [lia|apply Z.lxor_nonneg; lia|].
  intros i ?. rewrite Z.lxor_spec. by repeat bit_above.
Qed.

Lemma land_bound a b n : 0 <= n -> 0 <= b < 2 ^ n -> 0 <= Z.land a b < 2 ^ n.
Proof.
  intros Hn Hb. split; [apply Z.land_nonneg; lia|].
  apply bounded_bits; [lia|apply Z.land_nonneg; lia|].
  intros i ?. rewrite Z.land_spec. bit_above. by rewrite andb_false_r.
Qed.

(** ** Bit vectors: integers as lists of booleans, least significant first *)

Definition bits_of (n : nat) (z : Z) : list bool :=
  (fun i => Z.testbit z (Z.of_nat i)) <$> seq 0 n.

Fixpoint Z_of_bits (l : list bool) : Z :=
  match l with
  | [] => 0
  | b :: l => Z.b2z b + 2 * Z_of_bits l
  end.

Lemma length_bits_of n z : length (bits_of n z) = n.
Proof. unfold bits_of. by rewrite length_fmap, length_seq. Qed.

Lemma lookup_bits_of n z i :
  (i < n)%nat -> bits_of n z !! i = Some (Z.testbit z (Z.of_nat i)).
Proof.
  intros. unfold bits_of. rewrite list_lookup_fmap, lookup_seq_lt by lia. done.
Qed.

Lemma lookup_bits_of_Some n z i b :
  bits_of n z !! i = Some b -> (i < n)%nat /\ b = Z.testbit z (Z.of_nat i).
Proof.
  intros H. apply lookup_lt_Some in H as Hlt. rewrite length_bits_of in Hlt.
  rewrite lookup_bits_of in H by done. split; congruence.
Qed.

Lemma bits_of_ext n z z' :
  (forall i, 0 <= i < Z.of_nat n -> Z.testbit z i = Z.testbit z' i) ->
  bits_of n z = bits_of n z'.
Proof.
  intros H. apply list_eq_same_length with n; rewrite ?length_bits_of; [done..|].
  intros i x y Hi. rewrite !lookup_bits_of by done. intros [= <-] [= <-]. apply H. lia.
Qed.

Lemma bits_of_testbit n z z' i :
  bits_of n z = bits_of n z' -> 0 <= i < Z.of_nat n -> Z.testbit z i = Z.testbit z' i.
Proof.
  intros H Hi. apply (f_equal (lookup (Z.to_nat i))) in H.
  rewrite !lookup_bits_of in H by lia. rewrite Z2Nat.id in H by lia. congruence.
Qed.

Lemma bits_of_app n m z :
  bits_of (n + m) z = bits_of n z ++ bits_of m (Z.shiftr z (Z.of_nat n)).
Proof.
  unfold bits_of. rewrite seq_app, fmap_app. f_equal.
  rewrite Nat.add_0_l, <- (Nat.add_0_r n), <- fmap_add_seq, <- list_fmap_compose.
  apply list_fmap_ext. intros i x [-> _]%lookup_seq. simpl.
  rewrite Z.shiftr_spec by lia. f_equal. lia.
Qed.

Lemma bits_of_mod n m z : (n <= m)%nat -> bits_of n (z mod 2 ^ Z.of_nat m) = bits_of n z.
Proof. intros. apply bits_of_ext. intros i ?. bitwise_core. Qed.

Lemma Z_of_bits_bound l : 0 <= Z_of_bits l < 2 ^ zlen l.
Proof.
  induction l as [|b l IH]; simpl length; [simpl; lia|].
  rewrite Nat2Z.inj_succ, Z.pow_succ_r by lia. simpl. destruct b; simpl; lia.
Qed.

Lemma testbit_Z_of_bits l i :
  Z.testbit (Z_of_bits l) (Z.of_nat i) = default false (l !! i).
Proof.
  revert i. induction l as [|b l IH]; intros i; [by rewrite Z.bits_0|].
  cbn [Z_of_bits]. rewrite Z.add_comm. destruct i as [|i]; simpl lookup.
  - rewrite Z.testbit_0_r. done.
  - rewrite Nat2Z.inj_succ, Z.testbit_succ_r by lia. apply IH.
Qed.

Lemma bits_of_Z_of_bits l : bits_of (length l) (Z_of_bits l) = l.
Proof.
  apply list_eq_same_length with (length l); rewrite ?length_bits_of; [done..|].
  intros i x y Hi. rewrite lookup_bits_of by done. rewrite testbit_Z_of_bits.
  intros [= <-] Hy. by rewrite Hy.
Qed.

Lemma Z_of_bits_bits_of n z : Z_of_bits (bits_of n z) = z mod 2 ^ Z.of_nat n.
Proof.
  apply Z.bits_inj'. intros i Hi. rewrite testbit_mod_pow2 by lia.
  rewrite <- (Z2Nat.id i Hi), testbit_Z_of_bits.
  destruct (Z.ltb_spec (Z.of_nat (Z.to_nat i)) (Z.of_nat n)).
  - by rewrite lookup_bits_of by lia.
  - by rewrite lookup_ge_None_2 by (rewrite length_bits_of; lia).
Qed.

Lemma Z_of_bits_app l1 l2 :
  Z_of_bits (l1 ++ l2) = Z_of_bits l1 + 2 ^ zlen l1 * Z_of_bits l2.
Proof.
  induction l1 as [|b l1 IH]; [simpl; lia|]. rewrite length_cons, Nat2Z.inj_succ.
  rewrite Z.pow_succ_r by lia. simpl. rewrite IH. lia.
Qed.

Lemma Z_of_bits_inj l1 l2 :
  length l1 = length l2 -> Z_of_bits l1 = Z_of_bits l2 -> l1 = l2.
Proof.
  intros Hlen H. rewrite <- (bits_of_Z_of_bits l1), <- (bits_of_Z_of_bits l2).
  congruence.
Qed.

(** ** Bytes: integers in [0, 256), little- and big-endian codecs *)

Definition is_byte (b : Z) : Prop := 0 <= b < 256.
Abbreviation bytes_ok := (Forall is_byte).

#[global] Instance is_byte_dec b : Decision (is_byte b).
Proof. unfold is_byte. apply _. Defined.

(** [int.from_bytes(bs, 'little')] *)
Fixpoint from_le (bs : list Z) : Z :=
  match bs with
  | [] => 0
  | b :: bs => b + 256 * from_le bs
  end.

(** The [n] low bytes of [v], least significant first. *)
Fixpoint le_bytes (n : nat) (v : Z) : list Z :=
  match n with
  | O => []
  | S n => v mod 256 :: le_bytes n (v / 256)
  end.

(** [int.from_bytes(bs, 'big')] *)
Definition from_be (bs : list Z) : Z := from_le (reverse bs).
Definition be_bytes (n : nat) (v : Z) : list Z := reverse (le_bytes n v).

(** [v.to_bytes(n, 'little')]: [ValueError] on a negative length,
    [OverflowError] when [v] is negative or does not fit. *)
Definition to_bytes_le (n v : Z) : result (list Z) :=
  if n <? 0 then Err ValueError
  else if (0 <=? v) && (v <? 256 ^ n) then Ok (le_bytes (Z.to_nat n) v)
  else Err OverflowError.

Definition to_bytes_be (n v : Z) : result (list Z) :=
  reverse <$> to_bytes_le n v.

Definition bytes_bits (bs : list Z) : list bool := bs ≫= bits_of 8.

Lemma length_le_bytes n v : length (le_bytes n v) = n.
Proof. revert v; induction n; intros; simpl; auto. Qed.

Lemma le_bytes_ok n v : bytes_ok (le_bytes n v).
Proof.
  revert v; induction n; intros; simpl; constructor; auto.
  apply Z.mod_pos_bound. lia.
Qed.

Lemma from_le_bound bs : bytes_ok bs -> 0 <= from_le bs < 256 ^ zlen bs.
Proof.
  induction 1 as [|b bs Hb _ IH]; [simpl; lia|].
  rewrite length_cons, Nat2Z.inj_succ, Z.pow_succ_r by lia. simpl.
  unfold is_byte in *. lia.
Qed.

Lemma from_le_le_bytes n v : from_le (le_bytes n v) = v mod 256 ^ Z.of_nat n.
Proof.
  revert v; induction n as [|n IH]; intros v; [by rewrite Z.mod_1_r|].
  rewrite Nat2Z.inj_succ, Z.pow_succ_r by lia. simpl. rewrite IH.
  rewrite Z.rem_mul_r by lia. done.
Qed.

Lemma le_bytes_from_le bs : bytes_ok bs -> le_bytes (length bs) (from_le bs) = bs.
Proof.
  unfold is_byte. induction 1 as [|b bs Hb _ IH]; [done|]. simpl.
  rewrite Z.mul_comm. rewrite Z.mod_add, Z.div_add by lia.
  rewrite Z.mod_small, Z.div_small, Z.add_0_l by lia. by rewrite IH.
Qed.

Lemma from_le_app bs1 bs2 :
  from_le (bs1 ++ bs2) = from_le bs1 + 256 ^ zlen bs1 * from_le bs2.
Proof.
  induction bs1 as [|b bs1 IH]; [simpl; lia|].
  rewrite length_cons, Nat2Z.inj_succ, Z.pow_succ_r by lia. simpl. rewrite IH. lia.
Qed.

Lemma to_bytes_le_Ok n v :
  0 <= n -> 0 <= v < 256 ^ n -> to_bytes_le n v = Ok (le_bytes (Z.to_nat n) v).
Proof.
  intros. unfold to_bytes_le. destruct (Z.ltb_spec n 0); [lia|].
  by rewrite (proj2 (Z.leb_le 0 v)), (proj2 (Z.ltb_lt v _)) by lia.
Qed.

Lemma pow_256 n : 0 <= n -> 256 ^ n = 2 ^ (8 * n).
Proof. intros. change 256 with (2 ^ 8). by rewrite <- Z.pow_mul_r by lia. Qed.

Lemma bytes_bits_cons b bs : bytes_bits (b :: bs) = bits_of 8 b ++ bytes_bits bs.
Proof. done. Qed.

Lemma bytes_bits_app bs1 bs2 : bytes_bits (bs1 ++ bs2) = bytes_bits bs1 ++ bytes_bits bs2.
Proof. apply bind_app. Qed.

Lemma length_bytes_bits bs : length (bytes_bits bs) = (8 * length bs)%nat.
Proof.
  induction bs as [|b bs IH]; [done|].
  rewrite bytes_bits_cons, length_app, IH, length_bits_of. simpl. lia.
Qed.

Lemma bits_of_from_le bs :
  bytes_ok bs -> bits_of (8 * length bs) (from_le bs) = bytes_bits bs.
Proof.
  unfold is_byte. induction 1 as [|b bs Hb Hbs IH]; [done|].
  replace (8 * length (b :: bs))%nat with (8 + 8 * length bs)%nat by (simpl; lia).
  rewrite bits_of_app, bytes_bits_cons. change (Z.of_nat 8) with 8.
  assert (Z.shiftr (from_le (b :: bs)) 8 = from_le bs) as Hhi.
  { rewrite Z.shiftr_div_pow2 by lia. change (2 ^ 8) with 256. simpl.
    rewrite Z.mul_comm, Z.div_add, Z.div_small by lia. lia. }
  rewrite Hhi, IH. f_equal.
  rewrite <- (bits_of_mod 8 8 (from_le _)) by lia. change (2 ^ Z.of_nat 8) with 256.
  cbn [from_le]. rewrite Z.mul_comm, Z.mod_add, Z.mod_small by lia. done.
Qed.

Lemma Z_of_bytes_bits bs : bytes_ok bs -> Z_of_bits (bytes_bits bs) = from_le bs.
Proof.
  intros Hbs. rewrite <- bits_of_from_le, Z_of_bits_bits_of by done.
  apply Z.mod_small. rewrite Nat2Z.inj_mul, <- pow_256 by lia. by apply from_le_bound.
Qed.

Lemma bits_of_le_bytes n v :
  bytes_bits (le_bytes n v) = bits_of (8 * n) v.
Proof.
  rewrite <- bits_of_from_le by apply le_bytes_ok.
  rewrite length_le_bytes, from_le_le_bytes, pow_256 by lia.
  rewrite <- (bits_of_mod (8 * n) (8 * n) v) by lia. do 3 f_equal. lia.
Qed.

Lemma lookup_bytes_bits bs (i : nat) :
  bytes_bits bs !! i =
  (fun b => Z.testbit b (Z.of_nat (i mod 8))) <$> (bs !! (i / 8)%nat).
Proof.
  revert i. induction bs as [|b bs IH]; intros i; [done|].
  rewrite bytes_bits_cons. destruct (decide (i < 8)%nat).
  - rewrite lookup_app_l by (rewrite length_bits_of; lia).
    rewrite lookup_bits_of by lia. rewrite Nat.mod_small, Nat.div_small by lia. done.
  - rewrite lookup_app_r by (rewrite length_bits_of; lia).
    rewrite length_bits_of, IH.
    assert (i mod 8 = (i - 8) mod 8)%nat as ->
      by (replace i with ((i - 8) + 1 * 8)%nat at 1 by lia; apply Nat.Div0.mod_add).
    assert (i / 8 = S ((i - 8) / 8))%nat as ->
      by (replace i with ((i - 8) + 1 * 8)%nat at 1 by lia; rewrite Nat.div_add; lia).
    done.
Qed.

Lemma insert_bytes_bits (bs : list Z) (i : nat) (b : Z) (v : bool) :
  bs !! (i / 8)%nat = Some b ->
  bytes_bits (<[(i / 8)%nat :=
      if v then Z.lor b (Z.shiftl 1 (Z.of_nat (i mod 8)))
      else Z.land b (Z.lnot (Z.shiftl 1 (Z.of_nat (i mod 8))))]> bs)
  = <[i := v]> (bytes_bits bs).
Proof.
  intros Hb. apply list_eq. intros j. rewrite lookup_bytes_bits.
  apply lookup_lt_Some in Hb as Hlt.
  destruct (decide (i = j)) as [<-|Hij].
  - rewrite !list_lookup_insert_eq; [|rewrite ?length_bytes_bits..];
      [|pose proof (Nat.div_mod_eq i 8); pose proof (Nat.mod_upper_bound i 8); lia|lia].
    simpl. f_equal. destruct v; bitwise_core.
  - rewrite (list_lookup_insert_ne (bytes_bits bs)), lookup_bytes_bits by done.
    destruct (decide (i / 8 = j / 8)%nat) as [Hd|];
      [|by rewrite list_lookup_insert_ne].
    rewrite Hd, list_lookup_insert_eq, <- Hd, Hb by lia. simpl. f_equal.
    assert (j mod 8 <> i mod 8)%nat
      by (pose proof (Nat.div_mod_eq i 8); pose proof (Nat.div_mod_eq j 8); lia).
    destruct v; bitwise_core.
Qed.

Lemma bytes_ok_app bs1 bs2 : bytes_ok (bs1 ++ bs2) <-> bytes_ok bs1 /\ bytes_ok bs2.
Proof. apply Forall_app. Qed.

Lemma bytes_ok_insert (bs : list Z) (i : nat) b : bytes_ok bs -> is_byte b -> bytes_ok (<[i:=b]> bs).
Proof. intros. by apply Forall_insert. Qed.

Lemma is_byte_setbit b k (v : bool) :
  is_byte b -> 0 <= k < 8 ->
  is_byte (if v then Z.lor b (Z.shiftl 1 k) else Z.land b (Z.lnot (Z.shiftl 1 k))).
Proof.
  unfold is_byte. change 256 with (2 ^ 8). intros Hb Hk. destruct v.
  - apply lor_bound; [done|]. rewrite shiftl_1 by lia.
    split; [lia|]. apply Z.pow_lt_mono_r; lia.
  - rewrite Z.land_comm. by apply land_bound.
Qed.

(** Two vectors with the same length and bits are equal: the form used to
    compare a routine with its reference. *)
Lemma take_bits_of n m z : (n <= m)%nat -> take n (bits_of m z) = bits_of n z.
Proof.
  intros. replace m with (n + (m - n))%nat by lia. rewrite bits_of_app.
  by rewrite take_app_length' by (by rewrite length_bits_of).
Qed.

Lemma bits_of_small n m z :
  (n <= m)%nat -> 0 <= z < 2 ^ Z.of_nat n ->
  bits_of m z = bits_of n z ++ replicate (m - n) false.
Proof.
  intros ? Hz. replace m with (n + (m - n))%nat at 1 by lia. rewrite bits_of_app.
  f_equal. rewrite Z.shiftr_div_pow2, Z.div_small by lia.
  generalize (m - n)%nat. intros k. apply list_eq_same_length with k;
    rewrite ?length_bits_of, ?length_replicate; [done..|].
  intros i x y Hi. rewrite lookup_bits_of, lookup_replicate_2 by done.
  rewrite Z.bits_0. congruence.
Qed.

Lemma bits_of_zero n : bits_of n 0 = replicate n false.
Proof.
  apply list_eq_same_length with n; rewrite ?length_bits_of, ?length_replicate; [done..|].
  intros i x y Hi. rewrite lookup_bits_of, lookup_replicate_2 by done.
  rewrite Z.bits_0. congruence.
Qed.

Lemma bits_of_minus1 n : bits_of n (-1) = replicate n true.
Proof.
  apply list_eq_same_length with n; rewrite ?length_bits_of, ?length_replicate; [done..|].
  intros i x y Hi. rewrite lookup_bits_of, lookup_replicate_2 by done.
  rewrite Z.bits_m1 by lia. congruence.
Qed.

Lemma le_bytes_snoc n v :
  le_bytes (S n) v = le_bytes n v ++ [(v / 256 ^ Z.of_nat n) mod 256].
Proof.
  revert v. induction n as [|n IH]; intros v.
  - simpl. change (Z.of_nat 0) with 0. by rewrite Z.pow_0_r, Z.div_1_r.
  - change (le_bytes (S (S n)) v) with (v mod 256 :: le_bytes (S n) (v / 256)).
    rewrite IH. simpl. do 3 f_equal.
    rewrite Nat2Z.inj_succ, Z.pow_succ_r by lia. by rewrite Z.div_div by lia.
Qed.

Lemma index_last {A} (l : list A) x : index (l ++ [x]) (-1) = Ok x.
Proof.
  unfold index. rewrite length_app, Nat2Z.inj_add. simpl length.
  destruct (Z.ltb_spec (-1) 0); [|lia].
  rewrite (proj2 (Z.leb_le 0 _)), (proj2 (Z.ltb_lt _ _)) by lia. simpl.
  replace (Z.to_nat _) with (length l) by lia.
  by rewrite lookup_app_r, Nat.sub_diag by lia.
Qed.

Lemma slice_to_last {A} (l : list A) x : slice_to (l ++ [x]) (-1) = l.
Proof.
  unfold slice_to, slice_bound. rewrite length_app. simpl length.
  destruct (Z.ltb_spec (-1) 0); [|lia].
  rewrite take_app_length' by lia. done.
Qed.

(** [(n + 7) // 8]: the number of bytes that hold [n] bits. *)
Definition byte_count (n : Z) : Z := (n + 7) / 8.

Lemma byte_count_spec n :
  0 <= n -> 0 <= byte_count n /\ 8 * byte_count n - 7 <= n <= 8 * byte_count n.
Proof. unfold byte_count. intros. Z.div_mod_to_equations. lia. Qed.

Lemma shiftr_byte_count n : Z.shiftr (n + 7) 3 = byte_count n.
Proof. apply shiftr_div_8. Qed.

Lemma pow_byte_count n : 0 <= n -> 2 ^ n <= 256 ^ byte_count n.
Proof.
  intros Hn. destruct (byte_count_spec n Hn). rewrite pow_256 by lia.
  apply Z.pow_le_mono_r; lia.
Qed.

Lemma drop_bits_of n m z : drop n (bits_of (n + m) z) = bits_of m (Z.shiftr z (Z.of_nat n)).
Proof. rewrite bits_of_app. by rewrite drop_app_length' by (by rewrite length_bits_of). Qed.

Lemma bytes_bits_drop n d : bytes_bits (drop n d) = drop (8 * n) (bytes_bits d).
Proof.
  revert d. induction n as [|n IH]; intros d; [by rewrite !drop_0|].
  destruct d as [|b d]; [by rewrite !drop_nil|].
  rewrite skipn_cons, IH, bytes_bits_cons.
  replace (8 * S n)%nat with (length (bits_of 8 b) + 8 * n)%nat by (rewrite length_bits_of; lia).
  by rewrite drop_app_add.
Qed.

Lemma bytes_bits_take n d : bytes_bits (take n d) = take (8 * n) (bytes_bits d).
Proof.
  revert d. induction n as [|n IH]; intros d; [by rewrite !take_0|].
  destruct d as [|b d]; [by rewrite !take_nil|].
  rewrite firstn_cons, bytes_bits_cons, IH, bytes_bits_cons.
  replace (8 * S n)%nat with (length (bits_of 8 b) + 8 * n)%nat by (rewrite length_bits_of; lia).
  by rewrite take_app_add.
Qed.

Lemma bytes_ok_slice d a b : bytes_ok d -> bytes_ok (slice d a b).
Proof. intros. unfold slice. by apply Forall_take, Forall_drop. Qed.

Lemma bytes_ok_le_inj d1 d2 :
  bytes_ok d1 -> bytes_ok d2 -> length d1 = length d2 -> from_le d1 = from_le d2 -> d1 = d2.
Proof.
  intros H1 H2 Hl H. rewrite <- (le_bytes_from_le d1), <- (le_bytes_from_le d2) by done.
  congruence.
Qed.

(** ** Single bits of a byte string *)

Lemma land_shiftr_1 b k : 0 <= k -> negb (Z.land (Z.shiftr b k) 1 =? 0) = Z.testbit b k.
Proof.
  intros. assert (Z.land (Z.shiftr b k) 1 = Z.b2z (Z.testbit b k)) as ->.
  { destruct (Z.testbit b k) eqn:E; bitwise; by rewrite ?Z.add_0_l, E. }
  by destruct (Z.testbit b k).
Qed.

Lemma land_shiftl_1 b k : 0 <= k -> negb (Z.land b (Z.shiftl 1 k) =? 0) = Z.testbit b k.
Proof.
  intros. assert (Z.land b (Z.shiftl 1 k) = if Z.testbit b k then 2 ^ k else 0) as ->.
  { rewrite shiftl_1 by lia. destruct (Z.testbit b k) eqn:E; bitwise;
      rewrite Z.pow2_bits_eqb by lia; bitwise_core; congruence. }
  assert (0 < 2 ^ k) by lia. destruct (Z.testbit b k); [|done].
  destruct (Z.eqb_spec (2 ^ k) 0); [lia|done].
Qed.

(** The position of byte [i / 8] and bit [i mod 8], over [nat]. *)
Lemma index_byte (d : list Z) i :
  0 <= i < 8 * zlen d ->
  exists b, d !! (Z.to_nat i / 8)%nat = Some b /\ index d (i / 8) = Ok b
    /\ bytes_bits d !! Z.to_nat i = Some (Z.testbit b (i mod 8)).
Proof.
  intros Hi. assert (Z.to_nat (i / 8) = Z.to_nat i / 8)%nat as Hd
    by (rewrite Z2Nat.inj_div by lia; done).
  destruct (lookup_lt_is_Some_2 d (Z.to_nat i / 8)%nat) as [b Hb].
  { rewrite <- Hd. Z.div_mod_to_equations. lia. }
  exists b. split_and!; [done| |].
  - apply index_lookup; [Z.div_mod_to_equations; lia|by rewrite Hd].
  - rewrite lookup_bytes_bits, Hb. simpl. do 2 f_equal.
    rewrite Nat2Z.inj_mod, Z2Nat.id by lia. done.
Qed.

Lemma index_unfold {A} (l : list A) i :
  index l i = match (if i <? 0 then i + zlen l else i) with
              | i' => if 0 <=? i' then match l !! Z.to_nat i' with
                                       | Some x => Ok x | None => Err IndexError end
                      else Err IndexError end.
Proof.
  unfold index. set (j := if i <? 0 then _ else _).
  destruct (Z.leb_spec 0 j); [|done]. simpl. destruct (Z.ltb_spec j (zlen l)); [done|].
  by rewrite lookup_ge_None_2 by lia.
Qed.

Lemma seqZ_snoc a n : 0 <= n -> seqZ a (n + 1) = seqZ a n ++ [a + n].
Proof. intros. by rewrite seqZ_app, (seqZ_cons (a + n) 1) by lia. Qed.

Lemma align_down_pow2 a k : 0 <= k -> Z.land a (Z.lnot (2 ^ k - 1)) = a / 2 ^ k * 2 ^ k.
Proof.
  intros. rewrite <- Z.ldiff_land. replace (2 ^ k - 1) with (Z.ones k) by (rewrite Z.ones_equiv; lia).
  rewrite Z.ldiff_ones_r by lia. by rewrite Z.shiftr_div_pow2, Z.shiftl_mul_pow2 by lia.
Qed.

Lemma lor_low_ones a k : 0 <= k -> Z.lor a (2 ^ k - 1) = a / 2 ^ k * 2 ^ k + (2 ^ k - 1).
Proof.
  intros. rewrite <- Z.shiftr_div_pow2, <- Z.shiftl_mul_pow2 by lia.
  replace (2 ^ k - 1) with (Z.ones k) by (rewrite Z.ones_equiv; lia).
  assert (Z.land (Z.shiftl (Z.shiftr a k) k) (Z.ones k) = 0) as H0 by bitwise.
  rewrite Z.add_nocarry_lxor, Z.lxor_lor by done. bitwise.
Qed.

(** ** Sums of bytes and checksums *)

Definition sum_bytes (l : list Z) : Z := foldr Z.add 0 l.

Lemma sum_bytes_app l1 l2 : sum_bytes (l1 ++ l2) = sum_bytes l1 + sum_bytes l2.
Proof. induction l1 as [|b l1 IH]; simpl; [done|]. unfold sum_bytes in *. lia. Qed.

Lemma sum_bytes_insert l (i : nat) b b0 :
  l !! i = Some b0 -> sum_bytes (<[i := b]> l) = sum_bytes l - b0 + b.
Proof.
  revert i. induction l as [|x l IH]; intros i Hi; [done|]. destruct i as [|i]; simpl in *.
  - injection Hi as ->. unfold sum_bytes. lia.
  - specialize (IH i Hi). unfold sum_bytes in *. lia.
Qed.

Lemma land_ff_mod n : Z.land n 255 = n mod 256.
Proof. change 255 with (Z.ones 8). by rewrite Z.land_ones. Qed.

Lemma land_ff_byte n : is_byte (Z.land n 255).
Proof. rewrite land_ff_mod. apply Z.mod_pos_bound. lia. Qed.

(** ** [sorted(..., key=...)]

    The sort is stable. *)

Section Sort.
Context {A : Type} (key : A -> Z).

Fixpoint insert_by (x : A) (l : list A) : list A :=
  match l with
  | [] => [x]
  | y :: l => if key x <? key y then x :: y :: l else y :: insert_by x l
  end.

Definition sort_by (l : list A) : list A := foldl (fun acc x => insert_by x acc) [] l.

Lemma insert_by_perm x l : insert_by x l ≡ₚ x :: l.
Proof.
  induction l as [|y l IH]; simpl; [done|]. destruct (key x <? key y); [done|].
  rewrite IH. apply Permutation_swap.
Qed.

Lemma sort_by_perm l : sort_by l ≡ₚ l.
Proof.
  unfold sort_by. assert (forall acc, foldl (fun acc x => insert_by x acc) acc l ≡ₚ l ++ acc) as H.
  { induction l as [|x l IH]; intros acc; simpl; [done|]. rewrite IH, insert_by_perm.
    symmetry. apply Permutation_middle. }
  by rewrite H, app_nil_r.
Qed.

Abbreviation ascending l := (StronglySorted (fun x y => key x <= key y) l).

Lemma insert_by_sorted x l : ascending l -> ascending (insert_by x l).
Proof.
  induction 1 as [|y l Hl IH Hy]; simpl; [repeat constructor|].
  destruct (Z.ltb_spec (key x) (key y)).
  - constructor; [by constructor|]. constructor; [lia|].
    eapply Forall_impl; [exact Hy|]. simpl. lia.
  - constructor; [done|]. rewrite insert_by_perm. by constructor; [lia|].
Qed.

Lemma sort_by_sorted l : ascending (sort_by l).
Proof.
  unfold sort_by. assert (ascending (@nil A)) as H by constructor. revert H. generalize (@nil A) as acc.
  induction l as [|x l IH]; intros acc H; simpl; [done|]. by apply IH, insert_by_sorted.
Qed.

(** Sorting a list that is in order changes nothing. *)
Lemma insert_by_last x l : Forall (fun y => key y <= key x) l -> insert_by x l = l ++ [x].
Proof.
  induction 1 as [|y l Hy Hl IH]; simpl; [done|].
  destruct (Z.ltb_spec (key x) (key y)); [lia|]. by rewrite IH.
Qed.

Lemma sort_by_id l : ascending l -> sort_by l = l.
Proof.
  unfold sort_by. intros Hl.
  assert (forall acc, Forall (fun y => Forall (fun x => key y <= key x) l) acc ->
            foldl (fun acc x => insert_by x acc) acc l = acc ++ l) as H; [|by rewrite H].
  induction Hl as [|x l Hl IH Hx]; intros acc Hacc; simpl; [by rewrite app_nil_r|].
  rewrite insert_by_last, IH, <- app_assoc; [done| |].
  - apply Forall_app; split; [|by constructor].
    eapply Forall_impl; [exact Hacc|]. intros y. simpl. by inversion 1.
  - eapply Forall_impl; [exact Hacc|]. intros y. simpl. by inversion 1.
Qed.
End Sort.

Lemma sort_by_fmap {A B} (kA : A -> Z) (kB : B -> Z) (f : A -> B) l :
  (forall x, kB (f x) = kA x) -> sort_by kB (f <$> l) = f <$> sort_by kA l.
Proof.
  intros Hk. unfold sort_by. rewrite foldl_fmap. change (@nil B) with (f <$> @nil A) at 1.
  generalize (@nil A) as acc. induction l as [|x l IH]; intros acc; [done|]. cbn [foldl]. rewrite <- IH. f_equal.
  induction acc as [|y acc IHa]; [done|]. cbn [fmap list_fmap insert_by]. rewrite !Hk.
  destruct (kA x <? kA y); [done|]. cbn [fmap list_fmap]. f_equal. exact IHa.
Qed.

(** ** Loops that collect their results, uniform concatenations *)

Lemma foldM_collect {A B} (f : A -> result B) (P : A -> B -> Prop) l :
  (forall x, x ∈ l -> exists y, f x = Ok y /\ P x y) -> forall acc,
  exists ys, foldM (fun out x => y ← f x; Ok (out ++ [y])) acc l = Ok (acc ++ ys)
             /\ Forall2 P l ys.
Proof.
  induction l as [|x l IH]; intros Hl acc.
  - exists []. split; [by rewrite app_nil_r|constructor].
  - destruct (Hl x) as (y & Hy & Hp); [by left|]. cbn [foldM]. rewrite Hy, !bind_of_Ok.
    destruct (IH (fun z Hz => Hl z (list_elem_of_further _ _ _ Hz)) (acc ++ [y])) as (ys & -> & Hf).
    exists (y :: ys). split; [by rewrite <- app_assoc|by constructor].
Qed.

Lemma lookup_bind_uniform {A B} (f : A -> list B) k (l : list A) i :
  (0 < k)%nat -> (forall x, length (f x) = k) ->
  (l ≫= f) !! i = l !! (i / k)%nat ≫= fun x => f x !! (i mod k)%nat.
Proof.
  intros Hk Hf. revert i. induction l as [|x l IH]; intros i; [done|].
  cbn [mbind list_bind]. change (list_bind A B f l) with (l ≫= f).
  destruct (decide (i < k)%nat) as [Hlt|Hge].
  - rewrite lookup_app_l by (by rewrite Hf). rewrite Nat.div_small, Nat.mod_small by done. done.
  - rewrite lookup_app_r, Hf, IH by (rewrite Hf; lia).
    assert (i / k = S ((i - k) / k) /\ i mod k = (i - k) mod k)%nat as [-> ->]; [|done].
    replace i with (i - k + 1 * k)%nat at 1 3 by lia.
    by rewrite Nat.div_add, Nat.Div0.mod_add, Nat.add_1_r by lia.
Qed.

Lemma index_app_l {A} (l1 l2 : list A) i : 0 <= i < zlen l1 -> index (l1 ++ l2) i = index l1 i.
Proof.
  intros Hi. destruct (lookup_lt_is_Some_2 l1 (Z.to_nat i)) as [x Hx]; [lia|].
  rewrite (index_lookup l1 i x), (index_lookup _ i x); try lia; try done.
  by apply lookup_app_l_Some.
Qed.

(** [lia] with quotients and remainders by constants. *)
Ltac div_lia := Z.to_euclidean_division_equations; lia.

Lemma lor_shiftl a b k : 0 <= k -> 0 <= b < 2 ^ k -> Z.lor (Z.shiftl a k) b = a * 2 ^ k + b.
Proof.
  intros Hk Hb. rewrite <- Z.shiftl_mul_pow2 by done.
  assert (Z.land (Z.shiftl a k) b = 0) as H0.
  { apply Z.bits_inj'. intros i Hi. bit_rewrite. destruct (Z.lt_ge_cases i k); bitwise_core. }
  pose proof (Z.add_lor_land (Z.shiftl a k) b). lia.
Qed.

Lemma land_pow2_ones z n : 0 <= n -> Z.land z (2 ^ n - 1) = z mod 2 ^ n.
Proof. intros. rewrite <- land_low, shiftl_1 by done. done. Qed.
