(* ===== verification/BitString.v ===== *)
(** * Bit strings (src/acrobe/bitstring.py)

    The three concrete classes of the module: the append-optimised
    [BitString] with its chunk list, partial last byte and memoised [data];
    the [BitStringSlice] window; the fixed-length [MutableBitString].
    Objects are values here: a method that mutates its receiver returns the
    new object, a slice carries the object it was cut from.

    [bits] abstracts every object to the list of its bits, first shifted
    bit first.  [layout_ok] is the representation invariant the reading
    operations need; [clean] adds that the unused high bits of the last
    byte are zero, which appending relies on. *)

From S2P Require Import Prelude.

(** ** Data *)

Record BitString := mkBitString {
  bs_bytes : list (list Z);       (* self._bytes *)
  bs_last : Z;                    (* self._last_byte *)
  bs_length : Z;                  (* self._length *)
  bs_cache : option (list Z);     (* self._data_cache *)
}.

Record MutableBitString := mkMutable {
  mb_data : list Z;               (* self._data, a bytearray *)
  mb_length : Z;                  (* self._length *)
}.

(** What a [BitStringSlice] may be cut from. *)
Inductive source : Type :=
  | SrcStr (s : BitString)
  | SrcMut (m : MutableBitString).

Record BitStringSlice := mkSlice {
  sl_bs : source;                 (* self._bs *)
  sl_begin : Z;                   (* self._begin *)
  sl_end : Z;                     (* self._end *)
}.

(** An instance of [BitStringBase]. *)
Inductive base : Type :=
  | BStr (s : BitString)
  | BSlice (s : BitStringSlice)
  | BMut (m : MutableBitString).

(** What the constructor and [append] accept. *)
Inductive arg : Type :=
  | AInt (z : Z)
  | ABytes (d : list Z)
  | ABase (b : base).

(** ** Reading: [len], [data], [int] *)

(** [b''.join(self._bytes + ...)] *)
Definition joined (s : BitString) : list Z :=
  if Z.land (bs_length s) 7 =? 0
  then concat (bs_bytes s)
  else concat (bs_bytes s) ++ [bs_last s].

(** The property [BitString.data]; [data_fill] is the receiver afterwards,
    with the join memoised. *)
Definition data (s : BitString) : result (list Z) :=
  match bs_cache s with
  | Some d => Ok d
  | None =>
      let d := joined s in
      if (0 <=? bs_length s) && (bs_length s <=? zlen d * 8) then Ok d
      else Err AssertionError
  end.

Definition data_fill (s : BitString) : BitString :=
  match bs_cache s with
  | Some _ => s
  | None => mkBitString (bs_bytes s) (bs_last s) (bs_length s) (Some (joined s))
  end.

Definition source_data (src : source) : result (list Z) :=
  match src with SrcStr s => data s | SrcMut m => Ok (mb_data m) end.

Definition source_length (src : source) : Z :=
  match src with SrcStr s => bs_length s | SrcMut m => mb_length m end.

(** [BitStringBase.__int__]: the bytes as a little-endian integer, masked to
    the length. *)
Definition base_int (d : list Z) (len : Z) : Z :=
  Z.land (from_le d) (Z.shiftl 1 len - 1).

(** [BitStringSlice.__int__] *)
Definition slice_int (s : BitStringSlice) : result Z :=
  let length := sl_end s - sl_begin s in
  if length =? 0 then Ok 0
  else
    let begin_byte := Z.shiftr (sl_begin s) 3 in
    let end_byte := Z.shiftr (sl_end s + 7) 3 in
    d ← source_data (sl_bs s);
    let blob := slice d begin_byte end_byte in
    let begin_bit := Z.land (sl_begin s) 7 in
    Ok (Z.land (Z.shiftr (from_le blob) begin_bit) (Z.shiftl 1 length - 1)).

(** [BitStringSlice.data] *)
Definition slice_data (s : BitStringSlice) : result (list Z) :=
  let length := sl_end s - sl_begin s in
  if length =? 0 then Ok []
  else if (Z.land (sl_begin s) 7 =? 0) && (Z.land length 7 =? 0) then
    let begin_byte := Z.shiftr (sl_begin s) 3 in
    d ← source_data (sl_bs s);
    Ok (slice d begin_byte (begin_byte + Z.shiftr length 3))
  else
    v ← slice_int s;
    to_bytes_le (Z.shiftr (length + 7) 3) v.

Definition base_len (b : base) : Z :=
  match b with
  | BStr s => bs_length s
  | BSlice s => sl_end s - sl_begin s
  | BMut m => mb_length m
  end.

Definition base_data (b : base) : result (list Z) :=
  match b with
  | BStr s => data s
  | BSlice s => slice_data s
  | BMut m => Ok (mb_data m)
  end.

(** [int(b)]: slices override [__int__], the others inherit it. *)
Definition to_int (b : base) : result Z :=
  match b with
  | BSlice s => slice_int s
  | _ => d ← base_data b; Ok (base_int d (base_len b))
  end.

(** [BitStringBase.__eq__] *)
Definition base_eq (a b : base) : result bool :=
  if negb (base_len a =? base_len b) then Ok false
  else da ← base_data a; db ← base_data b; Ok (bool_decide (da = db)).

(** ** Appending and construction *)

(** [data.ljust(n, b'\x00')] *)
Definition ljust (d : list Z) (n : Z) : list Z :=
  d ++ replicate (Z.to_nat (n - zlen d)) 0.

Definition bs_empty : BitString := mkBitString [] 0 0 None.

(** The common tail of [append]: record [length] more bits, held in [d],
    after the bytes of [s]. *)
Definition append_tail (s : BitString) (d : list Z) (length : Z) : result BitString :=
  let total := bs_length s + length in
  if Z.land total 7 =? 0 then Ok (mkBitString (bs_bytes s ++ [d]) 0 total None)
  else
    last ← index d (-1);
    Ok (mkBitString (bs_bytes s ++ [slice_to d (-1)]) last total None).

Definition set_length (s : BitString) (n : Z) : BitString :=
  mkBitString (bs_bytes s) (bs_last s) n (bs_cache s).

(** The [bytes] branch of [append]. *)
Definition append_bytes (s : BitString) (d : list Z) (length : option Z) : result BitString :=
  let '(d, length) :=
    match length with
    | None => (d, zlen d * 8)
    | Some n => (ljust d ((n + 7) / 8), n)
    end in
  let k := Z.land (bs_length s) 7 in
  if k =? 0 then append_tail s d length
  else
    let v := Z.lor (Z.shiftl (from_le d) k) (bs_last s) in
    let length := length + k in
    d ← to_bytes_le ((length + 7) / 8) v;
    append_tail (set_length s (Z.land (bs_length s) (Z.lnot 7))) d length.

(** The [int] branch of [append]. A missing length makes [1 << length] raise
    [TypeError], a negative one [ValueError]. *)
Definition append_int (s : BitString) (z : Z) (length : option Z) : result BitString :=
  match length with
  | None => Err TypeError
  | Some length =>
      if length <? 0 then Err ValueError
      else
        let z := if z <? 0 then z + Z.shiftl 1 length else z in
        let z := Z.land z (Z.shiftl 1 length - 1) in
        let k := Z.land (bs_length s) 7 in
        if k =? 0 then d ← to_bytes_le ((length + 7) / 8) z; append_tail s d length
        else
          let z := Z.lor (Z.shiftl z k) (bs_last s) in
          let length := length + k in
          d ← to_bytes_le ((length + 7) / 8) z;
          append_tail (set_length s (Z.land (bs_length s) (Z.lnot 7))) d length
  end.

(** [BitString.append] *)
Definition append (s : BitString) (a : arg) (length : option Z) : result BitString :=
  match a with
  | AInt z => append_int s z length
  | ABytes d => append_bytes s d length
  | ABase b =>
      if negb (Z.land (bs_length s) 7 =? 0)
      then v ← to_int b; append_int s v (Some (base_len b))
      else d ← base_data b; append_bytes s d (Some (base_len b))
  end.

(** [BitString.__init__] *)
Definition bs_init (a : option arg) (length : option Z) : result BitString :=
  match a, length with
  | None, _ => Ok bs_empty
  | Some (AInt z), Some length =>
      if length <? 0 then Err ValueError
      else
        let z := if z <? 0 then z + Z.shiftl 1 length else z in
        let z := Z.land z (Z.shiftl 1 length - 1) in
        raw ← to_bytes_le (Z.shiftr (length + 7) 3) z;
        let cache := if length =? 0 then None else Some raw in
        if Z.land length 7 =? 0 then Ok (mkBitString [raw] 0 length cache)
        else last ← index raw (-1); Ok (mkBitString [slice_to raw (-1)] last length cache)
  | Some (ABase (BStr s)), None => Ok s
  | Some (ABytes d), Some length =>
      if zlen d =? Z.shiftr (length + 7) 3 then
        if Z.land length 7 =? 0 then Ok (mkBitString [d] 0 length (Some d))
        else last ← index d (-1); Ok (mkBitString [slice_to d (-1)] last length (Some d))
      else append bs_empty (ABytes d) (Some length)
  | Some a, length => append bs_empty a length
  end.

(** [BitString.__iadd__] *)
Definition bs_iadd (s : BitString) (other : base) : result BitString :=
  match bs_length s =? 0, other with
  | true, BStr o => Ok (mkBitString (bs_bytes o) (bs_last o) (bs_length o) None)
  | _, _ => if base_len other =? 0 then Ok s else append s (ABase other) None
  end.

(** [BitString.__add__], with its fast path for results of at most 256 bits. *)
Definition bs_add (s : BitString) (other : base) : result BitString :=
  let self_len := bs_length s in
  let other_len := base_len other in
  if other_len =? 0 then bs_init (Some (ABase (BStr s))) None
  else if self_len =? 0 then
    match other with
    | BStr o => bs_init (Some (ABase (BStr o))) None
    | _ => v ← to_int other; bs_init (Some (AInt v)) (Some other_len)
    end
  else
    let total := self_len + other_len in
    if total <=? 256 then
      a ← to_int (BStr s);
      b ← to_int other;
      bs_init (Some (AInt (Z.lor a (Z.shiftl b self_len)))) (Some total)
    else
      n ← bs_init (Some (ABase (BStr s))) None;
      append n (ABase other) None.

(** [BitStringSlice.__add__] *)
Definition slice_add (s : BitStringSlice) (other : base) : result BitString :=
  v ← slice_int s;
  n ← bs_init (Some (AInt v)) (Some (sl_end s - sl_begin s));
  append n (ABase other) None.

(** ** Element access *)

(** The clamping of [offset.start] and [offset.stop] every slicing method
    begins with. *)
Definition slice_range (len : Z) (b e : option Z) : Z * Z :=
  let b := match b with None => 0 | Some b => if b <? 0 then b + len else b end in
  let e := match e with None => len | Some e => if e <? 0 then e + len else e end in
  (Z.max 0 (Z.min b len), Z.max 0 (Z.min e len)).

Definition zero_bits : BitString := mkBitString [[]] 0 0 None.

(** [BitString.__getitem__] and [MutableBitString.__getitem__] on a slice *)
Definition getitem_slice (src : source) (b e : option Z) : base :=
  let '(b, e) := slice_range (source_length src) b e in
  if e <=? b then BStr zero_bits else BSlice (mkSlice src b e).

(** [BitStringSlice.__getitem__] on a slice *)
Definition slice_getitem_slice (s : BitStringSlice) (b e : option Z) : base :=
  let '(b, e) := slice_range (sl_end s - sl_begin s) b e in
  if e <=? b then BStr zero_bits
  else BSlice (mkSlice (sl_bs s) (sl_begin s + b) (sl_begin s + e)).

(** [BitString.__getitem__] on an integer *)
Definition bs_getitem (s : BitString) (offset : Z) : result bool :=
  let offset := if offset <? 0 then offset + bs_length s else offset in
  if (0 <=? offset) && (offset <? bs_length s) then
    d ← data s;
    b ← index d (offset / 8);
    Ok (negb (Z.land (Z.shiftr b (Z.land offset 7)) 1 =? 0))
  else Err IndexError.

(** [BitStringSlice.__getitem__] on an integer: there is no range check
    against the slice itself. *)
Definition slice_getitem (s : BitStringSlice) (offset : Z) : result bool :=
  let offset := if offset <? 0 then offset + (sl_end s - sl_begin s) else offset in
  let abs_offset := sl_begin s + offset in
  d ← source_data (sl_bs s);
  b ← index d (abs_offset / 8);
  Ok (negb (Z.land b (Z.shiftl 1 (Z.land abs_offset 7)) =? 0)).

(** [MutableBitString.__getitem__] on an integer *)
Definition mb_getitem (m : MutableBitString) (offset : Z) : result bool :=
  let offset := if offset <? 0 then offset + mb_length m else offset in
  if (0 <=? offset) && (offset <? mb_length m) then
    b ← index (mb_data m) (Z.shiftr offset 3);
    Ok (negb (Z.land (Z.shiftr b (Z.land offset 7)) 1 =? 0))
  else Err IndexError.

Definition base_getitem (b : base) (i : Z) : result bool :=
  match b with
  | BStr s => bs_getitem s i
  | BSlice s => slice_getitem s i
  | BMut m => mb_getitem m i
  end.

(** [flat[i] op= ...] on a bytearray *)
Definition update_byte (flat : list Z) (i : Z) (f : Z -> Z) : result (list Z) :=
  b ← index flat i; set_item flat i (f b).

(** One bit written into a bytearray: set when [v], cleared otherwise. *)
Definition write_bit (flat : list Z) (pos : Z) (v : bool) : result (list Z) :=
  update_byte flat (Z.shiftr pos 3) (fun b =>
    if v then Z.lor b (Z.shiftl 1 (Z.land pos 7))
    else Z.land b (Z.lnot (Z.shiftl 1 (Z.land pos 7)))).

(** The loop body of [BitString.__setitem__] on a slice: clear, then set. *)
Definition write_bit_clear_set (flat : list Z) (pos : Z) (v : bool) : result (list Z) :=
  flat ← update_byte flat (pos / 8) (fun b => Z.land b (Z.lnot (Z.shiftl 1 (Z.land pos 7))));
  if v then update_byte flat (pos / 8) (fun b => Z.lor b (Z.shiftl 1 (Z.land pos 7)))
  else Ok flat.

(** [BitString.__setitem__] on a slice *)
Definition bs_setitem_slice (s : BitString) (b e : option Z) (value : base) : result BitString :=
  let '(b, e) := slice_range (bs_length s) b e in
  let slice_len := e - b in
  if negb (base_len value =? slice_len) then Err ValueError
  else if slice_len =? 0 then Ok s
  else
    let flat := joined s in                        (* self._coalesce() *)
    val_int ← to_int value;
    flat ← foldM (fun flat i =>
        write_bit_clear_set flat (b + i) (negb (Z.land val_int (Z.shiftl 1 i) =? 0)))
      flat (seqZ 0 slice_len);
    if Z.land (bs_length s) 7 =? 0 then Ok (mkBitString [flat] 0 (bs_length s) None)
    else last ← index flat (-1);
         Ok (mkBitString [slice_to flat (-1)] last (bs_length s) None).

(** [BitString.__setitem__] on an integer *)
Definition bs_setitem (s : BitString) (offset : Z) (value : bool) : result BitString :=
  let offset := if offset <? 0 then offset + bs_length s else offset in
  if (0 <=? offset) && (offset <? bs_length s) then
    let byte_idx := offset / 8 in
    let bit_idx := Z.land offset 7 in
    let f := fun b => if value then Z.lor b (Z.shiftl 1 bit_idx)
                      else Z.land b (Z.lnot (Z.shiftl 1 bit_idx)) in
    if byte_idx <? zlen (concat (bs_bytes s)) then
      flat ← update_byte (concat (bs_bytes s)) byte_idx f;
      Ok (mkBitString [flat] (bs_last s) (bs_length s) None)
    else Ok (mkBitString (bs_bytes s) (f (bs_last s)) (bs_length s) None)
  else Err IndexError.

(** [MutableBitString.__init__]: the seed's bytes, cut or extended to the
    exact byte count, junk past the last bit cleared. *)
Definition mb_init (a : option arg) (length : option Z) : result MutableBitString :=
  seed ← bs_init a length;
  d ← data seed;
  let expected := (bs_length seed + 7) / 8 in
  let d := if zlen d <? expected then d ++ replicate (Z.to_nat (expected - zlen d)) 0
           else if expected <? zlen d then slice_to d expected else d in
  let excess := Z.land (bs_length seed) 7 in
  d ← (if (excess =? 0) || (zlen d =? 0) then Ok d
       else update_byte d (-1) (fun b => Z.land b (Z.shiftl 1 excess - 1)));
  Ok (mkMutable d (bs_length seed)).

(** [MutableBitString.__setitem__] on an integer *)
Definition mb_setitem (m : MutableBitString) (offset : Z) (value : bool) : result MutableBitString :=
  let offset := if offset <? 0 then offset + mb_length m else offset in
  if (0 <=? offset) && (offset <? mb_length m) then
    d ← write_bit (mb_data m) offset value;
    Ok (mkMutable d (mb_length m))
  else Err IndexError.

(** [MutableBitString.__setitem__] on a slice: [step] other than 1 is
    refused, a length mismatch writes the common prefix. *)
Definition mb_setitem_slice (m : MutableBitString) (b e step : option Z) (value : base)
  : result MutableBitString :=
  if negb (match step with None => true | Some s => s =? 1 end) then Err ValueError
  else
    let '(b, e) := slice_range (mb_length m) b e in
    let n := Z.min (e - b) (base_len value) in
    d ← foldM (fun d i => v ← base_getitem value i; write_bit d (b + i) v)
          (mb_data m) (seqZ 0 n);
    Ok (mkMutable d (mb_length m)).

(** [MutableBitString.__getitem__] on a slice *)
Definition mb_getitem_slice (m : MutableBitString) (b e step : option Z) : result base :=
  if negb (match step with None => true | Some s => s =? 1 end) then Err ValueError
  else Ok (getitem_slice (SrcMut m) b e).

(** [BitStringBase.reversed] *)
Definition base_reversed (b : base) : result BitString :=
  let n := base_len b in
  if n =? 0 then Ok bs_empty
  else
    v ← to_int b;
    let rev := foldl (fun rev i =>
        if Z.land v (Z.shiftl 1 i) =? 0 then rev else Z.lor rev (Z.shiftl 1 (n - 1 - i)))
      0 (seqZ 0 n) in
    bs_init (Some (AInt rev)) (Some n).

(** [BitStringBase.__cbor_encode__] and [__cbor_decode__] *)
Definition cbor_encode (b : base) : result (Z * list Z) :=
  d ← base_data b; Ok (base_len b, d).
Definition cbor_decode (w : Z * list Z) : result BitString :=
  bs_init (Some (ABytes w.2)) (Some w.1).

(** ** Abstraction to lists of bits, and the representation invariants *)

Definition bits_raw (d : list Z) (len : Z) : list bool :=
  take (Z.to_nat len) (bytes_bits d).

Definition bits (s : BitString) : list bool := bits_raw (joined s) (bs_length s).
Definition mb_bits (m : MutableBitString) : list bool := bits_raw (mb_data m) (mb_length m).

Definition source_bits (src : source) : list bool :=
  match src with SrcStr s => bits s | SrcMut m => mb_bits m end.

Definition base_bits (b : base) : list bool :=
  match b with
  | BStr s => bits s
  | BSlice s => slice (source_bits (sl_bs s)) (sl_begin s) (sl_end s)
  | BMut m => mb_bits m
  end.

Record layout_ok (s : BitString) : Prop := {
  lo_bytes : bytes_ok (concat (bs_bytes s));
  lo_last : is_byte (bs_last s);
  lo_length : bs_length s = 8 * zlen (concat (bs_bytes s)) + bs_length s mod 8;
  lo_cache : bs_cache s = None \/ bs_cache s = Some (joined s);
}.

Definition clean (s : BitString) : Prop :=
  layout_ok s /\ 0 <= bs_last s < 2 ^ (bs_length s mod 8).

Record mb_ok (m : MutableBitString) : Prop := {
  mbo_bytes : bytes_ok (mb_data m);
  mbo_length : 0 <= mb_length m;
  mbo_size : zlen (mb_data m) = byte_count (mb_length m);
  mbo_clean : from_le (mb_data m) < 2 ^ mb_length m;
}.

Definition source_ok (src : source) : Prop :=
  match src with SrcStr s => layout_ok s | SrcMut m => mb_ok m end.

Definition base_ok (b : base) : Prop :=
  match b with
  | BStr s => layout_ok s
  | BSlice s => source_ok (sl_bs s) /\ 0 <= sl_begin s <= sl_end s
                /\ sl_end s <= source_length (sl_bs s)
  | BMut m => mb_ok m
  end.

Lemma layout_length_nonneg s : layout_ok s -> 0 <= bs_length s.
Proof. intros []. pose proof (Z.mod_pos_bound (bs_length s) 8). lia. Qed.

Lemma joined_spec s :
  layout_ok s -> bytes_ok (joined s) /\ zlen (joined s) = byte_count (bs_length s).
Proof.
  intros [Hb Hl Hn _]. unfold joined, byte_count. rewrite land_mod_8.
  pose proof (Z.mod_pos_bound (bs_length s) 8).
  destruct (Z.eqb_spec (bs_length s mod 8) 0).
  - split; [done|]. Z.div_mod_to_equations. lia.
  - split; [apply bytes_ok_app; auto|]. rewrite length_app. simpl length.
    Z.div_mod_to_equations. lia.
Qed.

Lemma data_spec s : layout_ok s -> data s = Ok (joined s).
Proof.
  intros Hs. destruct (joined_spec s Hs) as [_ Hj]. pose proof (layout_length_nonneg s Hs) as Hn.
  unfold data. destruct (lo_cache s Hs) as [->| ->]; [|done].
  destruct (byte_count_spec _ Hn). rewrite Hj.
  by rewrite (proj2 (Z.leb_le _ _)), (proj2 (Z.leb_le _ _)) by lia.
Qed.

Lemma data_fill_spec s :
  layout_ok s -> layout_ok (data_fill s) /\ joined (data_fill s) = joined s.
Proof.
  intros Hs. unfold data_fill. destruct (bs_cache s) eqn:E; [done|].
  split; [|done]. destruct Hs. constructor; simpl; auto.
Qed.

Lemma length_bits_raw d len :
  0 <= len <= 8 * zlen d -> zlen (bits_raw d len) = len.
Proof. intros. unfold bits_raw. rewrite length_take, length_bytes_bits. lia. Qed.

Lemma bits_raw_bits_of d len :
  bytes_ok d -> 0 <= len <= 8 * zlen d ->
  bits_raw d len = bits_of (Z.to_nat len) (from_le d).
Proof.
  intros Hd ?. unfold bits_raw. rewrite <- bits_of_from_le by done.
  by rewrite take_bits_of by lia.
Qed.

Lemma base_int_spec d len :
  bytes_ok d -> 0 <= len <= 8 * zlen d -> base_int d len = Z_of_bits (bits_raw d len).
Proof.
  intros. unfold base_int. rewrite bits_raw_bits_of, Z_of_bits_bits_of by done.
  rewrite land_low by lia. by rewrite Z2Nat.id by lia.
Qed.

Lemma bits_bound s : layout_ok s -> 0 <= bs_length s <= 8 * zlen (joined s).
Proof.
  intros Hs. destruct (joined_spec s Hs) as [_ ->].
  pose proof (layout_length_nonneg s Hs) as Hn. pose proof (byte_count_spec _ Hn). lia.
Qed.

Lemma length_bits s : layout_ok s -> zlen (bits s) = bs_length s.
Proof. intros Hs. by apply length_bits_raw, bits_bound. Qed.

Lemma mb_bound m : mb_ok m -> 0 <= mb_length m <= 8 * zlen (mb_data m).
Proof. intros [_ Hn -> _]. pose proof (byte_count_spec _ Hn). lia. Qed.

Lemma source_data_spec src :
  source_ok src -> exists d, source_data src = Ok d /\ bytes_ok d
    /\ 0 <= source_length src <= 8 * zlen d /\ source_bits src = bits_raw d (source_length src).
Proof.
  destruct src as [s|m]; simpl; intros H.
  - exists (joined s). split_and!; [by apply data_spec|by apply joined_spec| |..];
      try apply bits_bound; done.
  - exists (mb_data m). split_and!; try apply mb_bound; try done. apply H.
Qed.

Lemma length_source_bits src : source_ok src -> zlen (source_bits src) = source_length src.
Proof.
  intros H. destruct (source_data_spec src H) as (d & _ & _ & ? & ->).
  by apply length_bits_raw.
Qed.

Lemma length_base_bits b : base_ok b -> zlen (base_bits b) = base_len b.
Proof.
  destruct b as [s|s|m]; simpl.
  - apply length_bits.
  - intros (H & ? & ?). rewrite length_slice; [lia..|]. by rewrite length_source_bits.
  - intros H. by apply length_bits_raw, mb_bound.
Qed.

(** ** Appending is concatenation of bits *)

Lemma clean_intro chunks last n cache :
  bytes_ok (concat chunks) -> n = 8 * zlen (concat chunks) + n mod 8 ->
  0 <= last < 2 ^ (n mod 8) ->
  let s := mkBitString chunks last n cache in
  cache = None \/ cache = Some (joined s) -> clean s.
Proof.
  intros Hb Hn Hl s Hc. split; [|done]. constructor; try done. simpl.
  pose proof (Z.mod_pos_bound n 8). split; [lia|].
  apply Z.lt_le_trans with (2 ^ (n mod 8)); [lia|].
  change 256 with (2 ^ 8). apply Z.pow_le_mono_r; lia.
Qed.

(** The bytes of an [n]-bit integer: whole bytes, then, unless [n] is a
    multiple of 8, a last byte with [n mod 8] significant bits. *)
Lemma le_bytes_split n w :
  0 <= n -> 0 <= w < 2 ^ n -> n mod 8 <> 0 ->
  exists front last, le_bytes (Z.to_nat (byte_count n)) w = front ++ [last]
    /\ zlen front = n / 8 /\ bytes_ok front /\ 0 <= last < 2 ^ (n mod 8).
Proof.
  intros Hn Hw Hz. pose proof (Z.mod_pos_bound n 8).
  assert (0 <= n / 8) by (Z.div_mod_to_equations; lia).
  assert (Z.to_nat (byte_count n) = S (Z.to_nat (n / 8))) as ->
    by (unfold byte_count; Z.div_mod_to_equations; lia).
  rewrite le_bytes_snoc. do 2 eexists. split; [done|].
  rewrite length_le_bytes, Z2Nat.id by done. split_and!; [done|apply le_bytes_ok|..].
  { apply Z.mod_pos_bound. lia. }
  apply Z.le_lt_trans with (w / 256 ^ (n / 8)).
  { apply Z.mod_le; [|lia]. apply Z.div_pos; lia. }
  rewrite pow_256 by done. apply Z.div_lt_upper_bound; [lia|].
  rewrite <- Z.pow_add_r by lia. rewrite <- (Z.div_mod n 8) by lia. lia.
Qed.

Lemma append_tail_spec s n w :
  bytes_ok (concat (bs_bytes s)) -> bs_length s = 8 * zlen (concat (bs_bytes s)) ->
  0 <= n -> 0 <= w < 2 ^ n ->
  exists s', append_tail s (le_bytes (Z.to_nat (byte_count n)) w) n = Ok s'
    /\ clean s' /\ bs_length s' = bs_length s + n
    /\ joined s' = concat (bs_bytes s) ++ le_bytes (Z.to_nat (byte_count n)) w.
Proof.
  intros Hb Hl Hn Hw. unfold append_tail. rewrite land_mod_8.
  pose proof (Z.mod_pos_bound n 8).
  assert ((bs_length s + n) mod 8 = n mod 8) as Hmod
    by (rewrite Hl, Z.add_comm, Z.mul_comm, Z.mod_add by lia; done).
  rewrite Hmod. destruct (Z.eqb_spec (n mod 8) 0) as [Hz|Hz].
  - eexists. split; [done|]. unfold joined. simpl. rewrite land_mod_8, Hmod, Hz.
    rewrite concat_app. simpl. rewrite app_nil_r. split_and!; [|done..].
    apply clean_intro; rewrite ?concat_app; simpl; rewrite ?app_nil_r; [..|by left].
    + apply bytes_ok_app. split; [done|apply le_bytes_ok].
    + rewrite length_app, length_le_bytes, Hmod. unfold byte_count.
      Z.div_mod_to_equations. lia.
    + rewrite Hmod, Hz. lia.
  - destruct (le_bytes_split n w) as (front & last & -> & Hf & Hfb & Hlast); [done..|].
    rewrite index_last, slice_to_last. simpl.
    eexists. split; [done|]. unfold joined. simpl. rewrite land_mod_8, Hmod.
    rewrite (proj2 (Z.eqb_neq _ 0)) by done.
    rewrite concat_app. simpl. rewrite app_nil_r, <- app_assoc. split_and!; [|done..].
    apply clean_intro; rewrite ?concat_app; simpl; rewrite ?app_nil_r; [..|by left].
    + by apply bytes_ok_app.
    + rewrite length_app, Nat2Z.inj_add, Hf, Hmod. Z.div_mod_to_equations. lia.
    + by rewrite Hmod.
Qed.

Lemma bits_split s :
  layout_ok s ->
  bits s = bytes_bits (concat (bs_bytes s))
           ++ bits_of (Z.to_nat (bs_length s mod 8)) (bs_last s).
Proof.
  intros Hs. pose proof (layout_length_nonneg s Hs). destruct Hs as [_ _ Hn _].
  pose proof (Z.mod_pos_bound (bs_length s) 8).
  unfold bits, bits_raw, joined. rewrite land_mod_8.
  destruct (Z.eqb_spec (bs_length s mod 8) 0) as [Hz|Hz].
  - rewrite Hz. simpl. rewrite app_nil_r, take_ge; [done|].
    rewrite length_bytes_bits. lia.
  - rewrite bytes_bits_app, take_app, length_bytes_bits.
    rewrite take_ge by (rewrite length_bytes_bits; lia). f_equal.
    change (bytes_bits [bs_last s]) with (bits_of 8 (bs_last s) ++ []).
    rewrite app_nil_r, take_bits_of by lia. f_equal. lia.
Qed.

(** The value of [n] bits, as [append] and the constructor reduce an [int]. *)
Lemma int_wrap z n :
  0 <= n ->
  Z.land (if z <? 0 then z + Z.shiftl 1 n else z) (Z.shiftl 1 n - 1) = z mod 2 ^ n.
Proof.
  intros. rewrite land_low by lia. destruct (z <? 0); [|done].
  rewrite shiftl_1 by lia. rewrite <- (Z.mul_1_l (2 ^ n)) at 1.
  by rewrite Z.mod_add by lia.
Qed.

Lemma bits_joined s chunks n w :
  layout_ok s -> bs_length s = 8 * zlen (concat chunks) + n -> 0 <= n ->
  joined s = concat chunks ++ le_bytes (Z.to_nat (byte_count n)) w ->
  bits s = bytes_bits (concat chunks) ++ bits_of (Z.to_nat n) w.
Proof.
  intros Hs Hl Hn Hj. destruct (byte_count_spec n Hn). unfold bits, bits_raw.
  rewrite Hj, bytes_bits_app, bits_of_le_bytes, take_app, length_bytes_bits.
  rewrite take_ge by (rewrite length_bytes_bits; lia). f_equal.
  rewrite take_bits_of by lia. f_equal. lia.
Qed.

(** Merging the partial last byte below [w] shifted past it. *)
Lemma merge_last last k n w :
  0 <= k -> 0 <= n -> 0 <= last < 2 ^ k -> 0 <= w < 2 ^ n ->
  let m := Z.lor (Z.shiftl w k) last in
  0 <= m < 2 ^ (n + k)
  /\ bits_of (Z.to_nat (n + k)) m = bits_of (Z.to_nat k) last ++ bits_of (Z.to_nat n) w.
Proof.
  intros Hk Hn Hl Hw m. split.
  - apply lor_bound.
    + rewrite Z.shiftl_mul_pow2, Z.pow_add_r by lia. nia.
    + rewrite Z.pow_add_r by lia. nia.
  - replace (Z.to_nat (n + k)) with (Z.to_nat k + Z.to_nat n)%nat by lia.
    rewrite bits_of_app. f_equal; apply bits_of_ext; intros i Hi; unfold m;
      rewrite ?Z2Nat.id in * by lia; bitwise_core.
Qed.

Lemma append_merge s n w :
  clean s -> 0 <= n -> 0 <= w < 2 ^ n -> bs_length s mod 8 <> 0 ->
  let k := bs_length s mod 8 in
  exists s', (d ← to_bytes_le ((n + k + 7) / 8) (Z.lor (Z.shiftl w k) (bs_last s));
              append_tail (set_length s (Z.land (bs_length s) (Z.lnot 7))) d (n + k)) = Ok s'
    /\ clean s' /\ bs_length s' = bs_length s + n
    /\ bits s' = bits s ++ bits_of (Z.to_nat n) w.
Proof.
  intros [Hs Hl] Hn Hw Hz k. pose proof (Z.mod_pos_bound (bs_length s) 8) as Hk.
  destruct (merge_last (bs_last s) k n w) as [Hm Hbits]; [lia|done|exact Hl|exact Hw|].
  change ((n + k + 7) / 8) with (byte_count (n + k)).
  rewrite to_bytes_le_Ok; [..|pose proof (pow_byte_count (n + k)); lia];
    [|apply byte_count_spec; lia].
  assert (Z.land (bs_length s) (Z.lnot 7) = bs_length s - k) as Hlen.
  { change 7 with (Z.ones 3). rewrite <- Z.ldiff_land, Z.ldiff_ones_r by lia.
    rewrite Z.shiftl_mul_pow2, Z.shiftr_div_pow2 by lia. unfold k.
    change (2 ^ 3) with 8. Z.div_mod_to_equations. lia. }
  destruct Hs as [Hb Hlb Hln Hc].
  edestruct (append_tail_spec (set_length s (Z.land (bs_length s) (Z.lnot 7))) (n + k))
    as (s' & Happ & Hcl & Hlen' & Hj); [done|simpl; rewrite Hlen; lia|lia|exact Hm|].
  exists s'. split_and!; [exact Happ|done|simpl in Hlen'; lia|].
  simpl in Hj, Hlen'. rewrite (bits_joined s' (bs_bytes s) (n + k) (Z.lor (Z.shiftl w k) (bs_last s)));
    [|apply Hcl|lia|lia|done].
  rewrite Hbits, bits_split by (by constructor). by rewrite app_assoc.
Qed.

Lemma append_aligned s n w :
  clean s -> 0 <= n -> 0 <= w < 2 ^ n -> bs_length s mod 8 = 0 ->
  exists s', append_tail s (le_bytes (Z.to_nat (byte_count n)) w) n = Ok s'
    /\ clean s' /\ bs_length s' = bs_length s + n
    /\ bits s' = bits s ++ bits_of (Z.to_nat n) w.
Proof.
  intros [Hs Hl] Hn Hw Hz. destruct (Hs) as [Hb _ Hln _].
  destruct (append_tail_spec s n w) as (s' & Happ & Hcl & Hlen' & Hj); [done|lia|done..|].
  exists s'. split_and!; [done..|].
  rewrite (bits_joined s' (bs_bytes s) n w); [|apply Hcl|lia|done..].
  rewrite (bits_split s) by done. rewrite Hz. simpl. by rewrite app_nil_r.
Qed.

Lemma append_int_spec s z n :
  clean s -> 0 <= n ->
  exists s', append_int s z (Some n) = Ok s' /\ clean s'
    /\ bs_length s' = bs_length s + n /\ bits s' = bits s ++ bits_of (Z.to_nat n) z.
Proof.
  intros Hs Hn. unfold append_int. destruct (Z.ltb_spec n 0); [lia|].
  rewrite int_wrap, land_mod_8 by lia.
  assert (0 <= z mod 2 ^ n < 2 ^ n) as Hw by (apply Z.mod_pos_bound; lia).
  assert (bits_of (Z.to_nat n) (z mod 2 ^ n) = bits_of (Z.to_nat n) z) as <-
    by (rewrite <- (Z2Nat.id n Hn) at 2; by apply bits_of_mod).
  destruct (Z.eqb_spec (bs_length s mod 8) 0) as [Hz|Hz].
  - change ((n + 7) / 8) with (byte_count n).
    rewrite to_bytes_le_Ok; [by apply append_aligned|by apply byte_count_spec|].
    pose proof (pow_byte_count n). lia.
  - by apply append_merge.
Qed.

(** ** Reading: every object's [int] and [data] are those of its bits *)

Lemma take_drop_slice {A} (l : list A) a b :
  0 <= a -> take (Z.to_nat (b - a)) (drop (Z.to_nat a) l) = slice l a (Z.max a b).
Proof. intros. rewrite slice_nonneg by lia. f_equal. lia. Qed.

(** Cutting the covering bytes, dropping the bits below [a]: the window
    [[a, b)] of the bits. *)
Lemma window_bits d a b :
  0 <= a <= b -> b <= 8 * zlen d ->
  take (Z.to_nat (b - a)) (drop (Z.to_nat (a mod 8)) (bytes_bits (slice d (a / 8) (byte_count b))))
  = slice (bytes_bits d) a b.
Proof.
  intros Hab Hb. destruct (byte_count_spec b) as [Hc0 Hc]; [lia|].
  assert (0 <= a / 8) by (Z.div_mod_to_equations; lia).
  pose proof (Z.mod_pos_bound a 8).
  assert (a / 8 <= byte_count b) by (unfold byte_count; Z.div_mod_to_equations; lia).
  rewrite !slice_nonneg by lia. rewrite bytes_bits_take, bytes_bits_drop.
  rewrite skipn_firstn_comm, firstn_firstn, drop_drop.
  assert (8 * Z.to_nat (a / 8) + Z.to_nat (a mod 8) = Z.to_nat a)%nat as ->
    by (Z.div_mod_to_equations; lia).
  f_equal. Z.div_mod_to_equations; lia.
Qed.

Lemma slice_take {A} (l : list A) n a b :
  0 <= a <= b -> b <= n -> slice (take (Z.to_nat n) l) a b = slice l a b.
Proof.
  intros. rewrite !slice_nonneg by lia.
  rewrite skipn_firstn_comm, firstn_firstn. f_equal. lia.
Qed.

Lemma slice_int_spec s :
  base_ok (BSlice s) -> slice_int s = Ok (Z_of_bits (base_bits (BSlice s))).
Proof.
  intros (Hsrc & Hb & He). destruct (source_data_spec _ Hsrc) as (d & Hd & Hok & Hn & Hbits).
  unfold slice_int. simpl base_bits.
  destruct (Z.eqb_spec (sl_end s - sl_begin s) 0).
  { rewrite slice_nonneg by lia. replace (_ - _)%nat with O by lia. done. }
  rewrite Hd, shiftr_byte_count, shiftr_div_8, land_mod_8. simpl. f_equal.
  rewrite land_low by lia. rewrite Hbits. unfold bits_raw.
  rewrite slice_take, <- window_bits by lia.
  set (blob := slice d _ _). assert (bytes_ok blob) as Hblob by by apply bytes_ok_slice.
  pose proof (Z.mod_pos_bound (sl_begin s) 8). set (k := sl_begin s mod 8) in *.
  assert (zlen blob = byte_count (sl_end s) - sl_begin s / 8) as Hlen.
  { unfold blob. destruct (byte_count_spec (sl_end s)); [lia|].
    rewrite length_slice; [..|]; unfold byte_count in *; Z.div_mod_to_equations; lia. }
  assert (sl_end s - sl_begin s + k <= 8 * zlen blob) as Hfit
    by (rewrite Hlen; unfold k, byte_count; Z.div_mod_to_equations; lia).
  rewrite <- bits_of_from_le by done.
  replace (8 * length blob)%nat
    with (Z.to_nat k + (8 * length blob - Z.to_nat k))%nat by lia.
  rewrite drop_bits_of, take_bits_of, Z_of_bits_bits_of, !Z2Nat.id by lia. done.
Qed.

Lemma to_int_spec b : base_ok b -> to_int b = Ok (Z_of_bits (base_bits b)).
Proof.
  destruct b as [s|s|m]; intros H.
  - simpl in *. rewrite data_spec by done. simpl. f_equal.
    apply base_int_spec; [by apply joined_spec|by apply bits_bound].
  - by apply slice_int_spec.
  - simpl in *. f_equal. apply base_int_spec; [apply H|by apply mb_bound].
Qed.

(** The canonical bytes of a list of bits. *)
Definition pack (l : list bool) : list Z :=
  le_bytes (Z.to_nat (byte_count (zlen l))) (Z_of_bits l).

Definition base_wf (b : base) : Prop :=
  base_ok b /\ match b with BStr s => clean s | _ => True end.

Lemma pack_bits_raw d len :
  bytes_ok d -> 0 <= len -> zlen d = byte_count len -> from_le d < 2 ^ len ->
  pack (bits_raw d len) = d.
Proof.
  intros Hd Hn Hl Hc. pose proof (byte_count_spec len Hn). unfold pack.
  rewrite length_bits_raw by lia. rewrite <- base_int_spec by (done || lia).
  unfold base_int. rewrite land_low, Z.mod_small by (pose proof (from_le_bound d Hd); lia).
  rewrite <- Hl, Nat2Z.id. by apply le_bytes_from_le.
Qed.

Lemma joined_clean s : clean s -> from_le (joined s) < 2 ^ bs_length s.
Proof.
  intros [Hs Hl]. pose proof (layout_length_nonneg s Hs). destruct Hs as [Hb _ Hn _].
  pose proof (from_le_bound _ Hb) as Hf. pose proof (Z.mod_pos_bound (bs_length s) 8).
  assert (2 ^ bs_length s = 256 ^ zlen (concat (bs_bytes s)) * 2 ^ (bs_length s mod 8)) as ->.
  { rewrite pow_256, <- Z.pow_add_r by lia. f_equal. lia. }
  unfold joined. rewrite land_mod_8. destruct (Z.eqb_spec (bs_length s mod 8) 0) as [Hz|Hz].
  - rewrite Hz. lia.
  - rewrite from_le_app. simpl. nia.
Qed.

Lemma pack_joined s : clean s -> joined s = pack (bits s).
Proof.
  intros Hs. pose proof (proj1 Hs) as Hlo. destruct (joined_spec s Hlo). symmetry.
  apply pack_bits_raw; [done|by apply layout_length_nonneg|done|by apply joined_clean].
Qed.

Lemma slice_data_spec s :
  base_ok (BSlice s) -> slice_data s = Ok (pack (base_bits (BSlice s))).
Proof.
  intros Hs. pose proof (length_base_bits _ Hs) as Hlen. simpl base_len in Hlen.
  pose proof (slice_int_spec s Hs) as Hint.
  destruct Hs as (Hsrc & Hb & He). destruct (source_data_spec _ Hsrc) as (d & Hd & Hok & Hn & Hbits).
  unfold slice_data. unfold pack. rewrite Hlen. simpl base_bits in *.
  destruct (Z.eqb_spec (sl_end s - sl_begin s) 0) as [->|Hne]; [done|].
  rewrite !land_mod_8, !shiftr_div_8.
  pose proof (Z_of_bits_bound (slice (source_bits (sl_bs s)) (sl_begin s) (sl_end s))) as Hbd.
  rewrite Hlen in Hbd. pose proof (byte_count_spec (sl_end s - sl_begin s)).
  destruct (Z.eqb_spec (sl_begin s mod 8) 0) as [Hb0|Hb0], (Z.eqb_spec ((sl_end s - sl_begin s) mod 8) 0) as [He0|He0];
    simpl; [|rewrite Hint; simpl; apply to_bytes_le_Ok;
      [lia|pose proof (pow_byte_count (sl_end s - sl_begin s)); lia]..].
  rewrite Hd. simpl. f_equal. rewrite Hbits in *. unfold bits_raw in *.
  rewrite slice_take in * by lia. symmetry.
  assert (sl_begin s = 8 * (sl_begin s / 8)) as Hbeg by (Z.div_mod_to_equations; lia).
  assert (byte_count (sl_end s - sl_begin s) = (sl_end s - sl_begin s) / 8) as ->
    by (unfold byte_count; Z.div_mod_to_equations; lia).
  set (q := (sl_end s - sl_begin s) / 8) in *.
  assert (slice (bytes_bits d) (sl_begin s) (sl_end s)
          = bytes_bits (slice d (sl_begin s / 8) (sl_begin s / 8 + q))) as ->.
  { rewrite !slice_nonneg by (unfold q; Z.div_mod_to_equations; lia).
    rewrite bytes_bits_take, bytes_bits_drop. f_equal; [|f_equal];
      unfold q; Z.div_mod_to_equations; lia. }
  rewrite Z_of_bytes_bits by by apply bytes_ok_slice.
  replace (Z.to_nat q) with (length (slice d (sl_begin s / 8) (sl_begin s / 8 + q)))
    by (rewrite length_slice; unfold q; Z.div_mod_to_equations; lia).
  by apply le_bytes_from_le, bytes_ok_slice.
Qed.

Lemma base_data_spec b : base_wf b -> base_data b = Ok (pack (base_bits b)).
Proof.
  destruct b as [s|s|m]; intros [Hok Hc]; simpl.
  - rewrite data_spec by done. by rewrite <- pack_joined.
  - by apply slice_data_spec.
  - destruct Hok. f_equal. symmetry. by apply pack_bits_raw.
Qed.

(** The [bytes] argument of a well-behaved caller: exactly the bytes of [n]
    bits, junk-free. *)
Definition clean_bytes (d : list Z) (n : Z) : Prop :=
  bytes_ok d /\ 0 <= n /\ zlen d = byte_count n /\ from_le d < 2 ^ n.

Lemma append_bytes_spec s d n :
  clean s -> clean_bytes d n ->
  exists s', append_bytes s d (Some n) = Ok s' /\ clean s'
    /\ bs_length s' = bs_length s + n /\ bits s' = bits s ++ bits_raw d n.
Proof.
  intros Hs (Hd & Hn & Hl & Hc). pose proof (from_le_bound d Hd).
  pose proof (byte_count_spec n Hn).
  unfold append_bytes, ljust. rewrite land_mod_8.
  change ((n + 7) / 8) with (byte_count n). rewrite Hl, Z.sub_diag. simpl. rewrite app_nil_r.
  rewrite bits_raw_bits_of by (done || lia).
  destruct (Z.eqb_spec (bs_length s mod 8) 0).
  - destruct (append_aligned s n (from_le d)) as (s' & Happ & ?); [done|done|lia|done|].
    rewrite <- Hl, Nat2Z.id, le_bytes_from_le in Happ by done. eauto.
  - apply append_merge; [done|done|lia|done].
Qed.

Lemma pack_clean_bytes l : clean_bytes (pack l) (zlen l) /\ bits_raw (pack l) (zlen l) = l.
Proof.
  pose proof (Z_of_bits_bound l). pose proof (byte_count_spec (zlen l)).
  pose proof (pow_byte_count (zlen l)).
  assert (from_le (pack l) = Z_of_bits l) as Hv.
  { unfold pack. rewrite from_le_le_bytes, Z2Nat.id by lia. apply Z.mod_small. lia. }
  assert (zlen (pack l) = byte_count (zlen l)) as Hl by (unfold pack; rewrite length_le_bytes; lia).
  split; [split_and!; [apply le_bytes_ok|lia|done|lia]|].
  rewrite bits_raw_bits_of; [|apply le_bytes_ok|lia].
  rewrite Hv, Nat2Z.id. apply bits_of_Z_of_bits.
Qed.

Lemma append_base_spec s b len :
  clean s -> base_wf b ->
  exists s', append s (ABase b) len = Ok s' /\ clean s'
    /\ bs_length s' = bs_length s + base_len b /\ bits s' = bits s ++ base_bits b.
Proof.
  intros Hs Hb. pose proof (length_base_bits b (proj1 Hb)) as Hl. unfold append.
  destruct (Z.land (bs_length s) 7 =? 0); simpl.
  - rewrite base_data_spec by done. simpl. rewrite <- Hl.
    destruct (pack_clean_bytes (base_bits b)) as [Hc Hbits].
    destruct (append_bytes_spec s _ _ Hs Hc) as (s' & ? & ? & ? & Hb').
    exists s'. rewrite Hbits in Hb'. done.
  - rewrite to_int_spec by apply Hb. simpl. rewrite <- Hl.
    destruct (append_int_spec s (Z_of_bits (base_bits b)) (zlen (base_bits b)) Hs)
      as (s' & ? & ? & ? & Hb'); [lia|].
    exists s'. by rewrite Nat2Z.id, bits_of_Z_of_bits in Hb'.
Qed.

(** The arguments [append] and the constructor are documented for, and the
    bits they denote. *)
Definition arg_ok (a : arg) (len : option Z) : Prop :=
  match a, len with
  | AInt _, Some n => 0 <= n
  | AInt _, None => False
  | ABytes d, Some n => clean_bytes d n
  | ABytes d, None => bytes_ok d
  | ABase b, _ => base_wf b
  end.

Definition arg_bits (a : arg) (len : option Z) : list bool :=
  match a, len with
  | AInt z, n => bits_of (Z.to_nat (default 0 n)) z
  | ABytes d, Some n => bits_raw d n
  | ABytes d, None => bytes_bits d
  | ABase b, _ => base_bits b
  end.

Lemma append_spec s a len :
  clean s -> arg_ok a len ->
  exists s', append s a len = Ok s' /\ clean s' /\ bits s' = bits s ++ arg_bits a len.
Proof.
  intros Hs Ha. destruct a as [z|d|b], len as [n|]; simpl in *; try done.
  - destruct (append_int_spec s z n Hs Ha) as (s' & ? & ? & _ & ?). eauto.
  - destruct (append_bytes_spec s d n Hs Ha) as (s' & ? & ? & _ & ?). eauto.
  - assert (clean_bytes d (zlen d * 8)) as Hc.
    { pose proof (from_le_bound d Ha) as Hf. rewrite pow_256, Z.mul_comm in Hf by lia.
      split_and!; [done|lia| |lia]. unfold byte_count. Z.div_mod_to_equations. lia. }
    destruct (append_bytes_spec s d _ Hs Hc) as (s' & Happ & ? & _ & Hb). exists s'.
    split_and!; [|done|].
    + unfold append_bytes in *. simpl in *. destruct Hc as (_ & _ & Hsz & _).
      unfold byte_count, ljust in *. rewrite <- Hsz, Z.sub_diag in Happ. simpl in Happ.
      by rewrite app_nil_r in Happ.
    + rewrite Hb. f_equal. unfold bits_raw. rewrite take_ge; [done|].
      rewrite length_bytes_bits. lia.
  - destruct (append_base_spec s b (Some n) Hs Ha) as (s' & ? & ? & _ & ?). eauto.
  - destruct (append_base_spec s b None Hs Ha) as (s' & ? & ? & _ & ?). eauto.
Qed.

Lemma clean_empty : clean bs_empty /\ bits bs_empty = [].
Proof.
  split; [|done]. unfold bs_empty, zero_bits.
  apply clean_intro; [apply Forall_nil_2|done|by vm_compute|by left].
Qed.

Lemma clean_zero_bits : clean zero_bits /\ bits zero_bits = [].
Proof.
  split; [|done]. unfold bs_empty, zero_bits.
  apply clean_intro; [apply Forall_nil_2|done|by vm_compute|by left].
Qed.

(** A freshly built object: [raw] split at its last byte. *)
Lemma init_raw raw n (cache : option (list Z)) :
  clean_bytes raw n -> cache = None \/ cache = Some raw ->
  exists s, (if Z.land n 7 =? 0 then Ok (mkBitString [raw] 0 n cache)
             else last ← index raw (-1);
                  Ok (mkBitString [slice_to raw (-1)] last n cache)) = Ok s
    /\ clean s /\ bits s = bits_raw raw n.
Proof.
  intros (Hd & Hn & Hl & Hc) Hcache. pose proof (from_le_bound raw Hd).
  pose proof (Z.mod_pos_bound n 8). rewrite land_mod_8.
  destruct (Z.eqb_spec (n mod 8) 0) as [Hz|Hz].
  - eexists. split; [done|].
    assert (joined (mkBitString [raw] 0 n cache) = raw) as Hj.
    { unfold joined. simpl. rewrite land_mod_8, Hz, app_nil_r. done. }
    split; [|unfold bits; by rewrite Hj].
    apply clean_intro; simpl; rewrite ?app_nil_r, ?Hz; [done| |lia|by rewrite Hj].
    rewrite Hl. unfold byte_count. Z.div_mod_to_equations. lia.
  - destruct (le_bytes_split n (from_le raw)) as (front & last & Hraw & Hf & Hfb & Hlast); [done|lia|done|].
    rewrite <- Hl, Nat2Z.id, le_bytes_from_le in Hraw by done. subst raw.
    rewrite index_last, slice_to_last. simpl. eexists. split; [done|].
    assert (joined (mkBitString [front] last n cache) = front ++ [last]) as Hj.
    { unfold joined. simpl. rewrite land_mod_8, (proj2 (Z.eqb_neq _ 0)), app_nil_r by done. done. }
    split; [|unfold bits; by rewrite Hj].
    apply clean_intro; simpl; rewrite ?app_nil_r; [done| |done|by rewrite Hj].
    rewrite Hf. Z.div_mod_to_equations. lia.
Qed.

Lemma clean_bytes_of_int n w :
  0 <= n -> 0 <= w < 2 ^ n ->
  clean_bytes (le_bytes (Z.to_nat (byte_count n)) w) n
  /\ bits_raw (le_bytes (Z.to_nat (byte_count n)) w) n = bits_of (Z.to_nat n) w.
Proof.
  intros Hn Hw. pose proof (pow_byte_count n Hn). destruct (byte_count_spec n Hn).
  assert (from_le (le_bytes (Z.to_nat (byte_count n)) w) = w) as Hv.
  { rewrite from_le_le_bytes, Z2Nat.id by lia. apply Z.mod_small. lia. }
  split; [split_and!; [apply le_bytes_ok|lia|rewrite length_le_bytes; lia|lia]|].
  rewrite bits_raw_bits_of; [by rewrite Hv|apply le_bytes_ok|rewrite length_le_bytes; lia].
Qed.

Lemma bs_init_spec a len :
  arg_ok a len ->
  exists s, bs_init (Some a) len = Ok s /\ clean s /\ bits s = arg_bits a len.
Proof.
  intros Ha. destruct clean_empty as [He Hbe].
  pose proof (append_spec bs_empty a len He Ha) as Happ. rewrite Hbe in Happ. simpl in Happ.
  destruct a as [z|d|[s|s|m]], len as [n|]; try exact Happ; simpl in Ha; try done.
  - simpl. destruct (Z.ltb_spec n 0); [lia|]. rewrite int_wrap, shiftr_byte_count by lia.
    assert (0 <= z mod 2 ^ n < 2 ^ n) as Hw by (apply Z.mod_pos_bound; lia).
    rewrite to_bytes_le_Ok;
      [|by apply byte_count_spec|pose proof (pow_byte_count n Ha); lia]. simpl.
    destruct (clean_bytes_of_int n _ Ha Hw) as [Hc Hb].
    assert (bits_of (Z.to_nat n) (z mod 2 ^ n) = bits_of (Z.to_nat n) z) as <-
      by (rewrite <- (Z2Nat.id n Ha) at 2; by apply bits_of_mod).
    rewrite <- Hb. apply init_raw; [done|]. destruct (n =? 0); auto.
  - simpl. rewrite shiftr_byte_count. destruct (Ha) as (_ & _ & -> & _).
    rewrite Z.eqb_refl. apply init_raw; auto.
  - simpl. exists s. split_and!; [done|apply Ha|done].
Qed.

(** ** Concatenation operators *)

Lemma init_of_int b :
  base_ok b ->
  exists n, bs_init (Some (AInt (Z_of_bits (base_bits b)))) (Some (base_len b)) = Ok n
            /\ clean n /\ bits n = base_bits b.
Proof.
  intros Hb. pose proof (length_base_bits _ Hb) as Hl.
  destruct (bs_init_spec (AInt (Z_of_bits (base_bits b))) (Some (base_len b)))
    as (n & ? & ? & Hn); [simpl; lia|].
  exists n. split_and!; [done..|]. rewrite Hn, <- Hl. simpl arg_bits.
  rewrite Nat2Z.id. apply bits_of_Z_of_bits.
Qed.

Lemma slice_add_spec s o :
  base_ok (BSlice s) -> base_wf o ->
  exists n, slice_add s o = Ok n /\ clean n /\ bits n = base_bits (BSlice s) ++ base_bits o.
Proof.
  intros Hs Ho. unfold slice_add. rewrite slice_int_spec, bind_of_Ok by done.
  destruct (init_of_int _ Hs) as (n & Hi & Hn & Hb). simpl base_len in Hi.
  rewrite Hi, bind_of_Ok.
  destruct (append_base_spec n o None Hn Ho) as (n' & ? & ? & _ & Hb'). exists n'.
  split_and!; [done..|]. by rewrite Hb', Hb.
Qed.

Lemma bits_nil_of_len b : base_ok b -> base_len b = 0 -> base_bits b = [].
Proof. intros Hb Hl. apply length_zero_iff_nil. pose proof (length_base_bits b Hb). lia. Qed.

Lemma bs_iadd_spec s o :
  clean s -> base_wf o ->
  exists s', bs_iadd s o = Ok s' /\ clean s' /\ bits s' = bits s ++ base_bits o.
Proof.
  intros Hs Ho. unfold bs_iadd.
  assert (exists s', (if base_len o =? 0 then Ok s else append s (ABase o) None) = Ok s'
            /\ clean s' /\ bits s' = bits s ++ base_bits o) as Hgen.
  { destruct (Z.eqb_spec (base_len o) 0) as [Hz|Hz].
    - exists s. rewrite (bits_nil_of_len o) by (done || apply Ho). by rewrite app_nil_r.
    - destruct (append_base_spec s o None Hs Ho) as (s' & ? & ? & _ & ?). eauto. }
  destruct (Z.eqb_spec (bs_length s) 0) as [Hz|Hz]; [|exact Hgen].
  destruct o as [o|o|o]; [|exact Hgen..].
  rewrite (bits_nil_of_len (BStr s) (proj1 Hs) Hz : bits s = []).
  destruct Ho as [_ [[] ?]]. eexists. split; [done|]. split; [|done].
  by apply clean_intro; [..|left].
Qed.

Lemma bits_of_concat_int a b n1 n2 :
  0 <= n1 -> 0 <= n2 -> 0 <= a < 2 ^ n1 ->
  bits_of (Z.to_nat (n1 + n2)) (Z.lor a (Z.shiftl b n1))
  = bits_of (Z.to_nat n1) a ++ bits_of (Z.to_nat n2) b.
Proof.
  intros. rewrite Z2Nat.inj_add, bits_of_app, Z2Nat.id by lia.
  f_equal; apply bits_of_ext; intros i Hi; rewrite ?Z2Nat.id in * by lia; bitwise_core.
Qed.

Lemma bs_add_spec s o :
  clean s -> base_wf o ->
  exists n, bs_add s o = Ok n /\ clean n /\ bits n = bits s ++ base_bits o.
Proof.
  intros Hs Ho. pose proof (length_base_bits o (proj1 Ho)) as Hlo.
  pose proof (length_bits s (proj1 Hs)) as Hls. unfold bs_add.
  destruct (Z.eqb_spec (base_len o) 0) as [Hz|Hz].
  { exists s. rewrite (bits_nil_of_len o) by (done || apply Ho). by rewrite app_nil_r. }
  destruct (Z.eqb_spec (bs_length s) 0) as [Hz'|Hz'].
  { rewrite (bits_nil_of_len (BStr s) (proj1 Hs) Hz' : bits s = []). simpl.
    destruct o as [o|o|o]; [exists o; split_and!; [done|apply Ho|done]|..];
      rewrite to_int_spec, bind_of_Ok by apply Ho; apply init_of_int, Ho. }
  destruct (bs_length s + base_len o <=? 256).
  - rewrite (to_int_spec (BStr s) (proj1 Hs)), (to_int_spec o (proj1 Ho)). simpl mbind.
    set (v := Z.lor _ _).
    destruct (bs_init_spec (AInt v) (Some (bs_length s + base_len o)))
      as (n & ? & ? & Hn); [simpl; lia|].
    exists n. split_and!; [done..|]. rewrite Hn. simpl. unfold v.
    pose proof (Z_of_bits_bound (bits s)) as Hb. rewrite Hls in Hb.
    rewrite bits_of_concat_int by (done || lia).
    rewrite <- Hls, <- Hlo, !Nat2Z.id. by rewrite !bits_of_Z_of_bits.
  - simpl mbind. destruct (append_base_spec s o None Hs Ho) as (s' & ? & ? & _ & ?). eauto.
Qed.

(** ** Element access *)

(** Reading bit [i] of the first [len] bits of [d]. *)
Lemma read_bit d len i :
  0 <= len <= 8 * zlen d ->
  index (bits_raw d len) i =
    let i := if i <? 0 then i + len else i in
    if (0 <=? i) && (i <? len)
    then b ← index d (i / 8); Ok (Z.testbit b (i mod 8)) else Err IndexError.
Proof.
  intros Hl. unfold index at 1. rewrite length_bits_raw by done.
  cbv zeta. set (j := if i <? 0 then _ else _).
  destruct (Z.leb_spec 0 j), (Z.ltb_spec j len); simpl andb; [|done..].
  destruct (index_byte d j) as (b & _ & -> & Hb); [lia|]. unfold bits_raw.
  by rewrite lookup_take_lt, Hb by lia.
Qed.

Lemma bs_getitem_spec s i : layout_ok s -> bs_getitem s i = index (bits s) i.
Proof.
  intros Hs. unfold bs_getitem, bits. rewrite read_bit by (by apply bits_bound).
  rewrite data_spec by done. cbv zeta. destruct (_ && _); [|done]. simpl.
  destruct (index _ _); [simpl|done]. by rewrite land_mod_8, land_shiftr_1 by (by apply Z.mod_pos_bound).
Qed.

Lemma mb_getitem_spec m i : mb_ok m -> mb_getitem m i = index (mb_bits m) i.
Proof.
  intros Hm. unfold mb_getitem, mb_bits. rewrite read_bit by (by apply mb_bound).
  cbv zeta. rewrite shiftr_div_8. destruct (_ && _); [|done].
  destruct (index _ _); [simpl|done]. by rewrite land_mod_8, land_shiftr_1 by (by apply Z.mod_pos_bound).
Qed.

(** A slice reads its window for the indices of the window. *)
Lemma slice_getitem_spec s i :
  base_ok (BSlice s) -> - base_len (BSlice s) <= i < base_len (BSlice s) ->
  slice_getitem s i = index (base_bits (BSlice s)) i.
Proof.
  intros Hs Hi. pose proof (length_base_bits _ Hs) as Hl. simpl base_len in *.
  destruct Hs as (Hsrc & Hb & He). destruct (source_data_spec _ Hsrc) as (d & Hd & Hok & Hlen & Hbits).
  unfold slice_getitem. rewrite Hd. simpl. set (j := if i <? 0 then _ else _).
  assert (0 <= j < sl_end s - sl_begin s) as Hj by (subst j; destruct (Z.ltb_spec i 0); lia).
  destruct (index_byte d (sl_begin s + j)) as (b & _ & -> & Hbit); [lia|]. simpl.
  rewrite land_mod_8, land_shiftl_1 by (by apply Z.mod_pos_bound).
  rewrite index_unfold. simpl base_bits in Hl. rewrite Hl. fold j. rewrite (proj2 (Z.leb_le 0 j)) by lia.
  rewrite lookup_slice, Hbits by lia. unfold bits_raw. rewrite lookup_take_lt by lia.
  rewrite <- Z2Nat.inj_add by lia. by rewrite Hbit.
Qed.

Lemma base_getitem_spec b i :
  base_ok b -> 0 <= i < base_len b -> base_getitem b i = index (base_bits b) i.
Proof.
  intros Hb Hi. destruct b; [by apply bs_getitem_spec| |by apply mb_getitem_spec].
  apply slice_getitem_spec; [done|lia].
Qed.

(** Writing one bit of a byte string. *)
Lemma write_bit_spec d i v :
  bytes_ok d -> 0 <= i < 8 * zlen d ->
  exists d', write_bit d i v = Ok d' /\ bytes_ok d' /\ length d' = length d
    /\ bytes_bits d' = <[Z.to_nat i := v]> (bytes_bits d).
Proof.
  intros Hd Hi. destruct (index_byte d i Hi) as (b & Hb & Hidx & _).
  unfold write_bit, update_byte. rewrite shiftr_div_8, Hidx. simpl.
  rewrite set_item_Ok by (Z.div_mod_to_equations; lia). eexists. split; [done|].
  rewrite Z2Nat.inj_div by lia. change (Z.to_nat 8) with 8%nat. rewrite land_mod_8.
  rewrite length_insert. split_and!; [|done|].
  - apply bytes_ok_insert; [done|]. apply is_byte_setbit; [|by apply Z.mod_pos_bound].
    by eapply Forall_lookup_1 in Hb.
  - rewrite <- (insert_bytes_bits d (Z.to_nat i) b v Hb).
    by rewrite Nat2Z.inj_mod, Z2Nat.id by lia.
Qed.

Lemma bits_raw_write d d' len i v :
  bytes_bits d' = <[Z.to_nat i := v]> (bytes_bits d) -> 0 <= i < len ->
  bits_raw d' len = <[Z.to_nat i := v]> (bits_raw d len).
Proof. intros H ?. unfold bits_raw. rewrite H. by rewrite take_insert_lt by lia. Qed.

Lemma clean_high d n :
  bytes_ok d -> 0 <= n ->
  (from_le d < 2 ^ n <-> forall j, (Z.to_nat n <= j)%nat -> bytes_bits d !! j <> Some true).
Proof.
  intros Hd Hn. rewrite <- Z_of_bytes_bits by done.
  pose proof (Z_of_bits_bound (bytes_bits d)) as Hb. split.
  - intros Hlt j Hj Hl. pose proof (testbit_Z_of_bits (bytes_bits d) j) as Ht.
    rewrite Hl, (testbit_above _ n) in Ht by lia. done.
  - intros Hj. apply bounded_bits; [done|lia|]. intros i Hi.
    rewrite <- (Z2Nat.id i), testbit_Z_of_bits by lia. specialize (Hj (Z.to_nat i)).
    destruct (bytes_bits d !! Z.to_nat i) as [[]|]; try done. exfalso. apply Hj; [lia|done].
Qed.

(** A byte string whose bits changed only below [n] stays clean above. *)
Lemma clean_high_preserved d d' n :
  bytes_ok d -> bytes_ok d' -> 0 <= n -> from_le d < 2 ^ n ->
  (forall j, (Z.to_nat n <= j)%nat -> bytes_bits d' !! j = bytes_bits d !! j) ->
  from_le d' < 2 ^ n.
Proof.
  intros Hd Hd' Hn Hlt Hj. apply clean_high; [done..|]. intros j ?.
  rewrite Hj by done. by apply (clean_high d n).
Qed.

Lemma mb_setitem_spec m i v :
  mb_ok m ->
  match mb_setitem m i v with
  | Ok m' => mb_ok m' /\ set_item (mb_bits m) i v = Ok (mb_bits m')
  | Err e => set_item (mb_bits m) i v = Err e
  end.
Proof.
  intros Hm. pose proof (mb_bound m Hm) as Hb. pose proof (length_base_bits (BMut m) Hm) as Hl.
  simpl in Hl. unfold mb_setitem, set_item. rewrite Hl.
  cbv zeta. set (j := if i <? 0 then _ else _).
  destruct (Z.leb_spec 0 j), (Z.ltb_spec j (mb_length m)); simpl andb; [|done..].
  destruct Hm as [Hok Hn Hsz Hc].
  destruct (write_bit_spec (mb_data m) j v) as (d & -> & Hd & Hld & Hbits); [done|lia|]. simpl.
  split; [|f_equal; symmetry; by apply bits_raw_write].
  constructor; simpl; [done|done|lia|].
  apply (clean_high_preserved (mb_data m)); try done. intros k Hk.
  rewrite Hbits. by rewrite list_lookup_insert_ne by lia.
Qed.

(** A run of writes at consecutive positions. *)
Lemma write_run d b n (v : Z -> bool) :
  bytes_ok d -> 0 <= b -> 0 <= n -> b + n <= 8 * zlen d ->
  exists d', foldM (fun d i => write_bit d (b + i) (v i)) d (seqZ 0 n) = Ok d'
    /\ bytes_ok d' /\ length d' = length d
    /\ forall j : nat, bytes_bits d' !! j =
         if (b <=? Z.of_nat j) && (Z.of_nat j <? b + n)
         then Some (v (Z.of_nat j - b)) else bytes_bits d !! j.
Proof.
  intros Hd Hb Hn. revert n Hn. refine (natlike_ind _ _ _).
  - intros _. exists d. split_and!; [done..|]. intros j. rewrite Z.add_0_r.
    destruct (Z.leb_spec b (Z.of_nat j)), (Z.ltb_spec (Z.of_nat j) b); try lia; done.
  - intros n Hn IH Hlen. destruct IH as (d1 & Hf & Hd1 & Hl1 & Hj); [lia|].
    change (Z.succ n) with (n + 1). rewrite seqZ_snoc, foldM_app, Hf, bind_of_Ok, Z.add_0_l by lia.
    cbn [foldM].
    destruct (write_bit_spec d1 (b + n) (v n)) as (d2 & Hw & Hd2 & Hl2 & Hbits); [done|lia|].
    exists d2. rewrite Hw. split_and!; [done..|lia|]. intros j. rewrite Hbits.
    destruct (decide (Z.to_nat (b + n) = j)) as [<-|Hne].
    + rewrite list_lookup_insert_eq by (rewrite length_bytes_bits; lia).
      rewrite Z2Nat.id by lia. rewrite (proj2 (Z.leb_le _ _)), (proj2 (Z.ltb_lt _ _)) by lia.
      simpl. do 2 f_equal. lia.
    + rewrite list_lookup_insert_ne, Hj by done.
      destruct (Z.leb_spec b (Z.of_nat j)), (Z.ltb_spec (Z.of_nat j) (b + n)),
        (Z.ltb_spec (Z.of_nat j) (b + (n + 1))); try done; lia.
Qed.

Lemma run_slice_assign d d' len b (w : list bool) :
  0 <= b -> b + zlen w <= len -> len <= 8 * zlen d -> length d' = length d ->
  (forall j : nat, bytes_bits d' !! j =
     if (b <=? Z.of_nat j) && (Z.of_nat j <? b + zlen w)
     then Some (default false (w !! Z.to_nat (Z.of_nat j - b))) else bytes_bits d !! j) ->
  bits_raw d' len = slice_assign (bits_raw d len) b (b + zlen w) w.
Proof.
  intros Hb Hw Hlen Hl Hj. rewrite slice_assign_in by (rewrite ?length_bits_raw; lia).
  apply list_eq. intros j. unfold bits_raw.
  destruct (decide (j < Z.to_nat len)%nat) as [Hlt|Hge].
  2:{ rewrite !lookup_ge_None_2; [done|..];
      rewrite ?length_app, ?length_drop, ?length_take, ?length_bytes_bits; lia. }
  rewrite lookup_take_lt, Hj by done.
  destruct (Z.leb_spec b (Z.of_nat j)) as [Hbj|Hbj].
  - rewrite lookup_app_r, length_take, length_take, length_bytes_bits
      by (rewrite !length_take, length_bytes_bits; lia).
    destruct (Z.ltb_spec (Z.of_nat j) (b + zlen w)) as [Hjw|Hjw]; simpl.
    + rewrite lookup_app_l by lia. destruct (lookup_lt_is_Some_2 w (Z.to_nat (Z.of_nat j - b)))
        as [x Hx]; [lia|]. rewrite Hx. simpl. rewrite <- Hx. f_equal. lia.
    + rewrite lookup_app_r, lookup_drop, lookup_take_lt by lia. f_equal. lia.
  - simpl. rewrite lookup_app_l by (rewrite !length_take, length_bytes_bits; lia).
    by rewrite lookup_take_lt, lookup_take_lt by lia.
Qed.

Lemma clean_joined_bytes s : clean s -> clean_bytes (joined s) (bs_length s).
Proof.
  intros Hs. destruct (joined_spec s (proj1 Hs)).
  split_and!; [done|by apply layout_length_nonneg, Hs|done|by apply joined_clean].
Qed.

(** [BitString.__setitem__]: the indexed byte of the chunks, or the partial
    last byte, is the byte of the joined data. *)
Lemma bs_setitem_spec s i v :
  clean s ->
  match bs_setitem s i v with
  | Ok s' => clean s' /\ set_item (bits s) i v = Ok (bits s')
  | Err e => set_item (bits s) i v = Err e
  end.
Proof.
  intros Hs. pose proof (length_bits s (proj1 Hs)) as Hl.
  pose proof (bits_bound s (proj1 Hs)) as Hbd.
  unfold bs_setitem, set_item. rewrite Hl. cbv zeta. set (j := if i <? 0 then _ else _).
  clearbody j.
  destruct (Z.leb_spec 0 j), (Z.ltb_spec j (bs_length s)); simpl andb; [|done..].
  destruct (joined_spec s (proj1 Hs)) as [Hjok _].
  destruct (write_bit_spec (joined s) j v Hjok) as (d' & Hw & _ & _ & Hbits); [lia|].
  destruct (index_byte (joined s) j) as (b & Hb & Hi & _); [lia|].
  unfold write_bit, update_byte in Hw. rewrite shiftr_div_8, Hi, bind_of_Ok in Hw.
  rewrite set_item_Ok in Hw by (Z.div_mod_to_equations; lia). injection Hw as Hw.
  destruct Hs as [[Hok Hlast Hn _] Hc]. pose proof (Z.mod_pos_bound (bs_length s) 8).
  rewrite (Z2Nat.inj_div j 8) in Hw by lia. change (Z.to_nat 8) with 8%nat in Hw.
  assert (Z.to_nat (j / 8) = Z.to_nat j / 8)%nat as Hdiv by (rewrite Z2Nat.inj_div by lia; done).
  assert (0 <= j / 8) by (Z.div_mod_to_equations; lia).
  destruct (Z.ltb_spec (j / 8) (zlen (concat (bs_bytes s)))) as [Hin|Hout].
  - assert (concat (bs_bytes s) !! (Z.to_nat j / 8)%nat = Some b) as Hcb.
    { rewrite <- Hb. unfold joined. destruct (Z.land (bs_length s) 7 =? 0); [done|]. rewrite lookup_app_l; [done|].
      rewrite <- Hdiv. lia. }
    unfold update_byte. rewrite (index_lookup _ _ b); [|Z.div_mod_to_equations; lia|by rewrite Hdiv].
    rewrite bind_of_Ok, set_item_Ok, bind_of_Ok by (split; [Z.div_mod_to_equations; lia|done]).
    rewrite Hdiv. set (s' := mkBitString _ _ _ _).
    assert (joined s' = d') as Hj'.
    { rewrite <- Hw. unfold joined. simpl. rewrite app_nil_r. destruct (Z.land (bs_length s) 7 =? 0); [done|].
      by rewrite insert_app_l by (by apply lookup_lt_Some in Hcb). }
    split; [apply clean_intro; simpl; rewrite ?app_nil_r, ?length_insert; try done; [|by left]|].
    + apply bytes_ok_insert; [done|]. rewrite land_mod_8.
      apply is_byte_setbit; [by eapply Forall_lookup_1 in Hcb|by apply Z.mod_pos_bound].
    + f_equal. symmetry. unfold bits. rewrite Hj'. by apply bits_raw_write.
  - assert (0 < bs_length s mod 8 /\ j / 8 = zlen (concat (bs_bytes s))) as [Hpos Heq]
      by (Z.div_mod_to_equations; lia).
    assert (bs_length s mod 8 <> 0) as Hnz by lia. apply Z.eqb_neq in Hnz.
    assert (b = bs_last s) as ->.
    { unfold joined in Hb. rewrite land_mod_8, Hnz in Hb.
      rewrite lookup_app_r in Hb by (rewrite <- Hdiv; lia).
      replace (Z.to_nat j / 8 - _)%nat with 0%nat in Hb by lia. simpl in Hb. congruence. }
    set (s' := mkBitString _ _ _ _).
    assert (joined s' = d') as Hj'.
    { rewrite <- Hw. unfold joined. simpl. rewrite land_mod_8, Hnz.
      rewrite insert_app_r_alt by lia. by replace (Z.to_nat j / 8 - _)%nat with 0%nat by lia. }
    split; [apply clean_intro; simpl; try done; [|by left]|].
    + rewrite land_mod_8. assert (0 <= j mod 8 < bs_length s mod 8) by (Z.div_mod_to_equations; lia).
      destruct v; [apply lor_bound; [done|]|rewrite Z.land_comm; apply land_bound; [lia|done]].
      rewrite shiftl_1 by lia. split; [lia|]. apply Z.pow_lt_mono_r; lia.
    + f_equal. symmetry. unfold bits. rewrite Hj'. by apply bits_raw_write.
Qed.

(** Slice bounds after clamping. *)
Lemma slice_range_spec len b e b' e' :
  0 <= len -> slice_range len b e = (b', e') -> 0 <= b' <= len /\ 0 <= e' <= len.
Proof. unfold slice_range. intros ? [= <- <-]. lia. Qed.

Lemma write_bit_clear_set_eq d pos v :
  0 <= pos < 8 * zlen d -> write_bit_clear_set d pos v = write_bit d pos v.
Proof.
  intros Hp. destruct (index_byte d pos Hp) as (b & Hb & Hi & _).
  unfold write_bit_clear_set, write_bit, update_byte. rewrite shiftr_div_8, Hi, !bind_of_Ok.
  assert (0 <= pos / 8 < zlen d) as Hr by (Z.div_mod_to_equations; lia).
  rewrite set_item_Ok, bind_of_Ok by done. destruct v; [|by rewrite set_item_Ok].
  rewrite (index_lookup _ _ (Z.land b (Z.lnot (Z.shiftl 1 (Z.land pos 7))))), bind_of_Ok;
    [|lia|by rewrite list_lookup_insert_eq by lia].
  rewrite !set_item_Ok by (rewrite ?length_insert; done). f_equal.
  rewrite list_insert_insert_eq. f_equal. rewrite land_mod_8.
  pose proof (Z.mod_pos_bound pos 8). bitwise.
Qed.

Lemma write_bit_length d pos v d' : write_bit d pos v = Ok d' -> length d' = length d.
Proof.
  unfold write_bit, update_byte. destruct (index d _); simpl; [|done].
  unfold set_item. case_match; [|done]. intros [= <-]. by rewrite length_insert.
Qed.

(** [BitString.__setitem__] on a slice replaces the window. *)
Lemma bs_setitem_slice_spec s b e value b' e' :
  clean s -> base_ok value -> slice_range (bs_length s) b e = (b', e') -> b' <= e' ->
  base_len value = e' - b' ->
  exists s', bs_setitem_slice s b e value = Ok s' /\ clean s'
    /\ bits s' = slice_assign (bits s) b' e' (base_bits value).
Proof.
  intros Hs Hv Hr Hbe Hlen. pose proof (bits_bound s (proj1 Hs)) as Hbd.
  pose proof (length_base_bits value Hv) as Hlv. pose proof (length_bits s (proj1 Hs)) as Hls.
  apply slice_range_spec in Hr as Hr'; [|lia].
  unfold bs_setitem_slice. rewrite Hr, Hlen, Z.eqb_refl. simpl negb. cbv iota.
  destruct (Z.eqb_spec (e' - b') 0) as [Hz|Hz].
  { exists s. split_and!; [done..|]. rewrite (bits_nil_of_len value) by (done || lia).
    rewrite slice_assign_in by lia. replace e' with b' by lia. by rewrite app_nil_l, take_drop. }
  rewrite to_int_spec, bind_of_Ok by done. set (w := base_bits value) in *.
  destruct (clean_joined_bytes s Hs) as (Hjok & _ & Hjl & Hjc).
  destruct (write_run (joined s) b' (e' - b') (fun i => Z.testbit (Z_of_bits w) i))
    as (d & Hf & Hd & Hld & Hj); [done|lia..|].
  rewrite (foldM_ext _ (fun d i => write_bit d (b' + i) (Z.testbit (Z_of_bits w) i))
             (fun d => length d = length (joined s))); [|done|..].
  2:{ intros d0 i Hd0 Hi%elem_of_seqZ. rewrite write_bit_clear_set_eq by lia.
      by rewrite land_shiftl_1 by lia. }
  2:{ intros d0 i d1 Hd0 _ Hw%write_bit_length. congruence. }
  rewrite Hf, bind_of_Ok.
  assert (bits_raw d (bs_length s) = slice_assign (bits s) b' e' w) as Hbits.
  { replace e' with (b' + zlen w) by lia. apply run_slice_assign; try lia.
    intros j. rewrite Hj. replace (b' + zlen w) with (b' + (e' - b')) by lia.
    destruct (Z.leb_spec b' (Z.of_nat j)); [simpl|done]. case_match; [|done].
    f_equal. by rewrite <- (Z2Nat.id (Z.of_nat j - b')), testbit_Z_of_bits, Nat2Z.id by lia. }
  rewrite <- Hbits. apply init_raw; [|by left]. split_and!; [done|lia|lia|].
  apply (clean_high_preserved (joined s)); try done; [lia|]. intros j Hjj. rewrite Hj.
  rewrite (proj2 (Z.ltb_ge (Z.of_nat j) _)) by lia. by rewrite andb_false_r.
Qed.

Lemma mb_setitem_slice_spec m b e value b' e' :
  mb_ok m -> base_ok value -> slice_range (mb_length m) b e = (b', e') -> b' <= e' ->
  let n := Z.min (e' - b') (base_len value) in
  exists m', mb_setitem_slice m b e None value = Ok m' /\ mb_ok m'
    /\ mb_bits m' = slice_assign (mb_bits m) b' (b' + n) (take (Z.to_nat n) (base_bits value)).
Proof.
  intros Hm Hv Hr Hbe n. pose proof (mb_bound m Hm) as Hbd. destruct (Hm) as [Hok Hn Hsz Hc].
  pose proof (length_base_bits value Hv) as Hlv.
  apply slice_range_spec in Hr as Hr'; [|lia].
  unfold mb_setitem_slice. rewrite Hr. simpl negb. cbv iota. fold n.
  assert (0 <= n) as Hn0 by lia. assert (n <= e' - b' /\ n <= base_len value) as [] by lia.
  set (w := take (Z.to_nat n) (base_bits value)).
  assert (zlen w = n) as Hlw by (unfold w; rewrite length_take; lia). clearbody n.
  set (v := fun i : Z => default false (w !! Z.to_nat i)).
  rewrite (foldM_ext _ (fun d i => write_bit d (b' + i) (v i)) (fun _ => True)); [|done| |done].
  2:{ intros d0 i _ Hi%elem_of_seqZ. rewrite base_getitem_spec by (done || lia).
      destruct (lookup_lt_is_Some_2 (base_bits value) (Z.to_nat i)) as [x Hx]; [lia|].
      rewrite (index_lookup _ _ x), bind_of_Ok by (done || lia). unfold v, w.
      by rewrite lookup_take_lt, Hx by lia. }
  destruct (write_run (mb_data m) b' n v) as (d & -> & Hd & Hld & Hj); [done|lia..|].
  rewrite bind_of_Ok. eexists. split; [done|]. split.
  - constructor; simpl; [done..|lia|].
    apply (clean_high_preserved (mb_data m)); try done. intros j Hjj. rewrite Hj.
    rewrite (proj2 (Z.ltb_ge (Z.of_nat j) _)) by lia. by rewrite andb_false_r.
  - unfold mb_bits. simpl. rewrite <- Hlw. apply run_slice_assign; try lia.
    intros j. rewrite Hj, Hlw. done.
Qed.

(** [MutableBitString(...)] holds the seed's bits, whatever the bytes above
    the length were. *)
Lemma mb_init_seed seed :
  layout_ok seed ->
  exists m, (d ← data seed;
    let expected := (bs_length seed + 7) / 8 in
    let d := if zlen d <? expected then d ++ replicate (Z.to_nat (expected - zlen d)) 0
             else if expected <? zlen d then slice_to d expected else d in
    let excess := Z.land (bs_length seed) 7 in
    d ← (if (excess =? 0) || (zlen d =? 0) then Ok d
         else update_byte d (-1) (fun b => Z.land b (Z.shiftl 1 excess - 1)));
    Ok (mkMutable d (bs_length seed))) = Ok m /\ mb_ok m /\ mb_bits m = bits seed.
Proof.
  intros Hs. destruct (joined_spec seed Hs) as [Hok Hsz]. pose proof (bits_bound seed Hs) as Hbd.
  rewrite data_spec, bind_of_Ok by done. unfold byte_count in Hsz. cbv zeta.
  rewrite <- Hsz, !Z.ltb_irrefl, land_mod_8. pose proof (from_le_bound _ Hok) as Hfb.
  destruct (Z.eqb_spec (bs_length seed mod 8) 0) as [Hz|Hz]; simpl orb.
  - eexists. split; [done|]. split; [|done]. constructor; simpl; [done|lia|done|].
    apply Z.lt_le_trans with (256 ^ zlen (joined seed)); [lia|]. rewrite pow_256 by lia.
    apply Z.pow_le_mono_r; [lia|]. Z.div_mod_to_equations. lia.
  - destruct (Z.eqb_spec (zlen (joined seed)) 0) as [H0|H0]; [exfalso; Z.div_mod_to_equations; lia|].
    assert (exists front last, joined seed = front ++ [last]) as (front & last & Hj).
    { destruct (exists_last (l := joined seed)) as (f & x & ->); [by destruct (joined seed)|eauto]. }
    pose proof (Z.mod_pos_bound (bs_length seed) 8) as Hk.
    set (k := bs_length seed mod 8) in *.
    unfold bits. rewrite Hj in *. unfold update_byte. rewrite index_last, bind_of_Ok.
    unfold set_item. rewrite length_app, Nat2Z.inj_add in *. simpl length in *.
    change (-1 <? 0) with true. cbv iota.
    rewrite (proj2 (Z.leb_le 0 _)), (proj2 (Z.ltb_lt _ _)) by lia. simpl andb. cbv iota. rewrite bind_of_Ok.
    replace (Z.to_nat _) with (length front + 0)%nat by lia. rewrite insert_app_r. simpl insert.
    rewrite land_low by lia. apply bytes_ok_app in Hok as [Hfo Hlo].
    assert (bs_length seed = 8 * zlen front + k) as Hlen by (subst k; Z.div_mod_to_equations; lia).
    assert (0 <= last mod 2 ^ k < 2 ^ k) as Hm by (apply Z.mod_pos_bound; lia).
    assert (2 ^ k <= 256) by (change 256 with (2 ^ 8); apply Z.pow_le_mono_r; lia).
    pose proof (from_le_bound front Hfo) as Hff. rewrite pow_256 in Hff by lia.
    eexists. split; [done|]. split.
    + constructor; simpl; [apply bytes_ok_app; split; [done|]|lia|..].
      * constructor; [unfold is_byte; lia|constructor].
      * unfold byte_count. rewrite length_app. simpl length. lia.
      * rewrite from_le_app, Hlen, Z.pow_add_r, pow_256 by lia. simpl. nia.
    + unfold mb_bits, bits_raw. simpl. rewrite Hlen, !bytes_bits_app.
      rewrite Z2Nat.inj_add, Z2Nat.inj_mul, Nat2Z.id by lia. change (Z.to_nat 8) with 8%nat.
      rewrite <- !length_bytes_bits, !take_app_add. f_equal.
      rewrite !bytes_bits_cons. change (bytes_bits []) with (@nil bool). rewrite !app_nil_r.
      rewrite !take_bits_of by lia. rewrite <- (Z2Nat.id k) at 2 by lia. by apply bits_of_mod.
Qed.

Lemma mb_init_spec a len :
  arg_ok a len ->
  exists m, mb_init (Some a) len = Ok m /\ mb_ok m /\ mb_bits m = arg_bits a len.
Proof.
  intros Ha. destruct (bs_init_spec a len Ha) as (s & Hi & Hs & Hb). unfold mb_init.
  rewrite Hi, bind_of_Ok. destruct (mb_init_seed s (proj1 Hs)) as (m & Hm & ? & ?).
  exists m. split_and!; [exact Hm|done|congruence].
Qed.

(** ** Equality, reversal, serialisation *)

Lemma pack_inj l1 l2 : zlen l1 = zlen l2 -> pack l1 = pack l2 -> l1 = l2.
Proof.
  intros Hl H. destruct (pack_clean_bytes l1) as [_ <-], (pack_clean_bytes l2) as [_ <-].
  by rewrite Hl, H.
Qed.

(** On canonical objects [==] decides equality of the bits. *)
Lemma base_eq_spec a b :
  base_wf a -> base_wf b -> base_eq a b = Ok (bool_decide (base_bits a = base_bits b)).
Proof.
  intros Ha Hb. pose proof (length_base_bits a (proj1 Ha)) as Hla.
  pose proof (length_base_bits b (proj1 Hb)) as Hlb. unfold base_eq.
  destruct (Z.eqb_spec (base_len a) (base_len b)) as [He|He]; simpl.
  - rewrite !base_data_spec by done. simpl. f_equal. apply bool_decide_ext. split; [|congruence].
    apply pack_inj. congruence.
  - f_equal. symmetry. apply bool_decide_eq_false_2. congruence.
Qed.

Lemma lookup_reverse_total (l : list bool) (i : nat) :
  (i < length l)%nat -> reverse l !! i = l !! (length l - 1 - i)%nat.
Proof.
  intros Hi. rewrite reverse_lookup by done. f_equal. lia.
Qed.

(** The bit-reversing loop of [reversed], after [k] rounds. *)
Lemma reverse_loop v n k :
  0 <= k <= n ->
  let rev := foldl (fun rev i =>
        if Z.land v (Z.shiftl 1 i) =? 0 then rev else Z.lor rev (Z.shiftl 1 (n - 1 - i)))
      0 (seqZ 0 k) in
  forall j, 0 <= j -> Z.testbit rev j = (n - k <=? j) && (j <? n) && Z.testbit v (n - 1 - j).
Proof.
  cbv zeta. intros [Hk Hkn]. revert k Hk Hkn. refine (natlike_ind _ _ _).
  - intros _ j Hj. simpl. rewrite Z.bits_0.
    destruct (Z.leb_spec (n - 0) j), (Z.ltb_spec j n); try lia; done.
  - intros k Hk IH Hkn j Hj. change (Z.succ k) with (k + 1). rewrite seqZ_snoc, foldl_app by lia.
    simpl. specialize (IH ltac:(lia) j Hj). set (r := foldl _ _ _) in *. rewrite Z.add_0_l.
    pose proof (land_shiftl_1 v k Hk) as Ht.
    destruct (Z.eqb_spec (Z.land v (Z.shiftl 1 k)) 0); simpl in Ht.
    + rewrite IH. destruct (decide (j = n - 1 - k)) as [->|].
      * replace (n - 1 - (n - 1 - k)) with k by lia. rewrite <- Ht. by rewrite !andb_false_r.
      * f_equal. f_equal. destruct (Z.leb_spec (n - k) j), (Z.leb_spec (n - (k + 1)) j); lia || done.
    + rewrite Z.lor_spec, IH, shiftl_1, Z.pow2_bits_eqb by lia.
      destruct (Z.eqb_spec (n - 1 - k) j) as [<-|].
      * replace (n - 1 - (n - 1 - k)) with k by lia. rewrite <- Ht.
        rewrite orb_true_r. rewrite (proj2 (Z.leb_le _ _)), (proj2 (Z.ltb_lt _ _)) by lia. done.
      * rewrite orb_false_r. f_equal. f_equal.
        destruct (Z.leb_spec (n - k) j), (Z.leb_spec (n - (k + 1)) j); lia || done.
Qed.

Lemma base_reversed_spec b :
  base_ok b ->
  exists s, base_reversed b = Ok s /\ clean s /\ bits s = reverse (base_bits b).
Proof.
  intros Hb. pose proof (length_base_bits b Hb) as Hl. unfold base_reversed.
  destruct (Z.eqb_spec (base_len b) 0) as [Hz|Hz].
  { destruct clean_empty as [? Hbe]. exists bs_empty. rewrite Hbe.
    rewrite (bits_nil_of_len b) by done. done. }
  rewrite to_int_spec, bind_of_Ok by done. set (v := Z_of_bits (base_bits b)).
  set (n := base_len b) in *. assert (0 <= n <= n) as Hn by lia.
  pose proof (reverse_loop v n n Hn) as Hr. cbv zeta in Hr. set (r := foldl _ _ _) in *.
  destruct (bs_init_spec (AInt r) (Some n)) as (s & ? & ? & Hs); [simpl; lia|].
  exists s. split_and!; [done..|]. rewrite Hs. simpl.
  apply list_eq_same_length with (Z.to_nat n);
    [rewrite length_reverse; lia|by rewrite length_bits_of|].
  intros i x y Hi. rewrite lookup_bits_of, lookup_reverse_total by lia. intros [= <-] Hy.
  rewrite Hr by lia. rewrite Z.sub_diag, (proj2 (Z.leb_le _ _)), (proj2 (Z.ltb_lt _ _)) by lia.
  simpl. unfold v. replace (n - 1 - Z.of_nat i) with (Z.of_nat (length (base_bits b) - 1 - i)) by lia.
  by rewrite testbit_Z_of_bits, Hy.
Qed.

Lemma cbor_roundtrip b :
  base_wf b ->
  exists s, (w ← cbor_encode b; cbor_decode w) = Ok s /\ clean s /\ bits s = base_bits b.
Proof.
  intros Hb. pose proof (length_base_bits b (proj1 Hb)) as Hl. unfold cbor_encode, cbor_decode.
  rewrite base_data_spec, !bind_of_Ok by done. simpl fst. simpl snd. rewrite <- Hl.
  destruct (pack_clean_bytes (base_bits b)) as [Hc Hp].
  destruct (bs_init_spec (ABytes (pack (base_bits b))) (Some (zlen (base_bits b)))) as (s & ? & ? & Hs);
    [done|]. exists s. split_and!; [done..|]. rewrite Hs. exact Hp.
Qed.

Lemma getitem_slice_spec src b e b' e' :
  source_ok src -> slice_range (source_length src) b e = (b', e') ->
  base_wf (getitem_slice src b e)
  /\ base_bits (getitem_slice src b e) = slice (source_bits src) b' e'.
Proof.
  intros Hs Hr. pose proof (length_source_bits src Hs) as Hl.
  apply slice_range_spec in Hr as Hr'; [|lia]. unfold getitem_slice. rewrite Hr.
  destruct (Z.leb_spec e' b').
  - destruct clean_zero_bits as [Hz Hb]. split; [split; [apply Hz|done]|].
    simpl. rewrite Hb, slice_nonneg by lia. by replace (Z.to_nat e' - Z.to_nat b')%nat with 0%nat by lia.
  - split; [|done]. split; [|done]. simpl. split_and!; [done|lia..].
Qed.

(** ** The abstract bit vector and the refinement

    A [BitString] as its clients see it is a growing list of bits.  [op] is
    a mutation of a [BitString]; [spec_step] says what it means on the list
    of bits, with Python's exceptions; [step] is the code. *)

Inductive op : Type :=
  | OpAppend (a : arg) (length : option Z)
  | OpIadd (other : base)
  | OpAdd (other : base)
  | OpSet (i : Z) (v : bool)
  | OpSetSlice (b e : option Z) (value : base)
  | OpReversed
  | OpData.

Definition step (s : BitString) (o : op) : result BitString :=
  match o with
  | OpAppend a n => append s a n
  | OpIadd b => bs_iadd s b
  | OpAdd b => bs_add s b
  | OpSet i v => bs_setitem s i v
  | OpSetSlice b e w => bs_setitem_slice s b e w
  | OpReversed => base_reversed (BStr s)
  | OpData => Ok (data_fill s)
  end.

Definition spec_step (l : list bool) (o : op) : result (list bool) :=
  match o with
  | OpAppend a n => Ok (l ++ arg_bits a n)
  | OpIadd b | OpAdd b => Ok (l ++ base_bits b)
  | OpSet i v => set_item l i v
  | OpSetSlice b e w =>
      let '(b, e) := slice_range (zlen l) b e in
      if base_len w =? e - b then Ok (slice_assign l b e (base_bits w)) else Err ValueError
  | OpReversed => Ok (reverse l)
  | OpData => Ok l
  end.

(** The operands an operation is called with are well formed. *)
Definition op_ok (o : op) : Prop :=
  match o with
  | OpAppend a n => arg_ok a n
  | OpIadd b | OpAdd b => base_wf b
  | OpSetSlice _ _ w => base_ok w
  | OpSet _ _ | OpReversed | OpData => True
  end.

(** A canonical object stands for a list of bits. *)
Definition denotes (s : BitString) (l : list bool) : Prop := clean s /\ bits s = l.

Lemma refines_ex r l :
  (exists s, r = Ok s /\ clean s /\ bits s = l) -> sim denotes r (Ok l).
Proof. intros (s & -> & Hs & <-). by split. Qed.

Lemma data_fill_clean s : clean s -> clean (data_fill s) /\ bits (data_fill s) = bits s.
Proof.
  intros [Hl Hc]. destruct (data_fill_spec s Hl) as [Hl' Hj].
  assert (bs_length (data_fill s) = bs_length s /\ bs_last (data_fill s) = bs_last s) as [Hn Hb]
    by (unfold data_fill; by destruct (bs_cache s)).
  split; [split; [done|by rewrite Hn, Hb]|]. unfold bits. by rewrite Hj, Hn.
Qed.

Lemma step_refines s o : clean s -> op_ok o -> sim denotes (step s o) (spec_step (bits s) o).
Proof.
  intros Hs Ho. pose proof (length_bits s (proj1 Hs)) as Hl.
  destruct o as [a n|b|b|i v|b e w| |]; cbn [step spec_step op_ok] in *.
  - by apply refines_ex, append_spec.
  - by apply refines_ex, bs_iadd_spec.
  - by apply refines_ex, bs_add_spec.
  - pose proof (bs_setitem_spec s i v Hs) as Hset.
    destruct (bs_setitem s i v); [destruct Hset as [? ->]|rewrite Hset]; done.
  - rewrite Hl. destruct (slice_range (bs_length s) b e) as [b' e'] eqn:Hr.
    destruct (Z.eqb_spec (base_len w) (e' - b')) as [He|He].
    + apply refines_ex, bs_setitem_slice_spec; try done.
      pose proof (length_base_bits w Ho). lia.
    + unfold bs_setitem_slice. rewrite Hr. by rewrite (proj2 (Z.eqb_neq _ _)).
  - apply refines_ex, (base_reversed_spec (BStr s)), Hs.
  - split; [by apply data_fill_clean|]. by rewrite (proj2 (data_fill_clean s Hs)).
Qed.

(** The mutable class: a buffer of fixed length. *)
Inductive mop : Type :=
  | MSet (i : Z) (v : bool)
  | MSetSlice (b e step : option Z) (value : base).

Definition mstep (m : MutableBitString) (o : mop) : result MutableBitString :=
  match o with
  | MSet i v => mb_setitem m i v
  | MSetSlice b e step w => mb_setitem_slice m b e step w
  end.

Definition spec_mstep (l : list bool) (o : mop) : result (list bool) :=
  match o with
  | MSet i v => set_item l i v
  | MSetSlice b e step w =>
      if negb (match step with None => true | Some s => s =? 1 end) then Err ValueError
      else
        let '(b, e) := slice_range (zlen l) b e in
        let n := Z.max 0 (Z.min (e - b) (zlen (base_bits w))) in
        Ok (slice_assign l b (b + n) (take (Z.to_nat n) (base_bits w)))
  end.

Definition mop_ok (o : mop) : Prop :=
  match o with MSet _ _ => True | MSetSlice _ _ _ w => base_ok w end.

Definition mdenotes (m : MutableBitString) (l : list bool) : Prop := mb_ok m /\ mb_bits m = l.

Lemma mstep_refines m l o : mdenotes m l -> mop_ok o -> sim mdenotes (mstep m o) (spec_mstep l o).
Proof.
  intros [Hm <-] Ho. pose proof (length_base_bits (BMut m) Hm) as Hl. simpl in Hl.
  destruct o as [i v|b e step w]; cbn [mstep spec_mstep mop_ok] in *.
  - pose proof (mb_setitem_spec m i v Hm) as Hset.
    destruct (mb_setitem m i v); [destruct Hset as [? ->]|rewrite Hset]; done.
  - pose proof (length_base_bits w Ho) as Hlw. rewrite Hl, Hlw.
    pose proof (mb_bound m Hm) as Hbd.
    destruct (slice_range (mb_length m) b e) as [b' e'] eqn:Hr.
    apply slice_range_spec in Hr as Hr'; [|lia].
    assert (match step with None => true | Some s => s =? 1 end = true
            -> mb_setitem_slice m b e step w = mb_setitem_slice m b e None w) as Hstep
      by (intros Hs; unfold mb_setitem_slice; by rewrite Hs).
    destruct (match step with None => true | Some s => s =? 1 end) eqn:Hs;
      [|unfold mb_setitem_slice; by rewrite Hs].
    rewrite (Hstep eq_refl). simpl negb. cbv iota. destruct (Z.le_gt_cases b' e') as [Hbe|Hbe].
    + destruct (mb_setitem_slice_spec m b e w b' e' Hm Ho Hr Hbe) as (m' & -> & ? & Hb).
      rewrite Z.max_r by lia. by split.
    + unfold mb_setitem_slice. simpl negb. cbv iota. rewrite Hr.
      rewrite Z.max_l by lia. rewrite seqZ_nil by lia. simpl. rewrite Z.add_0_r. split; [by destruct m|].
      rewrite slice_assign_in, app_nil_l, take_drop by lia. by destruct m.
Qed.

(** ** Properties *)

(** C11: a [BitString] built from any documented argument and then driven
    through any sequence of appends, concatenations, item and slice
    assignments, reversals and [data] reads behaves as the list of its bits:
    the same exception at the same point, or an object in canonical layout
    whose bits are the specified list. *)
Theorem bitstring_refines_bits a len ops :
  arg_ok a len -> Forall op_ok ops ->
  sim denotes (s ← bs_init (Some a) len; foldM step s ops) (foldM spec_step (arg_bits a len) ops).
Proof.
  intros Ha Hops. destruct (bs_init_spec a len Ha) as (s & -> & Hs & Hb). rewrite bind_of_Ok.
  apply foldM_sim; [by split|]. intros s' l x [Hs' <-] Hx.
  apply step_refines; [done|]. by eapply Forall_forall in Hops.
Qed.

Lemma bitstring_refines_bits_witness :
  exists s, (s ← bs_init (Some (AInt 5)) (Some 3);
             foldM step s [OpAppend (AInt 0x1ff) (Some 9); OpSet (-1) false; OpReversed]) = Ok s
            /\ bits s = [false; true; true; true; true; true; true; true; true; true; false; true].
Proof.
  pose proof (bitstring_refines_bits (AInt 5) (Some 3)
    [OpAppend (AInt 0x1ff) (Some 9); OpSet (-1) false; OpReversed]) as H.
  destruct (s ← bs_init (Some (AInt 5)) (Some 3); foldM step s _) as [s|] eqn:E.
  - exists s. split; [done|]. apply H; [simpl; lia|by repeat constructor].
  - exfalso. vm_compute in E. discriminate.
Defined.

(** A [MutableBitString], whatever its constructor was given, behaves
    under any sequence of bit and slice assignments as a list of bits of
    fixed length: index errors, refused strides and clamped windows included,
    the bits past the length staying zero. *)
Theorem mutable_bitstring_refines_bits a len ops :
  arg_ok a len -> Forall mop_ok ops ->
  sim mdenotes (m ← mb_init (Some a) len; foldM mstep m ops) (foldM spec_mstep (arg_bits a len) ops).
Proof.
  intros Ha Hops. destruct (mb_init_spec a len Ha) as (m & -> & Hm & Hb). rewrite bind_of_Ok.
  apply foldM_sim; [by split|]. intros s' l x Hs' Hx.
  apply mstep_refines; [done|]. by eapply Forall_forall in Hops.
Qed.

Lemma mutable_bitstring_refines_bits_witness :
  exists m, (m ← mb_init (Some (ABytes [0xf0; 0x01])) (Some 12);
             foldM mstep m [MSet 0 true; MSetSlice (Some (-2)) None None (BMut (mkMutable [3] 2))]) = Ok m
            /\ mb_bits m = [true; false; false; false; true; true; true; true; true; false; true; true].
Proof.
  pose proof (mutable_bitstring_refines_bits (ABytes [0xf0; 0x01]) (Some 12)
    [MSet 0 true; MSetSlice (Some (-2)) None None (BMut (mkMutable [3] 2))]) as H.
  destruct (m ← mb_init (Some (ABytes [0xf0; 0x01])) (Some 12); foldM mstep m _) as [m|] eqn:E.
  - exists m. split; [done|]. apply H.
    + split_and!; [|vm_compute; congruence|done|done].
      repeat constructor; vm_compute; congruence.
    + repeat constructor; vm_compute; congruence.
  - exfalso. vm_compute in E. discriminate.
Defined.

(** Between canonical objects of any of the three classes, [==] is
    equality of the bits, and reversing twice gives an equal object. *)
Theorem equality_and_reversal a b :
  base_wf a -> base_wf b ->
  base_eq a b = Ok (bool_decide (base_bits a = base_bits b))
  /\ exists r, base_reversed a = Ok r /\ bits r = reverse (base_bits a)
     /\ exists r', base_reversed (BStr r) = Ok r' /\ base_eq (BStr r') a = Ok true.
Proof.
  intros Ha Hb. split; [by apply base_eq_spec|].
  destruct (base_reversed_spec a (proj1 Ha)) as (r & Hr & Hcr & Hbr). exists r. split_and!; [done..|].
  destruct (base_reversed_spec (BStr r) (proj1 Hcr)) as (r' & Hr' & Hcr' & Hbr'). exists r'.
  split; [done|]. rewrite base_eq_spec; [|by split; [apply Hcr'|]|done].
  simpl in *. rewrite Hbr', Hbr, reverse_involutive. by rewrite bool_decide_eq_true_2.
Qed.

Lemma equality_and_reversal_witness :
  base_eq (BMut (mkMutable [0x0d] 4)) (BSlice (mkSlice (SrcMut (mkMutable [0x34] 6)) 2 6)) = Ok true.
Proof.
  assert (mb_ok (mkMutable [0x0d] 4)) by (split; [repeat constructor|..]; vm_compute; congruence).
  assert (mb_ok (mkMutable [0x34] 6)) by (split; [repeat constructor|..]; vm_compute; congruence).
  refine (proj1 (equality_and_reversal (BMut (mkMutable [0x0d] 4))
    (BSlice (mkSlice (SrcMut (mkMutable [0x34] 6)) 2 6)) _ _)).
  - by split.
  - split; [|done]. split; [done|vm_compute; split; [split|]; congruence].
Defined.

(** The CBOR form of a canonical object decodes to an equal one. *)
Theorem cbor_decode_encode b :
  base_wf b ->
  exists s, (w ← cbor_encode b; cbor_decode w) = Ok s /\ clean s /\ base_eq (BStr s) b = Ok true.
Proof.
  intros Hb. destruct (cbor_roundtrip b Hb) as (s & Hs & Hc & Hbits). exists s. split_and!; [done..|].
  rewrite base_eq_spec; [|by split; [apply Hc|]|done]. simpl. by rewrite Hbits, bool_decide_eq_true_2.
Qed.

Lemma cbor_decode_encode_witness :
  exists s, (w ← cbor_encode (BMut (mkMutable [0x0d] 4)); cbor_decode w) = Ok s /\ bs_length s = 4.
Proof.
  assert (mb_ok (mkMutable [0x0d] 4)) by (split; [repeat constructor|..]; vm_compute; congruence).
  destruct (cbor_decode_encode (BMut (mkMutable [0x0d] 4))) as (s & Hs & _); [by split|].
  exists s. split; [exact Hs|]. vm_compute in Hs. by injection Hs as <-.
Defined.

(** The byte constructor keeps whatever the last byte holds above the
    length: two objects with the same length and the same bits then differ
    under [==], and appending to the dirty one ors its junk into the bits
    that follow. *)
Theorem bytes_constructor_keeps_junk :
  exists dirty tidy,
    bs_init (Some (ABytes [0xff])) (Some 4) = Ok dirty
    /\ bs_init (Some (AInt 0xf)) (Some 4) = Ok tidy
    /\ bits dirty = bits tidy /\ base_eq (BStr dirty) (BStr tidy) = Ok false
    /\ exists s, append dirty (AInt 0) (Some 4) = Ok s /\ bits s <> bits dirty ++ bits_of 4 0.
Proof.
  eexists _, _. split; [reflexivity|]. split; [reflexivity|]. split; [reflexivity|].
  split; [reflexivity|]. eexists. split; [reflexivity|]. vm_compute. discriminate.
Qed.

(** Indexing a slice is not checked against the slice: one past its end
    reads the next bit of the underlying object instead of raising, while the
    same index on the bits of the window is out of range. *)
Theorem slice_index_escapes_window :
  exists m, mb_init (Some (AInt 0x12)) (Some 6) = Ok m
    /\ getitem_slice (SrcMut m) (Some 0) (Some 4) = BSlice (mkSlice (SrcMut m) 0 4)
    /\ slice_getitem (mkSlice (SrcMut m) 0 4) 4 = Ok true
    /\ index (base_bits (BSlice (mkSlice (SrcMut m) 0 4))) 4 = Err IndexError.
Proof. eexists. split; [reflexivity|]. vm_compute. done. Qed.
