(* ===== verification/BitVec.v ===== *)
(** * The bit-vector interface

    What the protocol layers use of bit strings: an accumulator type [A]
    they append to (src/acrobe/bitstring.py, class [BitString]) and a value
    type [V] they index and slice ([BitStringBase]: bit strings, slices,
    mutable bit strings).  [BitVec] lists the operations, [BitVecLaws] what
    they promise in terms of lists of bits.  The clients' theorems are
    proved against the laws; [BitString] discharges them here, and lists of
    booleans give the reference instance. *)

From S2P Require Import Prelude BitString.

Class BitVec (A V : Type) := {
  bv_new : A;                                 (* BitString() *)
  bv_of_int : Z -> Z -> result V;             (* BitString(v, n) *)
  bv_val : A -> V;                            (* the accumulator as a value *)
  bv_append_int : A -> Z -> Z -> result A;    (* a.append(v, n) *)
  bv_append : A -> V -> result A;             (* a.append(b) *)
  bv_iadd : A -> V -> result A;               (* a += b *)
  bv_add : V -> V -> result V;                (* a + b *)
  bv_len : V -> Z;                            (* len(b) *)
  bv_get : V -> Z -> result bool;             (* b[i] *)
  bv_slice : V -> Z -> Z -> V;                (* b[i:j] *)
  bv_int : V -> result Z;                     (* int(b) *)
  bv_eqb : V -> V -> result bool;             (* a == b *)
}.

Class BitVecLaws (A V : Type) `{BitVec A V} := {
  bv_acc_ok : A -> Prop;
  bv_ok : V -> Prop;
  bv_readable : V -> Prop;                    (* enough for reading: junk padding allowed *)
  bv_bits : V -> list bool;
  bv_ok_readable b : bv_ok b -> bv_readable b;
  bv_new_law : bv_acc_ok bv_new /\ bv_bits (bv_val bv_new) = [];
  bv_of_int_law v n : 0 <= n ->
    exists b, bv_of_int v n = Ok b /\ bv_ok b /\ bv_bits b = bits_of (Z.to_nat n) v;
  bv_append_int_law a v n : bv_acc_ok a -> 0 <= n ->
    exists a', bv_append_int a v n = Ok a' /\ bv_acc_ok a'
               /\ bv_bits (bv_val a') = bv_bits (bv_val a) ++ bits_of (Z.to_nat n) v;
  bv_append_law a b : bv_acc_ok a -> bv_ok b ->
    exists a', bv_append a b = Ok a' /\ bv_acc_ok a'
               /\ bv_bits (bv_val a') = bv_bits (bv_val a) ++ bv_bits b;
  bv_iadd_law a b : bv_acc_ok a -> bv_ok b ->
    exists a', bv_iadd a b = Ok a' /\ bv_acc_ok a'
               /\ bv_bits (bv_val a') = bv_bits (bv_val a) ++ bv_bits b;
  bv_add_law a b : bv_ok a -> bv_ok b ->
    exists c, bv_add a b = Ok c /\ bv_ok c /\ bv_bits c = bv_bits a ++ bv_bits b;
  bv_len_read b : bv_readable b -> bv_len b = zlen (bv_bits b);
  bv_get_read b i : bv_readable b -> 0 <= i < bv_len b -> bv_get b i = index (bv_bits b) i;
  bv_slice_read b i j : bv_readable b -> 0 <= i <= j ->
    bv_ok (bv_slice b i j) /\ bv_bits (bv_slice b i j) = slice (bv_bits b) i j;
  bv_val_law a : bv_acc_ok a -> bv_ok (bv_val a);
  bv_int_law b : bv_ok b -> bv_int b = Ok (Z_of_bits (bv_bits b));
  bv_eqb_law a b : bv_ok a -> bv_ok b -> bv_eqb a b = Ok (bool_decide (bv_bits a = bv_bits b));
}.

Section Reading.
Context {A V : Type} `{BitVecLaws A V}.

Lemma bv_len_law (b : V) : bv_ok b -> bv_len b = zlen (bv_bits b).
Proof. intros. by apply bv_len_read, bv_ok_readable. Qed.

Lemma bv_get_law (b : V) i : bv_ok b -> 0 <= i < bv_len b -> bv_get b i = index (bv_bits b) i.
Proof. intros. apply bv_get_read; [by apply bv_ok_readable|done]. Qed.

Lemma bv_slice_law (b : V) i j :
  bv_ok b -> 0 <= i <= j ->
  bv_ok (bv_slice b i j) /\ bv_bits (bv_slice b i j) = slice (bv_bits b) i j.
Proof. intros. apply bv_slice_read; [by apply bv_ok_readable|done]. Qed.
End Reading.

(** ** Reference instance: lists of booleans *)

#[global] Instance list_bitvec : BitVec (list bool) (list bool) := {|
  bv_new := [];
  bv_of_int v n := Ok (bits_of (Z.to_nat n) v);
  bv_val a := a;
  bv_append_int a v n := Ok (a ++ bits_of (Z.to_nat n) v);
  bv_append a b := Ok (a ++ b);
  bv_iadd a b := Ok (a ++ b);
  bv_add a b := Ok (a ++ b);
  bv_len b := zlen b;
  bv_get b i := index b i;
  bv_slice b i j := slice b i j;
  bv_int b := Ok (Z_of_bits b);
  bv_eqb a b := Ok (bool_decide (a = b));
|}.

#[global] Instance list_bitvec_laws : BitVecLaws (list bool) (list bool).
Proof.
  refine {| bv_acc_ok := fun _ => True; bv_ok := fun _ => True; bv_readable := fun _ => True; bv_bits := fun b => b |};
    simpl; naive_solver.
Defined.

(** ** [BitString] and its base class *)

Definition base_slice (b : base) (i j : Z) : base :=
  match b with
  | BStr s => getitem_slice (SrcStr s) (Some i) (Some j)
  | BSlice s => slice_getitem_slice s (Some i) (Some j)
  | BMut m => getitem_slice (SrcMut m) (Some i) (Some j)
  end.

(** [a + b]: a [MutableBitString] defines no [__add__]. *)
Definition base_add (a b : base) : result BitString :=
  match a with
  | BStr s => bs_add s b
  | BSlice s => slice_add s b
  | BMut _ => Err TypeError
  end.

#[global] Instance bitstring_bitvec : BitVec BitString base := {|
  bv_new := bs_empty;
  bv_of_int v n := BStr <$> bs_init (Some (AInt v)) (Some n);
  bv_val := BStr;
  bv_append_int a v n := append a (AInt v) (Some n);
  bv_append a b := append a (ABase b) None;
  bv_iadd := bs_iadd;
  bv_add a b := BStr <$> base_add a b;
  bv_len := base_len;
  bv_get := base_getitem;
  bv_slice := base_slice;
  bv_int := to_int;
  bv_eqb := base_eq;
|}.

(** Bit strings as the protocol layers see them: canonical [BitString]s and
    windows. *)
Definition value_ok (b : base) : Prop :=
  base_wf b /\ match b with BMut _ => False | _ => True end.

(** What reading needs: the layout, whatever the unused high bits hold. *)
Definition window_ok (b : base) : Prop :=
  base_ok b /\ match b with BMut _ => False | _ => True end.

Lemma value_window_ok b : value_ok b -> window_ok b.
Proof. intros [[Hb _] Hm]. done. Qed.

Lemma slice_range_clamp len i j :
  0 <= len -> 0 <= i <= j ->
  slice_range len (Some i) (Some j) = (Z.min i len, Z.min j len).
Proof.
  intros. unfold slice_range. destruct (Z.ltb_spec i 0), (Z.ltb_spec j 0); try lia. f_equal; lia.
Qed.

Lemma slice_clamp {A} (l : list A) i j :
  0 <= i <= j -> slice l i j = slice l (Z.min i (zlen l)) (Z.min j (zlen l)).
Proof.
  intros. unfold slice, slice_bound. destruct (Z.ltb_spec i 0), (Z.ltb_spec j 0); try lia.
  destruct (Z.ltb_spec (Z.min i (zlen l)) 0), (Z.ltb_spec (Z.min j (zlen l)) 0); try lia.
  by rewrite <- !Z.min_assoc, !Z.min_id.
Qed.

Lemma slice_slice {A} (l : list A) a b i j :
  0 <= a <= b -> 0 <= i <= j -> j <= b - a ->
  slice (slice l a b) i j = slice l (a + i) (a + j).
Proof.
  intros. rewrite !slice_nonneg by lia. rewrite skipn_firstn_comm, drop_drop, take_take.
  f_equal; [lia|]. f_equal. lia.
Qed.

Lemma base_slice_spec b i j :
  window_ok b -> 0 <= i <= j ->
  value_ok (base_slice b i j) /\ base_bits (base_slice b i j) = slice (base_bits b) i j.
Proof.
  intros [Hb Hm] Hi. pose proof (length_base_bits b Hb) as Hl.
  rewrite slice_clamp, Hl by done. destruct b as [s|s|m]; [| |done]; simpl base_slice.
  - assert (slice_range (bs_length s) (Some i) (Some j) = (Z.min i (bs_length s), Z.min j (bs_length s))) as Hr
      by (apply slice_range_clamp; [apply layout_length_nonneg, Hb|done]).
    destruct (getitem_slice_spec (SrcStr s) (Some i) (Some j) _ _ Hb Hr) as [Hw Hs].
    split; [split; [done|]|done].
    unfold getitem_slice. simpl source_length. rewrite Hr. by destruct (Z.min j (bs_length s) <=? Z.min i (bs_length s)).
  - destruct Hb as (Hs & Hbe & He). simpl base_len in *.
    unfold slice_getitem_slice. rewrite slice_range_clamp by lia.
    case_match eqn:Hcmp; [apply Z.leb_le in Hcmp|apply Z.leb_gt in Hcmp].
    + destruct clean_zero_bits as [Hz Hzb]. split; [split; [split; [apply Hz|done]|done]|].
      simpl. rewrite Hzb, slice_nonneg by lia.
      by replace (Z.to_nat _ - Z.to_nat _)%nat with 0%nat by lia.
    + split; [split; [split; [|done]|done]|]; simpl; [split_and!; [done|lia..]|].
      by rewrite slice_slice by lia.
Qed.

#[global] Instance bitstring_bitvec_laws : BitVecLaws BitString base.
Proof.
  refine {| bv_acc_ok := clean; bv_ok := value_ok; bv_readable := window_ok; bv_bits := base_bits |};
    cbn [bv_new bv_of_int bv_val bv_append_int bv_append bv_iadd bv_add bv_len bv_get bv_slice bv_int bv_eqb
         bitstring_bitvec].
  - apply value_window_ok.
  - apply clean_empty.
  - intros v n Hn. destruct (bs_init_spec (AInt v) (Some n) Hn) as (s & -> & Hs & Hb).
    exists (BStr s). split_and!; [done| |done]. split; [split; [apply Hs|done]|done].
  - intros a v n Ha Hn. exact (append_spec a (AInt v) (Some n) Ha Hn).
  - intros a b Ha [Hb _]. exact (append_spec a (ABase b) None Ha Hb).
  - intros a b Ha [Hb _]. by apply bs_iadd_spec.
  - intros a b [Ha Hm] [Hb _]. destruct a as [s|s|m]; [| |done].
    + destruct (bs_add_spec s b (proj2 Ha) Hb) as (n & Hn & Hc & Hbits).
      exists (BStr n). simpl base_add. rewrite Hn. split_and!; [done| |done].
      split; [split; [apply Hc|done]|done].
    + destruct (slice_add_spec s b (proj1 Ha) Hb) as (n & Hn & Hc & Hbits).
      exists (BStr n). simpl base_add. rewrite Hn. split_and!; [done| |done].
      split; [split; [apply Hc|done]|done].
  - intros b [Hb _]. by rewrite length_base_bits.
  - intros b i [Hb _] Hi. by apply base_getitem_spec.
  - apply base_slice_spec.
  - intros a Ha. split; [split; [apply Ha|done]|done].
  - intros b [[Hb _] _]. by apply to_int_spec.
  - intros a b [Ha _] [Hb _]. by apply base_eq_spec.
Defined.

(** ** Properties *)

(** Every way of reading a canonical bit string or window, nested
    windows included, answers from one list of bits: its length, its integer
    value (first bit least significant), its packed bytes, each bit in
    range, and each sub-window. *)
Theorem reads_agree b :
  value_ok b ->
  base_len b = zlen (base_bits b)
  /\ to_int b = Ok (Z_of_bits (base_bits b))
  /\ base_data b = Ok (le_bytes (Z.to_nat (byte_count (base_len b))) (Z_of_bits (base_bits b)))
  /\ (forall i, 0 <= i < base_len b -> base_getitem b i = index (base_bits b) i)
  /\ (forall i j, 0 <= i <= j -> value_ok (base_slice b i j)
        /\ base_bits (base_slice b i j) = slice (base_bits b) i j).
Proof.
  intros Hv. destruct (Hv) as [[Hb Hc] Hm]. pose proof (length_base_bits b Hb) as Hl. split_and!.
  - done.
  - by apply to_int_spec.
  - rewrite base_data_spec by done. unfold pack. by rewrite Hl.
  - intros i Hi. by apply base_getitem_spec.
  - intros i j Hij. by apply base_slice_spec; [apply value_window_ok|].
Qed.

Lemma reads_agree_witness :
  base_data (base_slice (BStr (mkBitString [[0xa5]] 0x03 10 None)) 3 9) = Ok [0x34].
Proof.
  set (b := BStr (mkBitString [[0xa5]] 0x03 10 None)).
  assert (value_ok b) as Hb.
  { split; [|done]. split; [|split]; try (split; vm_compute; congruence).
    all: split; [repeat constructor| | |by left]; vm_compute; repeat split; congruence. }
  destruct (reads_agree b Hb) as (_ & _ & _ & _ & Hs). destruct (Hs 3 9) as [Hv Hbits]; [lia|].
  destruct (reads_agree _ Hv) as (_ & _ & -> & _). rewrite Hbits. reflexivity.
Defined.
