(* ===== verification/JtagTap.v ===== *)
(** * JTAG operations and the TAP controller

    The bit-level operations of src/acrobe/protocol/jtag.py ([Shift],
    [CaptureDr], [CaptureIr], [Reset], [Run], [SwdToJtag]), the IEEE 1149.1
    TAP controller they are about, and what a stream of (TMS, TDI) clocks
    does to it: the state it ends in and the events it causes.

    [transact] is the meaning of the operations themselves: an abstract
    machine that is in reset, idle, or in a scan on the DR or the IR side.
    The encoder and the walker are related to it. *)

From S2P Require Import Prelude BitVec.

(** ** Operations *)

Inductive op (V : Type) : Type :=
  | Shift (tdi : V) (read_tdo : bool) (post_run : Z)
  | CaptureDr
  | CaptureIr
  | Reset (count : Z)
  | Run (cycles : Z)
  | SwdToJtag
  | OtherOp.                      (* an object of another class *)
Arguments Shift {V} _ _ _.
Arguments CaptureDr {V}.
Arguments CaptureIr {V}.
Arguments Reset {V} _.
Arguments Run {V} _.
Arguments SwdToJtag {V}.
Arguments OtherOp {V}.

Definition is_shift {V} (o : option (op V)) : bool :=
  match o with Some (Shift _ _ _) => true | _ => false end.

Definition is_capture_or_run {V} (o : option (op V)) : bool :=
  match o with Some (CaptureDr | CaptureIr | Run _) => true | _ => false end.

Section Patterns.
Context {A V : Type} `{BitVec A V}.

(** [Reset.tms] *)
Definition reset_tms (count : Z) : result V := bv_of_int (-1) (Z.max count 5).

(** [_SWD_TO_JTAG_TMS] *)
Definition swd_to_jtag_tms : result V :=
  a ← bv_of_int (-1) 50;
  b ← bv_of_int 0xe73c 16;
  c ← bv_of_int (-1) 5;
  ab ← bv_add a b;
  bv_add ab c.
End Patterns.

(** ** The TAP controller *)

Inductive side : Type := DR | IR.

Inductive tap_state : Type :=
  | TestLogicReset
  | RunTestIdle
  | Select (x : side)
  | Capture (x : side)
  | ShiftS (x : side)
  | Exit1 (x : side)
  | Pause (x : side)
  | Exit2 (x : side)
  | Update (x : side).

#[global] Instance side_eq_dec : EqDecision side.
Proof. solve_decision. Defined.
#[global] Instance tap_state_eq_dec : EqDecision tap_state.
Proof. solve_decision. Defined.

(** IEEE 1149.1, figure 6-1. *)
Definition tap_next (s : tap_state) (tms : bool) : tap_state :=
  match s, tms with
  | TestLogicReset, true => TestLogicReset
  | TestLogicReset, false => RunTestIdle
  | RunTestIdle, true => Select DR
  | RunTestIdle, false => RunTestIdle
  | Select DR, true => Select IR
  | Select IR, true => TestLogicReset
  | Select x, false => Capture x
  | Capture x, true => Exit1 x
  | Capture x, false => ShiftS x
  | ShiftS x, true => Exit1 x
  | ShiftS x, false => ShiftS x
  | Exit1 x, true => Update x
  | Exit1 x, false => Pause x
  | Pause x, true => Exit2 x
  | Pause x, false => Pause x
  | Exit2 x, true => Update x
  | Exit2 x, false => ShiftS x
  | Update x, true => Select DR
  | Update x, false => RunTestIdle
  end.

Definition tap_run (s : tap_state) (tms : list bool) : tap_state := foldl tap_next s tms.

(** What one clock does: nothing, or one of these.  A bit is shifted on a
    clock whose state before the edge is Shift; the other events are states
    being entered. *)
Inductive event : Type :=
  | EReset                         (* Test-Logic-Reset entered or kept *)
  | EIdle                          (* a clock landing in Run-Test/Idle *)
  | ECapture (x : side)
  | EShift (x : side) (tdi : bool)
  | EUpdate (x : side).

Definition clock_event (s : tap_state) (tms tdi : bool) : list event :=
  match s with ShiftS x => [EShift x tdi] | _ => [] end ++
  match tap_next s tms with
  | TestLogicReset => [EReset]
  | RunTestIdle => [EIdle]
  | Capture x => [ECapture x]
  | Update x => [EUpdate x]
  | _ => []
  end.

(** The events of a stream of (TMS, TDI) pairs. *)
Fixpoint trace (s : tap_state) (clocks : list (bool * bool)) : list event :=
  match clocks with
  | [] => []
  | (tms, tdi) :: rest => clock_event s tms tdi ++ trace (tap_next s tms) rest
  end.

(** The states the controller is in before each clock. *)
Fixpoint clock_states (s : tap_state) (tms : list bool) : list tap_state :=
  match tms with
  | [] => []
  | t :: rest => s :: clock_states (tap_next s t) rest
  end.

Lemma tap_run_app s l1 l2 : tap_run s (l1 ++ l2) = tap_run (tap_run s l1) l2.
Proof. apply foldl_app. Qed.

Lemma trace_app s l1 l2 : trace s (l1 ++ l2) = trace s l1 ++ trace (tap_run s l1.*1) l2.
Proof.
  revert s. induction l1 as [|[t d] l1 IH]; intros s; [done|]. simpl.
  by rewrite IH, app_assoc.
Qed.

Lemma clock_states_app s l1 l2 :
  clock_states s (l1 ++ l2) = clock_states s l1 ++ clock_states (tap_run s l1) l2.
Proof. revert s. induction l1 as [|t l1 IH]; intros s; [done|]. simpl. by rewrite IH. Qed.

Lemma length_clock_states s l : length (clock_states s l) = length l.
Proof. revert s. induction l; intros; simpl; auto. Qed.

(** Five clocks with TMS high reset the controller from any state. *)
Lemma tap_run_ones s n : (5 <= n)%nat -> tap_run s (replicate n true) = TestLogicReset.
Proof.
  intros Hn. replace n with (5 + (n - 5))%nat by lia. rewrite replicate_add, tap_run_app.
  assert (tap_run s (replicate 5 true) = TestLogicReset) as ->
    by (destruct s as [| |[]|[]|[]|[]|[]|[]|[]]; done).
  by induction (n - 5)%nat.
Qed.

Lemma tap_run_idle n : tap_run RunTestIdle (replicate n false) = RunTestIdle.
Proof. by induction n. Qed.

Lemma trace_idle n :
  trace RunTestIdle (zip (replicate n false) (replicate n false)) = replicate n EIdle.
Proof. induction n as [|n IH]; [done|]. simpl. by rewrite IH. Qed.

Lemma tap_run_shift x n : tap_run (ShiftS x) (replicate n false) = ShiftS x.
Proof. by induction n. Qed.

Lemma trace_shift x (l : list bool) :
  trace (ShiftS x) (zip (replicate (length l) false) l) = EShift x <$> l.
Proof. induction l as [|b l IH]; [done|]. simpl. by rewrite IH. Qed.

Lemma clock_states_shift x n :
  clock_states (ShiftS x) (replicate n false) = replicate n (ShiftS x).
Proof. induction n as [|n IH]; [done|]. simpl. by rewrite IH. Qed.

(** ** The meaning of the operations *)

Inductive phase : Type :=
  | PReset
  | PIdle
  | PScan (x : side).

#[global] Instance phase_eq_dec : EqDecision phase.
Proof. solve_decision. Defined.

(** Leaving a phase towards a new scan or towards idle: a scan ends with its
    Update. *)
Definition leave (p : phase) : list event :=
  match p with PScan x => [EUpdate x] | _ => [] end.

(** [k] idle clocks requested in phase [p].  None requested in reset leaves
    the controller in reset. *)
Definition transact_run (p : phase) (k : Z) : list event * phase :=
  (leave p ++ replicate (Z.to_nat k) EIdle,
   match p with PReset => if k =? 0 then PReset else PIdle | _ => PIdle end).

(** A scan starts from idle: out of reset the controller passes through
    Run-Test/Idle once. *)
Definition transact_capture (p : phase) (x : side) : list event * phase :=
  (match p with PReset => [EIdle] | _ => leave p end ++ [ECapture x], PScan x).

Section Transact.
Context {A V : Type} `{BitVecLaws A V}.

(** The events of a TMS pattern that is played as it is, TDI low, from the
    state a phase rests in. *)
Definition resting (p : phase) : tap_state :=
  match p with PReset => TestLogicReset | PIdle => RunTestIdle | PScan x => Pause x end.

Definition pattern_clocks (tms : list bool) : list (bool * bool) :=
  zip tms (replicate (length tms) false).

Definition pattern_events (p : phase) (tms : list bool) : list event :=
  trace (resting p) (pattern_clocks tms).

Definition reset_pattern (count : Z) : list bool := replicate (Z.to_nat (Z.max count 5)) true.
Definition swd_pattern : list bool :=
  replicate 50 true ++ bits_of 16 0xe73c ++ replicate 5 true.

(** [transact p o] is the meaning of [o] in phase [p]: its events and the
    next phase; [None] when [o] is not legal there. *)
Definition transact (p : phase) (o : op V) : option (list event * phase) :=
  match o with
  | Reset count => Some (pattern_events p (reset_pattern count), PReset)
  | SwdToJtag => Some (pattern_events p swd_pattern, PReset)
  | Run k => Some (transact_run p k)
  | CaptureDr => Some (transact_capture p DR)
  | CaptureIr => Some (transact_capture p IR)
  | Shift tdi _ k =>
      match p with
      | PScan x =>
          let es := EShift x <$> bv_bits tdi in
          if k =? 0 then Some (es, PScan x)
          else Some (es ++ (transact_run p k).1, (transact_run p k).2)
      | _ => None
      end
  | OtherOp => None
  end.

Fixpoint transact_all (p : phase) (ops : list (op V)) : option (list event * phase) :=
  match ops with
  | [] => Some ([], p)
  | o :: rest =>
      '(es, p) ← transact p o;
      '(es', p) ← transact_all p rest;
      Some (es ++ es', p)
  end.

(** Operations the lowering accepts: counts are not negative, shifts carry
    at least one bit, and a shift that asks for idle clocks is not continued
    by another shift. *)
Definition op_wf (o : op V) (next : option (op V)) : Prop :=
  match o with
  | Shift tdi _ k => bv_ok tdi /\ 0 < bv_len tdi /\ 0 <= k /\ (k <> 0 -> is_shift next = false)
  | Run k => 0 <= k
  | _ => True
  end.

Fixpoint ops_wf (ops : list (op V)) : Prop :=
  match ops with
  | [] => True
  | o :: rest => op_wf o (head rest) /\ ops_wf rest
  end.

Lemma reset_tms_spec count :
  exists b : V, reset_tms count = Ok b /\ bv_ok b /\ bv_bits b = reset_pattern count.
Proof.
  destruct (bv_of_int_law (-1) (Z.max count 5)) as (b & Hb & Hok & Hbits); [lia|].
  exists b. split_and!; [done..|]. by rewrite Hbits, bits_of_minus1.
Qed.

Lemma swd_to_jtag_tms_spec :
  exists b : V, swd_to_jtag_tms = Ok b /\ bv_ok b /\ bv_bits b = swd_pattern.
Proof.
  unfold swd_to_jtag_tms.
  destruct (bv_of_int_law (-1) 50) as (a & -> & Ha & Hba); [lia|].
  destruct (bv_of_int_law 0xe73c 16) as (b & -> & Hb & Hbb); [lia|].
  destruct (bv_of_int_law (-1) 5) as (c & -> & Hc & Hbc); [lia|]. rewrite !bind_of_Ok.
  destruct (bv_add_law a b Ha Hb) as (ab & -> & Hab & Hbab). rewrite !bind_of_Ok.
  destruct (bv_add_law ab c Hab Hc) as (r & -> & Hr & Hbr).
  exists r. split_and!; [done..|]. rewrite Hbr, Hbab, Hba, Hbb, Hbc, !bits_of_minus1.
  by rewrite <- app_assoc.
Qed.

Lemma transact_all_app p ops1 ops2 es1 p1 es2 p2 :
  transact_all p ops1 = Some (es1, p1) -> transact_all p1 ops2 = Some (es2, p2) ->
  transact_all p (ops1 ++ ops2) = Some (es1 ++ es2, p2).
Proof.
  revert p es1. induction ops1 as [|o ops1 IH]; intros p es1; [by intros [= <- <-]|].
  simpl. destruct (transact p o) as [[es q]|]; [simpl|done].
  destruct (transact_all q ops1) as [[es' q']|] eqn:E; [simpl|done].
  intros [= <- <-] H2. rewrite (IH q es' E H2). simpl. by rewrite app_assoc.
Qed.
End Transact.

Lemma swd_pattern_resets s : tap_run s swd_pattern = TestLogicReset.
Proof. unfold swd_pattern. rewrite tap_run_app, tap_run_ones by lia. by vm_compute. Qed.

Lemma reset_pattern_resets count s : tap_run s (reset_pattern count) = TestLogicReset.
Proof. apply tap_run_ones. lia. Qed.

(** Idle and Update agree on a stream that starts with TMS high. *)
Lemma trace_update_idle x tms :
  head tms = Some true ->
  trace (Update x) (pattern_clocks tms) = trace RunTestIdle (pattern_clocks tms).
Proof. by destruct tms as [|[] tms]; intros [=]. Qed.
