(* ===== verification/JtagEncoder.v ===== *)
(** * Lowering JTAG operations to TMS/TDI streams
    (src/acrobe/protocol/jtag_encoder.py)

    [JtagOpEncoder.encode] turns a batch of operations into a TMS vector, a
    TDI vector and the offsets at which the TDO of each shift is found.  The
    model is generic in the bit vectors ([BitVec]).

    The simulation relation [tracks] ties the encoder's resting state to the
    state of the TAP controller that receives the stream and to the phase of
    the abstract machine [transact]; [encode_op_sim] is one step of it. *)

From S2P Require Import Prelude BitVec JtagTap.

Section Encoder.
Context {A V : Type} `{BitVec A V}.

(** [self.__state]: the three resting states and the two sentinels used
    inside a batch. *)
Inductive enc_state : Type := TLR | RTI | PAUSE | PRE_SHIFT | IN_SHIFT.

(** The encoder and the local variables of [encode]. *)
Record enc : Type := mkEnc {
  e_state : enc_state;
  e_tms : A;
  e_tdi : A;
  e_slots : list (op V * Z);
}.

(** [__init__] *)
Definition enc_init (initial_state : enc_state) : result enc_state :=
  match initial_state with
  | TLR | RTI | PAUSE => Ok initial_state
  | _ => Err ValueError
  end.

Definition set_state (e : enc) (s : enc_state) : enc :=
  mkEnc s (e_tms e) (e_tdi e) (e_slots e).

(** [tms.append(v, n); tdi.append(d, n)] *)
Definition emit2 (e : enc) (v d n : Z) : result enc :=
  tms ← bv_append_int (e_tms e) v n;
  tdi ← bv_append_int (e_tdi e) d n;
  Ok (mkEnc (e_state e) tms tdi (e_slots e)).

(** [tms.append(v, n); tdi.append(0, n)] *)
Definition emit (e : enc) (v n : Z) : result enc := emit2 e v 0 n.

(** [__emit_tms_pattern] *)
Definition emit_tms_pattern (e : enc) (pattern : V) : result enc :=
  tms ← bv_append (e_tms e) pattern;
  tdi ← bv_append_int (e_tdi e) 0 (bv_len pattern);
  Ok (mkEnc TLR tms tdi (e_slots e)).

(** [__emit_run] *)
Definition emit_run (e : enc) (cycles : Z) : result enc :=
  e ← (match e_state e with
       | PAUSE => e ← emit e 3 2; Ok (set_state e RTI)
       | TLR => Ok (if cycles =? 0 then e else set_state e RTI)
       | _ => Ok e
       end);
  if cycles =? 0 then Ok e else emit e 0 cycles.

(** [__emit_enter_capture] *)
Definition emit_enter_capture (e : enc) (ir : bool) : result enc :=
  match e_state e with
  | RTI => if ir then emit e 3 3 else emit e 1 2
  | PAUSE => if ir then emit e 15 5 else emit e 7 4
  | TLR => if ir then emit e 6 4 else emit e 2 3
  | _ => Err RuntimeError
  end.

(** [__emit_capture_exit] *)
Definition emit_capture_exit (e : enc) (next_op : option (op V)) : result enc :=
  if is_shift next_op then e ← emit e 0 1; Ok (set_state e PRE_SHIFT)
  else if is_capture_or_run next_op then Ok (set_state e PAUSE)
  else e ← emit e 1 2; Ok (set_state e PAUSE).

(** [__exit_shift] *)
Definition exit_shift (e : enc) (next_op : option (op V)) (last_tdi_bit : Z)
    (skipped_payload : bool) : result enc :=
  if is_shift next_op then
    e ← (if skipped_payload then Ok e else emit2 e 0 last_tdi_bit 1);
    Ok (set_state e IN_SHIFT)
  else
    e ← (if skipped_payload then emit e 1 2
         else
           tms ← bv_append_int (e_tms e) 1 2;
           tdi ← bv_append_int (e_tdi e) last_tdi_bit 1;
           tdi ← bv_append_int tdi 0 1;
           Ok (mkEnc (e_state e) tms tdi (e_slots e)));
    Ok (set_state e PAUSE).

(** [___emit_shift] *)
Definition emit_shift (e : enc) (o : op V) (tdi : V) (post_run : Z)
    (next_op : option (op V)) : result enc :=
  e ← (match e_state e with
       | PAUSE => emit e 1 2
       | PRE_SHIFT | IN_SHIFT => Ok e
       | _ => Err RuntimeError
       end);
  if negb (post_run =? 0) && is_shift next_op then Err ValueError
  else
    let length := bv_len tdi in
    e ← (if length =? 0 then exit_shift e next_op 0 true
         else
           let e := mkEnc (e_state e) (e_tms e) (e_tdi e)
                      (e_slots e ++ [(o, bv_len (bv_val (e_tdi e)))]) in
           e ← (if 1 <? length then
                  tms ← bv_append_int (e_tms e) 0 (length - 1);
                  tdi ← bv_append (e_tdi e) (bv_slice tdi 0 (length - 1));
                  Ok (mkEnc (e_state e) tms tdi (e_slots e))
                else Ok e);
           last_tdi ← bv_get tdi (length - 1);
           exit_shift e next_op (Z.b2z last_tdi) false);
    if post_run =? 0 then Ok e else emit_run e post_run.

(** One iteration of the loop of [encode]. *)
Definition encode_op (e : enc) (o : op V) (next_op : option (op V)) : result enc :=
  match o with
  | Reset count => p ← reset_tms count; emit_tms_pattern e p
  | SwdToJtag => p ← swd_to_jtag_tms; emit_tms_pattern e p
  | Run cycles => emit_run e cycles
  | CaptureDr => e ← emit_enter_capture e false; emit_capture_exit e next_op
  | CaptureIr => e ← emit_enter_capture e true; emit_capture_exit e next_op
  | Shift tdi _ post_run => emit_shift e o tdi post_run next_op
  | OtherOp => Err ValueError
  end.

Fixpoint encode_loop (e : enc) (ops : list (op V)) : result enc :=
  match ops with
  | [] => Ok e
  | o :: rest => e ← encode_op e o (head rest); encode_loop e rest
  end.

(** [encode]: the new [self.__state], then what it returns. *)
Definition encode (state : enc_state) (ops : list (op V))
  : result (enc_state * (A * A * list (op V * Z))) :=
  e ← encode_loop (mkEnc state bv_new bv_new []) ops;
  Ok (e_state e, (e_tms e, e_tdi e, e_slots e)).
End Encoder.

Arguments enc A V : clear implicits.

(** ** Simulation *)

Section EncoderProofs.
Context {A V : Type} `{BitVecLaws A V}.

Abbreviation accb a := (bv_bits (bv_val a)).

Definition enc_ok (e : enc A V) : Prop :=
  bv_acc_ok (e_tms e) /\ bv_acc_ok (e_tdi e)
  /\ length (accb (e_tms e)) = length (accb (e_tdi e)).

(** [e'] is [e] with the clocks [cl] emitted. *)
Definition emits (e e' : enc A V) (cl : list (bool * bool)) : Prop :=
  enc_ok e' /\ accb (e_tms e') = accb (e_tms e) ++ cl.*1
  /\ accb (e_tdi e') = accb (e_tdi e) ++ cl.*2.

Lemma emits_refl e : enc_ok e -> emits e e [].
Proof. intros. split_and!; [done|by rewrite app_nil_r..]. Qed.

Lemma emits_trans e1 e2 e3 c1 c2 :
  emits e1 e2 c1 -> emits e2 e3 c2 -> emits e1 e3 (c1 ++ c2).
Proof.
  intros (_ & H1 & H2) (? & H3 & H4). split_and!; [done|..];
    rewrite fmap_app, app_assoc; congruence.
Qed.

Lemma emits_set_state e e' cl s : emits e e' cl -> emits e (set_state e' s) cl.
Proof. done. Qed.

(** The clocks of [emit2]. *)
Definition clk2 (v d n : Z) : list (bool * bool) :=
  zip (bits_of (Z.to_nat n) v) (bits_of (Z.to_nat n) d).

Lemma fst_clk2 v d n : (clk2 v d n).*1 = bits_of (Z.to_nat n) v.
Proof. apply fst_zip. by rewrite !length_bits_of. Qed.
Lemma snd_clk2 v d n : (clk2 v d n).*2 = bits_of (Z.to_nat n) d.
Proof. apply snd_zip. by rewrite !length_bits_of. Qed.

Lemma emit2_spec e v d n :
  enc_ok e -> 0 <= n ->
  exists e', emit2 e v d n = Ok e' /\ emits e e' (clk2 v d n)
    /\ e_state e' = e_state e /\ e_slots e' = e_slots e.
Proof.
  intros (Ht & Hd & Hl) Hn. unfold emit2.
  destruct (bv_append_int_law _ v n Ht Hn) as (t & -> & ? & Hbt).
  destruct (bv_append_int_law _ d n Hd Hn) as (t' & -> & ? & Hbt').
  eexists. split; [done|]. unfold emits, enc_ok. simpl.
  rewrite fst_clk2, snd_clk2, Hbt, Hbt', !length_app, !length_bits_of, Hl. done.
Qed.

Lemma emit_spec e v n :
  enc_ok e -> 0 <= n ->
  exists e', emit e v n = Ok e' /\ emits e e' (clk2 v 0 n)
    /\ e_state e' = e_state e /\ e_slots e' = e_slots e.
Proof. apply emit2_spec. Qed.

(** What the encoder's state says about the controller and the abstract
    phase, given the operation that comes next in the batch. *)
Inductive tracks (next : option (op V)) : enc_state -> tap_state -> phase -> Prop :=
  | tracks_tlr : tracks next TLR TestLogicReset PReset
  | tracks_rti : tracks next RTI RunTestIdle PIdle
  | tracks_update x : tracks next RTI (Update x) PIdle
  | tracks_pause x : tracks next PAUSE (Pause x) (PScan x)
  | tracks_capture x : is_capture_or_run next = true -> tracks next PAUSE (Capture x) (PScan x)
  | tracks_pre x : is_shift next = true -> tracks next PRE_SHIFT (ShiftS x) (PScan x)
  | tracks_in x : is_shift next = true -> tracks next IN_SHIFT (ShiftS x) (PScan x).

(** One operation has been encoded: the clocks, the events, the new state. *)
Definition sim_step (e e' : enc A V) (hw : tap_state) (cl : list (bool * bool))
    (es : list event) (p : phase) (next : option (op V)) : Prop :=
  emits e e' cl /\ trace hw cl = es /\ tracks next (e_state e') (tap_run hw cl.*1) p.

Lemma idle_clk n : clk2 0 0 n = zip (replicate (Z.to_nat n) false) (replicate (Z.to_nat n) false).
Proof. unfold clk2. by rewrite bits_of_zero. Qed.

(** [emit_run] from any resting state. *)
Lemma emit_run_sim e k hw p next next' :
  enc_ok e -> 0 <= k -> tracks next (e_state e) hw p -> is_shift next = false ->
  exists e' cl, emit_run e k = Ok e' /\ e_slots e' = e_slots e
    /\ sim_step e e' hw cl (transact_run p k).1 (transact_run p k).2 next'.
Proof.
  intros He Hk Ht Hns. unfold emit_run.
  assert (exists e1 c1 hw1, (match e_state e with
       | PAUSE => e ← emit e 3 2; Ok (set_state e RTI)
       | TLR => Ok (if k =? 0 then e else set_state e RTI)
       | _ => Ok e end) = Ok e1
     /\ e_slots e1 = e_slots e /\ emits e e1 c1 /\ trace hw c1 = leave p /\ tap_run hw c1.*1 = hw1
     /\ ((hw1 = TestLogicReset /\ p = PReset /\ e_state e1 = if k =? 0 then TLR else RTI)
         \/ (tap_next hw1 false = RunTestIdle /\ p <> PReset /\ e_state e1 = RTI
             /\ (hw1 = RunTestIdle \/ exists x, hw1 = Update x))))
    as (e1 & c1 & hw1 & -> & Hs1 & Hem1 & Htr1 & Hrun1 & Hcase).
  { inversion Ht as [Hst|Hst|x Hst|x Hst|x Hc Hst|x Hc|x Hc]; subst; try congruence.
    - exists (if k =? 0 then e else set_state e RTI), [], TestLogicReset.
      split_and!; [done|by case_match|case_match; exact (emits_refl e He)|done..|].
      left. split_and!; [done..|]. by destruct (k =? 0).
    - exists e, [], RunTestIdle. split_and!; try done; [by apply emits_refl|].
      right. split_and!; [done..|by left].
    - exists e, [], (Update x). split_and!; try done; [by apply emits_refl|].
      right. split_and!; [done..|right; by exists x].
    - destruct (emit_spec e 3 2 He) as (e1 & -> & Hem & _ & Hsl); [lia|].
      exists (set_state e1 RTI), (clk2 3 0 2), (Update x). split_and!; [done..|].
      right. split_and!; [done..|right; by exists x].
    - destruct (emit_spec e 3 2 He) as (e1 & -> & Hem & _ & Hsl); [lia|].
      exists (set_state e1 RTI), (clk2 3 0 2), (Update x). split_and!; [done..|].
      right. split_and!; [done..|right; by exists x]. }
  rewrite bind_of_Ok. destruct Hem1 as (Hok1 & Hem1).
  destruct (Z.eqb_spec k 0) as [->|Hk0].
  { exists e1, c1. unfold sim_step, emits. rewrite Htr1, Hrun1. simpl. rewrite app_nil_r.
    split_and!; try done; [apply Hem1..|].
    destruct Hcase as [(-> & -> & ->)|(_ & Hp & -> & [->|[x ->]])]; [constructor| |];
      destruct p; try done; constructor. }
  destruct (emit_spec e1 0 k Hok1 Hk) as (e2 & -> & Hem2 & Hst2 & Hsl2).
  exists e2, (c1 ++ clk2 0 0 k). split; [done|]. split; [congruence|].
  assert (trace hw1 (clk2 0 0 k) = replicate (Z.to_nat k) EIdle
          /\ tap_run hw1 (clk2 0 0 k).*1 = RunTestIdle) as [Htr2 Hrun2].
  { rewrite fst_clk2, idle_clk, bits_of_zero. destruct (Z.to_nat k) as [|m] eqn:Em; [lia|].
    assert (clock_event hw1 false false = [EIdle] /\ tap_next hw1 false = RunTestIdle) as [Hce Hnx]
      by (destruct Hcase as [(-> & _)|(_ & _ & _ & [->|[x ->]])]; done).
    simpl. rewrite Hce, Hnx, trace_idle. split; [done|]. apply tap_run_idle. }
  split; [eapply emits_trans; [by split|done]|].
  rewrite trace_app, fmap_app, tap_run_app, Hrun1, Htr1, Htr2, Hrun2. split; [done|].
  rewrite Hst2. destruct Hcase as [(_ & -> & Hst)|(_ & Hp & Hst & _)]; rewrite Hst.
  - simpl. rewrite (proj2 (Z.eqb_neq k 0)) by done. constructor.
  - destruct p; try done; constructor.
Qed.

(** Entering a capture state from any resting state. *)
Lemma enter_capture_sim e x hw p next :
  enc_ok e -> tracks next (e_state e) hw p -> is_shift next = false ->
  exists e' cl, emit_enter_capture e (bool_decide (x = IR)) = Ok e' /\ e_slots e' = e_slots e
    /\ emits e e' cl /\ trace hw cl = (transact_capture p x).1 /\ tap_run hw cl.*1 = Capture x.
Proof.
  intros He Ht Hns. unfold emit_enter_capture.
  inversion Ht as [Hst|Hst|y Hst|y Hst|y Hc Hst|y Hc|y Hc]; subst; try congruence;
    destruct x; simpl bool_decide; cbv iota;
    match goal with |- exists e' cl, emit e ?v ?n = _ /\ _ =>
      destruct (emit_spec e v n He) as (e' & -> & Hem & _ & Hsl); [lia|];
      exists e', (clk2 v 0 n); split_and!; done end.
Qed.

Lemma capture_sim e x hw p next next' :
  enc_ok e -> tracks next (e_state e) hw p -> is_shift next = false ->
  exists e' cl, (e ← emit_enter_capture e (bool_decide (x = IR)); emit_capture_exit e next') = Ok e'
    /\ e_slots e' = e_slots e
    /\ sim_step e e' hw cl (transact_capture p x).1 (PScan x) next'.
Proof.
  intros He Ht Hns.
  destruct (enter_capture_sim e x hw p next He Ht Hns) as (e1 & c1 & -> & Hs1 & Hem1 & Htr1 & Hr1).
  rewrite bind_of_Ok. pose proof (proj1 Hem1) as He1. unfold emit_capture_exit, sim_step.
  destruct (is_shift next') eqn:Hsh; [|destruct (is_capture_or_run next') eqn:Hcr].
  - destruct (emit_spec e1 0 1 He1) as (e2 & -> & Hem2 & _ & Hs2); [lia|].
    exists (set_state e2 PRE_SHIFT), (c1 ++ clk2 0 0 1).
    rewrite trace_app, fmap_app, tap_run_app, Hr1, Htr1.
    split_and!; [done|simpl; congruence|by eapply emits_trans|by rewrite app_nil_r|by constructor].
  - exists (set_state e1 PAUSE), c1. rewrite Hr1, Htr1.
    split_and!; [done|simpl; congruence|done|done|by constructor].
  - destruct (emit_spec e1 1 2 He1) as (e2 & -> & Hem2 & _ & Hs2); [lia|].
    exists (set_state e2 PAUSE), (c1 ++ clk2 1 0 2).
    rewrite trace_app, fmap_app, tap_run_app, Hr1, Htr1.
    split_and!; [done|simpl; congruence|by eapply emits_trans|by rewrite app_nil_r|by constructor].
Qed.

(** A pattern played raw. *)
Lemma pattern_sim e p hw next :
  enc_ok e -> bv_ok p -> (forall s, tap_run s (bv_bits p) = TestLogicReset) ->
  exists e', emit_tms_pattern e p = Ok e' /\ e_slots e' = e_slots e
    /\ let cl := pattern_clocks (bv_bits p) in
       sim_step e e' hw cl (trace hw cl) PReset next.
Proof.
  intros (Ht & Hd & Hl) Hp Hrun. unfold emit_tms_pattern.
  destruct (bv_append_law _ p Ht Hp) as (t & -> & ? & Hbt).
  rewrite bv_len_law by done.
  destruct (bv_append_int_law _ 0 (zlen (bv_bits p)) Hd) as (d & -> & ? & Hbd); [lia|].
  rewrite Nat2Z.id, bits_of_zero in Hbd. eexists. split; [done|]. split; [done|].
  unfold pattern_clocks.
  assert ((zip (bv_bits p) (replicate (length (bv_bits p)) false)).*1 = bv_bits p) as Hf
    by (apply fst_zip; by rewrite length_replicate).
  split; [|split; [done|]].
  - unfold emits, enc_ok. simpl. rewrite Hf, snd_zip, Hbt, Hbd, !length_app, length_replicate, Hl; [done|].
    by rewrite length_replicate.
  - rewrite Hf, Hrun. constructor.
Qed.

(** Leaving Shift with the last payload bit. *)
Lemma exit_shift_sim e b x next :
  enc_ok e ->
  exists e' tail, exit_shift e next (Z.b2z b) false = Ok e' /\ e_slots e' = e_slots e
    /\ sim_step e e' (ShiftS x) ((negb (is_shift next), b) :: tail) [EShift x b] (PScan x) next.
Proof.
  intros He. unfold exit_shift, sim_step.
  assert (bits_of (Z.to_nat 1) (Z.b2z b) = [b]) as Hb1 by (by destruct b).
  destruct (is_shift next) eqn:Hsh; simpl negb.
  - destruct (emit2_spec e 0 (Z.b2z b) 1 He) as (e2 & -> & Hem & _ & Hs2); [lia|].
    unfold clk2 in Hem. rewrite Hb1 in Hem.
    exists (set_state e2 IN_SHIFT), []. split_and!; [done..|by constructor].
  - destruct He as (Ht & Hd & Hl).
    destruct (bv_append_int_law _ 1 2 Ht) as (t & -> & ? & Hbt); [lia|].
    destruct (bv_append_int_law _ (Z.b2z b) 1 Hd) as (d & -> & Hdok & Hbd); [lia|].
    rewrite !bind_of_Ok.
    destruct (bv_append_int_law d 0 1 Hdok) as (d2 & -> & ? & Hbd2); [lia|].
    eexists _, [(false, false)]. split; [done|]. split; [done|].
    rewrite Hbd, Hb1 in Hbd2. split; [|split; [done|constructor]].
    unfold emits, enc_ok. simpl. rewrite Hbt, Hbd2, <- app_assoc, !length_app, Hl. done.
Qed.

(** Entering Shift. *)
Lemma enter_shift_sim e hw x next :
  enc_ok e -> tracks next (e_state e) hw (PScan x) -> is_shift next = true ->
  exists e' cl, (match e_state e with
       | PAUSE => emit e 1 2
       | PRE_SHIFT | IN_SHIFT => Ok e
       | _ => Err RuntimeError end) = Ok e'
    /\ e_slots e' = e_slots e /\ emits e e' cl
    /\ trace hw cl = [] /\ tap_run hw cl.*1 = ShiftS x.
Proof.
  intros He Ht Hsh.
  inversion Ht as [ | | | y Hst|y Hc Hst|y Hc Hst|y Hc Hst]; subst.
  - destruct (emit_spec e 1 2 He) as (e' & -> & Hem & _ & Hsl); [lia|].
    exists e', (clk2 1 0 2). split_and!; done.
  - by destruct next as [[]|].
  - exists e, []. split_and!; try done. by apply emits_refl.
  - exists e, []. split_and!; try done. by apply emits_refl.
Qed.

(** Where the payload of a shift sits in the emitted stream. *)
Definition window_ok (hw : tap_state) (tms tdi : list bool) (slot : op V * Z) : Prop :=
  exists v rd k x, slot.1 = Shift v rd k /\ 0 <= slot.2
    /\ slot.2 + zlen (bv_bits v) <= zlen tdi
    /\ slice tdi slot.2 (slot.2 + zlen (bv_bits v)) = bv_bits v
    /\ slice (clock_states hw tms) slot.2 (slot.2 + zlen (bv_bits v))
       = replicate (length (bv_bits v)) (ShiftS x).

(** All payload bits but the last. *)
Lemma payload_front e v slots' :
  enc_ok e -> bv_ok v -> 0 < zlen (bv_bits v) ->
  let n := zlen (bv_bits v) in
  let front := take (length (bv_bits v) - 1) (bv_bits v) in
  exists e', (if 1 <? n then
       tms ← bv_append_int (e_tms e) 0 (n - 1);
       tdi ← bv_append (e_tdi e) (bv_slice v 0 (n - 1));
       Ok (mkEnc (e_state e) tms tdi slots')
     else Ok (mkEnc (e_state e) (e_tms e) (e_tdi e) slots')) = Ok e'
   /\ e_slots e' = slots' /\ e_state e' = e_state e
   /\ emits e e' (zip (replicate (length front) false) front).
Proof.
  intros He Hv Hn. cbv zeta.
  assert (length (take (length (bv_bits v) - 1) (bv_bits v)) = length (bv_bits v) - 1)%nat as Hlf
    by (rewrite length_take; lia). rewrite Hlf.
  destruct (Z.ltb_spec 1 (zlen (bv_bits v))) as [H1|H1].
  - destruct (He) as (Ht & Hd & Hl).
    destruct (bv_append_int_law _ 0 (zlen (bv_bits v) - 1) Ht) as (t & -> & ? & Hbt); [lia|].
    destruct (bv_slice_law v 0 (zlen (bv_bits v) - 1) Hv) as [Hok Hsl];
      [lia|].
    destruct (bv_append_law _ _ Hd Hok) as (d & -> & ? & Hbd).
    eexists. split; [done|]. split; [done|]. split; [done|].
    unfold emits, enc_ok. simpl. rewrite fst_zip, snd_zip by (rewrite length_replicate; lia).
    rewrite Hsl, slice_nonneg, drop_0, Nat.sub_0_r in Hbd by lia.
    rewrite bits_of_zero in Hbt.
    replace (Z.to_nat (zlen (bv_bits v) - 1)) with (length (bv_bits v) - 1)%nat in * by lia.
    rewrite Hbt, Hbd, !length_app, length_replicate, Hl, Hlf. done.
  - eexists. split; [done|]. split; [done|]. split; [done|].
    replace (length (bv_bits v) - 1)%nat with 0%nat by lia. exact (emits_refl e He).
Qed.

(** The payload of a shift, from the Shift state. *)
Lemma payload_sim e o v x next :
  enc_ok e -> bv_ok v -> 0 < zlen (bv_bits v) ->
  let n := zlen (bv_bits v) in
  exists e' tail, (
      let e0 := mkEnc (e_state e) (e_tms e) (e_tdi e)
                  (e_slots e ++ [(o, bv_len (bv_val (e_tdi e)))]) in
      e1 ← (if 1 <? n then
              tms ← bv_append_int (e_tms e0) 0 (n - 1);
              tdi ← bv_append (e_tdi e0) (bv_slice v 0 (n - 1));
              Ok (mkEnc (e_state e0) tms tdi (e_slots e0))
            else Ok e0);
      last_tdi ← bv_get v (n - 1);
      exit_shift e1 next (Z.b2z last_tdi) false) = Ok e'
    /\ e_slots e' = e_slots e ++ [(o, zlen (accb (e_tdi e)))]
    /\ exists body, body.*2 = bv_bits v
       /\ clock_states (ShiftS x) body.*1 = replicate (length (bv_bits v)) (ShiftS x)
       /\ sim_step e e' (ShiftS x) (body ++ tail) (EShift x <$> bv_bits v) (PScan x) next.
Proof.
  intros He Hv Hn n. cbv zeta. cbn [e_tms e_tdi e_state e_slots].
  destruct (payload_front e v (e_slots e ++ [(o, bv_len (bv_val (e_tdi e)))]) He Hv Hn)
    as (e1 & Hf & Hs1 & Hst1 & Hem1). cbv zeta in Hf. fold n in Hf. rewrite Hf, bind_of_Ok.
  destruct (exists_last (l := bv_bits v)) as (front & lastb & Hvb); [by destruct (bv_bits v)|].
  assert (bv_get v (n - 1) = Ok lastb) as ->.
  { rewrite bv_get_law by (done || rewrite ?bv_len_law by done; lia).
    apply index_lookup; [lia|]. subst n. rewrite Hvb, length_app. simpl length.
    rewrite lookup_app_r by lia. by replace (_ - length front)%nat with 0%nat by lia. }
  rewrite bind_of_Ok.
  destruct (exit_shift_sim e1 lastb x next) as (e2 & tail & -> & Hs2 & Hem2 & Htr2 & Htk2);
    [apply Hem1|].
  exists e2, tail. split; [done|]. split.
  { rewrite Hs2, Hs1. do 3 f_equal. apply bv_len_law, bv_val_law, He. }
  rewrite Hvb, length_app in Hem1. simpl length in Hem1.
  replace (length front + 1 - 1)%nat with (length front) in Hem1 by lia.
  rewrite take_app_length in Hem1. set (cf := zip (replicate (length front) false) front) in *.
  assert (cf.*1 = replicate (length front) false /\ cf.*2 = front) as [Hcf1 Hcf2].
  { split; [apply fst_zip|apply snd_zip]; rewrite length_replicate; lia. }
  exists (cf ++ [(negb (is_shift next), lastb)]).
  rewrite !fmap_app, Hcf1, Hcf2, Hvb, !length_app. split; [done|].
  rewrite clock_states_app, clock_states_shift, tap_run_shift, replicate_add. split; [done|].
  rewrite <- app_assoc. split; [by eapply emits_trans|].
  rewrite trace_app, (fmap_app fst), tap_run_app, Hcf1, tap_run_shift.
  change ([(negb (is_shift next), lastb)] ++ tail) with ((negb (is_shift next), lastb) :: tail).
   rewrite Htr2. unfold cf. rewrite trace_shift, fmap_app. done.
Qed.

(** The slot recorded for an operation: none, or the place of the payload
    among the clocks [cl] it emitted. *)
Definition slot_step (e e' : enc A V) (hw : tap_state) (cl : list (bool * bool)) (o : op V) : Prop :=
  match o with
  | Shift v _ _ =>
      exists before body after x, cl = before ++ body ++ after /\ body.*2 = bv_bits v
        /\ clock_states (tap_run hw before.*1) body.*1 = replicate (length (bv_bits v)) (ShiftS x)
        /\ e_slots e' = e_slots e ++ [(o, zlen (accb (e_tdi e)) + zlen before)]
  | _ => e_slots e' = e_slots e
  end.

Lemma shift_sim e v rd k hw x next es p :
  let o := Shift v rd k in
  enc_ok e -> tracks (Some o) (e_state e) hw (PScan x) -> op_wf o next ->
  transact (PScan x) o = Some (es, p) ->
  exists e' cl, emit_shift e o v k next = Ok e'
    /\ sim_step e e' hw cl es p next /\ slot_step e e' hw cl o.
Proof.
  intros o He Ht (Hv & Hn & Hk & Hnext) Htx. rewrite bv_len_law in Hn by done.
  unfold emit_shift.
  destruct (enter_shift_sim e hw x (Some o) He Ht) as (e1 & c1 & -> & Hs1 & Hem1 & Htr1 & Hr1); [done|].
  rewrite bind_of_Ok.
  assert (negb (k =? 0) && is_shift next = false) as ->.
  { destruct (Z.eqb_spec k 0); [done|]. by rewrite Hnext. }
  cbv zeta. rewrite bv_len_law by done. rewrite (proj2 (Z.eqb_neq (zlen (bv_bits v)) 0)) by lia.
  destruct (payload_sim e1 o v x next) as (e2 & tail & Hpay & Hs2 & body & Hb2 & Hcs & Hem2 & Htr2 & Htk2);
    [apply Hem1|done|done|]. cbv zeta in Hpay. rewrite Hpay, bind_of_Ok.
  assert (zlen (accb (e_tdi e1)) = zlen (accb (e_tdi e)) + zlen c1) as Hoff.
  { destruct Hem1 as (_ & _ & ->). rewrite length_app, length_fmap. lia. }
  assert (emits e e2 (c1 ++ body ++ tail)) as Hem12 by (by eapply emits_trans).
  assert (trace hw (c1 ++ body ++ tail) = EShift x <$> bv_bits v) as Htr12
    by (rewrite trace_app, Htr1, Hr1; done).
  assert (tracks next (e_state e2) (tap_run hw (c1 ++ body ++ tail).*1) (PScan x)) as Htk12
    by (rewrite (fmap_app fst c1), tap_run_app, Hr1; done).
  simpl in Htx. destruct (Z.eqb_spec k 0) as [Hk0|Hk0]; injection Htx as <- <-.
  - exists e2, (c1 ++ body ++ tail). split; [done|]. split; [done|].
    exists c1, body, tail, x. rewrite Hr1. split_and!; try done. by rewrite Hs2, Hs1, Hoff.
  - destruct (emit_run_sim e2 k _ _ next next (proj1 Hem12) Hk Htk12) as (e3 & c3 & -> & Hs3 & Hem3 & Htr3 & Htk3);
      [by apply Hnext|].
    exists e3, ((c1 ++ body ++ tail) ++ c3). split; [done|]. split; [split_and!|].
    + by eapply emits_trans.
    + by rewrite trace_app, Htr12, Htr3.
    + by rewrite (fmap_app fst), tap_run_app.
    + exists c1, body, (tail ++ c3), x. rewrite Hr1, <- !app_assoc. split_and!; try done.
      by rewrite Hs3, Hs2, Hs1, Hoff.
Qed.

(** One operation of the batch. *)
Lemma encode_op_sim e o hw p next es p' :
  enc_ok e -> tracks (Some o) (e_state e) hw p -> op_wf o next -> transact p o = Some (es, p') ->
  exists e' cl, encode_op e o next = Ok e'
    /\ sim_step e e' hw cl es p' next /\ slot_step e e' hw cl o.
Proof.
  intros He Ht Hwf Htx.
  assert (forall tms, head tms = Some true -> is_capture_or_run (Some o) = false -> is_shift (Some o) = false ->
    trace hw (pattern_clocks tms) = pattern_events p tms) as Hpat.
  { intros tms Hh Hc Hs. unfold pattern_events. inversion Ht; subst; try done; try congruence.
    by apply trace_update_idle. }
  destruct o as [v rd k| | |count|k| |]; simpl encode_op.
  - destruct p; [done..|]. by apply (shift_sim e v rd k hw x).
  - injection Htx as <- <-. destruct (capture_sim e DR hw p _ next He Ht) as (e' & cl & ? & ? & ?); [done|].
    exists e', cl. by split_and!.
  - injection Htx as <- <-. destruct (capture_sim e IR hw p _ next He Ht) as (e' & cl & ? & ? & ?); [done|].
    exists e', cl. by split_and!.
  - injection Htx as <- <-. destruct (reset_tms_spec count) as (b & -> & Hb & Hbits). rewrite bind_of_Ok.
    destruct (pattern_sim e b hw next He Hb) as (e' & -> & ? & Hsim);
      [intros s; rewrite Hbits; apply reset_pattern_resets|].
    eexists e', _. split; [done|]. split; [|done]. rewrite <- Hpat, <- Hbits; [exact Hsim| |done..].
    unfold reset_pattern. destruct (Z.to_nat (Z.max count 5)) eqn:E; [lia|done].
  - injection Htx as <- <-. destruct (emit_run_sim e k hw p _ next He Hwf Ht) as (e' & cl & ? & ? & ?); [done|].
    exists e', cl. by split_and!.
  - injection Htx as <- <-. destruct swd_to_jtag_tms_spec as (b & -> & Hb & Hbits). rewrite bind_of_Ok.
    destruct (pattern_sim e b hw next He Hb) as (e' & -> & ? & Hsim);
      [intros s; rewrite Hbits; apply swd_pattern_resets|].
    eexists e', _. split; [done|]. split; [|done]. rewrite <- Hpat, <- Hbits; [exact Hsim|done..].
  - done.
Qed.

Lemma window_ok_app hw tms tdi t d slot :
  length tms = length tdi -> window_ok hw tms tdi slot -> window_ok hw (tms ++ t) (tdi ++ d) slot.
Proof.
  intros Hl (v & rd & k & x & Hs & Ho & Hb & Hd & Hc). exists v, rd, k, x.
  rewrite clock_states_app, length_app. split_and!; [done..|lia| |].
  - by rewrite slice_app_l by lia.
  - rewrite slice_app_l by (rewrite ?length_clock_states; lia). done.
Qed.

Lemma slot_step_windows hw0 e e' cl o :
  enc_ok e -> emits e e' cl -> slot_step e e' (tap_run hw0 (accb (e_tms e))) cl o ->
  Forall (window_ok hw0 (accb (e_tms e)) (accb (e_tdi e))) (e_slots e) ->
  Forall (window_ok hw0 (accb (e_tms e')) (accb (e_tdi e'))) (e_slots e')
  /\ (e_slots e').*1 = (e_slots e).*1 ++ (if is_shift (Some o) then [o] else []).
Proof.
  intros (_ & _ & Hl) (_ & Ht & Hd) Hs Hw.
  assert (Forall (window_ok hw0 (accb (e_tms e')) (accb (e_tdi e'))) (e_slots e)) as Hw'.
  { rewrite Ht, Hd. eapply Forall_impl; [done|]. intros. by apply window_ok_app. }
  destruct o as [v rd k| | | | | |]; simpl in Hs; try (rewrite Hs, app_nil_r; done).
  destruct Hs as (before & body & after & x & -> & Hb & Hc & ->). rewrite fmap_app. split; [|done].
  apply Forall_app. split; [done|]. constructor; [|constructor].
  exists v, rd, k, x. simpl. rewrite Ht, Hd, !fmap_app, Hb.
  assert (length body.*1 = length (bv_bits v)) as Hlb by (by rewrite <- Hb, !length_fmap).
  split_and!; [done|lia|rewrite !length_app, !length_fmap; lia|..].
  - rewrite app_assoc. apply slice_app_mid; [rewrite length_app, length_fmap|]; lia.
  - rewrite !clock_states_app, Hc, app_assoc.
    apply slice_app_mid; rewrite ?length_app, ?length_clock_states, ?length_fmap, ?length_replicate; lia.
Qed.

Lemma encode_loop_sim hw0 ops : forall e p es p',
  enc_ok e -> tracks (head ops) (e_state e) (tap_run hw0 (accb (e_tms e))) p ->
  ops_wf ops -> transact_all p ops = Some (es, p') ->
  Forall (window_ok hw0 (accb (e_tms e)) (accb (e_tdi e))) (e_slots e) ->
  exists e' cl, encode_loop e ops = Ok e' /\ emits e e' cl
    /\ trace (tap_run hw0 (accb (e_tms e))) cl = es
    /\ tracks None (e_state e') (tap_run hw0 (accb (e_tms e'))) p'
    /\ Forall (window_ok hw0 (accb (e_tms e')) (accb (e_tdi e'))) (e_slots e')
    /\ (e_slots e').*1 = (e_slots e).*1 ++ filter (fun o => is_shift (Some o)) ops.
Proof.
  induction ops as [|o rest IH]; intros e p es p' He Ht Hwf Htx Hw.
  { injection Htx as <- <-. exists e, []. split_and!; try done; [by apply emits_refl|].
    simpl. by rewrite app_nil_r. }
  destruct Hwf as [Hwf Hrest]. simpl in Htx.
  destruct (transact p o) as [[es1 p1]|] eqn:H1; [|done]. simpl in Htx.
  destruct (transact_all p1 rest) as [[es2 p2]|] eqn:H2; [|done]. injection Htx as <- <-.
  destruct (encode_op_sim e o _ p (head rest) es1 p1 He Ht Hwf H1)
    as (e1 & c1 & Henc & (Hem1 & Htr1 & Htk1) & Hslot).
  destruct (slot_step_windows hw0 e e1 c1 o He Hem1 Hslot Hw) as [Hw1 Hsl1].
  assert (tap_run hw0 (accb (e_tms e1)) = tap_run (tap_run hw0 (accb (e_tms e))) c1.*1) as Hhw1
    by (destruct Hem1 as (_ & -> & _); by rewrite tap_run_app).
  rewrite <- Hhw1 in Htk1.
  destruct (IH e1 p1 es2 p2 (proj1 Hem1) Htk1 Hrest H2 Hw1)
    as (e2 & c2 & Hl2 & Hem2 & Htr2 & Htk2 & Hw2 & Hsl2).
  exists e2, (c1 ++ c2). simpl. rewrite Henc. split_and!; [done|by eapply emits_trans| |done..|].
  - by rewrite trace_app, Htr1, <- Hhw1, Htr2.
  - rewrite Hsl2, Hsl1, <- app_assoc. f_equal. rewrite filter_cons. by destruct o.
Qed.

Lemma tracks_rest next st hw p : tracks None st hw p -> tracks next st hw p.
Proof. destruct 1; try done; constructor. Qed.

(** What a caller of [encode] relies on. *)
Record encoded (hw : tap_state) (ops : list (op V)) (st' : enc_state) (tms tdi : A)
    (slots : list (op V * Z)) (es : list event) (p' : phase) : Prop := {
  ed_ok : bv_acc_ok tms /\ bv_acc_ok tdi;
  ed_length : length (accb tms) = length (accb tdi);
  ed_trace : trace hw (zip (accb tms) (accb tdi)) = es;
  ed_state : tracks None st' (tap_run hw (accb tms)) p';
  ed_slots : slots.*1 = filter (fun o => is_shift (Some o)) ops;
  ed_windows : Forall (window_ok hw (accb tms) (accb tdi)) slots;
}.

Lemma encode_spec st hw p ops es p' :
  tracks None st hw p -> ops_wf ops -> transact_all p ops = Some (es, p') ->
  exists st' tms tdi slots, encode st ops = Ok (st', (tms, tdi, slots))
    /\ encoded hw ops st' tms tdi slots es p'.
Proof.
  intros Ht Hwf Htx. destruct bv_new_law as [Hn Hnb].
  destruct (encode_loop_sim hw ops (mkEnc st bv_new bv_new []) p es p')
    as (e' & cl & Hl & Hem & Htr & Htk & Hw & Hsl); simpl; rewrite ?Hnb; try done.
  { by apply tracks_rest. }
  unfold encode. rewrite Hl. simpl. eexists _, _, _, _. split; [done|].
  destruct Hem as ((Hok1 & Hok2 & Hlen) & Htms & Htdi). simpl in Htms, Htdi, Htr. rewrite Hnb in *.
  simpl in *. constructor; try done. rewrite <- Htr, Htms, Htdi, zip_fst_snd. done.
Qed.
End EncoderProofs.

(** ** Properties *)

Section EncoderTheorems.
Context {A V : Type} `{BitVecLaws A V}.
Abbreviation accb a := (bv_bits (bv_val a)).

(** C2: encoding a batch produces equally many TMS and TDI bits; clocking
    them into a TAP controller causes exactly the events the operations mean,
    in order (captures, shifted bits, updates, idle and reset clocks), and
    leaves encoder and controller in step; there is one slot per shift, in
    order, whose window of the stream carries the shift's bits while the
    controller is in Shift. *)
Theorem encode_correct st hw p (ops : list (op V)) es p' :
  tracks (V:=V) None st hw p -> ops_wf ops -> transact_all p ops = Some (es, p') ->
  exists st' tms tdi slots, encode st ops = Ok (st', (tms, tdi, slots))
    /\ length (accb tms) = length (accb tdi)
    /\ trace hw (zip (accb tms) (accb tdi)) = es
    /\ tracks (V:=V) None st' (tap_run hw (accb tms)) p'
    /\ slots.*1 = filter (fun o => is_shift (Some o)) ops
    /\ Forall (window_ok hw (accb tms) (accb tdi)) slots.
Proof.
  intros Ht Hwf Htx. destruct (encode_spec st hw p ops es p' Ht Hwf Htx)
    as (st' & tms & tdi & slots & He & []). by exists st', tms, tdi, slots.
Qed.

(** Splitting a batch into two [encode] calls does not change what the peer
    does: both ways cause the events of the operations in order, and leave
    encoder and controller in step. *)
Theorem encode_batches st hw p ops1 ops2 es1 p1 es2 p2 :
  tracks (V:=V) None st hw p -> ops_wf (ops1 ++ ops2) -> ops_wf ops1 ->
  transact_all p ops1 = Some (es1, p1) -> transact_all p1 ops2 = Some (es2, p2) ->
  exists st1 tms1 tdi1 slots1 st2 tms2 tdi2 slots2 st' tms tdi slots,
    encode st ops1 = Ok (st1, (tms1, tdi1, slots1))
    /\ encode st1 ops2 = Ok (st2, (tms2, tdi2, slots2))
    /\ encode st (ops1 ++ ops2) = Ok (st', (tms, tdi, slots))
    /\ trace hw (zip (accb tms1) (accb tdi1) ++ zip (accb tms2) (accb tdi2)) = es1 ++ es2
    /\ trace hw (zip (accb tms) (accb tdi)) = es1 ++ es2
    /\ tracks (V:=V) None st2 (tap_run hw (accb tms1 ++ accb tms2)) p2
    /\ tracks (V:=V) None st' (tap_run hw (accb tms)) p2.
Proof.
  intros Ht Hwf Hwf1 H1 H2.
  destruct (encode_spec st hw p ops1 es1 p1 Ht Hwf1 H1) as (st1 & tms1 & tdi1 & sl1 & E1 & [_ L1 T1 S1 _ _]).
  assert (ops_wf ops2) as Hwf2
    by (clear -Hwf; induction ops1; [done|apply IHops1, Hwf]).
  destruct (encode_spec st1 _ p1 ops2 es2 p2 S1 Hwf2 H2) as (st2 & tms2 & tdi2 & sl2 & E2 & [_ L2 T2 S2 _ _]).
  destruct (encode_spec st hw p (ops1 ++ ops2) (es1 ++ es2) p2 Ht Hwf
              (transact_all_app _ _ _ _ _ _ _ H1 H2)) as (st' & tms & tdi & sl & E & [_ L T S _ _]).
  exists st1, tms1, tdi1, sl1, st2, tms2, tdi2, sl2, st', tms, tdi, sl. split_and!; try done.
  - rewrite trace_app, T1, fst_zip, T2 by lia. done.
  - by rewrite tap_run_app.
Qed.

(** A shift is refused outside a scan, a shift with idle clocks is refused
    when another shift continues it, and so is an operation of another
    class; nothing of the batch is returned then. *)
Theorem encode_errors st (v : V) rd k rest :
  (st = TLR \/ st = RTI -> encode st (Shift v rd k :: rest) = Err RuntimeError)
  /\ (st = PRE_SHIFT \/ st = IN_SHIFT -> k <> 0 -> is_shift (head rest) = true ->
      encode st (Shift v rd k :: rest) = Err ValueError)
  /\ encode st (OtherOp :: rest) = Err ValueError.
Proof.
  unfold encode. simpl. unfold emit_shift. split_and!; [by intros [-> | ->]| |done].
  intros [-> | ->] Hk Hs; simpl; rewrite Hs, (proj2 (Z.eqb_neq k 0)) by done; done.
Qed.
End EncoderTheorems.

(** A DR scan of a 3-bit value, from Test-Logic-Reset. *)
Definition sample_scan : list (op (list bool)) :=
  [Reset 5; CaptureDr; Shift [true; false; true] true 2].

Lemma sample_scan_wf : ops_wf (A:=list bool) sample_scan.
Proof. repeat split; simpl; try lia; try done. Qed.

Lemma encode_correct_witness :
  exists st' tms tdi slots, encode (A:=list bool) TLR sample_scan = Ok (st', (tms, tdi, slots))
    /\ tms = [true; true; true; true; true; false; true; false; false; false; false; true; false; true; true; false; false]
    /\ slots.*2 = [9]
    /\ Forall (window_ok TestLogicReset tms tdi) slots.
Proof.
  destruct (encode_correct (A:=list bool) TLR TestLogicReset PReset sample_scan _ _
    (tracks_tlr (V:=list bool) None) sample_scan_wf eq_refl) as (st' & tms & tdi & slots & He & _ & _ & _ & _ & Hw).
  exists st', tms, tdi, slots. split; [exact He|]. vm_compute in He. by injection He as <- <- <- <-.
Defined.

Lemma encode_batches_witness :
  exists st1 b1 st2 b2, encode (A:=list bool) TLR [Reset 5] = Ok (st1, b1)
    /\ encode (A:=list bool) st1 [CaptureDr; Shift [true; false; true] true 2] = Ok (st2, b2)
    /\ tracks (V:=list bool) None st2 (tap_run TestLogicReset (b1.1.1 ++ b2.1.1)) PIdle.
Proof.
  destruct (encode_batches (A:=list bool) TLR TestLogicReset PReset [Reset 5]
    [CaptureDr; Shift [true; false; true] true 2] _ _ _ _
    (tracks_tlr (V:=list bool) None) sample_scan_wf ltac:(by repeat split) eq_refl eq_refl)
    as (st1 & tms1 & tdi1 & sl1 & st2 & tms2 & tdi2 & sl2 & st' & tms & tdi & sl & H1 & H2 & _ & _ & _ & Ht & _).
  exists st1, (tms1, tdi1, sl1), st2, (tms2, tdi2, sl2). done.
Defined.

Lemma encode_errors_witness :
  encode (A:=list bool) RTI [Shift [true] false 0] = Err RuntimeError.
Proof. apply (encode_errors (A:=list bool) RTI [true] false 0 []). by right. Defined.

(** A shift of no bits still costs the peer one shifted bit: the exit from
    Shift is a clock whose state before the edge is Shift. *)
Theorem empty_shift_shifts_a_bit :
  exists tms tdi,
    encode (A := list bool) (V := list bool) PAUSE [Shift [] true 0] = Ok (PAUSE, (tms, tdi, []))
    /\ trace (Pause DR) (zip tms tdi) = [EShift DR false].
Proof. eexists _, _. by split. Qed.
