(* ===== verification/JtagWalker.v ===== *)
(** * Walking a TMS/TDI stream (src/acrobe/protocol/jtag_walker.py)

    [JtagTmsWalker.process] follows a (TMS, TDI) stream through a TAP state
    machine whose DR and IR sides are collapsed, posts the operations the
    stream amounts to, and puts the captured TDO bits back at the clocks they
    were shifted on.

    The interface that executes the posted operations is the parameter
    [answer]: the TDO vector of the [k]-th posted operation. *)

From S2P Require Import Prelude BitVec JtagTap.

(** ** The collapsed state machine *)

Definition TLR : Z := 0.
Definition RTI : Z := 1.
Definition SEL_DR : Z := 2.
Definition SEL_IR : Z := 3.
Definition CAPTURE : Z := 4.
Definition SHIFT : Z := 5.
Definition EXIT1 : Z := 6.
Definition PAUSE : Z := 7.
Definition EXIT2 : Z := 8.
Definition UPDATE : Z := 9.

(** [NEXT_STATE[tms][current]] *)
Definition NEXT_STATE : list (list Z) :=
  [[RTI; RTI; CAPTURE; CAPTURE; SHIFT; SHIFT; PAUSE; PAUSE; SHIFT; RTI];
   [TLR; SEL_DR; SEL_IR; TLR; EXIT1; EXIT1; UPDATE; EXIT2; UPDATE; SEL_DR]].

Definition next_state (tms : bool) (current : Z) : result Z :=
  row ← index NEXT_STATE (Z.b2z tms); index row current.

(** The walker's name for a state of the TAP controller. *)
Definition collapse (s : tap_state) : Z :=
  match s with
  | TestLogicReset => TLR
  | RunTestIdle => RTI
  | Select DR => SEL_DR
  | Select IR => SEL_IR
  | Capture _ => CAPTURE
  | ShiftS _ => SHIFT
  | Exit1 _ => EXIT1
  | Pause _ => PAUSE
  | Exit2 _ => EXIT2
  | Update _ => UPDATE
  end.

Lemma next_state_collapse s t : next_state t (collapse s) = Ok (collapse (tap_next s t)).
Proof. by destruct s as [| |[]|[]|[]|[]|[]|[]|[]], t. Qed.

Section Walker.
Context {A V : Type} `{BitVec A V}.
Variable answer : list (op V) -> nat -> V.

(** The walker and the local variables of [process]. *)
Record walker : Type := mkWalker {
  w_state : Z;
  w_in_ir : bool;
  w_shift_start : option Z;
  w_run_start : option Z;
  w_posted : list (op V);                 (* futures, in posting order *)
  w_slots : list (nat * Z * Z);           (* (future, start, end) *)
}.

Definition post (w : walker) (o : op V) : walker :=
  mkWalker (w_state w) (w_in_ir w) (w_shift_start w) (w_run_start w)
    (w_posted w ++ [o]) (w_slots w).

(** Post [tdi[start:stop]] as a shift and remember where its TDO goes. *)
Definition post_shift (w : walker) (tdi : V) (stop : Z) : walker :=
  let start := default 0 (w_shift_start w) in
  mkWalker (w_state w) (w_in_ir w) (w_shift_start w) (w_run_start w)
    (w_posted w ++ [Shift (bv_slice tdi start stop) true 0])
    (w_slots w ++ [(length (w_posted w), start, stop)]).

Definition set_shift_start (w : walker) (s : option Z) : walker :=
  mkWalker (w_state w) (w_in_ir w) s (w_run_start w) (w_posted w) (w_slots w).
Definition set_run_start (w : walker) (s : option Z) : walker :=
  mkWalker (w_state w) (w_in_ir w) (w_shift_start w) s (w_posted w) (w_slots w).
Definition set_in_ir (w : walker) (b : bool) : walker :=
  mkWalker (w_state w) b (w_shift_start w) (w_run_start w) (w_posted w) (w_slots w).
Definition set_wstate (w : walker) (s : Z) : walker :=
  mkWalker s (w_in_ir w) (w_shift_start w) (w_run_start w) (w_posted w) (w_slots w).

(** The loop body of [process] once the next state is known. *)
Definition walk_edge (tdi : V) (w : walker) (i next : Z) : walker :=
  let cur := w_state w in
  let w := if (cur =? SHIFT) && negb (next =? SHIFT)
           then set_shift_start (post_shift w tdi (i + 1)) None else w in
  let w := match w_run_start w with
           | Some run_start =>
               if (cur =? RTI) && negb (next =? RTI) then
                 let cycles := i - run_start in
                 set_run_start (if 0 <? cycles then post w (Run cycles) else w) None
               else w
           | None => w
           end in
  let w := if (cur =? TLR) && negb (next =? TLR) then post w (Reset 5) else w in
  let w := if next =? CAPTURE then
             let w := set_in_ir w (cur =? SEL_IR) in
             post w (if w_in_ir w then CaptureIr else CaptureDr)
           else w in
  let w := if (next =? SHIFT) && negb (cur =? SHIFT) then set_shift_start w (Some (i + 1)) else w in
  let w := if (next =? RTI) && negb (cur =? RTI) then set_run_start w (Some i) else w in
  set_wstate w next.

Definition walk_bit (tms tdi : V) (w : walker) (i : Z) : result walker :=
  tms_bit ← bv_get tms i;
  next ← next_state tms_bit (w_state w);
  Ok (walk_edge tdi w i next).

(** What the end of the input flushes. *)
Definition walk_end (tdi : V) (n : Z) (w : walker) : walker :=
  let w := match w_shift_start w with
           | Some s => if (w_state w =? SHIFT) && (s <? n) then post_shift w tdi n else w
           | None => w
           end in
  match w_run_start w with
  | Some r => if (w_state w =? RTI) && (r <? n) then post w (Run (n - r)) else w
  | None => w
  end.

(** The TDO vector reassembled from the slots. *)
Definition reassemble (results : nat -> V) (n : Z) (slots : list (nat * Z * Z)) : result V :=
  match slots with
  | [] => bv_of_int 0 n
  | _ =>
      '(tdo, cursor) ← foldM (fun '(tdo, cursor) '(fut, start, stop) =>
          tdo ← (if cursor <? start
                 then pad ← bv_of_int 0 (start - cursor); bv_iadd tdo pad else Ok tdo);
          tdo ← bv_iadd tdo (results fut);
          Ok (tdo, stop)) (bv_new, 0) slots;
      tdo ← (if cursor <? n then pad ← bv_of_int 0 (n - cursor); bv_iadd tdo pad else Ok tdo);
      Ok (bv_val tdo)
  end.

(** The walker a [process] call starts with. *)
Definition walk_start (state : Z) (in_ir : bool) : walker :=
  mkWalker state in_ir (if state =? SHIFT then Some 0 else None)
    (if state =? RTI then Some 0 else None) [] [].

(** [process]: the walker afterwards (its state, what it posted) and the TDO
    vector. *)
Definition process (state : Z) (in_ir : bool) (tms tdi : V) : result (walker * V) :=
  if negb (bv_len tms =? bv_len tdi) then Err ValueError
  else
    let n := bv_len tms in
    if n =? 0 then Ok (mkWalker state in_ir None None [] [], bv_val bv_new)
    else
      w ← foldM (walk_bit tms tdi) (walk_start state in_ir) (seqZ 0 n);
      let w := walk_end tdi n w in
      tdo ← reassemble (answer (w_posted w)) n (w_slots w);
      Ok (w, tdo).
End Walker.
Arguments walker V : clear implicits.

(** ** The posted operations mean what the stream did *)

(** Events compared up to the clocks spent in Test-Logic-Reset. *)
Definition not_reset (e : event) : bool := match e with EReset => false | _ => true end.
Definition visible (es : list event) : list event := filter not_reset es.

Lemma visible_app es1 es2 : visible (es1 ++ es2) = visible es1 ++ visible es2.
Proof. apply filter_app. Qed.

Lemma visible_id es : Forall (fun e => e <> EReset) es -> visible es = es.
Proof.
  induction 1 as [|e es He _ IH]; [done|]. unfold visible in *. rewrite filter_cons, IH.
  by destruct e.
Qed.

Lemma visible_reset p : visible (pattern_events p (reset_pattern 5)) = leave p.
Proof. by destruct p as [| |[]]. Qed.

Lemma visible_run p k : visible (transact_run p k).1 = (transact_run p k).1.
Proof.
  apply visible_id. simpl. apply Forall_app. split; [by destruct p; repeat constructor|].
  by apply Forall_replicate.
Qed.

Lemma visible_shift x l : visible (EShift x <$> l) = EShift x <$> l.
Proof. apply visible_id. by apply Forall_fmap, Forall_true. Qed.

Section WalkerProofs.
Context {A V : Type} `{BitVecLaws A V}.

(** What the stream has done that the posted operations do not say yet:
    [d] is TDI, [i] the number of clocks walked. *)
Definition pending (d : list bool) (w : walker V) (i : Z) (hw : tap_state) (p : phase) : list event :=
  match hw with
  | TestLogicReset | Select _ => leave p
  | RunTestIdle => leave p ++ replicate (Z.to_nat (i - default 0 (w_run_start w))) EIdle
  | ShiftS x => EShift x <$> slice d (default 0 (w_shift_start w)) i
  | Update x => [EUpdate x]
  | Capture _ | Exit1 _ | Pause _ | Exit2 _ => []
  end.

(** The walker is at the controller's state, and the phase reached by the
    posted operations fits it. *)
Definition walks (w : walker V) (i : Z) (hw : tap_state) (p : phase) : Prop :=
  w_state w = collapse hw /\
  match hw with
  | TestLogicReset => True
  | RunTestIdle => exists r, w_run_start w = Some r /\ 0 <= r <= i /\ (r = i -> p = PIdle)
  | Select _ => p <> PReset
  | ShiftS x => p = PScan x /\ exists s, w_shift_start w = Some s /\ 0 <= s <= i
  | Capture x | Exit1 x | Pause x | Exit2 x | Update x => p = PScan x
  end.

(** One edge: the operations posted on it account for the events that are no
    longer pending. *)
Definition edge_ok (d : list bool) (w w' : walker V) (i : Z) (hw : tap_state) (t : bool) (p : phase) : Prop :=
  exists new es p', w_posted w' = w_posted w ++ new
    /\ transact_all p new = Some (es, p')
    /\ walks w' (i + 1) (tap_next hw t) p'
    /\ pending d w i hw p ++ visible (clock_event hw t (default false (d !! Z.to_nat i)))
       = visible es ++ pending d w' (i + 1) (tap_next hw t) p'.

Lemma slice_snoc (d : list bool) s i :
  0 <= s <= i -> i < zlen d ->
  slice d s (i + 1) = slice d s i ++ [default false (d !! Z.to_nat i)].
Proof.
  intros. rewrite !slice_nonneg by lia.
  replace (Z.to_nat (i + 1) - Z.to_nat s)%nat with (S (Z.to_nat i - Z.to_nat s)) by lia.
  destruct (lookup_lt_is_Some_2 d (Z.to_nat i)) as [b Hb]; [lia|].
  rewrite Hb. simpl. apply take_S_r. rewrite lookup_drop. rewrite <- Hb. f_equal. lia.
Qed.

Lemma slice_empty {T} (d : list T) s : 0 <= s -> slice d s s = [].
Proof. intros. rewrite slice_nonneg by lia. by rewrite Nat.sub_diag. Qed.

(** Edges that post nothing and leave nothing more pending. *)
Lemma edge_ok_silent d w w' i hw t p :
  w_posted w' = w_posted w -> walks w' (i + 1) (tap_next hw t) p ->
  pending d w i hw p ++ visible (clock_event hw t (default false (d !! Z.to_nat i)))
    = pending d w' (i + 1) (tap_next hw t) p ->
  edge_ok d w w' i hw t p.
Proof. intros Hp Hw He. exists [], [], p. by rewrite Hp, app_nil_r. Qed.

(** Edges that post one operation. *)
Lemma edge_ok_posts d w w' i hw t p o es p' :
  w_posted w' = w_posted w ++ [o] -> transact p o = Some (es, p') ->
  walks w' (i + 1) (tap_next hw t) p' ->
  pending d w i hw p ++ visible (clock_event hw t (default false (d !! Z.to_nat i)))
    = visible es ++ pending d w' (i + 1) (tap_next hw t) p' ->
  edge_ok d w w' i hw t p.
Proof.
  intros Hp Ht Hw He. exists [o], es, p'. split_and!; try done.
  simpl. rewrite Ht. simpl. by rewrite app_nil_r.
Qed.

Lemma replicate_idle_snoc k :
  0 <= k -> replicate (Z.to_nat (k + 1)) EIdle = replicate (Z.to_nat k) EIdle ++ [EIdle].
Proof.
  intros. replace (Z.to_nat (k + 1)) with (Z.to_nat k + 1)%nat by lia.
  by rewrite replicate_add.
Qed.

(** Entering Run-Test/Idle on clock [i]. *)
Lemma walks_enter_idle w i p :
  0 <= i -> w_state w = RTI -> w_run_start w = Some i -> walks w (i + 1) RunTestIdle p.
Proof. intros. split; [done|]. exists i. split_and!; [done|lia..]. Qed.

Lemma pending_enter_idle d w i p :
  w_run_start w = Some i -> pending d w (i + 1) RunTestIdle p = leave p ++ [EIdle].
Proof. intros Hr. simpl. rewrite Hr. simpl. by replace (i + 1 - i) with 1 by lia. Qed.

(** Entering Shift on clock [i]: no bit is shifted yet. *)
Lemma walks_enter_shift w i x :
  0 <= i -> w_state w = SHIFT -> w_shift_start w = Some (i + 1) ->
  walks w (i + 1) (ShiftS x) (PScan x).
Proof. intros. split; [done|]. split; [done|]. exists (i + 1). split; [done|lia]. Qed.

Lemma pending_enter_shift d w i x p :
  0 <= i -> w_shift_start w = Some (i + 1) -> pending d w (i + 1) (ShiftS x) p = [].
Proof. intros ? Hs. simpl. rewrite Hs. simpl. by rewrite slice_empty by lia. Qed.

Lemma edge_reset_idle (tdi : V) w i p :
  0 <= i -> w_state w = TLR ->
  edge_ok (bv_bits tdi) w (walk_edge tdi w i RTI) i TestLogicReset false p.
Proof.
  intros Hi Hst. destruct w as [st ir ss rs posted slots]. simpl in Hst. subst st.
  apply (edge_ok_posts _ _ _ _ _ _ _ (Reset 5) (pattern_events p (reset_pattern 5)) PReset).
  - by destruct rs.
  - done.
  - apply walks_enter_idle; [done|by destruct rs..].
  - simpl tap_next. rewrite pending_enter_idle by done. rewrite visible_reset. done.
Qed.

Lemma edge_idle_select (tdi : V) w i p :
  walks w i RunTestIdle p ->
  edge_ok (bv_bits tdi) w (walk_edge tdi w i SEL_DR) i RunTestIdle true p.
Proof.
  intros [Hst (r & Hrs & Hr & Hp)]. destruct w as [st ir ss rs posted slots].
  simpl in Hst, Hrs. subst st rs. unfold walk_edge. simpl.
  destruct (Z.ltb_spec 0 (i - r)).
  - apply (edge_ok_posts _ _ _ _ _ _ _ (Run (i - r)) (transact_run p (i - r)).1 PIdle); [done| | |].
    + cbn [transact]. unfold transact_run. simpl. destruct p; try done.
      by rewrite (proj2 (Z.eqb_neq _ 0)) by lia.
    + by split.
    + rewrite visible_run, !app_nil_r. done.
  - rewrite Hp by lia. apply edge_ok_silent; [done|by split|].
    simpl. by replace (i - r) with 0 by lia.
Qed.

Lemma edge_idle_idle (tdi : V) w i p :
  walks w i RunTestIdle p ->
  edge_ok (bv_bits tdi) w (walk_edge tdi w i RTI) i RunTestIdle false p.
Proof.
  intros [Hst (r & Hrs & Hr & Hp)]. destruct w as [st ir ss rs posted slots].
  simpl in Hst, Hrs. subst st rs. apply edge_ok_silent; [done| |].
  - split; [done|]. exists r. split_and!; [done|lia..].
  - simpl. replace (i + 1 - r) with (i - r + 1) by lia. rewrite replicate_idle_snoc by lia.
    by rewrite <- app_assoc.
Qed.

Lemma edge_capture (tdi : V) w i x p :
  walks w i (Select x) p ->
  edge_ok (bv_bits tdi) w (walk_edge tdi w i CAPTURE) i (Select x) false p.
Proof.
  intros [Hst Hp]. destruct w as [st ir ss rs posted slots]. simpl in Hst, Hp. subst st.
  apply (edge_ok_posts _ _ _ _ _ _ _ (match x with DR => CaptureDr | IR => CaptureIr end)
           (transact_capture p x).1 (PScan x)).
  - by destruct x, rs.
  - by destruct x.
  - by split; destruct x.
  - destruct p as [| |y]; [done| |]; by destruct x.
Qed.

Lemma edge_enter_shift (tdi : V) w i x hw :
  0 <= i -> w_state w = collapse hw -> (hw = Capture x \/ hw = Exit2 x) ->
  edge_ok (bv_bits tdi) w (walk_edge tdi w i SHIFT) i hw false (PScan x).
Proof.
  intros Hi Hst Hhw. destruct w as [st ir ss rs posted slots]. simpl in Hst. subst st.
  destruct Hhw as [-> | ->]; (apply edge_ok_silent;
    [by destruct rs|apply walks_enter_shift; [done|by destruct rs..]|]);
    simpl tap_next; by rewrite pending_enter_shift by (done || by destruct rs).
Qed.

Lemma edge_leave_shift (tdi : V) w i x p :
  bv_readable tdi -> 0 <= i < bv_len tdi -> walks w i (ShiftS x) p ->
  edge_ok (bv_bits tdi) w (walk_edge tdi w i EXIT1) i (ShiftS x) true p.
Proof.
  intros Hd Hi [Hst (-> & s & Hss & Hs)]. pose proof (bv_len_read tdi Hd) as Hlen.
  destruct w as [st ir ss rs posted slots]. simpl in Hst, Hss. subst st ss.
  destruct (bv_slice_read tdi s (i + 1) Hd) as [_ Hb]; [lia..|].
  apply (edge_ok_posts _ _ _ _ _ _ _ (Shift (bv_slice tdi s (i + 1)) true 0)
           (EShift x <$> bv_bits (bv_slice tdi s (i + 1))) (PScan x)).
  - by destruct rs.
  - done.
  - by split; destruct rs.
  - rewrite Hb, slice_snoc, visible_shift by lia.
    simpl. by rewrite fmap_app, app_nil_r.
Qed.

Lemma edge_shift_shift (tdi : V) w i x p :
  bv_readable tdi -> 0 <= i < bv_len tdi -> walks w i (ShiftS x) p ->
  edge_ok (bv_bits tdi) w (walk_edge tdi w i SHIFT) i (ShiftS x) false p.
Proof.
  intros Hd Hi [Hst (-> & s & Hss & Hs)]. pose proof (bv_len_read tdi Hd) as Hlen.
  destruct w as [st ir ss rs posted slots]. simpl in Hst, Hss. subst st ss.
  apply edge_ok_silent; [by destruct rs| |].
  - split; [by destruct rs|]. split; [done|]. exists s. split; [by destruct rs|lia].
  - simpl. assert (forall w', w_shift_start w' = Some s ->
      pending (bv_bits tdi) w' (i + 1) (ShiftS x) (PScan x)
      = (EShift x <$> slice (bv_bits tdi) s i) ++ [EShift x (default false (bv_bits tdi !! Z.to_nat i))])
      as Hpend.
    { intros w' Hw'. simpl. rewrite Hw'. simpl. rewrite slice_snoc by lia. by rewrite fmap_app. }
    symmetry. apply Hpend. by destruct rs.
Qed.

Lemma edge_update_idle (tdi : V) w i x :
  0 <= i -> w_state w = UPDATE ->
  edge_ok (bv_bits tdi) w (walk_edge tdi w i RTI) i (Update x) false (PScan x).
Proof.
  intros Hi Hst. destruct w as [st ir ss rs posted slots]. simpl in Hst. subst st.
  apply edge_ok_silent; [by destruct rs|apply walks_enter_idle; [done|by destruct rs..]|].
  simpl tap_next. by rewrite pending_enter_idle by (by destruct rs).
Qed.

Lemma walk_edge_ok (tdi : V) w i hw t p :
  bv_readable tdi -> 0 <= i < bv_len tdi -> walks w i hw p ->
  edge_ok (bv_bits tdi) w (walk_edge tdi w i (collapse (tap_next hw t))) i hw t p.
Proof.
  intros Hd Hi Hw. destruct (Hw) as [Hst Hp].
  destruct hw as [| |[]|x|x|x|x|x|x], t; simpl tap_next; simpl collapse;
    try (apply edge_reset_idle; [lia|done]);
    try (by apply edge_idle_select); try (by apply edge_idle_idle);
    try (by apply edge_capture); try (by apply edge_leave_shift); try (by apply edge_shift_shift);
    simpl in Hp; try subst p;
    try (apply edge_enter_shift; [lia|done|auto]); try (apply edge_update_idle; [lia|done]);
    destruct w as [st ir ss [] posted slots]; simpl in Hst; subst st;
    (apply edge_ok_silent; [done|by split|by rewrite ?app_nil_r]).
Qed.

(** *** TDO slots *)

Definition shifting (s : tap_state) : bool := match s with ShiftS _ => true | _ => false end.

(** The slots are in order, from [c] on, and end by [m]. *)
Fixpoint slots_upto (c : Z) (slots : list (nat * Z * Z)) (m : Z) : Prop :=
  match slots with
  | [] => c <= m
  | (_, a, b) :: rest => c <= a /\ a <= b /\ slots_upto b rest m
  end.

Definition covered (slots : list (nat * Z * Z)) (j : Z) : Prop :=
  exists f a b, (f, a, b) ∈ slots /\ a <= j < b.

Lemma slots_upto_snoc c slots m f a b m' :
  slots_upto c slots m -> m <= a -> a <= b -> b <= m' -> slots_upto c (slots ++ [(f, a, b)]) m'.
Proof.
  revert c. induction slots as [|[[g x] y] slots IH]; intros c; simpl; [lia|].
  intros (? & ? & ?) ???. split_and!; [done..|]. by apply IH.
Qed.

Lemma slots_upto_mono c slots m m' : slots_upto c slots m -> m <= m' -> slots_upto c slots m'.
Proof.
  revert c. induction slots as [|[[g x] y] slots IH]; intros c; simpl; [lia|].
  intros (? & ? & ?) ?. split_and!; [done..|]. by apply IH.
Qed.

Lemma slots_upto_end c slots m : slots_upto c slots m -> c <= m.
Proof.
  revert c. induction slots as [|[[g x] y] slots IH]; intros c; simpl; [done|].
  intros (? & ? & ?%IH). lia.
Qed.

(** Where the bits not yet posted start: the open shift, or here. *)
Definition frontier (w : walker V) (hw : tap_state) (i : Z) : Z :=
  if shifting hw then default 0 (w_shift_start w) else i.

(** The slots cover exactly the clocks walked in Shift, up to the frontier,
    and each names the shift that was posted for it. *)
Record slotted (d : list bool) (states : list tap_state) (w : walker V) (i : Z) (hw : tap_state) : Prop := {
  sd_order : slots_upto 0 (w_slots w) (frontier w hw i);
  sd_posted : Forall (fun '(f, a, b) => 0 <= a /\ exists v, w_posted w !! f = Some (Shift v true 0)
                                        /\ bv_ok v /\ bv_bits v = slice d a b) (w_slots w);
  sd_cover : forall j s, 0 <= j < i -> states !! Z.to_nat j = Some s ->
    (shifting s = true <-> covered (w_slots w) j \/ frontier w hw i <= j);
}.

Lemma covered_snoc slots f a b j :
  covered (slots ++ [(f, a, b)]) j <-> covered slots j \/ a <= j < b.
Proof.
  unfold covered. setoid_rewrite elem_of_app. setoid_rewrite list_elem_of_singleton. split.
  - intros (g & x & y & [Hin|[= -> -> ->]] & ?); [left; by exists g, x, y|by right].
  - intros [(g & x & y & ? & ?)|?]; [exists g, x, y; auto|exists f, a, b; auto].
Qed.

(** What [walk_edge] does to the slots and to the start of the shift. *)
Lemma walk_edge_slots (tdi : V) w i hw t :
  w_state w = collapse hw ->
  let w' := walk_edge tdi w i (collapse (tap_next hw t)) in
  (shifting hw = true -> t = true ->
     w_slots w' = w_slots w ++ [(length (w_posted w), default 0 (w_shift_start w), i + 1)]
     /\ w_posted w' = w_posted w ++ [Shift (bv_slice tdi (default 0 (w_shift_start w)) (i + 1)) true 0])
  /\ (shifting hw = false \/ t = false -> w_slots w' = w_slots w)
  /\ (shifting (tap_next hw t) = true ->
       w_shift_start w' = if shifting hw then w_shift_start w else Some (i + 1)).
Proof.
  intros Hst. destruct w as [st ir ss rs posted slots]. simpl in Hst. subst st.
  destruct hw as [| |[]|x|x|x|x|x|x], t; simpl tap_next; simpl collapse; unfold walk_edge; simpl;
    (split_and!; [| |]); intros; try done; try (by destruct rs as [r|]);
    try (destruct rs as [r|]; [|done]; by destruct (0 <? i - r)); naive_solver.
Qed.

Lemma walk_edge_slotted (tdi : V) states w i hw t p :
  bv_readable tdi -> 0 <= i < bv_len tdi -> walks w i hw p -> states !! Z.to_nat i = Some hw ->
  slotted (bv_bits tdi) states w i hw ->
  slotted (bv_bits tdi) states (walk_edge tdi w i (collapse (tap_next hw t))) (i + 1) (tap_next hw t).
Proof.
  intros Hd Hi Hw Hhw [Hord Hpost Hcov].
  destruct (walk_edge_ok tdi w i hw t p Hd Hi Hw) as (new & es & p' & Hposted & _ & _ & _).
  destruct (walk_edge_slots tdi w i hw t (proj1 Hw)) as (Hleave & Hkeep & Hstart).
  cbv zeta in *. set (w' := walk_edge _ _ _ _) in *. clearbody w'.
  assert (forall j s, 0 <= j < i + 1 -> states !! Z.to_nat j = Some s -> j = i /\ s = hw \/ 0 <= j < i)
    as Hlast.
  { intros j s Hj Hs. destruct (decide (j = i)) as [->|]; [left; split; congruence|right; lia]. }
  assert (shifting hw = true -> exists s, w_shift_start w = Some s /\ 0 <= s <= i) as Hopen.
  { destruct hw; try done. intros _. destruct Hw as [_ (_ & s & ? & ?)]. by exists s. }
  unfold frontier in *. destruct (shifting hw && t) eqn:Hout.
  - apply andb_true_iff in Hout as [Hsh ->]. destruct (Hleave Hsh eq_refl) as [Hsl Hpo].
    destruct (Hopen Hsh) as (s & Hss & Hs). rewrite Hss in *. simpl in *. rewrite Hsh in *.
    assert (shifting (tap_next hw true) = false) as Hn by (by destruct hw).
    destruct (bv_slice_read tdi s (i + 1) Hd) as [Hvok Hvb]; [lia..|].
    constructor; rewrite Hsl; unfold frontier; rewrite ?Hn.
    + eapply slots_upto_snoc; [done|lia..].
    + apply Forall_app. split.
      * eapply Forall_impl; [done|]. intros [[f a] b] (Ha & v & Hl & ?). split; [done|]. exists v. split; [|done].
        rewrite Hpo. by apply lookup_app_l_Some.
      * constructor; [|constructor]. split; [lia|]. exists (bv_slice tdi s (i + 1)). split_and!; try done.
        rewrite Hpo, lookup_app_r, Nat.sub_diag by lia. done.
    + intros j s' Hj Hs'. rewrite covered_snoc.
      destruct (Hlast j s' Hj Hs') as [[-> ->]|Hj']; [rewrite Hsh; split; [|done]; intros; left; right; lia|].
      rewrite (Hcov j s' Hj' Hs'). split; [intros [|]; [auto|left; right; lia]|].
      intros [[|]|]; [auto|right; lia|lia].
  - assert (w_slots w' = w_slots w) as Hsl
      by (apply Hkeep; destruct (shifting hw); [right; by destruct t|by left]).
    assert (Forall (fun '(f, a, b) => 0 <= a /\ exists v, w_posted w' !! f = Some (Shift v true 0)
              /\ bv_ok v /\ bv_bits v = slice (bv_bits tdi) a b) (w_slots w)) as Hpost'.
    { eapply Forall_impl; [done|]. intros [[f a] b] (Ha & v & Hl & ?). split; [done|]. exists v. split; [|done].
      rewrite Hposted. by apply lookup_app_l_Some. }
    destruct (shifting hw) eqn:Hsh.
    + destruct t; [done|]. assert (shifting (tap_next hw false) = true) as Hn by (by destruct hw).
      destruct (Hopen eq_refl) as (s & Hss & Hs).
      pose proof (Hstart Hn) as Hst'. rewrite Hss in *. simpl in *.
      constructor; rewrite Hsl; unfold frontier; rewrite ?Hn, ?Hst'; simpl; [done..|].
      intros j s' Hj Hs'. destruct (Hlast j s' Hj Hs') as [[-> ->]|Hj'];
        [rewrite Hsh; split; [intros; right; lia|done]|by apply Hcov].
    + constructor; rewrite Hsl; unfold frontier.
      * destruct (shifting (tap_next hw t)) eqn:Hn; [rewrite (Hstart eq_refl); simpl|];
          by eapply slots_upto_mono; [done|lia].
      * done.
      * intros j s' Hj Hs'.
        assert ((if shifting (tap_next hw t) then default 0 (w_shift_start w') else i + 1) = i + 1) as ->
          by (destruct (shifting (tap_next hw t)); [by rewrite (Hstart eq_refl)|done]).
        destruct (Hlast j s' Hj Hs') as [[-> ->]|Hj'].
        -- rewrite Hsh. split; [done|]. intros [(f & a & b & Hin & Hab)|]; [|lia].
           exfalso. clear -Hord Hin Hab. revert Hord. generalize 0 at 1.
           induction (w_slots w) as [|[[g x] y] l IH]; intros c; [by apply not_elem_of_nil in Hin|].
           simpl. intros (? & ? & Hl). apply elem_of_cons in Hin as [[= -> -> ->]|Hin];
             [apply slots_upto_end in Hl; lia|by eapply IH].
        -- rewrite (Hcov j s' Hj' Hs'). split; (intros [|]; [auto|lia]).
Qed.

(** *** The whole input *)

Lemma clock_states_lookup s tms k :
  (k < length tms)%nat -> clock_states s tms !! k = Some (tap_run s (take k tms)).
Proof.
  revert s k. induction tms as [|t tms IH]; intros s [|k] Hk; simpl in *; try lia; [done|].
  apply IH. lia.
Qed.

Lemma walk_loop (tms tdi : V) hw0 p0 w0 :
  bv_readable tms -> bv_readable tdi -> bv_len tms = bv_len tdi ->
  walks w0 0 hw0 p0 -> w_posted w0 = [] -> w_slots w0 = [] ->
  (shifting hw0 = true -> w_shift_start w0 = Some 0) ->
  forall k, 0 <= k -> k <= bv_len tms ->
  let hw := tap_run hw0 (take (Z.to_nat k) (bv_bits tms)) in
  exists w es p, foldM (walk_bit tms tdi) w0 (seqZ 0 k) = Ok w
    /\ transact_all p0 (w_posted w) = Some (es, p)
    /\ walks w k hw p
    /\ slotted (bv_bits tdi) (clock_states hw0 (bv_bits tms)) w k hw
    /\ pending (bv_bits tdi) w0 0 hw0 p0
         ++ visible (trace hw0 (take (Z.to_nat k) (zip (bv_bits tms) (bv_bits tdi))))
       = visible es ++ pending (bv_bits tdi) w k hw p.
Proof.
  intros Ht Hd Hlen Hw Hpo Hsl Hss. cbv zeta.
  pose proof (bv_len_read tms Ht) as Hlt. pose proof (bv_len_read tdi Hd) as Hld.
  refine (natlike_ind _ _ _).
  - intros _. exists w0, [], p0. rewrite !take_0, Hpo. simpl tap_run. split_and!; try done.
    + constructor; rewrite ?Hsl; [|constructor|lia]. simpl. unfold frontier.
      destruct (shifting hw0); [by rewrite Hss|done].
    + by rewrite app_nil_r.
  - intros k Hk IH Hkn. destruct IH as (w & es & p & Hf & Htx & Hwk & Hsk & Hpe); [lia|].
    change (Z.succ k) with (k + 1) in *. rewrite seqZ_snoc, foldM_app, Hf, bind_of_Ok by lia.
    destruct (lookup_lt_is_Some_2 (bv_bits tms) (Z.to_nat k)) as [t Htk]; [lia|].
    destruct (lookup_lt_is_Some_2 (bv_bits tdi) (Z.to_nat k)) as [b Hbk]; [lia|].
    set (hw := tap_run hw0 (take (Z.to_nat k) (bv_bits tms))) in *.
    assert (tap_run hw0 (take (Z.to_nat (k + 1)) (bv_bits tms)) = tap_next hw t) as Hhw'.
    { replace (Z.to_nat (k + 1)) with (S (Z.to_nat k)) by lia.
      rewrite (take_S_r _ _ t) by done. by rewrite tap_run_app. }
    assert (take (Z.to_nat (k + 1)) (zip (bv_bits tms) (bv_bits tdi))
            = take (Z.to_nat k) (zip (bv_bits tms) (bv_bits tdi)) ++ [(t, b)]) as Hzip.
    { replace (Z.to_nat (k + 1)) with (S (Z.to_nat k)) by lia. apply take_S_r.
      apply lookup_zip_with_Some. eauto. }
    assert (walk_bit tms tdi w k = Ok (walk_edge tdi w k (collapse (tap_next hw t)))) as Hbit.
    { unfold walk_bit. rewrite bv_get_read, (index_lookup _ _ t), bind_of_Ok by (done || lia).
      by rewrite (proj1 Hwk), next_state_collapse. }
    destruct (walk_edge_ok tdi w k hw t p Hd ltac:(lia) Hwk) as (new & es1 & p1 & Hpo1 & Htx1 & Hw1 & He1).
    exists (walk_edge tdi w k (collapse (tap_next hw t))), (es ++ es1), p1.
    rewrite Hhw'. cbn [foldM]. rewrite Z.add_0_l, Hbit. split_and!; [done| |done|..].
    + rewrite Hpo1. by eapply transact_all_app.
    + eapply walk_edge_slotted; try done; [lia|]. rewrite clock_states_lookup by lia. done.
    + rewrite Hzip, trace_app, visible_app, app_assoc, Hpe, visible_app.
      rewrite fmap_take, fst_zip by lia. fold hw. simpl trace. rewrite app_nil_r.
      rewrite Hbk in He1. simpl default in He1. by rewrite <- !app_assoc, He1.
Qed.

(** Between two calls: what the operations posted so far do not say. *)
Definition deferred (hw : tap_state) (p : phase) : list event :=
  match hw with
  | TestLogicReset | Select _ => leave p
  | Update x => [EUpdate x]
  | _ => []
  end.

Definition between_calls (hw : tap_state) (p : phase) : Prop :=
  match hw with
  | TestLogicReset => True
  | RunTestIdle => p = PIdle
  | Select _ => p <> PReset
  | Capture x | ShiftS x | Exit1 x | Pause x | Exit2 x | Update x => p = PScan x
  end.

Lemma walk_start_walks (hw : tap_state) (p : phase) in_ir :
  between_calls hw p ->
  let w := walk_start (V:=V) (collapse hw) in_ir in
  walks w 0 hw p /\ (forall d, pending d w 0 hw p = deferred hw p)
  /\ (shifting hw = true -> w_shift_start w = Some 0).
Proof.
  destruct hw as [| |[]|x|x|x|x|x|x]; simpl; intros Hp; (split_and!; [split; [done|]| |]);
    try done; try (by subst p); try (intros d; by rewrite slice_empty by lia).
  - by exists 0.
  - split; [done|]. by exists 0.
Qed.

(** The slots a call ends with. *)
Record slots_final (d : list bool) (states : list tap_state) (w : walker V) (n : Z) : Prop := {
  sf_order : slots_upto 0 (w_slots w) n;
  sf_posted : Forall (fun '(f, a, b) => 0 <= a /\ exists v, w_posted w !! f = Some (Shift v true 0)
                                        /\ bv_ok v /\ bv_bits v = slice d a b) (w_slots w);
  sf_cover : forall j s, 0 <= j < n -> states !! Z.to_nat j = Some s ->
    (shifting s = true <-> covered (w_slots w) j);
}.

Lemma slotted_final d states w n hw :
  slotted d states w n hw -> frontier w hw n = n -> slots_final d states w n.
Proof.
  intros [Hord Hpost Hcov] Hf. rewrite Hf in *. constructor; [done..|].
  intros j s Hj Hs. rewrite (Hcov j s Hj Hs). split; [|auto]. intros [|]; [done|lia].
Qed.

Lemma slots_final_post d states w n o : slots_final d states w n -> slots_final d states (post w o) n.
Proof.
  intros [Hord Hpost Hcov]. constructor; [done| |done].
  eapply Forall_impl; [done|]. intros [[f a] b] (? & v & Hl & ?). split; [done|]. exists v.
  split; [|done]. simpl. by apply lookup_app_l_Some.
Qed.

Lemma walk_end_eq (tdi : V) n w :
  walk_end tdi n w =
    if w_state w =? SHIFT then
      match w_shift_start w with Some s => if s <? n then post_shift w tdi n else w | None => w end
    else if w_state w =? RTI then
      match w_run_start w with Some r => if r <? n then post w (Run (n - r)) else w | None => w end
    else w.
Proof.
  destruct w as [st ir ss rs posted slots]. unfold walk_end. simpl.
  destruct (Z.eqb_spec st SHIFT) as [->|]; simpl.
  - destruct ss as [s|]; [destruct (s <? n)|]; by destruct rs.
  - destruct ss as [s|]; simpl; (destruct rs; [|by destruct (st =? RTI)]); by destruct (st =? RTI).
Qed.

(** The end of the input inside a shift. *)
Lemma walk_end_shift (tdi : V) states n w x p :
  bv_readable tdi -> bv_len tdi = n -> walks w n (ShiftS x) p ->
  slotted (bv_bits tdi) states w n (ShiftS x) ->
  exists new es, w_posted (walk_end tdi n w) = w_posted w ++ new
    /\ transact_all p new = Some (es, PScan x)
    /\ pending (bv_bits tdi) w n (ShiftS x) p = visible es
    /\ slots_final (bv_bits tdi) states (walk_end tdi n w) n.
Proof.
  intros Hd Hlen [Hst (-> & s & Hss & Hs)] Hsd. rewrite walk_end_eq, Hst. simpl. rewrite Hss. simpl.
  destruct (Z.ltb_spec s n) as [Hsn|Hsn].
  - destruct (bv_slice_read tdi s n Hd) as [Hok Hb]; [lia..|].
    unfold post_shift. rewrite Hss. simpl.
    exists [Shift (bv_slice tdi s n) true 0], (EShift x <$> bv_bits (bv_slice tdi s n)).
    split; [done|]. simpl. rewrite app_nil_r, visible_shift, Hb. split_and!; [done..|].
    destruct Hsd as [Hord Hpost Hcov]. unfold frontier in *. simpl in *. rewrite Hss in *. simpl in *.
    constructor; simpl.
    + eapply slots_upto_snoc; [done|lia..].
    + apply Forall_app. split.
      * eapply Forall_impl; [done|]. intros [[f a] b] (? & v & Hl & ?). split; [done|]. exists v.
        split; [|done]. by apply lookup_app_l_Some.
      * constructor; [|constructor]. split; [lia|]. exists (bv_slice tdi s n). split_and!; try done.
        by rewrite lookup_app_r, Nat.sub_diag by lia.
    + intros j st Hj Hjs. rewrite covered_snoc, (Hcov j st Hj Hjs).
      split; (intros [|]; [auto|right; lia]).
  - exists [], []. rewrite app_nil_r. assert (s = n) as -> by lia. split_and!; try done.
    + by rewrite slice_empty by lia.
    + eapply slotted_final; [done|]. unfold frontier. simpl. by rewrite Hss.
Qed.

(** The end of the input: afterwards the walker is between calls. *)
Lemma walk_end_ok (tdi : V) states n w hw p :
  bv_readable tdi -> bv_len tdi = n -> walks w n hw p -> slotted (bv_bits tdi) states w n hw ->
  exists new es p', w_posted (walk_end tdi n w) = w_posted w ++ new
    /\ transact_all p new = Some (es, p') /\ between_calls hw p'
    /\ w_state (walk_end tdi n w) = collapse hw
    /\ pending (bv_bits tdi) w n hw p = visible es ++ deferred hw p'
    /\ slots_final (bv_bits tdi) states (walk_end tdi n w) n.
Proof.
  intros Hd Hlen Hw Hsd. destruct hw as [| |y|x|x|x|x|x|x] eqn:Ehw.
  2:{ pose proof (slotted_final _ _ _ _ _ Hsd eq_refl) as Hfin.
      destruct Hw as [Hst (r & Hrs & Hr & Hp)]. rewrite walk_end_eq, Hst. simpl. rewrite Hrs.
      destruct (Z.ltb_spec r n).
      - exists [Run (n - r)], (transact_run p (n - r)).1, PIdle.
        split_and!; try done; [| |by apply slots_final_post].
        + simpl. rewrite app_nil_r. destruct p; try done. by rewrite (proj2 (Z.eqb_neq _ 0)) by lia.
        + rewrite visible_run. simpl. by rewrite app_nil_r.
      - exists [], [], p. rewrite app_nil_r. assert (p = PIdle) as -> by (apply Hp; lia).
        split_and!; try done. simpl. by replace (n - r) with 0 by lia. }
  4:{ destruct (walk_end_shift tdi states n w x p Hd Hlen Hw Hsd) as (new & es & ? & ? & ? & ?).
      exists new, es, (PScan x). rewrite app_nil_r. split_and!; try done.
      rewrite walk_end_eq. destruct Hw as [Hst _]. rewrite Hst. simpl.
      destruct (w_shift_start w); [|exact Hst]. destruct (_ <? _); exact Hst. }
  all: pose proof (slotted_final _ _ _ _ _ Hsd eq_refl) as Hfin; destruct Hw as [Hst Hp];
    assert (walk_end tdi n w = w) as -> by (rewrite walk_end_eq, Hst; by try destruct y);
    exists [], [], p; rewrite app_nil_r; by split_and!; try subst p.
Qed.

(** *** Reassembling TDO *)

(** The expected output, from position [c] on. *)
Fixpoint tdo_layout (results : nat -> V) (n c : Z) (slots : list (nat * Z * Z)) : list bool :=
  match slots with
  | [] => replicate (Z.to_nat (n - c)) false
  | (f, a, b) :: rest =>
      replicate (Z.to_nat (a - c)) false ++ bv_bits (results f) ++ tdo_layout results n b rest
  end.

Definition answers_ok (results : nat -> V) (slots : list (nat * Z * Z)) : Prop :=
  Forall (fun '(f, a, b) => bv_ok (results f) /\ zlen (bv_bits (results f)) = b - a) slots.

(** [tdo += BitString(0, k)] when [k] is positive. *)
Lemma pad_spec (acc : A) k :
  bv_acc_ok acc ->
  exists acc', (if 0 <? k then pad ← bv_of_int (V:=V) 0 k; bv_iadd acc pad else Ok acc) = Ok acc'
    /\ bv_acc_ok acc' /\ bv_bits (bv_val acc') = bv_bits (bv_val acc) ++ replicate (Z.to_nat k) false.
Proof.
  intros Ha. destruct (Z.ltb_spec 0 k) as [Hk|Hk].
  - destruct (bv_of_int_law 0 k) as (pad & -> & Hp & Hbp); [lia|]. rewrite bind_of_Ok.
    destruct (bv_iadd_law acc pad Ha Hp) as (acc' & ? & ? & Hb).
    exists acc'. split_and!; [done..|]. by rewrite Hb, Hbp, bits_of_zero.
  - exists acc. replace (Z.to_nat k) with 0%nat by lia. by rewrite app_nil_r.
Qed.

Lemma ltb_sub a b : (a <? b) = (0 <? b - a).
Proof. destruct (Z.ltb_spec a b), (Z.ltb_spec 0 (b - a)); lia || done. Qed.

Lemma reassemble_loop results n slots : forall (acc : A) c,
  bv_acc_ok acc -> slots_upto c slots n -> answers_ok results slots ->
  exists acc' c', foldM (fun '(tdo, cursor) '(fut, start, stop) =>
          tdo ← (if cursor <? start
                 then pad ← bv_of_int 0 (start - cursor); bv_iadd tdo pad else Ok tdo);
          tdo ← bv_iadd tdo (results fut);
          Ok (tdo, stop)) (acc, c) slots = Ok (acc', c')
    /\ bv_acc_ok acc'
    /\ bv_bits (bv_val acc') ++ replicate (Z.to_nat (n - c')) false
       = bv_bits (bv_val acc) ++ tdo_layout results n c slots.
Proof.
  induction slots as [|[[f a] b] slots IH]; intros acc c Ha Hs Hr.
  { exists acc, c. by split_and!. }
  destruct Hs as (Hca & Hab & Hrest). apply Forall_cons in Hr as [[Hok Hl] Hr].
  cbn [foldM]. rewrite ltb_sub.
  destruct (pad_spec acc (a - c) Ha) as (acc1 & -> & Ha1 & Hb1). rewrite bind_of_Ok.
  destruct (bv_iadd_law acc1 _ Ha1 Hok) as (acc2 & -> & Ha2 & Hb2). rewrite !bind_of_Ok.
  destruct (IH acc2 b Ha2 Hrest Hr) as (acc' & c' & Hf & Ha' & Hb'). exists acc', c'.
  split_and!; [done..|]. rewrite Hb', Hb2, Hb1, <- !app_assoc. done.
Qed.

Lemma reassemble_spec results n slots :
  0 <= n -> slots_upto 0 slots n -> answers_ok results slots ->
  exists tdo, reassemble results n slots = Ok tdo /\ bv_ok tdo
    /\ bv_bits tdo = tdo_layout results n 0 slots.
Proof.
  intros Hn Hs Hr. destruct bv_new_law as [Hnew Hnb]. unfold reassemble.
  destruct slots as [|slot slots].
  { destruct (bv_of_int_law 0 n Hn) as (b & -> & Hok & Hb). exists b. split_and!; [done..|].
    simpl. by rewrite Hb, bits_of_zero, Z.sub_0_r. }
  destruct (reassemble_loop results n (slot :: slots) bv_new 0 Hnew Hs Hr) as (acc & c & -> & Ha & Hb).
  rewrite bind_of_Ok, ltb_sub.
  destruct (pad_spec acc (n - c) Ha) as (acc' & -> & Ha' & Hb'). rewrite bind_of_Ok.
  eexists. split_and!; [done|by apply bv_val_law|]. by rewrite Hb', Hb, Hnb.
Qed.

Lemma tdo_layout_spec results n slots : forall c,
  0 <= c -> slots_upto c slots n -> answers_ok results slots ->
  zlen (tdo_layout results n c slots) = n - c
  /\ Forall (fun '(f, a, b) => slice (tdo_layout results n c slots) (a - c) (b - c) = bv_bits (results f)) slots
  /\ forall j, c <= j < n -> ~ covered slots j ->
       tdo_layout results n c slots !! Z.to_nat (j - c) = Some false.
Proof.
  induction slots as [|[[f a] b] slots IH]; intros c Hc Hs Hr; simpl in Hs.
  { simpl. rewrite length_replicate. split_and!; [lia|done|]. intros j Hj _.
    apply lookup_replicate_2. lia. }
  destruct Hs as (Hca & Hab & Hrest). apply Forall_cons in Hr as [[Hok Hl] Hr].
  pose proof (slots_upto_end _ _ _ Hrest) as Hbn.
  destruct (IH b ltac:(lia) Hrest Hr) as (Hlen & Hsl & Hgap). cbn [tdo_layout].
  set (rest := tdo_layout results n b slots) in *.
  split_and!.
  - rewrite !length_app, length_replicate. lia.
  - constructor.
    + apply slice_app_mid; rewrite ?length_replicate; lia.
    + assert (Forall (fun '(_, x, y) => b <= x /\ x <= y) slots) as Hge.
      { clear -Hrest. revert b Hrest. induction slots as [|[[g x] y] slots IH]; intros b; simpl; [done|].
        intros (? & ? & Hr). constructor; [done|]. apply IH in Hr. eapply Forall_impl; [done|].
        intros [[? ?] ?]; lia. }
      apply Forall_forall. intros [[g x] y] Hin. rewrite Forall_forall in Hsl, Hge.
      specialize (Hsl _ Hin). specialize (Hge _ Hin). simpl in Hsl, Hge. rewrite <- Hsl.
      rewrite app_assoc, !slice_nonneg by lia.
      rewrite drop_app_ge by (rewrite length_app, length_replicate; lia).
      rewrite length_app, length_replicate. f_equal; [lia|]. f_equal. lia.
  - intros j Hj Hn.
    assert (~ a <= j < b) as Hab' by (intros ?; apply Hn; exists f, a, b; split; [left|done]).
    destruct (decide (j < a)).
    + rewrite lookup_app_l by (rewrite length_replicate; lia). apply lookup_replicate_2. lia.
    + rewrite lookup_app_r by (rewrite length_replicate; lia).
      rewrite lookup_app_r by (rewrite length_replicate; lia). rewrite length_replicate.
      replace (_ - length (bv_bits (results f)))%nat with (Z.to_nat (j - b)) by lia.
      apply Hgap; [lia|]. intros (g & x & y & ? & ?). apply Hn. exists g, x, y. split; [by right|done].
Qed.

Lemma slots_upto_bounds c slots m :
  slots_upto c slots m -> Forall (fun '(_, a, b) => c <= a <= b /\ b <= m) slots.
Proof.
  revert c. induction slots as [|[[f a] b] slots IH]; intros c; simpl; [done|].
  intros (? & ? & Hr). pose proof (slots_upto_end _ _ _ Hr). constructor; [lia|].
  eapply Forall_impl; [by apply IH|]. intros [[? ?] ?]; lia.
Qed.

(** What the interface promises: a shift is answered by a vector of its own
    length. *)
Definition answers_shifts (answer : list (op V) -> nat -> V) : Prop :=
  forall posted f v, posted !! f = Some (Shift v true 0) -> bv_ok v ->
    bv_ok (answer posted f) /\ zlen (bv_bits (answer posted f)) = zlen (bv_bits v).

(** What a call of [process] returns and leaves behind. *)
Record processed (answer : list (op V) -> nat -> V) (hw : tap_state) (p : phase) (tms tdi : V)
    (w : walker V) (tdo : V) (es : list event) (p' : phase) : Prop := {
  pr_state : w_state w = collapse (tap_run hw (bv_bits tms));
  pr_between : between_calls (tap_run hw (bv_bits tms)) p';
  pr_posted : transact_all p (w_posted w) = Some (es, p');
  pr_events : deferred hw p ++ visible (trace hw (zip (bv_bits tms) (bv_bits tdi)))
              = visible es ++ deferred (tap_run hw (bv_bits tms)) p';
  pr_tdo : bv_ok tdo;
  pr_length : zlen (bv_bits tdo) = bv_len tms;
  pr_shifts : Forall (fun '(f, a, b) => exists v,
      w_posted w !! f = Some (Shift v true 0) /\ bv_bits v = slice (bv_bits tdi) a b
      /\ slice (bv_bits tdo) a b = bv_bits (answer (w_posted w) f)) (w_slots w);
  pr_clocks : forall j s, 0 <= j < bv_len tms ->
    clock_states hw (bv_bits tms) !! Z.to_nat j = Some s ->
    if shifting s then covered (w_slots w) j else bv_bits tdo !! Z.to_nat j = Some false;
}.

Lemma process_spec answer hw p in_ir (tms tdi : V) :
  answers_shifts answer -> between_calls hw p ->
  bv_readable tms -> bv_readable tdi -> bv_len tms = bv_len tdi ->
  exists w tdo es p', process (A:=A) answer (collapse hw) in_ir tms tdi = Ok (w, tdo)
    /\ processed answer hw p tms tdi w tdo es p'.
Proof.
  intros Hans Hp Ht Hd Hlen. pose proof (bv_len_read tms Ht) as Hlt. pose proof (bv_len_read tdi Hd) as Hld.
  unfold process. rewrite Hlen, Z.eqb_refl. simpl negb. cbv iota.
  destruct (walk_start_walks hw p in_ir Hp) as (Hw0 & Hpe0 & Hss0).
  destruct (Z.eqb_spec (bv_len tdi) 0) as [Hz|Hz].
  { destruct bv_new_law as [Hna Hnb]. eexists _, _, [], p. split; [done|].
    assert (bv_bits tms = []) as Hnil by (apply length_zero_iff_nil; lia).
    constructor; simpl; rewrite ?Hnil, ?Hnb; try done; [by rewrite app_nil_r|by apply bv_val_law|].
    change (zlen []) with 0. lia. }
  destruct (walk_loop tms tdi hw p (walk_start (collapse hw) in_ir) Ht Hd Hlen Hw0 eq_refl eq_refl Hss0
              (bv_len tdi)) as (w & es & p1 & Hf & Htx & Hw & Hsd & Hev); [lia..|].
  rewrite !take_ge, Hpe0 in Hev by (rewrite ?length_zip_with; lia).
  rewrite take_ge in Hw, Hsd by lia.
  destruct (walk_end_ok tdi _ _ w _ p1 Hd eq_refl Hw Hsd)
    as (new & es2 & p2 & Hpo & Htx2 & Hbt & Hst & Hpend & [Hord Hpost Hcov]).
  rewrite Hf, bind_of_Ok. cbv zeta. set (w' := walk_end tdi (bv_len tdi) w) in *.
  assert (answers_ok (answer (w_posted w')) (w_slots w')) as Hans'.
  { pose proof (slots_upto_bounds _ _ _ Hord) as Hb. unfold answers_ok. rewrite Forall_forall in *.
    intros [[f a] b] Hin. destruct (Hpost _ Hin) as (_ & v & Hv & Hvok & Hvb).
    destruct (Hans _ f v Hv Hvok) as [Hok Hl]. split; [done|]. specialize (Hb _ Hin). simpl in Hb.
    rewrite Hl, Hvb, length_slice by lia. lia. }
  destruct (reassemble_spec (answer (w_posted w')) (bv_len tdi) (w_slots w')) as (tdo & -> & Htok & Htdo);
    [lia|done..|].
  destruct (tdo_layout_spec (answer (w_posted w')) (bv_len tdi) (w_slots w') 0) as (Hl & Hsl & Hgap);
    [lia|done..|]. rewrite <- Htdo in Hl, Hsl, Hgap.
  exists w', tdo, (es ++ es2), p2. split; [done|]. constructor; try done.
  - rewrite Hpo. by eapply transact_all_app.
  - by rewrite Hev, Hpend, visible_app, <- app_assoc.
  - lia.
  - rewrite Forall_forall in *. intros [[f a] b] Hin.
    destruct (Hpost _ Hin) as (_ & v & Hv & Hvok & Hvb). exists v. split_and!; try done.
    specialize (Hsl _ Hin). simpl in Hsl. by rewrite !Z.sub_0_r in Hsl.
  - intros j s Hj Hs. pose proof (Hcov j s ltac:(lia) Hs) as Hc. destruct (shifting s); [by apply Hc|].
    rewrite <- (Z.sub_0_r j). apply Hgap; [lia|]. intros ?%Hc. done.
Qed.
End WalkerProofs.

(** ** Properties *)

(** The walker's ten-state transition table is the IEEE 1149.1 controller
    with its DR and IR columns merged: following it bit by bit tracks the
    controller on every TMS stream, from every state. *)
Theorem next_state_table_tracks_controller s tms :
  foldM (fun st t => next_state t st) (collapse s) tms = Ok (collapse (tap_run s tms)).
Proof.
  revert s. induction tms as [|t tms IH]; intros s; [done|]. cbn [foldM].
  rewrite next_state_collapse, bind_of_Ok. apply IH.
Qed.

Section WalkerTheorems.
Context {A V : Type} `{BitVecLaws A V}.


(** How the remote side cuts the clock stream into requests does not
    matter: two successive calls post operations with the same effect as
    the concatenated stream. *)
Theorem process_chunking answer hw p in_ir (tms1 tdi1 tms2 tdi2 : V) :
  answers_shifts answer -> between_calls hw p ->
  bv_readable tms1 -> bv_readable tdi1 -> bv_len tms1 = bv_len tdi1 ->
  bv_readable tms2 -> bv_readable tdi2 -> bv_len tms2 = bv_len tdi2 ->
  exists w1 tdo1 w2 tdo2 es p',
    process (A:=A) answer (collapse hw) in_ir tms1 tdi1 = Ok (w1, tdo1)
    /\ process (A:=A) answer (w_state w1) (w_in_ir w1) tms2 tdi2 = Ok (w2, tdo2)
    /\ transact_all p (w_posted w1 ++ w_posted w2) = Some (es, p')
    /\ deferred hw p ++ visible (trace hw (zip (bv_bits tms1 ++ bv_bits tms2) (bv_bits tdi1 ++ bv_bits tdi2)))
       = visible es ++ deferred (tap_run hw (bv_bits tms1 ++ bv_bits tms2)) p'
    /\ w_state w2 = collapse (tap_run hw (bv_bits tms1 ++ bv_bits tms2)).
Proof.
  intros Ha Hb Ht1 Hd1 Hl1 Ht2 Hd2 Hl2.
  destruct (process_spec answer hw p in_ir tms1 tdi1 Ha Hb Ht1 Hd1 Hl1)
    as (w1 & tdo1 & es1 & p1 & Hp1 & [S1 B1 T1 E1 _ _ _ _]).
  destruct (process_spec answer _ p1 (w_in_ir w1) tms2 tdi2 Ha B1 Ht2 Hd2 Hl2)
    as (w2 & tdo2 & es2 & p2 & Hp2 & [S2 B2 T2 E2 _ _ _ _]).
  pose proof (bv_len_read _ Ht1). pose proof (bv_len_read _ Hd1).
  exists w1, tdo1, w2, tdo2, (es1 ++ es2), p2. rewrite S1. split_and!; try done.
  - by eapply transact_all_app.
  - rewrite (zip_with_app pair) by lia. rewrite trace_app, fst_zip by lia.
    rewrite tap_run_app, !visible_app, app_assoc, E1, <- !app_assoc. f_equal. exact E2.
  - by rewrite tap_run_app.
Qed.
End WalkerTheorems.

(** An interface that answers every shift with its own bits. *)
Definition echo (posted : list (op (list bool))) (f : nat) : list bool :=
  match posted !! f with Some (Shift v _ _) => v | _ => [] end.

Lemma echo_answers : answers_shifts (A:=list bool) echo.
Proof. intros posted f v Hv _. unfold echo. rewrite Hv. done. Qed.


Lemma process_chunking_witness :
  exists w1 tdo1 w2 tdo2,
    process (A:=list bool) echo (collapse RunTestIdle) false
      [true; false; false; false] [false; false; false; true] = Ok (w1, tdo1)
    /\ process (A:=list bool) echo (w_state w1) (w_in_ir w1) [true; true] [true; false] = Ok (w2, tdo2)
    /\ w_state w2 = collapse (Update DR).
Proof.
  destruct (process_chunking (A:=list bool) echo RunTestIdle PIdle false
    [true; false; false; false] [false; false; false; true] [true; true] [true; false]
    echo_answers eq_refl I I eq_refl I I eq_refl)
    as (w1 & tdo1 & w2 & tdo2 & es & p' & H1 & H2 & _ & _ & Hs).
  by exists w1, tdo1, w2, tdo2.
Defined.
