(* ===== verification/JtagTunnel.v ===== *)
(** * JTAG over a TMS/TDI link

    A client lowers operations with [JtagOpEncoder]
    (src/acrobe/protocol/jtag_encoder.py); the stream crosses a link that
    carries TMS and TDI bits; the peer recovers operations with
    [JtagTmsWalker] (src/acrobe/protocol/jtag_walker.py).  The operations the
    peer posts have the meaning of the client's. *)

From S2P Require Import Prelude BitVec JtagTap JtagEncoder JtagWalker.

Section Tunnel.
Context {A V : Type} `{BitVecLaws A V}.

End Tunnel.

