(* ===== verification/JtagChain.v ===== *)
(** * The JTAG chain (src/acrobe/protocol/jtag.py, class [Chain])

    A chain keeps, for every TAP it knows, a context with the TAP's place in
    the scan chain (bits before and after it on the IR and the DR path), a
    cache of the instruction it holds, and the links between controller TAPs
    and the TAPs they gate.  TAP objects are named by numbers here.

    Modelled: geometry on insertion, reattachment, detachment and removal;
    controller links; identity matching and the rebuild after a reset; the
    decoding half of the blind probe; the translation of TAP operations to
    bit-level operations with the elision of instruction shifts. *)

From S2P Require Import Prelude BitVec JtagTap.

(** ** State *)

(** [ChainContext], with the attributes of its [Tap] that the chain reads. *)
Record ctx : Type := mkCtx {
  x_irlen : Z;                    (* tap.irlen *)
  x_idcode : option Z;            (* tap.idcode *)
  x_ir_pre : Z;
  x_ir_post : Z;
  x_dr_pre : Z;
  x_dr_post : Z;
  x_current_ir : option Z;
  x_enabled : bool;
  x_controller : option nat;
  x_gated : list nat;
}.

Record chain : Type := mkChain {
  c_contexts : gmap nat ctx;      (* self.contexts *)
  c_total_irlen : Z;
  c_total_drlen : Z;
  c_children : list nat;          (* self.children *)
}.

Definition chain_init : chain := mkChain ∅ 0 0 [].

Definition with_ir (x : ctx) (pre post : Z) (dpre dpost : Z) : ctx :=
  mkCtx (x_irlen x) (x_idcode x) pre post dpre dpost (x_current_ir x) (x_enabled x)
    (x_controller x) (x_gated x).
Definition with_enabled (x : ctx) (b : bool) : ctx :=
  mkCtx (x_irlen x) (x_idcode x) (x_ir_pre x) (x_ir_post x) (x_dr_pre x) (x_dr_post x)
    (x_current_ir x) b (x_controller x) (x_gated x).
Definition with_current_ir (x : ctx) (v : option Z) : ctx :=
  mkCtx (x_irlen x) (x_idcode x) (x_ir_pre x) (x_ir_post x) (x_dr_pre x) (x_dr_post x)
    v (x_enabled x) (x_controller x) (x_gated x).
Definition with_controller (x : ctx) (k : option nat) : ctx :=
  mkCtx (x_irlen x) (x_idcode x) (x_ir_pre x) (x_ir_post x) (x_dr_pre x) (x_dr_post x)
    (x_current_ir x) (x_enabled x) k (x_gated x).
Definition with_gated (x : ctx) (l : list nat) : ctx :=
  mkCtx (x_irlen x) (x_idcode x) (x_ir_pre x) (x_ir_post x) (x_dr_pre x) (x_dr_post x)
    (x_current_ir x) (x_enabled x) (x_controller x) l.

Definition with_contexts (c : chain) (m : gmap nat ctx) : chain :=
  mkChain m (c_total_irlen c) (c_total_drlen c) (c_children c).

(** ** Geometry *)

(** [__apply_insertion_geometry], [tap]'s context being in the chain with
    its [ir_pre] and [dr_pre]. *)
Definition shift_for_insertion (ir_pre irlen : Z) (o : ctx) : ctx :=
  if x_ir_pre o <? ir_pre
  then with_ir o (x_ir_pre o) (x_ir_post o + irlen) (x_dr_pre o) (x_dr_post o + 1)
  else with_ir o (x_ir_pre o + irlen) (x_ir_post o) (x_dr_pre o + 1) (x_dr_post o).

Definition apply_insertion_geometry (c : chain) (tap : nat) (x : ctx) (irlen : Z) : chain :=
  let ir_pre := x_ir_pre x in
  let total_ir := c_total_irlen c + irlen in
  let total_dr := c_total_drlen c + 1 in
  let x' := with_ir x ir_pre (total_ir - ir_pre - irlen) (x_dr_pre x) (total_dr - x_dr_pre x - 1) in
  let m := map_imap (fun other o =>
      Some (if bool_decide (other = tap) || negb (x_enabled o) then o
            else shift_for_insertion ir_pre irlen o)) (c_contexts c) in
  mkChain (<[tap := x']> m) total_ir total_dr (c_children c).

(** [__apply_removal_geometry] *)
Definition shift_for_removal (ir_pre irlen : Z) (o : ctx) : ctx :=
  if ir_pre <? x_ir_pre o
  then with_ir o (x_ir_pre o - irlen) (x_ir_post o) (x_dr_pre o - 1) (x_dr_post o)
  else with_ir o (x_ir_pre o) (x_ir_post o - irlen) (x_dr_pre o) (x_dr_post o - 1).

Definition apply_removal_geometry (c : chain) (tap : nat) (x : ctx) (irlen : Z) : chain :=
  let ir_pre := x_ir_pre x in
  let m := map_imap (fun other o =>
      Some (if bool_decide (other = tap) || negb (x_enabled o) then o
            else shift_for_removal ir_pre irlen o)) (c_contexts c) in
  mkChain m (c_total_irlen c - irlen) (c_total_drlen c - 1) (c_children c).

(** ** Controllers *)

(** [list.remove]: the first occurrence. *)
Fixpoint remove_first (t : nat) (l : list nat) : list nat :=
  match l with
  | [] => []
  | u :: l => if bool_decide (u = t) then l else u :: remove_first t l
  end.

(** [__clear_controller] *)
Definition clear_controller (c : chain) (tap : nat) : chain :=
  match c_contexts c !! tap with
  | None => c
  | Some x =>
      match x_controller x with
      | None => c
      | Some k =>
          let m := match c_contexts c !! k with
                   | Some kx => if bool_decide (tap ∈ x_gated kx)
                                then <[k := with_gated kx (remove_first tap (x_gated kx))]> (c_contexts c)
                                else c_contexts c
                   | None => c_contexts c
                   end in
          with_contexts c (alter (fun x => with_controller x None) tap m)
      end
  end.

(** [__set_controller] *)
Definition set_controller (c : chain) (tap : nat) (controller : option nat) : result chain :=
  let c := clear_controller c tap in
  match controller with
  | None => Ok c
  | Some k =>
      let m := alter (fun x => with_controller x (Some k)) tap (c_contexts c) in
      match m !! k with
      | None => Err RuntimeError
      | Some kx =>
          Ok (with_contexts c
                (if bool_decide (tap ∈ x_gated kx) then m
                 else <[k := with_gated kx (x_gated kx ++ [tap])]> m))
      end
  end.

(** ** TAP registration *)

(** [tap_insert], [tap] being the object [Tap.db] or [base] made. *)
Definition tap_insert (c : chain) (tap : nat) (idcode : option Z) (irlen ir_pre dr_pre : Z)
    (controller : option nat) : result chain :=
  let x := mkCtx irlen idcode ir_pre 0 dr_pre 0 None true controller [] in
  let c := with_contexts c (<[tap := x]> (c_contexts c)) in
  let c := apply_insertion_geometry c tap x irlen in
  c ← set_controller c tap controller;
  Ok (mkChain (c_contexts c) (c_total_irlen c) (c_total_drlen c) (c_children c ++ [tap])).

(** [tap_add] *)
Definition tap_add (c : chain) (tap : nat) (idcode : option Z) (irlen : Z)
    (ir_pre dr_pre : option Z) : result chain :=
  tap_insert c tap idcode irlen (default (c_total_irlen c) ir_pre)
    (default (c_total_drlen c) dr_pre) None.

(** [tap_reattach] *)
Definition tap_reattach (c : chain) (tap : nat) (ir_pre dr_pre : Z) (controller : option nat)
  : result chain :=
  match c_contexts c !! tap with
  | None => Err RuntimeError
  | Some x =>
      if x_enabled x then Err RuntimeError
      else
        let x := with_enabled (with_ir x ir_pre 0 dr_pre 0) true in
        let c := with_contexts c (<[tap := x]> (c_contexts c)) in
        let c := apply_insertion_geometry c tap x (x_irlen x) in
        set_controller c tap controller
  end.

(** [tap_detach] *)
Definition tap_detach (c : chain) (tap : nat) : result chain :=
  match c_contexts c !! tap with
  | None => Err RuntimeError
  | Some x =>
      if negb (x_enabled x) then Ok c
      else
        let c := apply_removal_geometry c tap x (x_irlen x) in
        Ok (with_contexts c
              (alter (fun x => with_current_ir (with_enabled x false) None) tap (c_contexts c)))
  end.

(** [tap_remove]; [child_remove] drops the TAP from the children. *)
Definition tap_remove (c : chain) (tap : nat) : result chain :=
  match c_contexts c !! tap with
  | None => Err KeyError
  | Some x =>
      let popped := with_contexts c (delete tap (c_contexts c)) in
      let c1 := if x_enabled x then apply_removal_geometry popped tap x (x_irlen x) else popped in
      (* self.__clear_controller(ctx): the popped context's own link *)
      let m := match x_controller x with
               | Some k =>
                   match c_contexts c1 !! k with
                   | Some kx => if bool_decide (tap ∈ x_gated kx)
                                then <[k := with_gated kx (remove_first tap (x_gated kx))]> (c_contexts c1)
                                else c_contexts c1
                   | None => c_contexts c1
                   end
               | None => c_contexts c1
               end in
      let m := foldl (fun m g => alter (fun gx => with_controller gx None) g m) m (x_gated x) in
      Ok (mkChain m (c_total_irlen c1) (c_total_drlen c1) (remove_first tap (c_children c1)))
  end.

(** [tap_set_controller] *)
Definition tap_set_controller (c : chain) (tap : nat) (controller : option nat) : result chain :=
  match c_contexts c !! tap with
  | None => Err RuntimeError
  | Some _ => set_controller c tap controller
  end.

(** ** The abstract chain

    The scan chain is a list of TAPs, the one next to TDO first.  [geo c
    order] says that the contexts of [c] describe [order]: who is in the
    chain, and how many bits lie before and after each TAP. *)

Definition zsum (l : list Z) : Z := foldr Z.add 0 l.

Definition irl (m : gmap nat ctx) (t : nat) : Z := default 0 (x_irlen <$> m !! t).
Definition irs (m : gmap nat ctx) (l : list nat) : Z := zsum (irl m <$> l).

Definition placed (m : gmap nat ctx) (order : list nat) (t : nat) (x : ctx) : Prop :=
  exists before after, order = before ++ t :: after
    /\ x_ir_pre x = irs m before /\ x_ir_post x = irs m after
    /\ x_dr_pre x = zlen before /\ x_dr_post x = zlen after.

Record geo (c : chain) (order : list nat) : Prop := {
  geo_nodup : NoDup order;
  geo_members : forall t, t ∈ order <-> exists x, c_contexts c !! t = Some x /\ x_enabled x = true;
  geo_irlen : forall t x, c_contexts c !! t = Some x -> 0 < x_irlen x;
  geo_total_ir : c_total_irlen c = irs (c_contexts c) order;
  geo_total_dr : c_total_drlen c = zlen order;
  geo_placed : forall t x, t ∈ order -> c_contexts c !! t = Some x -> placed (c_contexts c) order t x;
}.

Lemma zsum_app l1 l2 : zsum (l1 ++ l2) = zsum l1 + zsum l2.
Proof. unfold zsum. induction l1; simpl; lia. Qed.

Lemma irs_app m l1 l2 : irs m (l1 ++ l2) = irs m l1 + irs m l2.
Proof. unfold irs. by rewrite fmap_app, zsum_app. Qed.

Lemma irs_cons m t l : irs m (t :: l) = irl m t + irs m l.
Proof. done. Qed.

Lemma irs_ext m m' l : (forall t, t ∈ l -> irl m t = irl m' t) -> irs m l = irs m' l.
Proof.
  intros Heq. unfold irs. f_equal. apply list_fmap_ext. intros i t Hi. apply Heq.
  by eapply list_elem_of_lookup_2.
Qed.

Lemma irs_nonneg m l : (forall t, t ∈ l -> 0 <= irl m t) -> 0 <= irs m l.
Proof.
  induction l as [|t l IH]; intros Hpos; [done|]. rewrite irs_cons.
  assert (0 <= irl m t) by (apply Hpos; left). assert (0 <= irs m l) by (apply IH; intros; apply Hpos; by right).
  lia.
Qed.

Lemma irl_pos c order t :
  geo c order -> t ∈ order -> 0 < irl (c_contexts c) t.
Proof.
  intros Hg Ht. apply (geo_members _ _ Hg) in Ht as (x & Hx & _). unfold irl. rewrite Hx. simpl.
  by eapply geo_irlen.
Qed.

Lemma NoDup_split_unique {T} (t : T) b a b' a' :
  NoDup (b ++ t :: a) -> b ++ t :: a = b' ++ t :: a' -> b = b' /\ a = a'.
Proof.
  revert b'. induction b as [|u b IH]; intros [|u' b'] Hnd Heq; simpl in *.
  - by simplify_eq.
  - injection Heq as -> ->. apply NoDup_cons in Hnd as [Hn _]. set_solver.
  - injection Heq as -> <-. apply NoDup_cons in Hnd as [Hn _]. set_solver.
  - injection Heq as -> Heq. apply NoDup_cons in Hnd as [_ Hnd].
    destruct (IH b' Hnd Heq) as [-> ->]. done.
Qed.

(** A change of the contexts that keeps every [irlen] keeps the sums. *)
Lemma irl_imap m f t :
  (forall u o, x_irlen (f u o) = x_irlen o) ->
  irl (map_imap (fun u o => Some (f u o)) m) t = irl m t.
Proof.
  intros Hf. unfold irl. rewrite map_lookup_imap. destruct (m !! t) as [o|]; [|done].
  simpl. by rewrite Hf.
Qed.

Lemma x_irlen_shift_for_insertion a b o : x_irlen (shift_for_insertion a b o) = x_irlen o.
Proof. unfold shift_for_insertion. by case_match. Qed.
Lemma x_enabled_shift_for_insertion a b o : x_enabled (shift_for_insertion a b o) = x_enabled o.
Proof. unfold shift_for_insertion. by case_match. Qed.
Lemma x_irlen_shift_for_removal a b o : x_irlen (shift_for_removal a b o) = x_irlen o.
Proof. unfold shift_for_removal. by case_match. Qed.
Lemma x_enabled_shift_for_removal a b o : x_enabled (shift_for_removal a b o) = x_enabled o.
Proof. unfold shift_for_removal. by case_match. Qed.

(** *** Insertion *)

Section Insertion.
Variables (c : chain) (before after : list nat) (tap : nat) (x : ctx).
Hypothesis Hgeo : geo c (before ++ after).
Hypothesis Hout : forall y, c_contexts c !! tap = Some y -> x_enabled y = false.
Hypothesis Hx : x_enabled x = true /\ 0 < x_irlen x
                /\ x_ir_pre x = irs (c_contexts c) before /\ x_dr_pre x = zlen before.

Let c1 := with_contexts c (<[tap := x]> (c_contexts c)).
Let c2 := apply_insertion_geometry c1 tap x (x_irlen x).

Lemma ins_fresh : tap ∉ before ++ after.
Proof. intros (y & Hy & He)%(geo_members _ _ Hgeo). by rewrite (Hout y Hy) in He. Qed.

Lemma ins_lookup_ne t : t <> tap ->
  c_contexts c2 !! t =
  (fun o => if x_enabled o then shift_for_insertion (x_ir_pre x) (x_irlen x) o else o) <$> c_contexts c !! t.
Proof.
  intros Ht. simpl. rewrite lookup_insert_ne, map_lookup_imap, lookup_insert_ne by done.
  destruct (c_contexts c !! t) as [o|]; [simpl|done].
  rewrite bool_decide_eq_false_2 by done. by destruct (x_enabled o).
Qed.

Lemma ins_irl t : t <> tap -> irl (c_contexts c2) t = irl (c_contexts c) t.
Proof.
  intros Ht. unfold irl. rewrite ins_lookup_ne by done. destruct (c_contexts c !! t) as [o|]; [|done].
  simpl. destruct (x_enabled o); [apply x_irlen_shift_for_insertion|done].
Qed.

Lemma ins_lookup_tap :
  c_contexts c2 !! tap =
  Some (with_ir x (x_ir_pre x) (c_total_irlen c + x_irlen x - x_ir_pre x - x_irlen x)
          (x_dr_pre x) (c_total_drlen c + 1 - x_dr_pre x - 1)).
Proof. simpl. by rewrite lookup_insert_eq. Qed.

Lemma ins_irl_tap : irl (c_contexts c2) tap = x_irlen x.
Proof. unfold irl. simpl. by rewrite lookup_insert_eq. Qed.

Lemma ins_irs l : tap ∉ l -> irs (c_contexts c2) l = irs (c_contexts c) l.
Proof. intros Hl. apply irs_ext. intros t Ht. apply ins_irl. set_solver. Qed.

Lemma ins_other t o :
  t ∈ before ++ after -> c_contexts c !! t = Some o ->
  placed (c_contexts c2) (before ++ tap :: after) t (shift_for_insertion (x_ir_pre x) (x_irlen x) o).
Proof.
  intros Ht Ho. destruct (geo_placed _ _ Hgeo t o Ht Ho) as (b & a & Hord & H1 & H2 & H3 & H4).
  pose proof ins_fresh as Hf. pose proof (geo_nodup _ _ Hgeo) as Hnd. rewrite Hord in Hnd.
  pose proof Hx as (_ & Hlen & Hpre & Hdpre).
  unfold shift_for_insertion. rewrite Hpre. apply elem_of_app in Ht as [Ht|Ht].
  - apply list_elem_of_split in Ht as (b1 & a1 & Hb). rewrite Hb, <- app_assoc in Hord. simpl in Hord.
    destruct (NoDup_split_unique t b a b1 (a1 ++ after) Hnd) as [-> ->]; [by rewrite <- Hord|].
    assert (x_ir_pre o < irs (c_contexts c) before) as Hlt.
    { rewrite Hb, irs_app, irs_cons, H1.
      assert (0 < irl (c_contexts c) t) by (apply (irl_pos c (before ++ after)); [done|rewrite Hb; set_solver]).
      assert (0 <= irs (c_contexts c) a1); [|lia]. apply irs_nonneg. intros u Hu.
      apply Z.lt_le_incl, (irl_pos c (before ++ after)); [done|rewrite Hb; set_solver]. }
    rewrite (proj2 (Z.ltb_lt _ _) Hlt). exists b1, (a1 ++ tap :: after).
    cbn [x_ir_pre x_ir_post x_dr_pre x_dr_post with_ir].
    rewrite Hb, <- app_assoc in Hf |- *. split_and!; try done.
    + rewrite ins_irs by set_solver. done.
    + rewrite irs_app, irs_cons, ins_irl_tap, !ins_irs, H2, irs_app by set_solver. lia.
    + rewrite H4, !length_app. simpl. lia.
  - apply list_elem_of_split in Ht as (b1 & a1 & Ha). rewrite Ha, app_assoc in Hord.
    destruct (NoDup_split_unique t b a (before ++ b1) a1 Hnd) as [-> ->]; [by rewrite <- Hord|].
    assert (irs (c_contexts c) before <= x_ir_pre o) as Hge.
    { rewrite H1, irs_app. assert (0 <= irs (c_contexts c) b1); [|lia]. apply irs_nonneg. intros u Hu.
      apply Z.lt_le_incl, (irl_pos c (before ++ after)); [done|rewrite Ha; set_solver]. }
    rewrite (proj2 (Z.ltb_ge _ _) Hge). exists (before ++ tap :: b1), a1.
    cbn [x_ir_pre x_ir_post x_dr_pre x_dr_post with_ir].
    rewrite Ha in Hf |- *. rewrite <- app_assoc. split_and!; try done.
    + rewrite irs_app, irs_cons, ins_irl_tap, !ins_irs, H1, irs_app by set_solver. lia.
    + rewrite ins_irs by set_solver. done.
    + rewrite H3, !length_app. simpl. lia.
Qed.

Lemma insertion_geo : geo c2 (before ++ tap :: after).
Proof.
  pose proof ins_fresh as Hf. pose proof Hx as (Hen & Hlen & Hpre & Hdpre). destruct (Hgeo) as [Hnd Hmem Hir Ht Hd _].
  constructor.
  - apply NoDup_app in Hnd as (? & ? & ?). apply NoDup_app. rewrite NoDup_cons. set_solver.
  - intros t. destruct (decide (t = tap)) as [->|Hne].
    + split; [|set_solver]. intros _. eexists. simpl. rewrite lookup_insert_eq. by split.
    + rewrite ins_lookup_ne by done. transitivity (t ∈ before ++ after); [set_solver|]. rewrite Hmem.
      destruct (c_contexts c !! t) as [o|]; [|naive_solver]. simpl.
      pose proof (x_enabled_shift_for_insertion (x_ir_pre x) (x_irlen x) o).
      destruct (x_enabled o) eqn:E; split; intros (y & [= <-] & ?); eexists; split; try done; congruence.
  - intros t y. destruct (decide (t = tap)) as [->|Hne].
    + simpl. rewrite lookup_insert_eq. by intros [= <-].
    + rewrite ins_lookup_ne by done. destruct (c_contexts c !! t) as [o|] eqn:Ho; [|done].
      intros [= <-]. apply Hir in Ho. destruct (x_enabled o); [|done]. by rewrite x_irlen_shift_for_insertion.
  - rewrite irs_app, irs_cons, ins_irl_tap, !ins_irs by set_solver. simpl. rewrite Ht, irs_app. lia.
  - simpl. rewrite Hd, !length_app. simpl. lia.
  - intros t y Hin. destruct (decide (t = tap)) as [->|Hne].
    + rewrite ins_lookup_tap. intros [= <-]. exists before, after.
      cbn [x_ir_pre x_ir_post x_dr_pre x_dr_post with_ir]. split; [done|]. rewrite Ht, Hd, irs_app, length_app, !ins_irs by set_solver. lia.
    + rewrite ins_lookup_ne by done. assert (t ∈ before ++ after) as Hin' by set_solver.
      destruct (c_contexts c !! t) as [o|] eqn:Ho; [|done].
      destruct (proj1 (Hmem t) Hin') as (o' & Ho' & He). rewrite Ho in Ho'. injection Ho' as <-.
      intros [= <-]. rewrite He. by apply ins_other.
Qed.
End Insertion.

(** *** Removal *)

Section Removal.
Variables (c c2 : chain) (before after : list nat) (tap : nat) (x : ctx).
Hypothesis Hgeo : geo c (before ++ tap :: after).
Hypothesis Hx : c_contexts c !! tap = Some x.
Hypothesis Hothers : forall t, t <> tap ->
  c_contexts c2 !! t =
  (fun o => if x_enabled o then shift_for_removal (x_ir_pre x) (x_irlen x) o else o) <$> c_contexts c !! t.
Hypothesis Hgone : forall y, c_contexts c2 !! tap = Some y -> x_enabled y = false /\ 0 < x_irlen y.
Hypothesis Htotals : c_total_irlen c2 = c_total_irlen c - x_irlen x
                     /\ c_total_drlen c2 = c_total_drlen c - 1.

Lemma rem_irl t : t <> tap -> irl (c_contexts c2) t = irl (c_contexts c) t.
Proof.
  intros Ht. unfold irl. rewrite Hothers by done. destruct (c_contexts c !! t) as [o|]; [|done].
  simpl. destruct (x_enabled o); [apply x_irlen_shift_for_removal|done].
Qed.

Lemma rem_irs l : tap ∉ l -> irs (c_contexts c2) l = irs (c_contexts c) l.
Proof. intros Hl. apply irs_ext. intros t Ht. apply rem_irl. set_solver. Qed.

Lemma rem_fresh : tap ∉ before ++ after.
Proof.
  pose proof (geo_nodup _ _ Hgeo) as Hnd. apply NoDup_app in Hnd as (_ & Hd & Hnd).
  apply NoDup_cons in Hnd as [? _]. rewrite elem_of_app. intros [Hb|Ha]; [|done].
  apply (Hd tap Hb). left.
Qed.

Lemma rem_tap : irl (c_contexts c) tap = x_irlen x /\ x_ir_pre x = irs (c_contexts c) before.
Proof.
  unfold irl. rewrite Hx. split; [done|].
  destruct (geo_placed _ _ Hgeo tap x ltac:(set_solver) Hx) as (b & a & Hord & Hpre & _).
  pose proof (geo_nodup _ _ Hgeo) as Hnd.
  destruct (NoDup_split_unique tap before after b a Hnd Hord) as [-> _]. done.
Qed.

Lemma rem_other t o :
  t ∈ before ++ after -> c_contexts c !! t = Some o ->
  placed (c_contexts c2) (before ++ after) t (shift_for_removal (x_ir_pre x) (x_irlen x) o).
Proof.
  intros Ht Ho. assert (t ∈ before ++ tap :: after) as Ht' by set_solver.
  destruct (geo_placed _ _ Hgeo t o Ht' Ho) as (b & a & Hord & H1 & H2 & H3 & H4).
  pose proof rem_fresh as Hf. pose proof (geo_nodup _ _ Hgeo) as Hnd. rewrite Hord in Hnd.
  destruct rem_tap as [Hlen Hpre].
  assert (forall u, u ∈ before ++ tap :: after -> 0 < irl (c_contexts c) u) as Hpos
    by (intros u; by apply irl_pos).
  unfold shift_for_removal. rewrite Hpre. apply elem_of_app in Ht as [Ht|Ht].
  - apply list_elem_of_split in Ht as (b1 & a1 & Hb). rewrite Hb, <- app_assoc in Hord. simpl in Hord.
    destruct (NoDup_split_unique t b a b1 (a1 ++ tap :: after) Hnd) as [-> ->]; [by rewrite <- Hord|].
    assert (x_ir_pre o <= irs (c_contexts c) before) as Hle.
    { rewrite Hb, irs_app, irs_cons, H1.
      assert (0 < irl (c_contexts c) t) by (apply Hpos; rewrite Hb; set_solver).
      assert (0 <= irs (c_contexts c) a1); [|lia]. apply irs_nonneg. intros u Hu.
      apply Z.lt_le_incl, Hpos. rewrite Hb. set_solver. }
    rewrite (proj2 (Z.ltb_ge _ _) Hle). exists b1, (a1 ++ after).
    cbn [x_ir_pre x_ir_post x_dr_pre x_dr_post with_ir].
    rewrite Hb, <- app_assoc in Hf |- *. split_and!; try done.
    + rewrite rem_irs by set_solver. done.
    + rewrite rem_irs, H2, !irs_app, irs_cons by set_solver. lia.
    + rewrite H4, !length_app. simpl. lia.
  - apply list_elem_of_split in Ht as (b1 & a1 & Ha).
    rewrite Ha, app_comm_cons, app_assoc in Hord.
    destruct (NoDup_split_unique t b a (before ++ tap :: b1) a1 Hnd) as [-> ->]; [by rewrite <- Hord|].
    assert (irs (c_contexts c) before < x_ir_pre o) as Hlt.
    { rewrite H1, irs_app, irs_cons.
      assert (0 < irl (c_contexts c) tap) by (apply Hpos; set_solver).
      assert (0 <= irs (c_contexts c) b1); [|lia]. apply irs_nonneg. intros u Hu.
      apply Z.lt_le_incl, Hpos. rewrite Ha. set_solver. }
    rewrite (proj2 (Z.ltb_lt _ _) Hlt). exists (before ++ b1), a1.
    cbn [x_ir_pre x_ir_post x_dr_pre x_dr_post with_ir].
    rewrite Ha in Hf |- *. rewrite <- app_assoc. split_and!; try done.
    + rewrite rem_irs, H1, !irs_app, irs_cons by set_solver. lia.
    + rewrite rem_irs by set_solver. done.
    + rewrite H3, !length_app. simpl. lia.
Qed.

Lemma removal_geo : geo c2 (before ++ after).
Proof.
  pose proof rem_fresh as Hf. destruct rem_tap as [Hlen _]. destruct (Hgeo) as [Hnd Hmem Hir Ht Hd _].
  pose proof Htotals as [Ht2 Hd2]. constructor.
  - apply NoDup_app in Hnd as (? & ? & [? ?]%NoDup_cons). apply NoDup_app. set_solver.
  - intros t. destruct (decide (t = tap)) as [->|Hne].
    + split; [done|]. intros (y & Hy & He). destruct (Hgone y Hy). congruence.
    + rewrite Hothers by done. transitivity (t ∈ before ++ tap :: after); [set_solver|]. rewrite Hmem.
      destruct (c_contexts c !! t) as [o|]; [|naive_solver]. simpl.
      pose proof (x_enabled_shift_for_removal (x_ir_pre x) (x_irlen x) o).
      destruct (x_enabled o) eqn:E; split; intros (y & [= <-] & ?); eexists; split; try done; congruence.
  - intros t y. destruct (decide (t = tap)) as [->|Hne]; [by intros []%Hgone|].
    rewrite Hothers by done. destruct (c_contexts c !! t) as [o|] eqn:Ho; [|done].
    intros [= <-]. apply Hir in Ho. destruct (x_enabled o); [|done]. by rewrite x_irlen_shift_for_removal.
  - rewrite Ht2, Ht, rem_irs, !irs_app, irs_cons by done. lia.
  - rewrite Hd2, Hd, !length_app. simpl. lia.
  - intros t y Hin. assert (t <> tap) as Hne by set_solver. rewrite Hothers by done.
    assert (t ∈ before ++ tap :: after) as Hin' by set_solver.
    destruct (c_contexts c !! t) as [o|] eqn:Ho; [|done].
    destruct (proj1 (Hmem t) Hin') as (o' & Ho' & He). rewrite Ho in Ho'. injection Ho' as <-.
    intros [= <-]. rewrite He. by apply rem_other.
Qed.
End Removal.

(** *** Chains with the same geometry *)

Definition same_geometry (x y : ctx) : Prop :=
  x_irlen x = x_irlen y /\ x_ir_pre x = x_ir_pre y /\ x_ir_post x = x_ir_post y
  /\ x_dr_pre x = x_dr_pre y /\ x_dr_post x = x_dr_post y /\ x_enabled x = x_enabled y.

Definition geo_equiv (c c' : chain) : Prop :=
  c_total_irlen c = c_total_irlen c' /\ c_total_drlen c = c_total_drlen c'
  /\ forall t, option_Forall2 same_geometry (c_contexts c !! t) (c_contexts c' !! t).

#[global] Instance same_geometry_equiv : Equivalence same_geometry.
Proof. split; [by repeat split|intros x y; unfold same_geometry; naive_solver
  |intros x y z; unfold same_geometry; naive_solver congruence]. Qed.

#[global] Instance geo_equiv_equiv : Equivalence geo_equiv.
Proof.
  split.
  - intros c. split_and!; [done..|]. intros t. reflexivity.
  - intros c c' (? & ? & Hm). split_and!; [done..|]. intros t. symmetry. apply Hm.
  - intros a b c (? & ? & H1) (? & ? & H2). split_and!; [congruence..|]. intros t.
    etransitivity; [apply H1|apply H2].
Qed.

Lemma irs_geo_equiv c c' l : geo_equiv c c' -> irs (c_contexts c) l = irs (c_contexts c') l.
Proof.
  intros (_ & _ & Hm). apply irs_ext. intros t _. unfold irl.
  destruct (Hm t) as [x y (Hi & _)|]; [simpl; congruence|done].
Qed.

Lemma geo_equiv_impl c c' order : geo_equiv c c' -> geo c order -> geo c' order.
Proof.
  intros Heq [Hnd Hmem Hir Ht Hd Hpl]. pose proof Heq as (Et & Ed & Hm).
  assert (forall t y, c_contexts c' !! t = Some y ->
    exists x, c_contexts c !! t = Some x /\ same_geometry x y) as Hback.
  { intros t y Hy. specialize (Hm t). rewrite Hy in Hm. inversion Hm; subst. eauto. }
  constructor; [done| | | | |].
  - intros t. rewrite Hmem. split.
    + intros (x & Hx & He). specialize (Hm t). rewrite Hx in Hm. inversion Hm as [? y Hs|]; subst.
      exists y. split; [done|]. destruct Hs as (_&_&_&_&_&<-). done.
    + intros (y & (x & Hx & Hs)%Hback & He). exists x. split; [done|]. destruct Hs as (_&_&_&_&_&->). done.
  - intros t y (x & Hx & Hs)%Hback. apply Hir in Hx. destruct Hs as [<- _]. done.
  - by rewrite <- Et, Ht, (irs_geo_equiv c c').
  - congruence.
  - intros t y Hin (x & Hx & Hs)%Hback. destruct (Hpl t x Hin Hx) as (b & a & ? & ? & ? & ? & ?).
    destruct Hs as (_ & ? & ? & ? & ? & _). exists b, a. rewrite <- !(irs_geo_equiv c c') by done.
    split_and!; congruence.
Qed.

#[global] Instance geo_proper : Proper (geo_equiv ==> eq ==> iff) geo.
Proof. intros c c' Hc o ? <-. split; apply geo_equiv_impl; [done|by symmetry]. Qed.

(** Updating a context in ways that are not geometry. *)
Lemma geo_equiv_alter c t f :
  (forall x, same_geometry x (f x)) -> geo_equiv c (with_contexts c (alter f t (c_contexts c))).
Proof.
  intros Hf. split_and!; [done..|]. intros u. simpl. destruct (decide (u = t)) as [->|].
  - rewrite lookup_alter_eq. destruct (c_contexts c !! t); simpl; constructor. apply Hf.
  - by rewrite lookup_alter_ne.
Qed.

Lemma geo_equiv_insert c t x y :
  c_contexts c !! t = Some x -> same_geometry x y ->
  geo_equiv c (with_contexts c (<[t := y]> (c_contexts c))).
Proof.
  intros Hx Hs. split_and!; [done..|]. intros u. simpl. destruct (decide (u = t)) as [->|].
  - rewrite lookup_insert_eq, Hx. by constructor.
  - by rewrite lookup_insert_ne.
Qed.

Lemma clear_controller_geo c t : geo_equiv c (clear_controller c t).
Proof.
  unfold clear_controller. destruct (c_contexts c !! t) as [x|]; [|done].
  destruct (x_controller x) as [k|]; [|done].
  set (m := match c_contexts c !! k with Some _ => _ | None => _ end).
  assert (geo_equiv c (with_contexts c m)) as Hm.
  { unfold m. destruct (c_contexts c !! k) as [kx|] eqn:Hk; [|done]. case_bool_decide; [|done].
    by eapply geo_equiv_insert. }
  etransitivity; [exact Hm|]. apply (geo_equiv_alter (with_contexts c m) t (fun x => with_controller x None)). done.
Qed.

Lemma set_controller_geo c t k c' : set_controller c t k = Ok c' -> geo_equiv c c'.
Proof.
  unfold set_controller. intros H. etransitivity; [apply (clear_controller_geo c t)|]. revert H.
  set (c1 := clear_controller c t). destruct k as [k|]; [|by intros [= <-]].
  set (m := alter _ t _). assert (geo_equiv c1 (with_contexts c1 m)) as Hm by (by apply geo_equiv_alter).
  destruct (m !! k) as [kx|] eqn:Hk; [|done]. intros [= <-]. etransitivity; [exact Hm|].
  case_bool_decide; [done|]. by apply (geo_equiv_insert (with_contexts c1 m) k kx).
Qed.

(** A controller that is known to the chain is accepted. *)
Lemma set_controller_Ok c t k :
  is_Some (c_contexts c !! t) -> (forall k', k = Some k' -> is_Some (c_contexts c !! k')) ->
  exists c', set_controller c t k = Ok c'.
Proof.
  intros Ht Hk. unfold set_controller. destruct k as [k|]; [|eauto].
  assert (is_Some (c_contexts (clear_controller c t) !! k)) as [kx Hkx].
  { destruct (clear_controller_geo c t) as (_ & _ & Hm). specialize (Hm k).
    destruct (Hk k eq_refl) as [y Hy]. rewrite Hy in Hm. inversion Hm; subst. eauto. }
  destruct (decide (k = t)) as [->|Hne].
  - rewrite lookup_alter_eq, Hkx. simpl. eauto.
  - rewrite lookup_alter_ne, Hkx by done. eauto.
Qed.

Lemma geo_total_nil c : geo c [] -> c_total_irlen c = 0 /\ c_total_drlen c = 0.
Proof. intros [_ _ _ -> -> _]. done. Qed.

(** ** Operations on the abstract chain *)

Lemma tap_insert_spec c before after tap idcode irlen controller :
  geo c (before ++ after) -> (forall y, c_contexts c !! tap = Some y -> x_enabled y = false) ->
  0 < irlen -> (forall k, controller = Some k -> k = tap \/ is_Some (c_contexts c !! k)) ->
  exists c', tap_insert c tap idcode irlen (irs (c_contexts c) before) (zlen before) controller = Ok c'
    /\ geo c' (before ++ tap :: after).
Proof.
  intros Hg Hout Hlen Hk. unfold tap_insert.
  set (x := mkCtx _ _ _ _ _ _ _ _ _ _).
  pose proof (insertion_geo c before after tap x Hg Hout) as Hins. simpl x_irlen in Hins.
  set (c2 := apply_insertion_geometry _ tap x irlen) in *.
  assert (is_Some (c_contexts c2 !! tap)) as Htap by (simpl; rewrite lookup_insert_eq; eauto).
  destruct (set_controller_Ok c2 tap controller) as [c3 Hc3]; [done| |].
  { intros k Heq. destruct (Hk k Heq) as [->|[y Hy]]; [done|].
    destruct (decide (k = tap)) as [->|Hne]; [done|]. unfold c2.
    pose proof (ins_lookup_ne c tap x k Hne) as Hl. rewrite Hy in Hl. simpl x_irlen in Hl. rewrite Hl. eauto. }
  rewrite Hc3. simpl. eexists. split; [done|].
  apply set_controller_geo in Hc3.
  assert (geo_equiv c2 (mkChain (c_contexts c3) (c_total_irlen c3) (c_total_drlen c3) (c_children c3 ++ [tap])))
    as Heq by exact Hc3.
  rewrite <- Heq. by apply Hins.
Qed.

Lemma tap_reattach_spec c before after tap x controller :
  geo c (before ++ after) -> c_contexts c !! tap = Some x -> x_enabled x = false ->
  (forall k, controller = Some k -> is_Some (c_contexts c !! k)) ->
  exists c', tap_reattach c tap (irs (c_contexts c) before) (zlen before) controller = Ok c'
    /\ geo c' (before ++ tap :: after).
Proof.
  intros Hg Hx He Hk. unfold tap_reattach. rewrite Hx, He. cbv zeta.
  set (y := with_enabled _ true).
  pose proof (insertion_geo c before after tap y Hg) as Hins. simpl x_irlen in Hins |- *.
  set (c2 := apply_insertion_geometry _ tap y (x_irlen x)) in *.
  destruct (set_controller_Ok c2 tap controller) as [c3 Hc3].
  { simpl. rewrite lookup_insert_eq. eauto. }
  { intros k Heq. destruct (Hk k Heq) as [z Hz].
    destruct (decide (k = tap)) as [->|Hne]; [simpl; rewrite lookup_insert_eq; eauto|]. unfold c2.
    pose proof (ins_lookup_ne c tap y k Hne) as Hl. rewrite Hz in Hl. simpl x_irlen in Hl. rewrite Hl. eauto. }
  exists c3. split; [done|]. apply set_controller_geo in Hc3. rewrite <- Hc3. apply Hins.
  - intros z. rewrite Hx. intros [= <-]. done.
  - split_and!; try done. by eapply geo_irlen.
Qed.

Lemma tap_detach_spec c before after tap :
  geo c (before ++ tap :: after) ->
  exists c', tap_detach c tap = Ok c' /\ geo c' (before ++ after)
    /\ exists x, c_contexts c' !! tap = Some x /\ x_enabled x = false /\ x_current_ir x = None.
Proof.
  intros Hg. destruct (proj1 (geo_members _ _ Hg tap)) as (x & Hx & He); [set_solver|].
  unfold tap_detach. rewrite Hx, He. simpl negb. cbv iota. eexists. split; [done|].
  assert (forall f : ctx -> ctx, alter f tap (c_contexts (apply_removal_geometry c tap x (x_irlen x))) !! tap
          = Some (f x)) as Htap.
  { intros f. rewrite lookup_alter_eq. simpl. rewrite map_lookup_imap, Hx. simpl.
    by rewrite bool_decide_eq_true_2. }
  split; [|simpl c_contexts; rewrite Htap; eexists; done].
  eapply (removal_geo c _ before after tap x Hg Hx); simpl c_contexts.
  - intros t Hne. rewrite lookup_alter_ne by done. simpl. rewrite map_lookup_imap.
    destruct (c_contexts c !! t) as [o|]; [simpl|done].
    rewrite bool_decide_eq_false_2 by done. by destruct (x_enabled o).
  - rewrite Htap. intros y [= <-]. split; [done|]. exact (geo_irlen _ _ Hg tap x Hx).
  - done.
Qed.

Lemma foldl_release_geo l : forall c,
  geo_equiv c (with_contexts c
    (foldl (fun m g => alter (fun gx => with_controller gx None) g m) (c_contexts c) l)).
Proof.
  induction l as [|g l IH]; intros c; [destruct c; done|].
  etransitivity; [apply (geo_equiv_alter c g (fun gx => with_controller gx None)); done|].
  exact (IH (with_contexts c (alter _ g (c_contexts c)))).
Qed.

Lemma tap_remove_spec c before after tap :
  geo c (before ++ tap :: after) ->
  exists c', tap_remove c tap = Ok c' /\ geo c' (before ++ after) /\ c_contexts c' !! tap = None.
Proof.
  intros Hg. destruct (proj1 (geo_members _ _ Hg tap)) as (x & Hx & He); [set_solver|].
  unfold tap_remove. rewrite Hx, He. cbv zeta. eexists. split; [done|].
  set (c1 := apply_removal_geometry _ tap x (x_irlen x)).
  assert (c_contexts c1 !! tap = None) as Hgone.
  { simpl. by rewrite map_lookup_imap, lookup_delete_eq. }
  assert (geo c1 (before ++ after)) as Hg1.
  { eapply (removal_geo c c1 before after tap x Hg Hx); [|by rewrite Hgone|done].
    intros t Hne. simpl. rewrite map_lookup_imap, lookup_delete_ne by done.
    destruct (c_contexts c !! t) as [o|]; [simpl|done].
    rewrite bool_decide_eq_false_2 by done. by destruct (x_enabled o). }
  clearbody c1. set (m := match x_controller x with Some _ => _ | None => _ end).
  assert (geo_equiv c1 (with_contexts c1 m)) as Hm.
  { unfold m. destruct (x_controller x) as [k|]; [|by destruct c1].
    destruct (c_contexts c1 !! k) as [kx|] eqn:Hk; [|by destruct c1]. case_bool_decide; [|by destruct c1].
    by eapply geo_equiv_insert. }
  pose proof (foldl_release_geo (x_gated x) (with_contexts c1 m)) as Hrel. simpl c_contexts in *.
  set (m' := foldl _ m _) in *. assert (geo_equiv c1 (with_contexts c1 m')) as Heq by (by etransitivity).
  split.
  - assert (geo_equiv c1 (mkChain m' (c_total_irlen c1) (c_total_drlen c1)
                            (remove_first tap (c_children c1)))) as Heq' by exact Heq.
    by rewrite <- Heq'.
  - destruct Heq as (_ & _ & Hl). specialize (Hl tap). rewrite Hgone in Hl. simpl in Hl.
    by inversion Hl.
Qed.

(** ** Chains in use

    One call on the chain, beside what it does to the list of TAPs.  The
    guards are the caller's part of the contract: the position given as a
    bit count is a boundary between TAPs, an inserted TAP is not in the
    chain yet, instruction registers have at least one bit. *)
Inductive chain_step : chain * list nat -> chain * list nat -> Prop :=
  | step_insert c c' before after tap idcode irlen controller :
      (forall y, c_contexts c !! tap = Some y -> x_enabled y = false) -> 0 < irlen ->
      tap_insert c tap idcode irlen (irs (c_contexts c) before) (zlen before) controller = Ok c' ->
      chain_step (c, before ++ after) (c', before ++ tap :: after)
  | step_add c c' order tap idcode irlen :
      (forall y, c_contexts c !! tap = Some y -> x_enabled y = false) -> 0 < irlen ->
      tap_add c tap idcode irlen None None = Ok c' ->
      chain_step (c, order) (c', order ++ [tap])
  | step_reattach c c' before after tap controller :
      tap_reattach c tap (irs (c_contexts c) before) (zlen before) controller = Ok c' ->
      chain_step (c, before ++ after) (c', before ++ tap :: after)
  | step_detach c c' before after tap :
      tap_detach c tap = Ok c' -> chain_step (c, before ++ tap :: after) (c', before ++ after)
  | step_remove c c' before after tap :
      tap_remove c tap = Ok c' -> chain_step (c, before ++ tap :: after) (c', before ++ after)
  | step_set_controller c c' order tap controller :
      tap_set_controller c tap controller = Ok c' -> chain_step (c, order) (c', order).

Lemma chain_init_geo : geo chain_init [].
Proof. split; try done; [constructor|set_solver..]. Qed.

(** A call that returns has seen the controllers it was given. *)
Lemma set_controller_known c t k c' :
  set_controller c t (Some k) = Ok c' -> is_Some (c_contexts c !! k).
Proof.
  unfold set_controller. destruct (clear_controller_geo c t) as (_ & _ & Hm). specialize (Hm k).
  intros H. destruct (c_contexts c !! k) as [y|]; [eauto|]. inversion Hm as [|Hn]. exfalso. revert H.
  destruct (decide (k = t)) as [->|Hne];
    [rewrite lookup_alter_eq|rewrite lookup_alter_ne by done];
    replace (c_contexts (clear_controller c t) !! _) with (@None ctx) by done; done.
Qed.

Lemma insertion_contexts c tap x k :
  is_Some (c_contexts (apply_insertion_geometry (with_contexts c (<[tap := x]> (c_contexts c))) tap x (x_irlen x)) !! k) ->
  k = tap \/ is_Some (c_contexts c !! k).
Proof.
  simpl. destruct (decide (k = tap)) as [->|Hne]; [by left|]. rewrite lookup_insert_ne by done.
  rewrite map_lookup_imap, lookup_insert_ne by done. destruct (c_contexts c !! k); [by right; eauto|].
  simpl. intros [? [=]].
Qed.

Lemma chain_step_geo c order c' order' :
  chain_step (c, order) (c', order') -> geo c order -> geo c' order'.
Proof.
  inversion 1 as [? ? before after tap idcode irlen controller Hout Hl Hc
    |? ? ? tap idcode irlen Hout Hl Hc|? ? before after tap controller Hc
    |? ? before after tap Hc|? ? before after tap Hc|? ? ? tap controller Hc]; subst; intros Hg.
  - destruct (tap_insert_spec c before after tap idcode irlen controller Hg Hout Hl) as (c2 & H2 & Hg2);
      [|congruence]. intros k ->. unfold tap_insert in Hc.
    destruct (set_controller _ tap (Some k)) eqn:Hs; [|done]. apply set_controller_known in Hs.
    exact (insertion_contexts c tap (mkCtx irlen idcode _ 0 _ 0 None true (Some k) []) k Hs).
  - unfold tap_add in Hc. simpl default in Hc. pose proof Hg as [_ _ _ Hti Htd _]. rewrite Hti, Htd in Hc.
    assert (geo c (order ++ [])) as Hg' by (by rewrite app_nil_r).
    destruct (tap_insert_spec c order [] tap idcode irlen None Hg' Hout Hl) as (c2 & H2 & Hg2); [done|congruence].
  - unfold tap_reattach in Hc. destruct (c_contexts c !! tap) as [x|] eqn:Hx; [|done].
    destruct (x_enabled x) eqn:He; [done|].
    destruct (tap_reattach_spec c before after tap x controller Hg Hx He) as (c2 & H2 & Hg2).
    + intros k ->. apply set_controller_known in Hc.
      destruct (insertion_contexts c tap (with_enabled (with_ir x (irs (c_contexts c) before) 0 (zlen before) 0) true) k Hc)
        as [->|?]; eauto.
    + unfold tap_reattach in H2. rewrite Hx, He in H2. congruence.
  - destruct (tap_detach_spec c before after tap Hg) as (c2 & H2 & Hg2 & _). congruence.
  - destruct (tap_remove_spec c before after tap Hg) as (c2 & H2 & Hg2 & _). congruence.
  - unfold tap_set_controller in Hc. destruct (c_contexts c !! tap); [|done].
    apply set_controller_geo in Hc. by rewrite <- Hc.
Qed.

(** ** Properties *)

(** C4: however TAPs are added, inserted between others, gated out, brought
    back and removed, every context of the chain describes the TAP's place
    exactly: its [ir_pre] and [ir_post] are the instruction bits of the TAPs
    on each side, [dr_pre] and [dr_post] their number, the totals those of
    the whole chain, and the enabled contexts are the TAPs in the chain. *)
Theorem chain_geometry_invariant c order :
  rtc chain_step (chain_init, []) (c, order) ->
  c_total_irlen c = irs (c_contexts c) order /\ c_total_drlen c = zlen order
  /\ NoDup order
  /\ (forall t, t ∈ order <-> exists x, c_contexts c !! t = Some x /\ x_enabled x = true)
  /\ forall before t after, order = before ++ t :: after ->
     exists x, c_contexts c !! t = Some x
       /\ x_ir_pre x = irs (c_contexts c) before /\ x_ir_post x = irs (c_contexts c) after
       /\ x_dr_pre x = zlen before /\ x_dr_post x = zlen after.
Proof.
  intros H. assert (geo c order) as [Hnd Hm _ Hi Hd Hp].
  { change (geo (c, order).1 (c, order).2). revert H. generalize (c, order). apply rtc_ind_r; [apply chain_init_geo|].
    intros [c1 o1] [c2 o2] _ Hs Hg. by eapply chain_step_geo. }
  split_and!; try done. intros before t after ->.
  destruct (proj1 (Hm t)) as (x & Hx & _); [set_solver|]. exists x. split; [done|].
  destruct (Hp t x ltac:(set_solver) Hx) as (b & a & Heq & Hpos).
  destruct (NoDup_split_unique t before after b a) as [-> ->]; done.
Qed.

(** Each call a well-behaved caller makes succeeds: insertion at any
    boundary, gating out, bringing back at any boundary, removal; detaching
    forgets the cached instruction, removing forgets the TAP, and a TAP that
    is attached cannot be attached again. *)
Theorem chain_calls_succeed c before after tap :
  geo c (before ++ tap :: after) ->
  (exists c', tap_detach c tap = Ok c' /\ geo c' (before ++ after)
     /\ tap_detach c' tap = Ok c'
     /\ (exists x, c_contexts c' !! tap = Some x /\ x_current_ir x = None)
     /\ forall b a, before ++ after = b ++ a ->
        exists c'', tap_reattach c' tap (irs (c_contexts c') b) (zlen b) None = Ok c''
                    /\ geo c'' (b ++ tap :: a))
  /\ (exists c', tap_remove c tap = Ok c' /\ geo c' (before ++ after) /\ tap_detach c' tap = Err RuntimeError)
  /\ (forall ir dr k, tap_reattach c tap ir dr k = Err RuntimeError).
Proof.
  intros Hg. split_and!.
  - destruct (tap_detach_spec c before after tap Hg) as (c' & Hd & Hg' & x & Hx & He & Hi).
    exists c'. split_and!; try done.
    + unfold tap_detach. by rewrite Hx, He.
    + by exists x.
    + intros b a Heq. rewrite Heq in Hg'. by apply (tap_reattach_spec c' b a tap x None).
  - destruct (tap_remove_spec c before after tap Hg) as (c' & Hr & Hg' & Hn). exists c'. split_and!; try done.
    unfold tap_detach. by rewrite Hn.
  - intros ir dr k. destruct (proj1 (geo_members _ _ Hg tap)) as (x & Hx & He); [set_solver|].
    unfold tap_reattach. by rewrite Hx, He.
Qed.

(** Three TAPs, the middle one inserted last and gated out for a while. *)
Definition sample_chain : result (chain * list nat) :=
  c ← tap_add chain_init 1 (Some 0x4ba00477) 4 None None;
  c ← tap_add c 2 None 5 None None;
  c ← tap_insert c 3 None 6 4 1 (Some 1%nat);
  c ← tap_detach c 3;
  c ← tap_reattach c 3 4 1 (Some 1%nat);
  Ok (c, [1; 3; 2]%nat).

Lemma sample_chain_reachable c order :
  sample_chain = Ok (c, order) -> rtc chain_step (chain_init, []) (c, order).
Proof.
  unfold sample_chain.
  destruct (tap_add chain_init 1 _ _ _ _) as [c1|] eqn:E1; [|done]. rewrite bind_of_Ok.
  destruct (tap_add c1 2 _ _ _ _) as [c2|] eqn:E2; [|done]. rewrite bind_of_Ok.
  destruct (tap_insert c2 3 _ _ _ _ _) as [c3|] eqn:E3; [|done]. rewrite bind_of_Ok.
  destruct (tap_detach c3 3) as [c4|] eqn:E4; [|done]. rewrite bind_of_Ok.
  destruct (tap_reattach c4 3 _ _ _) as [c5|] eqn:E5; [|done]. rewrite bind_of_Ok. intros [= <- <-].
  eapply rtc_l; [eapply (step_add chain_init c1 [] 1); [| |exact E1]; done|].
  vm_compute in E1. injection E1 as <-.
  eapply rtc_l; [eapply (step_add _ c2 [1%nat] 2); [| |exact E2]; done|].
  vm_compute in E2. injection E2 as <-.
  eapply rtc_l; [eapply (step_insert _ c3 [1%nat] [2%nat] 3); [| |exact E3]; done|].
  vm_compute in E3. injection E3 as <-.
  eapply rtc_l; [eapply (step_detach _ c4 [1%nat] [2%nat] 3); exact E4|].
  vm_compute in E4. injection E4 as <-.
  eapply rtc_l; [eapply (step_reattach _ c5 [1%nat] [2%nat] 3); exact E5|]. done.
Qed.

Lemma chain_geometry_invariant_witness :
  exists c order, sample_chain = Ok (c, order)
    /\ c_total_irlen c = irs (c_contexts c) order /\ NoDup order.
Proof.
  destruct sample_chain as [[c order]|] eqn:E; [|vm_compute in E; discriminate].
  destruct (chain_geometry_invariant c order (sample_chain_reachable c order E)) as (Hi & _ & Hn & _).
  exists c, order. exact (conj eq_refl (conj Hi Hn)).
Defined.

Lemma chain_calls_succeed_witness :
  exists c c', tap_add chain_init 7 None 4 None None = Ok c
    /\ tap_remove c 7 = Ok c' /\ tap_detach c' 7 = Err RuntimeError.
Proof.
  destruct (tap_insert_spec chain_init [] [] 7%nat None 4 None chain_init_geo) as (c & Hc & Hg); [done..|].
  destruct (chain_calls_succeed c [] [] 7%nat Hg) as (_ & (c' & Hr & _ & Hd) & _).
  exists c, c'. split_and!; [exact Hc|done..].
Defined.
