(* ===== verification/JtagRefresh.v ===== *)
(** * Rebuilding the chain after a reset
    (src/acrobe/protocol/jtag.py, [Chain.tlr_and_refresh])

    Identity matching pairs the TAPs the chain knows with the slots a probe
    found; the refresh rebuilds the geometry from the slots.  [refresh_geo]:
    whatever the chain looked like before, it describes the probed slots
    afterwards, matched TAPs keeping their identity. *)

From S2P Require Import Prelude BitVec JtagTap JtagChain.

(** A slot found by the probe: idcode (when the TAP has one) and IR length. *)
Abbreviation slot := (option Z * Z)%type.

Definition ctx_of (c : chain) (t : nat) : result ctx :=
  match c_contexts c !! t with Some x => Ok x | None => Err KeyError end.

Definition is_enabled (c : chain) (t : nat) : bool :=
  match c_contexts c !! t with Some x => x_enabled x | None => false end.

(** The unclaimed slots that look like the TAP. *)
Definition slot_matches (slots : list slot) (x : ctx) (available : list nat) : list nat :=
  filter (fun i => slots !! i = Some (x_idcode x, x_irlen x)) available.

(** [__match_identities] *)
Definition match_tap (c : chain) (slots : list slot) (st : gmap nat nat * list nat) (tap : nat)
  : result (gmap nat nat * list nat) :=
  let '(claimed, available) := st in
  x ← ctx_of c tap;
  match slot_matches slots x available with
  | [] => Ok (claimed, available)
  | [i] => Ok (<[i := tap]> claimed, filter (fun j => j <> i) available)
  | _ => Err RefreshAmbiguity
  end.

Definition match_order (c : chain) (existing : list nat) : list nat :=
  sort_by (fun t => match c_contexts c !! t with Some x => x_ir_pre x | None => 0 end)
    (filter (fun t => is_enabled c t) existing)
  ++ filter (fun t => negb (is_enabled c t)) existing.

Definition match_identities (c : chain) (existing : list nat) (slots : list slot)
  : result (gmap nat nat) :=
  st ← foldM (match_tap c slots) (∅, seq 0 (length slots)) (match_order c existing);
  Ok (fst st).

(** [__apply_refresh]; [fresh i] is the TAP object made for slot [i] when no
    known TAP claimed it.  The loop carries the cumulated geometry. *)
Definition place_slot (claimed : gmap nat nat) (fresh : nat -> nat)
    (st : chain * (Z * Z)) (islot : nat * slot) : result (chain * (Z * Z)) :=
  let '(c, (cum_ir, cum_dr)) := st in
  let '(i, (idcode, irlen)) := islot in
  c ← (match claimed !! i with
       | Some tap => x ← ctx_of c tap; tap_reattach c tap cum_ir cum_dr (x_controller x)
       | None => tap_insert c (fresh i) idcode irlen cum_ir cum_dr None
       end);
  Ok (c, (cum_ir + irlen, cum_dr + 1)).

Definition apply_refresh (c : chain) (existing : list nat) (slots : list slot)
    (claimed : gmap nat nat) (fresh : nat -> nat) : result chain :=
  c ← foldM tap_detach c (filter (fun t => is_enabled c t) existing);
  st ← foldM (place_slot claimed fresh) (c, (0, 0)) (zip (seq 0 (length slots)) slots);
  Ok (fst st).

(** ** Matching *)

(** Every claim is a slot of the TAP's identity, and no TAP claims twice. *)
Record claims_ok (c : chain) (slots : list slot) (claimed : gmap nat nat) (available : list nat)
    (seen : list nat) : Prop := {
  cl_identity : forall i t, claimed !! i = Some t ->
    exists x, c_contexts c !! t = Some x /\ slots !! i = Some (x_idcode x, x_irlen x);
  cl_inj : forall i j t, claimed !! i = Some t -> claimed !! j = Some t -> i = j;
  cl_seen : forall i t, claimed !! i = Some t -> t ∈ seen;
  cl_available : forall i, i ∈ available <-> (i < length slots)%nat /\ claimed !! i = None;
}.

Lemma match_tap_ok c slots claimed available seen tap st' :
  claims_ok c slots claimed available seen -> tap ∉ seen ->
  match_tap c slots (claimed, available) tap = Ok st' ->
  claims_ok c slots (fst st') (snd st') (tap :: seen)
  /\ (forall i, claimed !! i = None -> fst st' !! i <> None -> fst st' !! i = Some tap)
  /\ (forall x i, c_contexts c !! tap = Some x -> slots !! i = Some (x_idcode x, x_irlen x) ->
        fst st' !! i <> None).
Proof.
  intros [Hid Hinj Hseen Hav] Hns. unfold match_tap, ctx_of.
  destruct (c_contexts c !! tap) as [x|] eqn:Hx; [simpl|done].
  assert (forall i, i ∈ slot_matches slots x available <->
    slots !! i = Some (x_idcode x, x_irlen x) /\ claimed !! i = None) as Hm.
  { intros i. unfold slot_matches. rewrite list_elem_of_filter, Hav. split; [naive_solver|].
    intros [Hs Hc]. split_and!; [done| |done]. by eapply lookup_lt_Some. }
  destruct (slot_matches slots x available) as [|i [|j l]] eqn:E; intros [= <-]; simpl.
  - split; [constructor; try done; intros; right; by eapply Hseen|]. split; [done|].
    intros y i [= <-] Hs Hc. apply (not_elem_of_nil i), Hm. by split.
  - destruct (proj1 (Hm i)) as [Hsi Hci]; [left|]. split.
    + constructor.
      * intros k t. destruct (decide (k = i)) as [->|].
        -- rewrite lookup_insert_eq. intros [= <-]. eauto.
        -- rewrite lookup_insert_ne by done. apply Hid.
      * intros k k' t. destruct (decide (k = i)) as [->|], (decide (k' = i)) as [->|]; [done|..];
          rewrite ?lookup_insert_eq, ?lookup_insert_ne by done.
        -- intros [= <-] Ht. by apply Hseen in Ht.
        -- intros Ht [= <-]. by apply Hseen in Ht.
        -- apply Hinj.
      * intros k t. destruct (decide (k = i)) as [->|]; rewrite ?lookup_insert_eq, ?lookup_insert_ne by done;
          [intros [= <-]; left|intros Ht; right; by eapply Hseen].
      * intros k. rewrite list_elem_of_filter, Hav.
        destruct (decide (k = i)) as [->|]; rewrite ?lookup_insert_eq, ?lookup_insert_ne by done; naive_solver.
    + split.
      * intros k Hk. destruct (decide (k = i)) as [->|]; [by rewrite lookup_insert_eq|].
        by rewrite lookup_insert_ne by done.
      * intros y k [= <-] Hs. destruct (decide (k = i)) as [->|]; [by rewrite lookup_insert_eq|].
        rewrite lookup_insert_ne by done. intros Hc.
        assert (k ∈ [i]) as ->%list_elem_of_singleton by (apply Hm; done). done.
Qed.

Lemma match_loop_ok c slots l : forall claimed available seen st',
  claims_ok c slots claimed available seen -> NoDup (l ++ seen) ->
  foldM (match_tap c slots) (claimed, available) l = Ok st' ->
  claims_ok c slots (fst st') (snd st') (reverse l ++ seen)
  /\ (forall i, claimed !! i <> None -> fst st' !! i = claimed !! i)
  /\ (forall t x i, t ∈ l -> c_contexts c !! t = Some x ->
        slots !! i = Some (x_idcode x, x_irlen x) -> fst st' !! i <> None).
Proof.
  induction l as [|t l IH]; intros claimed available seen st' Hc Hnd; cbn [foldM].
  { intros [= <-]. split; [done|]. split; [done|]. intros t x i []%not_elem_of_nil. }
  apply NoDup_cons in Hnd as [Hns Hnd]. apply not_elem_of_app in Hns as [Hnl Hns].
  destruct (match_tap c slots (claimed, available) t) as [[cl av]|] eqn:E; simpl; [|done].
  intros Hf.
  destruct (match_tap_ok c slots claimed available seen t _ Hc Hns E) as (Hc1 & Hk1 & Hm1). simpl in *.
  destruct (IH cl av (t :: seen) st' Hc1) as (Hc2 & Hk2 & Hm2); [|done|].
  { apply NoDup_app in Hnd as (? & Hd & ?). apply NoDup_app. split_and!; [done| |].
    - set_solver.
    - by apply NoDup_cons. }
  assert (forall i, claimed !! i <> None -> cl !! i = claimed !! i) as Hkeep.
  { intros i Hi. unfold match_tap in E. destruct (ctx_of c t) as [x|]; [simpl in E|done].
    destruct (slot_matches slots x available) as [|k [|]] eqn:Em; [by injection E as <- <-| |done].
    injection E as <- <-. destruct (decide (i = k)) as [->|]; [|by rewrite lookup_insert_ne].
    exfalso. assert (k ∈ slot_matches slots x available) as Hin by (rewrite Em; left).
    unfold slot_matches in Hin. apply list_elem_of_filter in Hin as [_ Hin].
    apply (cl_available _ _ _ _ _ Hc) in Hin as [_ ?]. done. }
  split_and!.
  - rewrite reverse_cons, <- app_assoc. done.
  - intros i Hi. rewrite Hk2, Hkeep by (rewrite ?Hkeep; done). done.
  - intros u x i [->|Hu]%elem_of_cons Hx Hs; [|by eapply Hm2].
    specialize (Hm1 x i Hx Hs). by rewrite Hk2.
Qed.

(** ** What the chain operations keep of the TAPs themselves *)

(** Length, identity and controller of a TAP the chain knows. *)
Definition ident (m : gmap nat ctx) (t : nat) : option (Z * option Z * option nat) :=
  (fun x => (x_irlen x, x_idcode x, x_controller x)) <$> m !! t.

Lemma ident_insert_gated m k kx l u :
  m !! k = Some kx -> ident (<[k := with_gated kx l]> m) u = ident m u.
Proof.
  intros Hk. unfold ident. destruct (decide (u = k)) as [->|]; [|by rewrite lookup_insert_ne].
  by rewrite lookup_insert_eq, Hk.
Qed.

Lemma ident_alter_controller m t k u :
  ident (alter (fun x => with_controller x k) t m) u =
  if decide (u = t) then (fun '(i, c, _) => (i, c, k)) <$> ident m u else ident m u.
Proof.
  unfold ident. destruct (decide (u = t)) as [->|]; [|by rewrite lookup_alter_ne].
  rewrite lookup_alter_eq. by destruct (m !! t).
Qed.

Lemma ident_clear_controller c t u :
  ident (c_contexts (clear_controller c t)) u =
  if decide (u = t) then (fun '(i, d, _) => (i, d, None)) <$> ident (c_contexts c) u
  else ident (c_contexts c) u.
Proof.
  unfold clear_controller. destruct (c_contexts c !! t) as [x|] eqn:Hx.
  2:{ destruct (decide (u = t)) as [->|]; [|done]. unfold ident. by rewrite Hx. }
  destruct (x_controller x) as [k|] eqn:Hk.
  2:{ destruct (decide (u = t)) as [->|]; [|done]. unfold ident. rewrite Hx. simpl. by rewrite Hk. }
  simpl c_contexts. rewrite ident_alter_controller.
  set (m := match c_contexts c !! k with Some _ => _ | None => _ end).
  assert (ident m u = ident (c_contexts c) u) as ->; [|done].
  unfold m. destruct (c_contexts c !! k) as [kx|] eqn:Hkx; [|done]. case_bool_decide; [|done].
  by apply ident_insert_gated.
Qed.

(** Setting a TAP's controller to the one it has changes no TAP. *)
Lemma ident_set_controller_own c t x c' u :
  c_contexts c !! t = Some x -> set_controller c t (x_controller x) = Ok c' ->
  ident (c_contexts c') u = ident (c_contexts c) u.
Proof.
  intros Hx. unfold set_controller. pose proof (ident_clear_controller c t) as Hcl.
  set (c1 := clear_controller c t) in *. destruct (x_controller x) as [k|] eqn:Hk.
  - set (m := alter _ t _). destruct (m !! k) as [kx|] eqn:Hkx; [|done]. intros [= <-]. simpl c_contexts.
    assert (ident m u = ident (c_contexts c) u) as Hm.
    { unfold m. rewrite ident_alter_controller, Hcl. destruct (decide (u = t)) as [->|]; [|done].
      unfold ident. rewrite Hx. simpl. by rewrite Hk. }
    case_bool_decide; [done|]. by rewrite ident_insert_gated.
  - intros [= <-]. rewrite Hcl. destruct (decide (u = t)) as [->|]; [|done].
    unfold ident. rewrite Hx. simpl. by rewrite Hk.
Qed.

Lemma ident_apply_insertion c t x irlen u :
  c_contexts c !! t = Some x ->
  ident (c_contexts (apply_insertion_geometry c t x irlen)) u = ident (c_contexts c) u.
Proof.
  intros Hx. unfold ident. simpl. destruct (decide (u = t)) as [->|].
  - by rewrite lookup_insert_eq, Hx.
  - rewrite lookup_insert_ne, map_lookup_imap by done. destruct (c_contexts c !! u) as [o|]; [simpl|done].
    unfold shift_for_insertion. repeat case_match; done.
Qed.

Lemma ident_detach c t c' u :
  tap_detach c t = Ok c' -> ident (c_contexts c') u = ident (c_contexts c) u.
Proof.
  unfold tap_detach. destruct (c_contexts c !! t) as [x|] eqn:Hx; [|done].
  destruct (negb (x_enabled x)); [by intros [= <-]|]. intros [= <-]. simpl c_contexts. unfold ident.
  assert (forall v, (fun x => (x_irlen x, x_idcode x, x_controller x)) <$>
    c_contexts (apply_removal_geometry c t x (x_irlen x)) !! v =
    (fun x => (x_irlen x, x_idcode x, x_controller x)) <$> c_contexts c !! v) as Himap.
  { intros v. simpl. rewrite map_lookup_imap. destruct (c_contexts c !! v) as [o|]; [simpl|done].
    unfold shift_for_removal. repeat case_match; done. }
  rewrite <- Himap. destruct (decide (u = t)) as [->|]; [|by rewrite lookup_alter_ne].
  rewrite lookup_alter_eq, <- option_fmap_compose. done.
Qed.

(** Every controller named in the chain is known to it. *)
Definition controllers_known (c : chain) : Prop :=
  forall t i d k, ident (c_contexts c) t = Some (i, d, Some k) -> is_Some (c_contexts c !! k).

Lemma ident_Some m t x : m !! t = Some x -> ident m t = Some (x_irlen x, x_idcode x, x_controller x).
Proof. intros H. unfold ident. by rewrite H. Qed.

Lemma ident_known m t r : ident m t = Some r -> exists x, m !! t = Some x /\ r = (x_irlen x, x_idcode x, x_controller x).
Proof. unfold ident. destruct (m !! t) as [x|]; [|done]. intros [= <-]. eauto. Qed.

Lemma controllers_known_ident c c' :
  (forall u, ident (c_contexts c') u = ident (c_contexts c) u) ->
  controllers_known c -> controllers_known c'.
Proof.
  intros Heq Hc t i d k Ht. rewrite Heq in Ht. apply Hc in Ht as [y Hy].
  apply ident_Some in Hy. rewrite <- Heq in Hy. apply ident_known in Hy as (z & ? & _). eauto.
Qed.

(** ** The rebuild *)

Lemma detach_all c order l :
  geo c order -> NoDup l -> (forall t, t ∈ l <-> t ∈ order) ->
  exists c', foldM tap_detach c l = Ok c' /\ geo c' []
    /\ forall u, ident (c_contexts c') u = ident (c_contexts c) u.
Proof.
  revert c order. induction l as [|t l IH]; intros c order Hg Hnd Heq.
  { exists c. split; [done|]. split; [|done]. destruct order as [|t order]; [done|].
    exfalso. apply (not_elem_of_nil t), Heq. left. }
  apply NoDup_cons in Hnd as [Hnt Hnd].
  assert (t ∈ order) as (before & after & ->)%list_elem_of_split by (apply Heq; left).
  destruct (tap_detach_spec c before after t Hg) as (c1 & Hd & Hg1 & _).
  pose proof (geo_nodup _ _ Hg) as Hno. apply NoDup_app in Hno as (_ & Hdis & [Hna _]%NoDup_cons).
  destruct (IH c1 (before ++ after) Hg1 Hnd) as (c' & Hf & Hg' & Hid).
  { intros u. specialize (Heq u). set_solver. }
  exists c'. cbn [foldM]. rewrite Hd. simpl. split_and!; [done..|].
  intros u. rewrite Hid. by apply (ident_detach c t).
Qed.

(** The TAP that ends up in slot [i]. *)
Definition slot_tap (claimed : gmap nat nat) (fresh : nat -> nat) (i : nat) : nat :=
  default (fresh i) (claimed !! i).

Section Rebuild.
Variables (slots : list slot) (claimed : gmap nat nat) (fresh : nat -> nat) (c0 : chain).
Hypothesis Hpos : Forall (fun s : slot => 0 < snd s) slots.
Hypothesis Hclaim : forall i t, claimed !! i = Some t ->
  exists x, c_contexts c0 !! t = Some x /\ slots !! i = Some (x_idcode x, x_irlen x).
Hypothesis Hinj : forall i j t, claimed !! i = Some t -> claimed !! j = Some t -> i = j.
Hypothesis Hfresh : forall i, (i < length slots)%nat -> c_contexts c0 !! fresh i = None.
Hypothesis Hfresh_inj : forall i j, fresh i = fresh j -> i = j.

(** The slots before [n] are placed. *)
Record rebuilt (n : nat) (c : chain) : Prop := {
  rb_geo : geo c (slot_tap claimed fresh <$> seq 0 n);
  rb_old : forall t r, ident (c_contexts c0) t = Some r -> ident (c_contexts c) t = Some r;
  rb_new : forall i, (n <= i < length slots)%nat -> claimed !! i = None -> c_contexts c !! fresh i = None;
  rb_ctl : controllers_known c;
  rb_irl : forall i s, (i < n)%nat -> slots !! i = Some s ->
    irl (c_contexts c) (slot_tap claimed fresh i) = snd s;
}.

Lemma rebuilt_irs n c :
  rebuilt n c -> (n <= length slots)%nat ->
  irs (c_contexts c) (slot_tap claimed fresh <$> seq 0 n) = zsum (snd <$> take n slots).
Proof.
  intros Hrb Hn. unfold irs. f_equal. apply list_eq. intros i.
  rewrite <- list_fmap_compose, !list_lookup_fmap. destruct (decide (i < n)%nat) as [Hi|Hi].
  - rewrite lookup_seq_lt, lookup_take_lt by done. destruct (lookup_lt_is_Some_2 slots i) as [s Hs]; [lia|].
    rewrite Hs. simpl. f_equal. by apply (rb_irl n c Hrb).
  - rewrite lookup_seq_ge, (lookup_take_ge slots) by lia. done.
Qed.

Lemma slot_tap_out n c i :
  rebuilt n c -> (n <= i < length slots)%nat -> ~ is_enabled c (slot_tap claimed fresh i).
Proof.
  intros Hrb Hi He. set (t := slot_tap claimed fresh i) in *.
  assert (t ∈ slot_tap claimed fresh <$> seq 0 n) as Hin.
  { apply (geo_members _ _ (rb_geo n c Hrb)). unfold is_enabled in He.
    destruct (c_contexts c !! t) as [x|]; [|done]. exists x. split; [done|]. by apply Is_true_true. }
  apply list_elem_of_fmap in Hin as (j & Htj & Hj%elem_of_seq). unfold t, slot_tap in Htj.
  destruct (claimed !! i) as [u|] eqn:Ei, (claimed !! j) as [v|] eqn:Ej; simpl in Htj; subst.
  - assert (i = j) by (by eapply Hinj). lia.
  - destruct (Hclaim i _ Ei) as (x & Hx & _). rewrite Hfresh in Hx by lia. done.
  - destruct (Hclaim j _ Ej) as (x & Hx & _). rewrite Hfresh in Hx by lia. done.
  - apply Hfresh_inj in Htj. lia.
Qed.

Lemma seq_snoc_fmap {T} (f : nat -> T) n : f <$> seq 0 (S n) = (f <$> seq 0 n) ++ [f n].
Proof. by rewrite seq_S, fmap_app. Qed.

Lemma irl_ident m m' t : ident m t = ident m' t -> irl m t = irl m' t.
Proof.
  unfold ident, irl. destruct (m !! t), (m' !! t); simpl; intros [=]; done.
Qed.

Lemma ident_reattach c t x ir dr c' u :
  c_contexts c !! t = Some x -> tap_reattach c t ir dr (x_controller x) = Ok c' ->
  ident (c_contexts c') u = ident (c_contexts c) u.
Proof.
  intros Hx. unfold tap_reattach. rewrite Hx. destruct (x_enabled x); [done|]. cbv zeta.
  set (y := with_enabled _ true).
  change (x_controller x) with (x_controller
    (with_ir y (x_ir_pre y) (c_total_irlen c + x_irlen y - x_ir_pre y - x_irlen y) (x_dr_pre y)
       (c_total_drlen c + 1 - x_dr_pre y - 1))).
  intros Hset. rewrite (ident_set_controller_own _ t _ _ _ (ins_lookup_tap c t y) Hset).
  rewrite ident_apply_insertion by (simpl; by rewrite lookup_insert_eq).
  unfold ident. simpl. destruct (decide (u = t)) as [->|]; [|by rewrite lookup_insert_ne].
  by rewrite lookup_insert_eq, Hx.
Qed.

Lemma ident_insert c t idcode irlen ir dr c' u :
  tap_insert c t idcode irlen ir dr None = Ok c' ->
  ident (c_contexts c') u = if decide (u = t) then Some (irlen, idcode, None) else ident (c_contexts c) u.
Proof.
  unfold tap_insert. cbv zeta. set (x := mkCtx _ _ _ _ _ _ _ _ _ _). simpl mbind.
  intros [= <-]. simpl c_contexts. rewrite ident_clear_controller.
  rewrite ident_apply_insertion by (simpl; by rewrite lookup_insert_eq).
  unfold ident. simpl. destruct (decide (u = t)) as [->|].
  - by rewrite lookup_insert_eq.
  - by rewrite lookup_insert_ne.
Qed.

Lemma place_step n c s :
  rebuilt n c -> slots !! n = Some s ->
  exists c', place_slot claimed fresh (c, (zsum (snd <$> take n slots), Z.of_nat n)) (n, s)
      = Ok (c', (zsum (snd <$> take (S n) slots), Z.of_nat (S n)))
    /\ rebuilt (S n) c'.
Proof.
  intros Hrb Hs. apply lookup_lt_Some in Hs as Hlt. destruct s as [idcode irlen].
  pose proof (rebuilt_irs n c Hrb ltac:(lia)) as Hirs. pose proof (rb_geo n c Hrb) as Hg.
  rewrite <- (app_nil_r (_ <$> seq 0 n)) in Hg.
  assert (zlen (slot_tap claimed fresh <$> seq 0 n) = Z.of_nat n) as Hlen
    by (by rewrite length_fmap, length_seq).
  assert (0 < irlen) as Hirl by (by apply (Forall_lookup_1 _ _ n _ Hpos) in Hs).
  assert (zsum (snd <$> take (S n) slots) = zsum (snd <$> take n slots) + irlen) as Hsum.
  { rewrite (take_S_r _ _ _ Hs), fmap_app, zsum_app. simpl. lia. }
  pose proof (slot_tap_out n c n Hrb ltac:(lia)) as Hout. unfold is_enabled in Hout.
  unfold place_slot. rewrite <- Hirs, <- Hlen.
  destruct (claimed !! n) as [t|] eqn:Et.
  - destruct (Hclaim n t Et) as (x0 & Hx0 & Hsl). rewrite Hs in Hsl. injection Hsl as -> ->.
    apply ident_Some, (rb_old n c Hrb) in Hx0 as Hid.
    apply ident_known in Hid as (x & Hx & Heq). injection Heq as Hil Hic Hict.
    unfold slot_tap in Hout. rewrite Et in Hout. simpl in Hout. rewrite Hx in Hout.
    unfold ctx_of. rewrite Hx, bind_of_Ok.
    destruct (tap_reattach_spec c (slot_tap claimed fresh <$> seq 0 n) [] t x (x_controller x) Hg Hx)
      as (c' & Hre & Hg').
    { by destruct (x_enabled x); [destruct Hout|]. }
    { intros k Hk. apply (rb_ctl n c Hrb t (x_irlen x) (x_idcode x) k).
      rewrite (ident_Some _ _ _ Hx), Hk. done. }
    rewrite Hre, bind_of_Ok. exists c'. split.
    { do 3 f_equal; [|lia]. rewrite Hsum, Hirs, Hil. done. }
    pose proof (fun u => ident_reattach c t x _ _ c' u Hx Hre) as Hide. constructor.
    + rewrite seq_snoc_fmap. unfold slot_tap at 2. rewrite Et. done.
    + intros u r Hu. rewrite Hide. by apply (rb_old n c Hrb).
    + intros i Hi Hn. destruct (c_contexts c' !! fresh i) as [y|] eqn:Hy; [|done].
      apply ident_Some in Hy. rewrite Hide in Hy. apply ident_known in Hy as (z & Hz & _).
      rewrite (rb_new n c Hrb) in Hz by (done || lia). done.
    + eapply controllers_known_ident; [exact Hide|apply Hrb].
    + intros i s Hi Hsi. rewrite (irl_ident _ (c_contexts c)) by apply Hide.
      destruct (decide (i = n)) as [->|]; [|by apply (rb_irl n c Hrb); [lia|]].
      rewrite Hs in Hsi. injection Hsi as <-. unfold slot_tap, irl. rewrite Et. simpl. rewrite Hx. simpl. congruence.
  - unfold slot_tap in Hout. rewrite Et in Hout. simpl in Hout.
    assert (c_contexts c !! fresh n = None) as Hfn by (by apply (rb_new n c Hrb); [lia|]).
    destruct (tap_insert_spec c (slot_tap claimed fresh <$> seq 0 n) [] (fresh n) idcode irlen None Hg)
      as (c' & Hin & Hg'); [by rewrite Hfn|done|done|].
    rewrite Hin, bind_of_Ok. exists c'. split.
    { do 3 f_equal; [|lia]. rewrite Hsum, Hirs. done. }
    pose proof (fun u => ident_insert c (fresh n) idcode irlen _ _ c' u Hin) as Hide. constructor.
    + rewrite seq_snoc_fmap. unfold slot_tap at 2. rewrite Et. done.
    + intros u r Hu. rewrite Hide. apply (rb_old n c Hrb) in Hu. case_decide; [|done]. subst u.
      unfold ident in Hu. by rewrite Hfn in Hu.
    + intros i Hi Hn. destruct (c_contexts c' !! fresh i) as [y|] eqn:Hy; [|done].
      apply ident_Some in Hy. rewrite Hide in Hy. case_decide as Hfi; [apply Hfresh_inj in Hfi; lia|].
      apply ident_known in Hy as (z & Hz & _). rewrite (rb_new n c Hrb) in Hz by (done || lia). done.
    + intros u il ic k. rewrite Hide. case_decide; [done|]. intros [y Hy]%(rb_ctl n c Hrb).
      destruct (decide (k = fresh n)) as [->|]; [by rewrite Hfn in Hy|].
      apply ident_Some in Hy. specialize (Hide k). rewrite decide_False, Hy in Hide by done.
      apply ident_known in Hide as (z & ? & _). eauto.
    + intros i s Hi Hsi. destruct (decide (i = n)) as [->|].
      * rewrite Hs in Hsi. injection Hsi as <-. unfold slot_tap. rewrite Et. simpl. specialize (Hide (fresh n)).
        rewrite decide_True in Hide by done. apply ident_known in Hide as (z & Hz & Heq).
        unfold irl. rewrite Hz. simpl. congruence.
      * rewrite (irl_ident _ (c_contexts c)); [by apply (rb_irl n c Hrb); [lia|]|].
        rewrite Hide, decide_False; [done|]. intros Heq.
        assert (is_Some (c_contexts c !! slot_tap claimed fresh i)) as [y Hy].
        { destruct (proj1 (geo_members _ _ (rb_geo n c Hrb) (slot_tap claimed fresh i))) as (y & ? & _);
            [apply list_elem_of_fmap; exists i; split; [done|apply elem_of_seq; lia]|eauto]. }
        rewrite Heq, Hfn in Hy. done.
Qed.

Lemma place_loop n c :
  rebuilt n c -> (n <= length slots)%nat ->
  exists c' cum, foldM (place_slot claimed fresh) (c, (zsum (snd <$> take n slots), Z.of_nat n))
      (zip (seq n (length slots - n)) (drop n slots)) = Ok (c', cum)
    /\ rebuilt (length slots) c'.
Proof.
  remember (length slots - n)%nat as k eqn:Hk. revert n c Hk.
  induction k as [|k IH]; intros n c Hk Hrb Hn.
  { exists c, (zsum (snd <$> take n slots), Z.of_nat n). simpl. split; [done|].
    by replace (length slots) with n by lia. }
  destruct (lookup_lt_is_Some_2 slots n) as [s Hs]; [lia|].
  rewrite (drop_S _ _ _ Hs). cbn [seq zip_with foldM].
  destruct (place_step n c s Hrb Hs) as (c1 & -> & Hrb1). rewrite bind_of_Ok.
  destruct (IH (S n) c1 ltac:(lia) Hrb1 ltac:(lia)) as (c' & cum & Hf & Hrb'). eauto.
Qed.
End Rebuild.

Lemma match_order_perm c existing : match_order c existing ≡ₚ existing.
Proof.
  unfold match_order. rewrite sort_by_perm. induction existing as [|t l IH]; [done|].
  rewrite !filter_cons. destruct (is_enabled c t); simpl.
  - by rewrite IH.
  - rewrite <- Permutation_middle. by rewrite IH.
Qed.

(** What a successful match says. *)
Lemma match_identities_ok c existing slots claimed :
  NoDup existing -> match_identities c existing slots = Ok claimed ->
  (forall i t, claimed !! i = Some t -> t ∈ existing /\
     exists x, c_contexts c !! t = Some x /\ slots !! i = Some (x_idcode x, x_irlen x))
  /\ (forall i j t, claimed !! i = Some t -> claimed !! j = Some t -> i = j)
  /\ (forall t x i, t ∈ existing -> c_contexts c !! t = Some x ->
        slots !! i = Some (x_idcode x, x_irlen x) -> is_Some (claimed !! i)).
Proof.
  intros Hnd Hmatch. unfold match_identities in Hmatch. apply bind_Ok in Hmatch as (st & Hloop & [= <-]).
  destruct (match_loop_ok c slots (match_order c existing) ∅ (seq 0 (length slots)) [] st)
    as ([Hcl Hinj Hseen _] & _ & Hcompl).
  - constructor; try done. intros i. rewrite elem_of_seq, lookup_empty. naive_solver lia.
  - by rewrite app_nil_r, match_order_perm.
  - done.
  - split_and!; [|done|].
    + intros i t Ht. split; [|by apply Hcl]. apply Hseen in Ht.
      by rewrite app_nil_r, reverse_Permutation, match_order_perm in Ht.
    + intros t x i Hin Hx Hs. apply not_eq_None_Some. eapply Hcompl; [|done..].
      by rewrite match_order_perm.
Qed.

(** The chain after a refresh is the probed one: slot [i] holds the known TAP
    that claimed it, or a new one. *)
Lemma apply_refresh_geo c order existing slots claimed fresh :
  geo c order -> NoDup existing -> (forall t, t ∈ order -> t ∈ existing) ->
  controllers_known c -> Forall (fun s : slot => 0 < snd s) slots ->
  match_identities c existing slots = Ok claimed ->
  (forall i, (i < length slots)%nat -> c_contexts c !! fresh i = None) ->
  (forall i j, fresh i = fresh j -> i = j) ->
  exists c', apply_refresh c existing slots claimed fresh = Ok c'
    /\ geo c' (slot_tap claimed fresh <$> seq 0 (length slots))
    /\ forall t r, ident (c_contexts c) t = Some r -> ident (c_contexts c') t = Some r.
Proof.
  intros Hg Hnd Hsub Hctl Hpos Hmatch Hfresh Hfinj. unfold apply_refresh.
  destruct (detach_all c order (filter (fun t => is_enabled c t) existing) Hg) as (c1 & -> & Hg1 & Hid1).
  { by apply NoDup_filter. }
  { intros t. rewrite list_elem_of_filter. rewrite (geo_members _ _ Hg). unfold is_enabled. split.
    - intros [He _]. destruct (c_contexts c !! t) as [x|]; [|done]. exists x. split; [done|]. by apply Is_true_true.
    - intros (x & Hx & He). rewrite Hx, He. split; [done|]. apply Hsub, (geo_members _ _ Hg). eauto. }
  rewrite bind_of_Ok. destruct (match_identities_ok c existing slots claimed Hnd Hmatch) as (Hcl & Hinj & _).
  destruct (place_loop slots claimed fresh c Hpos (fun i t H => proj2 (Hcl i t H)) Hinj Hfresh Hfinj 0 c1)
    as (c' & cum & Hf & Hrb); [|lia|].
  - constructor; [done| | | |lia].
    + intros t r Ht. by rewrite Hid1.
    + intros i Hi _. destruct (c_contexts c1 !! fresh i) as [y|] eqn:Hy; [|done].
      apply ident_Some in Hy. rewrite Hid1 in Hy. apply ident_known in Hy as (z & Hz & _).
      rewrite Hfresh in Hz by lia. done.
    + by eapply controllers_known_ident.
  - rewrite Nat.sub_0_r, drop_0 in Hf. change (zsum _, Z.of_nat 0) with (0, 0) in Hf.
    rewrite Hf. exists c'. split; [done|]. split; [apply Hrb|apply Hrb].
Qed.

(** ** Properties *)

(** When matching the TAPs known before a reset against the slots found
    after it succeeds, it is an injective assignment of slots to known TAPs
    of the same idcode and instruction length, and no slot a known TAP could
    take is left to a new one. *)
Theorem match_identities_sound c existing slots claimed :
  NoDup existing -> match_identities c existing slots = Ok claimed ->
  (forall i t, claimed !! i = Some t -> t ∈ existing /\
     exists x, c_contexts c !! t = Some x /\ slots !! i = Some (x_idcode x, x_irlen x))
  /\ (forall i j t, claimed !! i = Some t -> claimed !! j = Some t -> i = j)
  /\ (forall t x i, t ∈ existing -> c_contexts c !! t = Some x ->
        slots !! i = Some (x_idcode x, x_irlen x) -> is_Some (claimed !! i)).
Proof. apply match_identities_ok. Qed.

(** Rebuilding the chain from the slots found succeeds and yields a
    chain in slot order with exact geometry, each slot held by the TAP that
    claimed it or by a new one; every TAP known before keeps its identity and
    its controller. *)
Theorem refresh_rebuilds_chain c order existing slots claimed fresh :
  geo c order -> NoDup existing -> (forall t, t ∈ order -> t ∈ existing) ->
  controllers_known c -> Forall (fun s : slot => 0 < snd s) slots ->
  match_identities c existing slots = Ok claimed ->
  (forall i, (i < length slots)%nat -> c_contexts c !! fresh i = None) ->
  (forall i j, fresh i = fresh j -> i = j) ->
  exists c', apply_refresh c existing slots claimed fresh = Ok c'
    /\ geo c' (slot_tap claimed fresh <$> seq 0 (length slots))
    /\ forall t r, ident (c_contexts c) t = Some r -> ident (c_contexts c') t = Some r.
Proof. apply apply_refresh_geo. Qed.

(** One TAP known before; after the reset another one is in front of it. *)
Definition known_chain : chain :=
  mkChain {[ 1%nat := mkCtx 4 (Some 0xa) 0 0 0 0 None true None [] ]} 4 1 [1%nat].

Lemma known_chain_geo : geo known_chain [1%nat].
Proof.
  destruct (tap_insert_spec chain_init [] [] 1%nat (Some 0xa) 4 None chain_init_geo) as (c & Hc & Hg); [done..|].
  vm_compute in Hc. injection Hc as <-. exact Hg.
Qed.

Lemma match_identities_sound_witness :
  exists claimed, match_identities known_chain [1%nat] [(Some 0xb, 5); (Some 0xa, 4)] = Ok claimed
    /\ is_Some (claimed !! 1%nat).
Proof.
  destruct (match_identities known_chain [1%nat] [(Some 0xb, 5); (Some 0xa, 4)]) as [claimed|] eqn:E;
    [|vm_compute in E; discriminate].
  destruct (match_identities_sound known_chain [1%nat] [(Some 0xb, 5); (Some 0xa, 4)] claimed ltac:(by apply NoDup_singleton) E)
    as (_ & _ & Hc).
  exists claimed. split; [reflexivity|]. eapply (Hc 1%nat); [by left|reflexivity|reflexivity].
Defined.

Lemma refresh_rebuilds_chain_witness :
  exists claimed c', match_identities known_chain [1%nat] [(Some 0xb, 5); (Some 0xa, 4)] = Ok claimed
    /\ apply_refresh known_chain [1%nat] [(Some 0xb, 5); (Some 0xa, 4)] claimed (fun i => i + 10)%nat = Ok c'
    /\ geo c' (slot_tap claimed (fun i => i + 10)%nat <$> [0; 1]%nat).
Proof.
  destruct (match_identities known_chain [1%nat] [(Some 0xb, 5); (Some 0xa, 4)]) as [claimed|] eqn:E;
    [|vm_compute in E; discriminate].
  destruct (refresh_rebuilds_chain known_chain [1%nat] [1%nat] [(Some 0xb, 5); (Some 0xa, 4)] claimed (fun i => i + 10)%nat
    known_chain_geo ltac:(by apply NoDup_singleton)) as (c' & Hc & Hg & _).
  - done.
  - intros t i d k Ht%ident_known. destruct Ht as (x & Hx & Hr). unfold known_chain in Hx. simpl in Hx.
    apply lookup_singleton_Some in Hx as [<- <-]. done.
  - by repeat constructor.
  - exact E.
  - intros i _. apply lookup_singleton_ne. lia.
  - intros i j. lia.
  - exists claimed, c'. exact (conj eq_refl (conj Hc Hg)).
Defined.
