(* ===== verification/JtagFlush.v ===== *)
(** * TAP operations on the chain (src/acrobe/protocol/jtag.py, [Chain.flush_ops])

    The chain turns operations on one TAP into scans of the whole chain: the
    other TAPs are padded so that they stay in BYPASS, an instruction that
    the TAP already holds is not shifted again, and the TDO of the TAP is cut
    out of the chain's.

    The scan chain itself is modelled by [exec_op]: registers in chain order
    between TDI and TDO.  [flush_refines]: through the chain, each TAP answers as it
    would alone. *)

From S2P Require Import Prelude BitVec JtagTap JtagChain.

(** ** Operations of a TAP *)

Inductive tap_op (V : Type) : Type :=
  | TapShift (ir_value : option Z) (tdi : option V) (read_tdo : bool) (pre_dr_run post_dr_run : Z)
  | TapRun (cycles : Z)
  | TapIrStatus
  | OtherTapOp.
Arguments TapShift {V} _ _ _ _ _.
Arguments TapRun {V} _.
Arguments TapIrStatus {V}.
Arguments OtherTapOp {V}.

(** What [post] was given: a [TapOp] envelope or anything else. *)
Inductive envelope (V : Type) : Type :=
  | Top (tap : nat) (o : tap_op V)
  | NotTapOp.
Arguments Top {V} _ _.
Arguments NotTapOp {V}.

(** How a future is settled: at once, or from a posted operation's result. *)
Inductive resolution : Type :=
  | RExn (e : exn)
  | RNow
  | RAnchor (anchor : nat) (cut : option (Z * Z)).

Section Flush.
Context {A V : Type} `{BitVec A V}.

(** [__pad_with], the padding of length [n] being [BitString(fill, n)]. *)
Definition pad_with (fill pre : Z) (data : V) (post : Z) : result V :=
  if negb (pre =? 0) && negb (post =? 0) then
    a ← bv_of_int fill pre;
    ad ← bv_add a data;
    b ← bv_of_int fill post;
    bv_add ad b
  else if negb (pre =? 0) then a ← bv_of_int fill pre; bv_add a data
  else if negb (post =? 0) then b ← bv_of_int fill post; bv_add data b
  else Ok data.

(** [__invalidate_ir_cache_for_shift] *)
Definition invalidate_ir_cache_for_shift (c : chain) (tap : nat) (new_ir : Z) : chain :=
  with_contexts c (map_imap (fun t x =>
    Some (with_current_ir x (Some (if bool_decide (t = tap) then new_ir
                                   else Z.shiftl 1 (x_irlen x) - 1)))) (c_contexts c)).

(** The IR shift of [flush_ops]: load [value] in [tap], BYPASS elsewhere. *)
Definition post_ir (c : chain) (posted : list (op V)) (tap : nat) (x : ctx) (value : Z) (read : bool)
  : result (chain * list (op V)) :=
  v ← bv_of_int value (x_irlen x);
  tdi ← pad_with (-1) (x_ir_pre x) v (x_ir_post x);
  Ok (invalidate_ir_cache_for_shift c tap value, posted ++ [CaptureIr; Shift tdi read 0]).

(** One round of the loop of [flush_ops]. *)
Definition flush_shift (c : chain) (posted : list (op V)) (tap : nat) (x : ctx)
    (ir_value : option Z) (tdi : option V) (read_tdo : bool) (pre post : Z)
  : result (chain * list (op V) * resolution) :=
  '(c, posted, ir_done) ←
    (match ir_value with
     | Some v =>
         if bool_decide (x_current_ir x = Some v) then Ok (c, posted, None)
         else '(c, posted) ← post_ir c posted tap x v false;
              Ok (c, posted, Some (length posted - 1)%nat)
     | None => Ok (c, posted, None)
     end);
  let '(posted, pre_run) :=
    if pre =? 0 then (posted, None) else (posted ++ [Run pre], Some (length posted)) in
  match tdi with
  | Some d =>
      dr_tdi ← pad_with 0 (x_dr_pre x) d (x_dr_post x);
      let posted := posted ++ [CaptureDr; Shift dr_tdi read_tdo post] in
      Ok (c, posted, RAnchor (length posted - 1)%nat
                       (if read_tdo then Some (x_dr_pre x, bv_len d) else None))
  | None =>
      if negb (post =? 0) then Ok (c, posted ++ [Run post], RAnchor (length posted) None)
      else match pre_run, ir_done with
           | Some f, _ => Ok (c, posted, RAnchor f None)
           | None, Some f => Ok (c, posted, RAnchor f None)
           | None, None => Ok (c, posted, RNow)
           end
  end.

Definition flush_one (c : chain) (posted : list (op V)) (e : envelope V)
  : result (chain * list (op V) * resolution) :=
  match e with
  | NotTapOp => Ok (c, posted, RExn TypeError)
  | Top tap o =>
      match c_contexts c !! tap with
      | None => Ok (c, posted, RExn ValueError)
      | Some x =>
          if negb (x_enabled x) then Ok (c, posted, RExn RuntimeError)
          else match o with
               | TapIrStatus =>
                   '(c, posted) ← post_ir c posted tap x (Z.shiftl 1 (x_irlen x) - 1) true;
                   Ok (c, posted, RAnchor (length posted - 1)%nat (Some (x_ir_pre x, x_irlen x)))
               | TapShift ir tdi read pre post => flush_shift c posted tap x ir tdi read pre post
               | TapRun cycles => Ok (c, posted ++ [Run cycles], RAnchor (length posted) None)
               | OtherTapOp => Ok (c, posted, RExn ValueError)
               end
      end
  end.

(** [flush_ops]: the chain afterwards, the operations posted to the
    interface and the resolution of each entry of the batch. *)
Definition flush_ops (c : chain) (batch : list (envelope V))
  : result (chain * list (op V) * list resolution) :=
  foldM (fun '(c, posted, rs) e =>
      '(c, posted, r) ← flush_one c posted e; Ok (c, posted, rs ++ [r]))
    (c, [], []) batch.

(** [__resolve_batch]: the value of a future, [results] being those of the
    posted operations. *)
Definition resolve (results : nat -> V) (r : resolution) : result (option V) :=
  match r with
  | RExn e => Err e
  | RNow => Ok None
  | RAnchor f None => Ok None
  | RAnchor f (Some (offset, length)) =>
      let value := results f in
      if (offset =? 0) && (length =? bv_len value) then Ok (Some value)
      else Ok (Some (bv_slice value offset (offset + length)))
  end.
End Flush.

(** ** The scan chain *)

(** Shifting [tdi] through a register: what comes out, what stays in. *)
Definition shift_reg (reg tdi : list bool) : list bool * list bool :=
  (take (length tdi) (reg ++ tdi), drop (length tdi) (reg ++ tdi)).

Lemma shift_reg_full reg tdi : length reg = length tdi -> shift_reg reg tdi = (reg, tdi).
Proof.
  intros Hl. unfold shift_reg. rewrite <- Hl, take_app_length, drop_app_length. done.
Qed.

(** The devices: what a TAP captures in its data register under an
    instruction, and what an update of that register does. *)
Record device (D : Type) : Type := {
  dr_capture : D -> nat -> list bool -> list bool;
  dr_update : D -> nat -> list bool -> list bool -> D;
  ir_capture : D -> nat -> list bool;
  dr_len : nat -> list bool -> nat;
}.
Arguments dr_capture {D} _ _ _ _.
Arguments dr_update {D} _ _ _ _ _.
Arguments ir_capture {D} _ _ _.
Arguments dr_len {D} _ _ _.

Section Scan.
Context {D : Type} (dev : device D) (order : list nat).

Record hw : Type := mkHw {
  h_dev : D;
  h_ir : nat -> list bool;        (* instruction registers *)
  h_side : option side;           (* the scan in progress *)
}.

(** The bits of the chain's registers, split again: [load f len l bits] is
    [f] with the registers of [l] taken from [bits]. *)
Fixpoint load (f : nat -> list bool) (len : nat -> nat) (l : list nat) (bits : list bool)
  : nat -> list bool :=
  match l with
  | [] => f
  | t :: l =>
      let f' := load f len l (drop (len t) bits) in
      fun u => if decide (u = t) then take (len t) bits else f' u
  end.

Definition exec_op (s : hw) (o : op (list bool)) : hw * list bool :=
  match o with
  | CaptureIr => (mkHw (h_dev s) (h_ir s) (Some IR), [])
  | CaptureDr => (mkHw (h_dev s) (h_ir s) (Some DR), [])
  | Shift tdi _ _ =>
      match h_side s with
      | Some IR =>
          let reg := order ≫= ir_capture dev (h_dev s) in
          let '(tdo, reg') := shift_reg reg tdi in
          (mkHw (h_dev s)
             (load (h_ir s) (fun t => length (ir_capture dev (h_dev s) t)) order reg') None, tdo)
      | Some DR =>
          let cap := fun t => dr_capture dev (h_dev s) t (h_ir s t) in
          let '(tdo, reg') := shift_reg (order ≫= cap) tdi in
          let new := load (fun _ => []) (fun t => length (cap t)) order reg' in
          (mkHw (foldl (fun d t => dr_update dev d t (h_ir s t) (new t)) (h_dev s) order)
             (h_ir s) None, tdo)
      | None => (s, [])
      end
  | _ => (s, [])
  end.

Fixpoint exec (s : hw) (ops : list (op (list bool))) : hw * list (list bool) :=
  match ops with
  | [] => (s, [])
  | o :: ops => let '(s, r) := exec_op s o in let '(s, rs) := exec s ops in (s, r :: rs)
  end.

Lemma exec_app s ops1 ops2 :
  exec s (ops1 ++ ops2) =
  let '(s1, r1) := exec s ops1 in let '(s2, r2) := exec s1 ops2 in (s2, r1 ++ r2).
Proof.
  revert s. induction ops1 as [|o ops1 IH]; intros s; simpl; [by destruct (exec s ops2)|].
  destruct (exec_op s o) as [s1 r]. rewrite IH. destruct (exec s1 ops1) as [s2 r1].
  by destruct (exec s2 ops2).
Qed.

Lemma length_exec s ops : length (exec s ops).2 = length ops.
Proof.
  revert s. induction ops as [|o ops IH]; intros s; simpl; [done|].
  destruct (exec_op s o) as [s1 r]. specialize (IH s1). destruct (exec s1 ops). simpl in *. lia.
Qed.
End Scan.

(** Loading a chain in which one TAP gets [v] and the padding is [fill]. *)
Lemma load_padded f len before t after v fill u :
  NoDup (before ++ t :: after) -> length v = len t ->
  load f len (before ++ t :: after)
    (replicate (sum_list_with len before) fill ++ v ++ replicate (sum_list_with len after) fill) u
  = if decide (u = t) then v
    else if decide (u ∈ before ++ after) then replicate (len u) fill else f u.
Proof.
  intros Hnd Hv.
  assert (forall l u, u ∈ l -> NoDup l -> load f len l (replicate (sum_list_with len l) fill) u
            = replicate (len u) fill) as Hrep.
  { clear. induction l as [|w l IH]; intros u Hin Hnd; [by apply not_elem_of_nil in Hin|]. simpl.
    rewrite replicate_add, take_app_length', drop_app_length' by (by rewrite length_replicate).
    apply NoDup_cons in Hnd as [Hn Hnd].
    destruct (decide (u = w)) as [->|Hne]; [done|]. apply IH; [set_solver|done]. }
  assert (forall l bits u, u ∉ l -> load f len l bits u = f u) as Hout.
  { clear. induction l as [|w l IH]; intros bits u Hin; [done|]. simpl.
    rewrite decide_False by set_solver. apply IH. set_solver. }
  induction before as [|b before IH]; simpl.
  - rewrite take_app_length', drop_app_length' by done. apply NoDup_cons in Hnd as [Hn Hnd].
    destruct (decide (u = t)); [done|]. destruct (decide (u ∈ after)); [by apply Hrep|by apply Hout].
  - apply NoDup_cons in Hnd as [Hn Hnd].
    rewrite replicate_add, <- app_assoc, take_app_length', drop_app_length' by (by rewrite length_replicate).
    destruct (decide (u = b)) as [->|Hne].
    + rewrite decide_False by set_solver. by rewrite decide_True by set_solver.
    + rewrite IH by done. destruct (decide (u = t)); [done|].
      destruct (decide (u ∈ before ++ after)); [rewrite decide_True by set_solver|rewrite decide_False by set_solver]; done.
Qed.

(** ** Soundness *)

Definition op_bits {A V} `{BitVecLaws A V} (o : op V) : op (list bool) :=
  match o with
  | Shift tdi rd k => Shift (bv_bits tdi) rd k
  | CaptureDr => CaptureDr
  | CaptureIr => CaptureIr
  | Reset k => Reset k
  | Run k => Run k
  | SwdToJtag => SwdToJtag
  | OtherOp => OtherOp
  end.

Section Soundness.
Context {A V : Type} `{BitVecLaws A V} {D : Type} (dev : device D) (order : list nat) (irlen : nat -> nat).

Definition ones (t : nat) : list bool := replicate (irlen t) true.
Definition bypass (t : nat) : Z := 2 ^ Z.of_nat (irlen t) - 1.

(** IEEE 1149.1: the all-ones instruction selects the BYPASS register, one
    bit that captures 0 and whose update has no effect; the registers have
    the lengths the chain knows. *)
Record device_ok : Prop := {
  dev_bypass_capture : forall d t, dr_capture dev d t (ones t) = [false];
  dev_bypass_update : forall d t v, dr_update dev d t (ones t) v = d;
  dev_ir_length : forall d t, length (ir_capture dev d t) = irlen t;
  dev_dr_length : forall d t ir, length (dr_capture dev d t ir) = dr_len dev t ir;
}.
Hypothesis Hdev : device_ok.

(** The chain knows the IR lengths. *)
Definition irlen_known (c : chain) : Prop :=
  forall t x, c_contexts c !! t = Some x -> x_irlen x = Z.of_nat (irlen t).

(** The cache tells the truth, and a TAP cached outside BYPASS has all the
    others in BYPASS. *)
Definition cache_ok (c : chain) (s : hw (D:=D)) : Prop :=
  forall t x v, t ∈ order -> c_contexts c !! t = Some x -> x_current_ir x = Some v ->
    h_ir s t = bits_of (irlen t) v
    /\ (v <> bypass t -> forall u, u ∈ order -> u <> t -> h_ir s u = ones u).

Lemma bits_of_bypass t : bits_of (irlen t) (bypass t) = ones t.
Proof.
  unfold ones, bypass. rewrite <- bits_of_minus1. apply bits_of_ext. intros i Hi.
  replace (2 ^ Z.of_nat (irlen t) - 1) with (Z.ones (Z.of_nat (irlen t))) by (rewrite Z.ones_equiv; lia).
  rewrite testbit_ones_ltb, Z.bits_m1 by lia. apply Z.ltb_lt. lia.
Qed.

(** *** Padding *)

Definition fill_value (b : bool) : Z := if b then -1 else 0.

Lemma bits_of_fill b n : bits_of n (fill_value b) = replicate n b.
Proof. destruct b; [apply bits_of_minus1|apply bits_of_zero]. Qed.

Lemma pad_with_spec b pre (data : V) post :
  bv_ok data -> 0 <= pre -> 0 <= post ->
  exists r, pad_with (fill_value b) pre data post = Ok r /\ bv_ok r
    /\ bv_bits r = replicate (Z.to_nat pre) b ++ bv_bits data ++ replicate (Z.to_nat post) b.
Proof.
  intros Hd Hpre Hpost. unfold pad_with.
  destruct (bv_of_int_law (fill_value b) pre Hpre) as (l & El & Hl & Hbl).
  destruct (bv_of_int_law (fill_value b) post Hpost) as (r & Er & Hr & Hbr).
  rewrite bits_of_fill in Hbl, Hbr.
  destruct (Z.eqb_spec pre 0) as [->|], (Z.eqb_spec post 0) as [->|]; simpl negb; simpl andb; cbv iota.
  - exists data. split_and!; [done..|]. simpl. by rewrite app_nil_r.
  - rewrite Er, bind_of_Ok. destruct (bv_add_law data r Hd Hr) as (x & -> & ? & Hx).
    exists x. split_and!; [done..|]. by rewrite Hx, Hbr.
  - rewrite El, bind_of_Ok. destruct (bv_add_law l data Hl Hd) as (x & -> & ? & Hx).
    exists x. split_and!; [done..|]. simpl. by rewrite Hx, Hbl, app_nil_r.
  - rewrite El, bind_of_Ok. destruct (bv_add_law l data Hl Hd) as (x & -> & Hxo & Hx). rewrite bind_of_Ok.
    rewrite Er, bind_of_Ok. destruct (bv_add_law x r Hxo Hr) as (y & -> & ? & Hy).
    exists y. split_and!; [done..|]. by rewrite Hy, Hx, Hbl, Hbr, app_assoc.
Qed.

(** *** Geometry in bits *)

Lemma irs_sum c l :
  irlen_known c -> (forall t, t ∈ l -> is_Some (c_contexts c !! t)) ->
  irs (c_contexts c) l = Z.of_nat (sum_list_with irlen l).
Proof.
  intros Hk Hl. induction l as [|t l IH]; [done|]. rewrite irs_cons, IH by (intros; apply Hl; by right).
  destruct (Hl t) as [x Hx]; [left|]. unfold irl. rewrite Hx. simpl. rewrite (Hk t x Hx). lia.
Qed.

Lemma place c t x :
  geo c order -> irlen_known c -> t ∈ order -> c_contexts c !! t = Some x ->
  exists before after, order = before ++ t :: after
    /\ x_ir_pre x = Z.of_nat (sum_list_with irlen before)
    /\ x_ir_post x = Z.of_nat (sum_list_with irlen after)
    /\ x_dr_pre x = zlen before /\ x_dr_post x = zlen after.
Proof.
  intros Hg Hk Ht Hx. destruct (geo_placed _ _ Hg t x Ht Hx) as (b & a & Hord & H1 & H2 & H3 & H4).
  assert (forall u, u ∈ order -> is_Some (c_contexts c !! u)) as Hm
    by (intros u (y & ? & _)%(geo_members _ _ Hg); eauto).
  exists b, a. rewrite (irs_sum c) in H1, H2 by (done || intros; apply Hm; rewrite Hord; set_solver).
  by split_and!.
Qed.

Lemma length_bind_captures (f : nat -> list bool) len l :
  (forall t, t ∈ l -> length (f t) = len t) -> length (l ≫= f) = sum_list_with len l.
Proof.
  induction l as [|t l IH]; intros Hf; [done|]. rewrite bind_cons, length_app, Hf, IH by set_solver. done.
Qed.

(** *** The instruction scan *)

Lemma exec_ir s t before after v rd (k : Z) :
  order = before ++ t :: after -> NoDup order -> length v = irlen t ->
  let tdi := replicate (sum_list_with irlen before) true ++ v ++ replicate (sum_list_with irlen after) true in
  exists s', exec dev order s [CaptureIr; Shift tdi rd k] = (s', [[]; order ≫= ir_capture dev (h_dev s)])
    /\ h_dev s' = h_dev s
    /\ h_ir s' t = v /\ (forall u, u ∈ order -> u <> t -> h_ir s' u = ones u)
    /\ slice (order ≫= ir_capture dev (h_dev s)) (Z.of_nat (sum_list_with irlen before))
          (Z.of_nat (sum_list_with irlen before) + Z.of_nat (irlen t)) = ir_capture dev (h_dev s) t.
Proof.
  intros Hord Hnd Hv tdi. pose proof (dev_ir_length Hdev (h_dev s)) as Hlen.
  assert (length (order ≫= ir_capture dev (h_dev s)) = length tdi) as Hl.
  { rewrite (length_bind_captures _ irlen) by done. unfold tdi.
    rewrite !length_app, !length_replicate, Hv, Hord, sum_list_with_app. done. }
  cbn [exec exec_op h_side h_dev h_ir]. rewrite shift_reg_full by done. eexists. split; [done|]. split; [done|]. simpl h_ir.
  assert (forall u, load (h_ir s) (fun t => length (ir_capture dev (h_dev s) t)) order tdi u
     = if decide (u = t) then v else if decide (u ∈ before ++ after) then ones u else h_ir s u) as Hload.
  { intros u. unfold tdi. rewrite Hord.
    assert (forall l, sum_list_with irlen l = sum_list_with (fun t => length (ir_capture dev (h_dev s) t)) l) as Hs
      by (induction l as [|w l IH]; simpl; [done|by rewrite IH, Hlen]).
    rewrite !Hs, load_padded by (rewrite <- ?Hord; try done; by rewrite Hlen).
    rewrite Hlen. done. }
  split_and!.
  - by rewrite Hload, decide_True.
  - intros u Hu Hne. rewrite Hload, decide_False by done. rewrite decide_True; [done|].
    rewrite Hord in Hu. set_solver.
  - rewrite Hord, bind_app, bind_cons.
    apply slice_app_mid; [rewrite (length_bind_captures _ irlen) by done; done|]. by rewrite Hlen.
Qed.

(** *** The data scan *)

Lemma foldl_bypass (s : hw (D:=D)) (new : nat -> list bool) l d :
  (forall u, u ∈ l -> h_ir s u = ones u) ->
  foldl (fun d u => dr_update dev d u (h_ir s u) (new u)) d l = d.
Proof.
  revert d. induction l as [|u l IH]; intros d Hb; [done|]. simpl.
  rewrite (Hb u), (dev_bypass_update Hdev) by left. apply IH. intros; apply Hb; by right.
Qed.

Lemma bind_bypass (s : hw (D:=D)) l :
  (forall u, u ∈ l -> h_ir s u = ones u) ->
  l ≫= (fun u => dr_capture dev (h_dev s) u (h_ir s u)) = replicate (length l) false.
Proof.
  induction l as [|u l IH]; intros Hb; [done|]. rewrite bind_cons.
  rewrite (Hb u), (dev_bypass_capture Hdev), IH by (left || intros; apply Hb; by right). done.
Qed.

Lemma exec_dr s t before after d rd (k : Z) :
  order = before ++ t :: after -> NoDup order ->
  (forall u, u ∈ order -> u <> t -> h_ir s u = ones u) ->
  length d = dr_len dev t (h_ir s t) ->
  let tdi := replicate (length before) false ++ d ++ replicate (length after) false in
  let captured := dr_capture dev (h_dev s) t (h_ir s t) in
  exists s', exec dev order s [CaptureDr; Shift tdi rd k]
      = (s', [[]; replicate (length before) false ++ captured ++ replicate (length after) false])
    /\ h_dev s' = dr_update dev (h_dev s) t (h_ir s t) d /\ h_ir s' = h_ir s.
Proof.
  intros Hord Hnd Hothers Hd tdi captured.
  assert (forall u, u ∈ before ++ after -> h_ir s u = ones u) as Hb.
  { intros u Hu. apply Hothers; [rewrite Hord; set_solver|]. intros ->.
    rewrite Hord in Hnd. apply NoDup_app in Hnd as (_ & Hdis & [Hn _]%NoDup_cons). set_solver. }
  set (cap := fun u => dr_capture dev (h_dev s) u (h_ir s u)).
  assert (order ≫= cap = replicate (length before) false ++ captured ++ replicate (length after) false) as Hreg.
  { rewrite Hord, bind_app, bind_cons. unfold cap.
    rewrite (bind_bypass s before), (bind_bypass s after) by set_solver. done. }
  assert (length captured = length d) as Hlc by (unfold captured; by rewrite (dev_dr_length Hdev), Hd).
  cbn [exec exec_op h_side h_dev h_ir]. fold cap. rewrite Hreg. rewrite shift_reg_full.
  2:{ unfold tdi. rewrite !length_app, !length_replicate, Hlc. done. }
  eexists. split; [done|]. split; [|done]. simpl h_dev.
  set (new := load _ _ _ _). assert (new t = d) as Hnew.
  { unfold new, tdi. rewrite Hord.
    assert (forall l, (forall u, u ∈ l -> u ∈ before ++ after) ->
      length l = sum_list_with (fun u => length (cap u)) l) as Hs.
    { induction l as [|w l IH]; intros Hl; [done|]. simpl. rewrite IH at 1 by set_solver.
      unfold cap at 2. rewrite Hb, (dev_bypass_capture Hdev) by set_solver. done. }
    rewrite (Hs before), (Hs after) by set_solver.
    rewrite load_padded by (rewrite <- ?Hord; done). by rewrite decide_True. }
  rewrite Hord, foldl_app. simpl. rewrite (foldl_bypass s new before) by set_solver.
  rewrite (foldl_bypass s new after) by set_solver. by rewrite Hnew.
Qed.

(** *** One operation *)

(** What an operation means for the TAP alone: the device afterwards and the
    value read. *)
Definition tap_spec (d : D) (t : nat) (o : tap_op V) : D * option (list bool) :=
  match o with
  | TapShift (Some v) (Some tdi) rd _ _ =>
      let ir := bits_of (irlen t) v in
      (dr_update dev d t ir (bv_bits tdi), if rd then Some (dr_capture dev d t ir) else None)
  | TapIrStatus => (d, Some (ir_capture dev d t))
  | _ => (d, None)
  end.

(** Operations of a TAP of the chain: a data shift has the length of the
    register its instruction selects, and the instruction is not BYPASS. *)
Definition envelope_ok (e : envelope V) : Prop :=
  match e with
  | Top t o =>
      t ∈ order /\
      match o with
      | TapShift (Some v) (Some tdi) _ _ _ =>
          bv_ok tdi /\ v <> bypass t /\ length (bv_bits tdi) = dr_len dev t (bits_of (irlen t) v)
      | TapShift None (Some _) _ _ _ | OtherTapOp => False
      | _ => True
      end
  | NotTapOp => False
  end.

(** A resolution that will deliver [val], the posted operations having
    answered [tdos]. *)
Definition delivers (tdos : list (list bool)) (r : resolution) (val : option (list bool)) : Prop :=
  match r, val with
  | RNow, None => True
  | RAnchor f None, None => (f < length tdos)%nat
  | RAnchor f (Some (o, l)), Some bits =>
      exists tdo, tdos !! f = Some tdo /\ 0 <= o /\ 0 <= l /\ o + l <= zlen tdo
                  /\ slice tdo o (o + l) = bits
  | _, _ => False
  end.

Lemma delivers_app tdos tdos' r val : delivers tdos r val -> delivers (tdos ++ tdos') r val.
Proof.
  destruct r as [| |f [[o l]|]], val as [bits|]; simpl; try done.
  - intros (tdo & Hf & ?). exists tdo. split; [by apply lookup_app_l_Some|done].
  - rewrite length_app. lia.
Qed.

(** The state shared by the lemmas below: contexts, cache and hardware
    agree. *)
Record chain_ok (c : chain) (s : hw (D:=D)) : Prop := {
  ck_geo : geo c order;
  ck_irlen : irlen_known c;
  ck_cache : cache_ok c s;
}.

Lemma invalidate_geo c t v : geo_equiv c (invalidate_ir_cache_for_shift c t v).
Proof.
  split_and!; [done..|]. intros u. simpl. rewrite map_lookup_imap.
  destruct (c_contexts c !! u); simpl; by constructor.
Qed.

Lemma chain_ok_invalidate c s s' t v :
  chain_ok c s -> t ∈ order -> h_ir s' t = bits_of (irlen t) v ->
  (forall u, u ∈ order -> u <> t -> h_ir s' u = ones u) ->
  chain_ok (invalidate_ir_cache_for_shift c t v) s'.
Proof.
  intros [Hg Hk _] Ht Hir Hothers. constructor.
  - by rewrite <- (invalidate_geo c t v).
  - intros u x. simpl. rewrite map_lookup_imap. destruct (c_contexts c !! u) as [y|] eqn:Hy; [|done].
    intros [= <-]. exact (Hk u y Hy).
  - intros u x w Hu. simpl. rewrite map_lookup_imap. destruct (c_contexts c !! u) as [y|] eqn:Hy; [|done].
    intros [= <-]. simpl. intros [= <-]. case_bool_decide as Hut; [subst u|].
    + split; [done|]. intros _. apply Hothers.
    + assert (Z.shiftl 1 (x_irlen y) - 1 = bypass u) as ->
        by (rewrite (Hk u y Hy), shiftl_1 by lia; done).
      rewrite Hothers, bits_of_bypass by done. done.
Qed.

Lemma chain_ok_ir c s s' : chain_ok c s -> h_ir s' = h_ir s -> chain_ok c s'.
Proof. intros [Hg Hk Hc] Hir. constructor; [done..|]. intros t x v. rewrite Hir. apply Hc. Qed.

(** The instruction shift. *)
Lemma post_ir_sound c s posted t x v rd :
  chain_ok c s -> t ∈ order -> c_contexts c !! t = Some x ->
  exists c' tdi s', post_ir c posted t x v rd = Ok (c', posted ++ [CaptureIr; Shift tdi rd 0])
    /\ exec dev order s (op_bits <$> [CaptureIr; Shift tdi rd 0])
       = (s', [[]; order ≫= ir_capture dev (h_dev s)])
    /\ chain_ok c' s' /\ h_dev s' = h_dev s
    /\ h_ir s' t = bits_of (irlen t) v /\ (forall u, u ∈ order -> u <> t -> h_ir s' u = ones u)
    /\ slice (order ≫= ir_capture dev (h_dev s)) (x_ir_pre x) (x_ir_pre x + x_irlen x)
       = ir_capture dev (h_dev s) t
    /\ 0 <= x_ir_pre x /\ x_ir_pre x + x_irlen x <= zlen (order ≫= ir_capture dev (h_dev s)).
Proof.
  intros Hck Ht Hx. destruct (Hck) as [Hg Hk Hc].
  destruct (place c t x Hg Hk Ht Hx) as (before & after & Hord & Hpre & Hpost & _ & _).
  unfold post_ir. rewrite (Hk t x Hx).
  destruct (bv_of_int_law v (Z.of_nat (irlen t))) as (b & -> & Hb & Hbb); [lia|]. rewrite bind_of_Ok.
  rewrite Nat2Z.id in Hbb.
  destruct (pad_with_spec true (x_ir_pre x) b (x_ir_post x) Hb) as (tdi & Hpad & Htok & Htb); [lia..|].
  simpl fill_value in Hpad. rewrite Hpad, bind_of_Ok.
  rewrite Hpre, Hpost, !Nat2Z.id, Hbb in Htb.
  destruct (exec_ir s t before after (bits_of (irlen t) v) rd 0 Hord (geo_nodup _ _ Hg))
    as (s' & He & Hd & Hit & Hio & Hsl); [by rewrite length_bits_of|].
  eexists _, tdi, s'. split; [done|].
  change (op_bits <$> [CaptureIr; Shift tdi rd 0]) with [CaptureIr; Shift (bv_bits tdi) rd 0].
  rewrite Htb. split; [done|].
  rewrite Hpre. split_and!; try done; [by apply chain_ok_invalidate with s|lia|].
  rewrite (length_bind_captures _ irlen) by (intros; apply (dev_ir_length Hdev)).
  rewrite Hord, sum_list_with_app. simpl. lia.
Qed.

(** The data shift, the instruction being loaded. *)
Lemma post_dr_sound c s t x v d rd k :
  chain_ok c s -> t ∈ order -> c_contexts c !! t = Some x ->
  h_ir s t = bits_of (irlen t) v -> (forall u, u ∈ order -> u <> t -> h_ir s u = ones u) ->
  bv_ok d -> length (bv_bits d) = dr_len dev t (bits_of (irlen t) v) ->
  exists tdi s' tdo, pad_with 0 (x_dr_pre x) d (x_dr_post x) = Ok tdi
    /\ exec dev order s (op_bits <$> [CaptureDr; Shift tdi rd k]) = (s', [[]; tdo])
    /\ chain_ok c s' /\ h_dev s' = dr_update dev (h_dev s) t (bits_of (irlen t) v) (bv_bits d)
    /\ 0 <= x_dr_pre x /\ x_dr_pre x + zlen (bv_bits d) <= zlen tdo
    /\ slice tdo (x_dr_pre x) (x_dr_pre x + zlen (bv_bits d))
       = dr_capture dev (h_dev s) t (bits_of (irlen t) v).
Proof.
  intros Hck Ht Hx Hit Hio Hd Hl. destruct (Hck) as [Hg Hk Hc].
  destruct (place c t x Hg Hk Ht Hx) as (before & after & Hord & _ & _ & Hpre & Hpost).
  destruct (pad_with_spec false (x_dr_pre x) d (x_dr_post x) Hd) as (tdi & Hpad & Htok & Htb); [lia..|].
  rewrite Hpre, Hpost, !Nat2Z.id in Htb. simpl fill_value in Hpad.
  destruct (exec_dr s t before after (bv_bits d) rd k Hord (geo_nodup _ _ Hg) Hio)
    as (s' & He & Hdv & Hir); [by rewrite Hit|]. rewrite Hit in He, Hdv.
  eexists tdi, s', _. split; [done|].
  change (op_bits <$> [CaptureDr; Shift tdi rd k]) with [CaptureDr; Shift (bv_bits tdi) rd k].
  rewrite Htb. split; [done|].
  assert (length (dr_capture dev (h_dev s) t (bits_of (irlen t) v)) = length (bv_bits d)) as Hlc
    by (by rewrite (dev_dr_length Hdev)).
  split_and!; [by eapply chain_ok_ir|done|lia| |].
  - rewrite Hpre, !length_app, !length_replicate. lia.
  - rewrite Hpre. apply slice_app_mid; [by rewrite length_replicate|lia].
Qed.

(** What one entry of the batch adds. *)
Definition flush_step (c : chain) (s : hw (D:=D)) (posted : list (op V)) (tdos : list (list bool))
    (t : nat) (o : tap_op V) (res : result (chain * list (op V) * resolution)) : Prop :=
  exists c' new r s' tdos', res = Ok (c', posted ++ new, r)
    /\ exec dev order s (op_bits <$> new) = (s', tdos') /\ chain_ok c' s'
    /\ h_dev s' = (tap_spec (h_dev s) t o).1 /\ delivers (tdos ++ tdos') r (tap_spec (h_dev s) t o).2.

(** The instruction stage of a shift: loaded already, or shifted now. *)
Lemma ir_stage_sound c s posted t x v :
  chain_ok c s -> t ∈ order -> c_contexts c !! t = Some x ->
  exists c1 new1 done1 s1 tdos1,
    (if bool_decide (x_current_ir x = Some v) then Ok (c, posted, None)
     else '(c, posted) ← post_ir c posted t x v false;
          Ok (c, posted, Some (length posted - 1)%nat)) = Ok (c1, posted ++ new1, done1)
    /\ exec dev order s (op_bits <$> new1) = (s1, tdos1) /\ chain_ok c1 s1 /\ h_dev s1 = h_dev s
    /\ h_ir s1 t = bits_of (irlen t) v
    /\ (v <> bypass t -> forall u, u ∈ order -> u <> t -> h_ir s1 u = ones u)
    /\ (forall f, done1 = Some f -> (f < length posted + length new1)%nat).
Proof.
  intros Hck Ht Hx. case_bool_decide as Hcur.
  - exists c, [], None, s, []. rewrite app_nil_r.
    destruct (ck_cache _ _ Hck t x v Ht Hx Hcur) as [Hir Hothers]. split_and!; done.
  - destruct (post_ir_sound c s posted t x v false Hck Ht Hx)
      as (c' & tdi & s' & -> & He & Hck' & Hd & Hit & Hio & _).
    rewrite bind_of_Ok. eexists c', _, _, s', _. split; [done|]. split; [exact He|].
    split_and!; try done. intros f [= <-]. rewrite length_app. simpl. lia.
Qed.

Lemma exec_run s k : exec dev order s (op_bits <$> [Run (V:=V) k]) = (s, [[]]).
Proof. done. Qed.

Lemma flush_shift_sound c s posted tdos t x v tdi rd pre post :
  chain_ok c s -> length tdos = length posted -> c_contexts c !! t = Some x ->
  envelope_ok (Top t (TapShift (Some v) tdi rd pre post)) ->
  flush_step c s posted tdos t (TapShift (Some v) tdi rd pre post)
    (flush_shift c posted t x (Some v) tdi rd pre post).
Proof.
  intros Hck Hlen Hx [Ht Hok]. unfold flush_shift.
  destruct (ir_stage_sound c s posted t x v Hck Ht Hx)
    as (c1 & new1 & done1 & s1 & tdos1 & -> & He1 & Hck1 & Hd1 & Hit1 & Hio1 & Hf1).
  rewrite bind_of_Ok. cbv beta iota zeta.
  pose proof (length_exec dev order s (op_bits <$> new1)) as Hl1. rewrite He1, length_fmap in Hl1. simpl in Hl1.
  assert (exists new2 tdos2 run2, (if pre =? 0 then (posted ++ new1, None)
            else ((posted ++ new1) ++ [Run pre], Some (length (posted ++ new1))))
            = (posted ++ new1 ++ new2, run2)
          /\ exec dev order s (op_bits <$> new1 ++ new2) = (s1, tdos1 ++ tdos2)
          /\ length tdos2 = length new2
          /\ (forall f, run2 = Some f -> (f < length posted + length (new1 ++ new2))%nat))
    as (new2 & tdos2 & run2 & -> & He2 & Hl2 & Hf2).
  { destruct (pre =? 0).
    - exists [], [], None. rewrite !app_nil_r. done.
    - exists [Run pre], [[]], (Some (length (posted ++ new1))). rewrite <- app_assoc. split; [done|].
      rewrite fmap_app, exec_app, He1, exec_run. split_and!; try done.
      intros f [= <-]. rewrite !length_app. simpl. lia. }
  assert (length (tdos ++ tdos1 ++ tdos2) = length posted + length (new1 ++ new2))%nat as Hl12
    by (rewrite !length_app; lia).
  destruct tdi as [d|].
  - destruct Hok as (Hd & Hv & Hdl).
    assert (c_contexts c1 !! t <> None) as Hc1.
    { pose proof (ck_geo _ _ Hck1) as Hg1. apply (geo_members _ _ Hg1) in Ht as (y & Hy & _). congruence. }
    destruct (c_contexts c1 !! t) as [x1|] eqn:Hx1; [|done].
    assert (x_dr_pre x1 = x_dr_pre x /\ x_dr_post x1 = x_dr_post x) as [Hpre Hpost].
    { destruct (place c t x (ck_geo _ _ Hck) (ck_irlen _ _ Hck) Ht Hx) as (b & a & Ho & _ & _ & H1 & H2).
      destruct (place c1 t x1 (ck_geo _ _ Hck1) (ck_irlen _ _ Hck1) Ht Hx1) as (b' & a' & Ho' & _ & _ & H1' & H2').
      pose proof (geo_nodup _ _ (ck_geo _ _ Hck)) as Hnd. rewrite Ho in Hnd, Ho'.
      destruct (NoDup_split_unique t b a b' a' Hnd Ho') as [-> ->]. lia. }
    destruct (post_dr_sound c1 s1 t x1 v d rd post Hck1 Ht Hx1 Hit1 (Hio1 Hv) Hd Hdl)
      as (tdi & s3 & tdo & Hpad & He3 & Hck3 & Hd3 & Hp0 & Hbd & Hsl).
    rewrite Hpre, Hpost in *. rewrite Hpad, bind_of_Ok. cbv zeta.
    exists c1, (new1 ++ new2 ++ [CaptureDr; Shift tdi rd post]), (RAnchor
      (length ((posted ++ new1 ++ new2) ++ [CaptureDr; Shift tdi rd post]) - 1)
      (if rd then Some (x_dr_pre x, bv_len d) else None)), s3, ((tdos1 ++ tdos2) ++ [[]; tdo]).
    split; [by rewrite <- !app_assoc|].
    split; [rewrite app_assoc, fmap_app, exec_app, He2, He3; done|]. split; [done|].
    split; [by rewrite Hd3, Hd1|]. simpl tap_spec. rewrite length_app. simpl length.
    rewrite (app_assoc tdos). rewrite <- Hd1.
    assert (length ((posted ++ new1 ++ new2)) + 2 - 1 = length (tdos ++ tdos1 ++ tdos2) + 1)%nat as ->
      by (rewrite Hl12, !length_app; lia).
    destruct rd; simpl.
    + exists tdo. rewrite lookup_app_r by lia. rewrite bv_len_law by done.
      split_and!; [|done|lia|done|done]. by replace (_ + 1 - _)%nat with 1%nat by lia.
    + rewrite !length_app. simpl. lia.
  - destruct (negb (post =? 0)).
    + eexists c1, (new1 ++ new2 ++ [Run post]), _, s1, ((tdos1 ++ tdos2) ++ [[]]).
      split; [by rewrite <- !app_assoc|].
      split; [rewrite app_assoc, fmap_app, exec_app, He2, exec_run; done|]. split_and!; try done.
      simpl. rewrite !length_app in *. simpl. lia.
    + destruct run2 as [f|]; [|destruct done1 as [f|]].
      * eexists c1, (new1 ++ new2), _, s1, (tdos1 ++ tdos2). split; [done|]. split; [exact He2|].
        split_and!; try done. simpl. rewrite Hl12. by apply Hf2.
      * eexists c1, (new1 ++ new2), _, s1, (tdos1 ++ tdos2). split; [done|]. split; [exact He2|].
        split_and!; try done. simpl. rewrite Hl12, length_app. specialize (Hf1 f eq_refl). lia.
      * eexists c1, (new1 ++ new2), _, s1, (tdos1 ++ tdos2). split; [done|]. split; [exact He2|].
        split_and!; done.
Qed.

Lemma flush_one_sound c s posted tdos t o :
  chain_ok c s -> length tdos = length posted -> envelope_ok (Top t o) ->
  flush_step c s posted tdos t o (flush_one c posted (Top t o)).
Proof.
  intros Hck Hlen Hok. destruct (Hok) as [Ht Ho]. pose proof (ck_geo _ _ Hck) as Hg.
  destruct (proj1 (geo_members _ _ Hg t) Ht) as (x & Hx & He).
  unfold flush_one. rewrite Hx, He. simpl negb. cbv iota.
  destruct o as [[v|] tdi rd pre post|k| |].
  - by apply flush_shift_sound.
  - destruct tdi; [done|]. unfold flush_shift. rewrite bind_of_Ok. cbv beta iota zeta.
    assert (length (tdos ++ [[]]) = S (length posted)) as Hl1 by (rewrite length_app, Hlen; simpl; lia).
    destruct (pre =? 0), (negb (post =? 0)); cbv beta iota zeta.
    + eexists c, [Run post], _, s, [[]]. split_and!; try done. simpl. lia.
    + eexists c, [], _, s, []. rewrite app_nil_r. split_and!; done.
    + eexists c, [Run pre; Run post], _, s, [[]; []]. rewrite <- app_assoc. split_and!; try done.
      simpl. rewrite !length_app. simpl. lia.
    + eexists c, [Run pre], _, s, [[]]. split_and!; try done. simpl. lia.
  - eexists c, [Run k], _, s, [[]]. split_and!; try done. simpl. rewrite length_app. simpl. lia.
  - destruct (post_ir_sound c s posted t x (Z.shiftl 1 (x_irlen x) - 1) true Hck Ht Hx)
      as (c' & tdi & s' & -> & Hex & Hck' & Hd & _ & _ & Hsl & Hp0 & Hpb).
    rewrite bind_of_Ok. eexists c', _, _, s', _. split; [done|]. split; [exact Hex|].
    split_and!; [done..|]. simpl. exists (order ≫= ir_capture dev (h_dev s)).
    pose proof (geo_irlen _ _ Hg t x Hx). split_and!; try done; [|lia].
    rewrite length_app. simpl. rewrite lookup_app_r by lia.
    by replace (length posted + 2 - 1 - length tdos)%nat with 1%nat by lia.
  - done.
Qed.

(** *** A batch *)

(** Every TAP on its own, one operation after the other. *)
Fixpoint batch_spec (d : D) (batch : list (envelope V)) : D * list (option (list bool)) :=
  match batch with
  | [] => (d, [])
  | Top t o :: batch =>
      let '(d, r) := tap_spec d t o in
      let '(d, rs) := batch_spec d batch in (d, r :: rs)
  | NotTapOp :: batch => batch_spec d batch
  end.

Lemma flush_loop_sound batch : forall c s posted tdos rs vals s0,
  chain_ok c s -> exec dev order s0 (op_bits <$> posted) = (s, tdos) ->
  Forall2 (delivers tdos) rs vals -> Forall envelope_ok batch ->
  exists c' new rs' s' tdos',
    foldM (fun '(c, posted, rs) e =>
      '(c, posted, r) ← flush_one c posted e; Ok (c, posted, rs ++ [r])) (c, posted, rs) batch
      = Ok (c', posted ++ new, rs')
    /\ exec dev order s0 (op_bits <$> posted ++ new) = (s', tdos ++ tdos') /\ chain_ok c' s'
    /\ h_dev s' = (batch_spec (h_dev s) batch).1
    /\ Forall2 (delivers (tdos ++ tdos')) rs' (vals ++ (batch_spec (h_dev s) batch).2).
Proof.
  induction batch as [|e batch IH]; intros c s posted tdos rs vals s0 Hck Hex Hrs Hok.
  { exists c, [], rs, s, []. rewrite !app_nil_r. by split_and!. }
  apply Forall_cons in Hok as [He Hok]. destruct e as [t o|]; [|done].
  pose proof (length_exec dev order s0 (op_bits <$> posted)) as Hl. rewrite Hex, length_fmap in Hl. simpl in Hl.
  destruct (flush_one_sound c s posted tdos t o Hck Hl He)
    as (c1 & new1 & r1 & s1 & tdos1 & Hf & Hex1 & Hck1 & Hd1 & Hr1).
  cbn [foldM]. rewrite Hf, !bind_of_Ok. cbv beta iota.
  destruct (IH c1 s1 (posted ++ new1) (tdos ++ tdos1) (rs ++ [r1]) (vals ++ [(tap_spec (h_dev s) t o).2]) s0)
    as (c2 & new2 & rs2 & s2 & tdos2 & -> & Hex2 & Hck2 & Hd2 & Hr2); try done.
  { by rewrite fmap_app, exec_app, Hex, Hex1. }
  { apply Forall2_app; [|by constructor]. eapply Forall2_impl; [done|]. intros. by apply delivers_app. }
  exists c2, (new1 ++ new2), rs2, s2, (tdos1 ++ tdos2). rewrite !app_assoc. split_and!; try done.
  - rewrite Hd2, Hd1. simpl. destruct (tap_spec (h_dev s) t o) as [d1 v1]. simpl.
    by destruct (batch_spec d1 batch).
  - rewrite Hd1 in Hr2. simpl. destruct (tap_spec (h_dev s) t o) as [d1 v1]. simpl in *.
    destruct (batch_spec d1 batch). simpl in *. by rewrite <- (app_assoc vals) in Hr2.
Qed.

(** The value a settled future carries. *)
Definition carries (r : result (option V)) (val : option (list bool)) : Prop :=
  match val with
  | None => r = Ok None
  | Some bits => exists b, r = Ok (Some b) /\ bv_bits b = bits
  end.

Lemma resolve_carries results tdos r val :
  (forall f tdo, tdos !! f = Some tdo -> bv_ok (results f) /\ bv_bits (results f) = tdo) ->
  delivers tdos r val -> carries (resolve results r) val.
Proof.
  intros Hres. destruct r as [| |f [[o l]|]], val as [bits|]; simpl; try done.
  intros (tdo & Hf & Ho & Hl & Hb & Hsl). destruct (Hres f tdo Hf) as [Hok Hbits].
  pose proof (bv_len_law _ Hok) as Hlen. rewrite Hbits in Hlen.
  destruct (Z.eqb_spec o 0) as [->|], (Z.eqb_spec l (bv_len (results f))) as [->|]; simpl;
    try (destruct (bv_slice_law (results f) o (o + l) Hok) as [_ Hs]; [lia..|];
         eexists; split; [done|]; by rewrite Hs, Hbits).
  - eexists. split; [done|]. rewrite Hbits, <- Hsl. by rewrite slice_full by lia.
  - destruct (bv_slice_law (results f) 0 (0 + l) Hok) as [_ Hs]; [lia..|].
    eexists. split; [done|]. by rewrite Hs, Hbits.
  - destruct (bv_slice_law (results f) o (o + bv_len (results f)) Hok) as [_ Hs]; [lia..|].
    eexists. split; [done|]. by rewrite Hs, Hbits.
Qed.

(** Through the chain every TAP answers as it would alone: after a flush the
    devices are in the state, and the futures carry the values, of the
    operations run one TAP at a time, and the cache is still right. *)
Lemma flush_ops_sound c s batch results :
  chain_ok c s -> Forall envelope_ok batch ->
  exists c' posted rs s' tdos,
    flush_ops c batch = Ok (c', posted, rs)
    /\ exec dev order s (op_bits <$> posted) = (s', tdos) /\ chain_ok c' s'
    /\ h_dev s' = (batch_spec (h_dev s) batch).1
    /\ ((forall f tdo, tdos !! f = Some tdo -> bv_ok (results f) /\ bv_bits (results f) = tdo) ->
        Forall2 carries (resolve results <$> rs) (batch_spec (h_dev s) batch).2).
Proof.
  intros Hck Hok. unfold flush_ops.
  destruct (flush_loop_sound batch c s [] [] [] [] s Hck eq_refl (Forall2_nil_2 _ _ _) Hok)
    as (c' & new & rs & s' & tdos & -> & Hex & Hck' & Hd & Hrs).
  exists c', new, rs, s', tdos. split_and!; try done. intros Hres. simpl in Hrs.
  apply Forall2_fmap_l. eapply Forall2_impl; [done|]. intros r val. by apply resolve_carries.
Qed.
End Soundness.

(** ** Properties *)


(** Two TAPs with two-bit instruction registers: the first has a four-bit
    register that keeps what is written to it, the second a constant. *)
Definition sample_device : device (list bool) := {|
  dr_capture d t ir := if decide (ir = [true; true]) then [false]
                       else if decide (t = 1%nat) then take 4 (d ++ replicate 4 false)
                       else [true; false; true];
  dr_update d t ir v := if decide (ir = [true; true]) then d
                        else if decide (t = 1%nat) then v else d;
  ir_capture d t := [true; false];
  dr_len t ir := if decide (ir = [true; true]) then 1%nat
                 else if decide (t = 1%nat) then 4%nat else 3%nat;
|}.

Lemma sample_device_ok : device_ok sample_device (fun _ => 2%nat).
Proof.
  split; try done. intros d t ir. cbn [dr_capture dr_len sample_device]. repeat case_decide; try done.
  rewrite length_take, length_app, length_replicate. lia.
Qed.

Definition two_taps : chain :=
  mkChain {[ 1%nat := mkCtx 2 None 0 2 0 1 None true None [];
             2%nat := mkCtx 2 None 2 0 1 0 None true None [] ]} 4 2 [1%nat; 2%nat].

Lemma two_taps_geo : geo two_taps [1; 2]%nat.
Proof.
  destruct (tap_insert_spec chain_init [] [] 1%nat None 2 None chain_init_geo) as (c & Hc & Hg); [done..|].
  vm_compute in Hc. injection Hc as <-.
  destruct (tap_insert_spec _ [1%nat] [] 2%nat None 2 None Hg) as (c & Hc & Hg2); [done..|].
  vm_compute in Hc. injection Hc as <-. exact Hg2.
Qed.

Definition reset_hw : hw (D:=list bool) := mkHw [true; true; false; false] (fun _ => [true; true]) None.

Lemma two_taps_ok : chain_ok [1; 2]%nat (fun _ => 2%nat) two_taps reset_hw.
Proof.
  split; [apply two_taps_geo| |]; intros t x; simpl.
  - intros [[<- <-]|[? [<- <-]%lookup_singleton_Some]]%lookup_insert_Some; done.
  - intros v _ [[<- <-]|[? [<- <-]%lookup_singleton_Some]]%lookup_insert_Some; done.
Qed.


(** The elision is unsound for the BYPASS instruction itself.  Loading
    an instruction into one TAP records BYPASS for the other; a scan of the
    other TAP under BYPASS then shifts no instruction, although the first TAP
    still selects a longer register than the padding allows for: the value
    read differs from the TAP's own, and the first TAP's register is
    overwritten. *)
Theorem bypass_scan_misaligned :
  let batch := [Top 1 (TapShift (Some 2) None true 0 0);
                Top 2 (TapShift (Some 3) (Some [true]) true 0 0)] in
  exists c' posted rs s' tdos,
    flush_ops (A:=list bool) two_taps batch = Ok (c', posted, rs)
    /\ exec sample_device [1; 2]%nat reset_hw (op_bits (A:=list bool) <$> posted) = (s', tdos)
    /\ (resolve (A:=list bool) (fun f => default [] (tdos !! f)) <$> rs) !! 1%nat = Some (Ok (Some [true]))
    /\ (batch_spec sample_device (fun _ => 2%nat) (h_dev reset_hw) batch).2 !! 1%nat = Some (Some [false])
    /\ h_dev s' <> (batch_spec sample_device (fun _ => 2%nat) (h_dev reset_hw) batch).1.
Proof.
  eexists _, _, _, _, _. split; [vm_compute; reflexivity|]. split; [vm_compute; reflexivity|].
  split; [reflexivity|]. split; [vm_compute; reflexivity|]. vm_compute. discriminate.
Qed.
