(* ===== verification/JtagProbe.v ===== *)
(** * Blind discovery of a chain (src/acrobe/protocol/jtag.py)

    [Chain.shift_discover] finds the length and content of a register by
    shifting a marker through it; [Chain.__probe_chain_in_reset_state] decodes
    three such registers into the list of (idcode, IR length) of the chain;
    [ir_merge], nested in it, enumerates the ways to cut the captured IR into
    that many TAPs. *)

From S2P Require Import Prelude BitVec JtagTap JtagChain JtagRefresh.

(** ** Definitions *)

Section Discover.
Context {A V : Type} `{BitVec A V}.

Definition marker : Z := 0xc05a5a03.

(** What [shift_discover] shifts in. *)
Definition discover_tdi (max_length : Z) : result V :=
  m ← bv_of_int marker 32;
  z ← bv_of_int 0 (max_length + 4);
  bv_add m z.

(** [int(math.log2(x)) + 1] is the bit length of [x]. *)
Definition shift_discover (captured : V) (max_length : Z) : result V :=
  let tdo := bv_slice captured 0 (max_length + 32) in
  v ← bv_int tdo;
  if v =? 0 then Err OpenChain
  else
    high ← bv_of_int (-1) (bv_len tdo);
    stuck ← bv_eqb tdo high;
    if (stuck : bool) then Err OpenChain
    else
      let length := Z.log2 v + 1 in
      let register := bv_slice tdo 0 (length - 32) in
      rx_marker ← bv_int (bv_slice tdo (length - 32) length);
      if rx_marker =? marker then Ok register else Err OpenChain.

(** The idcode loop of the probe, [pos] being the position in [reset_dr]. *)
Fixpoint parse_idcodes (reset_dr : V) (device_count : nat) (pos : Z) : result (list (option Z)) :=
  match device_count with
  | O => Ok []
  | S n =>
      if bv_len reset_dr <=? pos then rest ← parse_idcodes reset_dr n pos; Ok (None :: rest)
      else
        b ← bv_get reset_dr pos;
        if (b : bool) then
          idc ← bv_int (bv_slice reset_dr pos (pos + 32));
          rest ← parse_idcodes reset_dr n (pos + 32);
          Ok (Some idc :: rest)
        else rest ← parse_idcodes reset_dr n (pos + 1); Ok (None :: rest)
  end.

(** Positions where the captured IR reads 01. *)
Definition is_cutoff (captured_ir : V) (i : Z) : result bool :=
  v ← bv_int (bv_slice captured_ir i (i + 2)); Ok (v =? 1).

Definition cutoffs (captured_ir : V) : result (list Z) :=
  foldM (fun acc i => b ← is_cutoff captured_ir i; Ok (if b : bool then acc ++ [i] else acc))
    [] (seqZ 0 (bv_len captured_ir)).
End Discover.

(** [[b - a for a, b in zip(cutoffs, cutoffs[1:])]] *)
Definition diffs (cs : list Z) : list Z := zip_with (fun a b => b - a) cs (tail cs).

(** [ir_merge], with fuel: the recursive calls are on shorter lists. *)
Fixpoint ir_merge (fuel : nat) (prefix parts : list Z) (count_left : Z) : list (list Z) :=
  match fuel with
  | O => []
  | S fuel =>
      if (zlen parts <? count_left) || (count_left <? 0) then []
      else if zlen parts =? count_left then [prefix ++ parts]
      else seq 1 (length parts) ≫= fun i =>
             ir_merge fuel (prefix ++ [zsum (take i parts)]) (drop i parts) (count_left - 1)
  end.

(** The filter on the lengths the TAP database knows. *)
Definition compatible (known : list (option Z)) (p : list Z) : bool :=
  forallb (fun '(k, l) => match k with None => true | Some k => k =? l end) (zip known p).

Section Probe.
Context {A V : Type} `{BitVec A V}.
Variable irlen_for : Z -> option Z.       (* Tap.db lookup by idcode *)

(** [__probe_chain_in_reset_state], from the three registers it reads. *)
Definition probe_chain (reset_dr captured_ir bypass_dr : V) : result (list slot) :=
  let device_count := bv_len bypass_dr in
  idcodes ← parse_idcodes reset_dr (Z.to_nat device_count) 0;
  cs ← cutoffs captured_ir;
  if match cs with c :: _ => negb (c =? 0) | [] => true end then Err ValueError
  else
    let segments := diffs (cs ++ [bv_len captured_ir]) in
    let possibilities := ir_merge (S (length segments)) [] segments device_count in
    let known := (fun idc => match idc with Some i => irlen_for i | None => None end) <$> idcodes in
    match filter (fun p => compatible known p) possibilities with
    | [p] => Ok (zip idcodes p)
    | _ => Err ValueError
    end.
End Probe.

(** ** [ir_merge] enumerates the groupings *)

Lemma zsum_singletons (l : list Z) : zsum <$> ((fun x => [x]) <$> l) = l.
Proof.
  rewrite <- list_fmap_compose. rewrite <- (list_fmap_id l) at 2. apply list_fmap_ext.
  intros i x _. simpl. unfold zsum. simpl. lia.
Qed.

Lemma nonempty_length {T} (gs : list (list T)) :
  Forall (fun g => g <> []) gs -> (length gs <= length (concat gs))%nat.
Proof.
  induction 1 as [|g gs Hg _ IH]; [done|]. simpl. rewrite length_app.
  destruct g; [done|]. simpl. lia.
Qed.

Lemma groups_singletons (gs : list (list Z)) :
  Forall (fun g => g <> []) gs -> length gs = length (concat gs) -> zsum <$> gs = concat gs.
Proof.
  induction 1 as [|g gs Hg Hgs IH]; [done|]. cbn [concat]. rewrite length_app, fmap_cons. intros Hl.
  pose proof (nonempty_length gs Hgs).
  destruct g as [|x [|y g]]; [done| |simpl in *; lia].
  rewrite IH by (simpl in Hl; lia). simpl. f_equal. lia.
Qed.

Lemma ir_merge_spec fuel prefix parts n p :
  (length parts < fuel)%nat ->
  p ∈ ir_merge fuel prefix parts n <->
  exists gs, concat gs = parts /\ zlen gs = n /\ Forall (fun g => g <> []) gs
             /\ p = prefix ++ (zsum <$> gs).
Proof.
  revert prefix parts n. induction fuel as [|fuel IH]; intros prefix parts n Hf; [lia|]. cbn [ir_merge].
  destruct (Z.ltb_spec (zlen parts) n) as [Hlt|Hge]; simpl orb.
  { split; [by intros ?%not_elem_of_nil|]. intros (gs & <- & Hl & Hne & _).
    pose proof (nonempty_length gs Hne). lia. }
  destruct (Z.ltb_spec n 0) as [Hn|Hn].
  { split; [by intros ?%not_elem_of_nil|]. intros (gs & _ & Hl & _). lia. }
  destruct (Z.eqb_spec (zlen parts) n) as [Heq|Hneq].
  { rewrite list_elem_of_singleton. split.
    - intros ->. exists ((fun x => [x]) <$> parts). rewrite zsum_singletons, length_fmap.
      split_and!; [|done| |done].
      + clear. induction parts as [|x l IHl]; [done|]. rewrite fmap_cons. simpl. by rewrite IHl.
      + apply Forall_fmap, Forall_true. done.
    - intros (gs & <- & Hl & Hne & ->). by rewrite groups_singletons by (done || lia). }
  rewrite list_elem_of_bind. split.
  - intros (i & Hp & Hi%elem_of_seq). apply IH in Hp as (gs & Hc & Hl & Hne & ->).
    2:{ rewrite length_drop. lia. }
    exists (take i parts :: gs). simpl. rewrite Hc, take_drop, <- app_assoc. split_and!; [done|lia| |done].
    constructor; [|done]. intros Hnil. apply (f_equal length) in Hnil. rewrite length_take in Hnil. simpl in Hnil. lia.
  - intros (gs & Hc & Hl & Hne & ->). destruct gs as [|g gs]; [simpl in *; subst parts; simpl in *; lia|].
    apply Forall_cons in Hne as [Hg Hne]. simpl in Hc. exists (length g).
    assert (0 < length g)%nat by (destruct g; [done|simpl; lia]).
    split; [|apply elem_of_seq; subst parts; rewrite length_app; lia].
    apply IH; [rewrite length_drop; subst parts; rewrite length_app in *; lia|].
    exists gs. subst parts. rewrite drop_app_length, take_app_length. simpl in Hl.
    split_and!; [done|lia|done|]. by rewrite <- app_assoc.
Qed.

(** ** The register probe *)

Section ProbeProofs.
Context {A V : Type} `{BitVecLaws A V}.

Lemma Z_of_bits_zeros n : Z_of_bits (replicate n false) = 0.
Proof. rewrite <- bits_of_zero, Z_of_bits_bits_of. apply Z.mod_0_l. lia. Qed.

Lemma discover_tdi_spec max_length :
  0 <= max_length ->
  exists b : V, discover_tdi max_length = Ok b /\ bv_ok b
    /\ bv_bits b = bits_of 32 marker ++ replicate (Z.to_nat (max_length + 4)) false.
Proof.
  intros Hm. unfold discover_tdi.
  destruct (bv_of_int_law marker 32) as (m & -> & Hmo & Hmb); [lia|].
  destruct (bv_of_int_law 0 (max_length + 4)) as (z & -> & Hzo & Hzb); [lia|]. rewrite !bind_of_Ok.
  destruct (bv_add_law m z Hmo Hzo) as (b & ? & ? & Hb). exists b. split_and!; [done..|].
  by rewrite Hb, Hmb, Hzb, bits_of_zero.
Qed.

(** The vector [shift_discover] works on, for a register that fits. *)
Lemma discover_window (reg : list bool) max_length :
  zlen reg <= max_length ->
  slice (take (32 + Z.to_nat (max_length + 4))
           (reg ++ bits_of 32 marker ++ replicate (Z.to_nat (max_length + 4)) false))
    0 (max_length + 32)
  = reg ++ bits_of 32 marker ++ replicate (Z.to_nat (max_length - zlen reg)) false.
Proof.
  intros Hl. rewrite slice_nonneg, drop_0, Nat.sub_0_r, take_take by lia.
  rewrite take_app_ge by lia. f_equal.
  rewrite take_app_ge by (rewrite length_bits_of; lia). f_equal.
  rewrite length_bits_of, take_replicate. f_equal. lia.
Qed.

Lemma shift_discover_spec (captured : V) (reg : list bool) max_length :
  bv_ok captured -> zlen reg <= max_length ->
  bv_bits captured = take (32 + Z.to_nat (max_length + 4))
    (reg ++ bits_of 32 marker ++ replicate (Z.to_nat (max_length + 4)) false) ->
  exists r, shift_discover captured max_length = Ok r /\ bv_ok r /\ bv_bits r = reg.
Proof.
  intros Hok Hl Hcap. unfold shift_discover. cbv zeta.
  destruct (bv_slice_law captured 0 (max_length + 32) Hok) as [Htok Htb]; [lia|].
  rewrite Hcap, discover_window in Htb by done. set (tdo := bv_slice captured 0 (max_length + 32)) in *.
  set (z := Z.to_nat (max_length - zlen reg)) in *.
  assert (Z_of_bits (bv_bits tdo) = Z_of_bits reg + 2 ^ zlen reg * marker) as Hv.
  { rewrite Htb, !Z_of_bits_app, Z_of_bits_zeros, Z_of_bits_bits_of. change (marker mod 2 ^ Z.of_nat 32) with marker. lia. }
  pose proof (Z_of_bits_bound reg) as Hr. assert (0 < 2 ^ zlen reg) by lia.
  rewrite bv_int_law, Hv, bind_of_Ok by done.
  assert (2 ^ (zlen reg + 31) <= Z_of_bits reg + 2 ^ zlen reg * marker < 2 ^ Z.succ (zlen reg + 31)) as Hb.
  { rewrite Z.pow_succ_r, Z.pow_add_r by lia. change (2 ^ 31) with 2147483648. unfold marker. lia. }
  rewrite (Z.log2_unique (Z_of_bits reg + 2 ^ zlen reg * marker) (zlen reg + 31)) by lia.
  assert (0 < 2 ^ (zlen reg + 31)) by lia. rewrite (proj2 (Z.eqb_neq _ 0)) by lia.
  destruct (bv_of_int_law (-1) (bv_len tdo)) as (h & -> & Hho & Hhb); [rewrite bv_len_law by done; lia|].
  rewrite bind_of_Ok, bv_eqb_law, bind_of_Ok by done.
  rewrite bool_decide_eq_false_2.
  2:{ rewrite Hhb, bits_of_minus1, Htb. intros Heq. apply (f_equal (lookup (length reg + 2)%nat)) in Heq.
      rewrite lookup_app_r in Heq by lia. replace (length reg + 2 - length reg)%nat with 2%nat in Heq by lia.
      rewrite lookup_app_l in Heq by (rewrite length_bits_of; lia). symmetry in Heq.
      apply lookup_replicate in Heq as [Heq _]. done. }
  replace (zlen reg + 31 + 1 - 32) with (zlen reg) by lia.
  destruct (bv_slice_law tdo 0 (zlen reg) Htok) as [Hro Hrb]; [lia|].
  destruct (bv_slice_law tdo (zlen reg) (zlen reg + 31 + 1) Htok) as [Hmo Hmb]; [lia|].
  rewrite bv_int_law, bind_of_Ok, Hmb, Htb by done.
  rewrite (slice_app_mid reg (bits_of 32 marker)) by (rewrite ?length_bits_of; lia).
  rewrite Z_of_bits_bits_of. change (marker mod 2 ^ Z.of_nat 32 =? marker) with true. cbv iota.
  eexists. split_and!; [done..|]. rewrite Hrb, Htb.
  exact (slice_app_mid [] reg (bits_of 32 marker ++ replicate z false) 0 (zlen reg) eq_refl eq_refl).
Qed.

(** ** Idcodes *)

(** What a TAP leaves in its data register after a reset: its idcode, whose
    low bit is set, or the BYPASS bit. *)
Definition reset_bits (idc : option Z) : list bool :=
  match idc with Some i => bits_of 32 i | None => [false] end.

Definition idcode_ok (idc : option Z) : Prop :=
  match idc with Some i => 0 <= i < 2 ^ 32 /\ Z.odd i = true | None => True end.

Lemma parse_idcodes_spec (reset_dr : V) idcodes done_bits :
  bv_ok reset_dr -> Forall idcode_ok idcodes ->
  bv_bits reset_dr = done_bits ++ (idcodes ≫= reset_bits) ->
  parse_idcodes reset_dr (length idcodes) (zlen done_bits) = Ok idcodes.
Proof.
  intros Hok Hids. revert done_bits. induction Hids as [|idc ids Hi _ IH]; intros done_bits Hb; [done|].
  rewrite bind_cons in Hb. simpl length. cbn [parse_idcodes].
  assert (bv_len reset_dr = zlen done_bits + zlen (reset_bits idc ++ (ids ≫= reset_bits))) as Hlen.
  { rewrite bv_len_law by done. rewrite Hb, length_app. lia. }
  assert (0 < zlen (reset_bits idc)) as Hpos by (by destruct idc).
  rewrite length_app in Hlen. rewrite (proj2 (Z.leb_gt _ _)) by lia.
  assert (bv_get reset_dr (zlen done_bits) = Ok (match idc with Some _ => true | None => false end)) as ->.
  { rewrite bv_get_law by (done || lia). apply index_lookup; [lia|].
    rewrite Nat2Z.id, Hb, lookup_app_r, Nat.sub_diag by lia. destruct idc as [i|]; [|done].
    simpl reset_bits. rewrite lookup_app_l, lookup_bits_of by (rewrite ?length_bits_of; lia).
    change (Z.of_nat 0) with 0. rewrite Z.bit0_odd. by destruct Hi as [_ ->]. }
  rewrite bind_of_Ok. specialize (IH (done_bits ++ reset_bits idc)).
  rewrite <- app_assoc in IH. specialize (IH Hb). destruct idc as [i|]; simpl reset_bits in *.
  - destruct (bv_slice_law reset_dr (zlen done_bits) (zlen done_bits + 32) Hok) as [Hso Hsb]; [lia|].
    rewrite bv_int_law, Hsb, Hb, bind_of_Ok by done.
    rewrite (slice_app_mid done_bits (bits_of 32 i)) by (rewrite ?length_bits_of; lia).
    rewrite Z_of_bits_bits_of, Z.mod_small by apply Hi.
    rewrite length_app, length_bits_of, Nat2Z.inj_add in IH. change (Z.of_nat 32) with 32 in IH.
    by rewrite IH.
  - rewrite length_app, Nat2Z.inj_add in IH. change (zlen [false]) with 1 in IH. by rewrite IH.
Qed.

(** ** IR lengths *)

Definition cut_at (l : list bool) (i : Z) : bool := Z_of_bits (slice l i (i + 2)) =? 1.

Lemma cutoffs_spec (captured_ir : V) :
  bv_ok captured_ir ->
  cutoffs captured_ir
  = Ok (filter (fun i => cut_at (bv_bits captured_ir) i) (seqZ 0 (zlen (bv_bits captured_ir)))).
Proof.
  intros Hok. unfold cutoffs. rewrite bv_len_law by done.
  assert (forall l acc, Forall (fun i => 0 <= i) l ->
    foldM (fun acc i => b ← is_cutoff captured_ir i; Ok (if b : bool then acc ++ [i] else acc)) acc l
    = Ok (acc ++ filter (fun i => cut_at (bv_bits captured_ir) i) l)) as Hloop.
  { induction l as [|i l IH]; intros acc Hl; [by rewrite app_nil_r|].
    apply Forall_cons in Hl as [Hi Hl]. cbn [foldM]. unfold is_cutoff.
    destruct (bv_slice_law captured_ir i (i + 2) Hok) as [Hso Hsb]; [lia|].
    rewrite bv_int_law, Hsb, !bind_of_Ok by done. fold (cut_at (bv_bits captured_ir) i).
    rewrite IH by done. rewrite filter_cons. destruct (cut_at (bv_bits captured_ir) i); simpl; [|done].
    by rewrite <- app_assoc. }
  rewrite Hloop; [done|]. apply Forall_forall. intros i Hi%elem_of_seqZ. lia.
Qed.
End ProbeProofs.

(** Differences of a list of positions. *)
Lemma diffs_app cs1 m cs2 : diffs (cs1 ++ m :: cs2) = diffs (cs1 ++ [m]) ++ diffs (m :: cs2).
Proof.
  induction cs1 as [|c cs1 IH]; [done|]. unfold diffs in *.
  destruct cs1 as [|c' cs1]; simpl in *; [done|]. by rewrite IH.
Qed.

Lemma diffs_sum c cs m : zsum (diffs (c :: cs ++ [m])) = m - c.
Proof.
  revert c. induction cs as [|c' cs IH]; intros c; unfold diffs in *; simpl in *; [lia|].
  rewrite IH. lia.
Qed.

Lemma diffs_shift k cs : diffs (Z.add k <$> cs) = diffs cs.
Proof.
  unfold diffs. induction cs as [|c cs IH]; [done|]. destruct cs as [|c' cs]; [done|]. simpl in *. f_equal; [lia|]. done.
Qed.

(** The captured IR of one compliant TAP: at least two bits, 01 first. *)
Definition ir_pattern (l : list bool) : Prop := exists rest, l = true :: false :: rest.

Definition cut_list (l : list bool) : list Z := filter (fun i => cut_at l i) (seqZ 0 (zlen l)).

Lemma cut_at_head l : ir_pattern l -> cut_at l 0 = true.
Proof. intros [rest ->]. unfold cut_at. rewrite slice_nonneg by lia. done. Qed.

Lemma cut_list_head l :
  ir_pattern l -> exists cs, cut_list l = 0 :: cs /\ Forall (fun i => 0 < i < zlen l) cs.
Proof.
  intros Hp. pose proof (cut_at_head l Hp) as Hh. destruct Hp as [rest Hl].
  unfold cut_list. rewrite seqZ_cons by (rewrite Hl; simpl; lia). rewrite filter_cons, decide_True by (by rewrite Hh).
  eexists. split; [done|]. apply Forall_forall. intros i [_ Hi%elem_of_seqZ]%list_elem_of_filter. lia.
Qed.

Lemma filter_fmap_bool (f : Z -> Z) (P Q : Z -> bool) (l : list Z) :
  (forall i, i ∈ l -> P (f i) = Q i) -> filter (fun i => P i) (f <$> l) = f <$> filter (fun i => Q i) l.
Proof.
  induction l as [|i l IH]; intros Hpq; [done|]. rewrite fmap_cons, !filter_cons.
  rewrite IH by (intros; apply Hpq; by right). rewrite (Hpq i) by left. by destruct (Q i).
Qed.

(** The cuts of a chain are those of its first TAP and those of the rest. *)
Lemma cut_list_app l1 l2 :
  ir_pattern l1 ->
  exists cs1, cut_list (l1 ++ l2) = 0 :: cs1 ++ (Z.add (zlen l1) <$> cut_list l2).
Proof.
  intros Hp. assert (ir_pattern (l1 ++ l2)) as Hh%cut_at_head by (destruct Hp as [r ->]; by eexists).
  assert (0 < zlen l1) as Hpos by (destruct Hp as [r ->]; simpl; lia).
  unfold cut_list at 1. rewrite length_app, Nat2Z.inj_add, seqZ_app, filter_app, Z.add_0_l by lia.
  assert (seqZ (zlen l1) (zlen l2) = Z.add (zlen l1) <$> seqZ 0 (zlen l2)) as ->
    by (rewrite fmap_add_seqZ; f_equal; lia).
  rewrite (filter_fmap_bool _ _ (cut_at l2)).
  2:{ intros i Hi%elem_of_seqZ. unfold cut_at. rewrite !slice_nonneg by lia.
      rewrite drop_app_ge by lia.
      replace (Z.to_nat (zlen l1 + i) - length l1)%nat with (Z.to_nat i) by lia.
      by replace (Z.to_nat (zlen l1 + i + 2) - Z.to_nat (zlen l1 + i))%nat
        with (Z.to_nat (i + 2) - Z.to_nat i)%nat by lia. }
  rewrite (seqZ_cons 0 (zlen l1)) by lia. rewrite filter_cons, decide_True by (by rewrite Hh). eauto.
Qed.

(** The true IR lengths are one of the groupings of the segments. *)
Lemma true_lengths_grouping irs_bits :
  irs_bits <> [] -> Forall ir_pattern irs_bits ->
  exists gs, concat gs = diffs (cut_list (concat irs_bits) ++ [zlen (concat irs_bits)])
    /\ Forall (fun g => g <> []) gs /\ zsum <$> gs = (fun l => zlen l) <$> irs_bits.
Proof.
  intros Hne Hall. induction Hall as [|l ls Hl Hls IH]; [done|]. destruct ls as [|l' ls].
  - simpl concat. rewrite app_nil_r. destruct (cut_list_head l Hl) as (cs & -> & _).
    exists [diffs (0 :: cs ++ [zlen l])]. simpl concat. rewrite app_nil_r. split_and!; [done| |].
    + constructor; [|constructor]. by destruct cs.
    + rewrite !list_fmap_singleton. rewrite diffs_sum. by rewrite Z.sub_0_r.
  - destruct IH as (gs & Hgs & Hgne & Hsum); [done|].
    change (concat (l :: l' :: ls)) with (l ++ concat (l' :: ls)). set (rest := concat (l' :: ls)) in *.
    destruct (cut_list_app l rest Hl) as (cs1 & ->).
    assert (ir_pattern rest) as Hrp.
    { unfold rest. apply Forall_cons in Hls as [[r ->] _]. simpl. by eexists. }
    destruct (cut_list_head rest Hrp) as (cs2 & Hc2 & _). rewrite Hc2 in Hgs |- *.
    exists (diffs (0 :: cs1 ++ [zlen l]) :: gs). cbn [concat]. split_and!.
    + rewrite Hgs, length_app, Nat2Z.inj_add, fmap_cons, Z.add_0_r.
      assert ((0 :: cs1 ++ zlen l :: (Z.add (zlen l) <$> cs2)) ++ [zlen l + zlen rest]
              = (0 :: cs1) ++ zlen l :: (Z.add (zlen l) <$> cs2 ++ [zlen rest])) as ->.
      { rewrite fmap_app. simpl. by rewrite <- app_assoc. }
      rewrite (diffs_app (0 :: cs1) (zlen l)). apply (f_equal2 app); [done|].
      assert (zlen l :: (Z.add (zlen l) <$> cs2 ++ [zlen rest]) = Z.add (zlen l) <$> (0 :: cs2) ++ [zlen rest]) as ->
        by (simpl; by rewrite Z.add_0_r).
      by rewrite diffs_shift.
    + constructor; [|done]. by destruct cs1.
    + rewrite !fmap_cons, diffs_sum, Z.sub_0_r. f_equal. done.
Qed.

Lemma Forall2_compatible known (p : list Z) :
  length known = length p ->
  (forall i k l, known !! i = Some (Some k) -> p !! i = Some l -> k = l) -> compatible known p = true.
Proof.
  unfold compatible. revert p. induction known as [|k known IH]; intros [|l p] Hl Hk; simpl in *; try done.
  rewrite IH; [|lia|intros i; apply (Hk (S i))]. rewrite andb_true_r. destruct k as [k|]; [|done].
  apply Z.eqb_eq. by apply (Hk 0%nat).
Qed.

(** Segments are positive, so no grouping is listed twice. *)

Lemma zsum_take_lt (parts : list Z) i j :
  Forall (fun x => 0 < x) parts -> (i < j <= length parts)%nat ->
  zsum (take i parts) < zsum (take j parts).
Proof.
  intros Hp Hij. replace j with (i + (j - i))%nat by lia. rewrite <- take_take_drop, zsum_app.
  assert (0 < zsum (take (j - i) (drop i parts))); [|lia].
  assert (Forall (fun x => 0 < x) (drop i parts)) as Hd by (by apply Forall_drop).
  destruct (drop i parts) as [|x l] eqn:E; [apply (f_equal length) in E; rewrite length_drop in E; simpl in E; lia|].
  replace (j - i)%nat with (S (j - i - 1)) by lia. simpl. apply Forall_cons in Hd as [Hx Hl].
  assert (0 <= zsum (take (j - i - 1) l)); [|lia].
  clear -Hl. revert Hl. generalize (j - i - 1)%nat. intros k Hl. apply (Forall_take _ k) in Hl.
  induction Hl; simpl; lia.
Qed.

Lemma ir_merge_nodup fuel prefix parts n :
  Forall (fun x => 0 < x) parts -> (length parts < fuel)%nat -> NoDup (ir_merge fuel prefix parts n).
Proof.
  revert prefix parts n. induction fuel as [|fuel IH]; intros prefix parts n Hp Hf; [lia|]. cbn [ir_merge].
  destruct (_ || _); [constructor|]. destruct (_ =? _); [apply NoDup_singleton|].
  apply NoDup_bind; [| |apply NoDup_seq].
  - intros i j p Hi%elem_of_seq Hj%elem_of_seq Hpi Hpj.
    apply ir_merge_spec in Hpi as (g1 & _ & _ & _ & ->), Hpj as (g2 & _ & _ & _ & Heq);
      try (rewrite length_drop; lia).
    rewrite <- !app_assoc in Heq. apply app_inv_head in Heq. simpl in Heq. injection Heq as Heq _.
    destruct (Nat.lt_trichotomy i j) as [Hlt|[->|Hlt]]; [|done|].
    + pose proof (zsum_take_lt parts i j Hp). lia.
    + pose proof (zsum_take_lt parts j i Hp). lia.
  - intros i Hi%elem_of_seq. apply IH; [by apply Forall_drop|rewrite length_drop; lia].
Qed.

Lemma diffs_positive c cs m :
  StronglySorted Z.lt (c :: cs) -> Forall (fun i => i < m) (c :: cs) ->
  Forall (fun x => 0 < x) (diffs (c :: cs ++ [m])).
Proof.
  revert c. induction cs as [|d cs IH]; intros c Hs Hm.
  - apply Forall_cons in Hm as [Hc _]. repeat constructor. lia.
  - apply StronglySorted_inv in Hs as [Hs Hc]. apply Forall_cons in Hm as [_ Hm].
    apply Forall_cons in Hc as [Hcd _]. specialize (IH d Hs Hm). constructor; [lia|exact IH].
Qed.

Lemma cut_list_sorted l : StronglySorted Z.lt (cut_list l) /\ Forall (fun i => i < zlen l) (cut_list l).
Proof.
  unfold cut_list. split.
  - generalize (zlen l). intros m. generalize 0. assert (m <= 0 \/ 0 <= m) as [Hm|Hm] by lia.
    { intros o. rewrite seqZ_nil by lia. constructor. }
    revert m Hm. refine (natlike_ind _ _ _); [constructor|].
    intros m Hm IH o. rewrite seqZ_cons, filter_cons, Z.pred_succ by lia. case_decide; [|apply IH].
    constructor; [apply IH|]. apply Forall_forall. intros i [_ Hi%elem_of_seqZ]%list_elem_of_filter. lia.
  - apply Forall_forall. intros i [_ Hi%elem_of_seqZ]%list_elem_of_filter. lia.
Qed.

(** ** The probe *)

(** A TAP of the real chain: its idcode if it has one, and the bits its IR
    captures. *)
Definition tap_slot (t : option Z * list bool) : slot := (fst t, zlen (snd t)).

Section ProbeTheorem.
Context {A V : Type} `{BitVecLaws A V}.
Variable irlen_for : Z -> option Z.
Variables (taps : list (option Z * list bool)) (reset_dr captured_ir bypass_dr : V).
Hypothesis Hne : taps <> [].
Hypothesis Hids : Forall idcode_ok (fst <$> taps).
Hypothesis Hirs : Forall ir_pattern (snd <$> taps).
Hypothesis Hdb : Forall (fun t : option Z * list bool => match fst t with
  | Some i => forall k, irlen_for i = Some k -> k = zlen (snd t) | None => True end) taps.
Hypothesis Hreset : bv_ok reset_dr /\ bv_bits reset_dr = (fst <$> taps) ≫= reset_bits.
Hypothesis Hcaptured : bv_ok captured_ir /\ bv_bits captured_ir = concat (snd <$> taps).
Hypothesis Hbypass : bv_ok bypass_dr /\ length (bv_bits bypass_dr) = length taps.

Let lengths : list Z := (fun l => zlen l) <$> (snd <$> taps).
Let segments : list Z := diffs (cut_list (concat (snd <$> taps)) ++ [zlen (concat (snd <$> taps))]).
Let known : list (option Z) :=
  (fun idc => match idc with Some i => irlen_for i | None => None end) <$> (fst <$> taps).

Lemma probe_unfold :
  probe_chain irlen_for reset_dr captured_ir bypass_dr =
  match filter (fun p => compatible known p)
          (ir_merge (S (length segments)) [] segments (zlen taps)) with
  | [p] => Ok (zip (fst <$> taps) p)
  | _ => Err ValueError
  end.
Proof.
  destruct Hreset as [Hr1 Hr2], Hcaptured as [Hc1 Hc2], Hbypass as [Hb1 Hb2]. unfold probe_chain.
  rewrite (bv_len_law bypass_dr Hb1), Hb2, Nat2Z.id.
  pose proof (parse_idcodes_spec reset_dr (fst <$> taps) [] Hr1 Hids Hr2) as Hp.
  rewrite length_fmap in Hp. change (zlen []) with 0 in Hp. rewrite Hp, bind_of_Ok.
  rewrite cutoffs_spec, bind_of_Ok by done. rewrite (bv_len_law captured_ir Hc1), Hc2.
  fold (cut_list (concat (snd <$> taps))).
  assert (ir_pattern (concat (snd <$> taps))) as Hpat.
  { destruct taps as [|t ts]; [done|]. simpl in Hirs |- *. apply Forall_cons in Hirs as [[r ->] _]. by eexists. }
  destruct (cut_list_head _ Hpat) as (cs & Hcs & _). fold segments.
  rewrite Hcs. reflexivity.
Qed.

Lemma lengths_possible :
  lengths ∈ filter (fun p => compatible known p) (ir_merge (S (length segments)) [] segments (zlen taps)).
Proof.
  apply list_elem_of_filter. split.
  - apply Is_true_true, Forall2_compatible; unfold known, lengths; [by rewrite !length_fmap|].
    intros i k l. rewrite !list_lookup_fmap. destruct (taps !! i) as [[idc b]|] eqn:Hi; [simpl|done].
    intros [= Hk] [= <-]. apply (Forall_lookup_1 _ _ _ _ Hdb) in Hi. simpl in Hi. destruct idc; [by apply Hi|done].
  - apply ir_merge_spec; [lia|].
    destruct (true_lengths_grouping (snd <$> taps)) as (gs & Hg1 & Hg2 & Hg3);
      [by destruct taps|done|]. exists gs. rewrite Hg3. split_and!; [done| |done|done].
    apply (f_equal length) in Hg3. rewrite !length_fmap in Hg3. lia.
Qed.

Lemma zip_lengths : zip (fst <$> taps) lengths = tap_slot <$> taps.
Proof.
  unfold lengths, tap_slot. clear. induction taps as [|t ts IH]; [done|]. simpl in *. f_equal. exact IH.
Qed.

Lemma probe_chain_exact :
  probe_chain irlen_for reset_dr captured_ir bypass_dr = Ok (tap_slot <$> taps)
  \/ probe_chain irlen_for reset_dr captured_ir bypass_dr = Err ValueError.
Proof.
  rewrite probe_unfold. pose proof lengths_possible as Hin.
  destruct (filter _ _) as [|p [|q l]]; [by right| |by right].
  apply list_elem_of_singleton in Hin as <-. left. by rewrite zip_lengths.
Qed.

(** No spurious 01 inside an IR: the probe succeeds. *)
Lemma probe_chain_unambiguous :
  length segments = length taps ->
  probe_chain irlen_for reset_dr captured_ir bypass_dr = Ok (tap_slot <$> taps).
Proof.
  intros Hl. rewrite probe_unfold. pose proof lengths_possible as Hin. revert Hin.
  cbn [ir_merge]. rewrite Hl, Z.ltb_irrefl, (proj2 (Z.ltb_ge (zlen taps) 0)) by lia.
  simpl orb. rewrite Z.eqb_refl. rewrite list_elem_of_filter, list_elem_of_singleton.
  intros [Hc <-]. rewrite filter_cons, decide_True by done. simpl. by rewrite zip_lengths.
Qed.

Lemma segments_positive : Forall (fun x => 0 < x) segments.
Proof.
  unfold segments. destruct (cut_list_sorted (concat (snd <$> taps))) as [Hs Hm].
  destruct (cut_list (concat (snd <$> taps))) as [|c cs]; [constructor|]. by apply diffs_positive.
Qed.

(** Every TAP is in the database: the probe succeeds. *)
Lemma probe_chain_known :
  Forall (fun t : option Z * list bool => exists i, fst t = Some i /\ irlen_for i = Some (zlen (snd t))) taps ->
  probe_chain irlen_for reset_dr captured_ir bypass_dr = Ok (tap_slot <$> taps).
Proof.
  intros Hk. rewrite probe_unfold. pose proof lengths_possible as Hin.
  set (l := filter _ _) in *.
  assert (NoDup l) as Hnd by (apply NoDup_filter, ir_merge_nodup; [apply segments_positive|lia]).
  assert (forall p, p ∈ l -> p = lengths) as Hall.
  { intros p [Hc Hp]%list_elem_of_filter. apply ir_merge_spec in Hp as (gs & _ & Hl & _ & ->); [|lia].
    assert (length ([] ++ (zsum <$> gs)) = length taps) as Hlen by (simpl; rewrite length_fmap; lia).
    revert Hc Hlen. generalize ([] ++ (zsum <$> gs)). unfold lengths, known. clear -Hk.
    induction Hk as [|[idc ir] ts (i & Hi & Hirl) _ IH]; intros [|x p] Hc Hlen; try done.
    simpl in Hi, Hirl. subst idc. rewrite !fmap_cons in *. unfold compatible in Hc. simpl in Hc.
    rewrite Hirl in Hc. apply Is_true_true, andb_prop in Hc as [Hx%Z.eqb_eq Hc]. rewrite <- Hx. simpl. f_equal.
    apply IH; [by apply Is_true_true|]. simpl in Hlen. lia. }
  destruct l as [|p [|q l]]; [by apply not_elem_of_nil in Hin| |].
  - rewrite (Hall p) by left. by rewrite zip_lengths.
  - apply NoDup_cons in Hnd as [Hnd _]. exfalso. apply Hnd.
    rewrite (Hall p), (Hall q); [left|right; left|left].
Qed.
End ProbeTheorem.

(** ** Properties *)

(** [ir_merge] enumerates exactly the ways to group the segments, in
    order, into the given number of non-empty groups, and with positive
    segments it lists each once; the fuel given by the probe is enough. *)
Theorem ir_merge_enumerates parts n p :
  (p ∈ ir_merge (S (length parts)) [] parts n <->
   exists gs, concat gs = parts /\ zlen gs = n /\ Forall (fun g => g <> []) gs /\ p = zsum <$> gs)
  /\ (Forall (fun x => 0 < x) parts -> NoDup (ir_merge (S (length parts)) [] parts n)).
Proof.
  split; [rewrite ir_merge_spec by lia; done|]. intros Hp. apply ir_merge_nodup; [done|lia].
Qed.

Lemma ir_merge_enumerates_witness :
  [4; 5] ∈ ir_merge 4 [] [4; 2; 3] 2 /\ NoDup (ir_merge 4 [] [4; 2; 3] 2).
Proof.
  split.
  - apply (ir_merge_enumerates [4; 2; 3] 2 [4; 5]). exists [[4]; [2; 3]]. by repeat constructor.
  - apply (ir_merge_enumerates [4; 2; 3] 2 [4; 5]). by repeat constructor.
Defined.

Section ProbeProperties.
Context {A V : Type} `{BitVecLaws A V}.

(** Shifting the marker through a register no longer than the limit and
    looking at what comes out recovers the register exactly, whatever it
    holds, the marker's own bits included. *)
Theorem shift_discover_recovers_register (reg : list bool) max_length (captured : V) :
  zlen reg <= max_length -> bv_ok captured ->
  (exists tdi : V, discover_tdi max_length = Ok tdi
     /\ bv_bits captured = take (length (bv_bits tdi)) (reg ++ bv_bits tdi)) ->
  exists r, shift_discover captured max_length = Ok r /\ bv_bits r = reg.
Proof.
  intros Hl Hc (tdi & Htdi & Hb). destruct (discover_tdi_spec max_length) as (t & Ht & _ & Htb); [lia|].
  assert (t = tdi) as -> by congruence. rewrite Htb in Hb.
  rewrite length_app, length_bits_of, length_replicate in Hb.
  destruct (shift_discover_spec captured reg max_length Hc Hl Hb) as (r & ? & _ & ?). by exists r.
Qed.

(** C29: from the registers a chain of TAPs really presents after a reset
    (idcodes or bypass bits, instruction captures beginning with 01, one
    bypass bit per TAP) the probe reports the chain's idcodes and instruction
    lengths or refuses; it never reports another chain.  It succeeds when
    every TAP is in the database, and when no capture holds a second 01. *)
Theorem probe_reports_the_chain irlen_for (taps : list (option Z * list bool))
    (reset_dr captured_ir bypass_dr : V) :
  taps <> [] -> Forall idcode_ok (fst <$> taps) -> Forall ir_pattern (snd <$> taps) ->
  Forall (fun t : option Z * list bool => match fst t with
    | Some i => forall k, irlen_for i = Some k -> k = zlen (snd t) | None => True end) taps ->
  (bv_ok reset_dr /\ bv_bits reset_dr = (fst <$> taps) ≫= reset_bits) ->
  (bv_ok captured_ir /\ bv_bits captured_ir = concat (snd <$> taps)) ->
  (bv_ok bypass_dr /\ length (bv_bits bypass_dr) = length taps) ->
  let found := probe_chain irlen_for reset_dr captured_ir bypass_dr in
  (found = Ok (tap_slot <$> taps) \/ found = Err ValueError)
  /\ (Forall (fun t : option Z * list bool =>
        exists i, fst t = Some i /\ irlen_for i = Some (zlen (snd t))) taps ->
      found = Ok (tap_slot <$> taps))
  /\ (length (cut_list (concat (snd <$> taps))) = length taps -> found = Ok (tap_slot <$> taps)).
Proof.
  intros Hne Hids Hirs Hdb Hr Hc Hb found. split_and!.
  - by apply probe_chain_exact.
  - by apply probe_chain_known.
  - intros Hl. apply probe_chain_unambiguous; try done. unfold diffs.
    destruct (cut_list _) as [|c cs]; [by destruct taps|].
    rewrite length_zip_with, <- Hl. cbn [app tail length]. rewrite length_app. cbn [length]. lia.
Qed.
End ProbeProperties.

(** Two TAPs: one with an idcode and a five-bit IR, one in BYPASS with a
    four-bit IR. *)
Definition probed_taps : list (option Z * list bool) :=
  [(Some 0x4ba00477, [true; false; false; false]); (None, [true; false; false; false; false])].

Lemma shift_discover_recovers_register_witness :
  exists r, shift_discover (A:=list bool) ([true; true; false] ++ bits_of 32 marker ++ replicate 5 false) 4 = Ok r
            /\ r = [true; true; false].
Proof.
  destruct (shift_discover_recovers_register (A:=list bool) (V:=list bool) [true; true; false] 4
    ([true; true; false] ++ bits_of 32 marker ++ replicate 5 false)) as (r & Hr & Hb); [done..| |by exists r].
  eexists. split; reflexivity.
Defined.

Lemma probe_reports_the_chain_witness :
  probe_chain (A:=list bool) (fun _ => Some 4) ((fst <$> probed_taps) ≫= reset_bits)
    (concat (snd <$> probed_taps)) [false; false] = Ok [(Some 0x4ba00477, 4); (None, 5)].
Proof.
  refine (proj2 (proj2 (probe_reports_the_chain (A:=list bool) (fun _ => Some 4) probed_taps
    ((fst <$> probed_taps) ≫= reset_bits) (concat (snd <$> probed_taps)) [false; false] _ _ _ _ _ _ _)) _);
    try done.
  - repeat constructor; done.
  - repeat constructor; eexists; done.
  - repeat constructor. by intros k [= <-].
Defined.
