(* ===== verification/Memory.v ===== *)
(** * Batched memory access (src/acrobe/protocol/memory.py)

    The bulk operations of a memory bus served from its register operations
    ([BulkFromRegister]): a byte range is split into 1-, 2- and 4-byte
    accesses, and the results are put together again ([PendingBlob]).  Both
    read strategies are modelled, [PreciseDecomposition] and
    [OverwideDecomposition]; and the opposite direction, [RegisterFromBulk].

    The bus is a reference machine over a byte map ([exec_reg]); the refinement
    says that a batch of mixed register and blob operations, lowered, executed
    and reassembled, is the batch executed byte by byte. *)

From S2P Require Import Prelude.

(** ** Operations *)

Inductive reg_op : Type :=
  | Read8 (addr : Z) | Read16 (addr : Z) | Read32 (addr : Z)
  | Write8 (addr data : Z) | Write16 (addr data : Z) | Write32 (addr data : Z).

Inductive mem_op : Type :=
  | RegOp (r : reg_op)
  | ReadBlob (addr size : Z)
  | WriteBlob (addr : Z) (data : list Z).

(** ** Decomposition *)

(** [Decomposition.chunks]: [(blob_offset, chunk_addr, chunk_size)]; the
    local variables [out], [cursor] and [offset] are the state. *)
Abbreviation chunk := (Z * Z * Z)%type.

Definition take_chunk (st : list chunk * Z * Z) (n : Z) : list chunk * Z * Z :=
  let '(out, cursor, offset) := st in (out ++ [(offset, cursor, n)], cursor + n, offset + n).

Fixpoint take_words (fuel : nat) (stop : Z) (st : list chunk * Z * Z) : list chunk * Z * Z :=
  match fuel with
  | O => st
  | S fuel =>
      let '(_, cursor, _) := st in
      if 4 <=? stop - cursor then take_words fuel stop (take_chunk st 4) else st
  end.

Definition cursor_of (st : list chunk * Z * Z) : Z := let '(_, cursor, _) := st in cursor.

Definition chunks (addr size : Z) : list chunk :=
  let stop := addr + size in
  let st := ([], addr, 0) in
  let st := if negb (Z.land (cursor_of st) 1 =? 0) && (cursor_of st <? stop) then take_chunk st 1 else st in
  let st := if (Z.land (cursor_of st) 3 =? 2) && (2 <=? stop - cursor_of st) then take_chunk st 2 else st in
  let st := take_words (Z.to_nat size) stop st in
  let st := if 2 <=? stop - cursor_of st then take_chunk st 2 else st in
  let st := if 1 <=? stop - cursor_of st then take_chunk st 1 else st in
  let '(out, _, _) := st in out.

(** [READ_OP[n]] and [WRITE_OP[n]] *)
Definition read_op (n addr : Z) : reg_op :=
  if n =? 1 then Read8 addr else if n =? 2 then Read16 addr else Read32 addr.
Definition write_op (n addr data : Z) : reg_op :=
  if n =? 1 then Write8 addr data else if n =? 2 then Write16 addr data else Write32 addr data.

(** An operation with its offset in the blob and its width. *)
Abbreviation triple := (reg_op * Z * Z)%type.

(** [Decomposition.write_ops] *)
Definition write_ops (addr : Z) (data : list Z) : list triple :=
  (fun '(offset, chunk_addr, n) =>
     (write_op n chunk_addr (from_le (slice data offset (offset + n))), offset, n))
  <$> chunks addr (zlen data).

Inductive decomposition : Type := Precise | Overwide.

(** [range(first, last, step)] *)
Fixpoint range_up (fuel : nat) (first last step : Z) : list Z :=
  match fuel with
  | O => []
  | S fuel => if first <? last then first :: range_up fuel (first + step) last step else []
  end.

(** [PreciseDecomposition.read_ops] and [OverwideDecomposition.read_ops] *)
Definition read_ops (d : decomposition) (addr size : Z) : list triple :=
  match d with
  | Precise =>
      (fun '(offset, chunk_addr, n) => (read_op n chunk_addr, offset, n)) <$> chunks addr size
  | Overwide =>
      if size <=? 0 then []
      else
        let first := Z.land addr (Z.lnot 3) in
        let last := Z.land (addr + size + 3) (Z.lnot 3) in
        (fun word_addr => (Read32 word_addr, word_addr - addr, 4))
        <$> range_up (Z.to_nat (last - first)) first last 4
  end.

(** ** Reassembly *)

(** [PendingBlob.__resolve]: one sub-result copied into the window. *)
Definition place (size : Z) (buf : list Z) (sub : Z * Z * list Z) : list Z :=
  let '(offset, size_bytes, raw) := sub in
  let lo := Z.max 0 offset in
  let hi := Z.min size (offset + size_bytes) in
  if hi <=? lo then buf
  else slice_assign buf lo hi (slice raw (lo - offset) (hi - offset)).

(** A read blob's result: the first failure, or the bytes. *)
Definition resolve_read (size : Z) (subs : list (Z * Z)) (results : list (result Z)) : result (list Z) :=
  buf ← foldM (fun buf '((offset, n), r) =>
      v ← (r : result Z); raw ← to_bytes_le n v; Ok (place size buf (offset, n, raw)))
    (replicate (Z.to_nat size) 0) (zip subs results);
  Ok buf.

Definition resolve_write (results : list (result Z)) : result unit :=
  foldM (fun _ r => _ ← (r : result Z); Ok tt) tt results.

Inductive value : Type := VInt (v : Z) | VBytes (d : list Z) | VNone.

(** The sub-operations of one entry of the batch
    ([__expand_read], [__expand_write]). *)
Definition expand (d : decomposition) (o : mem_op) : list triple :=
  match o with
  | RegOp r => [(r, 0, 0)]
  | ReadBlob addr size => read_ops d addr size
  | WriteBlob addr data => write_ops addr data
  end.

(** [BulkFromRegister.flush_ops]: the flat register-op stream. *)
Definition lower (d : decomposition) (batch : list mem_op) : list reg_op :=
  batch ≫= fun o => (fun t => t.1.1) <$> expand d o.

Definition is_write (r : reg_op) : bool :=
  match r with Write8 _ _ | Write16 _ _ | Write32 _ _ => true | _ => false end.

(** How the future of an entry is settled from its sub-results. *)
Definition settle (d : decomposition) (o : mem_op) (results : list (result Z)) : result value :=
  match o with
  | RegOp r => match results with
               | [x] => v ← x; Ok (if is_write r then VNone else VInt v)
               | _ => Err RuntimeError
               end
  | ReadBlob addr size =>
      VBytes <$> resolve_read size ((fun t => (t.1.2, t.2)) <$> expand d o) results
  | WriteBlob addr data => (fun _ => VNone) <$> resolve_write results
  end.

Fixpoint settle_all (d : decomposition) (batch : list mem_op) (results : list (result Z))
  : list (result value) :=
  match batch with
  | [] => []
  | o :: batch =>
      let n := length (expand d o) in
      settle d o (take n results) :: settle_all d batch (drop n results)
  end.

(** ** The reference bus *)

Abbreviation memory := (gmap Z Z).

Definition read_bytes (m : memory) (addr size : Z) : list Z := (fun a => m !!! a) <$> seqZ addr size.

Fixpoint write_bytes (m : memory) (addr : Z) (data : list Z) : memory :=
  match data with
  | [] => m
  | b :: data => write_bytes (<[addr := b]> m) (addr + 1) data
  end.

Definition exec_reg (m : memory) (r : reg_op) : memory * Z :=
  match r with
  | Read8 a => (m, from_le (read_bytes m a 1))
  | Read16 a => (m, from_le (read_bytes m a 2))
  | Read32 a => (m, from_le (read_bytes m a 4))
  | Write8 a v => (write_bytes m a (le_bytes 1 v), 0)
  | Write16 a v => (write_bytes m a (le_bytes 2 v), 0)
  | Write32 a v => (write_bytes m a (le_bytes 4 v), 0)
  end.

Fixpoint exec_regs (m : memory) (l : list reg_op) : memory * list Z :=
  match l with
  | [] => (m, [])
  | r :: l => let '(m, v) := exec_reg m r in let '(m, vs) := exec_regs m l in (m, v :: vs)
  end.

(** Byte by byte. *)
Definition mem_spec (m : memory) (o : mem_op) : memory * value :=
  match o with
  | RegOp r => let '(m, v) := exec_reg m r in (m, if is_write r then VNone else VInt v)
  | ReadBlob addr size => (m, VBytes (read_bytes m addr size))
  | WriteBlob addr data => (write_bytes m addr data, VNone)
  end.

Fixpoint mem_spec_all (m : memory) (batch : list mem_op) : memory * list value :=
  match batch with
  | [] => (m, [])
  | o :: batch =>
      let '(m, v) := mem_spec m o in let '(m, vs) := mem_spec_all m batch in (m, v :: vs)
  end.

(** ** Registers from blobs *)

(** [RegisterFromBulk.__write] and [__read] *)
Inductive endianness : Type := Little | Big.

Definition reg_payload (e : endianness) (value size_bytes : Z) : result (list Z) :=
  let v := Z.land value (Z.shiftl 1 (size_bytes * 8) - 1) in
  match e with Little => to_bytes_le size_bytes v | Big => to_bytes_be size_bytes v end.

Definition reg_value (e : endianness) (raw : list Z) : Z :=
  match e with Little => from_le raw | Big => from_be raw end.

(** ** The chunks tile the range with aligned accesses *)

Definition width_ok (n : Z) : Prop := n = 1 \/ n = 2 \/ n = 4.

Fixpoint tiles (addr offset size : Z) (l : list chunk) : Prop :=
  match l with
  | [] => offset = size
  | (o, a, n) :: l =>
      o = offset /\ a = addr + offset /\ width_ok n /\ a mod n = 0 /\ o + n <= size
      /\ tiles addr (offset + n) size l
  end.

(** The state while [chunks] runs: a tiling up to [cursor]. *)
Definition tiling (addr size : Z) (st : list chunk * Z * Z) : Prop :=
  let '(out, cursor, offset) := st in
  cursor = addr + offset /\ 0 <= offset <= size /\ tiles addr 0 offset out.

Lemma tiles_snoc addr o size l n :
  tiles addr o size l -> 0 <= n -> width_ok n -> (addr + size) mod n = 0 ->
  tiles addr o (size + n) (l ++ [(size, addr + size, n)]).
Proof.
  revert o. induction l as [|[[o' a] k] l IH]; intros o; simpl.
  - intros -> ???. split_and!; lia || done.
  - intros (? & ? & ? & ? & ? & ?) ???. split_and!; try done; [lia|]. by apply IH.
Qed.

Lemma tiling_take addr size st n :
  tiling addr size st -> width_ok n -> cursor_of st mod n = 0 -> n <= addr + size - cursor_of st ->
  tiling addr size (take_chunk st n).
Proof.
  destruct st as [[out cursor] offset]. simpl. intros (-> & Ho & Ht) Hn Ha Hl.
  assert (0 < n) by (destruct Hn as [|[|]]; lia). split_and!; [lia..|].
  apply tiles_snoc; [done|lia|done|done].
Qed.

Lemma take_words_spec fuel addr size st :
  tiling addr size st -> (4 <= addr + size - cursor_of st -> cursor_of st mod 4 = 0) ->
  addr + size - cursor_of st < 4 * Z.of_nat fuel + 4 ->
  let st' := take_words fuel (addr + size) st in
  tiling addr size st' /\ addr + size - cursor_of st' < 4
  /\ (cursor_of st' = cursor_of st \/ cursor_of st' mod 4 = 0).
Proof.
  revert st. induction fuel as [|fuel IH]; intros [[out cursor] offset] Ht Ha Hf;
    cbn [take_words cursor_of] in Ha, Hf |- *; cbv zeta.
  - split; [done|]. split; [cbn; lia|by left].
  - destruct (Z.leb_spec 4 (addr + size - cursor)) as [Hw|Hw].
    2:{ split; [done|]. split; [cbn; lia|by left]. }
    specialize (Ha Hw).
    assert ((cursor + 4) mod 4 = 0) as Ha' by (rewrite Z.add_mod, Ha by lia; done).
    destruct (IH (take_chunk (out, cursor, offset) 4)) as (H1 & H2 & H3).
    + apply tiling_take; [done|unfold width_ok; lia|done|done].
    + done.
    + simpl. lia.
    + split; [done|]. split; [done|]. right. destruct H3 as [-> |]; [done|done].
Qed.

Lemma land_1_mod n : Z.land n 1 = n mod 2.
Proof. change 1 with (Z.ones 1). by rewrite Z.land_ones by lia. Qed.
Lemma land_3_mod n : Z.land n 3 = n mod 4.
Proof. change 3 with (Z.ones 2). by rewrite Z.land_ones by lia. Qed.

Lemma tiling_start addr size : 0 <= size -> tiling addr size ([], addr, 0).
Proof. intros. split; [lia|]. split; [lia|done]. Qed.

(** [chunks] tiles the range: consecutive, exact, naturally aligned. *)
Lemma chunks_tiles addr size : 0 <= size -> tiles addr 0 size (chunks addr size).
Proof.
  intros Hs. unfold chunks. cbv zeta.
  set (st1 := if negb _ && _ then _ else _).
  assert (tiling addr size st1
    /\ (1 <= addr + size - cursor_of st1 -> cursor_of st1 mod 2 = 0)) as [Ht1 Ha1].
  { unfold st1. simpl cursor_of. rewrite land_1_mod.
    destruct (Z.eqb_spec (addr mod 2) 0) as [He|He]; simpl negb; simpl andb; cbv iota.
    - split; [by apply tiling_start|]. simpl. done.
    - destruct (Z.ltb_spec addr (addr + size)).
      + split; [apply tiling_take; [by apply tiling_start|unfold width_ok; lia|apply Z.mod_1_r|simpl; lia]|].
        simpl. intros _. Z.div_mod_to_equations. lia.
      + split; [by apply tiling_start|]. simpl. lia. }
  clearbody st1. set (st2 := if (_ =? 2) && _ then _ else _).
  assert (tiling addr size st2
    /\ (2 <= addr + size - cursor_of st2 -> cursor_of st2 mod 4 = 0)) as [Ht2 Ha2].
  { unfold st2. rewrite land_3_mod. destruct (Z.eqb_spec (cursor_of st1 mod 4) 2) as [He|He]; simpl andb.
    - destruct (Z.leb_spec 2 (addr + size - cursor_of st1)).
      + split; [apply tiling_take; [done|unfold width_ok; lia| |done]|]; destruct st1 as [[out cursor] offset];
          simpl in *; intros; Z.div_mod_to_equations; lia.
      + split; [done|]. lia.
    - split; [done|]. intros Hl. specialize (Ha1 ltac:(lia)). Z.div_mod_to_equations. lia. }
  clearbody st2. destruct (take_words_spec (Z.to_nat size) addr size st2) as (Ht3 & Hl3 & Ha3); [done|..].
  { intros. apply Ha2. lia. }
  { destruct st2 as [[out cursor] offset]. simpl in *. lia. }
  set (st3 := take_words _ _ _) in *. clearbody st3.
  set (st4 := if 2 <=? _ then _ else _).
  assert (tiling addr size st4 /\ addr + size - cursor_of st4 < 2) as [Ht4 Hl4].
  { unfold st4. destruct (Z.leb_spec 2 (addr + size - cursor_of st3)) as [Hw|Hw].
    - split; [apply tiling_take; [done|unfold width_ok; lia| |done]|];
        destruct st3 as [[out cursor] offset]; simpl in *; [|lia].
      destruct Ha3 as [->|Ha3]; [specialize (Ha2 ltac:(lia))|]; Z.div_mod_to_equations; lia.
    - by split. }
  clearbody st4. set (st5 := if 1 <=? _ then _ else _).
  assert (tiling addr size st5 /\ addr + size - cursor_of st5 < 1) as [Ht5 Hl5].
  { unfold st5. destruct (Z.leb_spec 1 (addr + size - cursor_of st4)) as [Hw|Hw].
    - split; [apply tiling_take; [done|unfold width_ok; lia|apply Z.mod_1_r|done]|].
      destruct st4 as [[out cursor] offset]; simpl in *; lia.
    - by split. }
  clearbody st5. destruct st5 as [[out cursor] offset]. simpl in *.
  destruct Ht5 as (-> & Ho & Ht). by replace size with offset by lia.
Qed.

(** ** Reads *)

Definition mem_ok (m : memory) : Prop := forall a, is_byte (m !!! a).

Lemma length_read_bytes m a n : length (read_bytes m a n) = Z.to_nat n.
Proof. unfold read_bytes. by rewrite length_fmap, length_seqZ. Qed.

Lemma lookup_read_bytes m a n (i : nat) :
  Z.of_nat i < n -> read_bytes m a n !! i = Some (m !!! (a + Z.of_nat i)).
Proof.
  intros Hi. unfold read_bytes. rewrite list_lookup_fmap.
  rewrite (proj2 (lookup_seqZ a n i (a + Z.of_nat i))) by lia. done.
Qed.

Lemma read_bytes_ok m a n : mem_ok m -> bytes_ok (read_bytes m a n).
Proof. intros Hm. apply Forall_fmap, Forall_true. intros x. apply Hm. Qed.

Lemma read_bytes_word m a n :
  mem_ok m -> 0 <= n -> to_bytes_le n (from_le (read_bytes m a n)) = Ok (read_bytes m a n).
Proof.
  intros Hm Hn. pose proof (read_bytes_ok m a n Hm) as Hok.
  pose proof (from_le_bound _ Hok) as Hb. rewrite length_read_bytes, Z2Nat.id in Hb by done.
  rewrite to_bytes_le_Ok by done. rewrite <- (length_read_bytes m a n). by rewrite le_bytes_from_le.
Qed.

(** A sub-operation that reads [n] bytes at [offset] of the blob. *)
Definition reads_window (m : memory) (addr : Z) (t : triple) : Prop :=
  let '(r, offset, n) := t in
  0 <= n /\ exec_reg m r = (m, from_le (read_bytes m (addr + offset) n)).

Definition covers (subs : list (Z * Z)) (i : Z) : Prop :=
  exists o n, (o, n) ∈ subs /\ o <= i < o + n.

Lemma exec_reads m addr ts :
  Forall (reads_window m addr) ts ->
  exec_regs m ((fun t => t.1.1) <$> ts)
  = (m, (fun t => from_le (read_bytes m (addr + t.1.2) t.2)) <$> ts).
Proof.
  induction 1 as [|[[r o] n] ts [Hn He] _ IH]; [done|]. rewrite !fmap_cons. cbn [exec_regs fst snd].
  by rewrite He, IH.
Qed.

Lemma place_spec m addr size buf o n :
  zlen buf = size -> 0 <= n ->
  let buf' := place size buf (o, n, read_bytes m (addr + o) n) in
  zlen buf' = size
  /\ forall i : nat, Z.of_nat i < size ->
       buf' !! i = if (o <=? Z.of_nat i) && (Z.of_nat i <? o + n)
                   then Some (m !!! (addr + Z.of_nat i)) else buf !! i.
Proof.
  intros Hl Hn. unfold place. cbv zeta.
  destruct (Z.leb_spec (Z.min size (o + n)) (Z.max 0 o)) as [Hle|Hgt].
  { split; [done|]. intros i Hi.
    destruct (Z.leb_spec o (Z.of_nat i)), (Z.ltb_spec (Z.of_nat i) (o + n)); simpl; try done. lia. }
  set (lo := Z.max 0 o) in *. set (hi := Z.min size (o + n)) in *.
  set (raw := read_bytes m (addr + o) n).
  assert (zlen (slice raw (lo - o) (hi - o)) = hi - lo) as Hs.
  { rewrite length_slice; [lia|lia|]. unfold raw. rewrite length_read_bytes. lia. }
  split; [rewrite length_slice_assign; lia|]. intros i Hi.
  rewrite lookup_slice_assign by lia.
  destruct (Z.leb_spec lo (Z.of_nat i)), (Z.ltb_spec (Z.of_nat i) hi),
    (Z.leb_spec o (Z.of_nat i)), (Z.ltb_spec (Z.of_nat i) (o + n)); simpl; try done; try lia.
  unfold raw. rewrite lookup_slice, lookup_read_bytes by lia. do 2 f_equal. lia.
Qed.

Lemma resolve_loop m addr size subs : forall buf,
  mem_ok m -> zlen buf = size -> Forall (fun s : Z * Z => 0 <= s.2) subs ->
  exists buf', foldM (fun buf '((offset, n), r) =>
      v ← (r : result Z); raw ← to_bytes_le n v; Ok (place size buf (offset, n, raw)))
      buf (zip subs ((fun s => Ok (from_le (read_bytes m (addr + s.1) s.2))) <$> subs)) = Ok buf'
    /\ zlen buf' = size
    /\ forall i : nat, Z.of_nat i < size ->
         covers subs (Z.of_nat i) \/ buf !! i = Some (m !!! (addr + Z.of_nat i)) ->
         buf' !! i = Some (m !!! (addr + Z.of_nat i)).
Proof.
  intros buf Hm. revert buf. induction subs as [|[o n] subs IH]; intros buf Hl Hn.
  { exists buf. split_and!; [done..|]. intros i Hi [(o & n & []%not_elem_of_nil & _)|]; done. }
  apply Forall_cons in Hn as [Hn Hns]. simpl in Hn. rewrite fmap_cons. cbn [zip_with foldM fst snd].
  rewrite bind_of_Ok, read_bytes_word, bind_of_Ok by done.
  destruct (place_spec m addr size buf o n Hl Hn) as [Hl' Hp]. cbv zeta in Hl', Hp.
  destruct (IH _ Hl' Hns) as (buf' & Hf & Hlb & Hi). exists buf'. split_and!; [done..|].
  intros i His Hc. apply Hi; [done|]. rewrite Hp by done.
  destruct Hc as [(o' & n' & [[= -> ->]|Hin]%elem_of_cons & Hr)|Hb].
  - right. by rewrite (proj2 (Z.leb_le _ _)), (proj2 (Z.ltb_lt _ _)) by lia.
  - left. by exists o', n'.
  - right. by case_match.
Qed.

Lemma resolve_read_spec m addr size subs :
  mem_ok m -> 0 <= size -> Forall (fun s : Z * Z => 0 <= s.2) subs ->
  (forall i, 0 <= i < size -> covers subs i) ->
  resolve_read size subs ((fun s => Ok (from_le (read_bytes m (addr + s.1) s.2))) <$> subs)
  = Ok (read_bytes m addr size).
Proof.
  intros Hm Hs Hn Hc. unfold resolve_read.
  destruct (resolve_loop m addr size subs (replicate (Z.to_nat size) 0) Hm) as (buf & -> & Hl & Hi);
    [rewrite length_replicate; lia|done|]. rewrite bind_of_Ok. f_equal.
  apply list_eq_same_length with (Z.to_nat size); [by rewrite length_read_bytes|lia|].
  intros i x y Hlt Hx Hy. rewrite Hi in Hx by (lia || left; apply Hc; lia).
  rewrite lookup_read_bytes in Hy by lia. congruence.
Qed.

(** *** Both strategies cover the range with reads of it *)

Lemma tiles_covers addr size l : forall o,
  tiles addr o size l -> forall i, o <= i < size -> exists o' a n, (o', a, n) ∈ l /\ o' <= i < o' + n.
Proof.
  induction l as [|[[o' a] n] l IH]; intros o; simpl; [lia|].
  intros (-> & -> & Hn & _ & Hle & Ht) i Hi. destruct (decide (i < o + n)).
  - exists o, (addr + o), n. split; [left|lia].
  - destruct (IH (o + n) Ht i) as (o' & a & k & Hin & Hr); [lia|]. exists o', a, k. split; [by right|done].
Qed.

Lemma tiles_forall addr size l : forall o,
  tiles addr o size l -> Forall (fun '(o', a, n) => a = addr + o' /\ width_ok n /\ a mod n = 0) l.
Proof.
  induction l as [|[[o' a] n] l IH]; intros o; simpl; [done|].
  intros (-> & -> & Hn & Ha & _ & Ht). constructor; [done|]. by eapply IH.
Qed.

Lemma exec_read_op m n a : width_ok n -> exec_reg m (read_op n a) = (m, from_le (read_bytes m a n)).
Proof. by intros [->|[->| ->]]. Qed.

Lemma align_down a : Z.land a (Z.lnot 3) = 4 * (a / 4).
Proof.
  rewrite <- Z.ldiff_land. change 3 with (Z.ones 2). rewrite Z.ldiff_ones_r by lia.
  rewrite Z.shiftl_mul_pow2, Z.shiftr_div_pow2 by lia. change (2 ^ 2) with 4. lia.
Qed.

Lemma range_up_spec fuel first last w :
  last - first <= Z.of_nat fuel ->
  w ∈ range_up fuel first last 4 <-> first <= w < last /\ (w - first) mod 4 = 0.
Proof.
  revert first. induction fuel as [|fuel IH]; intros first Hf; cbn [range_up].
  { split; [by intros ?%not_elem_of_nil|lia]. }
  destruct (Z.ltb_spec first last) as [Hlt|Hge]; [|split; [by intros ?%not_elem_of_nil|lia]].
  rewrite elem_of_cons, IH by lia. split.
  - intros [->|[? Hm]]; [split; [lia|by rewrite Z.sub_diag]|]. split; [lia|].
    Z.div_mod_to_equations. lia.
  - intros [Hr Hm]. destruct (decide (w = first)); [by left|right].
    split; Z.div_mod_to_equations; lia.
Qed.

Lemma read_ops_spec d m addr size :
  0 <= size ->
  Forall (reads_window m addr) (read_ops d addr size)
  /\ forall i, 0 <= i < size -> covers ((fun t => (t.1.2, t.2)) <$> read_ops d addr size) i.
Proof.
  intros Hs. destruct d; simpl read_ops.
  - pose proof (chunks_tiles addr size Hs) as Ht. split.
    + apply Forall_fmap. eapply Forall_impl; [by eapply tiles_forall|].
      intros [[o a] n] (-> & Hn & _). split; [destruct Hn as [|[|]]; lia|by apply exec_read_op].
    + intros i Hi. destruct (tiles_covers addr size _ 0 Ht i Hi) as (o & a & n & Hin & Hr).
      exists o, n. split; [|done]. rewrite <- list_fmap_compose. apply list_elem_of_fmap.
      by exists (o, a, n).
  - destruct (Z.leb_spec size 0); [split; [constructor|lia]|]. rewrite !align_down. split.
    + apply Forall_fmap, Forall_true. intros w. split; [lia|]. simpl. by replace (addr + (w - addr)) with w by lia.
    + intros i Hi. exists (4 * ((addr + i) / 4) - addr), 4. split; [|Z.div_mod_to_equations; lia].
      rewrite <- list_fmap_compose. apply list_elem_of_fmap. exists (4 * ((addr + i) / 4)). split; [done|].
      apply range_up_spec; [lia|]. split; Z.div_mod_to_equations; lia.
Qed.

(** ** Writes *)

Lemma write_bytes_app m a d1 d2 :
  write_bytes m a (d1 ++ d2) = write_bytes (write_bytes m a d1) (a + zlen d1) d2.
Proof.
  revert m a. induction d1 as [|b d1 IH]; intros m a; simpl; [by rewrite Z.add_0_r|].
  rewrite IH. f_equal. lia.
Qed.

Lemma write_bytes_ok m a d : mem_ok m -> bytes_ok d -> mem_ok (write_bytes m a d).
Proof.
  intros Hm Hd. revert m a Hm. induction Hd as [|b d Hb _ IH]; intros m a Hm; [done|]. simpl.
  apply IH. intros x. destruct (decide (x = a)) as [->|].
  - by rewrite lookup_total_insert_eq.
  - by rewrite lookup_total_insert_ne.
Qed.

(** Reading after writing; parts of what was read. *)
Lemma fmap_agree (m m' : memory) (l : list Z) :
  (forall x, x ∈ l -> m' !!! x = m !!! x) -> (fun a => m' !!! a) <$> l = (fun a => m !!! a) <$> l.
Proof. intros H. apply list_fmap_ext. intros i x Hx. apply H. by eapply list_elem_of_lookup_2. Qed.

Lemma lookup_write_bytes m a d x :
  write_bytes m a d !!! x = if bool_decide (a <= x < a + zlen d) then d !!! Z.to_nat (x - a) else m !!! x.
Proof.
  revert m a. induction d as [|b d IH]; intros m a; cbn [write_bytes length].
  - rewrite bool_decide_eq_false_2 by lia. done.
  - rewrite IH. destruct (decide (x = a)) as [->|Hx].
    + rewrite bool_decide_eq_false_2, bool_decide_eq_true_2 by lia.
      rewrite lookup_total_insert_eq, Z.sub_diag. done.
    + rewrite lookup_total_insert_ne by done.
      destruct (decide (a + 1 <= x < a + 1 + zlen d)).
      * rewrite !bool_decide_eq_true_2 by lia.
        replace (Z.to_nat (x - a)) with (Datatypes.S (Z.to_nat (x - (a + 1)))) by lia. done.
      * rewrite !bool_decide_eq_false_2 by lia. done.
Qed.

Lemma write_bytes_out m a d x : x < a \/ a + zlen d <= x -> write_bytes m a d !!! x = m !!! x.
Proof. intros Hx. rewrite lookup_write_bytes, bool_decide_eq_false_2 by lia. done. Qed.

Lemma read_bytes_agree m m' a n : (forall x, a <= x < a + n -> m' !!! x = m !!! x) -> read_bytes m' a n = read_bytes m a n.
Proof. intros H. unfold read_bytes. apply fmap_agree. intros x Hx%elem_of_seqZ. by apply H. Qed.

Lemma read_write_bytes m a d : read_bytes (write_bytes m a d) a (zlen d) = d.
Proof.
  apply list_eq. intros i. destruct (decide (i < length d)%nat) as [Hi|Hi].
  - rewrite lookup_read_bytes by lia. rewrite lookup_write_bytes, bool_decide_eq_true_2 by lia.
    replace (Z.to_nat (a + Z.of_nat i - a)) with i by lia. symmetry. apply list_lookup_lookup_total_lt. done.
  - rewrite !lookup_ge_None_2; [done|lia|rewrite length_read_bytes; lia].
Qed.

Lemma read_write_other m a d b n :
  b + n <= a \/ a + zlen d <= b -> read_bytes (write_bytes m a d) b n = read_bytes m b n.
Proof. intros Hd. apply read_bytes_agree. intros x Hx. apply write_bytes_out. lia. Qed.

Lemma read_bytes_app m a x y : 0 <= x -> 0 <= y -> read_bytes m a (x + y) = read_bytes m a x ++ read_bytes m (a + x) y.
Proof. intros Hx Hy. unfold read_bytes. by rewrite seqZ_app, fmap_app. Qed.

Lemma slice_read_bytes m a n x y :
  0 <= x <= y -> y <= n -> slice (read_bytes m a n) x y = read_bytes m (a + x) (y - x).
Proof.
  intros Hx Hy. apply list_eq. intros i. destruct (decide (Z.of_nat i < y - x)) as [Hi|Hi].
  - rewrite lookup_slice by (rewrite ?length_read_bytes; lia). rewrite !lookup_read_bytes by lia. do 2 f_equal. lia.
  - rewrite !lookup_ge_None_2; [done| |].
    + rewrite length_read_bytes. lia.
    + rewrite length_slice by (rewrite ?length_read_bytes; lia). lia.
Qed.

Lemma exec_write_op m n a v :
  width_ok n -> exec_reg m (write_op n a v) = (write_bytes m a (le_bytes (Z.to_nat n) v), 0).
Proof. by intros [->|[->| ->]]. Qed.

Lemma exec_writes addr data l : forall m o,
  bytes_ok data -> 0 <= o -> tiles addr o (zlen data) l ->
  exec_regs m ((fun '(o, a, n) => write_op n a (from_le (slice data o (o + n)))) <$> l)
  = (write_bytes m (addr + o) (drop (Z.to_nat o) data), replicate (length l) 0).
Proof.
  induction l as [|[[o' a] n] l IH]; intros m o Hd Ho; simpl tiles.
  { intros ->. rewrite Nat2Z.id, drop_all. done. }
  intros (-> & -> & Hn & _ & Hle & Ht). rewrite fmap_cons. cbn [exec_regs].
  rewrite exec_write_op by done. assert (0 < n) by (destruct Hn as [|[|]]; lia).
  rewrite (IH _ (o + n) Hd) by (lia || done). simpl length. cbn [replicate]. f_equal.
  assert (zlen (slice data o (o + n)) = n) as Hl by (rewrite length_slice; lia).
  assert (le_bytes (Z.to_nat n) (from_le (slice data o (o + n))) = slice data o (o + n)) as ->.
  { rewrite <- Hl at 1. rewrite Nat2Z.id. apply le_bytes_from_le. by apply bytes_ok_slice. }
  assert (drop (Z.to_nat o) data = slice data o (o + n) ++ drop (Z.to_nat (o + n)) data) as ->.
  { rewrite slice_nonneg by lia. replace (Z.to_nat (o + n)) with (Z.to_nat o + (Z.to_nat (o + n) - Z.to_nat o))%nat at 2 by lia.
    rewrite <- drop_drop. by rewrite take_drop. }
  rewrite write_bytes_app, Hl. f_equal. lia.
Qed.

(** ** The batch *)

Definition op_ok (o : mem_op) : Prop :=
  match o with
  | RegOp _ => True
  | ReadBlob _ size => 0 <= size
  | WriteBlob _ data => bytes_ok data
  end.

Lemma exec_regs_app m l1 l2 :
  exec_regs m (l1 ++ l2) =
  let '(m1, v1) := exec_regs m l1 in let '(m2, v2) := exec_regs m1 l2 in (m2, v1 ++ v2).
Proof.
  revert m. induction l1 as [|r l1 IH]; intros m; simpl; [by destruct (exec_regs m l2)|].
  destruct (exec_reg m r) as [m1 v]. rewrite IH. destruct (exec_regs m1 l1) as [m2 v1].
  by destruct (exec_regs m2 l2).
Qed.

Lemma exec_reg_ok m r : mem_ok m -> mem_ok (exec_reg m r).1.
Proof. intros Hm. destruct r; cbn [exec_reg fst]; try done;
  (apply write_bytes_ok; [done|apply le_bytes_ok]). Qed.

(** One entry of the batch. *)
Lemma settle_spec d m o :
  mem_ok m -> op_ok o ->
  exists rs, exec_regs m ((fun t => t.1.1) <$> expand d o) = ((mem_spec m o).1, rs)
    /\ length rs = length (expand d o)
    /\ settle d o (Ok <$> rs) = Ok (mem_spec m o).2 /\ mem_ok (mem_spec m o).1.
Proof.
  intros Hm Ho. destruct o as [r|addr size|addr data]; simpl expand.
  - exists [(exec_reg m r).2]. pose proof (exec_reg_ok m r Hm). simpl.
    destruct (exec_reg m r) as [m' v]. simpl in *. done.
  - destruct (read_ops_spec d m addr size Ho) as [Hr Hc]. rewrite (exec_reads m addr) by done.
    eexists. split; [done|]. rewrite length_fmap. split; [done|]. split; [|done].
    cbn [settle expand]. rewrite <- list_fmap_compose.
    set (subs := (fun t => (t.1.2, t.2)) <$> read_ops d addr size) in *.
    assert ((Ok ∘ (fun t : triple => from_le (read_bytes m (addr + t.1.2) t.2))) <$> read_ops d addr size
            = (fun s => Ok (from_le (read_bytes m (addr + s.1) s.2))) <$> subs) as ->
      by (unfold subs; by rewrite <- list_fmap_compose).
    rewrite resolve_read_spec; [done..| |done].
    unfold subs. apply Forall_fmap. eapply Forall_impl; [done|]. intros [[r o] n] [? _]. done.
  - unfold write_ops. rewrite <- list_fmap_compose.
    pose proof (exec_writes addr data (chunks addr (zlen data)) m 0 Ho ltac:(lia)
                  (chunks_tiles addr (zlen data) ltac:(lia))) as Hw.
    rewrite Z.add_0_r, drop_0 in Hw.
    assert ((fun '(o, a, n) => write_op n a (from_le (slice data o (o + n)))) <$> chunks addr (zlen data)
      = ((fun t : triple => t.1.1) ∘ (fun '(offset, chunk_addr, n) =>
          (write_op n chunk_addr (from_le (slice data offset (offset + n))), offset, n)))
        <$> chunks addr (zlen data)) as Heq by (apply list_fmap_ext; by intros ? [[? ?] ?]).
    rewrite <- Heq, Hw. eexists. split; [done|]. rewrite length_replicate, length_fmap. split; [done|].
    split; [|by apply write_bytes_ok]. simpl.
    assert (forall k, resolve_write (Ok <$> replicate k 0) = Ok tt) as ->; [|done].
    intros k. unfold resolve_write. induction k as [|k IH]; [done|]. rewrite replicate_S, fmap_cons.
    cbn [foldM]. rewrite bind_of_Ok. exact IH.
Qed.

Lemma lower_cons d o batch :
  lower d (o :: batch) = ((fun t => t.1.1) <$> expand d o) ++ lower d batch.
Proof. done. Qed.

Lemma batch_refines d batch : forall m,
  mem_ok m -> Forall op_ok batch ->
  exists rs, exec_regs m (lower d batch) = ((mem_spec_all m batch).1, rs)
    /\ settle_all d batch (Ok <$> rs) = Ok <$> (mem_spec_all m batch).2.
Proof.
  induction batch as [|o batch IH]; intros m Hm Hok; [by exists []|].
  apply Forall_cons in Hok as [Ho Hok]. rewrite lower_cons, exec_regs_app.
  destruct (settle_spec d m o Hm Ho) as (rs1 & -> & Hl & Hs & Hm1).
  cbn [mem_spec_all]. destruct (mem_spec m o) as [m1 v1]. simpl in Hs, Hm1. cbn [fst].
  destruct (IH m1 Hm1 Hok) as (rs2 & -> & Hs2). destruct (mem_spec_all m1 batch) as [m2 vs]. simpl in Hs2.
  exists (rs1 ++ rs2). split; [done|]. cbn [settle_all snd].
  rewrite fmap_app, take_app_length', drop_app_length' by (by rewrite length_fmap).
  by rewrite Hs, Hs2.
Qed.

(** A register written through a blob and read back. *)
Lemma reg_roundtrip e v n :
  0 <= n -> exists raw, reg_payload e v n = Ok raw /\ zlen raw = n /\ bytes_ok raw
            /\ reg_value e raw = v mod 2 ^ (8 * n).
Proof.
  intros Hn. unfold reg_payload. cbv zeta. rewrite land_low by lia. rewrite Z.mul_comm.
  assert (0 <= v mod 2 ^ (8 * n) < 256 ^ n) as Hb by (rewrite pow_256 by done; apply Z.mod_pos_bound; lia).
  unfold to_bytes_be. rewrite to_bytes_le_Ok by done.
  assert (from_le (le_bytes (Z.to_nat n) (v mod 2 ^ (8 * n))) = v mod 2 ^ (8 * n)) as Hv
    by (rewrite from_le_le_bytes, Z2Nat.id by done; by apply Z.mod_small).
  destruct e; eexists; (split; [done|]); simpl.
  - rewrite length_le_bytes. split_and!; [lia|apply le_bytes_ok|done].
  - rewrite length_reverse, length_le_bytes. unfold from_be. rewrite reverse_involutive.
    split_and!; [lia|apply Forall_reverse, le_bytes_ok|done].
Qed.

Lemma tiles_inside addr off size l :
  0 <= off -> tiles addr off size l ->
  Forall (fun '(offset, a, n) => a = addr + offset /\ (n = 1 \/ n = 2 \/ n = 4)
            /\ a mod n = 0 /\ addr <= a /\ a + n <= addr + size) l.
Proof.
  revert off. induction l as [|[[o a] n] l IH]; intros off Hoff; [constructor|]. simpl.
  intros (-> & -> & Hn & Ha & Hle & Ht). assert (0 < n) by (destruct Hn as [|[|]]; lia).
  constructor; [split_and!; try done; lia|]. apply (IH (off + n)); [lia|done].
Qed.

(** ** Properties *)

(** C12: a batch of register and blob accesses, lowered to 8-, 16- and 32-bit
    accesses, executed on the bus and reassembled, leaves the memory and
    returns the values of the batch executed byte by byte, in order, with
    either read strategy. *)
Theorem bulk_from_register_refines d batch m :
  mem_ok m -> Forall op_ok batch ->
  exists rs, exec_regs m (lower d batch) = ((mem_spec_all m batch).1, rs)
    /\ settle_all d batch (Ok <$> rs) = Ok <$> (mem_spec_all m batch).2.
Proof. intros Hm. by apply batch_refines. Qed.

Definition sample_memory : memory := write_bytes ∅ 0x1000 (Z.of_nat <$> seq 1 16).

Lemma sample_memory_ok : mem_ok sample_memory.
Proof.
  apply write_bytes_ok; [|by repeat constructor]. intros a. rewrite lookup_total_empty. done.
Qed.

Lemma bulk_from_register_refines_witness :
  exists rs, exec_regs sample_memory (lower Precise [WriteBlob 0x1003 [0xaa; 0xbb; 0xcc]; ReadBlob 0x1002 5])
      = (write_bytes sample_memory 0x1003 [0xaa; 0xbb; 0xcc], rs)
    /\ settle_all Precise [WriteBlob 0x1003 [0xaa; 0xbb; 0xcc]; ReadBlob 0x1002 5] (Ok <$> rs)
       = [Ok VNone; Ok (VBytes [3; 0xaa; 0xbb; 0xcc; 7])].
Proof.
  destruct (bulk_from_register_refines Precise [WriteBlob 0x1003 [0xaa; 0xbb; 0xcc]; ReadBlob 0x1002 5]
    sample_memory sample_memory_ok) as (rs & Hx & Hs).
  - repeat constructor; simpl; try lia.
  - exists rs. split; [exact Hx|]. rewrite Hs. vm_compute. reflexivity.
Defined.

(** The chunks of a byte range are accesses of 1, 2 or 4 bytes, each
    naturally aligned, consecutive, starting at the range's first byte and
    ending at its last: nothing outside the range is touched. *)
Theorem chunks_cover_exactly addr size :
  0 <= size ->
  tiles addr 0 size (chunks addr size)
  /\ Forall (fun '(offset, a, n) => a = addr + offset /\ (n = 1 \/ n = 2 \/ n = 4)
               /\ a mod n = 0 /\ addr <= a /\ a + n <= addr + size) (chunks addr size).
Proof.
  intros Hs. pose proof (chunks_tiles addr size Hs) as Ht. split; [done|].
  by apply (tiles_inside addr 0 size).
Qed.

Lemma chunks_cover_exactly_witness :
  chunks 0x1001 8 = [(0, 0x1001, 1); (1, 0x1002, 2); (3, 0x1004, 4); (7, 0x1008, 1)]
  /\ tiles 0x1001 0 8 (chunks 0x1001 8).
Proof. split; [reflexivity|]. apply (chunks_cover_exactly 0x1001 8). lia. Defined.

(** A register written through the bulk interface and read back, in
    either byte order, is its value modulo the register's width. *)
Theorem register_from_bulk_roundtrip e v n :
  0 <= n -> exists raw, reg_payload e v n = Ok raw /\ zlen raw = n /\ bytes_ok raw
            /\ reg_value e raw = v mod 2 ^ (8 * n).
Proof. apply reg_roundtrip. Qed.

Lemma register_from_bulk_roundtrip_witness :
  exists raw, reg_payload Big (-2) 4 = Ok raw /\ reg_value Big raw = 0xfffffffe.
Proof.
  destruct (register_from_bulk_roundtrip Big (-2) 4) as (raw & Hr & _ & _ & Hv); [lia|]. by exists raw.
Defined.
