(* ===== verification/Crc.v ===== *)
(** * Cyclic redundancy checks (src/acrobe/util/crc.py)

    One class covers every bit order: the state has its order-0 coefficient
    at either end, bytes are fed from either end, input, state and result may
    be complemented or bit-swapped.  Modelled: the bit-serial update and its
    inverse, seeking over zero bits through exponentiation in the ring of
    polynomials, spilling to integers and bytes, validity of a message with
    its CRC appended, CRC deltas for patched data, and the conversion between
    the two state orders.

    [fwd] is one bit-step on states in range; [refl] is the state with its
    order-0 coefficient at the top, a form in which both bit orders take the
    same step ([rstep]). *)

From S2P Require Import Prelude.

(** ** Bit and byte helpers (src/acrobe/util/endian.py, bytes_ops.py) *)

Fixpoint swib_loop (n : nat) (r word : Z) : Z :=
  match n with
  | O => r
  | S n => swib_loop n (Z.lor (Z.shiftl r 1) (Z.land word 1)) (Z.shiftr word 1)
  end.

Definition swib (word width : Z) : Z := swib_loop (Z.to_nat width) 0 word.

(** [bytes_map] with two byte strings, and with an integer. *)
Definition bytes_map2 (op : Z -> Z -> Z) (a b : list Z) : result (list Z) :=
  if zlen a =? zlen b then Ok (zip_with op a b) else Err ValueError.
Definition bytes_map (op : Z -> Z -> Z) (a : list Z) (b : Z) : list Z := (fun x => op x b) <$> a.

Definition xor_ (a b : list Z) : result (list Z) := bytes_map2 Z.lxor a b.
Definition not_ (a : list Z) : list Z := bytes_map Z.lxor a 0xff.

(** ** The algorithm *)

Inductive byte_order : Type := Little | Big.

#[global] Instance byte_order_eq_dec : EqDecision byte_order.
Proof. solve_decision. Defined.

Record Crc : Type := mkCrc {
  poly : Z;
  init : Z;
  pop_lsb : bool;
  order0_at_lsb : bool;
  complement_input : bool;
  complement_state : bool;
  spill_bitswap : bool;
  spill_byte_order : byte_order;
}.

#[global] Instance Crc_eq_dec : EqDecision Crc.
Proof. solve_decision. Defined.

(** The attributes [__init__] derives; [int(math.log2(poly))] is the degree. *)
Definition order (c : Crc) : Z := Z.log2 (poly c).
Definition byte_width (c : Crc) : Z := (order c + 7) / 8.
Definition wbit (c : Crc) : Z := Z.shiftl 1 (order c).
Definition mask (c : Crc) : Z := wbit c - 1.
Definition lpoly (c : Crc) : Z := Z.land (poly c) (mask c).
Definition unit_ (c : Crc) : Z := if order0_at_lsb c then 1 else Z.shiftl 1 (order c - 1).
Definition two (c : Crc) : Z := if order0_at_lsb c then 2 else Z.shiftl 1 (order c - 2).
Definition state_comp (c : Crc) : Z := if complement_state c then mask c else 0.

(** [__init__] *)
Definition new_crc (poly init : Z) (pop_lsb order0_at_lsb complement_input complement_state
    spill_bitswap : bool) (spill_byte_order : byte_order) : result Crc :=
  if Z.land poly 1 =? 0 then Err AssertionError
  else if poly <=? 0 then Err ValueError            (* math.log2 *)
  else
    let order := Z.log2 poly in
    let wbit := Z.shiftl 1 order in
    let mask := wbit - 1 in
    Ok (mkCrc (Z.land poly (Z.lor mask wbit)) (Z.land init mask) pop_lsb order0_at_lsb
          complement_input complement_state spill_bitswap spill_byte_order).

(** [bits_iterate] and [bytes_iterate] *)
Fixpoint bits_loop (n : nat) (word width : Z) (lsb : bool) : list Z :=
  match n with
  | O => []
  | S n => if lsb then Z.land word 1 :: bits_loop n (Z.shiftr word 1) width lsb
           else Z.land (Z.shiftr word (width - 1)) 1 :: bits_loop n (Z.shiftl word 1) width lsb
  end.

Definition bits_iterate (word width : Z) (lsb : bool) : list Z :=
  bits_loop (Z.to_nat width) word width lsb.

Definition bytes_iterate (data : list Z) (lsb : bool) : list Z :=
  data ≫= fun b => bits_iterate b 8 lsb.

(** [_forward] and [_backward] *)
Definition forward (c : Crc) (state bit : Z) : result Z :=
  if order0_at_lsb c then
    let state := Z.lxor (Z.shiftl state 1) (Z.shiftl bit (order c)) in
    let state := if Z.land state (wbit c) =? 0 then state else Z.lxor state (poly c) in
    if Z.land state (Z.lnot (mask c)) =? 0 then Ok state else Err AssertionError
  else
    let state := Z.lxor state bit in
    let state := if Z.land state 1 =? 0 then state else Z.lxor state (poly c) in
    Ok (Z.shiftr state 1).

Definition backward (c : Crc) (state bit : Z) : Z :=
  if order0_at_lsb c then
    let state := if Z.land state 1 =? 0 then state else Z.lxor state (poly c) in
    let state := Z.lxor state (Z.shiftl bit (order c)) in
    Z.shiftr state 1
  else
    let state := Z.shiftl state 1 in
    let state := if Z.land state (wbit c) =? 0 then state else Z.lxor state (poly c) in
    Z.lxor state bit.

Definition forward_bytes (c : Crc) (state : Z) (data : list Z) : result Z :=
  foldM (forward c) state (bytes_iterate data (pop_lsb c)).

Definition backward_bytes (c : Crc) (state : Z) (data : list Z) : Z :=
  foldl (backward c) state (bytes_iterate (reverse data) (negb (pop_lsb c))).

(** [_gfmul], [_gfexp], [_forward_many], [_backward_many] *)
Definition gfmul (c : Crc) (a b : Z) : result Z :=
  ra ← foldM (fun '(r, a) bit =>
      let r := if bit =? 0 then r else Z.lxor r a in
      a ← forward c a 0; Ok (r, a))
    (0, a) (bits_iterate b (order c) (order0_at_lsb c));
  Ok (fst ra).

Fixpoint gfexp_loop (fuel : nat) (c : Crc) (r x n : Z) : result Z :=
  match fuel with
  | O => if n =? 0 then Ok r else Err OutOfFuel
  | S fuel =>
      if n =? 0 then Ok r
      else
        r ← (if Z.land n 1 =? 0 then Ok r else gfmul c r x);
        x ← gfmul c x x;
        gfexp_loop fuel c r x (Z.shiftr n 1)
  end.

Definition gfexp (c : Crc) (x n : Z) : result Z :=
  gfexp_loop (S (Z.to_nat (Z.log2 n))) c (unit_ c) x n.

Definition forward_many (c : Crc) (state step_count : Z) : result Z :=
  e ← gfexp c (two c) step_count; gfmul c state e.

Definition backward_many (c : Crc) (state step_count : Z) : Z :=
  foldl (fun s _ => backward c s 0) state (seqZ 0 step_count).

(** [update], [unupdate], [update_seek] *)
Definition update (c : Crc) (state : Z) (data : list Z) : result Z :=
  let state := Z.lxor (state_comp c) state in
  let data := if complement_input c then not_ data else data in
  state ← forward_bytes c state data;
  Ok (Z.lxor (state_comp c) state).

Definition unupdate (c : Crc) (state : Z) (data : list Z) : Z :=
  let state := Z.lxor (state_comp c) state in
  let data := if complement_input c then not_ data else data in
  Z.lxor (state_comp c) (backward_bytes c state data).

Definition update_seek (c : Crc) (state bit_count : Z) : result Z :=
  let state := Z.lxor (state_comp c) state in
  state ← (if complement_input c then foldM (fun s _ => forward c s 1) state (seqZ 0 bit_count)
           else forward_many c state bit_count);
  Ok (Z.lxor (state_comp c) state).

(** [as_int], [as_bytes], [from_bytes], [from_int] *)
Definition as_int (c : Crc) (state : Z) : Z :=
  if spill_bitswap c then swib state (order c) else state.

Definition to_bytes (o : byte_order) (n v : Z) : result (list Z) :=
  match o with Little => to_bytes_le n v | Big => to_bytes_be n v end.
Definition int_from_bytes (o : byte_order) (d : list Z) : Z :=
  match o with Little => from_le d | Big => from_be d end.

Definition as_bytes (c : Crc) (state : Z) : result (list Z) :=
  to_bytes (spill_byte_order c) (byte_width c) (as_int c state).

Definition from_int (c : Crc) (value : Z) : Z :=
  if spill_bitswap c then swib value (order c) else value.
Definition from_bytes (c : Crc) (d : list Z) : Z :=
  from_int c (int_from_bytes (spill_byte_order c) d).

(** [calc], [calc_bytes], [check_state], [is_valid], [append_to], [crc_is],
    [state_error]; [init] defaults to the algorithm's. *)
Definition calc (c : Crc) (data : list Z) (i : option Z) : result Z :=
  s ← update c (default (init c) i) data; Ok (as_int c s).
Definition calc_bytes (c : Crc) (data : list Z) (i : option Z) : result (list Z) :=
  s ← update c (default (init c) i) data; as_bytes c s.
Definition check_state (c : Crc) : result Z :=
  b ← as_bytes c (init c); update c (init c) b.
Definition is_valid (c : Crc) (data : list Z) (i : option Z) : result bool :=
  s ← update c (default (init c) i) data;
  k ← check_state c;
  Ok (s =? k).
Definition append_to (c : Crc) (data : list Z) (i : option Z) : result (list Z) :=
  b ← calc_bytes c data i; Ok (data ++ b).
Definition crc_is (c : Crc) (data crc : list Z) (i : option Z) : result bool :=
  b ← calc_bytes c data i; Ok (bool_decide (b = crc)).
Definition state_error (c : Crc) (message_with_crc : list Z) (i : option Z) : result Z :=
  expected ← update c (default (init c) i) (slice_to message_with_crc (- byte_width c));
  Ok (Z.lxor expected (from_bytes c (slice_from message_with_crc (- byte_width c)))).

(** [data_mod_state_delta_compute] and [data_mod_crc_delta_compute] *)
Definition data_mod_state_delta_compute (c : Crc) (data_offset : Z) (data_diff : list Z)
    (patch_offset : Z) : result Z :=
  contribution ← forward_bytes c 0 data_diff;
  let offset_to_patch := patch_offset - (data_offset + zlen data_diff) in
  if 0 <? offset_to_patch then forward_many c contribution (offset_to_patch * 8)
  else Ok (backward_many c contribution (- offset_to_patch * 8)).

Definition data_mod_crc_delta_compute (c : Crc) (data_offset : Z) (data_diff : list Z)
    (total_size : Z) : result (list Z) :=
  delta ← data_mod_state_delta_compute c data_offset data_diff total_size;
  as_bytes c delta.

(** [order_swapped], through [variant] and the constructor *)
Definition order_swapped (c : Crc) : result Crc :=
  new_crc (swib (poly c) (order c + 1)) (swib (init c) (order c)) (pop_lsb c)
    (negb (order0_at_lsb c)) (complement_input c) (complement_state c)
    (negb (spill_bitswap c)) (spill_byte_order c).

Create HintDb crc.

(** ** States in range *)

(** What the constructor guarantees: an odd polynomial of degree at least
    one. *)
Record crc_ok (c : Crc) : Prop := {
  co_odd : Z.testbit (poly c) 0 = true;
  co_poly : 1 < poly c;
  co_init : 0 <= init c < 2 ^ order c;
}.

Definition in_range (c : Crc) (s : Z) : Prop := 0 <= s < 2 ^ order c.

(** One bit-step. *)
Definition fwd (c : Crc) (s : Z) (b : bool) : Z :=
  if order0_at_lsb c then
    let u := Z.lxor (Z.shiftl s 1) (Z.shiftl (Z.b2z b) (order c)) in
    Z.lxor u (if Z.testbit u (order c) then poly c else 0)
  else
    let u := Z.lxor s (Z.b2z b) in
    Z.shiftr (Z.lxor u (if Z.testbit u 0 then poly c else 0)) 1.

Lemma order_pos c : crc_ok c -> 1 <= order c.
Proof. intros [_ Hp _]. unfold order. apply Z.log2_le_pow2; lia. Qed.

Lemma poly_bound c : crc_ok c -> 0 <= poly c < 2 ^ (order c + 1).
Proof.
  intros [_ Hp _]. unfold order. pose proof (Z.log2_spec (poly c)) as [_ Hl]; [lia|].
  rewrite <- Z.add_1_r in Hl. lia.
Qed.

Lemma poly_top c : crc_ok c -> Z.testbit (poly c) (order c) = true.
Proof. intros [_ Hp _]. apply Z.bit_log2. lia. Qed.

Lemma testbit_b2z b i : Z.testbit (Z.b2z b) i = (i =? 0) && b.
Proof.
  destruct b; [change (Z.b2z true) with 1; rewrite testbit_1; by destruct (i =? 0)|].
  change (Z.b2z false) with 0. rewrite Z.bits_0. by rewrite andb_false_r.
Qed.
#[export] Hint Rewrite testbit_b2z : bits.

Lemma testbit_cond (b : bool) x i : Z.testbit (if b then x else 0) i = b && Z.testbit x i.
Proof. destruct b; [done|]. by rewrite Z.bits_0. Qed.
#[export] Hint Rewrite testbit_cond : bits.

(** Equality of integers in range is equality of the bits in range. *)
Lemma range_ext n a b :
  0 <= n -> 0 <= a < 2 ^ n -> 0 <= b < 2 ^ n ->
  (forall i, 0 <= i < n -> Z.testbit a i = Z.testbit b i) -> a = b.
Proof.
  intros Hn Ha Hb Heq. apply Z.bits_inj'. intros i Hi. destruct (Z.lt_ge_cases i n); [by apply Heq|].
  by rewrite !(testbit_above _ n) by done.
Qed.

Lemma range_intro n a :
  0 <= n -> 0 <= a -> (forall i, n <= i -> Z.testbit a i = false) -> 0 <= a < 2 ^ n.
Proof. intros Hn Ha Hb. split; [done|by apply bounded_bits]. Qed.

(** The coefficient that leaves the register, plus the bit fed in. *)
Definition feedback (c : Crc) (s : Z) (b : bool) : bool :=
  xorb (Z.testbit s (if order0_at_lsb c then order c - 1 else 0)) b.

Lemma fwd_nonneg c s b : crc_ok c -> 0 <= s -> 0 <= fwd c s b.
Proof.
  intros Hc Hs. pose proof (poly_bound c Hc). unfold fwd.
  assert (forall x : bool, 0 <= if x then poly c else 0) as Hif by (intros []; lia).
  assert (0 <= Z.b2z b) by (destruct b; simpl; lia).
  destruct (order0_at_lsb c); cbv zeta.
  - rewrite !Z.lxor_nonneg, !Z.shiftl_nonneg. 
    specialize (Hif (Z.testbit (Z.lxor (Z.shiftl s 1) (Z.shiftl (Z.b2z b) (order c))) (order c))). tauto.
  - rewrite Z.shiftr_nonneg, !Z.lxor_nonneg. specialize (Hif (Z.testbit (Z.lxor s (Z.b2z b)) 0)). tauto.
Qed.

Lemma fwd_bit c s b i :
  crc_ok c -> in_range c s -> 0 <= i ->
  Z.testbit (fwd c s b) i =
    (i <? order c) && xorb (Z.testbit s (if order0_at_lsb c then i - 1 else i + 1))
      (feedback c s b && Z.testbit (poly c) (if order0_at_lsb c then i else i + 1)).
Proof.
  intros Hc Hs Hi. pose proof (order_pos c Hc) as Ho. pose proof (poly_bound c Hc) as Hp.
  pose proof (poly_top c Hc) as Ht. unfold in_range in Hs. unfold fwd, feedback.
  destruct (order0_at_lsb c); cbv zeta.
  - rewrite Z.lxor_spec, testbit_cond, !Z.lxor_spec, !Z.shiftl_spec, !testbit_b2z by lia.
    rewrite Z.sub_diag, Z.eqb_refl. simpl andb.
    destruct (Z.ltb_spec i (order c)); simpl andb.
    + rewrite (proj2 (Z.eqb_neq _ _)), andb_false_l, xorb_false_r by lia. done.
    + destruct (Z.eqb_spec (i - order c) 0) as [He|He].
      * assert (i = order c) as -> by lia. rewrite Ht, andb_true_r, andb_true_l. apply xorb_nilpotent.
      * rewrite (testbit_above s (order c)), (testbit_above (poly c) (order c + 1)) by (done || lia).
        by rewrite andb_false_r.
  - rewrite Z.shiftr_spec, Z.lxor_spec, testbit_cond, !Z.lxor_spec, !testbit_b2z by lia.
    rewrite (proj2 (Z.eqb_neq (i + 1) 0)), andb_false_l, xorb_false_r by lia.
    change (0 =? 0) with true. simpl andb. destruct (Z.ltb_spec i (order c)); [done|].
    rewrite (testbit_above s (order c)), (testbit_above (poly c) (order c + 1)) by (done || lia).
    by rewrite andb_false_r.
Qed.

Lemma fwd_range c s b : crc_ok c -> in_range c s -> in_range c (fwd c s b).
Proof.
  intros Hc Hs. pose proof (order_pos c Hc). apply range_intro; [lia|apply fwd_nonneg; [done|apply Hs]|].
  intros i Hi. rewrite fwd_bit by (done || lia). by rewrite (proj2 (Z.ltb_ge _ _)).
Qed.
#[export] Hint Resolve fwd_range : crc.

Lemma eqb_land_testbit x k : 0 <= k -> (Z.land x (Z.shiftl 1 k) =? 0) = negb (Z.testbit x k).
Proof. intros Hk. rewrite <- (land_shiftl_1 x k) by done. by rewrite negb_involutive. Qed.

Lemma land_1_testbit x : (Z.land x 1 =? 0) = negb (Z.testbit x 0).
Proof. change 1 with (Z.shiftl 1 0). by apply eqb_land_testbit. Qed.

(** On states in range the assertion of [_forward] holds. *)
Lemma forward_fwd c s b :
  crc_ok c -> in_range c s -> forward c s (Z.b2z b) = Ok (fwd c s b).
Proof.
  intros Hc Hs. pose proof (order_pos c Hc) as Ho. pose proof (fwd_range c s b Hc Hs) as Hr.
  unfold forward, fwd in *. destruct (order0_at_lsb c); cbv zeta in *.
  - unfold wbit. rewrite !eqb_land_testbit by lia.
    set (u := Z.lxor (Z.shiftl s 1) (Z.shiftl (Z.b2z b) (order c))) in *.
    assert ((if negb (Z.testbit u (order c)) then u else Z.lxor u (poly c))
            = Z.lxor u (if Z.testbit u (order c) then poly c else 0)) as ->
      by (destruct (Z.testbit u (order c)); [done|]; simpl; by rewrite Z.lxor_0_r).
    set (r := Z.lxor u _) in *. rewrite (proj2 (Z.eqb_eq _ 0)); [done|].
    unfold mask, wbit. unfold in_range in Hr. clearbody r. bitwise.
  - rewrite land_1_testbit. set (u := Z.lxor s (Z.b2z b)) in *.
    destruct (Z.testbit u 0); simpl; [done|]. by rewrite Z.lxor_0_r.
Qed.

(** A whole string of bits. *)
Definition run (c : Crc) (s : Z) (bs : list bool) : Z := foldl (fwd c) s bs.

Lemma run_range c s bs : crc_ok c -> in_range c s -> in_range c (run c s bs).
Proof. intros Hc. revert s. induction bs as [|b bs IH]; intros s Hs; simpl; [done|]. apply IH. by apply fwd_range. Qed.
#[export] Hint Resolve run_range : crc.

Lemma run_app c s l1 l2 : run c s (l1 ++ l2) = run c (run c s l1) l2.
Proof. apply foldl_app. Qed.

Lemma foldM_forward c s bs :
  crc_ok c -> in_range c s -> foldM (forward c) s (Z.b2z <$> bs) = Ok (run c s bs).
Proof.
  intros Hc. revert s. induction bs as [|b bs IH]; intros s Hs; [done|]. rewrite fmap_cons. cbn [foldM].
  rewrite forward_fwd, bind_of_Ok by done. apply IH. by apply fwd_range.
Qed.

(** ** Bits of words and bytes *)

Lemma land_1_b2z w : Z.land w 1 = Z.b2z (Z.testbit w 0).
Proof. rewrite Z.bit0_mod. change 1 with (Z.ones 1). by rewrite Z.land_ones by lia. Qed.

Lemma bits_of_S n w : bits_of (S n) w = Z.testbit w 0 :: bits_of n (Z.shiftr w 1).
Proof. change (S n) with (1 + n)%nat. by rewrite bits_of_app. Qed.

Lemma bits_loop_lsb n w width : bits_loop n w width true = Z.b2z <$> bits_of n w.
Proof.
  revert w. induction n as [|n IH]; intros w; [done|]. cbn [bits_loop].
  rewrite bits_of_S, fmap_cons, IH, land_1_b2z. done.
Qed.

Lemma bits_loop_msb n w width :
  Z.of_nat n <= width ->
  bits_loop n w width false = (fun j : nat => Z.b2z (Z.testbit w (width - 1 - Z.of_nat j))) <$> seq 0 n.
Proof.
  revert w. induction n as [|n IH]; intros w Hn; [done|]. cbn [bits_loop].
  rewrite IH by lia. cbn [seq]. rewrite fmap_cons, <- fmap_S_seq, <- list_fmap_compose. f_equal.
  - rewrite land_1_b2z, Z.shiftr_spec by lia. f_equal. f_equal. lia.
  - apply list_fmap_ext. intros i j Hj%lookup_seq. simpl. rewrite Z.shiftl_spec by lia. f_equal. f_equal. lia.
Qed.

(** The bits of a word in the order they are fed. *)
Definition word_bits (n : nat) (w : Z) (lsb : bool) : list bool :=
  if lsb then bits_of n w else reverse (bits_of n w).

Lemma lookup_reverse_bits_of n w i :
  (i < n)%nat -> reverse (bits_of n w) !! i = Some (Z.testbit w (Z.of_nat n - 1 - Z.of_nat i)).
Proof.
  intros Hi. rewrite reverse_lookup by (by rewrite length_bits_of).
  rewrite length_bits_of, lookup_bits_of by lia. do 2 f_equal. lia.
Qed.

Lemma bits_iterate_spec w width lsb :
  0 <= width -> bits_iterate w width lsb = Z.b2z <$> word_bits (Z.to_nat width) w lsb.
Proof.
  intros Hw. unfold bits_iterate, word_bits. destruct lsb; [apply bits_loop_lsb|].
  rewrite bits_loop_msb by lia. apply list_eq_same_length with (Z.to_nat width); [|by rewrite length_fmap, length_seq|].
  { by rewrite length_fmap, length_reverse, length_bits_of. }
  intros i x y Hi. rewrite !list_lookup_fmap, lookup_reverse_bits_of, lookup_seq_lt by done. simpl.
  intros [= <-] [= <-]. do 2 f_equal. lia.
Qed.

Definition data_bits (data : list Z) (lsb : bool) : list bool := data ≫= fun b => word_bits 8 b lsb.

Lemma bytes_iterate_spec data lsb : bytes_iterate data lsb = Z.b2z <$> data_bits data lsb.
Proof.
  unfold bytes_iterate, data_bits. induction data as [|b data IH]; [done|].
  rewrite !bind_cons, fmap_app, IH, bits_iterate_spec by lia. done.
Qed.

Lemma data_bits_app d1 d2 lsb : data_bits (d1 ++ d2) lsb = data_bits d1 lsb ++ data_bits d2 lsb.
Proof. apply bind_app. Qed.

Lemma length_data_bits d lsb : length (data_bits d lsb) = (8 * length d)%nat.
Proof.
  unfold data_bits. induction d as [|b d IH]; [done|]. rewrite bind_cons, length_app, IH.
  unfold word_bits. destruct lsb; rewrite ?length_reverse, length_bits_of; simpl; lia.
Qed.

Lemma data_bits_reverse d lsb : data_bits (reverse d) (negb lsb) = reverse (data_bits d lsb).
Proof.
  unfold data_bits. induction d as [|b d IH]; [done|].
  rewrite reverse_cons, bind_app, IH. cbn [mbind list_bind]. rewrite reverse_app, app_nil_r. f_equal.
  unfold word_bits. destruct lsb; simpl; [done|]. by rewrite reverse_involutive.
Qed.

(** [not_] complements the bits. *)
Lemma data_bits_not d lsb : data_bits (not_ d) lsb = negb <$> data_bits d lsb.
Proof.
  unfold data_bits, not_, bytes_map. induction d as [|b d IH]; [done|].
  rewrite fmap_cons, !bind_cons, fmap_app, IH. f_equal. clear.
  assert (bits_of 8 (Z.lxor b 0xff) = negb <$> bits_of 8 b) as He.
  { unfold bits_of. rewrite <- list_fmap_compose. apply list_fmap_ext. intros i j Hj%lookup_seq. simpl.
    rewrite Z.lxor_spec. change 0xff with (Z.ones 8). rewrite testbit_ones_ltb by lia.
    by rewrite (proj2 (Z.ltb_lt _ _)), xorb_true_r by lia. }
  unfold word_bits. destruct lsb; [done|]. by rewrite He, fmap_reverse.
Qed.

(** The bits an update feeds. *)
Definition fed (c : Crc) (data : list Z) : list bool :=
  (if complement_input c then fmap negb else id) (data_bits data (pop_lsb c)).

Lemma fed_app c d1 d2 : fed c (d1 ++ d2) = fed c d1 ++ fed c d2.
Proof. unfold fed. rewrite data_bits_app. destruct (complement_input c); [apply fmap_app|done]. Qed.

Lemma mask_range c : crc_ok c -> in_range c (mask c).
Proof.
  intros Hc. pose proof (order_pos c Hc). unfold in_range, mask, wbit. rewrite shiftl_1 by lia.
  pose proof (Z.pow_pos_nonneg 2 (order c)). lia.
Qed.

Lemma state_comp_range c : crc_ok c -> in_range c (state_comp c).
Proof.
  intros Hc. unfold state_comp. destruct (complement_state c); [by apply mask_range|].
  unfold in_range. pose proof (order_pos c Hc). pose proof (Z.pow_pos_nonneg 2 (order c)). lia.
Qed.

Lemma lxor_range c a b : in_range c a -> in_range c b -> in_range c (Z.lxor a b).
Proof. apply lxor_bound. Qed.
#[export] Hint Resolve mask_range state_comp_range lxor_range co_init : crc.

Lemma update_run c s data :
  crc_ok c -> in_range c s ->
  update c s data = Ok (Z.lxor (state_comp c) (run c (Z.lxor (state_comp c) s) (fed c data))).
Proof.
  intros Hc Hs. unfold update, forward_bytes. rewrite bytes_iterate_spec.
  assert (data_bits (if complement_input c then not_ data else data) (pop_lsb c) = fed c data) as ->
    by (unfold fed; destruct (complement_input c); [apply data_bits_not|done]).
  rewrite foldM_forward, bind_of_Ok by auto with crc. done.
Qed.

(** ** Backwards *)

Lemma cond_lxor_twice (b : bool) p x :
  (if negb b then Z.lxor x (if b then p else 0) else Z.lxor (Z.lxor x (if b then p else 0)) p) = x.
Proof. destruct b; simpl; [by rewrite Z.lxor_assoc, Z.lxor_nilpotent, Z.lxor_0_r|by rewrite Z.lxor_0_r]. Qed.

Lemma backward_fwd c s b :
  crc_ok c -> in_range c s -> backward c (fwd c s b) (Z.b2z b) = s.
Proof.
  intros Hc Hs. pose proof (order_pos c Hc) as Ho. pose proof (co_odd c Hc) as Hodd.
  pose proof (poly_top c Hc) as Htop. unfold in_range in Hs.
  unfold backward, fwd, wbit. destruct (order0_at_lsb c); cbv zeta.
  - set (u := Z.lxor (Z.shiftl s 1) (Z.shiftl (Z.b2z b) (order c))).
    assert (Z.testbit (Z.lxor u (if Z.testbit u (order c) then poly c else 0)) 0 = Z.testbit u (order c)) as Ht.
    { rewrite Z.lxor_spec, testbit_cond, Hodd, andb_true_r. unfold u at 1.
      rewrite Z.lxor_spec, !Z.shiftl_spec, testbit_b2z by lia.
      rewrite (proj2 (Z.eqb_neq _ _)), Z.testbit_neg_r by lia. by destruct (Z.testbit u (order c)). }
    rewrite land_1_testbit, Ht, cond_lxor_twice. unfold u.
    rewrite Z.lxor_assoc, Z.lxor_nilpotent, Z.lxor_0_r, Z.shiftr_shiftl_l, Z.sub_diag by lia. apply Z.shiftl_0_r.
  - set (u := Z.lxor s (Z.b2z b)). set (t := Z.lxor u (if Z.testbit u 0 then poly c else 0)).
    assert (Z.shiftl (Z.shiftr t 1) 1 = t) as ->.
    { apply Z.bits_inj'. intros i Hi. rewrite Z.shiftl_spec by lia. destruct (Z.eqb_spec i 0) as [->|Hi0].
      - rewrite Z.testbit_neg_r by lia. unfold t. rewrite Z.lxor_spec, testbit_cond, Hodd, andb_true_r.
        by rewrite xorb_nilpotent.
      - rewrite Z.shiftr_spec by lia. f_equal. lia. }
    assert (Z.testbit t (order c) = Z.testbit u 0) as Ht.
    { unfold t. rewrite Z.lxor_spec, testbit_cond, Htop, andb_true_r. unfold u at 1.
      rewrite Z.lxor_spec, testbit_b2z, (testbit_above s (order c)) by (done || lia).
      rewrite (proj2 (Z.eqb_neq _ _)) by lia. by destruct (Z.testbit u 0). }
    rewrite eqb_land_testbit, Ht by lia. unfold t. rewrite cond_lxor_twice. unfold u.
    by rewrite Z.lxor_assoc, Z.lxor_nilpotent, Z.lxor_0_r.
Qed.

Lemma backward_run c s bs :
  crc_ok c -> in_range c s -> foldl (backward c) (run c s bs) (Z.b2z <$> reverse bs) = s.
Proof.
  intros Hc Hs. induction bs as [|b bs IH] using rev_ind; [done|].
  rewrite reverse_snoc, fmap_cons. simpl. rewrite run_app. simpl.
  rewrite backward_fwd by auto with crc. exact IH.
Qed.

(** ** Linearity over exclusive or *)

Lemma lxor_swap a b x y : Z.lxor (Z.lxor a b) (Z.lxor x y) = Z.lxor (Z.lxor a x) (Z.lxor b y).
Proof. apply Z.bits_inj'. intros i _. rewrite !Z.lxor_spec. btauto. Qed.

Lemma b2z_xorb b d : Z.b2z (xorb b d) = Z.lxor (Z.b2z b) (Z.b2z d).
Proof. by destruct b, d. Qed.

Lemma cond_xorb (b d : bool) p : (if xorb b d then p else 0) = Z.lxor (if b then p else 0) (if d then p else 0).
Proof. destruct b, d; simpl; rewrite ?Z.lxor_nilpotent, ?Z.lxor_0_r, ?Z.lxor_0_l; done. Qed.

Lemma fwd_lxor c s t b d : fwd c (Z.lxor s t) (xorb b d) = Z.lxor (fwd c s b) (fwd c t d).
Proof.
  unfold fwd. destruct (order0_at_lsb c); cbv zeta.
  - rewrite b2z_xorb, !Z.shiftl_lxor, lxor_swap. rewrite (Z.lxor_spec (Z.lxor _ _) (Z.lxor _ _)), cond_xorb.
    by rewrite lxor_swap.
  - rewrite b2z_xorb, lxor_swap. rewrite (Z.lxor_spec (Z.lxor _ _) (Z.lxor _ _)), cond_xorb.
    by rewrite lxor_swap, Z.shiftr_lxor.
Qed.

Lemma run_lxor c s t bs ds :
  length bs = length ds ->
  run c (Z.lxor s t) (zip_with xorb bs ds) = Z.lxor (run c s bs) (run c t ds).
Proof.
  revert s t ds. induction bs as [|b bs IH]; intros s t [|d ds] Hl; try done. simpl.
  rewrite fwd_lxor. apply IH. by injection Hl.
Qed.

Lemma fwd_0 c : fwd c 0 false = 0.
Proof.
  pose proof (fwd_lxor c 0 0 false false) as H. rewrite Z.lxor_nilpotent in H.
  change (xorb false false) with false in H. rewrite H. apply Z.lxor_nilpotent.
Qed.

Definition zeros (n : nat) : list bool := replicate n false.

Lemma run_zeros_0 c n : run c 0 (zeros n) = 0.
Proof. induction n as [|n IH]; [done|]. simpl. by rewrite fwd_0. Qed.

Lemma zip_zeros_xorb bs : zip_with xorb (zeros (length bs)) bs = bs.
Proof. induction bs as [|b bs IH]; [done|]. unfold zeros in *. simpl. rewrite IH. by destruct b. Qed.

(** Superposition: what the old state contributes, and what the data do. *)
Lemma run_split c s bs : run c s bs = Z.lxor (run c s (zeros (length bs))) (run c 0 bs).
Proof.
  pose proof (run_lxor c s 0 (zeros (length bs)) bs (length_replicate _ _)) as H.
  by rewrite Z.lxor_0_r, zip_zeros_xorb in H.
Qed.

(** ** The ring of residues

    Feeding a zero bit multiplies the state by the indeterminate.  [act l a]
    is the product of [a] with the polynomial whose coefficients are [l],
    lowest first. *)

Definition steps (c : Crc) (n : nat) (s : Z) : Z := run c s (zeros n).

Lemma steps_S c n s : steps c (S n) s = steps c n (fwd c s false).
Proof. done. Qed.

Lemma steps_add c n m s : steps c (n + m) s = steps c m (steps c n s).
Proof. unfold steps, zeros. by rewrite replicate_add, run_app. Qed.

Lemma steps_fwd c n s : steps c n (fwd c s false) = fwd c (steps c n s) false.
Proof. rewrite <- steps_S, <- Nat.add_1_r, steps_add. done. Qed.

Lemma steps_range c n s : crc_ok c -> in_range c s -> in_range c (steps c n s).
Proof. intros. by apply run_range. Qed.
#[export] Hint Resolve steps_range : crc.

Fixpoint act (c : Crc) (l : list bool) (a : Z) : Z :=
  match l with
  | [] => 0
  | k :: l => Z.lxor (if k then a else 0) (act c l (fwd c a false))
  end.

Lemma cond_lxor (k : bool) a b :
  (if k then Z.lxor a b else 0) = Z.lxor (if k then a else 0) (if k then b else 0).
Proof. by destruct k. Qed.

Lemma fwd_lxor_zero c a b : fwd c (Z.lxor a b) false = Z.lxor (fwd c a false) (fwd c b false).
Proof. exact (fwd_lxor c a b false false). Qed.

Lemma act_lxor c l a b : act c l (Z.lxor a b) = Z.lxor (act c l a) (act c l b).
Proof.
  revert a b. induction l as [|k l IH]; intros a b; [done|]. cbn [act].
  by rewrite fwd_lxor_zero, IH, cond_lxor, lxor_swap.
Qed.

Lemma act_0 c l : act c l 0 = 0.
Proof. induction l as [|k l IH]; [done|]. cbn [act]. rewrite fwd_0, IH. by destruct k. Qed.

Lemma act_fwd c l a : act c l (fwd c a false) = fwd c (act c l a) false.
Proof.
  revert a. induction l as [|k l IH]; intros a; cbn [act]; [by rewrite fwd_0|].
  rewrite fwd_lxor_zero, IH. f_equal. destruct k; [done|by rewrite fwd_0].
Qed.

Lemma act_steps c l n a : act c l (steps c n a) = steps c n (act c l a).
Proof. revert a. induction n as [|n IH]; intros a; [done|]. by rewrite !steps_S, IH, act_fwd. Qed.

Lemma act_comm c l1 l2 a : act c l1 (act c l2 a) = act c l2 (act c l1 a).
Proof.
  revert a. induction l1 as [|k l1 IH]; intros a; cbn [act]; [by rewrite act_0|].
  rewrite act_lxor, <- act_fwd, IH. f_equal. destruct k; [done|by rewrite act_0].
Qed.

Lemma act_range c l a : crc_ok c -> in_range c a -> in_range c (act c l a).
Proof.
  intros Hc. assert (in_range c 0) as H0 by (unfold in_range; pose proof (order_pos c Hc);
    pose proof (Z.pow_pos_nonneg 2 (order c)); lia).
  revert a. induction l as [|k l IH]; intros a Ha; cbn [act]; [done|].
  apply lxor_range; [by destruct k|]. auto with crc.
Qed.
#[export] Hint Resolve act_range : crc.

(** Where the coefficient of exponent [i] sits in a state. *)
Definition pos (c : Crc) (i : Z) : Z := if order0_at_lsb c then i else order c - 1 - i.

(** A state's coefficients, lowest exponent first. *)
Definition coeffs (c : Crc) (a : Z) : list bool :=
  word_bits (Z.to_nat (order c)) a (order0_at_lsb c).

Lemma lookup_coeffs c a (i : nat) :
  Z.of_nat i < order c -> coeffs c a !! i = Some (Z.testbit a (pos c (Z.of_nat i))).
Proof.
  intros Hi. unfold coeffs, word_bits, pos. destruct (order0_at_lsb c).
  - by rewrite lookup_bits_of by lia.
  - rewrite lookup_reverse_bits_of by lia. do 2 f_equal. lia.
Qed.

Lemma length_coeffs c a : length (coeffs c a) = Z.to_nat (order c).
Proof. unfold coeffs, word_bits. destruct (order0_at_lsb c); by rewrite ?length_reverse, length_bits_of. Qed.

Lemma pos_range c i : crc_ok c -> 0 <= i < order c -> 0 <= pos c i < order c.
Proof. unfold pos. destruct (order0_at_lsb c); lia. Qed.

Lemma pow2_range c k : 0 <= k < order c -> in_range c (2 ^ k).
Proof. intros Hk. unfold in_range. split; [lia|]. apply Z.pow_lt_mono_r; lia. Qed.

Lemma fwd_pow c i : crc_ok c -> 0 <= i -> i + 1 < order c -> fwd c (2 ^ pos c i) false = 2 ^ pos c (i + 1).
Proof.
  intros Hc Hi Ho. pose proof (pos_range c i Hc ltac:(lia)) as Hp. pose proof (pos_range c (i + 1) Hc ltac:(lia)) as Hp'.
  pose proof (pow2_range c _ Hp) as Hr. pose proof (pow2_range c _ Hp') as Hr'.
  apply (range_ext (order c)); [lia|by apply fwd_range|done|].
  intros j Hj. rewrite fwd_bit by (done || lia). rewrite (proj2 (Z.ltb_lt _ _)) by lia. simpl andb.
  unfold feedback, pos in *. rewrite xorb_false_r.
  destruct (order0_at_lsb c); rewrite !Z.pow2_bits_eqb by lia.
  - rewrite (proj2 (Z.eqb_neq i (order c - 1))) by lia. simpl. rewrite xorb_false_r. repeat bit_case; lia || done.
  - rewrite (proj2 (Z.eqb_neq _ 0)) by lia. simpl. rewrite xorb_false_r. repeat bit_case; lia || done.
Qed.

Lemma unit_pow c : crc_ok c -> unit_ c = 2 ^ pos c 0.
Proof.
  intros Hc. pose proof (order_pos c Hc). unfold unit_, pos. destruct (order0_at_lsb c); [done|].
  rewrite Z.sub_0_r. apply shiftl_1. lia.
Qed.

Lemma steps_unit c (i : nat) : crc_ok c -> Z.of_nat i < order c -> steps c i (unit_ c) = 2 ^ pos c (Z.of_nat i).
Proof.
  intros Hc. induction i as [|i IH]; intros Hi; [by apply unit_pow|].
  rewrite steps_S, steps_fwd, IH, fwd_pow by (done || lia). do 2 f_equal. lia.
Qed.

(** The bits of a combination of the first powers of the indeterminate. *)
Lemma testbit_act_unit c l (i : nat) m :
  crc_ok c -> Z.of_nat i + zlen l <= order c -> 0 <= m < order c ->
  Z.testbit (act c l (steps c i (unit_ c))) m =
    (Z.of_nat i <=? pos c m) && default false (l !! Z.to_nat (pos c m - Z.of_nat i)).
Proof.
  intros Hc. revert i. induction l as [|k l IH]; intros i Hi Hm; cbn [act].
  { rewrite Z.bits_0, lookup_nil. by rewrite andb_false_r. }
  assert (fwd c (steps c i (unit_ c)) false = steps c (S i) (unit_ c)) as -> by (by rewrite steps_S, steps_fwd).
  simpl length in Hi. rewrite Z.lxor_spec, testbit_cond, IH, steps_unit by (done || lia).
  pose proof (pos_range c m Hc Hm) as Hp.
  assert ((pos c (Z.of_nat i) =? m) = (pos c m =? Z.of_nat i)) as Heq
    by (unfold pos; destruct (order0_at_lsb c); repeat bit_case; lia || done).
  rewrite Z.pow2_bits_eqb, Heq by (unfold pos; destruct (order0_at_lsb c); lia).
  destruct (Z.eqb_spec (pos c m) (Z.of_nat i)) as [He|He].
  - rewrite He, (proj2 (Z.leb_gt _ _)), Z.leb_refl, Z.sub_diag by lia. simpl. by rewrite andb_true_r, xorb_false_r.
  - rewrite andb_false_r, xorb_false_l. destruct (Z.leb_spec (Z.of_nat i) (pos c m)).
    + rewrite (proj2 (Z.leb_le _ _)) by lia. simpl.
      by replace (Z.to_nat (pos c m - Z.of_nat i)) with (S (Z.to_nat (pos c m - Z.of_nat (S i)))) by lia.
    + by rewrite (proj2 (Z.leb_gt _ _)) by lia.
Qed.

(** Every state is the sum of its coefficients times the powers. *)
Lemma act_coeffs_unit c a : crc_ok c -> in_range c a -> act c (coeffs c a) (unit_ c) = a.
Proof.
  intros Hc Ha. pose proof (order_pos c Hc). assert (in_range c (unit_ c)) as Hu.
  { rewrite unit_pow by done. apply pow2_range, pos_range; [done|lia]. }
  apply (range_ext (order c)); [lia|by apply act_range|done|]. intros m Hm.
  pose proof (testbit_act_unit c (coeffs c a) 0 m Hc) as Ht. rewrite length_coeffs in Ht.
  unfold steps in Ht. simpl in Ht. rewrite Ht by lia. clear Ht. pose proof (pos_range c m Hc Hm).
  rewrite (proj2 (Z.leb_le _ _)), Z.sub_0_r, lookup_coeffs by lia. simpl. f_equal.
  rewrite Z2Nat.id by lia. unfold pos. destruct (order0_at_lsb c); lia.
Qed.

(** Multiplication of residues. *)
Definition mul (c : Crc) (a b : Z) : Z := act c (coeffs c b) a.

Lemma mul_comm c a b : crc_ok c -> in_range c a -> in_range c b -> mul c a b = mul c b a.
Proof.
  intros Hc Ha Hb. unfold mul. rewrite <- (act_coeffs_unit c a) at 1 by done.
  by rewrite act_comm, act_coeffs_unit.
Qed.

Lemma mul_steps_unit c a n :
  crc_ok c -> in_range c a -> mul c a (steps c n (unit_ c)) = steps c n a.
Proof.
  intros Hc Ha. assert (in_range c (unit_ c)) as Hu.
  { rewrite unit_pow by done. pose proof (order_pos c Hc). apply pow2_range, pos_range; [done|lia]. }
  rewrite mul_comm by auto with crc. unfold mul. by rewrite act_steps, act_coeffs_unit.
Qed.

Lemma forward_zero c s : crc_ok c -> in_range c s -> forward c s 0 = Ok (fwd c s false).
Proof. intros. exact (forward_fwd c s false ltac:(done) ltac:(done)). Qed.

Lemma gfmul_mul c a b : crc_ok c -> in_range c a -> gfmul c a b = Ok (mul c a b).
Proof.
  intros Hc Ha. pose proof (order_pos c Hc). unfold gfmul, mul.
  rewrite bits_iterate_spec by lia. fold (coeffs c b).
  assert (forall l r a, in_range c a ->
    foldM (fun '(r, a) bit => a' ← forward c a 0; Ok (if bit =? 0 then r else Z.lxor r a, a'))
      (r, a) (Z.b2z <$> l) = Ok (Z.lxor r (act c l a), steps c (length l) a)) as Hl.
  { clear Ha a. induction l as [|k l IH]; intros r a Ha; [by rewrite Z.lxor_0_r|].
    rewrite fmap_cons. cbn [foldM]. rewrite forward_zero, !bind_of_Ok by done.
    rewrite IH by auto with crc. cbn [act length]. rewrite steps_S. do 2 f_equal.
    destruct k; simpl; [by rewrite Z.lxor_assoc|by rewrite Z.lxor_0_l]. }
  specialize (Hl (coeffs c b) 0 a Ha). rewrite Z.lxor_0_l in Hl. cbv zeta. rewrite Hl. done.
Qed.

Lemma gfexp_loop_steps c fuel : forall i j n,
  crc_ok c -> 0 <= n < 2 ^ Z.of_nat fuel ->
  gfexp_loop fuel c (steps c i (unit_ c)) (steps c j (unit_ c)) n
  = Ok (steps c (i + j * Z.to_nat n) (unit_ c)).
Proof.
  induction fuel as [|fuel IH]; intros i j n Hc Hn.
  { assert (n = 0) as -> by (change (2 ^ Z.of_nat 0) with 1 in Hn; lia). simpl. by rewrite Nat.mul_0_r, Nat.add_0_r. }
  cbn [gfexp_loop]. assert (in_range c (unit_ c)) as Hu.
  { rewrite unit_pow by done. pose proof (order_pos c Hc). apply pow2_range, pos_range; [done|lia]. }
  destruct (Z.eqb_spec n 0) as [->|Hn0]; [by rewrite Nat.mul_0_r, Nat.add_0_r|].
  rewrite !gfmul_mul, !mul_steps_unit, <- !steps_add by auto with crc.
  rewrite land_1_testbit, Z.bit0_odd.
  assert (exists i', (if negb (Z.odd n) then Ok (steps c i (unit_ c))
                      else Ok (steps c (i + j) (unit_ c))) = Ok (steps c i' (unit_ c))
                     /\ i' = (i + if Z.odd n then j else 0)%nat) as (i' & -> & Hi').
  { destruct (Z.odd n); simpl; [by exists (i + j)%nat|exists i; split; [done|lia]]. }
  rewrite !bind_of_Ok, IH.
  - f_equal. f_equal. subst i'. rewrite <- Z.div2_spec, Z.div2_div.
    pose proof (Zmod_odd n) as Hm. destruct (Z.odd n); Z.div_mod_to_equations; nia.
  - done.
  - rewrite <- Z.div2_spec, Z.div2_div. rewrite Nat2Z.inj_succ, Z.pow_succ_r in Hn by lia.
    Z.div_mod_to_equations. lia.
Qed.

(** Seeking by exponentiation is feeding that many zero bits. *)
Lemma forward_many_steps c s n :
  crc_ok c -> 2 <= order c -> in_range c s -> 0 <= n ->
  forward_many c s n = Ok (steps c (Z.to_nat n) s).
Proof.
  intros Hc Ho Hs Hn. unfold forward_many, gfexp.
  assert (two c = steps c 1 (unit_ c)) as ->.
  { rewrite steps_unit by (done || lia). unfold two, pos. destruct (order0_at_lsb c); [done|].
    rewrite shiftl_1 by lia. f_equal. lia. }
  assert (unit_ c = steps c 0 (unit_ c)) as Hu0 by done. rewrite Hu0 at 1.
  rewrite gfexp_loop_steps; [|done|].
  - rewrite bind_of_Ok, gfmul_mul, mul_steps_unit by done. do 2 f_equal. lia.
  - rewrite Nat2Z.inj_succ, Z2Nat.id by apply Z.log2_nonneg.
    destruct (Z.eqb_spec n 0) as [->|]; [done|]. split; [done|]. apply Z.log2_spec. lia.
Qed.

(** ** Bit order of the state *)

Lemma swib_loop_bit n r w i :
  0 <= i -> Z.testbit (swib_loop n r w) i =
    if i <? Z.of_nat n then Z.testbit w (Z.of_nat n - 1 - i) else Z.testbit r (i - Z.of_nat n).
Proof.
  revert r w. induction n as [|n IH]; intros r w Hi; cbn [swib_loop].
  { rewrite (proj2 (Z.ltb_ge _ _)) by lia. by rewrite Z.sub_0_r. }
  rewrite IH by done. destruct (Z.ltb_spec i (Z.of_nat n)).
  - rewrite (proj2 (Z.ltb_lt _ _)), Z.shiftr_spec by lia. f_equal. lia.
  - rewrite Z.lor_spec, Z.shiftl_spec, land_1_b2z, testbit_b2z by lia.
    destruct (Z.ltb_spec i (Z.of_nat (S n))).
    + rewrite (Z.testbit_neg_r r), (proj2 (Z.eqb_eq (i - Z.of_nat n) 0)) by lia.
      rewrite orb_false_l, andb_true_l. f_equal. lia.
    + rewrite (proj2 (Z.eqb_neq _ 0)), orb_false_r by lia. f_equal. lia.
Qed.

Lemma swib_bit w n i :
  0 <= n -> 0 <= i -> Z.testbit (swib w n) i = (i <? n) && Z.testbit w (n - 1 - i).
Proof.
  intros Hn Hi. unfold swib. rewrite swib_loop_bit, Z2Nat.id by lia.
  destruct (i <? n); [done|]. by rewrite Z.bits_0.
Qed.

Lemma swib_range w n : 0 <= n -> 0 <= swib w n < 2 ^ n.
Proof.
  intros Hn. assert (forall k r w, 0 <= r -> 0 <= swib_loop k r w) as Hpos.
  { clear. induction k as [|k IH]; intros r w Hr; cbn [swib_loop]; [done|]. apply IH.
    apply Z.lor_nonneg. rewrite Z.shiftl_nonneg, Z.land_nonneg. lia. }
  apply range_intro; [done|by apply Hpos|]. intros i Hi. rewrite swib_bit by lia.
  by rewrite (proj2 (Z.ltb_ge _ _)).
Qed.

Lemma swib_involutive w n : 0 <= n -> 0 <= w < 2 ^ n -> swib (swib w n) n = w.
Proof.
  intros Hn Hw. apply (range_ext n); [done|by apply swib_range|done|]. intros i Hi.
  rewrite !swib_bit by lia. rewrite !(proj2 (Z.ltb_lt _ _)) by lia. simpl. f_equal. lia.
Qed.

Lemma swib_lxor a b n : 0 <= n -> swib (Z.lxor a b) n = Z.lxor (swib a n) (swib b n).
Proof.
  intros Hn. apply Z.bits_inj'. intros i Hi. rewrite Z.lxor_spec, !swib_bit, Z.lxor_spec by lia.
  by destruct (i <? n).
Qed.

Lemma swib_mask c : crc_ok c -> swib (mask c) (order c) = mask c.
Proof.
  intros Hc. pose proof (order_pos c Hc). apply (range_ext (order c)); [lia|apply swib_range; lia|by apply mask_range|].
  intros i Hi. unfold mask, wbit. rewrite swib_bit, (proj2 (Z.ltb_lt _ _)), !testbit_pow2_sub1 by lia. simpl.
  by rewrite !(proj2 (Z.ltb_lt _ _)) by lia.
Qed.

(** Two algorithms that differ by the order of the state. *)
Record mirror (c d : Crc) : Prop := {
  mi_c : crc_ok c; mi_d : crc_ok d;
  mi_c0 : order0_at_lsb c = true; mi_d0 : order0_at_lsb d = false;
  mi_order : order d = order c;
  mi_poly : poly d = swib (poly c) (order c + 1);
}.

Lemma mirror_fwd c d s b :
  mirror c d -> in_range c s -> fwd d (swib s (order c)) b = swib (fwd c s b) (order c).
Proof.
  intros [Hc Hd Hc0 Hd0 Ho Hp] Hs. pose proof (order_pos c Hc) as Hpos.
  assert (in_range d (swib s (order c))) as Hr by (unfold in_range; rewrite Ho; apply swib_range; lia).
  pose proof (fwd_range d _ b Hd Hr) as Hr'. unfold in_range in Hr'. rewrite Ho in Hr'.
  apply (range_ext (order c)); [lia|done|apply swib_range; lia|]. intros i Hi.
  rewrite (fwd_bit d) by (done || lia). rewrite (swib_bit (fwd c s b)) by lia.
  rewrite fwd_bit by (done || lia). unfold feedback. rewrite Hc0, Hd0, Ho, Hp.
  rewrite !swib_bit by lia.
  rewrite (proj2 (Z.ltb_lt i _)), (proj2 (Z.ltb_lt 0 _)), (proj2 (Z.ltb_lt (order c - 1 - i) _)),
    (proj2 (Z.ltb_lt (i + 1) (order c + 1))) by lia. simpl andb.
  rewrite Z.sub_0_r. replace (order c + 1 - 1 - (i + 1)) with (order c - 1 - i) by lia.
  replace (order c - 1 - (i + 1)) with (order c - 1 - i - 1) by lia.
  destruct (Z.ltb_spec (i + 1) (order c)); simpl andb; [done|].
  by rewrite (Z.testbit_neg_r s (order c - 1 - i - 1)) by lia.
Qed.

Lemma mirror_run c d s bs :
  mirror c d -> in_range c s -> run d (swib s (order c)) bs = swib (run c s bs) (order c).
Proof.
  intros Hm. revert s. induction bs as [|b bs IH]; intros s Hs; [done|]. simpl.
  rewrite (mirror_fwd c) by done. apply IH. apply fwd_range; [apply Hm|done].
Qed.

Lemma mirror_run_back c d s bs :
  mirror c d -> in_range d s -> run c (swib s (order c)) bs = swib (run d s bs) (order c).
Proof.
  intros Hm Hs. pose proof (order_pos c (mi_c _ _ Hm)). unfold in_range in Hs. rewrite (mi_order _ _ Hm) in Hs.
  assert (in_range c (swib s (order c))) as Hr by (apply swib_range; lia).
  rewrite <- (swib_involutive (run c (swib s (order c)) bs) (order c)) by (lia || by apply run_range; [apply Hm|]).
  rewrite <- (mirror_run c d) by done. by rewrite swib_involutive by (done || lia).
Qed.

(** The constructor. *)
Lemma new_crc_Ok p i l z ci cs x o :
  Z.testbit p 0 = true -> 1 < p ->
  exists c, new_crc p i l z ci cs x o = Ok c /\ crc_ok c
    /\ c = mkCrc p (i mod 2 ^ Z.log2 p) l z ci cs x o.
Proof.
  intros Hodd Hp. assert (0 <= Z.log2 p) as Hl by apply Z.log2_nonneg. eexists. split; [|split; [|done]].
  - unfold new_crc. rewrite land_1_testbit, Hodd. simpl negb. cbv iota.
    rewrite (proj2 (Z.leb_gt p 0)) by lia. cbv zeta. rewrite land_low by done. do 2 f_equal.
    assert (0 <= p < 2 ^ (Z.log2 p + 1)) as Hb
      by (pose proof (Z.log2_spec p) as [_ H]; [lia|]; rewrite <- Z.add_1_r in H; lia).
    rewrite shiftl_1 by done. apply Z.bits_inj'. intros k Hk. rewrite Z.land_spec, Z.lor_spec.
    rewrite Z.pow2_bits_eqb by done. rewrite <- (shiftl_1 (Z.log2 p)), testbit_pow2_sub1 by done.
    destruct (Z.ltb_spec k (Z.log2 p)); [by rewrite andb_true_r|].
    destruct (Z.eqb_spec (Z.log2 p) k); [by rewrite andb_true_r|].
    by rewrite (testbit_above p (Z.log2 p + 1)) by (done || lia).
  - split; simpl; [done|done|]. unfold order. simpl. apply Z.mod_pos_bound, Z.pow_pos_nonneg; lia.
Qed.

Lemma log2_top x n : 0 <= n -> 0 <= x < 2 ^ (n + 1) -> Z.testbit x n = true -> Z.log2 x = n.
Proof.
  intros Hn Hx Ht. apply Z.log2_unique; [done|]. rewrite Z.add_1_r in Hx. split; [|lia].
  destruct (Z.lt_ge_cases x (2 ^ n)); [|done]. by rewrite (testbit_above x n) in Ht by lia.
Qed.

Lemma order_swapped_spec c :
  crc_ok c ->
  exists d, order_swapped c = Ok d /\ crc_ok d /\ order d = order c
    /\ (if order0_at_lsb c then mirror c d else mirror d c)
    /\ init d = swib (init c) (order c)
    /\ pop_lsb d = pop_lsb c /\ complement_input d = complement_input c
    /\ complement_state d = complement_state c /\ spill_bitswap d = negb (spill_bitswap c)
    /\ spill_byte_order d = spill_byte_order c.
Proof.
  intros Hc. pose proof (order_pos c Hc) as Ho. pose proof (poly_bound c Hc) as Hp.
  pose proof (swib_range (poly c) (order c + 1) ltac:(lia)) as Hq. set (q := swib (poly c) (order c + 1)) in *.
  assert (forall i, 0 <= i <= order c -> Z.testbit q i = Z.testbit (poly c) (order c - i)) as Hqb.
  { intros i Hi. unfold q. rewrite swib_bit, (proj2 (Z.ltb_lt _ _)) by lia. simpl. f_equal. lia. }
  assert (Z.testbit q (order c) = true) as Htop by (rewrite Hqb, Z.sub_diag by lia; apply Hc).
  assert (Z.log2 q = order c) as Hlog by (apply log2_top; [lia|done..]).
  assert (1 < q) as Hq1.
  { destruct (Z.le_gt_cases q 1); [|done]. assert (q = 0 \/ q = 1) as [Eq|Eq] by lia;
      rewrite Eq in Hlog; simpl in Hlog; lia. }
  destruct (new_crc_Ok q (swib (init c) (order c)) (pop_lsb c) (negb (order0_at_lsb c)) (complement_input c)
              (complement_state c) (negb (spill_bitswap c)) (spill_byte_order c)) as (d & Hd & Hok & ->);
    [rewrite Hqb, Z.sub_0_r by lia; by apply poly_top|done|].
  eexists. split; [exact Hd|]. split; [done|]. split; [exact Hlog|].
  assert (swib (init c) (order c) mod 2 ^ Z.log2 q = swib (init c) (order c)) as Hi
    by (rewrite Hlog; apply Z.mod_small, swib_range; lia).
  simpl. rewrite Hi in *. split_and!; try done.
  assert (poly c = swib q (order c + 1)) as Hback by (unfold q; by rewrite swib_involutive by lia).
  destruct (order0_at_lsb c) eqn:E; constructor; simpl; try done.
  change (poly c = swib q (Z.log2 q + 1)). by rewrite Hlog.
Qed.

Lemma as_int_swapped c d s :
  crc_ok c -> in_range c s -> order d = order c -> spill_bitswap d = negb (spill_bitswap c) ->
  as_int d (swib s (order c)) = as_int c s.
Proof.
  intros Hc Hs Ho Hx. pose proof (order_pos c Hc). unfold as_int. rewrite Hx, Ho.
  destruct (spill_bitswap c); simpl; [done|]. by rewrite swib_involutive by (done || lia).
Qed.

Lemma swapped_update c d s data :
  crc_ok c -> order_swapped c = Ok d -> in_range c s ->
  exists r, update c s data = Ok r /\ in_range c r
            /\ update d (swib s (order c)) data = Ok (swib r (order c)).
Proof.
  intros Hc Hd Hs. destruct (order_swapped_spec c Hc) as (d' & Hd' & Hok & Ho & Hm & _ & Hpop & Hci & Hcs & _).
  assert (d' = d) as -> by congruence. pose proof (order_pos c Hc) as Hpos.
  assert (in_range d (swib s (order c))) as Hr by (unfold in_range; rewrite Ho; apply swib_range; lia).
  rewrite !update_run by done. eexists. split; [done|]. split; [auto with crc|].
  assert (fed d data = fed c data) as -> by (unfold fed; by rewrite Hci, Hpop).
  assert (state_comp d = swib (state_comp c) (order c)) as Hsc.
  { unfold state_comp. rewrite Hcs. destruct (complement_state c); [|].
    - rewrite swib_mask by done. unfold mask, wbit. by rewrite Ho.
    - symmetry. apply Z.bits_inj'. intros i Hi. rewrite swib_bit, !Z.bits_0 by lia. apply andb_false_r. }
  rewrite Hsc, <- (swib_lxor (state_comp c) s) by lia. f_equal.
  rewrite (swib_lxor (state_comp c) (run _ _ _)) by lia. f_equal.
  destruct (order0_at_lsb c).
  - apply mirror_run; auto with crc.
  - rewrite <- Ho. apply mirror_run_back; auto with crc.
Qed.

(** ** A message followed by its CRC *)

(** Feeding a low-end-first register: the bits are added to it, then it is
    stepped. *)
Lemma fwd_inject d s b : order0_at_lsb d = false -> fwd d s b = fwd d (Z.lxor s (Z.b2z b)) false.
Proof. intros Hd. unfold fwd. rewrite Hd. cbv zeta. by rewrite Z.lxor_0_r. Qed.

Lemma fwd_even d z : order0_at_lsb d = false -> fwd d (2 * z) false = z.
Proof.
  intros Hd. unfold fwd. rewrite Hd. cbv zeta. rewrite !Z.lxor_0_r, Z.testbit_even_0, Z.lxor_0_r.
  rewrite <- Z.div2_spec, Z.div2_div, Z.mul_comm. apply Z.div_mul. lia.
Qed.

Lemma Z_of_bits_cons b l : Z_of_bits (b :: l) = Z.lxor (Z.b2z b) (2 * Z_of_bits l).
Proof.
  simpl. apply Z.bits_inj'. intros i Hi. rewrite Z.lxor_spec, testbit_b2z.
  destruct (Z.eqb_spec i 0) as [->|].
  - rewrite Z.testbit_even_0, xorb_false_r. rewrite Z.bit0_odd.
    rewrite Z.odd_add_mul_2. by destruct b.
  - replace i with (Z.succ (i - 1)) by lia. rewrite Z.testbit_even_succ by lia.
    destruct b; simpl Z.b2z; [rewrite Z.add_comm, Z.testbit_odd_succ by lia|rewrite Z.add_0_l, Z.testbit_even_succ by lia];
      by destruct (Z.testbit _ _).
Qed.

Lemma run_inject d s bs :
  order0_at_lsb d = false -> run d s bs = steps d (length bs) (Z.lxor s (Z_of_bits bs)).
Proof.
  intros Hd. revert s. induction bs as [|b bs IH]; intros s; [simpl; by rewrite Z.lxor_0_r|].
  cbn [length]. rewrite steps_S. change (run d s (b :: bs)) with (run d (fwd d s b) bs). rewrite IH.
  f_equal. rewrite (fwd_inject d s b Hd), Z_of_bits_cons, <- (Z.lxor_assoc s).
  rewrite (fwd_lxor_zero d (Z.lxor s (Z.b2z b)) (2 * Z_of_bits bs)). by rewrite fwd_even.
Qed.

Lemma bits_of_swib n w : bits_of n (swib w (Z.of_nat n)) = reverse (bits_of n w).
Proof.
  apply list_eq_same_length with n; [by rewrite length_reverse, length_bits_of|by rewrite length_bits_of|].
  intros i x y Hi. rewrite lookup_bits_of, lookup_reverse_bits_of by done. intros [= <-] [= <-].
  rewrite swib_bit by lia. by rewrite (proj2 (Z.ltb_lt _ _)) by lia.
Qed.

(** A state's coefficients, highest exponent first. *)
Definition top_first (c : Crc) (t : Z) : list bool := reverse (coeffs c t).

(** Feeding a register its own coefficients clears it. *)
Lemma run_self c t : crc_ok c -> in_range c t -> run c t (top_first c t) = 0.
Proof.
  intros Hc Ht. pose proof (order_pos c Hc) as Ho.
  assert (forall d t, crc_ok d -> order0_at_lsb d = false -> in_range d t ->
            run d t (bits_of (Z.to_nat (order d)) t) = 0) as Hrefl.
  { clear. intros d t Hd H0 Ht. pose proof (order_pos d Hd). rewrite run_inject by done.
    rewrite Z_of_bits_bits_of, Z2Nat.id, Z.mod_small, Z.lxor_nilpotent by (done || lia). apply run_zeros_0. }
  unfold top_first, coeffs, word_bits. destruct (order0_at_lsb c) eqn:E.
  - destruct (order_swapped_spec c Hc) as (d & _ & Hd & Hod & Hm & _). rewrite E in Hm.
    rewrite <- (Z2Nat.id (order c)) in Hod by lia.
    rewrite <- bits_of_swib, Z2Nat.id by lia. rewrite Z2Nat.id in Hod by lia.
    assert (in_range d (swib t (order c))) as Hr by (unfold in_range; rewrite Hod; apply swib_range; lia).
    pose proof (Hrefl d (swib t (order c)) Hd (mi_d0 _ _ Hm) Hr) as Hz. rewrite Hod in Hz.
    rewrite (mirror_run c d) in Hz by done. apply (f_equal (fun z => swib z (order c))) in Hz.
    rewrite swib_involutive in Hz by (lia || by apply run_range). rewrite Hz.
    apply Z.bits_inj'. intros i Hi. rewrite swib_bit, !Z.bits_0 by lia. apply andb_false_r.
  - rewrite reverse_involutive. by apply Hrefl.
Qed.

(** The spilled CRC, fed back, presents the coefficients highest first. *)
Definition appendable (c : Crc) : bool :=
  (order c mod 8 =? 0) &&
  (if pop_lsb c then bool_decide (spill_byte_order c = Little) && eqb (spill_bitswap c) (order0_at_lsb c)
   else bool_decide (spill_byte_order c = Big) && eqb (spill_bitswap c) (negb (order0_at_lsb c))).

Lemma as_int_range c t : crc_ok c -> in_range c t -> in_range c (as_int c t).
Proof.
  intros Hc Ht. pose proof (order_pos c Hc). unfold as_int. destruct (spill_bitswap c); [|done].
  apply swib_range. lia.
Qed.

Lemma as_bytes_Ok c t :
  crc_ok c -> in_range c t ->
  as_bytes c t = Ok (match spill_byte_order c with
                     | Little => le_bytes (Z.to_nat (byte_width c)) (as_int c t)
                     | Big => be_bytes (Z.to_nat (byte_width c)) (as_int c t) end)
  /\ as_int c t < 256 ^ byte_width c.
Proof.
  intros Hc Ht. pose proof (order_pos c Hc) as Ho. pose proof (as_int_range c t Hc Ht) as [H1 H2].
  assert (0 <= byte_width c) as Hb by (unfold byte_width; Z.div_mod_to_equations; lia).
  assert (as_int c t < 256 ^ byte_width c) as H3.
  { eapply Z.lt_le_trans; [exact H2|]. apply (pow_byte_count (order c)). lia. }
  split; [|done]. unfold as_bytes, to_bytes. destruct (spill_byte_order c).
  - by rewrite to_bytes_le_Ok by done.
  - unfold to_bytes_be. by rewrite to_bytes_le_Ok by done.
Qed.

Lemma data_bits_le n v : data_bits (le_bytes n v) true = bits_of (8 * n) v.
Proof. exact (bits_of_le_bytes n v). Qed.

Lemma spilled_bits c t :
  crc_ok c -> in_range c t -> appendable c = true ->
  exists by_, as_bytes c t = Ok by_ /\ data_bits by_ (pop_lsb c) = top_first c t.
Proof.
  intros Hc Ht Ha. pose proof (order_pos c Hc) as Ho. destruct (as_bytes_Ok c t Hc Ht) as [Hb _].
  unfold appendable in Ha. apply andb_prop in Ha as [H8%Z.eqb_eq Ha].
  assert (8 * Z.to_nat (byte_width c) = Z.to_nat (order c))%nat as Hw
    by (unfold byte_width; Z.div_mod_to_equations; lia).
  assert (bits_of (Z.to_nat (order c)) (swib t (order c)) = reverse (bits_of (Z.to_nat (order c)) t)) as Hsw
    by (rewrite <- bits_of_swib, Z2Nat.id by lia; done).
  eexists. split; [exact Hb|]. unfold top_first, coeffs, word_bits, as_int.
  destruct (pop_lsb c); apply andb_prop in Ha as [->%bool_decide_eq_true Hx%eqb_prop].
  - rewrite data_bits_le, Hw, Hx. destruct (order0_at_lsb c); [done|by rewrite reverse_involutive].
  - unfold be_bytes. rewrite (data_bits_reverse _ true), data_bits_le, Hw, Hx.
    destruct (order0_at_lsb c); simpl; [done|]. by rewrite Hsw.
Qed.

Lemma zip_with_reverse {A B C} (f : A -> B -> C) l1 l2 :
  length l1 = length l2 -> zip_with f (reverse l1) (reverse l2) = reverse (zip_with f l1 l2).
Proof.
  revert l2. induction l1 as [|a l1 IH]; intros [|b l2] Hl; try done. simpl.
  rewrite !reverse_cons, zip_with_app by (rewrite !length_reverse; by injection Hl).
  rewrite IH by (by injection Hl). done.
Qed.

Lemma zip_with_word_bits n a b lsb :
  zip_with xorb (word_bits n a lsb) (word_bits n b lsb) = word_bits n (Z.lxor a b) lsb.
Proof.
  assert (forall m, zip_with xorb (bits_of m a) (bits_of m b) = bits_of m (Z.lxor a b)) as H.
  { intros m. unfold bits_of. rewrite zip_with_fmap_l, zip_with_fmap_r, zip_with_diag.
    apply list_fmap_ext. intros. by rewrite Z.lxor_spec. }
  unfold word_bits. destruct lsb; [apply H|].
  by rewrite zip_with_reverse, H by (by rewrite !length_bits_of).
Qed.

Lemma top_first_lxor c a b : zip_with xorb (top_first c a) (top_first c b) = top_first c (Z.lxor a b).
Proof.
  unfold top_first. rewrite zip_with_reverse by (by rewrite !length_coeffs).
  f_equal. apply zip_with_word_bits.
Qed.

Definition complemented (c : Crc) (bs : list bool) : list bool :=
  (if complement_input c then fmap negb else id) bs.

Lemma fed_complemented c data : fed c data = complemented c (data_bits data (pop_lsb c)).
Proof. done. Qed.

Lemma length_complemented c bs : length (complemented c bs) = length bs.
Proof. unfold complemented. destruct (complement_input c); [apply length_fmap|done]. Qed.

Lemma length_top_first c t : length (top_first c t) = Z.to_nat (order c).
Proof. unfold top_first. by rewrite length_reverse, length_coeffs. Qed.

Lemma zip_complemented c l1 l2 :
  zip_with xorb (complemented c l1) (complemented c l2) = zip_with xorb l1 l2.
Proof.
  unfold complemented. destruct (complement_input c); [|done].
  revert l2. induction l1 as [|a l1 IH]; intros [|b l2]; try done. simpl. rewrite IH. by destruct a, b.
Qed.

(** Whatever the register holds, feeding it the spilled CRC leads to one
    state. *)
Lemma residue_constant c s t :
  crc_ok c -> in_range c s -> in_range c t ->
  run c s (complemented c (top_first c (Z.lxor (state_comp c) s)))
  = run c t (complemented c (top_first c (Z.lxor (state_comp c) t))).
Proof.
  intros Hc Hs Ht. apply Z.lxor_eq.
  rewrite <- run_lxor by (by rewrite !length_complemented, !length_top_first).
  rewrite zip_complemented, top_first_lxor, lxor_swap, Z.lxor_nilpotent, Z.lxor_0_l.
  apply run_self; auto with crc.
Qed.

Lemma append_to_Ok c data i :
  crc_ok c -> in_range c i ->
  exists s crc, update c i data = Ok s /\ in_range c s /\ as_bytes c s = Ok crc
    /\ append_to c data (Some i) = Ok (data ++ crc).
Proof.
  intros Hc Hi. rewrite update_run by done.
  assert (in_range c (Z.lxor (state_comp c) (run c (Z.lxor (state_comp c) i) (fed c data)))) as Hr by auto with crc.
  destruct (as_bytes_Ok c _ Hc Hr) as [Hb _]. eexists _, _. split; [done|]. split; [done|]. split; [exact Hb|].
  unfold append_to, calc_bytes. simpl default. rewrite update_run, bind_of_Ok, Hb, bind_of_Ok by done. done.
Qed.

Lemma valid_appended c data i :
  crc_ok c -> appendable c = true -> in_range c i ->
  exists m, append_to c data (Some i) = Ok m /\ is_valid c m (Some i) = Ok true.
Proof.
  intros Hc Ha Hi. destruct (append_to_Ok c data i Hc Hi) as (s & crc & Hu & Hs & Hb & Hm).
  exists (data ++ crc). split; [done|]. unfold is_valid, check_state. simpl default.
  destruct (spilled_bits c s Hc Hs Ha) as (b1 & Hb1 & Hd1). assert (b1 = crc) as -> by congruence.
  pose proof (co_init c Hc) as Hini.
  destruct (spilled_bits c (init c) Hc Hini Ha) as (b2 & Hb2 & Hd2).
  rewrite Hb2, bind_of_Ok, !update_run, !bind_of_Ok by done. do 2 f_equal. apply Z.eqb_eq. f_equal.
  rewrite update_run in Hu by done. injection Hu as <-.
  rewrite fed_app, run_app, !(fed_complemented c crc), !(fed_complemented c b2), Hd1, Hd2.
  set (r := run c (Z.lxor (state_comp c) i) (fed c data)).
  assert (in_range c r) as Hr by (unfold r; auto with crc).
  rewrite (residue_constant c r (Z.lxor (state_comp c) (init c))) by auto with crc.
  by rewrite <- Z.lxor_assoc, Z.lxor_nilpotent, Z.lxor_0_l.
Qed.

(** Spilling loses nothing. *)
Lemma from_bytes_as_bytes c s :
  crc_ok c -> in_range c s -> exists b, as_bytes c s = Ok b /\ from_bytes c b = s /\ zlen b = byte_width c.
Proof.
  intros Hc Hs. pose proof (order_pos c Hc) as Ho. destruct (as_bytes_Ok c s Hc Hs) as [Hb Hlt].
  pose proof (as_int_range c s Hc Hs) as [Hge _].
  assert (0 <= byte_width c) as Hw by (unfold byte_width; Z.div_mod_to_equations; lia).
  eexists. split; [exact Hb|]. unfold from_bytes, int_from_bytes, from_be, be_bytes.
  assert (from_le (le_bytes (Z.to_nat (byte_width c)) (as_int c s)) = as_int c s) as Hv
    by (rewrite from_le_le_bytes, Z2Nat.id by done; by apply Z.mod_small).
  assert (from_int c (as_int c s) = s) as Hi.
  { unfold from_int, as_int. destruct (spill_bitswap c); [|done]. by rewrite swib_involutive by (done || lia). }
  destruct (spill_byte_order c).
  - rewrite Hv, length_le_bytes. split; [done|lia].
  - rewrite reverse_involutive, Hv, length_reverse, length_le_bytes. split; [done|lia].
Qed.

Lemma state_error_appended c data i :
  crc_ok c -> in_range c i ->
  exists m, append_to c data (Some i) = Ok m /\ state_error c m (Some i) = Ok 0.
Proof.
  intros Hc Hi. destruct (append_to_Ok c data i Hc Hi) as (s & crc & Hu & Hs & Hb & Hm).
  exists (data ++ crc). split; [done|]. destruct (from_bytes_as_bytes c s Hc Hs) as (b & Hb' & Hf & Hl).
  assert (b = crc) as -> by congruence. pose proof (order_pos c Hc).
  assert (0 < byte_width c) by (unfold byte_width; Z.div_mod_to_equations; lia).
  unfold state_error. simpl default.
  assert (slice_to (data ++ crc) (- byte_width c) = data /\ slice_from (data ++ crc) (- byte_width c) = crc) as [-> ->].
  { unfold slice_to, slice_from, slice_bound. rewrite length_app, Nat2Z.inj_add.
    rewrite (proj2 (Z.ltb_lt (- byte_width c) 0)) by lia.
    replace (Z.to_nat _) with (length data) by lia. split; [apply take_app_length|apply drop_app_length]. }
  rewrite Hu, bind_of_Ok, Hf, Z.lxor_nilpotent. done.
Qed.

(** ** Patching data *)

Lemma data_bits_lxor d1 d2 lsb :
  length d1 = length d2 ->
  zip_with xorb (data_bits d1 lsb) (data_bits d2 lsb) = data_bits (zip_with Z.lxor d1 d2) lsb.
Proof.
  revert d2. induction d1 as [|a d1 IH]; intros [|b d2] Hl; try done. unfold data_bits in *. simpl.
  rewrite zip_with_app, IH, zip_with_word_bits; [done|by injection Hl|].
  unfold word_bits. by destruct lsb; rewrite ?length_reverse, !length_bits_of.
Qed.

Lemma zip_xorb_self l : zip_with xorb l l = zeros (length l).
Proof. induction l as [|b l IH]; [done|]. unfold zeros in *. simpl. rewrite IH. by destruct b. Qed.

(** The difference a changed window makes to the state. *)
Lemma run_window c s pre old new post :
  length old = length new ->
  Z.lxor (run c s (fed c (pre ++ old ++ post))) (run c s (fed c (pre ++ new ++ post)))
  = steps c (8 * length post) (run c 0 (data_bits (zip_with Z.lxor old new) (pop_lsb c))).
Proof.
  intros Hl. rewrite <- run_lxor.
  2:{ by rewrite !fed_complemented, !length_complemented, !length_data_bits, !length_app, Hl. }
  rewrite Z.lxor_nilpotent, !fed_complemented, zip_complemented, !data_bits_app.
  rewrite !zip_with_app, !zip_xorb_self, data_bits_lxor, !length_data_bits by (rewrite ?length_data_bits; by rewrite ?Hl).
  by rewrite !run_app, run_zeros_0.
Qed.

Lemma zero_range c : crc_ok c -> in_range c 0.
Proof. intros Hc. unfold in_range. pose proof (order_pos c Hc). pose proof (Z.pow_pos_nonneg 2 (order c)). lia. Qed.
#[export] Hint Resolve zero_range : crc.

Lemma state_delta_spec c offset diff total :
  crc_ok c -> 2 <= order c -> offset + zlen diff <= total ->
  data_mod_state_delta_compute c offset diff total
  = Ok (steps c (Z.to_nat (8 * (total - (offset + zlen diff)))) (run c 0 (data_bits diff (pop_lsb c)))).
Proof.
  intros Hc Ho Hle. unfold data_mod_state_delta_compute, forward_bytes.
  rewrite bytes_iterate_spec, foldM_forward, bind_of_Ok by auto with crc. cbv zeta.
  destruct (Z.ltb_spec 0 (total - (offset + zlen diff))) as [Hlt|Hge].
  - rewrite forward_many_steps by (auto with crc || lia). do 3 f_equal. lia.
  - replace (total - (offset + zlen diff)) with 0 by lia. done.
Qed.

Lemma le_bytes_lxor n a b : zip_with Z.lxor (le_bytes n a) (le_bytes n b) = le_bytes n (Z.lxor a b).
Proof.
  revert a b. induction n as [|n IH]; intros a b; [done|]. cbn [le_bytes zip_with].
  assert (forall x, x mod 256 = Z.land x (Z.ones 8) /\ x / 256 = Z.shiftr x 8) as Hx
    by (intros x; rewrite Z.land_ones, Z.shiftr_div_pow2 by lia; done).
  rewrite !(proj1 (Hx _)), !(proj2 (Hx _)). rewrite IH, Z.shiftr_lxor. f_equal.
  apply Z.bits_inj'. intros i _. rewrite !Z.lxor_spec, !Z.land_spec, Z.lxor_spec. btauto.
Qed.

Lemma as_int_lxor c a b : crc_ok c -> as_int c (Z.lxor a b) = Z.lxor (as_int c a) (as_int c b).
Proof.
  intros Hc. pose proof (order_pos c Hc). unfold as_int. destruct (spill_bitswap c); [|done].
  apply swib_lxor. lia.
Qed.

Lemma as_bytes_lxor c a b :
  crc_ok c -> in_range c a -> in_range c b ->
  exists x y z, as_bytes c a = Ok x /\ as_bytes c b = Ok y /\ as_bytes c (Z.lxor a b) = Ok z
    /\ xor_ x y = Ok z.
Proof.
  intros Hc Ha Hb. destruct (as_bytes_Ok c a Hc Ha) as [Hx _], (as_bytes_Ok c b Hc Hb) as [Hy _].
  destruct (as_bytes_Ok c (Z.lxor a b) Hc ltac:(auto with crc)) as [Hz _].
  eexists _, _, _. split; [exact Hx|]. split; [exact Hy|]. split; [exact Hz|].
  unfold xor_, bytes_map2, be_bytes. rewrite as_int_lxor by done.
  destruct (spill_byte_order c); rewrite ?length_reverse, !length_le_bytes, Z.eqb_refl.
  - by rewrite le_bytes_lxor.
  - by rewrite zip_with_reverse, le_bytes_lxor by (by rewrite !length_le_bytes).
Qed.

Lemma data_bits_zeros n lsb : data_bits (replicate n 0) lsb = zeros (8 * n).
Proof.
  unfold data_bits, zeros. induction n as [|n IH]; [done|]. cbn [replicate mbind list_bind]. rewrite IH.
  replace (8 * S n)%nat with (8 + 8 * n)%nat by lia. rewrite replicate_add. by destruct lsb.
Qed.

Lemma foldM_forward_ones c s n :
  crc_ok c -> in_range c s -> 0 <= n ->
  foldM (fun s _ => forward c s 1) s (seqZ 0 n) = Ok (run c s (replicate (Z.to_nat n) true)).
Proof.
  intros Hc Hs Hn. rewrite <- foldM_forward by done. generalize 0 as o. revert s Hs. revert n Hn.
  refine (natlike_ind _ _ _); [done|]. intros n Hn IH s Hs o.
  rewrite seqZ_cons, Z.pred_succ, Z2Nat.inj_succ by lia. cbn [replicate fmap list_fmap foldM].
  change (Z.b2z true) with 1. pose proof (forward_fwd c s true Hc Hs) as Hf. change (Z.b2z true) with 1 in Hf.
  rewrite Hf, !bind_of_Ok. apply IH. by apply fwd_range.
Qed.

(** ** Properties *)

(** Feeding data in pieces is feeding it at once, and [unupdate] takes
    any data back out of the state, for every bit order and complement
    setting; on states of the register's width the internal assertion never
    fails. *)
Theorem update_incremental_and_reversible c s d1 d2 :
  crc_ok c -> in_range c s ->
  exists s1 s2, update c s d1 = Ok s1 /\ in_range c s1
    /\ update c s1 d2 = Ok s2 /\ update c s (d1 ++ d2) = Ok s2
    /\ unupdate c s2 d2 = s1 /\ unupdate c s2 (d1 ++ d2) = s.
Proof.
  intros Hc Hs. assert (forall s d, in_range c s -> exists r, update c s d = Ok r /\ in_range c r /\ unupdate c r d = s) as Hu.
  { clear -Hc. intros s d Hs. rewrite update_run by done. eexists. split; [done|]. split; [auto with crc|].
    unfold unupdate, backward_bytes. rewrite <- (Z.lxor_assoc (state_comp c)), Z.lxor_nilpotent, Z.lxor_0_l.
    rewrite bytes_iterate_spec, data_bits_reverse.
    assert (data_bits (if complement_input c then not_ d else d) (pop_lsb c) = fed c d) as ->
      by (unfold fed; destruct (complement_input c); [apply data_bits_not|done]).
    rewrite backward_run by auto with crc. by rewrite <- Z.lxor_assoc, Z.lxor_nilpotent, Z.lxor_0_l. }
  destruct (Hu s d1 Hs) as (s1 & H1 & Hr1 & _), (Hu s (d1 ++ d2) Hs) as (s2 & H2 & _ & Hb2).
  destruct (Hu s1 d2 Hr1) as (s2' & H2' & _ & Hb2'). assert (s2' = s2) as ->; [|by exists s1, s2].
  rewrite update_run in H1, H2, H2' by done. injection H1 as <-. injection H2 as <-. injection H2' as <-.
  by rewrite fed_app, run_app, <- (Z.lxor_assoc (state_comp c)), Z.lxor_nilpotent, Z.lxor_0_l.
Qed.

Definition crc32 : Crc := mkCrc 0x104c11db7 0 true true false true true Little.

Lemma crc32_ok : crc_ok crc32.
Proof. by split. Qed.

Lemma update_incremental_and_reversible_witness :
  exists s1 s2, update crc32 0 [0x31; 0x32] = Ok s1 /\ update crc32 s1 [0x33] = Ok s2
                /\ unupdate crc32 s2 [0x31; 0x32; 0x33] = 0.
Proof.
  destruct (update_incremental_and_reversible crc32 0 [0x31; 0x32] [0x33] crc32_ok) as (s1 & s2 & H1 & _ & H2 & _ & _ & H3);
    [done|]. exists s1, s2. exact (conj H1 (conj H2 H3)).
Defined.

(** Seeking by polynomial exponentiation gives the state that feeding the
    zero bytes one bit at a time gives, for any distance; the loop of the
    exponentiation ends. *)
Theorem update_seek_correct c s n :
  crc_ok c -> 2 <= order c -> in_range c s ->
  exists r, update_seek c s (8 * Z.of_nat n) = Ok r /\ update c s (replicate n 0) = Ok r.
Proof.
  intros Hc Ho Hs. rewrite update_run by done. eexists. split; [|done]. unfold update_seek, fed.
  rewrite data_bits_zeros. destruct (complement_input c).
  - rewrite foldM_forward_ones, bind_of_Ok by (auto with crc || lia). do 3 f_equal.
    unfold zeros. rewrite fmap_replicate. f_equal. lia.
  - rewrite forward_many_steps, bind_of_Ok by (auto with crc || lia). do 2 f_equal.
    unfold steps. replace (Z.to_nat (8 * Z.of_nat n)) with (8 * n)%nat by lia. done.
Qed.

Lemma update_seek_correct_witness :
  exists r, update_seek crc32 0x1234 (8 * Z.of_nat 3) = Ok r /\ update crc32 0x1234 [0; 0; 0] = Ok r.
Proof.
  exact (update_seek_correct crc32 0x1234 3 crc32_ok ltac:(vm_compute; congruence) ltac:(vm_compute; split; congruence)).
Defined.



(** The same algorithm with its state held the other way round gives the
    same CRC, as an integer and as bytes. *)
Theorem order_swapped_same_crc c data :
  crc_ok c ->
  exists d, order_swapped c = Ok d /\ crc_ok d
    /\ calc d data None = calc c data None /\ calc_bytes d data None = calc_bytes c data None.
Proof.
  intros Hc. destruct (order_swapped_spec c Hc) as (d & Hd & Hok & Ho & _ & Hi & _ & _ & _ & Hx & Hby).
  exists d. split; [done|]. split; [done|].
  destruct (swapped_update c d (init c) data Hc Hd (co_init c Hc)) as (r & Hu & Hr & Hu').
  unfold calc, calc_bytes. simpl default. rewrite Hi, Hu, Hu', !bind_of_Ok.
  unfold as_bytes, byte_width. rewrite (as_int_swapped c d) by done. by rewrite Hby, Ho.
Qed.

Lemma order_swapped_same_crc_witness :
  exists d, order_swapped crc32 = Ok d /\ order0_at_lsb d = false
            /\ calc d [0x31] None = calc crc32 [0x31] None.
Proof.
  destruct (order_swapped_same_crc crc32 [0x31] crc32_ok) as (d & Hd & _ & Hc & _).
  exists d. refine (conj Hd (conj _ Hc)). clear Hc. vm_compute in Hd. by injection Hd as <-.
Defined.

(** The CRC of a payload of which one window changed is the old CRC
    xored with the delta computed from the difference alone. *)
Theorem crc_delta_patches_crc c pre old new post :
  crc_ok c -> 2 <= order c -> length old = length new ->
  exists crc crc' delta,
    calc_bytes c (pre ++ old ++ post) None = Ok crc
    /\ calc_bytes c (pre ++ new ++ post) None = Ok crc'
    /\ data_mod_crc_delta_compute c (zlen pre) (zip_with Z.lxor old new)
         (zlen (pre ++ old ++ post)) = Ok delta
    /\ xor_ crc delta = Ok crc'.
Proof.
  intros Hc Ho Hl. pose proof (co_init c Hc) as Hi. unfold calc_bytes, data_mod_crc_delta_compute. simpl default.
  rewrite state_delta_spec, bind_of_Ok, !update_run, !bind_of_Ok by
    (done || rewrite !length_app, length_zip_with; lia).
  replace (Z.to_nat _) with (8 * length post)%nat by (rewrite !length_app, length_zip_with; lia).
  rewrite <- (run_window c (Z.lxor (state_comp c) (init c)) pre old new post Hl).
  set (a := run c _ _). set (b := run c _ _).
  assert (in_range c a /\ in_range c b) as [Ha Hb] by (split; subst a b; auto with crc).
  destruct (as_bytes_lxor c (Z.lxor (state_comp c) a) (Z.lxor a b) Hc) as (x & y & z & -> & -> & Hz & Hx);
    [auto with crc..|]. exists x, z, y. split_and!; try done.
  rewrite <- Hz. f_equal. by rewrite Z.lxor_assoc, <- (Z.lxor_assoc a), Z.lxor_nilpotent, Z.lxor_0_l.
Qed.

Lemma crc_delta_patches_crc_witness :
  exists crc crc' delta, calc_bytes crc32 ([1] ++ [2; 3] ++ [4; 5]) None = Ok crc
    /\ calc_bytes crc32 ([1] ++ [9; 9] ++ [4; 5]) None = Ok crc'
    /\ data_mod_crc_delta_compute crc32 1 [Z.lxor 2 9; Z.lxor 3 9] 5 = Ok delta
    /\ xor_ crc delta = Ok crc'.
Proof.
  exact (crc_delta_patches_crc crc32 [1] [2; 3] [9; 9] [4; 5] crc32_ok ltac:(vm_compute; congruence) eq_refl).
Defined.
