(* ===== verification/CrcCatalog.v ===== *)
(** * CRC descriptions and the catalogue (src/acrobe/util/crc.py)

    [Crc.from_info] and [Crc.info_string], the textual form of an algorithm;
    [Crc.register], [register_info] and [from_name] over the registry; and the
    algorithms registered when the module is loaded. *)

From Stdlib Require Import Ascii String.
From S2P Require Import Prelude Crc.

Open Scope Z_scope.

(** ** Hexadecimal *)

(** [re.I]: letters match in either case. *)
Definition lower (a : ascii) : ascii :=
  let n := nat_of_ascii a in
  if (65 <=? n)%nat && (n <=? 90)%nat then ascii_of_nat (n + 32) else a.

Definition hex_val (a : ascii) : option Z :=
  let n := Z.of_nat (nat_of_ascii (lower a)) in
  if (48 <=? n) && (n <=? 57) then Some (n - 48)
  else if (97 <=? n) && (n <=? 102) then Some (n - 87)
  else None.

Definition hex_char (d : Z) : ascii :=
  ascii_of_nat (Z.to_nat (if d <? 10 then 48 + d else 87 + d)).

(** The longest prefix of hexadecimal digits, as a number, with the rest. *)
Fixpoint hex_span (acc : Z) (l : list ascii) : Z * list ascii :=
  match l with
  | a :: l' => match hex_val a with Some d => hex_span (16 * acc + d) l' | None => (acc, l) end
  | [] => (acc, [])
  end.

(** ["0x[0-9a-f]+"] *)
Definition parse_hex (l : list ascii) : option (Z * list ascii) :=
  match l with
  | z :: x :: d :: l' =>
      if bool_decide (z = "0"%char) && bool_decide (lower x = "x"%char) then
        match hex_val d with Some v => Some (hex_span v l') | None => None end
      else None
  | _ => None
  end.

(** [hex(z)] *)
Fixpoint hex_digits (fuel : nat) (z : Z) (acc : list ascii) : list ascii :=
  match fuel with
  | O => acc
  | S fuel => let acc := hex_char (z mod 16) :: acc in
              if z / 16 =? 0 then acc else hex_digits fuel (z / 16) acc
  end.

Definition hex (z : Z) : list ascii := "0"%char :: "x"%char :: hex_digits (S (Z.to_nat (Z.log2 z))) z [].

(** ** [from_info] and [info_string] *)

(** A run of optional one-letter flags that must use up the text. *)
Fixpoint parse_flags (names : list ascii) (l : list ascii) : option (list bool) :=
  match names with
  | [] => match l with [] => Some [] | _ => None end
  | n :: names =>
      match l with
      | a :: l' => if bool_decide (lower a = n) then cons true <$> parse_flags names l'
                   else cons false <$> parse_flags names l
      | [] => cons false <$> parse_flags names []
      end
  end.

Definition flag_names : list ascii := ["l"; "z"; "s"; "i"; "x"]%char.

(** [$] also matches before a final newline. *)
Definition chop (l : list ascii) : list ascii :=
  match reverse l with
  | a :: l' => if bool_decide (a = ascii_of_nat 10) then reverse l' else l
  | [] => l
  end.

Definition from_info (info : list ascii) : result Crc :=
  let matched :=
    '(poly, rest) ← parse_hex (chop info);
    '(init, rest) ← match rest with
                    | a :: rest' => if bool_decide (a = ":"%char) then parse_hex rest' else Some (0, rest)
                    | [] => None
                    end;
    match reverse rest with
    | last :: body =>
        flags ← parse_flags flag_names (reverse body);
        if bool_decide (lower last = "l"%char) || bool_decide (lower last = "h"%char)
        then Some (poly, init, flags, last) else None
    | [] => None
    end in
  match matched with
  | Some (poly, init, [pop_lsb; order0_at_lsb; complement_state; complement_input; spill_bitswap], last) =>
      (* "big" if the letter is exactly "h" *)
      new_crc poly init pop_lsb order0_at_lsb complement_input complement_state spill_bitswap
        (if bool_decide (last = "h"%char) then Big else Little)
  | _ => Err ValueError
  end.

Definition flag (b : bool) (a : ascii) : list ascii := if b then [a] else [].

Definition info_string (c : Crc) : list ascii :=
  hex (poly c) ++ (if init c =? 0 then [] else ":"%char :: hex (init c))
  ++ flag (pop_lsb c) "l" ++ flag (order0_at_lsb c) "z" ++ flag (complement_state c) "s"
  ++ flag (complement_input c) "i" ++ flag (spill_bitswap c) "x"
  ++ [match spill_byte_order c with Big => "h" | Little => "l" end]%char.

(** ** The registry *)

(** [Crc.db], latest registration first. *)
Abbreviation registry := (list (list ascii * Crc)).

Definition register (db : registry) (name : list ascii) (c : Crc) : registry := (name, c) :: db.

Definition register_info (db : registry) (name info : list ascii) : result registry :=
  c ← from_info info; Ok (register db name c).

Fixpoint from_name (db : registry) (name : list ascii) : result Crc :=
  match db with
  | [] => Err ValueError
  | (n, c) :: db => if bool_decide (n = name) then Ok c else from_name db name
  end.

Definition chars (s : string) : list ascii := list_ascii_of_string s.

(** The algorithms registered one by one. *)
Definition named_crcs : result registry :=
  ethernet_fcs ← new_crc 0x104c11db7 0 true true false true true Little;
  let db := register [] (chars "ethernet_fcs") ethernet_fcs in
  swapped ← order_swapped ethernet_fcs;
  zlib ← new_crc (poly swapped) (init swapped) (pop_lsb swapped) (order0_at_lsb swapped)
           (complement_input swapped) (complement_state swapped) (spill_bitswap swapped) Little;
  let db := register db (chars "zlib") zlib in
  bluetooth ← new_crc 0x100065b 0x555555 true true false false true Little;
  let db := register db (chars "bluetooth_crc24") bluetooth in
  hdlc ← new_crc 0x10811 0 true false false true false Little;
  let db := register db (chars "hdlc") hdlc in
  iso14443a ← new_crc (poly hdlc) 0x6363 (pop_lsb hdlc) (order0_at_lsb hdlc)
                (complement_input hdlc) false (spill_bitswap hdlc) (spill_byte_order hdlc);
  let db := register db (chars "iso14443a") iso14443a in
  let db := register db (chars "iso14443b") hdlc in
  one_wire ← new_crc 0x119 0 true false false false false Little;
  Ok (register db (chars "one_wire") one_wire).

(** The table of (name, description) the module registers last. *)
Definition catalogue : list (string * string) :=
  [ ("CRC-8/AUTOSAR", "0x12fzsl");
    ("CRC-8/BLUETOOTH", "0x1a7lzxl");
    ("CRC-8/CDMA2000", "0x19b:0xffzl");
    ("CRC-8/DARC", "0x139lzxl");
    ("CRC-8/DVB-S2", "0x1d5zl");
    ("CRC-8/GSM-A", "0x11dzl");
    ("CRC-8/GSM-B", "0x149:0xffzsl");
    ("CRC-8/HITAG", "0x11d:0xffzl");
    ("CRC-8/I-CODE", "0x11d:0xfdzl");
    ("CRC-8/LTE", "0x19bzl");
    ("CRC-8/MAXIM-DOW", "0x131lzxl");
    ("CRC-8/MIFARE-MAD", "0x11d:0xc7zl");
    ("CRC-8/NRSC-5", "0x131:0xffzl");
    ("CRC-8/OPENSAFETY", "0x12fzl");
    ("CRC-8/ROHC", "0x107:0xfflzxl");
    ("CRC-8/SAE-J1850", "0x11dzsl");
    ("CRC-8/SMBUS", "0x107zl");
    ("CRC-8/TECH-3250", "0x11d:0xfflzxl");
    ("CRC-8/WCDMA", "0x19blzxl");
    ("CRC-16/ARC", "0x18005lzxl");
    ("CRC-16/CDMA2000", "0x1c867:0xffffzl");
    ("CRC-16/CMS", "0x18005:0xffffzl");
    ("CRC-16/DDS-110", "0x18005:0x800dzl");
    ("CRC-16/DECT-X", "0x10589zl");
    ("CRC-16/DNP", "0x13d65:0xfffflzsxl");
    ("CRC-16/EN-13757", "0x13d65:0xffffzsl");
    ("CRC-16/GENIBUS", "0x11021zsl");
    ("CRC-16/GSM", "0x11021:0xffffzsl");
    ("CRC-16/IBM-3740", "0x11021:0xffffzl");
    ("CRC-16/IBM-SDLC", "0x11021lzsxl");
    ("CRC-16/ISO-IEC-14443-3-A", "0x11021:0xc6c6lzxl");
    ("CRC-16/KERMIT", "0x11021lzxl");
    ("CRC-16/LJ1200", "0x16f63zl");
    ("CRC-16/M17", "0x15935:0xffffzl");
    ("CRC-16/MAXIM-DOW", "0x18005:0xfffflzsxl");
    ("CRC-16/MCRF4XX", "0x11021:0xfffflzxl");
    ("CRC-16/MODBUS", "0x18005:0xfffflzxl");
    ("CRC-16/NRSC-5", "0x1080b:0xfffflzxl");
    ("CRC-16/OPENSAFETY-A", "0x15935zl");
    ("CRC-16/OPENSAFETY-B", "0x1755bzl");
    ("CRC-16/PROFIBUS", "0x11dcfzsl");
    ("CRC-16/RIELLO", "0x11021:0xb2aalzxl");
    ("CRC-16/SPI-FUJITSU", "0x11021:0x1d0fzl");
    ("CRC-16/T10-DIF", "0x18bb7zl");
    ("CRC-16/TELEDISK", "0x1a097zl");
    ("CRC-16/TMS37157", "0x11021:0x89eclzxl");
    ("CRC-16/UMTS", "0x18005zl");
    ("CRC-16/USB", "0x18005lzsxl");
    ("CRC-16/XMODEM", "0x11021zl");
    ("CRC-24/BLE", "0x100065b:0x555555lzxl");
    ("CRC-24/FLEXRAY-A", "0x15d6dcb:0xfedcbazl");
    ("CRC-24/FLEXRAY-B", "0x15d6dcb:0xabcdefzl");
    ("CRC-24/INTERLAKEN", "0x1328b63zsl");
    ("CRC-24/LTE-A", "0x1864cfbzl");
    ("CRC-24/LTE-B", "0x1800063zl");
    ("CRC-24/OPENPGP", "0x1864cfb:0xb704cezl");
    ("CRC-24/OS-9", "0x1800063zsl");
    ("CRC-32/AIXM", "0x1814141abzl");
    ("CRC-32/AUTOSAR", "0x1f4acfb13lzsxl");
    ("CRC-32/BASE91-D", "0x1a833982blzsxl");
    ("CRC-32/BZIP2", "0x104c11db7zsl");
    ("CRC-32/CD-ROM-EDC", "0x18001801blzxl");
    ("CRC-32/CKSUM", "0x104c11db7:0xffffffffzsl");
    ("CRC-32/ISCSI", "0x11edc6f41lzsxl");
    ("CRC-32/ISO-HDLC", "0x104c11db7lzsxl");
    ("CRC-32/JAMCRC", "0x104c11db7:0xfffffffflzxl");
    ("CRC-32/MEF", "0x1741b8cd7:0xfffffffflzxl");
    ("CRC-32/MPEG-2", "0x104c11db7:0xffffffffzl");
    ("CRC-32/XFER", "0x1000000afzl");
    ("CRC-40/GSM", "0x10004820009:0xffffffffffzsl");
    ("CRC-64/ECMA-182", "0x142f0e1eba9ea3693zl");
    ("CRC-64/GO-ISO", "0x1000000000000001blzsxl");
    ("CRC-64/MS", "0x1259c84cba6426349:0xfffffffffffffffflzxl");
    ("CRC-64/REDIS", "0x1ad93d23594c935a9lzxl");
    ("CRC-64/WE", "0x142f0e1eba9ea3693zsl");
    ("CRC-64/XZ", "0x142f0e1eba9ea3693lzsxl") ]%string.

Definition loaded_db : result registry :=
  db ← named_crcs;
  foldM (fun db '(name, info) => register_info db (chars name) (chars info)) db catalogue.

(** The check values of the RevEng catalogue (src/tests/crc_list.txt): the
    CRC of the ASCII digits 1 to 9. *)
Definition reveng_check : list (string * Z) :=
  [ ("CRC-8/AUTOSAR"%string, 0xdf);
    ("CRC-8/BLUETOOTH"%string, 0x26);
    ("CRC-8/CDMA2000"%string, 0xda);
    ("CRC-8/DARC"%string, 0x15);
    ("CRC-8/DVB-S2"%string, 0xbc);
    ("CRC-8/GSM-A"%string, 0x37);
    ("CRC-8/GSM-B"%string, 0x94);
    ("CRC-8/HITAG"%string, 0xb4);
    ("CRC-8/I-CODE"%string, 0x7e);
    ("CRC-8/LTE"%string, 0xea);
    ("CRC-8/MAXIM-DOW"%string, 0xa1);
    ("CRC-8/MIFARE-MAD"%string, 0x99);
    ("CRC-8/NRSC-5"%string, 0xf7);
    ("CRC-8/OPENSAFETY"%string, 0x3e);
    ("CRC-8/ROHC"%string, 0xd0);
    ("CRC-8/SAE-J1850"%string, 0x4b);
    ("CRC-8/SMBUS"%string, 0xf4);
    ("CRC-8/TECH-3250"%string, 0x97);
    ("CRC-8/WCDMA"%string, 0x25);
    ("CRC-16/ARC"%string, 0xbb3d);
    ("CRC-16/CDMA2000"%string, 0x4c06);
    ("CRC-16/CMS"%string, 0xaee7);
    ("CRC-16/DDS-110"%string, 0x9ecf);
    ("CRC-16/DECT-X"%string, 0x007f);
    ("CRC-16/DNP"%string, 0xea82);
    ("CRC-16/EN-13757"%string, 0xc2b7);
    ("CRC-16/GENIBUS"%string, 0xd64e);
    ("CRC-16/GSM"%string, 0xce3c);
    ("CRC-16/IBM-3740"%string, 0x29b1);
    ("CRC-16/IBM-SDLC"%string, 0x906e);
    ("CRC-16/ISO-IEC-14443-3-A"%string, 0xbf05);
    ("CRC-16/KERMIT"%string, 0x2189);
    ("CRC-16/LJ1200"%string, 0xbdf4);
    ("CRC-16/M17"%string, 0x772b);
    ("CRC-16/MAXIM-DOW"%string, 0x44c2);
    ("CRC-16/MCRF4XX"%string, 0x6f91);
    ("CRC-16/MODBUS"%string, 0x4b37);
    ("CRC-16/NRSC-5"%string, 0xa066);
    ("CRC-16/OPENSAFETY-A"%string, 0x5d38);
    ("CRC-16/OPENSAFETY-B"%string, 0x20fe);
    ("CRC-16/PROFIBUS"%string, 0xa819);
    ("CRC-16/RIELLO"%string, 0x63d0);
    ("CRC-16/SPI-FUJITSU"%string, 0xe5cc);
    ("CRC-16/T10-DIF"%string, 0xd0db);
    ("CRC-16/TELEDISK"%string, 0x0fb3);
    ("CRC-16/TMS37157"%string, 0x26b1);
    ("CRC-16/UMTS"%string, 0xfee8);
    ("CRC-16/USB"%string, 0xb4c8);
    ("CRC-16/XMODEM"%string, 0x31c3);
    ("CRC-24/BLE"%string, 0xc25a56);
    ("CRC-24/FLEXRAY-A"%string, 0x7979bd);
    ("CRC-24/FLEXRAY-B"%string, 0x1f23b8);
    ("CRC-24/INTERLAKEN"%string, 0xb4f3e6);
    ("CRC-24/LTE-A"%string, 0xcde703);
    ("CRC-24/LTE-B"%string, 0x23ef52);
    ("CRC-24/OPENPGP"%string, 0x21cf02);
    ("CRC-24/OS-9"%string, 0x200fa5);
    ("CRC-32/AIXM"%string, 0x3010bf7f);
    ("CRC-32/AUTOSAR"%string, 0x1697d06a);
    ("CRC-32/BASE91-D"%string, 0x87315576);
    ("CRC-32/BZIP2"%string, 0xfc891918);
    ("CRC-32/CD-ROM-EDC"%string, 0x6ec2edc4);
    ("CRC-32/CKSUM"%string, 0x765e7680);
    ("CRC-32/ISCSI"%string, 0xe3069283);
    ("CRC-32/ISO-HDLC"%string, 0xcbf43926);
    ("CRC-32/JAMCRC"%string, 0x340bc6d9);
    ("CRC-32/MEF"%string, 0xd2c22f51);
    ("CRC-32/MPEG-2"%string, 0x0376e6e7);
    ("CRC-32/XFER"%string, 0xbd0be338);
    ("CRC-40/GSM"%string, 0xd4164fc646);
    ("CRC-64/ECMA-182"%string, 0x6c40df5f0b497347);
    ("CRC-64/GO-ISO"%string, 0xb90956c775a41001);
    ("CRC-64/MS"%string, 0x75d4b74f024eceea);
    ("CRC-64/REDIS"%string, 0xe9c6d914c4b8d9ca);
    ("CRC-64/WE"%string, 0x62ec59e3f1a4f00a);
    ("CRC-64/XZ"%string, 0x995dc9bbdf1939fa) ].

(** ** Printing and parsing *)

Lemma hex_char_val d : 0 <= d < 16 -> hex_val (hex_char d) = Some d.
Proof.
  intros Hd. assert (d ∈ seqZ 0 16) as Hin by (apply elem_of_seqZ; lia).
  assert (Forall (fun d => hex_val (hex_char d) = Some d) (seqZ 0 16)) as Hall by (repeat constructor).
  by apply (proj1 (Forall_forall _ _) Hall).
Qed.

Lemma hex_span_app l : forall acc rest,
  hex_span acc (l ++ rest) =
  match hex_span acc l with (v, []) => hex_span v rest | (v, l') => (v, l' ++ rest) end.
Proof.
  induction l as [|a l IH]; intros acc rest; [done|]. simpl. destruct (hex_val a); [apply IH|done].
Qed.

(** Reading back printed digits. *)
Lemma hex_digits_span fuel : forall z acc v0,
  0 <= z < 2 ^ (4 * Z.of_nat fuel) -> (0 < fuel)%nat ->
  exists n, hex_span v0 (hex_digits fuel z acc) = hex_span (v0 * 16 ^ n + z) acc /\ 0 <= n.
Proof.
  induction fuel as [|fuel IH]; intros z acc v0 Hz Hf; [lia|]. cbn [hex_digits].
  assert (0 <= z mod 16 < 16) as Hm by (apply Z.mod_pos_bound; lia).
  destruct (Z.eqb_spec (z / 16) 0) as [Hd|Hd].
  - exists 1. cbn [hex_span]. rewrite hex_char_val by done.
    assert (z = z mod 16) as Hzm by (Z.div_mod_to_equations; lia). rewrite <- Hzm. split; [|lia].
    replace (16 * v0 + z) with (v0 * 16 ^ 1 + z) by lia. done.
  - destruct fuel as [|fuel].
    { exfalso. apply Hd. change (2 ^ (4 * Z.of_nat 1)) with 16 in Hz. Z.div_mod_to_equations. lia. }
    destruct (IH (z / 16) (hex_char (z mod 16) :: acc) v0) as (n & -> & Hn); [|lia|].
    { rewrite (Nat2Z.inj_succ (S fuel)), Z.mul_succ_r, Z.pow_add_r in Hz by lia. change (2 ^ 4) with 16 in Hz.
      Z.div_mod_to_equations. nia. }
    exists (n + 1). split; [|lia]. cbn [hex_span]. rewrite hex_char_val by done.
    rewrite Z.pow_add_r by lia. f_equal. Z.div_mod_to_equations. nia.
Qed.

Lemma hex_digits_acc fuel z acc : hex_digits fuel z acc = hex_digits fuel z [] ++ acc.
Proof.
  revert z acc. induction fuel as [|fuel IH]; intros z acc; [done|]. cbn [hex_digits].
  destruct (z / 16 =? 0); [done|]. rewrite IH, (IH _ [_]), <- app_assoc. done.
Qed.

Lemma hex_digits_head fuel z acc :
  0 <= z -> (0 < fuel)%nat -> exists d l, hex_digits fuel z acc = hex_char d :: l /\ 0 <= d < 16.
Proof.
  intros Hz Hf. revert z acc Hz. induction fuel as [|fuel IH]; intros z acc Hz; [lia|]. cbn [hex_digits].
  assert (0 <= z mod 16 < 16) by (apply Z.mod_pos_bound; lia).
  destruct (z / 16 =? 0); [eauto|]. destruct fuel as [|fuel]; [eauto|].
  apply IH; [lia|]. Z.div_mod_to_equations. lia.
Qed.

(** A printed number, followed by something that is no digit. *)
Lemma parse_hex_hex z rest :
  0 <= z -> match rest with a :: _ => hex_val a = None | [] => True end ->
  parse_hex (hex z ++ rest) = Some (z, rest).
Proof.
  intros Hz Hrest. unfold hex. set (f := S (Z.to_nat (Z.log2 z))).
  destruct (hex_digits_span f z [] 0) as (n & Hs & _); [|lia|].
  { split; [done|]. destruct (Z.eqb_spec z 0) as [->|]; [by apply Z.pow_pos_nonneg; lia|].
    pose proof (Z.log2_spec z ltac:(lia)) as [_ Hl]. eapply Z.lt_le_trans; [exact Hl|].
    apply Z.pow_le_mono_r; unfold f; lia. }
  rewrite Z.mul_0_l, Z.add_0_l in Hs.
  destruct (hex_digits_head f z [] Hz) as (d & l & Hd & Hd16); [unfold f; lia|]. rewrite Hd in *.
  cbn [hex_span] in Hs. rewrite hex_char_val in Hs by done. rewrite Z.mul_0_r, Z.add_0_l in Hs.
  cbn [app parse_hex]. rewrite !bool_decide_eq_true_2 by done. cbn [andb]. rewrite hex_char_val by done.
  rewrite hex_span_app, Hs. f_equal. destruct rest as [|a rest]; [done|]. cbn [hex_span]. by rewrite Hrest.
Qed.

(** The part of a description after the numbers. *)
Definition info_tail (l z cs ci x : bool) (o : byte_order) : list ascii :=
  flag l "l" ++ flag z "z" ++ flag cs "s" ++ flag ci "i" ++ flag x "x"
  ++ [match o with Big => "h" | Little => "l" end]%char.

Lemma info_tail_parse l z cs ci x o :
  let t := info_tail l z cs ci x o in
  match t with a :: _ => hex_val a = None /\ bool_decide (a = ":"%char) = false | [] => False end
  /\ exists last body, reverse t = last :: body /\ bool_decide (last = ascii_of_nat 10) = false
     /\ parse_flags flag_names (reverse body) = Some [l; z; cs; ci; x]
     /\ bool_decide (lower last = "l"%char) || bool_decide (lower last = "h"%char) = true
     /\ (if bool_decide (last = "h"%char) then Big else Little) = o.
Proof.
  cbv zeta. split; [by destruct l, z, cs, ci, x, o|].
  set (fl := flag l "l" ++ flag z "z" ++ flag cs "s" ++ flag ci "i" ++ flag x "x").
  exists (match o with Big => "h" | Little => "l" end)%char, (reverse fl).
  split; [unfold info_tail, fl; rewrite !app_assoc, reverse_app; done|].
  split; [by destruct o|]. rewrite reverse_involutive. split; [|by destruct o].
  unfold fl. by destruct l, z, cs, ci, x.
Qed.

Lemma chop_end l a : bool_decide (a = ascii_of_nat 10) = false -> chop (l ++ [a]) = l ++ [a].
Proof. intros Ha. unfold chop. rewrite reverse_app. simpl. by rewrite Ha. Qed.

Lemma from_info_parts p i l z cs ci x o :
  1 < p -> Z.testbit p 0 = true -> 0 <= i < 2 ^ Z.log2 p ->
  from_info (hex p ++ (if i =? 0 then [] else ":"%char :: hex i) ++ info_tail l z cs ci x o)
  = Ok (mkCrc p i l z ci cs x o).
Proof.
  intros Hp Hodd Hi. destruct (info_tail_parse l z cs ci x o) as (Hhead & last & body & Hrev & Hnl & Hfl & Hlh & Ho).
  set (t := info_tail l z cs ci x o) in *.
  assert (t = reverse body ++ [last]) as Ht by (rewrite <- (reverse_involutive t), Hrev, reverse_cons; done).
  unfold from_info.
  assert (forall pre, chop (pre ++ t) = pre ++ t) as Hchop by (intros pre; rewrite Ht, app_assoc; by apply chop_end).
  rewrite (app_assoc (hex p)), Hchop, <- app_assoc.
  destruct t as [|a t'] eqn:Et; [done|]. destruct Hhead as [Hhex Hcol].
  rewrite parse_hex_hex; [|lia|by destruct (i =? 0)].
  cbn [mbind option_bind]. destruct (new_crc_Ok p i l z ci cs x o Hodd Hp) as (c & Hn & _ & ->).
  rewrite Z.mod_small in Hn by done.
  destruct (Z.eqb_spec i 0) as [->|Hi0]; cbn [app].
  - rewrite Hcol. cbn [mbind option_bind]. rewrite Hrev, Hfl. cbn [mbind option_bind]. by rewrite Hlh, Ho.
  - rewrite bool_decide_eq_true_2 by done. rewrite (parse_hex_hex i (a :: t')) by (done || lia).
    cbn [mbind option_bind]. rewrite Hrev, Hfl. cbn [mbind option_bind]. by rewrite Hlh, Ho.
Qed.

(** ** Properties *)

(** The textual form of every algorithm parses back to the algorithm:
    any odd polynomial, initial value and combination of options. *)
Theorem from_info_info_string c : crc_ok c -> from_info (info_string c) = Ok c.
Proof.
  intros [Hodd Hp Hi]. destruct c as [p i l z ci cs x o]. simpl in *.
  exact (from_info_parts p i l z cs ci x o Hp Hodd Hi).
Qed.

Lemma from_info_info_string_witness :
  from_info (info_string (mkCrc 0x11021 0xc6c6 true true false false true Little))
    = Ok (mkCrc 0x11021 0xc6c6 true true false false true Little)
  /\ string_of_list_ascii (info_string (mkCrc 0x11021 0xc6c6 true true false false true Little))
     = "0x11021:0xc6c6lzxl"%string.
Proof. split; [apply from_info_info_string; by split|reflexivity]. Defined.

(** What the catalogue promises of one registered name. *)
Definition check_name (db : registry) (nc : string * Z) : bool :=
  match from_name db (chars (fst nc)) with
  | Ok c => bool_decide (calc c [49; 50; 51; 52; 53; 54; 55; 56; 57] None = Ok (snd nc))
  | Err _ => false
  end.

(** Loading the module registers every catalogue algorithm, and each of
    the 76 computes its published check value, the CRC of the ASCII string of
    the digits one to nine. *)
Theorem catalogue_check_values :
  exists db, loaded_db = Ok db /\ Forall (fun nc =>
    exists c, from_name db (chars (fst nc)) = Ok c
      /\ calc c [49; 50; 51; 52; 53; 54; 55; 56; 57] None = Ok (snd nc)) reveng_check.
Proof.
  eexists. split; [vm_compute; reflexivity|]. apply Forall_forall. intros [name v] Hin.
  set (db := cons _ _).
  assert (forallb (check_name db) reveng_check = true) as Hall by (vm_compute; reflexivity).
  rewrite forallb_forall in Hall. specialize (Hall (name, v) ltac:(by apply list_elem_of_In)).
  unfold check_name in Hall. cbn [fst snd] in *. destruct (from_name db (chars name)) as [c|]; [|done].
  exists c. split; [done|]. by apply bool_decide_eq_true in Hall.
Qed.

(** Descriptions are matched without regard to case, but the byte order
    is big only for a lower-case h: the same description in capitals gives
    another algorithm. *)
Theorem from_info_upper_case_byte_order :
  exists c d, from_info (chars "0x11021zh") = Ok c /\ from_info (chars "0X11021ZH") = Ok d
    /\ spill_byte_order c = Big /\ spill_byte_order d = Little.
Proof. eexists _, _. split; [vm_compute; reflexivity|]. split; [vm_compute; reflexivity|]. done. Qed.
