(* ===== verification/Hdlc.v ===== *)
(** * HDLC framing (src/acrobe/component/hdlc.py)

    [Hdlc] carries datagrams over a byte pipe: flags, byte stuffing, a 16-bit
    frame check sequence.  [HdlcHeader] adds and strips the two-byte address
    and control header.  The pipe is the list of chunks it will return: how
    the stream is cut into chunks is up to it. *)

From Stdlib Require Import String.
From S2P Require Import Prelude Crc CrcCatalog.

Open Scope Z_scope.

(** ** Sending *)

Definition FLAG : Z := 0x7e.
Definition ESCAPE : Z := 0x7d.
Definition ESCAPE_MANGLE : Z := 0x20.
Definition ESCAPED_BYTES : list Z := [0x7d; 0x7e; 0x03; 0x11; 0x13; 0x91; 0x93].

(** [Crc.from_name("hdlc")] *)
Definition fcs : Crc := mkCrc 0x10811 0 true false false true false Little.

Definition escape_byte (b : Z) : list Z :=
  if bool_decide (b ∈ ESCAPED_BYTES) then [ESCAPE; Z.lxor b ESCAPE_MANGLE] else [b].

Definition escape (data : list Z) : list Z := data ≫= escape_byte.

Definition packetize (payload : list Z) : result (list Z) :=
  f ← calc_bytes fcs payload None;
  Ok ([FLAG] ++ escape (payload ++ f) ++ [FLAG]).

(** ** Receiving *)

Record hdlc : Type := mkHdlc {
  h_frame : option (list Z);      (* self.__frame *)
  h_escaped : bool;               (* self.__escaped *)
  h_frames : list (list Z);       (* self.__frames *)
}.

Definition hdlc_init : hdlc := mkHdlc None false [].

(** [__deliver]: short frames and frames that fail the check are dropped. *)
Definition deliver (h : hdlc) (frame : list Z) : result hdlc :=
  if zlen frame <? 2 then Ok h
  else
    ok ← is_valid fcs frame None;
    if (ok : bool) then Ok (mkHdlc (h_frame h) (h_escaped h) (h_frames h ++ [slice_to frame (-2)]))
    else Ok h.

(** [__feed], one byte and a chunk. *)
Definition feed_byte (h : hdlc) (b : Z) : result hdlc :=
  if b =? FLAG then
    h ← match h_frame h with
        | Some (x :: frame) => deliver h (x :: frame)
        | _ => Ok h
        end;
    Ok (mkHdlc (Some []) false (h_frames h))
  else
    match h_frame h with
    | None => Ok h
    | Some frame =>
        if h_escaped h then Ok (mkHdlc (Some (frame ++ [Z.lxor b ESCAPE_MANGLE])) false (h_frames h))
        else if b =? ESCAPE then Ok (mkHdlc (Some frame) true (h_frames h))
        else Ok (mkHdlc (Some (frame ++ [b])) false (h_frames h))
    end.

Definition feed (h : hdlc) (data : list Z) : result hdlc := foldM feed_byte h data.

(** The body of the receive loop of [flush_ops]: read chunks until a frame is
    there; an empty chunk is the end of the stream. *)
Fixpoint recv (h : hdlc) (pipe : list (list Z)) : result (list Z * hdlc * list (list Z)) :=
  match h_frames h with
  | f :: fs => Ok (f, mkHdlc (h_frame h) (h_escaped h) fs, pipe)
  | [] =>
      match pipe with
      | [] => Err EOFError
      | chunk :: pipe =>
          match chunk with
          | [] => Err EOFError
          | _ => h ← feed h chunk; recv h pipe
          end
      end
  end.

Fixpoint recv_many (n : nat) (h : hdlc) (pipe : list (list Z)) : result (list (list Z) * hdlc) :=
  match n with
  | O => Ok ([], h)
  | S n => '(f, h, pipe) ← recv h pipe;
           '(fs, h) ← recv_many n h pipe;
           Ok (f :: fs, h)
  end.

(** The send half of [flush_ops]: one write of all packets. *)
Definition send_many (payloads : list (list Z)) : result (list Z) :=
  foldM (fun blob p => pk ← packetize p; Ok (blob ++ pk)) [] payloads.

(** ** The header layer *)

Record HdlcAddr : Type := mkAddr { address : Z; control : Z }.

Definition header_send (dflt : HdlcAddr) (context : option HdlcAddr) (data : list Z) : list Z :=
  let hdr := default dflt context in
  [Z.land (address hdr) 0xff; Z.land (control hdr) 0xff] ++ data.

Definition header_recv (data : list Z) : result (list Z * HdlcAddr) :=
  if zlen data <? 2 then Err RuntimeError
  else
    a ← index data 0;
    c ← index data 1;
    Ok (slice_from data 2, mkAddr a c).

(** ** The frame check sequence *)

Lemma fcs_registered : exists db, loaded_db = Ok db /\ from_name db (chars "hdlc"%string) = Ok fcs.
Proof. eexists. split; vm_compute; reflexivity. Qed.

Lemma fcs_ok : crc_ok fcs.
Proof. by split. Qed.

(** The frame a packet carries: the payload and its valid FCS. *)
Lemma fcs_frame payload :
  exists f, calc_bytes fcs payload None = Ok f /\ zlen f = 2 /\ bytes_ok f
    /\ is_valid fcs (payload ++ f) None = Ok true.
Proof.
  destruct (valid_appended fcs payload 0 fcs_ok eq_refl) as (m & Hm & Hv); [done|].
  destruct (append_to_Ok fcs payload 0 fcs_ok) as (s & crc & Hu & Hs & Hb & Ha); [done|].
  assert (m = payload ++ crc) as -> by congruence. exists crc. split_and!.
  - unfold calc_bytes. change (default (init fcs) None) with 0. by rewrite Hu, bind_of_Ok.
  - destruct (from_bytes_as_bytes fcs s fcs_ok Hs) as (b & Hb' & _ & Hl).
    assert (b = crc) as -> by congruence. exact Hl.
  - destruct (as_bytes_Ok fcs s fcs_ok Hs) as [He _]. rewrite Hb in He. injection He as ->.
    exact (le_bytes_ok 2 (as_int fcs s)).
  - exact Hv.
Qed.

(** ** Unstuffing *)

Lemma escape_app d1 d2 : escape (d1 ++ d2) = escape d1 ++ escape d2.
Proof. apply bind_app. Qed.

Lemma feed_app h d1 d2 : feed h (d1 ++ d2) = (h ← feed h d1; feed h d2).
Proof. apply foldM_app. Qed.

Lemma feed_escaped_byte frame fs b :
  feed (mkHdlc (Some frame) false fs) (escape_byte b) = Ok (mkHdlc (Some (frame ++ [b])) false fs).
Proof.
  unfold escape_byte. case_bool_decide as Hb.
  - assert (Z.lxor b ESCAPE_MANGLE =? FLAG = false) as Hf.
    { unfold ESCAPED_BYTES in Hb.
      repeat (apply elem_of_cons in Hb as [->|Hb]; [done|]). by apply elem_of_nil in Hb. }
    unfold feed. cbn [foldM].
    change (feed_byte (mkHdlc (Some frame) false fs) ESCAPE) with (Ok (mkHdlc (Some frame) true fs)).
    rewrite bind_of_Ok. unfold feed_byte. rewrite Hf. cbn [h_frame h_escaped h_frames].
    rewrite bind_of_Ok, Z.lxor_assoc, Z.lxor_nilpotent, Z.lxor_0_r. done.
  - assert ((b =? FLAG) = false /\ (b =? ESCAPE) = false) as [H1 H2].
    { split; apply Z.eqb_neq; intros ->; apply Hb; unfold ESCAPED_BYTES, FLAG, ESCAPE; set_solver. }
    unfold feed. cbn [foldM]. unfold feed_byte. rewrite H1. cbn [h_frame h_escaped h_frames]. rewrite H2. done.
Qed.

Lemma feed_escape frame fs d :
  feed (mkHdlc (Some frame) false fs) (escape d) = Ok (mkHdlc (Some (frame ++ d)) false fs).
Proof.
  revert frame. induction d as [|b d IH]; intros frame; [by rewrite app_nil_r|].
  change (escape (b :: d)) with (escape_byte b ++ escape d).
  rewrite feed_app, feed_escaped_byte, bind_of_Ok, IH, <- app_assoc. done.
Qed.

(** ** Packets *)

(** A flag ends whatever frame was under way, which may or may not be
    delivered, and starts the next. *)
Lemma is_valid_Ok frame : exists b, is_valid fcs frame None = Ok b.
Proof.
  unfold is_valid, check_state. change (default (init fcs) None) with 0.
  destruct (as_bytes_Ok fcs 0 fcs_ok ltac:(done)) as [Hb _]. change (init fcs) with 0. rewrite Hb, bind_of_Ok.
  rewrite !update_run by (done || apply fcs_ok). rewrite !bind_of_Ok. eauto.
Qed.

Lemma feed_flag h :
  exists junk, feed_byte h FLAG = Ok (mkHdlc (Some []) false (h_frames h ++ junk))
    /\ (length junk <= 1)%nat
    /\ (h_frame h = None \/ h_frame h = Some [] -> junk = []).
Proof.
  unfold feed_byte. rewrite Z.eqb_refl. destruct (h_frame h) as [[|x frame]|] eqn:E.
  - exists []. rewrite bind_of_Ok, app_nil_r. split_and!; [done|simpl; lia|done].
  - unfold deliver. destruct (_ <? 2).
    + exists []. rewrite bind_of_Ok, app_nil_r. split_and!; [done|simpl; lia|by intros [|]].
    + destruct (is_valid_Ok (x :: frame)) as [[] ->]; rewrite !bind_of_Ok.
      * eexists [_]. split_and!; [done|simpl; lia|by intros [|]].
      * exists []. rewrite app_nil_r. split_and!; [done|simpl; lia|by intros [|]].
  - exists []. rewrite bind_of_Ok, app_nil_r. split_and!; [done|simpl; lia|done].
Qed.

Definition idle (h : hdlc) : Prop := h_frame h = None \/ h_frame h = Some [].

Lemma slice_to_app2 (l f : list Z) : zlen f = 2 -> slice_to (l ++ f) (-2) = l.
Proof.
  intros Hf. unfold slice_to, slice_bound. change (-2 <? 0) with true. cbv iota. rewrite length_app, Nat2Z.inj_add.
  replace (Z.to_nat _) with (length l) by lia. apply take_app_length.
Qed.

Lemma feed_one h b : feed h [b] = feed_byte h b.
Proof. unfold feed. cbn [foldM]. by destruct (feed_byte h b). Qed.

Lemma feed_packet h p :
  exists pk junk, packetize p = Ok pk
    /\ feed h pk = Ok (mkHdlc (Some []) false (h_frames h ++ junk ++ [p]))
    /\ (length junk <= 1)%nat /\ (idle h -> junk = []).
Proof.
  destruct (fcs_frame p) as (f & Hf & Hl & _ & Hv). unfold packetize. rewrite Hf, bind_of_Ok.
  destruct (feed_flag h) as (junk & Hj & Hjl & Hidle). eexists _, junk. split; [done|]. split; [|done].
  rewrite feed_app, feed_one, Hj, bind_of_Ok, feed_app, feed_escape, bind_of_Ok, feed_one.
  unfold feed_byte. rewrite Z.eqb_refl. cbn [h_frame h_frames app].
  assert (exists x fr, p ++ f = x :: fr) as (x & fr & E).
  { destruct p as [|x p]; [|by exists x, (p ++ f)]. destruct f as [|x f]; [change (zlen []) with 0 in Hl; lia|].
    by exists x, f. }
  rewrite E, <- E. unfold deliver.
  rewrite (proj2 (Z.ltb_ge _ _)) by (rewrite length_app; lia). rewrite Hv, !bind_of_Ok.
  cbn [h_frames]. rewrite slice_to_app2 by done. by rewrite <- app_assoc.
Qed.

Lemma send_many_snoc ps p blob pk :
  send_many ps = Ok blob -> packetize p = Ok pk -> send_many (ps ++ [p]) = Ok (blob ++ pk).
Proof. unfold send_many. intros Hb Hp. rewrite foldM_app, Hb, bind_of_Ok. simpl. by rewrite Hp. Qed.

Lemma feed_packets h ps :
  idle h ->
  exists blob h', send_many ps = Ok blob /\ feed h blob = Ok h' /\ idle h'
    /\ h_frames h' = h_frames h ++ ps.
Proof.
  intros Hi. induction ps as [|p ps IH] using rev_ind.
  { exists [], h. rewrite app_nil_r. done. }
  destruct IH as (blob & h' & Hs & Hf & Hi' & Hfr). destruct (feed_packet h' p) as (pk & junk & Hp & Hfp & _ & Hj).
  rewrite (Hj Hi') in Hfp. exists (blob ++ pk), (mkHdlc (Some []) false (h_frames h' ++ [p])).
  split; [by apply send_many_snoc|]. split; [by rewrite feed_app, Hf, bind_of_Ok|].
  split; [by right|]. simpl. by rewrite Hfr, app_assoc.
Qed.

(** ** The receive loop *)

(** Feeding only adds frames. *)
Lemma feed_byte_mono h b h' : feed_byte h b = Ok h' -> exists l, h_frames h' = h_frames h ++ l.
Proof.
  destruct (Z.eqb_spec b FLAG) as [->|Hb].
  { destruct (feed_flag h) as (junk & -> & _). intros [= <-]. by exists junk. }
  unfold feed_byte. rewrite (proj2 (Z.eqb_neq _ _)) by done. intros H. exists []. rewrite app_nil_r.
  destruct (h_frame h); [|by injection H as <-]. destruct (h_escaped h); [by injection H as <-|].
  destruct (b =? ESCAPE); by injection H as <-.
Qed.

Lemma feed_mono d : forall h h', feed h d = Ok h' -> exists l, h_frames h' = h_frames h ++ l.
Proof.
  induction d as [|b d IH]; intros h h'; unfold feed; cbn [foldM].
  { intros [= <-]. exists []. by rewrite app_nil_r. }
  intros (h1 & H1 & H2)%bind_Ok. destruct (feed_byte_mono _ _ _ H1) as [l1 Hl1].
  destruct (IH _ _ H2) as [l2 Hl2]. exists (l1 ++ l2). by rewrite Hl2, Hl1, app_assoc.
Qed.

(** What the queue holds is drained first, the rest comes from the pipe. *)
Definition with_frames (h : hdlc) (fs : list (list Z)) : hdlc := mkHdlc (h_frame h) (h_escaped h) fs.

Lemma feed_with_frames d : forall h h' fs0 fs,
  feed (with_frames h (fs0 ++ fs)) d = Ok h' ->
  exists l, h_frames h' = fs0 ++ fs ++ l
    /\ feed (with_frames h fs) d = Ok (with_frames h' (fs ++ l)).
Proof.
  assert (forall b h h' fs0 fs, feed_byte (with_frames h (fs0 ++ fs)) b = Ok h' ->
    exists l, h_frames h' = fs0 ++ fs ++ l /\ feed_byte (with_frames h fs) b = Ok (with_frames h' (fs ++ l))) as Hb.
  { intros b h h' fs0 fs. unfold feed_byte, with_frames, deliver. cbn [h_frame h_escaped h_frames].
    destruct (b =? FLAG).
    - destruct (h_frame h) as [[|x frame]|]; cbn [h_frame h_escaped h_frames].
      + intros [= <-]. exists []. by rewrite !app_nil_r.
      + destruct (_ <? 2); [intros [= <-]; exists []; by rewrite !app_nil_r|].
        destruct (is_valid_Ok (x :: frame)) as [[] ->]; rewrite !bind_of_Ok; cbn [h_frame h_escaped h_frames];
          intros [= <-]; [eexists [_]; rewrite !app_assoc; done|exists []; by rewrite !app_nil_r].
      + intros [= <-]. exists []. by rewrite !app_nil_r.
    - destruct (h_frame h); [destruct (h_escaped h); [|destruct (b =? ESCAPE)]|];
        intros [= <-]; exists []; by rewrite !app_nil_r. }
  induction d as [|b d IH]; intros h h' fs0 fs; unfold feed; cbn [foldM].
  { intros [= <-]. exists []. by rewrite !app_nil_r. }
  intros (h1 & H1 & H2)%bind_Ok. destruct (Hb b h h1 fs0 fs H1) as (l1 & Hl1 & Hf1).
  assert (h1 = with_frames h1 (fs0 ++ (fs ++ l1))) as Heq by (destruct h1; simpl in *; by rewrite Hl1).
  rewrite Heq in H2. destruct (IH h1 h' fs0 (fs ++ l1) H2) as (l2 & Hl2 & Hf2).
  exists (l1 ++ l2). rewrite Hf1, bind_of_Ok. rewrite <- app_assoc in Hl2, Hf2. done.
Qed.


(** Receiving as many frames as the stream delivers. *)
Lemma recv_many_stream pipe : forall fs h h',
  Forall (fun c => c <> []) pipe -> feed h (concat pipe) = Ok h' -> h_frames h' = fs ->
  exists h'', recv_many (length fs) h pipe = Ok (fs, h'').
Proof.
  induction pipe as [|c pipe IHp]; intros fs; induction fs as [|f fs IHf]; intros h h' Hne Hfeed Hfs;
    try (by eexists).
  - injection Hfeed as <-. cbn [length recv_many recv]. rewrite Hfs, bind_of_Ok.
    destruct (IHf (with_frames h fs) (with_frames h fs)) as (h'' & Hr); [done..|].
    unfold with_frames in Hr. rewrite Hr. by eexists.
  - cbn [length recv_many]. destruct (h_frames h) as [|g gs] eqn:Hg.
    + apply Forall_cons in Hne as [Hc Hne]. destruct c as [|b c]; [done|].
      cbn [concat] in Hfeed. rewrite feed_app in Hfeed. apply bind_Ok in Hfeed as (h1 & H1 & H2).
      destruct (IHp (f :: fs) h1 h' Hne H2 Hfs) as (h'' & Hr).
      cbn [recv]. rewrite Hg, H1, bind_of_Ok. exists h''. exact Hr.
    + assert (h = with_frames h ([g] ++ gs)) as Heq by (destruct h; simpl in *; by rewrite Hg).
      rewrite Heq in Hfeed. destruct (feed_with_frames _ _ _ _ _ Hfeed) as (l & Hl & Hf').
      rewrite Hl in Hfs. injection Hfs as <- <-.
      destruct (IHf (with_frames h gs) (with_frames h' (gs ++ l)) Hne Hf' eq_refl) as (h'' & Hr).
      cbn [recv]. rewrite Hg, bind_of_Ok. unfold with_frames in Hr. rewrite Hr. by eexists.
Qed.

(** Only flags and escapes of the reserved bytes reach the line. *)
Lemma escape_byte_safe b : is_byte b -> Forall (fun x => x = ESCAPE \/ (x ∉ ESCAPED_BYTES)) (escape_byte b).
Proof.
  intros _. unfold escape_byte. case_bool_decide as Hb; [|apply Forall_singleton; by right].
  constructor; [by left|]. apply Forall_singleton. right.
  assert (Forall (fun b => bool_decide (Z.lxor b ESCAPE_MANGLE ∈ ESCAPED_BYTES) = false) ESCAPED_BYTES) as Hall
    by (repeat constructor).
  rewrite Forall_forall in Hall. specialize (Hall b Hb). by apply bool_decide_eq_false in Hall.
Qed.

Lemma escape_safe d : bytes_ok d -> Forall (fun x => x = ESCAPE \/ (x ∉ ESCAPED_BYTES)) (escape d).
Proof.
  induction 1 as [|b d Hb _ IH]; [constructor|]. change (escape (b :: d)) with (escape_byte b ++ escape d).
  apply Forall_app. split; [by apply escape_byte_safe|done].
Qed.

(** ** Properties *)

(** C28: datagrams sent back to back and read from the pipe in whatever chunks
    it delivers come out whole, in order, unchanged, the empty datagram
    included, from a receiver between frames. *)
Theorem hdlc_transports_datagrams payloads pipe h :
  idle h -> h_frames h = [] -> Forall (fun c => c <> []) pipe ->
  send_many payloads = Ok (concat pipe) ->
  exists h', recv_many (length payloads) h pipe = Ok (payloads, h').
Proof.
  intros Hi Hf Hne Hs. destruct (feed_packets h payloads Hi) as (blob & h' & Hs' & Hfeed & _ & Hfr).
  assert (blob = concat pipe) as -> by congruence. rewrite Hf in Hfr.
  by apply (recv_many_stream pipe payloads h h').
Qed.

Lemma hdlc_transports_datagrams_witness :
  exists blob h', send_many [[1; 0x7e; 3]; []] = Ok blob
    /\ recv_many 2 hdlc_init [take 4 blob; drop 4 blob] = Ok ([[1; 0x7e; 3]; []], h').
Proof.
  destruct (send_many [[1; 0x7e; 3]; []]) as [blob|] eqn:E; [|vm_compute in E; discriminate].
  destruct (hdlc_transports_datagrams [[1; 0x7e; 3]; []] [take 4 blob; drop 4 blob] hdlc_init) as (h' & Hr).
  - by left.
  - done.
  - vm_compute in E. injection E as <-. repeat constructor; done.
  - rewrite E. simpl. by rewrite app_nil_r, take_drop.
  - exists blob, h'. exact (conj eq_refl Hr).
Defined.

(** Whatever the receiver's state, noise on the line included, a whole
    packet resynchronises it: the payload is delivered after at most one
    frame made of what came before. *)
Theorem hdlc_resynchronises h p :
  exists pk junk h', packetize p = Ok pk /\ feed h pk = Ok h' /\ idle h'
    /\ h_frames h' = h_frames h ++ junk ++ [p] /\ (length junk <= 1)%nat.
Proof.
  destruct (feed_packet h p) as (pk & junk & Hp & Hf & Hj & _). eexists pk, junk, _.
  split; [done|]. split; [exact Hf|]. split; [by right|]. done.
Qed.

(** Between the two flags, a packet of bytes holds no reserved byte but
    the escape itself: no flag, no ETX, no XON or XOFF in either parity. *)
Theorem packet_is_line_safe p :
  bytes_ok p ->
  exists body, packetize p = Ok ([FLAG] ++ body ++ [FLAG])
    /\ Forall (fun x => x = ESCAPE \/ (x ∉ ESCAPED_BYTES)) body.
Proof.
  intros Hp. destruct (fcs_frame p) as (f & Hf & _ & Hb & _). exists (escape (p ++ f)).
  split; [unfold packetize; by rewrite Hf|]. apply escape_safe, bytes_ok_app. done.
Qed.

Lemma packet_is_line_safe_witness :
  exists body, packetize [0x11; 0x7d] = Ok ([FLAG] ++ body ++ [FLAG])
    /\ Forall (fun x => x = ESCAPE \/ (x ∉ ESCAPED_BYTES)) body.
Proof. exact (packet_is_line_safe [0x11; 0x7d] ltac:(repeat constructor; done)). Defined.

(** The header layer gives back the datagram with the address and control
    bytes it was sent with, or the defaults, reduced to bytes; a datagram too
    short to hold a header is refused. *)
Theorem hdlc_header_roundtrip dflt context data :
  header_recv (header_send dflt context data)
  = Ok (data, mkAddr (address (default dflt context) mod 256) (control (default dflt context) mod 256))
  /\ (zlen data < 2 -> header_recv data = Err RuntimeError).
Proof.
  split.
  - unfold header_recv, header_send. cbn [app]. rewrite (proj2 (Z.ltb_ge _ _)) by (simpl length; lia).
    rewrite (index_lookup _ 0 (Z.land (address (default dflt context)) 0xff)), bind_of_Ok by done.
    rewrite (index_lookup _ 1 (Z.land (control (default dflt context)) 0xff)), bind_of_Ok by done.
    rewrite slice_from_nonneg by lia. change 0xff with (Z.ones 8). by rewrite !Z.land_ones by lia.
  - intros Hl. unfold header_recv. by rewrite (proj2 (Z.ltb_lt _ _)).
Qed.

Lemma hdlc_header_roundtrip_witness :
  header_recv (header_send (mkAddr 0 0x13) None [7]) = Ok ([7], mkAddr 0 0x13)
  /\ header_recv [7] = Err RuntimeError.
Proof.
  split; [exact (proj1 (hdlc_header_roundtrip (mkAddr 0 0x13) None [7]))|].
  apply (hdlc_header_roundtrip (mkAddr 0 0x13) None [7]). done.
Defined.
