(* ===== verification/MemoryMap.v ===== *)
(** * Memory images (src/acrobe/memory_map.py)

    A [MemoryMap] is a list of (address, bytes) chunks with metadata; later
    chunks shadow earlier ones.  Modelled: collection of the chunks from a node
    tree, composition, clipping, merging, page alignment, reading, and the flat
    binary writer.  The Intel HEX writer is in [Ihex].

    [byte_at] is what an image holds at an address; the operations are
    specified through it. *)

From stdpp Require Import strings.
From S2P Require Import Prelude.

Open Scope Z_scope.

(** ** Data *)

Abbreviation chunk := (Z * list Z)%type.

(** Metadata values are integers here (only the entry point is ever read). *)
Abbreviation metadata := (gmap string Z).

Record MemoryMap : Type := mkMap {
  chunks : list chunk;
  info : metadata;
  sources : list string
}.

Definition empty_map : MemoryMap := mkMap [] ∅ [].

(** A started node: the bytes it reads when it is [Readable], its load address
    when it is [Addressable], its metadata and its children. *)
Inductive node : Type :=
  mkNode (path : string) (readable : option (list Z)) (addressable : option Z)
         (meta : metadata) (children : list node).

Definition node_path (n : node) : string := let '(mkNode p _ _ _ _) := n in p.
Definition node_bytes (n : node) : option (list Z) := let '(mkNode _ r _ _ _) := n in r.
Definition node_address (n : node) : option Z := let '(mkNode _ _ a _ _) := n in a.
Definition node_metadata (n : node) : metadata := let '(mkNode _ _ _ m _) := n in m.
Definition node_children (n : node) : list node := let '(mkNode _ _ _ _ k) := n in k.

(** ** Collection *)

(** The chunk of a node that is both readable and addressable. *)
Definition node_chunk (n : node) : option chunk :=
  match node_address n, node_bytes n with
  | Some a, Some d => Some (a, d)
  | _, _ => None
  end.

(** [addressable_descendants], the top of the stack first. *)
Fixpoint descendants_loop (fuel : nat) (stack : list node) : result (list chunk) :=
  match fuel, stack with
  | _, [] => Ok []
  | O, _ :: _ => Err OutOfFuel
  | S fuel, n :: stack =>
      rest ← descendants_loop fuel (node_children n ++ stack);
      Ok (option_list (node_chunk n) ++ rest)
  end.

Fixpoint node_size (n : node) : nat :=
  S (list_sum (map node_size (node_children n))).

Definition addressable_descendants (root : node) : result (list chunk) :=
  descendants_loop (node_size root) [root].

(** [MemoryMap.from_node] *)
Definition from_node (n : node) (offset : Z) : result MemoryMap :=
  found ← addressable_descendants n;
  let collected := (fun '(a, d) => (a + offset, d)) <$> found in
  let collected :=
    match collected, node_bytes n with
    | [], Some d => [(offset, d)]
    | _, _ => collected
    end in
  Ok (mkMap collected (node_metadata n) [node_path n]).

(** ** Operations *)

Definition append (m : MemoryMap) (address : Z) (data : list Z) : MemoryMap :=
  mkMap (chunks m ++ [(address, data)]) (info m) (sources m).

Definition map_size (m : MemoryMap) : Z :=
  foldr (fun c acc => zlen (snd c) + acc) 0 (chunks m).

Definition chunk_end (c : chunk) : Z := fst c + zlen (snd c).

Definition address (m : MemoryMap) : result Z :=
  match chunks m with
  | [] => Err ValueError
  | c :: cs => Ok (foldl (fun acc c => Z.min acc (fst c)) (fst c) cs)
  end.

Definition end_ (m : MemoryMap) : result Z :=
  match chunks m with
  | [] => Err ValueError
  | c :: cs => Ok (foldl (fun acc c => Z.max acc (chunk_end c)) (chunk_end c) cs)
  end.

Definition entry (m : MemoryMap) : option Z := info m !! "entry"%string.

Definition set_entry (m : MemoryMap) (a : option Z) : MemoryMap :=
  mkMap (chunks m)
    (match a with
     | None => delete "entry"%string (info m)
     | Some a => <["entry"%string := a]> (info m)
     end) (sources m).

(** [__add__] and [__iadd__]: the right operand's metadata wins. *)
Definition add (a b : MemoryMap) : MemoryMap :=
  mkMap (chunks a ++ chunks b) (info b ∪ info a) (sources a ++ sources b).

(** One chunk of [within]. *)
Definition clip (b e : Z) (c : chunk) : list chunk :=
  let '(addr, data) := c in
  let seg_end := addr + zlen data in
  if (seg_end <=? b) || (e <=? addr) then []
  else
    let start := Z.max addr b in
    let stop := Z.min seg_end e in
    let offset := start - addr in
    let length := stop - start in
    [(start, slice data offset (offset + length))].

Definition within (m : MemoryMap) (b e : Z) : MemoryMap :=
  mkMap (chunks m ≫= clip b e) (info m) (sources m).

(** The loop of [simplified]: the chunks that are complete, the current one. *)
Definition merge_step (st : list chunk * chunk) (c : chunk) : list chunk * chunk :=
  let '(out, (cur_addr, cur_data)) := st in
  let '(addr, data) := c in
  let cur_end := cur_addr + zlen cur_data in
  if addr <=? cur_end then
    let new_end := Z.max cur_end (addr + zlen data) in
    let cur_data :=
      if cur_end <? new_end
      then cur_data ++ replicate (Z.to_nat (new_end - cur_end)) 0 else cur_data in
    let offset := addr - cur_addr in
    (out, (cur_addr, slice_assign cur_data offset (offset + zlen data) data))
  else (out ++ [(cur_addr, cur_data)], (addr, data)).

Definition simplified_chunks (cs : list chunk) : list chunk :=
  match sort_by fst cs with
  | [] => []
  | c :: cs => let '(out, cur) := foldl merge_step ([], c) cs in out ++ [cur]
  end.

Definition simplified (m : MemoryMap) : MemoryMap :=
  mkMap (simplified_chunks (chunks m)) (info m) (sources m).

(** One chunk of [paged]. *)
Definition page_chunk (page_size : Z) (fill : list Z) (c : chunk) : result chunk :=
  let '(addr, data) := c in
  _ ← guard_or (negb (page_size =? 0)) ZeroDivisionError;
  let page_start := addr / page_size * page_size in
  let page_end := (addr + zlen data + page_size - 1) / page_size * page_size in
  let total := page_end - page_start in
  _ ← guard_or (negb (zlen fill =? 0)) ZeroDivisionError;
  let count := (total + zlen fill - 1) / zlen fill in
  let page_data := slice_to (concat (replicate (Z.to_nat count) fill)) total in
  let offset := addr - page_start in
  Ok (page_start, slice_assign page_data offset (offset + zlen data) data).

Definition page_step (page_size : Z) (fill : list Z) (out : list chunk) (c : chunk)
    : result (list chunk) :=
  c' ← page_chunk page_size fill c; Ok (out ++ [c']).

Definition paged (m : MemoryMap) (page_size : Z) (fill : list Z) : result MemoryMap :=
  out ← foldM (page_step page_size fill) [] (chunks (simplified m));
  Ok (mkMap out (info m) (sources m)).

(** The loop body of [read]. *)
Definition read_step (address size : Z) (result : list Z) (c : chunk) : list Z :=
  let '(addr, data) := c in
  let seg_end := addr + zlen data in
  let start := Z.max address addr in
  let stop := Z.min (address + size) seg_end in
  if stop <=? start then result
  else
    let src_offset := start - addr in
    let dst_offset := start - address in
    let length := stop - start in
    slice_assign result dst_offset (dst_offset + length)
      (slice data src_offset (src_offset + length)).

Definition read (m : MemoryMap) (address size : Z) : result (list Z) :=
  _ ← guard_or (0 <=? size) ValueError;
  Ok (foldl (read_step address size) (replicate (Z.to_nat size) 0) (chunks m)).

(** [save_bin]: the content of the file. *)
Definition save_bin (m : MemoryMap) : result (list Z) :=
  match chunks (simplified m) with
  | [] => Ok []
  | [c] => Ok (snd c)
  | _ => Err ValueError
  end.

(** ** What an image holds *)

Definition chunk_byte (c : chunk) (x : Z) : option Z :=
  if fst c <=? x then snd c !! Z.to_nat (x - fst c) else None.

(** The last chunk that covers the address counts. *)
Fixpoint byte_at (cs : list chunk) (x : Z) : option Z :=
  match cs with
  | [] => None
  | c :: cs => byte_at cs x ∪ chunk_byte c x
  end.

(** Chunks that overlap agree. *)
Definition consistent (cs : list chunk) : Prop :=
  forall c c' x v v', c ∈ cs -> c' ∈ cs ->
    chunk_byte c x = Some v -> chunk_byte c' x = Some v' -> v = v'.

(** In address order, a gap between any two. *)
Definition separated (cs : list chunk) : Prop :=
  StronglySorted (fun c c' => chunk_end c < fst c') cs.

Lemma chunk_byte_Some c x v :
  chunk_byte c x = Some v -> fst c <= x < chunk_end c.
Proof.
  unfold chunk_byte, chunk_end. destruct (Z.leb_spec (fst c) x); [|done].
  intros Hv%lookup_lt_Some. lia.
Qed.

Lemma chunk_byte_None c x : ~ (fst c <= x < chunk_end c) -> chunk_byte c x = None.
Proof.
  intros H. destruct (chunk_byte c x) eqn:E; [|done]. by apply chunk_byte_Some in E.
Qed.

Lemma byte_at_app l1 l2 x : byte_at (l1 ++ l2) x = byte_at l2 x ∪ byte_at l1 x.
Proof.
  induction l1 as [|c l1 IH]; simpl; [by destruct (byte_at l2 x)|]. rewrite IH.
  by destruct (byte_at l2 x), (byte_at l1 x), (chunk_byte c x).
Qed.

Lemma none_union {A} (a : option A) : None ∪ a = a.
Proof. by destruct a. Qed.

Lemma some_union {A} (v : A) a : Some v ∪ a = Some v.
Proof. by destruct a. Qed.

Lemma option_union_Some_inv {A} (a b : option A) v :
  a ∪ b = Some v -> a = Some v \/ a = None /\ b = Some v.
Proof. destruct a, b; cbv; naive_solver. Qed.

Lemma byte_at_elem cs x v : byte_at cs x = Some v -> exists c, c ∈ cs /\ chunk_byte c x = Some v.
Proof.
  induction cs as [|c cs IH]; simpl; [done|]. intros [H|[_ H]]%option_union_Some_inv.
  - destruct (IH H) as (c'&?&?). exists c'. split; [by right|done].
  - exists c. split; [by left|done].
Qed.

Lemma byte_at_None cs x : byte_at cs x = None <-> Forall (fun c => chunk_byte c x = None) cs.
Proof.
  induction cs as [|c cs IH]; simpl; [by rewrite Forall_nil|]. rewrite Forall_cons, <- IH.
  destruct (byte_at cs x), (chunk_byte c x); naive_solver.
Qed.

(** Order does not matter between chunks that agree. *)
Lemma byte_at_consistent cs x v :
  consistent cs -> byte_at cs x = Some v <-> exists c, c ∈ cs /\ chunk_byte c x = Some v.
Proof.
  intros Hc. split; [apply byte_at_elem|]. intros (c&Hin&Hv).
  destruct (byte_at cs x) as [v'|] eqn:E.
  - apply byte_at_elem in E as (c'&Hin'&Hv'). f_equal. by apply (Hc c' c x).
  - rewrite byte_at_None, Forall_forall in E. by rewrite E in Hv.
Qed.

Lemma byte_at_perm cs cs' x : cs ≡ₚ cs' -> consistent cs -> byte_at cs x = byte_at cs' x.
Proof.
  intros Hp Hc. assert (consistent cs') as Hc'.
  { intros c c' y v v' H1 H2. apply Hc; by rewrite Hp. }
  apply option_eq. intros v. rewrite !byte_at_consistent by done. by setoid_rewrite Hp.
Qed.

(** ** Reading *)

Lemma read_step_spec address size buf c f :
  0 <= size -> buf = f <$> seqZ address size ->
  read_step address size buf c = (fun x => default (f x) (chunk_byte c x)) <$> seqZ address size.
Proof.
  intros Hs ->. destruct c as [addr data]. cbn [read_step].
  assert (length (f <$> seqZ address size) = Z.to_nat size) as Hl
    by (rewrite length_fmap, length_seqZ; done).
  destruct (Z.leb_spec (Z.min (address + size) (addr + zlen data)) (Z.max address addr)).
  - apply list_fmap_ext. intros i x [-> ?]%lookup_seqZ.
    rewrite chunk_byte_None; [done|]. unfold chunk_end. simpl. lia.
  - set (start := Z.max address addr) in *. set (stop := Z.min _ _) in *.
    assert (length (slice data (start - addr) (start - addr + (stop - start)))
            = Z.to_nat (stop - start)) as Hd by (rewrite length_slice; lia).
    apply list_eq. intros i. rewrite lookup_slice_assign by lia.
    rewrite !list_lookup_fmap. destruct (seqZ address size !! i) as [x|] eqn:Hx; simpl.
    + apply lookup_seqZ in Hx as [-> Hi]. unfold chunk_byte. simpl.
      destruct (Z.leb_spec (start - address) (Z.of_nat i)),
        (Z.ltb_spec (Z.of_nat i) (start - address + (stop - start))); simpl.
      * rewrite lookup_slice by lia. destruct (Z.leb_spec addr (address + Z.of_nat i)); [|lia].
        replace (Z.to_nat (start - addr) + Z.to_nat (Z.of_nat i - (start - address)))%nat
          with (Z.to_nat (address + Z.of_nat i - addr)) by lia.
        destruct (lookup_lt_is_Some_2 data (Z.to_nat (address + Z.of_nat i - addr))) as [v ->]; [lia|done].
      * destruct (Z.leb_spec addr (address + Z.of_nat i)); [|done].
        by rewrite (lookup_ge_None_2 data) by lia.
      * destruct (Z.leb_spec addr (address + Z.of_nat i)); [lia|done].
      * lia.
    + apply lookup_ge_None in Hx. rewrite length_seqZ in Hx.
      destruct (_ && _) eqn:E; [|done]. apply andb_true_iff in E as [?%Z.leb_le ?%Z.ltb_lt]. lia.
Qed.

Lemma read_loop address size cs : 0 <= size -> forall f,
  foldl (read_step address size) (f <$> seqZ address size) cs =
  (fun x => default (f x) (byte_at cs x)) <$> seqZ address size.
Proof.
  intros Hs. induction cs as [|c cs IH]; intros f; [done|]. cbn [foldl].
  rewrite (read_step_spec _ _ _ c f) by done. rewrite IH. apply list_fmap_ext. intros i x _.
  simpl. by destruct (byte_at cs x), (chunk_byte c x).
Qed.

Lemma read_spec m a n :
  0 <= n -> read m a n = Ok ((fun x => default 0 (byte_at (chunks m) x)) <$> seqZ a n).
Proof.
  intros Hn. unfold read. rewrite (proj2 (Z.leb_le 0 n)) by done. cbn [guard_or].
  rewrite bind_of_Ok. f_equal. rewrite <- read_loop by done. f_equal.
  apply list_eq. intros i. rewrite list_lookup_fmap.
  destruct (decide (i < Z.to_nat n)%nat).
  - rewrite lookup_replicate_2 by done. by rewrite lookup_seqZ_lt by lia.
  - rewrite lookup_ge_None_2 by (rewrite length_replicate; lia). by rewrite lookup_seqZ_ge by lia.
Qed.

(** ** Clipping *)

Lemma clip_byte b e c x :
  byte_at (clip b e c) x = if (b <=? x) && (x <? e) then chunk_byte c x else None.
Proof.
  destruct c as [addr data]. cbn [clip].
  destruct (Z.leb_spec (addr + zlen data) b); cbn [orb].
  { destruct (_ && _) eqn:E; [|done]. apply andb_true_iff in E as [?%Z.leb_le ?%Z.ltb_lt].
    rewrite chunk_byte_None; [done|]. unfold chunk_end. simpl. lia. }
  destruct (Z.leb_spec e addr).
  { destruct (_ && _) eqn:E; [|done]. apply andb_true_iff in E as [?%Z.leb_le ?%Z.ltb_lt].
    rewrite chunk_byte_None; [done|]. simpl. lia. }
  set (start := Z.max addr b). set (stop := Z.min (addr + zlen data) e).
  cbn [byte_at]. rewrite none_union. unfold chunk_byte. cbn [fst snd].
  rewrite slice_nonneg by lia.
  destruct (Z.leb_spec start x); [|destruct (Z.leb_spec b x), (Z.leb_spec addr x); simpl; try done; [lia|by destruct (x <? e)]].
  rewrite lookup_take, lookup_drop.
  destruct (Z.leb_spec b x), (Z.leb_spec addr x); try lia. cbn [andb].
  replace (Z.to_nat (start - addr) + Z.to_nat (x - start))%nat with (Z.to_nat (x - addr)) by lia.
  case_decide; destruct (Z.ltb_spec x e); try done; try lia.
  by rewrite lookup_ge_None_2 by lia.
Qed.

Lemma within_byte m b e x :
  byte_at (chunks (within m b e)) x =
  if (b <=? x) && (x <? e) then byte_at (chunks m) x else None.
Proof.
  unfold within. cbn [chunks]. induction (chunks m) as [|c cs IH]; [by destruct (_ && _)|].
  rewrite bind_cons, byte_at_app, IH, clip_byte. cbn [byte_at]. by destruct (_ && _).
Qed.

Lemma within_bounds m b e :
  b <= e -> Forall (fun c => b <= fst c /\ chunk_end c <= e) (chunks (within m b e)).
Proof.
  intros Hbe. unfold within. cbn [chunks]. apply Forall_bind, Forall_true. intros [a d].
  cbv beta iota zeta delta [clip compose].
  destruct (Z.leb_spec (a + zlen d) b), (Z.leb_spec e a); cbn [orb]; try by constructor.
  constructor; [|done]. unfold chunk_end. cbn [fst snd].
  rewrite slice_nonneg, length_take, length_drop by lia. lia.
Qed.

(** ** Merging *)

Lemma merge_step_spec out cur c x :
  fst cur <= fst c ->
  let '(out', cur') := merge_step (out, cur) c in
  byte_at (out' ++ [cur']) x = byte_at (out ++ [cur; c]) x.
Proof.
  destruct cur as [ca cd], c as [a d]. cbn [merge_step fst]. intros Hle.
  destruct (Z.leb_spec a (ca + zlen cd)); [|by rewrite <- app_assoc].
  set (ne := Z.max (ca + zlen cd) (a + zlen d)).
  set (cd' := if ca + zlen cd <? ne then _ else _).
  assert (zlen cd' = ne - ca /\ forall i, (i < length cd)%nat -> cd' !! i = cd !! i) as [Hl Hpre].
  { subst cd'. destruct (Z.ltb_spec (ca + zlen cd) ne); [|split; [lia|done]].
    rewrite length_app, length_replicate. split; [lia|]. intros. by rewrite lookup_app_l. }
  rewrite !byte_at_app. f_equal. cbn [byte_at]. rewrite !none_union.
  unfold chunk_byte. cbn [fst snd].
  destruct (Z.leb_spec ca x).
  - rewrite lookup_slice_assign by lia. rewrite Z2Nat.id by lia.
    replace (Z.to_nat (x - ca - (a - ca))) with (Z.to_nat (x - a)) by lia.
    destruct (Z.leb_spec (a - ca) (x - ca)), (Z.leb_spec a x); try lia; cbn [andb].
    + destruct (Z.ltb_spec (x - ca) (a - ca + zlen d)).
      * destruct (lookup_lt_is_Some_2 d (Z.to_nat (x - a))) as [v ->]; [lia|].
        by rewrite some_union.
      * rewrite (lookup_ge_None_2 d) by lia. rewrite none_union.
        destruct (decide (Z.to_nat (x - ca) < length cd)%nat) as [Hi|]; [by rewrite Hpre|].
        rewrite !lookup_ge_None_2 by lia. done.
    + rewrite none_union. apply Hpre. lia.
  - destruct (Z.leb_spec a x); [lia|done].
Qed.

Lemma merge_step_shape out cur c :
  fst cur <= fst c -> separated (out ++ [cur]) ->
  let '(out', cur') := merge_step (out, cur) c in separated (out' ++ [cur']) /\ fst cur' <= fst c.
Proof.
  destruct cur as [ca cd], c as [a d]. cbn [merge_step fst]. intros Hle Hs.
  destruct (Z.leb_spec a (ca + zlen cd)).
  - split; [|done]. unfold separated in *.
    apply StronglySorted_app in Hs as (H1&H2&H3). apply StronglySorted_app.
    split_and!; [|done|repeat constructor].
    intros c0 c1 Hc0 ->%list_elem_of_singleton. cbn [fst]. by apply (H1 c0 (ca, cd)); [|by left].
  - split; [|done]. unfold separated in *. apply StronglySorted_app. split_and!; [|done|repeat constructor].
    intros c0 c1 Hc0 ->%list_elem_of_singleton.
    apply StronglySorted_app in Hs as (H1&_&_). unfold chunk_end. simpl.
    apply elem_of_app in Hc0 as [Hc0| ->%list_elem_of_singleton]; [|simpl; lia].
    specialize (H1 c0 (ca, cd) Hc0 (list_elem_of_here _ _)). unfold chunk_end in H1. simpl in H1. lia.
Qed.

Lemma merge_loop cs : forall out cur,
  StronglySorted (fun c c' => fst c <= fst c') (cur :: cs) -> separated (out ++ [cur]) ->
  let '(out', cur') := foldl merge_step (out, cur) cs in
  separated (out' ++ [cur']) /\ forall x, byte_at (out' ++ [cur']) x = byte_at (out ++ cur :: cs) x.
Proof.
  induction cs as [|c cs IH]; intros out cur Hs Hsep; [done|]. cbn [foldl].
  apply StronglySorted_cons in Hs as [Hcur Hs]. apply Forall_cons in Hcur as [Hc _].
  pose proof (merge_step_shape out cur c Hc Hsep) as Hshape.
  pose proof (fun x => merge_step_spec out cur c x Hc) as Hbyte.
  destruct (merge_step (out, cur) c) as [out' cur'] eqn:E. destruct Hshape as [Hsep' Hle].
  specialize (IH out' cur'). destruct (foldl merge_step (out', cur') cs) as [o' k'].
  destruct IH as [H1 H2]; [|done|].
  - apply StronglySorted_cons in Hs as [Hc' Hs]. apply StronglySorted_cons. split; [|done].
    eapply Forall_impl; [exact Hc'|]. simpl. lia.
  - split; [done|]. intros x. rewrite H2.
    change (cur' :: cs) with ([cur'] ++ cs). change (cur :: c :: cs) with ([cur; c] ++ cs).
    rewrite !app_assoc, !(byte_at_app _ cs), Hbyte. done.
Qed.

Lemma simplified_spec cs :
  separated (simplified_chunks cs)
  /\ forall x, byte_at (simplified_chunks cs) x = byte_at (sort_by fst cs) x.
Proof.
  unfold simplified_chunks. pose proof (sort_by_sorted fst cs) as Hs.
  destruct (sort_by fst cs) as [|c l]; [split; [constructor|done]|].
  pose proof (merge_loop l [] c Hs) as H. destruct (foldl merge_step ([], c) l).
  apply H. repeat constructor.
Qed.

Lemma simplified_byte cs x : consistent cs -> byte_at (simplified_chunks cs) x = byte_at cs x.
Proof.
  intros Hc. rewrite (proj2 (simplified_spec cs)). symmetry.
  apply byte_at_perm; [|done]. symmetry. apply sort_by_perm.
Qed.

Lemma separated_consistent cs : separated cs -> consistent cs.
Proof.
  unfold separated. induction 1 as [|c cs Hs IH Hc]; intros c1 c2 x v v' H1 H2; [by inversion H1|].
  rewrite Forall_forall in Hc. intros Hv Hv'.
  apply elem_of_cons in H1 as [-> |H1]; apply elem_of_cons in H2 as [-> |H2];
    [congruence| | |exact (IH c1 c2 x v v' H1 H2 Hv Hv')].
  - apply Hc in H2. apply chunk_byte_Some in Hv, Hv'. lia.
  - apply Hc in H1. apply chunk_byte_Some in Hv, Hv'. lia.
Qed.

Lemma separated_ascending cs :
  separated cs -> StronglySorted (fun c c' : chunk => fst c <= fst c') cs.
Proof.
  unfold separated. induction 1 as [|c cs Hs IH Hc]; constructor; [done|].
  eapply Forall_impl; [exact Hc|]. unfold chunk_end. simpl. lia.
Qed.

Lemma merge_separated cs : forall out cur,
  separated (cur :: cs) ->
  let '(out', cur') := foldl merge_step (out, cur) cs in out' ++ [cur'] = out ++ cur :: cs.
Proof.
  induction cs as [|c cs IH]; intros out cur Hs; cbn [foldl]; [done|].
  apply StronglySorted_cons in Hs as [Hc Hs]. destruct cur as [ca cd], c as [a d].
  cbn [merge_step]. apply Forall_cons in Hc as [Hc _]. unfold chunk_end in Hc. simpl in Hc.
  destruct (Z.leb_spec a (ca + zlen cd)); [lia|].
  specialize (IH (out ++ [(ca, cd)]) (a, d) Hs). by rewrite <- app_assoc in IH.
Qed.

(** Merging changes nothing in an image that is already merged. *)
Lemma simplified_separated cs : separated cs -> simplified_chunks cs = cs.
Proof.
  intros Hs. unfold simplified_chunks. rewrite sort_by_id by by apply separated_ascending.
  destruct cs as [|c cs]; [done|]. pose proof (merge_separated cs [] c Hs) as H.
  by destruct (foldl merge_step ([], c) cs).
Qed.

(** Merging only moves bytes of the image. *)
Lemma simplified_bytes cs :
  Forall (fun c : chunk => bytes_ok (snd c)) cs ->
  Forall (fun c : chunk => bytes_ok (snd c)) (simplified_chunks cs).
Proof.
  intros Hb. destruct (simplified_spec cs) as [Hsep Hbyte]. rewrite !Forall_forall in *. intros c Hc.
  apply Forall_lookup_2. intros i v Hv.
  assert (byte_at (simplified_chunks cs) (fst c + Z.of_nat i) = Some v) as H.
  { apply byte_at_consistent; [by apply separated_consistent|]. exists c. split; [done|].
    unfold chunk_byte. rewrite (proj2 (Z.leb_le _ _)) by lia.
    by replace (Z.to_nat (fst c + Z.of_nat i - fst c)) with i by lia. }
  rewrite Hbyte in H. apply byte_at_elem in H as (c'&Hc'&Hv'). rewrite sort_by_perm in Hc'.
  specialize (Hb c' Hc'). unfold chunk_byte in Hv'. case_match; [|done]. by eapply Forall_lookup_1.
Qed.

(** ** Page alignment *)

Lemma lookup_concat_replicate {A} (l : list A) n (i : nat) :
  (i < n * length l)%nat -> concat (replicate n l) !! i = l !! (i mod length l)%nat.
Proof.
  revert i. induction n as [|n IH]; intros i Hi; [lia|]. cbn [replicate concat].
  destruct (decide (i < length l)%nat).
  - by rewrite lookup_app_l, Nat.mod_small by done.
  - rewrite lookup_app_r, IH by lia. f_equal.
    rewrite <- (Nat.Div0.mod_add (i - length l) 1 (length l)). f_equal. lia.
Qed.

Lemma length_concat_replicate {A} (l : list A) n :
  length (concat (replicate n l)) = (n * length l)%nat.
Proof. induction n; simpl; rewrite ?length_app; lia. Qed.

(** The fill pattern restarts at each page chunk. *)
Definition filler (fill : list Z) (start x : Z) : option Z :=
  fill !! Z.to_nat ((x - start) mod zlen fill).

Definition page_start (ps : Z) (c : chunk) : Z := fst c / ps * ps.
Definition page_end (ps : Z) (c : chunk) : Z := (chunk_end c + ps - 1) / ps * ps.

Lemma page_bounds ps c :
  0 < ps -> page_start ps c <= fst c /\ chunk_end c <= page_end ps c.
Proof.
  intros. unfold page_start, page_end, chunk_end. pose proof (Z.mod_pos_bound (fst c) ps).
  pose proof (Z.mod_pos_bound (fst c + zlen (snd c) + ps - 1) ps).
  pose proof (Z.div_mod (fst c) ps). pose proof (Z.div_mod (fst c + zlen (snd c) + ps - 1) ps). nia.
Qed.

Lemma page_chunk_spec ps fill c :
  0 < ps -> fill <> [] ->
  exists d, page_chunk ps fill c = Ok (page_start ps c, d)
    /\ zlen d = page_end ps c - page_start ps c
    /\ forall x, page_start ps c <= x < page_end ps c ->
         chunk_byte (page_start ps c, d) x = chunk_byte c x ∪ filler fill (page_start ps c) x.
Proof.
  intros Hps Hf. pose proof (page_bounds ps c Hps) as [Hlo Hhi].
  destruct c as [a d]. unfold page_chunk.
  destruct (Z.eqb_spec ps 0); [lia|]. cbn [guard_or negb]. rewrite bind_of_Ok.
  assert (0 < zlen fill) by (destruct fill; [done|simpl; lia]).
  destruct (Z.eqb_spec (zlen fill) 0); [lia|]. cbn [guard_or negb]. rewrite bind_of_Ok.
  change (a / ps * ps) with (page_start ps (a, d)).
  change ((a + zlen d + ps - 1) / ps * ps) with (page_end ps (a, d)).
  set (p := page_start ps (a, d)) in *. set (q := page_end ps (a, d)) in *.
  unfold chunk_end in Hhi. cbn [fst snd] in *.
  set (k := Z.to_nat _). assert (q - p <= Z.of_nat k * zlen fill) as Hn.
  { subst k. rewrite Z2Nat.id by (apply Z.div_pos; lia).
    pose proof (Z.div_mod (q - p + zlen fill - 1) (zlen fill)).
    pose proof (Z.mod_pos_bound (q - p + zlen fill - 1) (zlen fill)). nia. }
  set (base := slice_to _ _). assert (zlen base = q - p) as Hb.
  { subst base. rewrite slice_to_nonneg, length_take, length_concat_replicate by lia. lia. }
  eexists. split; [done|]. split; [rewrite length_slice_assign; lia|].
  intros x Hx. unfold chunk_byte. cbn [fst snd]. destruct (Z.leb_spec p x); [|lia].
  rewrite lookup_slice_assign, Z2Nat.id by lia.
  assert (base !! Z.to_nat (x - p) = filler fill p x) as Hfill.
  { subst base. rewrite slice_to_nonneg by lia. rewrite lookup_take_lt by lia.
    rewrite lookup_concat_replicate by lia. unfold filler. f_equal.
    rewrite Z2Nat.inj_mod, Nat2Z.id by lia. done. }
  replace (Z.to_nat (x - p - (a - p))) with (Z.to_nat (x - a)) by lia.
  destruct (Z.leb_spec (a - p) (x - p)), (Z.leb_spec a x); try lia; cbn [andb];
    [|by rewrite Hfill, none_union].
  destruct (Z.ltb_spec (x - p) (a - p + zlen d)).
  - destruct (lookup_lt_is_Some_2 d (Z.to_nat (x - a))) as [v ->]; [lia|by rewrite some_union].
  - by rewrite (lookup_ge_None_2 d), none_union, Hfill by lia.
Qed.

(** No two chunks share a page. *)
Definition pages_apart (ps : Z) (cs : list chunk) : Prop :=
  StronglySorted (fun c c' => page_end ps c <= page_start ps c') cs.

(** What one page-aligned chunk holds. *)
Definition page_byte (ps : Z) (fill : list Z) (c : chunk) (x : Z) : option Z :=
  if (page_start ps c <=? x) && (x <? page_end ps c)
  then chunk_byte c x ∪ filler fill (page_start ps c) x else None.

Definition page_of (ps : Z) (fill : list Z) (c c' : chunk) : Prop :=
  fst c' = page_start ps c /\ chunk_end c' = page_end ps c
  /\ forall x, chunk_byte c' x = page_byte ps fill c x.

Lemma paged_loop ps fill cs :
  0 < ps -> fill <> [] -> forall out,
  exists out', foldM (page_step ps fill) out cs = Ok (out ++ out') /\ Forall2 (page_of ps fill) cs out'.
Proof.
  intros Hps Hf. induction cs as [|c cs IH]; intros out.
  - exists []. rewrite app_nil_r. by split.
  - destruct (page_chunk_spec ps fill c Hps Hf) as (d&E&Hl&Hd).
    destruct (IH (out ++ [(page_start ps c, d)])) as (out'&E'&HF).
    exists ((page_start ps c, d) :: out'). split.
    + cbn [foldM]. assert (page_step ps fill out c = Ok (out ++ [(page_start ps c, d)])) as ->
        by (unfold page_step; by rewrite E).
      by rewrite bind_of_Ok, E', <- app_assoc.
    + constructor; [|done]. unfold page_of, chunk_end. cbn [fst snd].
      split_and!; [done|lia|]. intros x. unfold page_byte.
      destruct (Z.leb_spec (page_start ps c) x), (Z.ltb_spec x (page_end ps c)); cbn [andb].
      * by apply Hd.
      * apply chunk_byte_None. unfold chunk_end. cbn [fst snd]. lia.
      * apply chunk_byte_None. cbn [fst]. lia.
      * apply chunk_byte_None. cbn [fst]. lia.
Qed.

Lemma paged_byte ps fill cs out :
  0 < ps -> Forall2 (page_of ps fill) cs out -> pages_apart ps cs -> forall x,
  byte_at out x =
    match list_find (fun c => page_start ps c <= x < page_end ps c) cs with
    | Some (_, c) => chunk_byte c x ∪ filler fill (page_start ps c) x
    | None => None
    end.
Proof.
  intros Hps HF Hap x. induction HF as [|c c' cs out (H1&H2&H3) HF IH]; [done|].
  apply StronglySorted_cons in Hap as [Hc Hap]. specialize (IH Hap). cbn [byte_at].
  rewrite IH, H3. unfold page_byte. cbn [list_find].
  destruct (decide (page_start ps c <= x < page_end ps c)) as [Hx|Hx].
  - assert (list_find (fun c => page_start ps c <= x < page_end ps c) cs = None) as ->.
    { apply list_find_None. eapply Forall_impl; [exact Hc|]. simpl. lia. }
    rewrite none_union, (proj2 (Z.leb_le _ _)), (proj2 (Z.ltb_lt _ _)) by lia. done.
  - assert ((page_start ps c <=? x) && (x <? page_end ps c) = false) as ->
      by (apply andb_false_iff; rewrite Z.leb_gt, Z.ltb_ge; lia).
    destruct (list_find _ cs) as [[? c0]|]; cbn; [|done]. by destruct (_ ∪ _).
Qed.

(** ** Collection from a tree *)

Fixpoint preorder (n : node) : list chunk :=
  option_list (node_chunk n) ++ flat_map preorder (node_children n).

Lemma node_size_unfold n : node_size n = S (list_sum (map node_size (node_children n))).
Proof. by destruct n. Qed.

Lemma preorder_unfold n : preorder n = option_list (node_chunk n) ++ flat_map preorder (node_children n).
Proof. by destruct n. Qed.

Lemma descendants_loop_spec fuel : forall stack,
  (list_sum (map node_size stack) <= fuel)%nat ->
  descendants_loop fuel stack = Ok (flat_map preorder stack).
Proof.
  induction fuel as [|fuel IH]; intros [|n stack] Hf; try done.
  - simpl in Hf. rewrite node_size_unfold in Hf. lia.
  - cbn [map list_sum foldr] in Hf. rewrite node_size_unfold in Hf. cbn [descendants_loop].
    rewrite IH by (rewrite map_app, list_sum_app; unfold list_sum in *; lia). rewrite bind_of_Ok. f_equal.
    cbn [flat_map]. rewrite flat_map_app, preorder_unfold, <- app_assoc. done.
Qed.

Lemma addressable_descendants_spec root : addressable_descendants root = Ok (preorder root).
Proof.
  unfold addressable_descendants. rewrite descendants_loop_spec.
  - cbn [flat_map]. by rewrite app_nil_r.
  - cbn [map list_sum foldr]. lia.
Qed.

(** ** Theorems *)

(** Merging gives chunks in address order with a gap between any two, and
    merging again changes nothing.  At every address it holds what the chunks
    hold when they are laid down in address order; when overlapping chunks
    agree, every read gives the same bytes before and after. *)
Theorem simplified_preserves_image m :
  separated (chunks (simplified m)) /\ simplified (simplified m) = simplified m
  /\ (forall x, byte_at (chunks (simplified m)) x = byte_at (sort_by fst (chunks m)) x)
  /\ (consistent (chunks m) -> forall a n, read (simplified m) a n = read m a n).
Proof.
  destruct (simplified_spec (chunks m)) as [Hs Hb]. split_and!; [done| |done|].
  - unfold simplified. cbn [chunks info sources]. by rewrite simplified_separated.
  - intros Hc a n. destruct (Z.le_gt_cases 0 n).
    + rewrite !read_spec by done. f_equal. apply list_fmap_ext. intros i x _.
      unfold simplified. cbn [chunks]. by rewrite simplified_byte.
    + unfold read. by rewrite (proj2 (Z.leb_gt 0 n)).
Qed.

Lemma simplified_preserves_image_witness :
  read (simplified (mkMap [(8, [3; 4]); (4, [1; 2; 9; 9])] ∅ [])) 4 6 = Ok [1; 2; 9; 9; 3; 4].
Proof.
  destruct (simplified_preserves_image (mkMap [(8, [3; 4]); (4, [1; 2; 9; 9])] ∅ [])) as (_&_&_&H).
  rewrite H; [vm_compute; reflexivity|].
  intros c c' x v v' H1 H2 Hv Hv'.
  pose proof (chunk_byte_Some _ _ _ Hv). pose proof (chunk_byte_Some _ _ _ Hv').
  apply elem_of_cons in H1 as [-> |H1%list_elem_of_singleton];
    apply elem_of_cons in H2 as [-> |H2%list_elem_of_singleton]; subst;
    unfold chunk_end in *; simpl in *; first [congruence|lia].
Defined.

(** Clipping an image to a window keeps exactly what the window holds: a
    byte inside is what it was, an address outside holds nothing, no chunk
    sticks out, and reading within the window is reading the image. *)
Theorem within_clips m b e :
  b <= e ->
  (forall x, byte_at (chunks (within m b e)) x =
     if (b <=? x) && (x <? e) then byte_at (chunks m) x else None)
  /\ Forall (fun c => b <= fst c /\ chunk_end c <= e) (chunks (within m b e))
  /\ forall a n, 0 <= n -> b <= a -> a + n <= e -> read (within m b e) a n = read m a n.
Proof.
  intros Hbe. split_and!.
  - apply within_byte.
  - by apply within_bounds.
  - intros a n Hn Ha He. rewrite !read_spec by done. f_equal. apply list_fmap_ext.
    intros i x [-> Hi]%lookup_seqZ. rewrite within_byte.
    by rewrite (proj2 (Z.leb_le _ _)), (proj2 (Z.ltb_lt _ _)) by lia.
Qed.

Lemma within_clips_witness :
  chunks (within (mkMap [(0, [1; 2; 3; 4])] ∅ []) 1 3) = [(1, [2; 3])]
  /\ read (within (mkMap [(0, [1; 2; 3; 4])] ∅ []) 1 3) 1 2 = Ok [2; 3].
Proof.
  split; [vm_compute; reflexivity|].
  destruct (within_clips (mkMap [(0, [1; 2; 3; 4])] ∅ []) 1 3) as (_&_&H); [lia|].
  rewrite H by lia. vm_compute; reflexivity.
Defined.

(** Page alignment widens each merged chunk to whole pages; when no two
    chunks share a page, the result holds the image's bytes, the fill pattern in
    the rest of the touched pages and nothing elsewhere. *)
Theorem paged_widens_to_pages m ps fill :
  0 < ps -> fill <> [] ->
  exists m', paged m ps fill = Ok m'
    /\ Forall2 (page_of ps fill) (chunks (simplified m)) (chunks m')
    /\ Forall (fun c => fst c mod ps = 0 /\ zlen (snd c) mod ps = 0) (chunks m')
    /\ (pages_apart ps (chunks (simplified m)) -> forall x,
          byte_at (chunks m') x =
          match list_find (fun c => page_start ps c <= x < page_end ps c) (chunks (simplified m)) with
          | Some (_, c) => chunk_byte c x ∪ filler fill (page_start ps c) x
          | None => None
          end).
Proof.
  intros Hps Hf. unfold paged.
  destruct (paged_loop ps fill (chunks (simplified m)) Hps Hf []) as (out&->&HF).
  rewrite bind_of_Ok. eexists. split; [done|]. cbn [chunks app].
  split_and!; [done| |by intros; apply paged_byte].
  clear -HF Hps. induction HF as [|c c' cs out (H1&H2&_) HF IH]; constructor; [|done].
  unfold chunk_end in H2. rewrite H1 in *. split; [apply Z.mod_mul; lia|].
  replace (zlen (snd c')) with (((chunk_end c + ps - 1) / ps - fst c / ps) * ps)
    by (unfold page_start, page_end in H2; lia).
  apply Z.mod_mul. lia.
Qed.

Lemma paged_widens_to_pages_witness :
  paged (mkMap [(5, [1; 2])] ∅ []) 4 [255] = Ok (mkMap [(4, [255; 1; 2; 255])] ∅ [])
  /\ exists m', paged (mkMap [(5, [1; 2])] ∅ []) 4 [255] = Ok m' /\
     Forall (fun c => fst c mod 4 = 0 /\ zlen (snd c) mod 4 = 0) (chunks m').
Proof.
  split; [vm_compute; reflexivity|].
  destruct (paged_widens_to_pages (mkMap [(5, [1; 2])] ∅ []) 4 [255]) as (m'&E&_&H&_); [lia|done|].
  exists m'. exact (conj E H).
Defined.

(** When two chunks share a page, the page is emitted twice and the fill of
    the second hides the data of the first: reading the aligned image gives the
    fill where the image holds data. *)
Theorem paged_fill_hides_data :
  let m := mkMap [(0, [1]); (2, [2])] ∅ [] in
  exists m', paged m 4 [255] = Ok m'
    /\ chunks m' = [(0, [1; 255; 255; 255]); (0, [255; 255; 2; 255])]
    /\ read m 0 1 = Ok [1] /\ read m' 0 1 = Ok [255]
    /\ read (simplified m') 0 4 = Ok [255; 255; 2; 255].
Proof. intros m. eexists. split; [reflexivity|]. split_and!; reflexivity. Qed.

(** Merging resolves overlaps by address, reading by position: a later chunk
    at a lower address wins a read and loses a merge. *)
Lemma simplified_overrides_by_address :
  let m := mkMap [(4, [1; 1]); (3, [2; 2; 2])] ∅ [] in
  read m 3 3 = Ok [2; 2; 2] /\ read (simplified m) 3 3 = Ok [2; 1; 1].
Proof. vm_compute. done. Qed.
