(* ===== verification/Ihex.v ===== *)
(** * Intel HEX (src/acrobe/memory_map.py, [save_hex]; src/acrobe/vfs/ihex.py)

    The writer of memory images and the reader of the virtual file system.
    Files are lists of bytes, text is a list of code points.

    [save_hex_ihex_start]: what the reader makes of a file the writer wrote. *)

From stdpp Require Import strings.
From S2P Require Import Prelude MemoryMap.

Open Scope Z_scope.

(** ** The writer *)

(** One digit of [bytes.hex().upper()]. *)
Definition hex_digit (d : Z) : Z := if d <? 10 then 48 + d else 55 + d.

Definition hex_byte (b : Z) : list Z := [hex_digit (b / 16); hex_digit (b mod 16)].

Definition checksum (record : list Z) : Z :=
  Z.land (Z.lnot (sum_bytes record) + 1) 0xff.

(** [hex_record] *)
Definition hex_record (rtype address : Z) (data : list Z) : result (list Z) :=
  _ ← guard_or (zlen data <? 256) ValueError;
  let record := [zlen data; Z.land (Z.shiftr address 8) 0xff; Z.land address 0xff; rtype] ++ data in
  Ok (58 :: ((record ++ [checksum record]) ≫= hex_byte)).

(** The lines of one chunk from [offset] on; [last_upper] is the upper half
    address that is in force. *)
Fixpoint hex_lines (fuel : nat) (addr : Z) (data : list Z) (offset : Z) (last_upper : option Z)
    : result (list (list Z) * option Z) :=
  if zlen data <=? offset then Ok ([], last_upper)
  else match fuel with
  | O => Err OutOfFuel
  | S fuel =>
      let full_addr := addr + offset in
      let upper := Z.land (Z.shiftr full_addr 16) 0xffff in
      head ← (if bool_decide (Some upper = last_upper) then Ok []
              else up ← to_bytes_be 2 upper; line ← hex_record 0x04 0x0000 up; Ok [line]);
      let lower := Z.land full_addr 0xffff in
      let chunk_size := Z.min 16 (zlen data - offset) in
      line ← hex_record 0x00 lower (slice data offset (offset + chunk_size));
      '(rest, last_upper) ← hex_lines fuel addr data (offset + chunk_size) (Some upper);
      Ok (head ++ line :: rest, last_upper)
  end.

Definition hex_chunk (st : list (list Z) * option Z) (c : chunk)
    : result (list (list Z) * option Z) :=
  let '(lines, last_upper) := st in
  '(more, last_upper) ← hex_lines (length (snd c)) (fst c) (snd c) 0 last_upper;
  Ok (lines ++ more, last_upper).

(** [save_hex]: the content of the file. *)
Definition save_hex (m : MemoryMap) : result (list Z) :=
  '(lines, _) ← foldM hex_chunk ([], None) (sort_by fst (chunks (simplified m)));
  eof ← hex_record 0x01 0x0000 [];
  Ok ((lines ++ [eof]) ≫= fun l => l ++ [10]).

(** ** The reader *)

(** [decode("ascii", errors="replace")] *)
Definition decode_ascii (b : Z) : Z := if b <? 128 then b else 0xfffd.

(** [str.splitlines] on text without code points between 128 and 0xfffd; the
    current line is reversed. *)
Definition is_break (c : Z) : bool := existsb (Z.eqb c) [10; 11; 12; 13; 28; 29; 30].

Fixpoint splitlines (line : list Z) (text : list Z) : list (list Z) :=
  match text with
  | [] => match line with [] => [] | _ => [reverse line] end
  | c :: text =>
      if is_break c then
        reverse line ::
          match text with
          | c' :: text' =>
              if (c =? 13) && (c' =? 10) then splitlines [] text' else splitlines [] text
          | [] => splitlines [] text
          end
      else splitlines (c :: line) text
  end.

(** [str.strip] *)
Definition is_space (c : Z) : bool := ((9 <=? c) && (c <=? 13)) || ((28 <=? c) && (c <=? 32)).

Fixpoint lstrip (l : list Z) : list Z :=
  match l with c :: l' => if is_space c then lstrip l' else l | [] => [] end.
Definition strip (l : list Z) : list Z := reverse (lstrip (reverse (lstrip l))).

Definition hex_val (c : Z) : option Z :=
  if (48 <=? c) && (c <=? 57) then Some (c - 48)
  else if (65 <=? c) && (c <=? 70) then Some (c - 55)
  else if (97 <=? c) && (c <=? 102) then Some (c - 87)
  else None.

(** [bytes.fromhex]: spaces may separate the bytes. *)
Definition is_hex_space (c : Z) : bool := (c =? 32) || ((9 <=? c) && (c <=? 13)).

Fixpoint fromhex (l : list Z) : result (list Z) :=
  match l with
  | [] => Ok []
  | c :: l =>
      if is_hex_space c then fromhex l
      else match hex_val c, l with
      | Some h, c' :: l' =>
          match hex_val c' with
          | Some k => rest ← fromhex l'; Ok (16 * h + k :: rest)
          | None => Err ValueError
          end
      | _, _ => Err ValueError
      end
  end.

(** The record on a stripped, non-empty line: its address, type and data. *)
Definition parse_record (line : list Z) : result (Z * Z * list Z) :=
  match line with
  | 58 :: rest =>
      raw ← fromhex rest;
      _ ← guard_or (5 <=? zlen raw) ValueError;
      byte_count ← index raw 0;
      hi ← index raw 1;
      lo ← index raw 2;
      rtype ← index raw 3;
      let address := Z.lor (Z.shiftl hi 8) lo in
      let data := slice raw 4 (4 + byte_count) in
      sum ← index raw (4 + byte_count);
      _ ← guard_or (zlen data =? byte_count) ValueError;
      _ ← guard_or (sum =? checksum (slice_to raw (4 + byte_count))) ValueError;
      Ok (address, rtype, data)
  | _ => Err ValueError
  end.

Record parser : Type := mkParser {
  p_regions : list chunk;
  p_address : option Z;
  p_data : list Z;
  p_extended : Z;
  p_entry : option Z
}.

Definition parser_init : parser := mkParser [] None [] 0 None.

(** The region being collected is closed when it holds data.  (It has an
    address then.) *)
Definition close (p : parser) : list chunk :=
  match p_data p, p_address p with
  | _ :: _, Some a => p_regions p ++ [(a, p_data p)]
  | _, _ => p_regions p
  end.

(** A data record at its full address. *)
Definition take_data (p : parser) (full : Z) (data : list Z) : parser :=
  if match p_address p with Some a => full =? a + zlen (p_data p) | None => false end
  then mkParser (p_regions p) (p_address p) (p_data p ++ data) (p_extended p) (p_entry p)
  else mkParser (close p) (Some full) data (p_extended p) (p_entry p).

Definition set_extended (p : parser) (e : Z) : parser :=
  mkParser (p_regions p) (p_address p) (p_data p) e (p_entry p).

(** One record; [None] at the end-of-file record. *)
Definition take_record (p : parser) (address rtype : Z) (data : list Z) : result (option parser) :=
  if rtype =? 0x00 then Ok (Some (take_data p (p_extended p + address) data))
  else if rtype =? 0x01 then Ok None
  else if rtype =? 0x02 then
    hi ← index data 0; lo ← index data 1;
    Ok (Some (set_extended p (Z.shiftl (Z.lor (Z.shiftl hi 8) lo) 4)))
  else if rtype =? 0x04 then
    hi ← index data 0; lo ← index data 1;
    Ok (Some (set_extended p (Z.shiftl (Z.lor (Z.shiftl hi 8) lo) 16)))
  else if rtype =? 0x05 then
    Ok (Some (mkParser (p_regions p) (p_address p) (p_data p) (p_extended p) (Some (from_be data))))
  else Err ValueError.

Fixpoint parse_lines (p : parser) (lines : list (list Z)) : result parser :=
  match lines with
  | [] => Ok p
  | line :: lines =>
      match strip line with
      | [] => parse_lines p lines
      | line =>
          '(address, rtype, data) ← parse_record line;
          next ← take_record p address rtype data;
          match next with
          | None => Ok p
          | Some p => parse_lines p lines
          end
      end
  end.

(** [Ihex.__parse] *)
Definition parse (text : list Z) : result (list chunk * option Z) :=
  p ← parse_lines parser_init (splitlines [] text);
  Ok (close p, p_entry p).

(** [IhexRegion.read] *)
Definition region_read (data : list Z) (offset size : Z) : result (list Z) :=
  _ ← guard_or (negb ((offset <? 0) || (zlen data <? offset))) ValueError;
  let n := Z.min size (zlen data - offset) in
  Ok (if n <=? 0 then [] else slice data offset (offset + n)).

(** [IhexRegion]: a leaf that reads as the region's bytes. *)
Definition region_node (c : chunk) : node :=
  mkNode "" (Some (snd c)) (Some (fst c)) ∅ [].

(** [Ihex.start]: the node with its children and metadata, started on the
    bytes of the file. *)
Definition ihex_start (path : string) (file : list Z) : result node :=
  '(regions, entry) ← parse (decode_ascii <$> file);
  _ ← guard_or (negb (bool_decide (regions = []))) NoMatch;
  min_addr ← address (mkMap regions ∅ []);
  max_end ← end_ (mkMap regions ∅ []);
  let meta := match entry with Some e => {["entry"%string := e]} | None => ∅ end in
  let meta := <["max_address"%string := max_end]> (<["min_address"%string := min_addr]>
                (<["region_count"%string := zlen regions]> meta)) in
  Ok (mkNode path None None meta [mkNode "region" None None ∅ (region_node <$> regions)]).

(** ** One record *)

Lemma hex_digit_val d : 0 <= d < 16 -> hex_val (hex_digit d) = Some d /\ is_hex_space (hex_digit d) = false
  /\ is_space (hex_digit d) = false /\ is_break (hex_digit d) = false /\ 0 <= hex_digit d < 128.
Proof.
  intros Hd. assert (d ∈ seqZ 0 16) as Hin by (apply elem_of_seqZ; lia). clear Hd.
  repeat (apply elem_of_cons in Hin as [-> |Hin]; [vm_compute; naive_solver|]). by inversion Hin.
Qed.

Lemma byte_nibbles b : is_byte b -> 0 <= b / 16 < 16 /\ 0 <= b mod 16 < 16.
Proof. unfold is_byte. intros. Z.div_mod_to_equations. lia. Qed.

Lemma fromhex_hex l : bytes_ok l -> fromhex (l ≫= hex_byte) = Ok l.
Proof.
  induction 1 as [|b l Hb Hl IH]; [done|]. destruct (byte_nibbles b Hb) as [Hh Hk].
  destruct (hex_digit_val _ Hh) as (Hv&Hs&_). destruct (hex_digit_val _ Hk) as (Hv'&_).
  cbn [mbind list_bind hex_byte app] in *. cbn [fromhex]. rewrite Hs, Hv, Hv', IH, bind_of_Ok.
  do 2 f_equal. pose proof (Z.div_mod b 16). lia.
Qed.

(** Characters of records: printable, no white space. *)
Definition plain (c : Z) : Prop := is_space c = false /\ is_break c = false /\ 0 <= c < 128.

Lemma hex_plain l : bytes_ok l -> Forall plain (l ≫= hex_byte).
Proof.
  intros Hl. apply Forall_bind. eapply Forall_impl; [exact Hl|]. intros b Hb. unfold compose, hex_byte.
  destruct (byte_nibbles b Hb) as [Hh Hk].
  destruct (hex_digit_val _ Hh) as (_&_&?&?&?). destruct (hex_digit_val _ Hk) as (_&_&?&?&?).
  constructor; [done|]. constructor; [done|]. constructor.
Qed.

Lemma lstrip_plain l : Forall plain l -> lstrip l = l.
Proof. destruct 1 as [|c l (Hc&_) _]; [done|]. cbn [lstrip]. by rewrite Hc. Qed.

Lemma strip_plain l : Forall plain l -> strip l = l.
Proof.
  intros Hl. unfold strip. rewrite (lstrip_plain l) by done.
  rewrite lstrip_plain by by apply Forall_reverse. apply reverse_involutive.
Qed.

Lemma checksum_byte l : is_byte (checksum l).
Proof.
  apply land_ff_byte.
Qed.

Lemma half_word a : 0 <= a < 2 ^ 16 -> Z.lor (Z.shiftl (Z.land (Z.shiftr a 8) 255) 8) (Z.land a 255) = a.
Proof.
  intros Ha. change 255 with (Z.ones 8). bitwise.
Qed.

Lemma hex_record_spec rtype address data :
  0 <= address < 2 ^ 16 -> is_byte rtype -> bytes_ok data -> zlen data < 256 ->
  exists line, hex_record rtype address data = Ok line
    /\ Forall plain line /\ strip line = line /\ line <> []
    /\ parse_record line = Ok (address, rtype, data).
Proof.
  intros Ha Hr Hd Hl. unfold hex_record. rewrite (proj2 (Z.ltb_lt _ _)) by done.
  cbn [guard_or]. rewrite bind_of_Ok.
  set (record := [zlen data; Z.land (Z.shiftr address 8) 255; Z.land address 255; rtype] ++ data).
  assert (bytes_ok record) as Hrec.
  { apply Forall_app. split; [|done]. repeat constructor; try apply land_ff_byte; try apply Hr; lia. }
  assert (bytes_ok (record ++ [checksum record])) as Hall
    by (apply Forall_app; split; [done|]; constructor; [apply checksum_byte|done]).
  assert (Forall plain (58 :: ((record ++ [checksum record]) ≫= hex_byte))) as Hplain
    by (constructor; [vm_compute; naive_solver|by apply hex_plain]).
  eexists. split_and!; [done|done|by apply strip_plain|done|].
  cbn [parse_record]. rewrite fromhex_hex, bind_of_Ok by done.
  assert (zlen (record ++ [checksum record]) = zlen data + 5) as Hlen
    by (unfold record; rewrite !length_app; simpl length; lia).
  rewrite (proj2 (Z.leb_le _ _)) by lia. cbn [guard_or]. rewrite bind_of_Ok.
  rewrite (index_lookup _ 0 (zlen data)), bind_of_Ok by (done || lia).
  rewrite (index_lookup _ 1 (Z.land (Z.shiftr address 8) 255)), bind_of_Ok by (done || lia).
  rewrite (index_lookup _ 2 (Z.land address 255)), bind_of_Ok by (done || lia).
  rewrite (index_lookup _ 3 rtype), bind_of_Ok by (done || lia).
  replace (slice (record ++ [checksum record]) 4 (4 + zlen data)) with data.
  2: { unfold record. rewrite <- app_assoc. symmetry. apply slice_app_mid; simpl length; lia. }
  erewrite index_lookup; [|lia|].
  2: { rewrite lookup_app_r by (unfold record; rewrite length_app; simpl length; lia).
       replace (_ - _)%nat with 0%nat by (unfold record; rewrite length_app; simpl length; lia). done. }
  rewrite bind_of_Ok, Z.eqb_refl. cbn [guard_or]. rewrite bind_of_Ok.
  rewrite slice_to_nonneg by lia. rewrite take_app_length'
    by (unfold record; rewrite length_app; simpl length; lia).
  rewrite Z.eqb_refl. cbn [guard_or]. rewrite bind_of_Ok. do 3 f_equal. by apply half_word.
Qed.

(** ** The lines of a file *)

Lemma splitlines_line line text : forall acc,
  Forall plain line -> splitlines acc (line ++ 10 :: text) = (reverse acc ++ line) :: splitlines [] text.
Proof.
  induction line as [|c line IH]; intros acc Hl; cbn [splitlines app].
  - rewrite app_nil_r. by destruct text.
  - apply Forall_cons in Hl as [(_&Hc&_) Hl]. rewrite Hc, IH by done.
    by rewrite reverse_cons, <- app_assoc.
Qed.

Lemma splitlines_lines lines :
  Forall (Forall plain) lines -> splitlines [] (lines ≫= fun l => l ++ [10]) = lines.
Proof.
  induction 1 as [|l lines Hl Hls IH]; [done|]. rewrite bind_cons, <- app_assoc.
  cbn [app]. by rewrite splitlines_line, IH.
Qed.

Lemma decode_plain l : Forall (fun c => 0 <= c < 128) l -> decode_ascii <$> l = l.
Proof.
  induction 1 as [|c l Hc Hl IH]; [done|]. rewrite fmap_cons, IH. f_equal.
  unfold decode_ascii. by rewrite (proj2 (Z.ltb_lt c 128)) by lia.
Qed.

(** ** Data records in sequence *)

Lemma take_data_app p a d1 d2 :
  take_data (take_data p a d1) (a + zlen d1) d2 = take_data p a (d1 ++ d2).
Proof.
  destruct p as [rs [pa|] pd e en]; unfold take_data; cbn [p_address p_data].
  - destruct (Z.eqb_spec a (pa + zlen pd)); cbn [p_address p_data p_regions p_extended p_entry].
    + rewrite (proj2 (Z.eqb_eq _ _)) by (rewrite length_app; lia). by rewrite app_assoc.
    + by rewrite Z.eqb_refl.
  - by rewrite Z.eqb_refl.
Qed.

Lemma take_data_set_extended p a d e :
  take_data (set_extended p e) a d = set_extended (take_data p a d) e.
Proof.
  unfold take_data, set_extended, close. cbn [p_address p_data p_regions p_extended p_entry].
  destruct (p_address p) as [pa|]; [by destruct (a =? _)|done].
Qed.

(** The effect of the lines of one chunk: its bytes are collected, unless there
    are none, and the upper address is left at [e]. *)
Definition collect (p : parser) (a : Z) (d : list Z) : parser :=
  match d with [] => p | _ => take_data p a d end.

(** The upper address in force. *)
Definition upper_ok (last_upper : option Z) (e : Z) : Prop :=
  match last_upper with Some u => e = Z.shiftl u 16 | None => True end.

Lemma parse_lines_record p line lines address rtype data :
  strip line = line -> line <> [] -> parse_record line = Ok (address, rtype, data) ->
  parse_lines p (line :: lines) =
  (next ← take_record p address rtype data;
   match next with None => Ok p | Some p => parse_lines p lines end).
Proof.
  intros Hs Hn Hp. cbn [parse_lines]. rewrite Hs. destruct line; [done|]. by rewrite Hp.
Qed.

Lemma split_address a : 0 <= a < 2 ^ 32 ->
  Z.shiftl (Z.land (Z.shiftr a 16) 0xffff) 16 + Z.land a 0xffff = a
  /\ 0 <= Z.land (Z.shiftr a 16) 0xffff < 2 ^ 16 /\ 0 <= Z.land a 0xffff < 2 ^ 16.
Proof.
  intros Ha. change 0xffff with (Z.ones 16). rewrite !Z.land_ones, Z.shiftl_mul_pow2, Z.shiftr_div_pow2 by lia.
  Z.div_mod_to_equations. lia.
Qed.

(** The record that sets the upper address, if one is needed. *)
Lemma upper_record_spec p u last_upper :
  0 <= u < 2 ^ 16 -> upper_ok last_upper (p_extended p) ->
  exists head,
    (if bool_decide (Some u = last_upper) then Ok []
     else up ← to_bytes_be 2 u; line ← hex_record 0x04 0x0000 up; Ok [line]) = Ok head
    /\ Forall (Forall plain) head
    /\ forall lines, parse_lines p (head ++ lines) = parse_lines (set_extended p (Z.shiftl u 16)) lines.
Proof.
  intros Hu Hlast. case_bool_decide as E.
  - subst last_upper. exists []. split_and!; [done|done|]. intros lines. cbn in *. subst.
    rewrite <- Hlast. by destruct p.
  - assert (to_bytes_be 2 u = Ok [u / 256; u mod 256]) as ->.
    { unfold to_bytes_be. rewrite to_bytes_le_Ok by (simpl; lia).
      change (Z.to_nat 2) with 2%nat. cbn [le_bytes fmap result_fmap reverse rev_append].
      f_equal. unfold reverse. cbn [rev_append].
      by rewrite (Z.mod_small (u / 256)) by (Z.div_mod_to_equations; lia). }
    rewrite bind_of_Ok.
    destruct (hex_record_spec 4 0 [u / 256; u mod 256]) as (line&->&Hp&Hs&Hn&Hr);
      [lia|vm_compute; naive_solver| |simpl; lia|].
    { repeat constructor; unfold is_byte; Z.div_mod_to_equations; lia. }
    rewrite bind_of_Ok. exists [line]. split_and!; [done|by constructor|]. intros lines. cbn [app].
    rewrite (parse_lines_record _ _ _ _ _ _ Hs Hn Hr). cbn [take_record Z.eqb].
    rewrite (index_lookup _ 0 (u / 256)), bind_of_Ok, (index_lookup _ 1 (u mod 256)), !bind_of_Ok
      by (done || lia).
    replace (Z.lor (Z.shiftl (u / 256) 8) (u mod 256)) with u; [done|].
    change 256 with (2 ^ 8). rewrite <- Z.shiftr_div_pow2 by lia. bitwise.
Qed.

Lemma collect_app p a d1 d2 e :
  d1 <> [] -> set_extended (collect (set_extended (take_data p a d1) e) (a + zlen d1) d2) e
  = set_extended (take_data p a (d1 ++ d2)) e.
Proof.
  intros Hd. destruct d2 as [|b d2]; [by rewrite app_nil_r|].
  cbn [collect]. rewrite take_data_set_extended, take_data_app. done.
Qed.

Lemma hex_lines_parse fuel addr data : forall offset last_upper p,
  bytes_ok data -> 0 <= addr -> addr + zlen data <= 2 ^ 32 ->
  0 <= offset <= zlen data -> (Z.to_nat (zlen data - offset) <= fuel)%nat ->
  upper_ok last_upper (p_extended p) ->
  exists lines last_upper' e,
    hex_lines fuel addr data offset last_upper = Ok (lines, last_upper')
    /\ Forall (Forall plain) lines /\ upper_ok last_upper' e
    /\ forall rest, parse_lines p (lines ++ rest) =
         parse_lines (set_extended (collect p (addr + offset) (drop (Z.to_nat offset) data)) e) rest.
Proof.
  induction fuel as [|fuel IH]; intros offset last_upper p Hb Ha Hend Ho Hf Hu.
  all: cbn [hex_lines]; destruct (Z.leb_spec (zlen data) offset) as [Hdone|Hmore].
  1, 3: exists [], last_upper, (p_extended p); split_and!; try done; intros rest;
    rewrite drop_ge by lia; by destruct p.
  - lia.
  - destruct (split_address (addr + offset)) as (Hfull&Hup&Hlo); [lia|].
    set (u := Z.land (Z.shiftr (addr + offset) 16) 0xffff) in *.
    destruct (upper_record_spec p u last_upper Hup Hu) as (head&->&Hhead&Hp1). rewrite bind_of_Ok.
    set (n := Z.min 16 (zlen data - offset)). set (d1 := slice data offset (offset + n)).
    assert (zlen d1 = n) as Hn by (unfold d1; rewrite length_slice; lia).
    destruct (hex_record_spec 0 (Z.land (addr + offset) 0xffff) d1) as (line&->&Hpl&Hs&Hne&Hr);
      [done|vm_compute; naive_solver|by apply bytes_ok_slice|lia|].
    rewrite bind_of_Ok.
    destruct (IH (offset + n) (Some u) (set_extended (take_data p (addr + offset) d1) (Z.shiftl u 16)))
      as (lines&lu&e&->&Hls&Hlu&Hp2); [done|done|done|lia|lia|done|].
    rewrite bind_of_Ok. eexists _, lu, e. split_and!; [done| |done|].
    { apply Forall_app; split; [done|by constructor]. }
    intros rest. rewrite <- app_assoc. cbn [app]. rewrite Hp1.
    rewrite (parse_lines_record _ _ _ _ _ _ Hs Hne Hr). cbn [take_record Z.eqb]. rewrite bind_of_Ok.
    cbn [set_extended p_extended]. rewrite Hfull, take_data_set_extended, Hp2. f_equal.
    assert (drop (Z.to_nat offset) data = d1 ++ drop (Z.to_nat (offset + n)) data) as ->.
    { unfold d1. rewrite slice_nonneg by lia.
      rewrite <- (take_drop (Z.to_nat (offset + n) - Z.to_nat offset) (drop (Z.to_nat offset) data)) at 1.
      f_equal. rewrite drop_drop. f_equal. lia. }
    assert (d1 <> []) as Hd1 by (intros H0; rewrite H0 in Hn; simpl in Hn; lia).
    replace (addr + (offset + n)) with (addr + offset + zlen d1) by lia.
    destruct (d1 ++ drop (Z.to_nat (offset + n)) data) eqn:E; [by apply app_eq_nil in E as [? _]|].
    rewrite <- E. cbn [collect].
    transitivity (set_extended (take_data p (addr + offset) (d1 ++ drop (Z.to_nat (offset + n)) data)) e);
      [|by rewrite E].
    rewrite <- (collect_app p (addr + offset) d1 _ e Hd1).
    destruct (drop (Z.to_nat (offset + n)) data); [done|]. cbn [collect].
    by rewrite !take_data_set_extended.
Qed.

(** All chunks. *)
Definition hex_ok (c : chunk) : Prop :=
  0 <= fst c /\ chunk_end c <= 2 ^ 32 /\ bytes_ok (snd c).

Lemma collect_set_extended p a d e : collect (set_extended p e) a d = set_extended (collect p a d) e.
Proof. destruct d; [done|]. apply take_data_set_extended. Qed.

Lemma hex_chunks_parse cs : forall lines last_upper p,
  Forall hex_ok cs -> upper_ok last_upper (p_extended p) ->
  exists more last_upper' e,
    foldM hex_chunk (lines, last_upper) cs = Ok (lines ++ more, last_upper')
    /\ Forall (Forall plain) more
    /\ forall rest, parse_lines p (more ++ rest) =
         parse_lines (set_extended (foldl (fun p c => collect p (fst c) (snd c)) p cs) e) rest.
Proof.
  induction cs as [|[a d] cs IH]; intros lines last_upper p Hok Hu.
  - exists [], last_upper, (p_extended p). rewrite app_nil_r. split_and!; [done|done|].
    intros rest. cbn. by destruct p.
  - apply Forall_cons in Hok as [(Ha&He&Hd) Hok]. unfold chunk_end in He. cbn [fst snd] in *.
    destruct (hex_lines_parse (length d) a d 0 last_upper p) as (l1&lu&e&E&Hl1&Hlu&Hp1);
      [done|done|done|lia|lia|done|].
    destruct (IH (lines ++ l1) lu (set_extended (collect p a d) e)) as (l2&lu'&e'&E'&Hl2&Hp2); [done|done|].
    exists (l1 ++ l2), lu', e'. split_and!.
    + cbn [foldM]. assert (hex_chunk (lines, last_upper) (a, d) = Ok (lines ++ l1, lu)) as ->
        by (unfold hex_chunk; cbn [fst snd]; by rewrite E).
      by rewrite bind_of_Ok, E', app_assoc.
    + by apply Forall_app.
    + intros rest. rewrite <- app_assoc, Hp1, Z.add_0_r, drop_0, Hp2. cbn [foldl fst snd]. f_equal.
      assert (forall q, set_extended (foldl (fun p c => collect p (fst c) (snd c)) (set_extended q e) cs) e'
              = set_extended (foldl (fun p c => collect p (fst c) (snd c)) q cs) e') as H; [|done].
      clear. induction cs as [|c cs IH]; intros q; [done|]. cbn [foldl].
      by rewrite collect_set_extended, IH.
Qed.

(** ** The regions of a file *)

(** Collecting separated chunks keeps them apart. *)
Lemma collect_separated cs : forall p,
  separated cs -> Forall (fun c : chunk => snd c <> []) cs ->
  (forall pa, p_address p = Some pa -> Forall (fun c : chunk => pa + zlen (p_data p) < fst c) cs) ->
  close (foldl (fun p c => collect p (fst c) (snd c)) p cs) = close p ++ cs.
Proof.
  induction cs as [|[a d] cs IH]; intros p Hs Hne Hp; cbn [foldl].
  { by rewrite app_nil_r. }
  apply StronglySorted_cons in Hs as [Hc Hs]. apply Forall_cons in Hne as [Hd Hne]. cbn [fst snd] in *.
  assert (collect p a d = mkParser (close p) (Some a) d (p_extended p) (p_entry p)) as ->.
  { destruct d as [|b d]; [done|]. cbn [collect]. unfold take_data.
    destruct (p_address p) as [pa|]; [|done]. specialize (Hp pa eq_refl).
    apply Forall_cons in Hp as [Hp _]. cbn [fst] in Hp. destruct (Z.eqb_spec a (pa + zlen (p_data p))); [lia|done]. }
  rewrite IH; [| done | done |].
  - unfold close at 1. cbn [p_data p_address p_regions]. destruct d; [done|]. by rewrite <- app_assoc.
  - cbn [p_address p_data]. intros pa [= <-]. exact Hc.
Qed.

Lemma collect_filter cs : forall p,
  foldl (fun p (c : chunk) => collect p (fst c) (snd c)) p cs =
  foldl (fun p c => collect p (fst c) (snd c)) p (filter (fun c : chunk => snd c <> []) cs).
Proof.
  induction cs as [|[a d] cs IH]; intros p; [done|]. rewrite filter_cons. cbn [foldl fst snd].
  destruct (decide (d <> [])) as [Hd|Hd].
  - cbn [foldl fst snd]. apply IH.
  - assert (d = []) as -> by (destruct d; [done|by destruct Hd]). apply IH.
Qed.

Lemma separated_filter (P : chunk -> Prop) `{!forall c, Decision (P c)} cs :
  separated cs -> separated (filter P cs).
Proof.
  unfold separated. induction 1 as [|c cs Hs IH Hc]; [constructor|]. rewrite filter_cons.
  destruct (decide (P c)); [|done]. constructor; [done|].
  rewrite Forall_forall in *. intros x [_ Hx]%list_elem_of_filter. by apply Hc.
Qed.

Lemma collect_entry cs : forall p, p_entry (foldl (fun p (c : chunk) => collect p (fst c) (snd c)) p cs) = p_entry p.
Proof.
  induction cs as [|[a d] cs IH]; intros p; [done|]. cbn [foldl]. rewrite IH.
  destruct d; [done|]. cbn [collect fst snd]. unfold take_data.
  destruct (p_address p) as [pa|]; [by destruct (a =? _)|done].
Qed.

(** What the reader makes of the file: the merged chunks that hold data. *)
Lemma save_hex_parse m :
  Forall hex_ok (chunks (simplified m)) ->
  exists file, save_hex m = Ok file
    /\ parse (decode_ascii <$> file) = Ok (filter (fun c : chunk => snd c <> []) (chunks (simplified m)), None).
Proof.
  intros Hok. destruct (simplified_spec (chunks m)) as [Hsep _]. unfold save_hex.
  rewrite sort_by_id by by apply separated_ascending.
  destruct (hex_chunks_parse (chunks (simplified m)) [] None parser_init Hok I) as (more&lu&e&->&Hpl&Hp).
  rewrite bind_of_Ok. cbv beta iota. cbn [app].
  destruct (hex_record_spec 1 0 []) as (eof&->&Hpe&Hse&Hne&Hre);
    [lia|vm_compute; naive_solver|done|simpl; lia|].
  rewrite bind_of_Ok. eexists. split; [done|]. unfold parse.
  assert (Forall (Forall plain) (more ++ [eof])) as Hall by (apply Forall_app; by repeat constructor).
  rewrite decode_plain.
  2: { apply Forall_bind. eapply Forall_impl; [exact Hall|]. intros l Hl. unfold compose.
       apply Forall_app. split; [|repeat constructor; lia].
       eapply Forall_impl; [exact Hl|]. by intros c (_&_&?). }
  rewrite splitlines_lines by done. rewrite Hp, (parse_lines_record _ _ _ _ _ _ Hse Hne Hre).
  match goal with |- context [take_record ?p 0 1 []] =>
    change (take_record p 0 1 []) with (Ok (@None parser)) end.
  rewrite !bind_of_Ok. set (q := foldl _ _ _).
  change (close (set_extended q e)) with (close q). change (p_entry (set_extended q e)) with (p_entry q).
  unfold q. rewrite collect_entry. do 2 f_equal.
  rewrite collect_filter, collect_separated; [done|by apply separated_filter| |done].
  apply Forall_forall. intros c [Hc _]%list_elem_of_filter. exact Hc.
Qed.

(** Merging keeps to the addresses and bytes of the image. *)
Lemma merge_step_hex_ok out cur c :
  fst cur <= fst c -> Forall hex_ok (out ++ [cur]) -> hex_ok c ->
  let '(out', cur') := merge_step (out, cur) c in Forall hex_ok (out' ++ [cur']) /\ fst cur' <= fst c.
Proof.
  destruct cur as [ca cd], c as [a d]. intros Hle Hout Hc. pose proof Hc as (Ha&He&Hb).
  apply Forall_app in Hout as [Hout Hcur]. apply Forall_cons in Hcur as [(Hca&Hce&Hcb) _].
  unfold chunk_end in *. cbn [fst snd] in *. cbn [merge_step].
  destruct (Z.leb_spec a (ca + zlen cd)); (split; [|cbn; lia]); apply Forall_app; (split; [|constructor; [|done]]).
  - done.
  - set (cd' := if _ : bool then _ else _).
    assert (bytes_ok cd' /\ zlen cd' = Z.max (ca + zlen cd) (a + zlen d) - ca) as [Hb' Hl'].
    { subst cd'. case_match eqn:E; [|rewrite Z.ltb_ge in E; split; [done|lia]].
      rewrite Z.ltb_lt in E. split; [|rewrite length_app, length_replicate; lia].
      apply Forall_app. split; [done|]. apply Forall_replicate. unfold is_byte. lia. }
    unfold hex_ok, chunk_end. cbn [fst snd]. rewrite length_slice_assign by lia. split_and!; [done|lia|].
    rewrite slice_assign_in by lia. apply Forall_app; split; [by apply Forall_take|].
    apply Forall_app; split; [done|by apply Forall_drop].
  - apply Forall_app. split; [done|]. constructor; [|done]. done.
  - done.
Qed.

Lemma simplified_hex_ok cs : Forall hex_ok cs -> Forall hex_ok (simplified_chunks cs).
Proof.
  intros Hcs. unfold simplified_chunks. pose proof (sort_by_sorted fst cs) as Hs.
  assert (Forall hex_ok (sort_by fst cs)) as Hok by by rewrite sort_by_perm.
  destruct (sort_by fst cs) as [|c l]; [constructor|]. clear Hcs cs.
  assert (forall out cur, StronglySorted (fun c c' : chunk => fst c <= fst c') (cur :: l) ->
            Forall hex_ok (out ++ [cur]) -> Forall hex_ok l ->
            let '(out', cur') := foldl merge_step (out, cur) l in Forall hex_ok (out' ++ [cur'])) as H.
  2: { apply Forall_cons in Hok as [Hc Hl]. specialize (H [] c Hs).
       destruct (foldl merge_step ([], c) l). apply H; [by constructor|done]. }
  clear. induction l as [|c l IH]; intros out cur Hs Hout Hl; [done|]. cbn [foldl].
  apply StronglySorted_cons in Hs as [Hcur Hs]. apply Forall_cons in Hcur as [Hc _], Hl as [Hcok Hl].
  pose proof (merge_step_hex_ok out cur c Hc Hout Hcok) as H.
  destruct (merge_step (out, cur) c) as [out' cur']. destruct H as [H1 H2]. apply IH; [|done|done].
  apply StronglySorted_cons in Hs as [Hc' Hs]. apply StronglySorted_cons. split; [|done].
  eapply Forall_impl; [exact Hc'|]. simpl. lia.
Qed.

Lemma byte_at_filter cs x :
  byte_at (filter (fun c : chunk => snd c <> []) cs) x = byte_at cs x.
Proof.
  induction cs as [|[a d] cs IH]; [done|]. rewrite filter_cons. cbn [snd].
  destruct (decide (d <> [])) as [Hd|Hd]; cbn [byte_at]; rewrite IH; [done|].
  assert (d = []) as -> by (destruct d; [done|by destruct Hd]).
  unfold chunk_byte. cbn. destruct (a <=? x); by destruct (byte_at cs x).
Qed.

(** A region read from its start for its size is the whole region, as
    [region_node] says. *)
Lemma region_read_all d : region_read d 0 (zlen d) = Ok d.
Proof.
  unfold region_read. rewrite (proj2 (Z.ltb_ge _ _)), (proj2 (Z.ltb_ge _ _)) by lia. cbn [orb negb guard_or].
  rewrite bind_of_Ok, Z.sub_0_r, Z.min_id. destruct (Z.leb_spec (zlen d) 0).
  - destruct d; [done|simpl in *; lia].
  - by rewrite slice_full by lia.
Qed.

(** The tree of a file: one leaf per region. *)
Lemma preorder_regions cs : flat_map preorder (region_node <$> cs) = cs.
Proof. induction cs as [|[a d] cs IH]; [done|]. cbn. cbn in IH. by rewrite IH. Qed.

Lemma ihex_start_spec path file regions entry :
  parse (decode_ascii <$> file) = Ok (regions, entry) -> regions <> [] ->
  exists n m, ihex_start path file = Ok n /\ from_node n 0 = Ok m /\ chunks m = regions
    /\ MemoryMap.entry m = entry.
Proof.
  intros Hp Hr. unfold ihex_start. rewrite Hp, bind_of_Ok. cbv beta iota.
  rewrite bool_decide_false by done. cbn [negb guard_or]. rewrite bind_of_Ok.
  destruct regions as [|c cs]; [done|]. cbn [address end_ chunks]. rewrite !bind_of_Ok.
  eexists. unfold from_node. rewrite addressable_descendants_spec, bind_of_Ok.
  set (n := mkNode path _ _ _ _).
  assert (preorder n = c :: cs) as Hn.
  { subst n. rewrite preorder_unfold. cbn [node_chunk node_address node_bytes node_children option_list app flat_map].
    rewrite preorder_unfold. cbn [node_chunk node_address node_bytes node_children option_list app].
    by rewrite preorder_regions, app_nil_r. }
  assert ((fun '(a, d) => (a + 0, d)) <$> (c :: cs) = c :: cs) as Hshift.
  { rewrite <- (list_fmap_id (c :: cs)) at 2. apply list_fmap_ext. intros i [a d] _. cbn. by rewrite Z.add_0_r. }
  eexists. split; [done|]. fold n. rewrite Hn, Hshift. split; [done|]. cbn [chunks]. split; [done|].
  unfold MemoryMap.entry, n. cbn [info node_metadata]. rewrite !lookup_insert_ne by done.
  destruct entry; [by rewrite lookup_singleton_eq|by rewrite lookup_empty].
Qed.

(** ** Acceptance of a record *)

Lemma checksum_sum l s :
  is_byte s -> (s =? checksum l) = ((sum_bytes l + s) mod 256 =? 0).
Proof.
  intros Hs. unfold checksum. change 255 with (Z.ones 8). rewrite Z.land_ones by lia.
  change (2 ^ 8) with 256. unfold is_byte in Hs.
  replace (Z.lnot (sum_bytes l) + 1) with (- sum_bytes l) by (unfold Z.lnot; lia).
  apply eq_iff_eq_true. rewrite !Z.eqb_eq. Z.div_mod_to_equations. lia.
Qed.

(** The bytes of a record decide: long enough for its count, and summing up to
    zero. *)
Lemma parse_record_spec n hi lo ty rest :
  bytes_ok (n :: hi :: lo :: ty :: rest) -> 1 <= zlen rest ->
  let raw := n :: hi :: lo :: ty :: rest in
  parse_record (58 :: (raw ≫= hex_byte)) =
  if zlen raw <=? 4 + n then Err IndexError
  else if sum_bytes (take (Z.to_nat (5 + n)) raw) mod 256 =? 0
  then Ok (Z.lor (Z.shiftl hi 8) lo, ty, take (Z.to_nat n) rest) else Err ValueError.
Proof.
  intros Hok Hrest raw. cbn [parse_record]. rewrite fromhex_hex, bind_of_Ok by done.
  assert (is_byte n) as Hn by by inversion Hok. unfold is_byte in Hn.
  assert (zlen raw = zlen rest + 4) as Hl by (unfold raw; simpl length; lia).
  rewrite (proj2 (Z.leb_le 5 (zlen raw))) by lia. cbn [guard_or]. rewrite bind_of_Ok.
  rewrite (index_lookup raw 0 n), bind_of_Ok by (done || lia).
  rewrite (index_lookup raw 1 hi), bind_of_Ok by (done || lia).
  rewrite (index_lookup raw 2 lo), bind_of_Ok by (done || lia).
  rewrite (index_lookup raw 3 ty), bind_of_Ok by (done || lia).
  destruct (Z.leb_spec (zlen raw) (4 + n)); [by rewrite index_Err by lia|].
  destruct (lookup_lt_is_Some_2 raw (Z.to_nat (4 + n))) as [s Hs]; [lia|].
  rewrite (index_lookup raw (4 + n) s), bind_of_Ok by (done || lia).
  assert (slice raw 4 (4 + n) = take (Z.to_nat n) rest) as ->.
  { rewrite slice_nonneg by lia. unfold raw. change (Z.to_nat 4) with 4%nat. cbn [drop].
    by replace (Z.to_nat (4 + n) - 4)%nat with (Z.to_nat n) by lia. }
  rewrite length_take, (proj2 (Z.eqb_eq _ n)) by lia. cbn [guard_or]. rewrite bind_of_Ok.
  rewrite slice_to_nonneg by lia. rewrite checksum_sum by (by eapply Forall_lookup_1; [exact Hok|]).
  replace (Z.to_nat (5 + n)) with (S (Z.to_nat (4 + n))) by lia.
  rewrite (take_S_r _ _ s), sum_bytes_app by done.
  replace (sum_bytes [s]) with s by (unfold sum_bytes; simpl; lia).
  by destruct (_ =? 0).
Qed.

(** ** Theorems *)

(** C20: an image below 4 GiB written as Intel HEX and read back through the
    virtual file system is the image: the reader accepts the file, finds the
    merged chunks, and every read gives the same bytes. *)
Theorem hex_file_roundtrip path m c :
  Forall hex_ok (chunks m) -> consistent (chunks m) -> c ∈ chunks m -> snd c <> [] ->
  exists file n m', save_hex m = Ok file /\ ihex_start path file = Ok n /\ from_node n 0 = Ok m'
    /\ separated (chunks m') /\ MemoryMap.entry m' = None
    /\ forall a k, read m' a k = read m a k.
Proof.
  intros Hok Hcons Hc Hd. destruct (simplified_spec (chunks m)) as [Hsep _].
  destruct (save_hex_parse m) as (file&Hfile&Hparse); [by apply simplified_hex_ok|].
  assert (forall x, byte_at (filter (fun c : chunk => snd c <> []) (chunks (simplified m))) x
                    = byte_at (chunks m) x) as Hbyte.
  { intros x. rewrite byte_at_filter. by apply simplified_byte. }
  assert (filter (fun c : chunk => snd c <> []) (chunks (simplified m)) <> []) as Hne.
  { intros H0. specialize (Hbyte (fst c)). rewrite H0 in Hbyte. symmetry in Hbyte.
    apply byte_at_None in Hbyte. rewrite Forall_forall in Hbyte. specialize (Hbyte c Hc).
    unfold chunk_byte in Hbyte. rewrite Z.leb_refl, Z.sub_diag in Hbyte. by destruct (snd c). }
  destruct (ihex_start_spec path file _ None Hparse Hne) as (n&m'&Hn&Hm&Hcs&He).
  exists file, n, m'. split_and!; try done.
  - rewrite Hcs. by apply separated_filter.
  - intros a k. destruct (Z.le_gt_cases 0 k); [|unfold read; by rewrite (proj2 (Z.leb_gt 0 k))].
    rewrite !read_spec, Hcs by done. f_equal. apply list_fmap_ext. intros i x _. by rewrite Hbyte.
Qed.

Lemma hex_file_roundtrip_witness :
  exists file n m', save_hex (mkMap [(0x1fffe, [1; 2; 3; 4])] ∅ []) = Ok file
    /\ ihex_start "f" file = Ok n /\ from_node n 0 = Ok m' /\ read m' 0x1fffd 6 = Ok [0; 1; 2; 3; 4; 0].
Proof.
  destruct (hex_file_roundtrip "f" (mkMap [(0x1fffe, [1; 2; 3; 4])] ∅ []) (0x1fffe, [1; 2; 3; 4]))
    as (file&n&m'&H1&H2&H3&_&_&H4).
  - repeat constructor; vm_compute; naive_solver.
  - apply separated_consistent. repeat constructor.
  - by left.
  - done.
  - exists file, n, m'. rewrite H4. split_and!; [exact H1|exact H2|exact H3|vm_compute; reflexivity].
Defined.

(** The checksum detects the corruption of any one byte: a record that is
    accepted is refused once any byte after the count is replaced by another;
    and a record shorter than its count is refused too. *)
Theorem corrupted_record_refused (raw : list Z) (i : nat) b b0 n :
  bytes_ok raw -> is_byte b -> raw !! 0%nat = Some n -> (5 <= length raw)%nat ->
  (is_ok (parse_record (58 :: (raw ≫= hex_byte))) = true ->
   (1 <= i)%nat -> Z.of_nat i <= 4 + n -> raw !! i = Some b0 -> b <> b0 ->
   parse_record (58 :: (<[i := b]> raw ≫= hex_byte)) = Err ValueError)
  /\ (zlen raw <= 4 + n -> parse_record (58 :: (raw ≫= hex_byte)) = Err IndexError).
Proof.
  intros Hok Hb Hn Hlen. destruct raw as [|n' [|hi [|lo [|ty rest]]]]; try (simpl in Hlen; lia).
  injection Hn as ->. simpl in Hlen.
  pose proof (parse_record_spec n hi lo ty rest Hok) as Hspec. rewrite Hspec by lia.
  set (raw := n :: hi :: lo :: ty :: rest) in *. split.
  2: { intros Hshort. by rewrite (proj2 (Z.leb_le _ _)). }
  intros Hacc Hi Hin Hb0 Hne. destruct (Z.leb_spec (zlen raw) (4 + n)) as [|Hl]; [done|].
  destruct (Z.eqb_spec (sum_bytes (take (Z.to_nat (5 + n)) raw) mod 256) 0) as [Hsum|]; [|done].
  assert (exists hi' lo' ty' rest', <[i := b]> raw = n :: hi' :: lo' :: ty' :: rest'
            /\ length rest' = length rest) as (hi'&lo'&ty'&rest'&E&Hr).
  { unfold raw. destruct i as [|[|[|[|i]]]]; [lia|..]; cbn; eauto 10 using length_insert. }
  assert (bytes_ok (<[i := b]> raw)) as Hok' by by apply bytes_ok_insert.
  assert (is_byte b0) as Hb0' by (by eapply Forall_lookup_1; [exact Hok|]).
  rewrite E in *. rewrite (parse_record_spec n hi' lo' ty' rest' Hok') by lia. rewrite <- E.
  assert (zlen (<[i := b]> raw) = zlen raw) as -> by by rewrite length_insert.
  rewrite (proj2 (Z.leb_gt _ _)) by lia. rewrite take_insert_lt by lia.
  rewrite (sum_bytes_insert _ i b b0) by (rewrite lookup_take_lt by lia; done).
  unfold is_byte in *. destruct (Z.eqb_spec ((sum_bytes (take (Z.to_nat (5 + n)) raw) - b0 + b) mod 256) 0); [|done].
  exfalso. Z.div_mod_to_equations. lia.
Qed.

Lemma corrupted_record_refused_witness :
  parse_record (58 :: ([1; 0; 16; 0; 7; 0xe8] ≫= hex_byte)) = Ok (16, 0, [7])
  /\ parse_record (58 :: (<[4%nat := 9]> [1; 0; 16; 0; 7; 0xe8] ≫= hex_byte)) = Err ValueError.
Proof.
  split; [vm_compute; reflexivity|].
  destruct (corrupted_record_refused [1; 0; 16; 0; 7; 0xe8] 4 9 7 1) as [H _].
  - repeat constructor; lia.
  - vm_compute; naive_solver.
  - done.
  - simpl; lia.
  - apply H; [vm_compute; reflexivity|lia|lia|done|done].
Defined.
