(* ===== verification/Flash.v ===== *)
(** * Programming a target (src/acrobe/target/region.py, src/acrobe/target/loadable.py)

    A loadable applies a memory image to its regions: it plans each region
    (flash: erase the touched erase pages, align the data to write pages), then
    writes page by page, then optionally verifies.

    The device under a region is a parameter of the model.  Memory maps an
    address to a byte; [program old v] is what a flash cell holds after [v] is
    written over [old], [erased] is what it holds after an erase.  [FlashCell]
    states what flash promises. *)

From stdpp Require Import strings.
From S2P Require Import Prelude MemoryMap.

Open Scope Z_scope.

(** ** Regions *)

Inductive kind : Type :=
  | Ram
  | Eeprom
  | Flash (write_page_size : Z) (erase_page_sizes : list Z).

Record region : Type := mkRegion {
  r_address : Z;
  r_size : Z;
  r_kind : kind;
  is_blank : bool
}.

Definition r_end (r : region) : Z := r_address r + r_size r.

(** [Region.contains] *)
Definition contains (r : region) (a : Z) : bool := (r_address r <=? a) && (a <? r_end r).

(** [Flash.__init__] keeps the erase sizes in ascending order. *)
Definition new_flash (address size write_page : Z) (erase_pages : list Z) : region :=
  mkRegion address size (Flash write_page (sort_by id erase_pages)) false.

(** [range(a, b, step)] *)
Definition py_range (a b step : Z) : result (list Z) :=
  if step =? 0 then Err ValueError
  else Ok ((fun i => a + step * i) <$>
           seqZ 0 (if 0 <? step then (b - a + step - 1) / step else (a - b - step - 1) / (- step))).

(** ** Planning *)

(** The pages of [_erase_for] for one chunk. *)
Definition pages_for (r : region) (ep : Z) (c : chunk) : result (list Z) :=
  let offset := fst c - r_address r in
  let start := Z.land offset (Z.lnot (ep - 1)) in
  let stop := Z.land (offset + zlen (snd c) + ep - 1) (Z.lnot (ep - 1)) in
  py_range start stop ep.

Definition add_pages (r : region) (ep : Z) (pages : list Z) (c : chunk) : result (list Z) :=
  more ← pages_for r ep c; Ok (pages ++ more).

(** [Flash._erase_for]: the erase page size and the offsets to erase. *)
Definition erase_for (r : region) (erase_pages : list Z) (m : MemoryMap) : result (Z * list Z) :=
  ep ← index erase_pages 0;
  pages ← foldM (add_pages r ep) [] (chunks m);
  Ok (ep, sort_by id (remove_dups pages)).

(** The pages of one aligned chunk. *)
Definition page_slices (offset page : Z) (data : list Z) : result (list chunk) :=
  os ← py_range 0 (zlen data) page;
  Ok ((fun o => (offset + o, slice data o (o + page))) <$> (os : list Z)).

Definition add_slices (r : region) (page : Z) (acc : list chunk) (c : chunk) : result (list chunk) :=
  more ← page_slices (fst c - r_address r) page (snd c); Ok (acc ++ more).

Section Device.
Context (erased : Z) (program : Z -> Z -> Z).

Abbreviation memory := (Z -> Z).

(** The driver's [write] and [erase] at an offset of the region. *)
Definition region_write (r : region) (mem : memory) (w : chunk) : memory :=
  fun x => match chunk_byte (r_address r + fst w, snd w) x with
           | Some v => match r_kind r with Flash _ _ => program (mem x) v | _ => v end
           | None => mem x
           end.

Definition region_erase (r : region) (ep : Z) (mem : memory) (offset : Z) : memory :=
  fun x => if (r_address r + offset <=? x) && (x <? r_address r + offset + ep) then erased else mem x.

Definition region_read (r : region) (mem : memory) (offset size : Z) : list Z :=
  mem <$> seqZ (r_address r + offset) size.

(** [plan_update]: the memory once the region is prepared and the writes. *)
Definition plan_update (r : region) (mem : memory) (m : MemoryMap) : result (memory * list chunk) :=
  match r_kind r with
  | Flash wp eps =>
      mem' ← (if is_blank r then Ok mem
              else '(ep, pages) ← erase_for r eps m; Ok (foldl (region_erase r ep) mem pages));
      aligned ← paged m wp [erased];
      writes ← foldM (add_slices r wp) [] (chunks aligned);
      Ok (mem', writes)
  | _ => Ok (mem, (fun c => (fst c - r_address r, snd c)) <$> chunks m)
  end.

(** [programming_total] *)
Definition programming_total (r : region) (m : MemoryMap) : result Z :=
  match r_kind r with
  | Flash wp _ => aligned ← paged m wp [erased]; Ok (map_size aligned)
  | _ => Ok (map_size m)
  end.

(** ** The loadable *)

(** One region of [Loadable.write]. *)
Definition write_region (m : MemoryMap) (mem : memory) (r : region) : result memory :=
  let region_m := within m (r_address r) (r_end r) in
  match chunks region_m with
  | [] => Ok mem
  | _ =>
      _ ← programming_total r region_m;
      '(mem, writes) ← plan_update r mem region_m;
      Ok (foldl (region_write r) mem writes)
  end.

(** One region of [Loadable.verify]. *)
Definition verify_region (m : MemoryMap) (mem : memory) (r : region) : bool :=
  forallb (fun c => bool_decide (region_read r mem (fst c - r_address r) (zlen (snd c)) = snd c))
    (chunks (within m (r_address r) (r_end r))).

Definition verify (regions : list region) (mem : memory) (source : MemoryMap) : bool :=
  forallb (verify_region (simplified source) mem) (sort_by r_address regions).

(** [erase_all] and [force_blank]: flash regions only. *)
Definition set_blank (r : region) : region :=
  match r_kind r with
  | Flash _ _ => mkRegion (r_address r) (r_size r) (r_kind r) true
  | _ => r
  end.

Definition erase_all (regions : list region) (mem : memory) : list region * memory :=
  (set_blank <$> regions,
   foldl (fun mem r => match r_kind r with
                       | Flash _ _ => region_erase r (r_size r) mem 0
                       | _ => mem
                       end) mem regions).

Definition pre_program (regions : list region) (mem : memory) (do_erase assume_clean : bool)
    : list region * memory :=
  let '(regions, mem) := if do_erase then erase_all regions mem else (regions, mem) in
  (if assume_clean then set_blank <$> regions else regions, mem).

(** [Loadable.write]: the regions and the memory afterwards, and whether the
    verification (when it is asked for) succeeded. *)
Definition load (regions : list region) (mem : memory) (source : MemoryMap)
    (do_erase do_verify assume_clean : bool) : result (list region * memory * bool) :=
  let m := simplified source in
  let '(regions, mem) := pre_program regions mem do_erase assume_clean in
  mem ← foldM (write_region m) mem (sort_by r_address regions);
  Ok (regions, mem, if do_verify then verify regions mem m else true).

(** [Loadable.read] *)
Definition load_read_step (b e : Z) (mem : memory) (m : MemoryMap) (r : region) : MemoryMap :=
  let lo := Z.max (r_address r) b in
  let hi := Z.min (r_end r) e in
  if hi <=? lo then m
  else append m lo (region_read r mem (lo - r_address r) (hi - lo)).

Definition load_read (regions : list region) (mem : memory) (b : Z) (e : option Z) : MemoryMap :=
  let rs := sort_by r_address regions in
  let e := match e with
           | Some e => e
           | None => match rs with
                     | [] => 0
                     | r :: rs => foldl (fun acc r => Z.max acc (r_end r)) (r_end r) rs
                     end
           end in
  foldl (load_read_step b e mem) empty_map rs.
End Device.

(** ** What flash promises *)

(** Programming an erased cell stores the value; programming the erased value
    leaves the cell alone. *)
Class FlashCell (erased : Z) (program : Z -> Z -> Z) : Prop := {
  erased_byte : is_byte erased;
  program_erased v : is_byte v -> program erased v = v;
  program_keep v : is_byte v -> program v erased = v
}.

(** NOR flash clears bits. *)
#[global] Instance nor_flash : FlashCell 255 Z.land.
Proof.
  split; [vm_compute; naive_solver|..]; intros v Hv; unfold is_byte in Hv;
    change 255 with (Z.ones 8);
    first [rewrite Z.land_ones by lia|rewrite Z.land_comm, Z.land_ones by lia]; apply Z.mod_small; lia.
Qed.

(** ** Ranges *)

Lemma py_range_pos a b step :
  0 < step -> py_range a b step = Ok ((fun i => a + step * i) <$> seqZ 0 ((b - a + step - 1) / step)).
Proof.
  intros. unfold py_range. destruct (Z.eqb_spec step 0); [lia|].
  by rewrite (proj2 (Z.ltb_lt 0 step)) by done.
Qed.

(** The erase page of [x] is one the chunk reaches into. *)
Definition touched (r : region) (ep : Z) (x : Z) (c : chunk) : Prop :=
  (fst c - r_address r) / ep <= (x - r_address r) / ep < (chunk_end c - r_address r + ep - 1) / ep.

#[global] Instance touched_dec r ep x c : Decision (touched r ep x c).
Proof. unfold touched. apply _. Defined.

Definition erase_covers (r : region) (ep x p : Z) : Prop := r_address r + p <= x < r_address r + p + ep.

Lemma div_cell ep y q : 0 < ep -> ep * q <= y < ep * q + ep <-> y / ep = q.
Proof.
  intros. split.
  - intros. symmetry. apply (Z.div_unique_pos y ep q (y - ep * q)); lia.
  - intros <-. pose proof (Z.mod_pos_bound y ep). pose proof (Z.div_mod y ep). lia.
Qed.

Lemma pages_for_spec r k c :
  0 <= k -> exists pages, pages_for r (2 ^ k) c = Ok pages
    /\ forall x, (exists p, p ∈ pages /\ erase_covers r (2 ^ k) x p) <-> touched r (2 ^ k) x c.
Proof.
  intros Hk. unfold pages_for. rewrite !align_down_pow2 by done. assert (0 < 2 ^ k) as Hp by lia.
  rewrite py_range_pos by done. set (ep := 2 ^ k) in *. eexists. split; [done|]. intros x.
  unfold touched, erase_covers, chunk_end. set (y := x - r_address r).
  set (q0 := (fst c - r_address r) / ep).
  replace (fst c - r_address r + zlen (snd c) + ep - 1)
    with (fst c + zlen (snd c) - r_address r + ep - 1) by lia.
  set (q1 := (fst c + zlen (snd c) - r_address r + ep - 1) / ep).
  replace (q1 * ep - q0 * ep + ep - 1) with (ep - 1 + (q1 - q0) * ep) by lia.
  rewrite Z.div_add, (Z.div_small (ep - 1)) by lia. split.
  - intros (p&(i&->&Hi%elem_of_seqZ)%list_elem_of_fmap&Hx).
    assert (y / ep = q0 + i) as ->; [apply div_cell; unfold y; lia|lia].
  - intros Hy. exists (q0 * ep + ep * (y / ep - q0)). split.
    + apply list_elem_of_fmap. exists (y / ep - q0). split; [done|]. apply elem_of_seqZ. lia.
    + pose proof (proj2 (div_cell ep y (y / ep) Hp) eq_refl). unfold y in *. lia.
Qed.

Lemma erase_for_spec r k eps m :
  0 <= k -> index eps 0 = Ok (2 ^ k) ->
  exists pages, erase_for r eps m = Ok (2 ^ k, pages)
    /\ forall x, (exists p, p ∈ pages /\ erase_covers r (2 ^ k) x p) <-> Exists (touched r (2 ^ k) x) (chunks m).
Proof.
  intros Hk Hi. unfold erase_for. rewrite Hi, bind_of_Ok.
  assert (forall acc, exists pages, foldM (add_pages r (2 ^ k)) acc (chunks m) = Ok pages
    /\ forall x, (exists p, p ∈ pages /\ erase_covers r (2 ^ k) x p) <->
         (exists p, p ∈ acc /\ erase_covers r (2 ^ k) x p) \/ Exists (touched r (2 ^ k) x) (chunks m)) as H.
  { induction (chunks m) as [|c cs IH]; intros acc.
    - exists acc. split; [done|]. intros x. rewrite Exists_nil. naive_solver.
    - destruct (pages_for_spec r k c Hk) as (more&E&Hmore). destruct (IH (acc ++ more)) as (pages&E'&Hp).
      exists pages. split.
      { cbn [foldM]. assert (add_pages r (2 ^ k) acc c = Ok (acc ++ more)) as ->
          by (unfold add_pages; by rewrite E). by rewrite bind_of_Ok. }
      intros x. rewrite Hp, Exists_cons, <- Hmore. setoid_rewrite elem_of_app. naive_solver. }
  destruct (H []) as (pages&->&Hp). rewrite bind_of_Ok. eexists. split; [done|]. intros x.
  setoid_rewrite (sort_by_perm id (remove_dups pages)). setoid_rewrite elem_of_remove_dups.
  rewrite Hp. split; [intros [(p&Hin&_)|]; [by apply elem_of_nil in Hin|done]|by right].
Qed.

Section Programming.
Context {erased : Z} {program : Z -> Z -> Z} `{!FlashCell erased program}.
Abbreviation memory := (Z -> Z).

Lemma erase_loop r ep pages : forall (mem : memory) x,
  foldl (region_erase erased r ep) mem pages x =
  if decide (Exists (erase_covers r ep x) pages) then erased else mem x.
Proof.
  induction pages as [|p pages IH]; intros mem x; cbn [foldl].
  { rewrite decide_False; [done|]. intros H. inversion H. }
  rewrite IH. unfold region_erase. unfold erase_covers in *.
  destruct (decide (Exists _ pages)) as [H|H].
  - rewrite decide_True; [done|]. by right.
  - destruct (Z.leb_spec (r_address r + p) x), (Z.ltb_spec x (r_address r + p + ep)); cbn [andb].
    1: by rewrite decide_True by (left; lia).
    all: rewrite decide_False; [done|]; rewrite Exists_cons; intros [?|?]; [lia|done].
Qed.

(** Writing a sequence of chunks, cell by cell. *)
Definition cell_step (f : Z -> Z -> Z) (x y : Z) (c : chunk) : Z :=
  match chunk_byte c x with Some v => f y v | None => y end.

Definition cell_op (r : region) : Z -> Z -> Z :=
  match r_kind r with Flash _ _ => program | _ => fun _ v => v end.

Definition placed (r : region) (w : chunk) : chunk := (r_address r + fst w, snd w).

Lemma write_loop r ws : forall (mem : memory) x,
  foldl (region_write program r) mem ws x = foldl (cell_step (cell_op r) x) (mem x) (placed r <$> ws).
Proof.
  induction ws as [|w ws IH]; intros mem x; [done|]. cbn [foldl]. rewrite IH. cbn [fmap list_fmap foldl].
  f_equal. unfold region_write, cell_step, cell_op, placed. destruct (chunk_byte _ x); [|done].
  by destruct (r_kind r).
Qed.

(** Cutting a chunk into pages does not change what is written. *)
Lemma slices_cells f x base page data (n : nat) : forall y o,
  0 < page -> 0 <= o -> zlen data <= o + page * Z.of_nat n ->
  foldl (cell_step f x) y ((fun i => (base + (o + page * i), slice data (o + page * i) (o + page * i + page)))
                           <$> seqZ 0 (Z.of_nat n)) =
  cell_step f x y (base + o, drop (Z.to_nat o) data).
Proof.
  induction n as [|n IH]; intros y o Hp Ho Hn.
  { rewrite drop_ge by lia. unfold cell_step, chunk_byte. cbn. by destruct (base + o <=? x). }
  rewrite Nat2Z.inj_succ, seqZ_cons by lia. rewrite Z.pred_succ. cbn [fmap list_fmap foldl].
  rewrite Z.mul_0_r, Z.add_0_r.
  replace (seqZ (Z.succ 0) (Z.of_nat n)) with (Z.add 1 <$> seqZ 0 (Z.of_nat n)) by by rewrite fmap_add_seqZ.
  rewrite <- list_fmap_compose.
  rewrite (list_fmap_ext _ (fun i => (base + (o + page + page * i), slice data (o + page + page * i) (o + page + page * i + page)))).
  2: { intros i z _. unfold compose. replace (o + page * (1 + z)) with (o + page + page * z) by lia. done. }
  rewrite IH by lia. unfold cell_step, chunk_byte. cbn [fst snd]. rewrite slice_nonneg by lia.
  rewrite !lookup_drop, lookup_take, lookup_drop.
  destruct (Z.leb_spec (base + o) x).
  - destruct (Z.leb_spec (base + (o + page)) x).
    + rewrite decide_False by lia.
      by replace (Z.to_nat (o + page) + Z.to_nat (x - (base + (o + page))))%nat
        with (Z.to_nat o + Z.to_nat (x - (base + o)))%nat by lia.
    + by rewrite decide_True by lia.
  - by destruct (Z.leb_spec (base + (o + page)) x); [lia|].
Qed.

Lemma foldl_cell_app f x y l1 l2 :
  foldl (cell_step f x) y (l1 ++ l2) = foldl (cell_step f x) (foldl (cell_step f x) y l1) l2.
Proof. apply foldl_app. Qed.

Lemma add_slices_spec r wp cs : 0 < wp -> forall acc,
  exists ws, foldM (add_slices r wp) acc cs = Ok (acc ++ ws)
    /\ forall f x y, foldl (cell_step f x) y (placed r <$> ws) = foldl (cell_step f x) y cs.
Proof.
  intros Hp. induction cs as [|[a d] cs IH]; intros acc.
  { exists []. by rewrite app_nil_r. }
  set (n := Z.to_nat ((zlen d + wp - 1) / wp)).
  assert (Z.of_nat n = (zlen d + wp - 1) / wp) as Hn by (apply Z2Nat.id, Z.div_pos; lia).
  set (s := (fun o => (a - r_address r + o, slice d o (o + wp))) <$> ((fun i => 0 + wp * i) <$> seqZ 0 (Z.of_nat n))).
  destruct (IH (acc ++ s)) as (ws&E&Hws). exists (s ++ ws). split.
  - cbn [foldM]. assert (add_slices r wp acc (a, d) = Ok (acc ++ s)) as ->; [|by rewrite bind_of_Ok, E, app_assoc].
    unfold add_slices, page_slices. cbn [fst snd]. rewrite py_range_pos, !bind_of_Ok, Z.sub_0_r by done.
    unfold s. by rewrite Hn.
  - intros f x y. rewrite fmap_app, foldl_cell_app, Hws. cbn [foldl]. f_equal.
    unfold s. rewrite <- !list_fmap_compose.
    rewrite (list_fmap_ext _ (fun i => (a + (0 + wp * i), slice d (0 + wp * i) (0 + wp * i + wp)))).
    2: { intros i z _. unfold compose, placed. cbn [fst snd]. f_equal. lia. }
    rewrite slices_cells; [by rewrite Z.add_0_r|done|lia|].
    rewrite Hn. pose proof (Z.div_mod (zlen d + wp - 1) wp). pose proof (Z.mod_pos_bound (zlen d + wp - 1) wp). lia.
Qed.

(** Writing plain memory: the image wins. *)
Lemma overwrite_cells cs x : forall y,
  foldl (cell_step (fun _ v => v) x) y cs = default y (byte_at cs x).
Proof.
  induction cs as [|c cs IH]; intros y; [done|]. cbn [foldl byte_at]. rewrite IH. unfold cell_step.
  by destruct (byte_at cs x), (chunk_byte c x).
Qed.

Lemma filler_single a x : filler [erased] a x = Some erased.
Proof. unfold filler. change (zlen [erased]) with 1. by rewrite Z.mod_1_r. Qed.

(** Writing erased flash page by page, whatever pages the chunks share: the data
    stay, the fill is harmless. *)
Lemma program_pages wp cs out x : 0 < wp -> forall y,
  Forall2 (page_of wp [erased]) cs out -> separated cs -> Forall (fun c : chunk => bytes_ok (snd c)) cs ->
  is_byte y -> (byte_at cs x <> None -> y = erased) ->
  foldl (cell_step program x) y out = default y (byte_at cs x).
Proof.
  intros Hwp. revert out. induction cs as [|c cs IH]; intros out y HF Hs Hb Hy He;
    inversion HF as [|? c' ? out' (_&_&Hp) HF']; subst; [done|].
  apply StronglySorted_cons in Hs as [Hc Hs]. apply Forall_cons in Hb as [Hbc Hb]. cbn [foldl byte_at] in *.
  assert (forall v, chunk_byte c x = Some v -> byte_at cs x = None) as Hex.
  { intros v Hv%chunk_byte_Some. apply byte_at_None. eapply Forall_impl; [exact Hc|]. cbn. intros c0 H0.
    apply chunk_byte_None. lia. }
  unfold cell_step at 2. rewrite Hp. unfold page_byte. rewrite filler_single.
  destruct (chunk_byte c x) as [v|] eqn:Ev.
  - assert (is_byte v) as Hv.
    { unfold chunk_byte in Ev. case_match; [|done]. by eapply Forall_lookup_1. }
    rewrite (Hex v eq_refl) in *. rewrite none_union in *. rewrite some_union.
    assert (page_start wp c <=? x = true /\ x <? page_end wp c = true) as [-> ->].
    { pose proof (chunk_byte_Some _ _ _ Ev). pose proof (page_bounds wp c Hwp).
      rewrite Z.leb_le, Z.ltb_lt. lia. }
    cbn [andb]. rewrite He, program_erased by done.
    by rewrite IH.
  - replace (byte_at cs x ∪ None) with (byte_at cs x) in * by by destruct (byte_at cs x).
    rewrite none_union. destruct (_ && _); [|by apply IH]. rewrite program_keep by done. by apply IH.
Qed.

(** ** One region *)

(** Page sizes of a real part: positive write pages, erase pages a power of two
    that divides the region. *)
Definition region_ok (r : region) : Prop :=
  0 <= r_size r /\
  match r_kind r with
  | Flash wp eps => 0 < wp /\ exists k, 0 <= k /\ index eps 0 = Ok (2 ^ k) /\ r_size r mod 2 ^ k = 0
  | _ => True
  end.

Definition is_flash (r : region) : bool := match r_kind r with Flash _ _ => true | _ => false end.

(** A flash region flagged blank is erased. *)
Definition blank_ok (mem : memory) (r : region) : Prop :=
  is_flash r = true -> is_blank r = true -> forall x, contains r x = true -> mem x = erased.

(** What becomes of a cell that holds [y]. *)
Definition cell_spec (img : list chunk) (r : region) (x y : Z) : Z :=
  match byte_at img x with
  | Some v => v
  | None =>
      match r_kind r, is_blank r with
      | Flash _ eps, false =>
          let ep := default 1 (head eps) in
          if decide (Exists (touched r ep x) (img ≫= clip (r_address r) (r_end r))) then erased else y
      | _, _ => y
      end
  end.

Lemma within_separated cs b e : b <= e -> separated cs -> separated (cs ≫= clip b e).
Proof.
  unfold separated. intros Hbe. induction 1 as [|c cs Hs IH Hc]; [constructor|].
  rewrite bind_cons. apply StronglySorted_app. split_and!; [|destruct c; cbn; case_match; repeat constructor|done].
  intros c1 c2 H1 (c3&H2&H3)%list_elem_of_bind.
  rewrite Forall_forall in Hc. specialize (Hc _ H3).
  assert (forall c c', c' ∈ clip b e c -> fst c <= fst c' /\ chunk_end c' <= chunk_end c) as Hclip.
  { clear -Hbe. intros [a d] c'. cbn [clip].
    destruct (Z.leb_spec (a + zlen d) b), (Z.leb_spec e a); cbn [orb]; try by intros ?%elem_of_nil.
    intros ->%list_elem_of_singleton. unfold chunk_end. cbn [fst snd].
    rewrite slice_nonneg, length_take, length_drop by lia. lia. }
  apply Hclip in H1, H2. lia.
Qed.

Lemma clip_bytes cs b e :
  Forall (fun c : chunk => bytes_ok (snd c)) cs -> Forall (fun c : chunk => bytes_ok (snd c)) (cs ≫= clip b e).
Proof.
  intros H. apply Forall_bind. eapply Forall_impl; [exact H|]. intros [a d] Hd.
  cbv beta iota zeta delta [clip compose]. case_match; [constructor|]. constructor; [|done].
  by apply bytes_ok_slice.
Qed.

(** The erase pages of a chunk lie in the region. *)
Lemma touched_inside r k x c :
  0 <= k -> r_size r mod 2 ^ k = 0 -> r_address r <= fst c -> chunk_end c <= r_end r ->
  touched r (2 ^ k) x c -> contains r x = true.
Proof.
  intros Hk Hm Ha He [H1 H2]. unfold contains, r_end in *. assert (0 < 2 ^ k) as Hp by lia.
  set (ep := 2 ^ k) in *. rewrite andb_true_iff, Z.leb_le, Z.ltb_lt.
  apply Z.div_exact in Hm; [|lia].
  assert (0 <= (fst c - r_address r) / ep) by (apply Z.div_pos; lia).
  assert ((chunk_end c - r_address r + ep - 1) / ep <= r_size r / ep).
  { apply Z.le_trans with ((ep - 1 + r_size r / ep * ep) / ep); [apply Z.div_le_mono; lia|].
    rewrite Z.div_add, (Z.div_small (ep - 1)) by lia. lia. }
  pose proof (Z.div_mod (x - r_address r) ep). pose proof (Z.mod_pos_bound (x - r_address r) ep). nia.
Qed.

Lemma touched_chunk r k x c v :
  0 <= k -> chunk_byte c x = Some v -> touched r (2 ^ k) x c.
Proof.
  intros Hk Hv%chunk_byte_Some. unfold touched. assert (0 < 2 ^ k) as Hp by lia. split.
  - apply Z.div_le_mono; lia.
  - apply Z.lt_le_trans with ((x - r_address r) / 2 ^ k + 1); [lia|].
    rewrite <- (Z.div_add _ 1) by lia. apply Z.div_le_mono; lia.
Qed.

Lemma paged_separated m wp :
  0 < wp -> separated (chunks m) ->
  exists m', paged m wp [erased] = Ok m' /\ Forall2 (page_of wp [erased]) (chunks m) (chunks m').
Proof.
  intros Hwp Hs. unfold paged, simplified. cbn [chunks]. rewrite simplified_separated by done.
  destruct (paged_loop wp [erased] (chunks m) Hwp ltac:(done) []) as (out&->&HF).
  rewrite bind_of_Ok. by eexists.
Qed.

Lemma index_head {A} (l : list A) x : index l 0 = Ok x -> head l = Some x.
Proof. destruct l; [done|]. intros H. apply index_Ok_inv in H; [|lia]. done. Qed.

(** The memory once flash is prepared. *)
Lemma prepare_spec r eps k (mem : memory) m :
  0 <= k -> index eps 0 = Ok (2 ^ k) ->
  exists mem', (if is_blank r then Ok mem
                else '(ep, pages) ← erase_for r eps m; Ok (foldl (region_erase erased r ep) mem pages)) = Ok mem'
    /\ forall x, mem' x = if is_blank r then mem x
                          else if decide (Exists (touched r (2 ^ k) x) (chunks m)) then erased else mem x.
Proof.
  intros Hk Hi. destruct (is_blank r); [by eexists|].
  destruct (erase_for_spec r k eps m Hk Hi) as (pages&->&Hp). rewrite bind_of_Ok. eexists. split; [done|].
  intros x. rewrite erase_loop. specialize (Hp x). rewrite <- Exists_exists in Hp.
  by destruct (decide (Exists (erase_covers _ _ _) _)), (decide (Exists (touched _ _ _) _)); try tauto.
Qed.

Definition image_ok (img : list chunk) : Prop :=
  separated img /\ Forall (fun c : chunk => bytes_ok (snd c)) img.

Lemma image_byte img x v : image_ok img -> byte_at img x = Some v -> is_byte v.
Proof.
  intros [_ Hb] (c&Hc&Hv)%byte_at_elem. rewrite Forall_forall in Hb. specialize (Hb c Hc).
  unfold chunk_byte in Hv. case_match; [|done]. by eapply Forall_lookup_1.
Qed.

Lemma write_flash r wp eps m (mem : memory) :
  r_kind r = Flash wp eps -> region_ok r -> image_ok (chunks m) -> (forall x, is_byte (mem x)) -> blank_ok mem r ->
  let region_m := within m (r_address r) (r_end r) in
  exists mem', (_ ← programming_total erased r region_m;
                '(mem, writes) ← plan_update erased r mem region_m;
                Ok (foldl (region_write program r) mem writes)) = Ok mem'
    /\ forall x, mem' x = if contains r x then cell_spec (chunks m) r x (mem x) else mem x.
Proof.
  intros Hkind (Hsize&Hr) [Hsep Hbytes] Hmem Hblank region_m. rewrite Hkind in Hr.
  destruct Hr as (Hwp&k&Hk&Hi&Hmod). set (cs := chunks region_m).
  assert (separated cs) as Hcs by (apply within_separated; [unfold r_end; lia|done]).
  assert (Forall (fun c : chunk => bytes_ok (snd c)) cs) as Hcb by by apply clip_bytes.
  destruct (paged_separated region_m wp Hwp Hcs) as (al&Hal&HF).
  destruct (prepare_spec r eps k mem region_m Hk Hi) as (mem1&Hprep&Hmem1).
  destruct (add_slices_spec r wp (chunks al) Hwp []) as (ws&Hws&Hcell).
  unfold programming_total, plan_update. rewrite Hkind, Hal, bind_of_Ok, bind_of_Ok, Hprep, bind_of_Ok, bind_of_Ok, Hws.
  rewrite !bind_of_Ok. cbn [app]. eexists. split; [done|]. intros x.
  rewrite write_loop, Hcell. unfold cell_op. rewrite Hkind.
  assert (byte_at cs x = if contains r x then byte_at (chunks m) x else None) as Hx by apply within_byte.
  assert (forall c, c ∈ cs -> r_address r <= fst c /\ chunk_end c <= r_end r) as Hin.
  { pose proof (within_bounds m (r_address r) (r_end r) ltac:(unfold r_end; lia)) as H.
    by rewrite Forall_forall in H. }
  rewrite (program_pages wp cs); try done.
  - fold cs in Hmem1. rewrite Hmem1, Hx. unfold cell_spec. rewrite Hkind, (index_head _ _ Hi). cbn [default].
    destruct (contains r x) eqn:Ec; [by destruct (byte_at (chunks m) x), (is_blank r)|]. cbn [default].
    destruct (is_blank r); [done|]. rewrite decide_False; [done|].
    intros (c&Hc&Ht)%Exists_exists. destruct (Hin c Hc).
    by rewrite (touched_inside r k x c) in Ec.
  - rewrite Hmem1. destruct (is_blank r); [done|]. case_decide; [apply erased_byte|done].
  - intros Hsome. rewrite Hmem1. destruct (is_blank r) eqn:Eb.
    + apply Hblank; [unfold is_flash; by rewrite Hkind|done|]. rewrite Hx in Hsome. by destruct (contains r x).
    + rewrite decide_True; [done|]. destruct (byte_at cs x) as [v|] eqn:E; [|done].
      apply byte_at_elem in E as (c&Hc&Hv). apply Exists_exists. exists c. split; [done|].
      by eapply touched_chunk.
Qed.

Lemma write_region_spec r m (mem : memory) :
  region_ok r -> image_ok (chunks m) -> (forall x, is_byte (mem x)) -> blank_ok mem r ->
  exists mem', write_region erased program m mem r = Ok mem'
    /\ forall x, mem' x = if contains r x then cell_spec (chunks m) r x (mem x) else mem x.
Proof.
  intros Hr Himg Hmem Hblank. unfold write_region.
  destruct (chunks (within m (r_address r) (r_end r))) as [|c cs] eqn:Ecs.
  - exists mem. split; [done|]. intros x. destruct (contains r x) eqn:Ec; [|done].
    unfold cell_spec. pose proof (within_byte m (r_address r) (r_end r) x) as Hx.
    rewrite Ecs in Hx. unfold contains in Ec. rewrite Ec in Hx. cbn in Hx. rewrite <- Hx.
    change (chunks m ≫= clip (r_address r) (r_end r)) with (chunks (within m (r_address r) (r_end r))).
    rewrite Ecs. by destruct (r_kind r), (is_blank r).
  - destruct (r_kind r) as [| |wp eps] eqn:Hk; [..|by eapply write_flash].
    all: unfold programming_total, plan_update; rewrite Hk, !bind_of_Ok; eexists; (split; [done|]); intros x;
      rewrite write_loop; unfold cell_op; rewrite Hk;
      assert (placed r <$> ((fun c => (fst c - r_address r, snd c)) <$> chunks (within m (r_address r) (r_end r)))
              = chunks (within m (r_address r) (r_end r))) as -> by
        (rewrite <- list_fmap_compose; etransitivity; [|apply list_fmap_id]; apply list_fmap_ext;
         intros i [a d] _; unfold compose, placed; cbn; f_equal; lia);
      rewrite overwrite_cells, within_byte; unfold cell_spec; rewrite Hk; fold (contains r x);
      by destruct (contains r x), (byte_at (chunks m) x).
Qed.

(** ** All regions *)

(** In address order, not overlapping. *)
Definition laid_out (rs : list region) : Prop :=
  StronglySorted (fun r r' => r_end r <= r_address r') rs.

Definition region_at (rs : list region) (x : Z) : option region :=
  head (filter (fun r => contains r x = true) rs).

Definition target_spec (rs : list region) (img : list chunk) (mem : memory) (x : Z) : Z :=
  match region_at rs x with Some r => cell_spec img r x (mem x) | None => mem x end.

Lemma cell_spec_byte img r x y : image_ok img -> is_byte y -> is_byte (cell_spec img r x y).
Proof.
  intros Himg Hy. unfold cell_spec. destruct (byte_at img x) eqn:E; [by eapply image_byte|].
  destruct (r_kind r), (is_blank r); try done. case_decide; [apply erased_byte|done].
Qed.

Lemma laid_out_apart r rs x :
  Forall (fun r' => r_end r <= r_address r') rs -> contains r x = true ->
  Forall (fun r' => contains r' x = false) rs.
Proof.
  intros H Hx. eapply Forall_impl; [exact H|]. cbn. intros r' Hr'. unfold contains in *.
  apply andb_true_iff in Hx as [?%Z.leb_le ?%Z.ltb_lt]. apply andb_false_iff. rewrite Z.leb_gt. lia.
Qed.

Lemma write_regions_spec m rs : forall (mem : memory),
  Forall region_ok rs -> laid_out rs -> image_ok (chunks m) -> (forall x, is_byte (mem x)) ->
  Forall (blank_ok mem) rs ->
  exists mem', foldM (write_region erased program m) mem rs = Ok mem'
    /\ forall x, mem' x = target_spec rs (chunks m) mem x.
Proof.
  induction rs as [|r rs IH]; intros mem Hok Hlay Himg Hmem Hblank; [by eexists|].
  apply Forall_cons in Hok as [Hr Hok], Hblank as [Hb Hblank].
  apply StronglySorted_cons in Hlay as [Hapart Hlay].
  destruct (write_region_spec r m mem Hr Himg Hmem Hb) as (mem1&E&Hmem1). cbn [foldM].
  rewrite E, bind_of_Ok.
  destruct (IH mem1 Hok Hlay Himg) as (mem'&E'&Hmem').
  - intros x. rewrite Hmem1. destruct (contains r x); [by apply cell_spec_byte|done].
  - rewrite Forall_forall in *. intros r' Hr' Hfl Hbl x Hx. rewrite Hmem1.
    destruct (contains r x) eqn:Ec; [|by apply (Hblank r')].
    pose proof (laid_out_apart r rs x ltac:(by rewrite Forall_forall) Ec) as H.
    rewrite Forall_forall in H. by rewrite (H r' Hr') in Hx.
  - exists mem'. split; [done|]. intros x. rewrite Hmem'. unfold target_spec, region_at.
    rewrite filter_cons, Hmem1. destruct (contains r x) eqn:Ec.
    + rewrite decide_True by done. cbn [head].
      assert (filter (fun r => contains r x = true) rs = []) as ->; [|done].
      pose proof (laid_out_apart r rs x Hapart Ec) as H. clear -H.
      induction H as [|r' rs Hr' _ IH]; [done|]. rewrite filter_cons, decide_False by by rewrite Hr'. done.
    + by rewrite decide_False by done.
Qed.

Lemma verify_spec m rs (mem : memory) :
  Forall region_ok rs -> laid_out rs -> image_ok (chunks m) ->
  (forall r x v, r ∈ rs -> contains r x = true -> byte_at (chunks m) x = Some v -> mem x = v) ->
  forallb (verify_region m mem) rs = true.
Proof.
  intros Hok Hlay Himg Hmem. apply forallb_forall. intros r Hr%list_elem_of_In.
  rewrite Forall_forall in Hok. destruct (Hok r Hr) as [Hsize _].
  unfold verify_region. apply forallb_forall. intros c Hc%list_elem_of_In. apply bool_decide_eq_true.
  pose proof (within_bounds m (r_address r) (r_end r) ltac:(unfold r_end; lia)) as Hin.
  rewrite Forall_forall in Hin. destruct (Hin c Hc) as [Hlo Hhi]. unfold chunk_end in Hhi.
  assert (separated (chunks (within m (r_address r) (r_end r)))) as Hsep
    by (apply within_separated; [unfold r_end; lia|apply Himg]).
  unfold region_read. replace (r_address r + (fst c - r_address r)) with (fst c) by lia.
  apply list_eq. intros i. rewrite list_lookup_fmap.
  destruct (snd c !! i) as [v|] eqn:Ev.
  - pose proof (lookup_lt_Some _ _ _ Ev). rewrite lookup_seqZ_lt by lia. cbn [fmap option_fmap option_map]. f_equal.
    assert (contains r (fst c + Z.of_nat i) = true) as Hx
      by (unfold contains; rewrite andb_true_iff, Z.leb_le, Z.ltb_lt; lia).
    apply (Hmem r); [done|done|].
    pose proof (within_byte m (r_address r) (r_end r) (fst c + Z.of_nat i)) as H'.
    fold (contains r (fst c + Z.of_nat i)) in H'. rewrite Hx in H'. rewrite <- H'.
    apply byte_at_consistent; [by apply separated_consistent|]. exists c. split; [done|].
    unfold chunk_byte. rewrite (proj2 (Z.leb_le _ _)) by lia.
    by replace (Z.to_nat (fst c + Z.of_nat i - fst c)) with i by lia.
  - apply lookup_ge_None in Ev. by rewrite lookup_seqZ_ge by lia.
Qed.

(** ** Erasing everything first *)

Lemma set_blank_place r : r_address (set_blank r) = r_address r /\ r_end (set_blank r) = r_end r
  /\ r_kind (set_blank r) = r_kind r /\ r_size (set_blank r) = r_size r.
Proof. unfold set_blank, r_end. by destruct (r_kind r) eqn:E. Qed.

Lemma set_blank_contains r x : contains (set_blank r) x = contains r x.
Proof. destruct (set_blank_place r) as (Ha&He&_). unfold contains. by rewrite Ha, He. Qed.

Lemma erase_all_spec rs : forall (mem : memory) x,
  (erase_all erased rs mem).2 x =
  if decide (Exists (fun r => is_flash r = true /\ contains r x = true) rs) then erased else mem x.
Proof.
  cbn [erase_all snd]. induction rs as [|r rs IH]; intros mem x; cbn [foldl].
  { rewrite decide_False; [done|]. intros H. inversion H. }
  rewrite IH. destruct (decide (Exists _ rs)) as [H|H]; [rewrite decide_True; [done|by right]|].
  assert (match r_kind r with Flash _ _ => region_erase erased r (r_size r) mem 0 | _ => mem end x
          = if is_flash r && contains r x then erased else mem x) as ->.
  { unfold is_flash. destruct (r_kind r); try done. cbn [andb]. unfold region_erase, contains, r_end.
    by rewrite Z.add_0_r. }
  destruct (is_flash r) eqn:Ef, (contains r x) eqn:Ec; cbn [andb].
  1: by rewrite decide_True by by left.
  all: rewrite decide_False; [done|]; intros [[? ?]|?]%Exists_cons; [congruence|done].
Qed.

(** What the flags promise once the preparation is done. *)
Definition flags_ok (mem : memory) (do_erase assume_clean : bool) (r : region) : Prop :=
  do_erase = false -> is_flash r = true -> is_blank r = true \/ assume_clean = true ->
  forall x, contains r x = true -> mem x = erased.

Lemma pre_program_spec rs (mem : memory) do_erase assume_clean :
  (forall x, is_byte (mem x)) -> Forall (flags_ok mem do_erase assume_clean) rs ->
  let '(rs', mem0) := pre_program erased rs mem do_erase assume_clean in
  (exists f, rs' = f <$> rs /\ forall r, f r = r \/ f r = set_blank r)
  /\ (forall x, is_byte (mem0 x)) /\ Forall (blank_ok mem0) rs'.
Proof.
  intros Hmem Hflags. unfold pre_program. rewrite Forall_forall in Hflags.
  assert (forall r, is_flash (set_blank r) = is_flash r) as Hfl
    by (intros r; unfold is_flash; by destruct (set_blank_place r) as (_&_&->&_)).
  destruct do_erase.
  - pose proof (erase_all_spec rs mem) as He. destruct (erase_all erased rs mem) as [rs1 mem1] eqn:E.
    assert (rs1 = set_blank <$> rs) as -> by by inversion E. cbn [snd] in He.
    assert (set_blank <$> (set_blank <$> rs) = set_blank <$> rs) as Hidem.
    { rewrite <- list_fmap_compose. apply list_fmap_ext. intros i r _. unfold compose, set_blank.
      by destruct (r_kind r) eqn:Ek; rewrite ?Ek. }
    assert ((if assume_clean then set_blank <$> (set_blank <$> rs) else set_blank <$> rs) = set_blank <$> rs) as ->
      by by destruct assume_clean.
    split_and!.
    + exists set_blank. split; [done|by right].
    + intros x. rewrite He. case_decide; [apply erased_byte|done].
    + apply Forall_forall. intros r' (r&->&Hr)%list_elem_of_fmap Hf _ x Hx.
      rewrite set_blank_contains in Hx. rewrite Hfl in Hf.
      rewrite He, decide_True; [done|]. apply Exists_exists. by exists r.
  - destruct assume_clean; (split_and!; [|done|]).
    + exists set_blank. split; [done|by right].
    + apply Forall_forall. intros r' (r&->&Hr)%list_elem_of_fmap Hf _ x Hx.
      rewrite set_blank_contains in Hx. rewrite Hfl in Hf. apply (Hflags r Hr); auto.
    + exists id. split; [by rewrite list_fmap_id|by left].
    + apply Forall_forall. intros r Hr Hf Hb x Hx. apply (Hflags r Hr); auto.
Qed.

Lemma prepared_regions (f : region -> region) rs :
  (forall r, f r = r \/ f r = set_blank r) -> Forall region_ok rs -> laid_out (sort_by r_address rs) ->
  Forall region_ok (sort_by r_address (f <$> rs)) /\ laid_out (sort_by r_address (f <$> rs)).
Proof.
  intros Hf Hok Hlay.
  assert (forall r, r_address (f r) = r_address r /\ r_end (f r) = r_end r
            /\ r_kind (f r) = r_kind r /\ r_size (f r) = r_size r) as Hplace.
  { intros r. destruct (Hf r) as [-> | ->]; [done|apply set_blank_place]. }
  split.
  - rewrite sort_by_perm. apply Forall_fmap. eapply Forall_impl; [exact Hok|]. intros r Hr.
    unfold compose, region_ok in *. destruct (Hplace r) as (_&_&->&->). done.
  - rewrite (sort_by_fmap r_address) by (intros; apply Hplace). unfold laid_out in *.
    induction Hlay as [|r l Hl IH Hr]; [constructor|]. rewrite fmap_cons. constructor; [done|].
    apply Forall_fmap. eapply Forall_impl; [exact Hr|]. intros r' Hr'. unfold compose.
    destruct (Hplace r) as (_&->&_), (Hplace r') as (->&_). done.
Qed.

Lemma target_spec_image rs img mem r x v :
  laid_out rs -> r ∈ rs -> contains r x = true -> byte_at img x = Some v -> target_spec rs img mem x = v.
Proof.
  intros Hlay Hr Hx Hv. unfold target_spec, region_at.
  destruct (filter (fun r => contains r x = true) rs) as [|r' l] eqn:E.
  - assert (r ∈ filter (fun r => contains r x = true) rs) as H by by apply list_elem_of_filter.
    rewrite E in H. by apply elem_of_nil in H.
  - cbn [head]. unfold cell_spec. by rewrite Hv.
Qed.

(** Programming works whatever the image, and verifies when that is asked for. *)
Lemma load_spec regions mem source do_erase do_verify assume_clean :
  Forall region_ok regions -> laid_out (sort_by r_address regions) -> (forall x, is_byte (mem x)) ->
  Forall (fun c : chunk => bytes_ok (snd c)) (chunks source) ->
  Forall (flags_ok mem do_erase assume_clean) regions ->
  let img := chunks (simplified source) in
  let '(regions', mem0) := pre_program erased regions mem do_erase assume_clean in
  exists mem', load erased program regions mem source do_erase do_verify assume_clean = Ok (regions', mem', true)
    /\ (forall x, mem' x = target_spec (sort_by r_address regions') img mem0 x)
    /\ (forall r x v, r ∈ regions -> contains r x = true -> byte_at img x = Some v -> mem' x = v).
Proof.
  intros Hok Hlay Hmem Hsrc Hflags img. unfold load.
  pose proof (pre_program_spec regions mem do_erase assume_clean Hmem Hflags) as Hpre.
  destruct (pre_program erased regions mem do_erase assume_clean) as [rs' mem0].
  destruct Hpre as ((f&->&Hf)&Hmem0&Hblank).
  destruct (prepared_regions f regions Hf Hok Hlay) as [Hok' Hlay'].
  assert (image_ok img) as Himg by (split; [apply simplified_spec|by apply simplified_bytes]).
  destruct (write_regions_spec (simplified source) (sort_by r_address (f <$> regions)) mem0)
    as (mem'&->&Hmem'); try done.
  { by rewrite sort_by_perm. }
  rewrite bind_of_Ok. exists mem'.
  assert (forall r x v, r ∈ sort_by r_address (f <$> regions) -> contains r x = true ->
            byte_at img x = Some v -> mem' x = v) as Hland.
  { intros r x v Hr Hx Hv. rewrite Hmem'. by eapply target_spec_image. }
  split_and!; [|done|].
  - destruct do_verify; [|done]. unfold verify. rewrite verify_spec; [done|done|done|..].
    + unfold simplified. cbn [chunks]. rewrite simplified_separated by apply simplified_spec. exact Himg.
    + unfold simplified at 1. cbn [chunks]. rewrite simplified_separated by apply simplified_spec. exact Hland.
  - intros r x v Hr Hx Hv. apply (Hland (f r)); [|by destruct (Hf r) as [-> | ->]; rewrite ?set_blank_contains|done].
    rewrite sort_by_perm. by apply list_elem_of_fmap_2.
Qed.
End Programming.

(** ** Theorems *)

(** C19: programming an image works whatever the image, and verifies.  Every
    byte of the (merged) image that falls in a region ends up in the target,
    including where several chunks share a flash page; a cell outside the
    regions is untouched; a flash cell that the image leaves out is erased
    exactly when its erase page is touched, and otherwise keeps its value.  The
    blank flags must tell the truth unless everything is erased first. *)
Theorem load_programs_image {erased program} `{!FlashCell erased program}
    regions mem source do_erase assume_clean :
  Forall region_ok regions -> laid_out (sort_by r_address regions) -> (forall x, is_byte (mem x)) ->
  Forall (fun c : chunk => bytes_ok (snd c)) (chunks source) ->
  Forall (flags_ok (erased:=erased) mem do_erase assume_clean) regions ->
  let img := chunks (simplified source) in
  let '(regions', mem0) := pre_program erased regions mem do_erase assume_clean in
  exists mem', load erased program regions mem source do_erase true assume_clean = Ok (regions', mem', true)
    /\ (forall x, mem' x = target_spec (erased:=erased) (sort_by r_address regions') img mem0 x)
    /\ (forall r x v, r ∈ regions -> contains r x = true -> byte_at img x = Some v -> mem' x = v).
Proof. intros. by apply load_spec. Qed.

(** Two chunks in one flash page, over old contents. *)
Definition sample_regions : list region := [mkRegion 0x100 32 Ram false; new_flash 0 64 16 [64; 32]].
Definition sample_image : MemoryMap := mkMap [(2, [1]); (0x104, [7; 8]); (5, [2; 3])] ∅ [].

Lemma load_programs_image_witness :
  exists mem', load 255 Z.land sample_regions (fun _ => 0x55) sample_image false true false
      = Ok (sample_regions, mem', true)
    /\ mem' 2 = 1 /\ mem' 5 = 2 /\ mem' 0x105 = 8 /\ mem' 3 = 255 /\ mem' 40 = 0x55.
Proof.
  pose proof (load_programs_image (erased:=255) (program:=Z.land) sample_regions (fun _ => 0x55) sample_image
    false false) as H.
  cbv zeta in H. unfold pre_program in H. destruct H as (mem'&E&Hs&Hl).
  - repeat constructor; try (vm_compute; congruence). exists 5. vm_compute. done.
  - repeat constructor. vm_compute. congruence.
  - intros. vm_compute. naive_solver.
  - repeat constructor; vm_compute; congruence.
  - repeat constructor; intros _ Hf Hb; cbn in *; destruct Hb; congruence.
  - exists mem'. rewrite !Hs. split; [exact E|]. split_and!; reflexivity.
Defined.

(** The blank flag outlives the blankness.  After a full erase and a write
    the flash is still flagged blank, so a second write skips the erase: the old
    bits stay and the verification fails. *)
Theorem blank_flag_survives_write :
  let flash := [new_flash 0 32 16 [32]] in
  match load 255 Z.land flash (fun _ => 0) (mkMap [(0, [0x0f])] ∅ []) true true false with
  | Ok (flash, mem1, verified1) =>
      match load 255 Z.land flash mem1 (mkMap [(0, [0xf0])] ∅ []) false true false with
      | Ok (_, mem2, verified2) =>
          verified1 = true /\ mem1 0 = 0x0f /\ verified2 = false /\ mem2 0 = 0
      | Err _ => False
      end
  | Err _ => False
  end.
Proof. vm_compute. repeat split. Qed.
