(* ===== verification/Allocator.v ===== *)
(** * The range allocator (src/acrobe/allocator.py)

    Best-fit allocation of address ranges with merging of free neighbours.  The
    free and the used ranges are Python sets: the model keeps them as lists
    without duplicates, and the order in which a loop meets the elements of a
    set is the parameter [iter], about which only [iter_perm] is assumed. *)

From S2P Require Import Prelude.

Open Scope Z_scope.

(** ** Ranges *)

Record Range : Type := mkRange { address : Z; size : Z }.

#[global] Instance Range_eq_dec : EqDecision Range.
Proof. solve_decision. Defined.

(** [Range.__init__] *)
Definition new_range (address size : Z) : result Range :=
  _ ← guard_or (0 <? size) AssertionError; Ok (mkRange address size).

Definition end_ (r : Range) : Z := address r + size r.

Definition touches (r other : Range) : bool :=
  if address other <? address r then end_ other =? address r else end_ r =? address other.

Definition merge (r other : Range) : result Range :=
  let '(lo, hi) := if address r <=? address other then (r, other) else (other, r) in
  _ ← guard_or (end_ lo =? address hi) AssertionError;
  new_range (address lo) (size lo + size hi).

(** [Range.split]: the part of [n] bytes and the remainder. *)
Definition split (r : Range) (n : Z) : result (Range * option Range) :=
  _ ← guard_or (n <=? size r) AssertionError;
  if n =? size r then Ok (r, None)
  else
    lo ← new_range (address r) n;
    hi ← new_range (address r + n) (size r - n);
    Ok (lo, Some hi).

(** [Range.split_alloc]: waste on the left, size, waste on the right. *)
Definition split_alloc (r : Range) (n align : Z) : result (option (Z * Z * Z)) :=
  if size r <? n then Ok None
  else
    let a := Z.land (end_ r - n) (Z.lnot (align - 1)) in
    if address r <=? a then Ok (Some (a - address r, n, end_ r - n - a))
    else
      _ ← guard_or (negb (align =? 0)) ZeroDivisionError;
      let a := if address r mod align =? 0 then address r
               else Z.lor (address r) (align - 1) + 1 in
      if a + n <=? end_ r then Ok (Some (a - address r, n, end_ r - n - a)) else Ok None.

(** ** Sets of ranges *)

Definition set_add (r : Range) (l : list Range) : list Range :=
  if decide (r ∈ l) then l else l ++ [r].

Definition set_remove (r : Range) (l : list Range) : result (list Range) :=
  if decide (r ∈ l) then Ok (filter (fun x => x <> r) l) else Err KeyError.

(** ** The allocator *)

Record Allocator : Type := mkAllocator {
  a_address : Z;
  a_size : Z;
  a_free : list Range;
  a_used : list Range
}.

(** [Allocator.__init__] *)
Definition new_allocator (address size : Z) : result Allocator :=
  r ← new_range address size; Ok (mkAllocator address size [r] []).

Section Operations.
Context (iter : list Range -> list Range).

(** The inner loop of [_merge_free]: the first free neighbour is merged in. *)
Definition merge_once (st : list Range * Range) : result (list Range * Range) :=
  let '(free, r) := st in
  match head (filter (fun b => touches b r = true) (iter free)) with
  | Some b => free ← set_remove b free; r ← merge r b; Ok (free, r)
  | None => Ok (free, r)
  end.

(** [_merge_free] *)
Definition merge_free (free : list Range) (r : Range) : result (list Range) :=
  st ← merge_once (free, r);
  '(free, r) ← merge_once st;
  Ok (set_add r free).

(** The search loop of [allocate]; a perfect fit ends it. *)
Fixpoint best_fit (n align : Z) (blocks : list Range) (best : option (Range * (Z * Z * Z)))
    : result (option (Range * (Z * Z * Z))) :=
  match blocks with
  | [] => Ok best
  | b :: blocks =>
      found ← split_alloc b n align;
      match found with
      | None => best_fit n align blocks best
      | Some (lwaste, m, rwaste) =>
          let waste := lwaste + rwaste in
          let better := match best with
                        | None => true
                        | Some (_, (l, _, r)) => waste <? l + r
                        end in
          if better then
            if waste =? 0 then Ok (Some (b, (lwaste, m, rwaste)))
            else best_fit n align blocks (Some (b, (lwaste, m, rwaste)))
          else best_fit n align blocks best
      end
  end.

(** The waste on each side goes back to the free ranges. *)
Definition carve_left (free : list Range) (block : Range) (lwaste : Z) : result (list Range * Range) :=
  if lwaste =? 0 then Ok (free, block)
  else
    '(crumb, rest) ← split block lwaste;
    free ← merge_free free crumb;
    match rest with Some rest => Ok (free, rest) | None => Err AttributeError end.

Definition carve_right (free : list Range) (remaining : Range) (m rwaste : Z) : result (list Range * Range) :=
  if rwaste =? 0 then Ok (free, remaining)
  else
    '(remaining, crumb) ← split remaining m;
    match crumb with
    | Some crumb => free ← merge_free free crumb; Ok (free, remaining)
    | None => Err AttributeError
    end.

(** [Allocator.allocate] *)
Definition allocate (a : Allocator) (n align : Z) : result (Allocator * Range) :=
  let n := if n =? 0 then 4 else n in
  _ ← guard_or (0 <? n) AssertionError;
  best ← best_fit n align (iter (a_free a)) None;
  match best with
  | None => Err ValueError
  | Some (block, (lwaste, m, rwaste)) =>
      free ← set_remove block (a_free a);
      '(free, remaining) ← carve_left free block lwaste;
      '(free, remaining) ← carve_right free remaining m rwaste;
      _ ← guard_or (negb (align =? 0)) ZeroDivisionError;
      _ ← guard_or (address remaining mod align =? 0) AssertionError;
      Ok (mkAllocator (a_address a) (a_size a) free (set_add remaining (a_used a)), remaining)
  end.

(** [Allocator.free] *)
Definition free (a : Allocator) (r : Range) : result Allocator :=
  used ← set_remove r (a_used a);
  free ← merge_free (a_free a) r;
  Ok (mkAllocator (a_address a) (a_size a) free used).

(** [Allocator.__contains__] *)
Definition contains (a : Allocator) (r : Range) : bool := bool_decide (r ∈ a_used a).
End Operations.

(** ** Ranges end to end *)

(** [chain a l b]: the ranges of [l], in order, fill the addresses from [a] to [b]. *)
Fixpoint chain (a : Z) (l : list Range) (b : Z) : Prop :=
  match l with
  | [] => a = b
  | r :: l => address r = a /\ 0 < size r /\ chain (end_ r) l b
  end.

Lemma chain_app a l1 l2 c : chain a (l1 ++ l2) c <-> exists b, chain a l1 b /\ chain b l2 c.
Proof.
  revert a. induction l1 as [|r l1 IH]; intros a; simpl; [naive_solver|]. rewrite IH. naive_solver.
Qed.

Lemma chain_bounds a l b : chain a l b -> a <= b /\ Forall (fun r => a <= address r /\ 0 < size r /\ end_ r <= b) l.
Proof.
  revert a. induction l as [|r l IH]; intros a; simpl; [intros ->; split; [lia|done]|].
  intros (Ha&Hs&Hc). destruct (IH _ Hc) as [Hle HF]. unfold end_ in *. split; [lia|].
  constructor; [lia|]. eapply Forall_impl; [exact HF|]. simpl. lia.
Qed.

(** A range splits the chain. *)
Lemma chain_split a l b r :
  chain a l b -> r ∈ l -> exists l1 l2, l = l1 ++ r :: l2 /\ chain a l1 (address r)
    /\ 0 < size r /\ chain (end_ r) l2 b.
Proof.
  intros Hc (l1&l2&->)%list_elem_of_split. exists l1, l2. split; [done|].
  apply chain_app in Hc as (m&H1&H2). simpl in H2. destruct H2 as (<-&?&?). done.
Qed.

(** Two ranges that share an address are the same range. *)
Lemma chain_disjoint a l b r r' x :
  chain a l b -> r ∈ l -> r' ∈ l -> address r <= x < end_ r -> address r' <= x < end_ r' -> r = r'.
Proof.
  intros Hc Hr Hr' Hx Hx'. destruct (chain_split _ _ _ _ Hc Hr) as (l1&l2&->&H1&_&H2).
  apply elem_of_app in Hr' as [Hr'|[-> |Hr']%elem_of_cons]; [|done|].
  - apply chain_bounds in H1 as [_ H1]. rewrite Forall_forall in H1. specialize (H1 _ Hr'). lia.
  - apply chain_bounds in H2 as [_ H2]. rewrite Forall_forall in H2. specialize (H2 _ Hr'). lia.
Qed.

Lemma chain_NoDup a l b : chain a l b -> NoDup l.
Proof.
  revert a. induction l as [|r l IH]; intros a; simpl; [constructor|]. intros (Ha&Hs&Hc).
  constructor; [|by eapply IH]. intros Hin. apply chain_bounds in Hc as [_ Hc].
  rewrite Forall_forall in Hc. specialize (Hc r Hin). unfold end_ in *. lia.
Qed.

Lemma chain_adjacent a l b x y :
  chain a l b -> x ∈ l -> y ∈ l -> end_ x = address y -> exists l1 l2, l = l1 ++ x :: y :: l2.
Proof.
  intros Hc Hx Hy He. destruct (chain_split _ _ _ _ Hc Hx) as (l1&l2&->&H1&Hs&H2).
  destruct (chain_split _ _ _ _ Hc Hy) as (_&_&_&_&Hsy&_). exists l1.
  apply elem_of_app in Hy as [Hy|[-> |Hy]%elem_of_cons].
  - apply chain_bounds in H1 as [_ H1]. rewrite Forall_forall in H1. specialize (H1 _ Hy). unfold end_ in *. lia.
  - unfold end_ in He. lia.
  - destruct l2 as [|y' l2]; [by apply elem_of_nil in Hy|]. exists l2. do 3 f_equal.
    pose proof H2 as (Ha&Hs'&_).
    apply (chain_disjoint _ _ _ y' y (address y) H2); [by left|done|unfold end_ in *; lia..].
Qed.

Lemma touches_iff b r :
  0 < size b -> 0 < size r -> touches b r = true <-> end_ b = address r \/ end_ r = address b.
Proof.
  intros. unfold touches, end_. destruct (Z.ltb_spec (address r) (address b)); rewrite Z.eqb_eq; lia.
Qed.

Lemma set_remove_spec r l :
  NoDup l -> r ∈ l -> exists l', set_remove r l = Ok l' /\ l ≡ₚ r :: l'.
Proof.
  intros Hnd Hr. unfold set_remove. rewrite decide_True by done. eexists. split; [done|].
  induction Hnd as [|x l Hx Hnd IH]; [by apply elem_of_nil in Hr|]. rewrite filter_cons.
  apply elem_of_cons in Hr as [-> |Hr].
  - rewrite decide_False by (intros H; by apply H). f_equiv.
    clear -Hx. induction l as [|y l IH]; [done|]. apply not_elem_of_cons in Hx as [Hxy Hx].
    rewrite filter_cons, decide_True by congruence. f_equiv. by apply IH.
  - rewrite decide_True by (intros ->; done). rewrite (IH Hr) at 1. apply Permutation_swap.
Qed.

(** Replacing two neighbours by their union. *)
Lemma chain_merge a l1 x y l2 b :
  chain a (l1 ++ x :: y :: l2) b ->
  merge x y = Ok (mkRange (address x) (size x + size y)) /\ merge y x = Ok (mkRange (address x) (size x + size y))
  /\ chain a (l1 ++ mkRange (address x) (size x + size y) :: l2) b.
Proof.
  intros (m&H1&(<-&Hsx&Hy&Hsy&H2))%chain_app. unfold merge, new_range, end_ in *.
  assert (address x <=? address y = true) as -> by (apply Z.leb_le; lia).
  assert (address y <=? address x = false) as -> by (apply Z.leb_gt; lia).
  assert (address x + size x =? address y = true) as -> by (apply Z.eqb_eq; lia).
  assert (0 <? size x + size y = true) as -> by (apply Z.ltb_lt; lia). split_and!; [done|done|].
  apply chain_app. exists (address x). split; [done|]. simpl. unfold end_. simpl. split_and!; [done|lia|].
  by replace (address x + (size x + size y)) with (address y + size y) by lia.
Qed.

Lemma perm_drop2 {A} (l1 l2 W : list A) x y : l1 ++ x :: y :: l2 ≡ₚ x :: y :: W -> l1 ++ l2 ≡ₚ W.
Proof.
  intros H. apply (Permutation_cons_inv (a := y)), (Permutation_cons_inv (a := x)).
  rewrite <- H. by rewrite !Permutation_middle.
Qed.

(** ** Merging free neighbours *)

Section Merging.
Context (iter : list Range -> list Range) (iter_perm : forall l, iter l ≡ₚ l).

(** [r] stands between the free ranges it can still be merged with. *)
Definition merged_step (F : list Range) (r : Range) (F' : list Range) (r' : Range) : Prop :=
  (F' = F /\ r' = r /\ Forall (fun b => touches b r = false) F)
  \/ exists b, F ≡ₚ b :: F' /\
       ((end_ b = address r /\ address r' = address b /\ end_ r' = end_ r)
        \/ (end_ r = address b /\ address r' = address r /\ end_ r' = end_ b)).

Lemma merge_once_spec a l b F U r :
  chain a l b -> l ≡ₚ r :: F ++ U ->
  exists F' r' l', merge_once iter (F, r) = Ok (F', r') /\ chain a l' b /\ l' ≡ₚ r' :: F' ++ U
    /\ merged_step F r F' r'.
Proof.
  intros Hc Hp. unfold merge_once.
  pose proof (chain_NoDup _ _ _ Hc) as Hnd. rewrite Hp in Hnd.
  apply NoDup_cons in Hnd as [_ Hnd]. apply NoDup_app in Hnd as (HndF&_&_).
  assert (forall x, x ∈ r :: F -> x ∈ l /\ 0 < size x) as Hin.
  { intros x Hx. assert (x ∈ l) as Hl by (rewrite Hp; set_solver). split; [done|].
    by destruct (chain_split _ _ _ _ Hc Hl) as (?&?&?&?&?&?). }
  destruct (filter (fun b => touches b r = true) (iter F)) as [|x xs] eqn:Ef; cbn [head].
  - exists F, r, l. split_and!; [done|done|done|]. left. split_and!; [done|done|].
    apply Forall_forall. intros x Hx. apply not_true_is_false. intros Ht.
    assert (x ∈ filter (fun b => touches b r = true) (iter F)) as H
      by (apply list_elem_of_filter; by rewrite iter_perm).
    rewrite Ef in H. by apply elem_of_nil in H.
  - assert (x ∈ filter (fun b => touches b r = true) (iter F)) as Hx by (rewrite Ef; by left).
    apply list_elem_of_filter in Hx as [Ht Hx]. rewrite iter_perm in Hx.
    destruct (set_remove_spec x F HndF Hx) as (F'&->&HF). rewrite bind_of_Ok.
    destruct (Hin x) as [Hxl Hsx]; [by right|]. destruct (Hin r) as [Hrl Hsr]; [by left|].
    apply touches_iff in Ht as [He|He]; [| |done|done].
    + destruct (chain_adjacent _ _ _ x r Hc Hxl Hrl He) as (l1&l2&->).
      destruct (chain_merge _ _ _ _ _ _ Hc) as (_&->&Hc'). rewrite bind_of_Ok.
      eexists _, _, _. split_and!; [done|exact Hc'| |right; exists x; split; [done|left; unfold end_ in *; simpl; lia]].
      rewrite HF in Hp. rewrite <- Permutation_middle. f_equiv. apply (perm_drop2 _ _ _ x r).
      rewrite Hp. apply Permutation_swap.
    + destruct (chain_adjacent _ _ _ r x Hc Hrl Hxl He) as (l1&l2&->).
      destruct (chain_merge _ _ _ _ _ _ Hc) as (->&_&Hc'). rewrite bind_of_Ok.
      eexists _, _, _. split_and!; [done|exact Hc'| |right; exists x; split; [done|right; unfold end_ in *; simpl; lia]].
      rewrite HF in Hp. rewrite <- Permutation_middle. f_equiv. by apply (perm_drop2 _ _ _ r x).
Qed.

(** No two free ranges touch. *)
Definition coalesced (F : list Range) : Prop := forall x y, x ∈ F -> y ∈ F -> end_ x <> address y.

(** Two rounds are enough. *)
Lemma merged_twice F r F1 r1 F2 r2 :
  coalesced F -> (forall x, x ∈ r :: F -> 0 < size x) -> 0 < size r1 ->
  merged_step F r F1 r1 -> merged_step F1 r1 F2 r2 ->
  coalesced F2 /\ forall x, x ∈ F2 -> end_ x <> address r2 /\ end_ r2 <> address x.
Proof.
  intros Hco Hpos Hr1 S1 S2.
  assert (forall F' x y, F' ⊆ F -> Forall (fun b => touches b y = false) F' -> x ∈ F' -> 0 < size y ->
            end_ x <> address y /\ end_ y <> address x) as Hno.
  { intros F' x y Hsub HN Hx Hy. rewrite Forall_forall in HN. specialize (HN x Hx).
    destruct (touches_iff x y) as [_ H]; [apply Hpos; right; by apply Hsub|done|].
    split; intros He; rewrite H in HN by auto; done. }
  destruct S1 as [(->&->&HN)|(x&HF&Hx)].
  - destruct S2 as [(->&->&HN2)|(y&HF2&Hy)].
    + split; [done|]. intros x Hx. by eapply Hno.
    + assert (y ∈ F) as HyF by (rewrite HF2; by left). destruct (Hno F y r ltac:(done) HN HyF Hr1). lia.
  - assert (x ∈ F) as HxF by (rewrite HF; by left).
    assert (F1 ⊆ F) as Hsub by (intros z Hz; rewrite HF; by right).
    destruct S2 as [(->&->&HN2)|(y&HF2&Hy)].
    + split; [intros z w Hz Hw; by apply Hco; apply Hsub|]. intros z Hz. by eapply Hno.
    + assert (y ∈ F) as HyF by (apply Hsub; rewrite HF2; by left).
      assert (F2 ⊆ F) as Hsub2 by (intros z Hz; apply Hsub; rewrite HF2; by right).
      pose proof (Hco x y HxF HyF). pose proof (Hco y x HyF HxF).
      split; [intros z w Hz Hw; by apply Hco; apply Hsub2|]. intros z Hz. apply Hsub2 in Hz.
      pose proof (Hco x z HxF Hz). pose proof (Hco z x Hz HxF). pose proof (Hco y z HyF Hz).
      pose proof (Hco z y Hz HyF). lia.
Qed.

Lemma merge_free_spec a l b F U r :
  chain a l b -> l ≡ₚ r :: F ++ U -> coalesced F ->
  exists F' l', merge_free iter F r = Ok F' /\ chain a l' b /\ l' ≡ₚ F' ++ U /\ coalesced F'.
Proof.
  intros Hc Hp Hco. unfold merge_free.
  destruct (merge_once_spec a l b F U r Hc Hp) as (F1&r1&l1&->&Hc1&Hp1&S1). rewrite bind_of_Ok.
  destruct (merge_once_spec a l1 b F1 U r1 Hc1 Hp1) as (F2&r2&l2&->&Hc2&Hp2&S2). rewrite bind_of_Ok.
  pose proof (chain_NoDup _ _ _ Hc2) as Hnd. rewrite Hp2 in Hnd. apply NoDup_cons in Hnd as [Hn Hnd].
  assert (set_add r2 F2 = F2 ++ [r2]) as -> by (unfold set_add; rewrite decide_False; set_solver).
  eexists _, l2. split_and!; [done|done| |].
  { rewrite Hp2. rewrite <- app_assoc. simpl. by rewrite Permutation_middle. }
  assert (forall x, x ∈ r2 :: F2 -> 0 < size x) as Hpos.
  { intros x Hx. assert (x ∈ l2) as Hl by (rewrite Hp2; set_solver).
    by destruct (chain_split _ _ _ _ Hc2 Hl) as (?&?&?&?&?&?). }
  destruct (merged_twice F r F1 r1 F2 r2) as [Hco2 Hfree]; try done.
  { intros x Hx. assert (x ∈ l) as Hl by (rewrite Hp; set_solver).
    by destruct (chain_split _ _ _ _ Hc Hl) as (?&?&?&?&?&?). }
  { assert (r1 ∈ l1) as Hl by (rewrite Hp1; by left).
    by destruct (chain_split _ _ _ _ Hc1 Hl) as (?&?&?&?&?&?). }
  intros x y Hx Hy. apply elem_of_app in Hx as [Hx|Hx%list_elem_of_singleton];
    apply elem_of_app in Hy as [Hy|Hy%list_elem_of_singleton]; subst.
  - by apply Hco2.
  - by apply Hfree.
  - by apply Hfree.
  - assert (0 < size r2) by (apply Hpos; by left). unfold end_. lia.
Qed.
End Merging.

(** ** Allocation *)

(** An aligned place for [n] bytes in the block. *)
Definition fits (n align : Z) (b : Range) (x : Z) : Prop :=
  x mod align = 0 /\ address b <= x /\ x + n <= end_ b.

Lemma split_alloc_spec r n k :
  0 < n -> 0 <= k ->
  exists o, split_alloc r n (2 ^ k) = Ok o /\
  match o with
  | Some (lw, m, rw) =>
      m = n /\ 0 <= lw /\ 0 <= rw /\ lw + n + rw = size r /\ (address r + lw) mod 2 ^ k = 0
  | None => forall x, ~ fits n (2 ^ k) r x
  end.
Proof.
  intros Hn Hk. unfold split_alloc, fits, end_. assert (0 < 2 ^ k) as Hp by lia.
  destruct (Z.ltb_spec (size r) n); [eexists; split; [done|]; intros x (?&?&?); lia|].
  rewrite align_down_pow2 by done. set (q := (address r + size r - n) / 2 ^ k).
  assert (q * 2 ^ k <= address r + size r - n < q * 2 ^ k + 2 ^ k) as Hq.
  { pose proof (Z.div_mod (address r + size r - n) (2 ^ k)).
    pose proof (Z.mod_pos_bound (address r + size r - n) (2 ^ k)). unfold q. lia. }
  destruct (Z.leb_spec (address r) (q * 2 ^ k)).
  - eexists. split; [done|]. split_and!; try lia.
    replace (address r + (q * 2 ^ k - address r)) with (q * 2 ^ k) by lia. apply Z.mod_mul. lia.
  - assert (forall x, x mod 2 ^ k = 0 -> address r <= x -> ~ x + n <= address r + size r) as Hno.
    { intros x Hx Ha He. apply Z.div_exact in Hx; [|lia].
      assert (x / 2 ^ k <= q) by (unfold q; apply Z.div_le_mono; lia). nia. }
    destruct (Z.eqb_spec (2 ^ k) 0); [lia|]. cbn [negb guard_or]. rewrite bind_of_Ok.
    set (up := if address r mod 2 ^ k =? 0 then address r else Z.lor (address r) (2 ^ k - 1) + 1).
    assert (up mod 2 ^ k = 0 /\ address r <= up) as [Hm Hup].
    { unfold up. destruct (Z.eqb_spec (address r mod 2 ^ k) 0); [lia|].
      rewrite lor_low_ones by done.
      replace (address r / 2 ^ k * 2 ^ k + (2 ^ k - 1) + 1) with ((address r / 2 ^ k + 1) * 2 ^ k) by lia.
      split; [apply Z.mod_mul; lia|]. pose proof (Z.div_mod (address r) (2 ^ k)).
      pose proof (Z.mod_pos_bound (address r) (2 ^ k)). lia. }
    destruct (Z.leb_spec (up + n) (address r + size r)).
    + exfalso. by apply (Hno up).
    + eexists. split; [done|]. intros x (Hx&Ha&He). by apply (Hno x).
Qed.

Definition good (n k : Z) (b : Range) (res : Z * Z * Z) : Prop := split_alloc b n (2 ^ k) = Ok (Some res).

Definition waste (res : Z * Z * Z) : Z := let '(lw, _, rw) := res in lw + rw.

Lemma waste_nonneg n k b res : 0 < n -> 0 <= k -> good n k b res -> 0 <= waste res.
Proof.
  intros Hn Hk Hg. destruct (split_alloc_spec b n k Hn Hk) as (o&E&Ho). unfold good in Hg.
  rewrite E in Hg. injection Hg as ->. destruct res as [[lw m] rw]. unfold waste. lia.
Qed.

(** The search finds a block with the least waste, or there is none. *)
Lemma best_fit_spec n k blocks : 0 < n -> 0 <= k -> forall best,
  (forall b res, best = Some (b, res) -> good n k b res) ->
  exists o, best_fit n (2 ^ k) blocks best = Ok o /\
  match o with
  | Some (b, res) =>
      good n k b res /\ (best = Some (b, res) \/ b ∈ blocks)
      /\ (forall b0 res0, best = Some (b0, res0) \/ b0 ∈ blocks /\ good n k b0 res0 -> waste res <= waste res0)
  | None => best = None /\ forall b0 res0, b0 ∈ blocks -> ~ good n k b0 res0
  end.
Proof.
  intros Hn Hk. induction blocks as [|b blocks IH]; intros best Hbest.
  { exists best. split; [done|]. destruct best as [[b res]|]; [|split; [done|set_solver]].
    split_and!; [by apply Hbest|by left|]. intros b0 res0 [[= -> ->]|[H _]]; [done|set_solver]. }
  cbn [best_fit]. destruct (split_alloc b n (2 ^ k)) as [found|e] eqn:Es; cycle 1.
  { exfalso. destruct (split_alloc_spec b n k Hn Hk) as (o&E&_). congruence. }
  rewrite bind_of_Ok. destruct found as [[[lw m] rw]|].
  - assert (good n k b (lw, m, rw)) as Hg by done.
    assert (forall best', (forall b0 res0, best' = Some (b0, res0) -> good n k b0 res0) ->
      (forall b0 res0, best = Some (b0, res0) -> exists b1 res1, best' = Some (b1, res1) /\ waste res1 <= waste res0) ->
      (exists b1 res1, best' = Some (b1, res1) /\ waste res1 <= lw + rw) ->
      (best' = best \/ best' = Some (b, (lw, m, rw))) ->
      exists o, best_fit n (2 ^ k) blocks best' = Ok o /\
      match o with
      | Some (b0, res) => good n k b0 res /\ (best = Some (b0, res) \/ b0 ∈ b :: blocks)
          /\ (forall b1 res1, best = Some (b1, res1) \/ b1 ∈ b :: blocks /\ good n k b1 res1 -> waste res <= waste res1)
      | None => best = None /\ forall b0 res0, b0 ∈ b :: blocks -> ~ good n k b0 res0
      end) as Hstep.
    { intros best' Hb' Hold (b1&res1&E1&Hw1) Hwhich. destruct (IH best' Hb') as (o&E&Ho).
      exists o. split; [done|]. destruct o as [[b0 res]|]; [|destruct Ho; congruence].
      destruct Ho as (Hgood&Hin&Hmin). split_and!; [done|destruct Hwhich as [-> | ->]; set_solver|].
      intros b2 res2 [Hb2|[Hb2 Hg2]].
      - destruct (Hold _ _ Hb2) as (b3&res3&E3&Hw3). specialize (Hmin b3 res3 (or_introl E3)). lia.
      - apply elem_of_cons in Hb2 as [-> |Hb2]; [|by apply (Hmin b2); right].
        assert (res2 = (lw, m, rw)) as -> by (unfold good in *; congruence).
        specialize (Hmin b1 res1 (or_introl E1)). unfold waste at 2. lia. }
    destruct best as [[b0 [[l0 m0] r0]]|].
    + destruct (Z.ltb_spec (lw + rw) (l0 + r0)).
      * destruct (Z.eqb_spec (lw + rw) 0).
        -- eexists. split; [done|]. split_and!; [done|right; by left|].
           intros b1 res1 Hb1. assert (0 <= waste res1); [|unfold waste at 1; lia].
           destruct Hb1 as [Hb1|[_ Hg1]]; eapply waste_nonneg; eauto.
        -- apply Hstep; [by intros ?? [= <- <-]| |by eexists _, _|by right].
           intros ?? [= <- <-]. eexists _, _. split; [done|]. unfold waste. lia.
      * apply Hstep; [done| |eexists _, _; split; [done|unfold waste; lia]|by left].
        intros ?? [= <- <-]. by eexists _, _.
    + destruct (Z.eqb_spec (lw + rw) 0).
      * eexists. split; [done|]. split_and!; [done|right; by left|].
        intros b1 res1 Hb1. assert (0 <= waste res1); [|unfold waste at 1; lia].
        destruct Hb1 as [Hb1|[_ Hg1]]; [done|eapply waste_nonneg; eauto].
      * apply Hstep; [by intros ?? [= <- <-]|done|by eexists _, _|by right].
  - destruct (IH best Hbest) as (o&E&Ho). exists o. split; [done|].
    assert (forall res0, ~ good n k b res0) as Hnot by (unfold good; congruence).
    destruct o as [[b0 res]|].
    + destruct Ho as (Hg&Hin&Hmin). split_and!; [done|set_solver|].
      intros b1 res1 [Hb1|[Hb1 Hg1]]; [apply (Hmin b1); by left|].
      apply elem_of_cons in Hb1 as [-> |Hb1]; [by apply Hnot in Hg1|apply (Hmin b1); by right].
    + destruct Ho as [-> Ho]. split; [done|]. intros b0 res0 [-> |Hb0]%elem_of_cons; [apply Hnot|by apply Ho].
Qed.

Lemma chain_replace a l1 x ys l2 b :
  chain a (l1 ++ x :: l2) b -> chain (address x) ys (end_ x) -> chain a (l1 ++ ys ++ l2) b.
Proof.
  intros (m&H1&(<-&_&H2))%chain_app Hys. apply chain_app. eexists. split; [done|].
  apply chain_app. by eexists.
Qed.

Lemma split_Ok r n :
  0 < n < size r ->
  split r n = Ok (mkRange (address r) n, Some (mkRange (address r + n) (size r - n)))
  /\ chain (address r) [mkRange (address r) n; mkRange (address r + n) (size r - n)] (end_ r).
Proof.
  intros Hn. unfold split, new_range. rewrite (proj2 (Z.leb_le _ _)) by lia. cbn [guard_or]. rewrite bind_of_Ok.
  rewrite (proj2 (Z.eqb_neq _ _)), !(proj2 (Z.ltb_lt _ _)) by lia. split; [done|].
  simpl. unfold end_. simpl. lia.
Qed.

Section Allocation.
Context (iter : list Range -> list Range) (iter_perm : forall l, iter l ≡ₚ l).

(** The state during [allocate]: [F] is free, [U] in use, [r] is carved from. *)
Definition carving (a b : Z) (F U : list Range) (r : Range) : Prop :=
  exists l, chain a l b /\ l ≡ₚ r :: F ++ U /\ coalesced F.

Lemma carving_split a b F U r n :
  carving a b F U r -> 0 < n < size r ->
  let lo := mkRange (address r) n in
  let hi := mkRange (address r + n) (size r - n) in
  (exists F', merge_free iter F lo = Ok F' /\ carving a b F' U hi)
  /\ (exists F', merge_free iter F hi = Ok F' /\ carving a b F' U lo).
Proof.
  intros (l&Hc&Hp&Hco) Hn lo hi. destruct (split_Ok r n Hn) as [_ Hch].
  assert (r ∈ l) as Hr by (rewrite Hp; by left).
  destruct (chain_split _ _ _ _ Hc Hr) as (l1&l2&->&_).
  pose proof (chain_replace _ _ _ _ _ _ Hc Hch) as Hc'. fold lo hi in Hc'.
  assert (l1 ++ l2 ≡ₚ F ++ U) as HFU.
  { apply (Permutation_cons_inv (a := r)). by rewrite <- Hp, Permutation_middle. }
  assert (l1 ++ [lo; hi] ++ l2 ≡ₚ lo :: hi :: F ++ U) as Hp'.
  { rewrite <- HFU. simpl. by rewrite <- !Permutation_middle. }
  split.
  - destruct (merge_free_spec iter iter_perm a _ b F (hi :: U) lo Hc') as (F'&l'&E&H1&H2&H3); [|done|].
    { rewrite Hp'. f_equiv. by rewrite Permutation_middle. }
    exists F'. split; [done|]. exists l'. split_and!; [done| |done]. by rewrite H2, Permutation_middle.
  - destruct (merge_free_spec iter iter_perm a _ b F (lo :: U) hi Hc') as (F'&l'&E&H1&H2&H3); [|done|].
    { rewrite Hp', Permutation_swap. f_equiv. by rewrite Permutation_middle. }
    exists F'. split; [done|]. exists l'. split_and!; [done| |done]. by rewrite H2, Permutation_middle.
Qed.

Lemma carve_left_spec a b F U block lw :
  carving a b F U block -> 0 <= lw < size block ->
  exists F' rest, carve_left iter F block lw = Ok (F', rest) /\ carving a b F' U rest
    /\ address rest = address block + lw /\ size rest = size block - lw.
Proof.
  intros Hc Hlw. unfold carve_left.
  destruct (Z.eqb_spec lw 0) as [-> |]; [exists F, block; split_and!; [done|done|lia|lia]|].
  destruct (split_Ok block lw) as [-> _]; [lia|].
  destruct (carving_split _ _ _ _ _ lw Hc ltac:(lia)) as [(F1&EF&H1) _].
  rewrite bind_of_Ok, EF, bind_of_Ok. by eexists _, _.
Qed.

Lemma carve_right_spec a b F U rest m rw :
  carving a b F U rest -> size rest = m + rw -> 0 < m /\ 0 <= rw ->
  exists F', carve_right iter F rest m rw = Ok (F', mkRange (address rest) m)
    /\ carving a b F' U (mkRange (address rest) m).
Proof.
  intros Hc Hs Hm. unfold carve_right. destruct (Z.eqb_spec rw 0) as [-> |].
  - assert (mkRange (address rest) m = rest) as -> by (destruct rest; simpl in *; f_equal; lia). by exists F.
  - destruct (split_Ok rest m) as [-> _]; [lia|].
    destruct (carving_split _ _ _ _ _ m Hc ltac:(lia)) as [_ (F2&EF&H2)].
    rewrite bind_of_Ok, EF, bind_of_Ok. by exists F2.
Qed.

(** Free and used ranges tile the arena, and free neighbours are merged. *)
Definition alloc_ok (a : Allocator) : Prop :=
  exists l, chain (a_address a) l (a_address a + a_size a) /\ l ≡ₚ a_free a ++ a_used a /\ coalesced (a_free a).

Lemma allocate_spec a n k :
  alloc_ok a -> 0 <= n -> 0 <= k ->
  let m := if n =? 0 then 4 else n in
  match allocate iter a n (2 ^ k) with
  | Ok (a', r) =>
      alloc_ok a' /\ size r = m /\ address r mod 2 ^ k = 0 /\ a_used a' = a_used a ++ [r] /\ (r ∉ a_used a)
      /\ a_address a' = a_address a /\ a_size a' = a_size a
      /\ exists block, block ∈ a_free a /\ fits m (2 ^ k) block (address r)
           /\ forall block' x, block' ∈ a_free a -> fits m (2 ^ k) block' x -> size block <= size block'
  | Err e => e = ValueError /\ forall block x, block ∈ a_free a -> ~ fits m (2 ^ k) block x
  end.
Proof.
  intros (l&Hc&Hp&Hco) Hn Hk m. unfold allocate. fold m.
  assert (0 < m) as Hm by (unfold m; destruct (Z.eqb_spec n 0); lia).
  rewrite (proj2 (Z.ltb_lt 0 m)) by done. cbn [guard_or]. rewrite bind_of_Ok.
  destruct (best_fit_spec m k (iter (a_free a)) Hm Hk None) as (o&->&Ho); [done|]. rewrite bind_of_Ok.
  assert (forall b x, fits m (2 ^ k) b x -> exists res, good m k b res /\ waste res = size b - m) as Hfits.
  { intros b x Hx. destruct (split_alloc_spec b m k Hm Hk) as (o'&E&Ho'). destruct o' as [[[lw m'] rw]|].
    - exists (lw, m', rw). split; [done|]. unfold waste. lia.
    - by apply Ho' in Hx. }
  destruct o as [[block [[lw m'] rw]]|].
  2: { split; [done|]. intros b x Hb Hx. destruct Ho as [_ Ho]. destruct (Hfits b x Hx) as (res&Hg&_).
       apply (Ho b res); [by rewrite iter_perm|done]. }
  destruct Ho as (Hg&[?|Hb]&Hmin); [done|]. rewrite iter_perm in Hb.
  destruct (split_alloc_spec block m k Hm Hk) as (o'&E&Ho'). unfold good in Hg. rewrite E in Hg. injection Hg as ->.
  destruct Ho' as (->&Hlw&Hrw&Hsum&Hal).
  assert (NoDup (a_free a)) as HndF.
  { pose proof (chain_NoDup _ _ _ Hc) as H. rewrite Hp in H. by apply NoDup_app in H as (?&_&_). }
  destruct (set_remove_spec block (a_free a) HndF Hb) as (F&->&HF). rewrite bind_of_Ok.
  assert (carving (a_address a) (a_address a + a_size a) F (a_used a) block) as Hcarve.
  { exists l. split_and!; [done|by rewrite Hp, HF|]. intros x y Hx Hy. apply Hco; rewrite HF; by right. }
  clear E. destruct (carve_left_spec _ _ _ _ _ lw Hcarve) as (F1&rest&->&Hc1&Ha1&Hs1); [lia|].
  rewrite bind_of_Ok.
  destruct (carve_right_spec _ _ _ _ _ m rw Hc1) as (F2&->&Hc2); [lia|lia|]. rewrite Ha1 in *.
  rewrite bind_of_Ok. destruct (Z.eqb_spec (2 ^ k) 0); [lia|]. cbn [negb guard_or address]. rewrite bind_of_Ok.
  rewrite Hal, Z.eqb_refl. cbn [guard_or]. rewrite bind_of_Ok.
  destruct Hc2 as (l2&Hch&Hpm&Hco2). set (r := mkRange (address block + lw) m) in *.
  assert (r ∉ a_used a) as Hfresh.
  { pose proof (chain_NoDup _ _ _ Hch) as H. rewrite Hpm in H. apply NoDup_cons in H as [H _]. set_solver. }
  unfold set_add. rewrite decide_False by done. split_and!; try done.
  - exists l2. cbn. split_and!; [done| |done]. rewrite Hpm, app_assoc. apply Permutation_cons_append.
  - exists block. split; [done|]. split; [unfold fits, end_; simpl; lia|]. intros b' x Hb' Hx.
    destruct (Hfits b' x Hx) as (res&Hg'&Hw). rewrite <- (iter_perm (a_free a)) in Hb'.
    specialize (Hmin b' res (or_intror (conj Hb' Hg'))). unfold waste at 1 in Hmin. lia.
Qed.

Lemma free_spec a r :
  alloc_ok a ->
  match free iter a r with
  | Ok a' => r ∈ a_used a /\ alloc_ok a' /\ a_used a ≡ₚ r :: a_used a'
      /\ a_address a' = a_address a /\ a_size a' = a_size a
  | Err e => e = KeyError /\ (r ∉ a_used a)
  end.
Proof.
  intros (l&Hc&Hp&Hco). unfold free. destruct (decide (r ∈ a_used a)) as [Hr|Hr].
  - assert (NoDup (a_used a)) as Hnd.
    { pose proof (chain_NoDup _ _ _ Hc) as H. rewrite Hp in H. by apply NoDup_app in H as (_&_&?). }
    destruct (set_remove_spec r (a_used a) Hnd Hr) as (U&->&HU). rewrite bind_of_Ok.
    destruct (merge_free_spec iter iter_perm _ l _ (a_free a) U r Hc) as (F&l'&->&Hc'&Hp'&Hco'); [|done|].
    { by rewrite Hp, HU, Permutation_middle. }
    rewrite bind_of_Ok. split_and!; try done. by exists l'.
  - unfold set_remove. by rewrite decide_False.
Qed.
End Allocation.

(** ** Reachable allocators *)

Inductive alloc_step : Allocator -> Allocator -> Prop :=
  | step_allocate iter a n k a' r :
      (forall l, iter l ≡ₚ l) -> 0 <= n -> 0 <= k -> allocate iter a n (2 ^ k) = Ok (a', r) -> alloc_step a a'
  | step_free iter a r a' :
      (forall l, iter l ≡ₚ l) -> free iter a r = Ok a' -> alloc_step a a'.

Lemma alloc_step_ok a a' :
  alloc_step a a' -> alloc_ok a -> alloc_ok a' /\ a_address a' = a_address a /\ a_size a' = a_size a.
Proof.
  intros [iter a1 n k a2 r Hi Hn Hk E|iter a1 r a2 Hi E] Hok.
  - pose proof (allocate_spec iter Hi a1 n k Hok Hn Hk) as H. rewrite E in H.
    by destruct H as (?&_&_&_&_&?&?&_).
  - pose proof (free_spec iter Hi a1 r Hok) as H. rewrite E in H. by destruct H as (_&?&_&?&?).
Qed.

Lemma reachable_ok addr sz a0 a :
  new_allocator addr sz = Ok a0 -> rtc alloc_step a0 a ->
  0 < sz /\ alloc_ok a /\ a_address a = addr /\ a_size a = sz.
Proof.
  unfold new_allocator, new_range. destruct (Z.ltb_spec 0 sz); [|done]. cbn [guard_or].
  rewrite !bind_of_Ok. intros [= <-] Hstar. split; [done|].
  assert (forall b, rtc alloc_step b a -> alloc_ok b -> a_address b = addr -> a_size b = sz ->
            alloc_ok a /\ a_address a = addr /\ a_size a = sz) as Hinv.
  { induction 1 as [b|b c d Hbc Hcd IH]; intros Hok Ha Hs; [done|].
    destruct (alloc_step_ok _ _ Hbc Hok) as (?&?&?). apply IH; congruence. }
  apply (Hinv _ Hstar); [|done|done]. exists [mkRange addr sz]. cbn. split_and!; [done|done|done|done|].
  intros x y ->%list_elem_of_singleton ->%list_elem_of_singleton. unfold end_. simpl. lia.
Qed.

Lemma chain_cover a l b x : chain a l b -> a <= x < b -> exists r, r ∈ l /\ address r <= x < end_ r.
Proof.
  revert a. induction l as [|r l IH]; intros a; simpl; [lia|]. intros (Ha&Hs&Hc) Hx.
  destruct (Z.le_gt_cases (end_ r) x).
  - destruct (IH _ Hc) as (r'&Hr'&Hx'); [lia|]. exists r'. split; [by right|done].
  - exists r. split; [by left|lia].
Qed.

(** ** Theorems *)

(** C23: however ranges are allocated and freed, and in whatever order the loops
    meet the sets, free and used ranges partition the arena: every address lies
    in exactly one of them, none sticks out, and once everything is freed the
    arena is one free range again. *)
Theorem allocator_partitions_arena addr sz a0 a :
  new_allocator addr sz = Ok a0 -> rtc alloc_step a0 a ->
  NoDup (a_free a ++ a_used a)
  /\ (forall r, r ∈ a_free a ++ a_used a -> 0 < size r /\ addr <= address r /\ end_ r <= addr + sz)
  /\ (forall x, addr <= x < addr + sz ->
        exists r, r ∈ a_free a ++ a_used a /\ address r <= x < end_ r
          /\ forall r', r' ∈ a_free a ++ a_used a -> address r' <= x < end_ r' -> r' = r)
  /\ (a_used a = [] -> a_free a = [mkRange addr sz]).
Proof.
  intros Hnew Hstar. destruct (reachable_ok _ _ _ _ Hnew Hstar) as (Hsz&(l&Hc&Hp&Hco)&Ha&Hs).
  rewrite Ha, Hs in Hc. split_and!.
  - rewrite <- Hp. by eapply chain_NoDup.
  - intros r Hr. rewrite <- Hp in Hr. apply chain_bounds in Hc as [_ Hc]. rewrite Forall_forall in Hc.
    specialize (Hc r Hr). lia.
  - intros x Hx. destruct (chain_cover _ _ _ _ Hc Hx) as (r&Hr&Hxr). exists r. rewrite <- Hp.
    split; [done|]. split; [done|]. intros r' Hr' Hxr'. rewrite <- Hp in Hr'. by eapply chain_disjoint.
  - intros HU. rewrite HU, app_nil_r in Hp. destruct l as [|r [|r' l]]; simpl in Hc; [lia| |].
    + destruct Hc as (Har&_&He). symmetry in Hp. apply Permutation_singleton_r in Hp. rewrite Hp.
      destruct r. unfold end_ in He. simpl in *. do 2 f_equal; lia.
    + destruct Hc as (_&_&Hr'&_). exfalso. apply (Hco r r'); [rewrite <- Hp; set_solver..|done].
Qed.

Lemma allocator_partitions_arena_witness :
  exists a, rtc alloc_step (mkAllocator 0x100 64 [mkRange 0x100 64] []) a
    /\ a_used a = [mkRange 0x120 32] /\ NoDup (a_free a ++ a_used a).
Proof.
  assert (exists a r, allocate id (mkAllocator 0x100 64 [mkRange 0x100 64] []) 32 (2 ^ 3) = Ok (a, r)
    /\ a_used a = [mkRange 0x120 32]) as (a&r&E&Hu) by (do 2 eexists; vm_compute; done).
  exists a. assert (rtc alloc_step (mkAllocator 0x100 64 [mkRange 0x100 64] []) a) as Hstar
    by (eapply rtc_once, (step_allocate id _ 32 3); [done|lia|lia|exact E]).
  split; [exact Hstar|]. split; [exact Hu|].
  destruct (allocator_partitions_arena 0x100 64 (mkAllocator 0x100 64 [mkRange 0x100 64] []) a) as (H&_);
    [vm_compute; reflexivity|exact Hstar|exact H].
Defined.

(** An allocation with a power-of-two alignment succeeds exactly when some
    free range has an aligned place for it; the range returned has the size
    asked for (4 for 0), is aligned, was free, and is cut from a smallest free
    range that can hold it.  The only error is [ValueError]. *)
Theorem allocate_best_fit iter addr sz a0 a n k :
  (forall l, iter l ≡ₚ l) -> new_allocator addr sz = Ok a0 -> rtc alloc_step a0 a -> 0 <= n -> 0 <= k ->
  let m := if n =? 0 then 4 else n in
  match allocate iter a n (2 ^ k) with
  | Ok (a', r) =>
      size r = m /\ address r mod 2 ^ k = 0 /\ a_used a' = a_used a ++ [r] /\ (r ∉ a_used a)
      /\ exists block, block ∈ a_free a /\ fits m (2 ^ k) block (address r)
           /\ forall block' x, block' ∈ a_free a -> fits m (2 ^ k) block' x -> size block <= size block'
  | Err e => e = ValueError /\ forall block x, block ∈ a_free a -> ~ fits m (2 ^ k) block x
  end.
Proof.
  intros Hi Hnew Hstar Hn Hk m. destruct (reachable_ok _ _ _ _ Hnew Hstar) as (_&Hok&_).
  pose proof (allocate_spec iter Hi a n k Hok Hn Hk) as H.
  destruct (allocate iter a n (2 ^ k)) as [[a' r]|]; [|done].
  by destruct H as (_&?&?&?&?&_&_&?).
Qed.

Lemma allocate_best_fit_witness :
  exists a, allocate id (mkAllocator 0 16 [mkRange 0 16] []) 0 (2 ^ 3) = Ok (a, mkRange 8 4)
    /\ a_used a = [mkRange 8 4].
Proof.
  pose proof (allocate_best_fit id 0 16 (mkAllocator 0 16 [mkRange 0 16] []) _ 0 3
    ltac:(done) ltac:(vm_compute; reflexivity) (rtc_refl _ _) ltac:(lia) ltac:(lia)) as H.
  destruct (allocate id (mkAllocator 0 16 [mkRange 0 16] []) 0 (2 ^ 3)) as [[a r]|e] eqn:E.
  - exists a. vm_compute in E. injection E as <- <-. split; [done|].
    destruct H as (_&_&H&_). exact H.
  - vm_compute in E. discriminate.
Defined.
