(* ===== verification/PyText.v ===== *)
(** * Text

    What the debugger protocol (src/acrobe/target/gdb/) and the STAPL player
    (src/acrobe/stapl/) use of Python to read and write text: [int(text, 16)],
    [binascii.a2b_hex] and [bytes.hex], the ["%x"] format, UTF-8, searching and
    splitting.  Text is a list of code points, bytes a list of integers. *)

From Stdlib Require Import Ascii String.
From S2P Require Import Prelude.

Open Scope Z_scope.

(** A literal of the program. *)
Definition lit (s : string) : list Z := Z.of_nat ∘ nat_of_ascii <$> list_ascii_of_string s.

(** ** Characters *)

Definition is_space (c : Z) : bool := (c =? 32) || ((9 <=? c) && (c <=? 13)).

Definition digit16 (c : Z) : option Z :=
  if (48 <=? c) && (c <=? 57) then Some (c - 48)
  else if (65 <=? c) && (c <=? 70) then Some (c - 55)
  else if (97 <=? c) && (c <=? 102) then Some (c - 87)
  else None.

(** One digit of ["%02x"]. *)
Definition hex_lower (d : Z) : Z := if d <? 10 then 48 + d else 87 + d.

(** ** [int(text, 16)] *)

Fixpoint drop_spaces (l : list Z) : list Z :=
  match l with
  | c :: l' => if is_space c then drop_spaces l' else l
  | [] => []
  end.

(** Digits with single underscores between them; [last] tells whether the
    character before was a digit.  Gives the value, and what follows. *)
Fixpoint scan_digits (acc : Z) (last : bool) (l : list Z) : option (Z * list Z) :=
  match l with
  | [] => if last then Some (acc, []) else None
  | c :: l' =>
      match digit16 c with
      | Some d => scan_digits (16 * acc + d) true l'
      | None =>
          if c =? 95 then if last then scan_digits acc false l' else None
          else if last then Some (acc, l) else None
      end
  end.

(** The optional prefix [0x], after which one underscore may come. *)
Definition drop_prefix (l : list Z) : list Z :=
  match l with
  | z :: x :: l' =>
      if (z =? 48) && ((x =? 120) || (x =? 88)) then
        match l' with u :: l'' => if u =? 95 then l'' else l' | [] => [] end
      else l
  | _ => l
  end.

Definition scan_number (l : list Z) : result Z :=
  match scan_digits 0 false (drop_prefix l) with
  | Some (v, rest) => match drop_spaces rest with [] => Ok v | _ => Err ValueError end
  | None => Err ValueError
  end.

Definition int_base16 (l : list Z) : result Z :=
  match drop_spaces l with
  | c :: l' => if c =? 45 then Z.opp <$> scan_number l'
               else if c =? 43 then scan_number l' else scan_number (c :: l')
  | [] => Err ValueError
  end.

(** ** Hexadecimal *)

(** [data.hex()] *)
Definition to_hex (l : list Z) : list Z := l ≫= fun b => [hex_lower (b / 16); hex_lower (b mod 16)].

(** [binascii.a2b_hex] *)
Fixpoint a2b_hex (l : list Z) : result (list Z) :=
  match l with
  | [] => Ok []
  | [_] => Err BinasciiError
  | h :: l :: rest =>
      match digit16 h, digit16 l with
      | Some h, Some l => d ← a2b_hex rest; Ok (16 * h + l :: d)
      | _, _ => Err BinasciiError
      end
  end.

(** ["%x" % n] *)
Fixpoint hex_digits_of (fuel : nat) (n : Z) : list Z :=
  match fuel with
  | O => []
  | S fuel => if n <? 16 then [hex_lower n] else hex_digits_of fuel (n / 16) ++ [hex_lower (n mod 16)]
  end.

Definition format_x (n : Z) : list Z :=
  let digits n := hex_digits_of (S (Z.to_nat (Z.log2 n))) n in
  if n <? 0 then 45 :: digits (- n) else digits n.

(** ["%d" % n] *)
Fixpoint decimal_of (fuel : nat) (n : Z) : list Z :=
  match fuel with
  | O => []
  | S fuel => if n <? 10 then [48 + n] else decimal_of fuel (n / 10) ++ [48 + n mod 10]
  end.

Definition format_d (n : Z) : list Z :=
  let digits n := decimal_of (S (Z.to_nat (Z.log2 n))) n in
  if n <? 0 then 45 :: digits (- n) else digits n.

(** ** Searching and splitting *)

(** [l.index(sep)] of one byte *)
Definition find_sep (sep : Z) (l : list Z) : result Z :=
  match list_find (fun x => x = sep) l with
  | Some (i, _) => Ok (Z.of_nat i)
  | None => Err ValueError
  end.

(** [l.split(sep)] *)
Fixpoint split_sep (sep : Z) (l : list Z) : list (list Z) :=
  match l with
  | [] => [[]]
  | c :: l =>
      if c =? sep then [] :: split_sep sep l
      else match split_sep sep l with
           | word :: words => (c :: word) :: words
           | [] => [[c]]
           end
  end.

Definition starts_with (prefix l : list Z) : bool := bool_decide (take (length prefix) l = prefix).

(** [l.decode("ascii", errors="replace")] *)
Definition decode_replace (l : list Z) : list Z := (fun b => if b <? 128 then b else 0xfffd) <$> l.

(** ** Unicode *)

(** [str.isspace] *)
Definition is_text_space (c : Z) : bool :=
  is_space c || ((28 <=? c) && (c <=? 31)) || (c =? 0x85) || (c =? 0xa0) || (c =? 0x1680)
  || ((0x2000 <=? c) && (c <=? 0x200a)) || (c =? 0x2028) || (c =? 0x2029) || (c =? 0x202f)
  || (c =? 0x205f) || (c =? 0x3000).

(** [text.strip().split()]: stripping first does not change the words. *)
Fixpoint split_words (word : list Z) (l : list Z) : list (list Z) :=
  match l with
  | [] => match word with [] => [] | _ => [word] end
  | c :: l =>
      if is_text_space c then match word with [] => split_words [] l | _ => word :: split_words [] l end
      else split_words (word ++ [c]) l
  end.

Definition between (lo c hi : Z) : bool := (lo <=? c) && (c <=? hi).

(** [bytes.decode("utf-8")]: no overlong forms, surrogates or values past
    U+10FFFF. *)
Fixpoint utf8_decode (l : list Z) : result (list Z) :=
  match l with
  | [] => Ok []
  | a :: l1 =>
      if a <? 0x80 then r ← utf8_decode l1; Ok (a :: r)
      else match l1 with
      | [] => Err BinasciiError
      | b :: l2 =>
          if between 0xc2 a 0xdf && between 0x80 b 0xbf
          then r ← utf8_decode l2; Ok ((a - 0xc0) * 64 + (b - 0x80) :: r)
          else match l2 with
          | [] => Err BinasciiError
          | c :: l3 =>
              if between 0xe0 a 0xef && between (if a =? 0xe0 then 0xa0 else 0x80) b (if a =? 0xed then 0x9f else 0xbf)
                 && between 0x80 c 0xbf
              then r ← utf8_decode l3; Ok ((a - 0xe0) * 4096 + (b - 0x80) * 64 + (c - 0x80) :: r)
              else match l3 with
              | [] => Err BinasciiError
              | d :: l4 =>
                  if between 0xf0 a 0xf4 && between (if a =? 0xf0 then 0x90 else 0x80) b (if a =? 0xf4 then 0x8f else 0xbf)
                     && between 0x80 c 0xbf && between 0x80 d 0xbf
                  then r ← utf8_decode l4;
                       Ok ((a - 0xf0) * 262144 + (b - 0x80) * 4096 + (c - 0x80) * 64 + (d - 0x80) :: r)
                  else Err BinasciiError
              end
          end
      end
  end.

(** [text.encode("utf-8")] *)
Definition utf8_char (c : Z) : list Z :=
  if c <? 0x80 then [c]
  else if c <? 0x800 then [0xc0 + c / 64; 0x80 + c mod 64]
  else if c <? 0x10000 then [0xe0 + c / 4096; 0x80 + c / 64 mod 64; 0x80 + c mod 64]
  else [0xf0 + c / 262144; 0x80 + c / 4096 mod 64; 0x80 + c / 64 mod 64; 0x80 + c mod 64].

Definition utf8_encode (l : list Z) : list Z := l ≫= utf8_char.

(** ** Lemmas *)

Lemma hex_lower_digit d : 0 <= d < 16 -> digit16 (hex_lower d) = Some d /\ 48 <= hex_lower d < 103.
Proof.
  intros Hd. unfold hex_lower, digit16. destruct (Z.ltb_spec d 10).
  - rewrite (proj2 (Z.leb_le 48 (48 + d))), (proj2 (Z.leb_le (48 + d) 57)) by lia. split; [f_equal; lia|lia].
  - rewrite (proj2 (Z.leb_gt (87 + d) 57)), andb_false_r by lia.
    rewrite (proj2 (Z.leb_gt (87 + d) 70)), andb_false_r by lia.
    rewrite (proj2 (Z.leb_le 97 (87 + d))), (proj2 (Z.leb_le (87 + d) 102)) by lia. split; [f_equal; lia|lia].
Qed.

Lemma a2b_to_hex l : bytes_ok l -> a2b_hex (to_hex l) = Ok l.
Proof.
  induction 1 as [|b l Hb _ IH]; [done|]. unfold is_byte in Hb.
  change (to_hex (b :: l)) with (hex_lower (b / 16) :: hex_lower (b mod 16) :: to_hex l). cbn [a2b_hex].
  rewrite (proj1 (hex_lower_digit (b / 16) ltac:(div_lia))), (proj1 (hex_lower_digit (b mod 16) ltac:(div_lia))).
  rewrite IH, bind_of_Ok. f_equal. f_equal. div_lia.
Qed.

Lemma length_to_hex l : length (to_hex l) = (2 * length l)%nat.
Proof.
  induction l as [|b l IH]; [done|].
  change (to_hex (b :: l)) with (hex_lower (b / 16) :: hex_lower (b mod 16) :: to_hex l). simpl length. lia.
Qed.

Lemma scan_hex_digits fuel n : forall acc last rest,
  0 <= n -> n < 16 ^ Z.of_nat fuel ->
  scan_digits acc last (hex_digits_of fuel n ++ rest)
  = scan_digits (16 ^ zlen (hex_digits_of fuel n) * acc + n) (bool_decide (fuel <> 0%nat) || last) rest.
Proof.
  revert n. induction fuel as [|fuel IH]; intros n acc last rest Hn Hlt.
  { change (16 ^ Z.of_nat 0) with 1 in Hlt. cbn [hex_digits_of app]. simpl. f_equal. lia. }
  cbn [hex_digits_of]. destruct (Z.ltb_spec n 16).
  - cbn [app scan_digits]. rewrite (proj1 (hex_lower_digit n ltac:(lia))). simpl. f_equal; lia.
  - rewrite <- app_assoc. rewrite IH; [|div_lia|].
    + cbn [app scan_digits]. rewrite (proj1 (hex_lower_digit (n mod 16) ltac:(div_lia))).
      rewrite length_app. simpl length. replace (Z.of_nat (length (hex_digits_of fuel (n / 16)) + 1))
        with (Z.succ (zlen (hex_digits_of fuel (n / 16)))) by lia.
      rewrite Z.pow_succ_r by lia. rewrite bool_decide_true by done. simpl orb. f_equal.
      pose proof (Z.div_mod n 16). lia.
    + replace (Z.of_nat (S fuel)) with (Z.succ (Z.of_nat fuel)) in Hlt by lia.
      rewrite Z.pow_succ_r in Hlt by lia. apply Z.div_lt_upper_bound; lia.
Qed.

Lemma hex_digits_range fuel n :
  0 <= n -> n < 16 ^ Z.of_nat fuel -> Forall (fun c => exists d, 0 <= d < 16 /\ c = hex_lower d) (hex_digits_of fuel n).
Proof.
  revert n. induction fuel as [|fuel IH]; intros n Hn Hlt; cbn [hex_digits_of]; [constructor|].
  destruct (Z.ltb_spec n 16); [constructor; [by exists n|done]|]. apply Forall_app. split.
  - apply IH; [div_lia|]. replace (Z.of_nat (S fuel)) with (Z.succ (Z.of_nat fuel)) in Hlt by lia.
    rewrite Z.pow_succ_r in Hlt by lia. apply Z.div_lt_upper_bound; lia.
  - constructor; [exists (n mod 16); split; [div_lia|done]|done].
Qed.

Lemma format_fuel n : 0 <= n -> n < 16 ^ Z.of_nat (S (Z.to_nat (Z.log2 n))).
Proof.
  intros Hn. destruct (Z.eq_dec n 0) as [->|]; [done|]. pose proof (Z.log2_spec n ltac:(lia)) as [_ Hl].
  pose proof (Z.log2_nonneg n). replace (Z.of_nat (S (Z.to_nat (Z.log2 n)))) with (Z.succ (Z.log2 n)) by lia.
  eapply Z.lt_le_trans; [exact Hl|]. apply Z.pow_le_mono_l. lia.
Qed.

(** A number printed with ["%x"] reads back. *)
Lemma int_format_x n : 0 <= n -> int_base16 (format_x n) = Ok n.
Proof.
  intros Hn. unfold format_x. destruct (Z.ltb_spec n 0); [lia|]. set (fuel := S (Z.to_nat (Z.log2 n))).
  pose proof (format_fuel n Hn) as Hf. fold fuel in Hf.
  pose proof (hex_digits_range fuel n Hn Hf) as Hr.
  pose proof (scan_hex_digits fuel n 0 false [] Hn Hf) as Hs. rewrite app_nil_r, Z.mul_0_r, Z.add_0_l in Hs.
  rewrite bool_decide_true in Hs by done. cbn [orb scan_digits] in Hs.
  destruct (hex_digits_of fuel n) as [|c l] eqn:E; [done|].
  apply Forall_cons in Hr as [(d & Hd & ->) Hl]. pose proof (hex_lower_digit d Hd) as [_ Hc].
  assert (is_space (hex_lower d) = false) as Hsp.
  { unfold is_space. destruct (Z.eqb_spec (hex_lower d) 32), (Z.leb_spec (hex_lower d) 13); try lia. }
  assert (drop_prefix (hex_lower d :: l) = hex_lower d :: l) as Hp.
  { destruct l as [|x l]; [done|]. apply Forall_cons in Hl as [(x' & Hx' & ->) _].
    assert (hex_lower x' <> 120 /\ hex_lower x' <> 88)
      by (unfold hex_lower; destruct (Z.ltb_spec x' 10); lia). unfold drop_prefix.
    destruct (Z.eqb_spec (hex_lower x') 120), (Z.eqb_spec (hex_lower x') 88); try lia.
    by rewrite andb_false_r. }
  unfold int_base16, drop_spaces. fold drop_spaces. rewrite Hsp.
  destruct (Z.eqb_spec (hex_lower d) 45), (Z.eqb_spec (hex_lower d) 43); try lia.
  unfold scan_number. by rewrite Hp, Hs.
Qed.

Lemma find_sep_app sep l rest :
  Forall (fun c => c <> sep) l -> find_sep sep (l ++ sep :: rest) = Ok (zlen l).
Proof.
  intros Hl. unfold find_sep. rewrite list_find_app_r.
  - simpl. rewrite decide_True by done. done.
  - apply list_find_None. eapply Forall_impl; [exact Hl|]. done.
Qed.

(** Digits are no separators. *)
Lemma format_x_chars n : 0 <= n -> Forall (fun c => 48 <= c < 58 \/ 97 <= c < 103) (format_x n).
Proof.
  intros Hn. unfold format_x. destruct (Z.ltb_spec n 0); [lia|].
  eapply Forall_impl; [by apply hex_digits_range, format_fuel|]. intros c (d & Hd & ->).
  unfold hex_lower. destruct (Z.ltb_spec d 10); lia.
Qed.

(** Decimal digits are read back. *)
Lemma decimal_of_spec fuel n :
  0 <= n -> n < 10 ^ Z.of_nat fuel ->
  Forall (fun c => 48 <= c < 58) (decimal_of fuel n)
  /\ (forall acc, foldl (fun acc c => 10 * acc + (c - 48)) acc (decimal_of fuel n)
        = acc * 10 ^ zlen (decimal_of fuel n) + n)
  /\ (0 < fuel -> 0 < length (decimal_of fuel n))%nat.
Proof.
  revert n. induction fuel as [|fuel IH]; intros n Hn Hlt.
  { split_and!; [done| |lia]. intros acc. cbn. change (10 ^ Z.of_nat 0) with 1 in Hlt. lia. }
  cbn [decimal_of]. destruct (Z.ltb_spec n 10).
  - split_and!; [repeat constructor; lia| |simpl; lia]. intros acc. cbn. lia.
  - assert (0 <= n / 10 < 10 ^ Z.of_nat fuel) as Hd.
    { rewrite Nat2Z.inj_succ, Z.pow_succ_r in Hlt by lia. split; [div_lia|]. apply Z.div_lt_upper_bound; lia. }
    destruct (IH (n / 10)) as (Hf&Hv&_); [lia..|]. split_and!.
    + apply Forall_app. split; [done|]. repeat constructor; div_lia.
    + intros acc. rewrite foldl_app, Hv. cbn [foldl]. rewrite length_app. simpl length.
      rewrite Nat2Z.inj_add, Z.pow_add_r by lia. change (10 ^ Z.of_nat 1) with 10. div_lia.
    + intros _. rewrite length_app. simpl length. lia.
Qed.

Lemma format_d_spec n :
  0 <= n -> Forall (fun c => 48 <= c < 58) (format_d n)
  /\ foldl (fun acc c => 10 * acc + (c - 48)) 0 (format_d n) = n /\ (0 < length (format_d n))%nat.
Proof.
  intros Hn. unfold format_d. destruct (Z.ltb_spec n 0); [lia|].
  destruct (decimal_of_spec (S (Z.to_nat (Z.log2 n))) n Hn) as (Hf&Hv&Hl).
  - rewrite Nat2Z.inj_succ, Z2Nat.id by apply Z.log2_nonneg.
    destruct (Z.eq_dec n 0) as [->|Hne]; [reflexivity|].
    destruct (Z.log2_spec n) as [_ Hs]; [lia|]. eapply Z.lt_le_trans; [exact Hs|].
    apply Z.pow_le_mono_l. lia.
  - split_and!; [done|by rewrite Hv|by apply Hl; lia].
Qed.

(** *** Splitting at a separator *)

Lemma split_sep_concat sep l r : split_sep sep (l ++ sep :: r) = split_sep sep l ++ split_sep sep r.
Proof.
  induction l as [|c l IH]; simpl; [by rewrite Z.eqb_refl|].
  rewrite IH. case_match; [done|]. destruct (split_sep sep l) eqn:Hl; [|done].
  destruct l; simpl in Hl; [done|]. by repeat case_match.
Qed.

Lemma split_sep_single sep c : sep ∉ c -> split_sep sep c = [c].
Proof.
  induction c as [|x c IH]; [done|]. intros [Hx Hc]%not_elem_of_cons. simpl.
  rewrite IH by done. by replace (x =? sep) with false by (symmetry; by apply Z.eqb_neq, not_eq_sym).
Qed.
