(* ===== verification/GdbPacket.v ===== *)
(** * GDB remote protocol packets (src/acrobe/target/gdb/message.py)

    [Packet]: framing, escaping, run-length expansion and the checksum of the
    packets a debugger exchanges with the server. *)

From S2P Require Import Prelude PyText.

Open Scope Z_scope.

(** ** Definitions *)

Definition ESCAPE : Z := 0x7d.
Definition PACKET_START : Z := 0x24.
Definition PACKET_END : Z := 0x23.
Definition REPEAT : Z := 0x2a.

Definition NEEDS_ESCAPE : list Z := [ESCAPE; PACKET_START; PACKET_END; REPEAT].

Definition escape_byte (b : Z) : list Z :=
  if bool_decide (b ∈ NEEDS_ESCAPE) then [ESCAPE; Z.lxor b 0x20] else [b].

(** [Packet.escape] *)
Definition escape (data : list Z) : list Z := data ≫= escape_byte.

(** [Packet.unescape]: the bytes produced so far, the bytes left. *)
Fixpoint unescape_loop (out data : list Z) : list Z :=
  match data with
  | [] => out
  | b :: rest =>
      match rest with
      | c :: rest' =>
          if b =? ESCAPE then unescape_loop (out ++ [Z.lxor c 0x20]) rest'
          else if (b =? REPEAT) && bool_decide (out <> []) then
            let count := c - 29 + 1 in
            unescape_loop (out ++ replicate (Z.to_nat count) (List.last out 0)) rest'
          else unescape_loop (out ++ [b]) rest
      | [] => unescape_loop (out ++ [b]) rest
      end
  end.

Definition unescape (data : list Z) : list Z := unescape_loop [] data.

(** [int(..., 16)] of at most two bytes: white space around, one sign. *)
Definition int16 (s : list Z) : option Z :=
  match s with
  | [c] => digit16 c
  | [c; d] =>
      if is_space c then digit16 d
      else if is_space d then digit16 c
      else if c =? 43 then digit16 d
      else if c =? 45 then Z.opp <$> digit16 d
      else match digit16 c, digit16 d with
           | Some h, Some l => Some (16 * h + l)
           | _, _ => None
           end
  | _ => None
  end.

(** [Packet.parse] *)
Definition parse (packet : list Z) : option (list Z) :=
  match packet with
  | b :: _ =>
      if (zlen packet <? 4) || negb (b =? PACKET_START) then None
      else match list_find (fun x => x = PACKET_END) packet with
      | None => None
      | Some (i, _) =>
          let hash_index := Z.of_nat i in
          if zlen packet <? hash_index + 3 then None
          else
            let payload := slice packet 1 hash_index in
            received ← int16 (slice packet (hash_index + 1) (hash_index + 3));
            if received =? Z.land (sum_bytes payload) 0xff then Some (unescape payload) else None
      end
  | [] => None
  end.

(** [Packet.frame] *)
Definition frame (payload : list Z) : list Z :=
  let encoded := escape payload in
  let checksum := Z.land (sum_bytes encoded) 0xff in
  PACKET_START :: encoded ++ [PACKET_END; hex_lower (checksum / 16); hex_lower (checksum mod 16)].

(** ** Escaping *)

Definition reserved (b : Z) : Prop := b = PACKET_START \/ b = PACKET_END \/ b = REPEAT.

Lemma gdb_escape_byte_safe b : Forall (fun x => ~ reserved x) (escape_byte b).
Proof.
  unfold escape_byte. case_bool_decide as H.
  - repeat (apply elem_of_cons in H as [-> |H];
      [repeat constructor; unfold reserved; vm_compute; intuition congruence|]). by apply elem_of_nil in H.
  - constructor; [|done]. intros Hr. apply H. unfold NEEDS_ESCAPE. unfold reserved in Hr. set_solver.
Qed.

Lemma gdb_escape_safe p : Forall (fun x => ~ reserved x) (escape p).
Proof. apply Forall_bind, Forall_true. intros b. apply gdb_escape_byte_safe. Qed.

Lemma unescape_escape p : forall out rest,
  unescape_loop out (escape p ++ rest) = unescape_loop (out ++ p) rest.
Proof.
  induction p as [|b p IH]; intros out rest; [by rewrite app_nil_r|].
  unfold escape. rewrite bind_cons, <- app_assoc. fold (escape p). unfold escape_byte.
  case_bool_decide as H.
  - cbn [app unescape_loop]. rewrite Z.eqb_refl, IH, <- app_assoc. cbn [app].
    rewrite Z.lxor_assoc, Z.lxor_nilpotent, Z.lxor_0_r. done.
  - assert (b <> ESCAPE /\ b <> REPEAT) as [He Hr] by (unfold NEEDS_ESCAPE in H; set_solver).
    cbn [app unescape_loop]. rewrite (proj2 (Z.eqb_neq _ _) He), (proj2 (Z.eqb_neq _ _) Hr). cbn [andb].
    replace (out ++ b :: p) with ((out ++ [b]) ++ p) by by rewrite <- app_assoc.
    rewrite <- IH. by destruct (escape p ++ rest).
Qed.

(** ** Framing *)

Lemma hex_lower_int16 n : 0 <= n < 256 -> int16 [hex_lower (n / 16); hex_lower (n mod 16)] = Some n.
Proof.
  intros Hn. assert (forall d, 0 <= d < 16 -> digit16 (hex_lower d) = Some d /\ is_space (hex_lower d) = false
    /\ hex_lower d <> 43 /\ hex_lower d <> 45) as Hd.
  { intros d Hd. assert (d ∈ seqZ 0 16) as Hin by (apply elem_of_seqZ; lia). clear Hd.
    repeat (apply elem_of_cons in Hin as [-> |Hin]; [vm_compute; intuition congruence|]). by inversion Hin. }
  destruct (Hd (n / 16)) as (H1&S1&P1&M1); [Z.div_mod_to_equations; lia|].
  destruct (Hd (n mod 16)) as (H2&S2&_); [apply Z.mod_pos_bound; lia|].
  unfold int16. rewrite S1, S2, (proj2 (Z.eqb_neq _ _) P1), (proj2 (Z.eqb_neq _ _) M1), H1, H2. f_equal.
  pose proof (Z.div_mod n 16). lia.
Qed.

(** A packet whose body holds no end mark. *)
Definition packet (body : list Z) (n : Z) : list Z :=
  PACKET_START :: body ++ [PACKET_END; hex_lower (n / 16); hex_lower (n mod 16)].

Lemma parse_packet body n :
  Forall (fun x => x <> PACKET_END) body -> 0 <= n < 256 ->
  parse (packet body n) = if n =? Z.land (sum_bytes body) 0xff then Some (unescape body) else None.
Proof.
  intros Hb Hn. unfold parse, packet.
  set (pk := PACKET_START :: body ++ _).
  assert (zlen pk = zlen body + 4) as Hl by (unfold pk; simpl; rewrite length_app; simpl; lia).
  assert (list_find (fun x => x = PACKET_END) pk = Some (S (length body), PACKET_END)) as Hf.
  { apply list_find_Some. split_and!; [|done|].
    - unfold pk. change (PACKET_START :: body ++ ?t) with ((PACKET_START :: body) ++ t).
      by rewrite lookup_app_r, Nat.sub_diag by done.
    - intros j y Hj Hlt. unfold pk in Hj. destruct j as [|j]; [simpl in Hj; by injection Hj as <-|].
      simpl in Hj. rewrite lookup_app_l in Hj by lia. by eapply Forall_lookup_1 in Hb; [|exact Hj]. }
  fold pk. rewrite (proj2 (Z.ltb_ge _ _)), Z.eqb_refl by lia. cbn [orb negb]. rewrite Hf.
  rewrite (proj2 (Z.ltb_ge _ _)) by lia.
  assert (slice pk 1 (Z.of_nat (S (length body))) = body) as ->.
  { unfold pk. change (PACKET_START :: body ++ ?t) with ([PACKET_START] ++ body ++ t).
    apply slice_app_mid; simpl length; lia. }
  assert (slice pk (Z.of_nat (S (length body)) + 1) (Z.of_nat (S (length body)) + 3)
          = [hex_lower (n / 16); hex_lower (n mod 16)]) as ->.
  { unfold pk. replace (PACKET_START :: body ++ [PACKET_END; hex_lower (n / 16); hex_lower (n mod 16)])
      with (([PACKET_START] ++ body ++ [PACKET_END]) ++ [hex_lower (n / 16); hex_lower (n mod 16)] ++ [])
      by (simpl; by rewrite <- app_assoc).
    apply slice_app_mid; simpl length; rewrite ?length_app; simpl length; lia. }
  rewrite hex_lower_int16 by done. done.
Qed.

Lemma frame_packet p :
  frame p = packet (escape p) (Z.land (sum_bytes (escape p)) 0xff)
  /\ Forall (fun x => x <> PACKET_END) (escape p).
Proof.
  split; [done|]. eapply Forall_impl; [apply gdb_escape_safe|]. unfold reserved. naive_solver.
Qed.

Lemma parse_framed p : parse (frame p) = Some p.
Proof.
  destruct (frame_packet p) as [-> Hend]. rewrite parse_packet by (done || apply land_ff_byte).
  rewrite Z.eqb_refl. f_equal. unfold unescape. rewrite <- (app_nil_r (escape p)), unescape_escape. done.
Qed.

(** ** Theorems *)

(** A framed payload is parsed back unchanged, whatever bytes it holds, and
    the body of its packet holds none of the bytes that structure the stream. *)
Theorem parse_frame p :
  parse (frame p) = Some p
  /\ exists body tail, frame p = [PACKET_START] ++ body ++ [PACKET_END] ++ tail
       /\ Forall (fun x => ~ reserved x) body /\ length tail = 2%nat.
Proof.
  split; [apply parse_framed|].
  exists (escape p). eexists. split_and!; [by unfold frame|apply gdb_escape_safe|done].
Qed.

(** The checksum detects any one altered byte: a packet whose body has one
    byte replaced (by anything but an end mark) is refused. *)
Theorem altered_packet_refused p (i : nat) b b0 :
  bytes_ok p -> escape p !! i = Some b0 -> is_byte b -> b <> b0 -> b <> PACKET_END ->
  exists tail, frame p = PACKET_START :: escape p ++ PACKET_END :: tail
    /\ parse (PACKET_START :: <[i := b]> (escape p) ++ PACKET_END :: tail) = None.
Proof.
  intros Hp Hi Hb Hne Hend. eexists. split; [by unfold frame|].
  fold (packet (<[i := b]> (escape p)) (Z.land (sum_bytes (escape p)) 0xff)).
  assert (is_byte b0) as Hb0.
  { eapply Forall_lookup_1; [|exact Hi]. apply Forall_bind. eapply Forall_impl; [exact Hp|].
    intros x Hx. unfold compose, escape_byte. unfold is_byte in Hx.
    case_bool_decide; (constructor; [unfold is_byte, ESCAPE; lia|]); [|done].
    constructor; [|done]. apply (lxor_bound x 32 8); lia. }
  rewrite parse_packet; [| |apply land_ff_byte].
  - rewrite (sum_bytes_insert _ _ _ b0), !land_ff_mod by done. unfold is_byte in *.
    destruct (Z.eqb_spec (sum_bytes (escape p) mod 256) ((sum_bytes (escape p) - b0 + b) mod 256)); [|done].
    exfalso. Z.div_mod_to_equations. lia.
  - apply Forall_insert; [|done]. eapply Forall_impl; [apply gdb_escape_safe|]. unfold reserved. naive_solver.
Qed.

Lemma altered_packet_refused_witness :
  parse (frame [0x6d; 0x23]) = Some [0x6d; 0x23]
  /\ exists tail, parse (PACKET_START :: <[0%nat := 0x4d]> (escape [0x6d; 0x23]) ++ PACKET_END :: tail) = None.
Proof.
  split; [vm_compute; reflexivity|].
  destruct (altered_packet_refused [0x6d; 0x23] 0 0x4d 0x6d) as (tail&_&H);
    [repeat constructor; lia|done|unfold is_byte; lia|done|done|].
  exists tail. exact H.
Defined.

(** A run of [X] and [*] followed by the byte 32 gives five times the byte, one
    more than the count 32 - 29 + 1 with the literal counted as one. *)
Lemma unescape_run : unescape [88; REPEAT; 32] = replicate 5 88.
Proof. done. Qed.
