(* ===== verification/Telnet.v ===== *)
(** * Telnet (src/acrobe/protocol/telnet.py)

    [TelnetPipe]: user data over a byte transport, with 0xFF doubled, option
    negotiation and sub-negotiation taken out of the stream by the reader's
    state machine.  Option handlers are code of the application: the model
    records which methods a handler implements and logs the calls. *)

From S2P Require Import Prelude.

Open Scope Z_scope.

(** ** Definitions *)

Definition IAC : Z := 0xff.
Definition DONT : Z := 0xfe.
Definition DO : Z := 0xfd.
Definition WONT : Z := 0xfc.
Definition WILL : Z := 0xfb.
Definition SB : Z := 0xfa.
Definition SE : Z := 0xf0.

(** A [TelnetOption]: the methods it implements. *)
Record TelnetOption : Type := mkOption {
  peer_do : bool;
  peer_dont : bool;
  peer_will : bool;
  peer_wont : bool;
  peer_sb : bool
}.

Inductive state : Type := NORMAL | GOT_IAC | GOT_VERB | GOT_SB | IN_SB | SB_IAC.

(** What the reader does besides collecting user data. *)
Inductive action : Type :=
  | Sent (data : list Z)                   (* written to the transport *)
  | PeerVerb (verb opt : Z)                (* the handler's peer_do, ... *)
  | PeerSb (opt : Z) (payload : list Z).   (* the handler's peer_sb *)

Record telnet : Type := mkTelnet {
  t_options : gmap Z TelnetOption;
  t_state : state;
  t_verb : Z;
  t_sb_opt : Z;
  t_sb_payload : list Z;
  t_rx_buf : list Z;
  t_log : list action
}.

Definition telnet_init : telnet := mkTelnet ∅ NORMAL 0 0 [] [] [].

(** [option_add] *)
Definition option_add (t : telnet) (code : Z) (o : TelnetOption) : result telnet :=
  _ ← guard_or ((0 <=? code) && (code <=? 255)) AssertionError;
  Ok (mkTelnet (<[code := o]> (t_options t)) (t_state t) (t_verb t) (t_sb_opt t)
        (t_sb_payload t) (t_rx_buf t) (t_log t)).

(** [data.replace(bytes([IAC]), bytes([IAC, IAC]))] *)
Definition escape (data : list Z) : list Z := data ≫= fun b => if b =? IAC then [IAC; IAC] else [b].

(** The transport bytes of a [Write], of [send_iac] and of [send_sb]. *)
Definition write (data : list Z) : list Z := escape data.
Definition send_iac (parts : list Z) : list Z := IAC :: parts.
Definition send_sb (option : Z) (payload : list Z) : list Z :=
  [IAC; SB; option] ++ escape payload ++ [IAC; SE].

(** The handler's method for a verb. *)
Definition implements (o : TelnetOption) (verb : Z) : bool :=
  if verb =? DO then peer_do o
  else if verb =? DONT then peer_dont o
  else if verb =? WILL then peer_will o
  else peer_wont o.

(** [__handle_verb] *)
Definition handle_verb (options : gmap Z TelnetOption) (verb opt_code : Z) : list action :=
  let refuse :=
    if verb =? DO then [Sent (send_iac [WONT; opt_code])]
    else if verb =? WILL then [Sent (send_iac [DONT; opt_code])]
    else [] in
  match options !! opt_code with
  | None => refuse
  | Some o => if implements o verb then [PeerVerb verb opt_code] else refuse
  end.

(** [__handle_sb] *)
Definition handle_sb (options : gmap Z TelnetOption) (opt_code : Z) (payload : list Z) : list action :=
  match options !! opt_code with
  | None => []
  | Some o => if peer_sb o then [PeerSb opt_code payload] else []
  end.

Definition goto (t : telnet) (s : state) : telnet :=
  mkTelnet (t_options t) s (t_verb t) (t_sb_opt t) (t_sb_payload t) (t_rx_buf t) (t_log t).
Definition push_rx (t : telnet) (b : Z) : telnet :=
  mkTelnet (t_options t) (t_state t) (t_verb t) (t_sb_opt t) (t_sb_payload t) (t_rx_buf t ++ [b]) (t_log t).
Definition push_sb (t : telnet) (b : Z) : telnet :=
  mkTelnet (t_options t) (t_state t) (t_verb t) (t_sb_opt t) (t_sb_payload t ++ [b]) (t_rx_buf t) (t_log t).
Definition set_verb (t : telnet) (v : Z) : telnet :=
  mkTelnet (t_options t) (t_state t) v (t_sb_opt t) (t_sb_payload t) (t_rx_buf t) (t_log t).
Definition start_sb (t : telnet) (o : Z) : telnet :=
  mkTelnet (t_options t) (t_state t) (t_verb t) o [] (t_rx_buf t) (t_log t).
Definition log (t : telnet) (l : list action) : telnet :=
  mkTelnet (t_options t) (t_state t) (t_verb t) (t_sb_opt t) (t_sb_payload t) (t_rx_buf t) (t_log t ++ l).

Definition is_verb (b : Z) : bool := (b =? DO) || (b =? DONT) || (b =? WILL) || (b =? WONT).

(** One byte of [__reader_loop]. *)
Definition feed_byte (t : telnet) (b : Z) : telnet :=
  match t_state t with
  | NORMAL => if b =? IAC then goto t GOT_IAC else push_rx t b
  | GOT_IAC =>
      if b =? IAC then goto (push_rx t IAC) NORMAL
      else if is_verb b then goto (set_verb t b) GOT_VERB
      else if b =? SB then goto t GOT_SB
      else goto t NORMAL
  | GOT_VERB => goto (log t (handle_verb (t_options t) (t_verb t) b)) NORMAL
  | GOT_SB => goto (start_sb t b) IN_SB
  | IN_SB => if b =? IAC then goto t SB_IAC else push_sb t b
  | SB_IAC =>
      if b =? IAC then goto (push_sb t IAC) IN_SB
      else goto (log t (handle_sb (t_options t) (t_sb_opt t) (t_sb_payload t))) NORMAL
  end.

Definition feed (t : telnet) (data : list Z) : telnet := foldl feed_byte t data.

(** [__deliver_bytes] on what has been received: the bytes and what is left,
    or nothing while it must wait. *)
Definition deliver (rx : list Z) (eof : bool) (size : option Z) : result (option (list Z * list Z)) :=
  match size with
  | None =>
      match rx with
      | [] => if eof then Err EOFError else Ok None
      | _ => Ok (Some (rx, []))
      end
  | Some n =>
      if n <=? zlen rx then Ok (Some (slice_to rx (Z.max 0 n), slice_from rx (Z.max 0 n)))
      else if eof then Err EOFError else Ok None
  end.

(** ** What the stream means *)

Inductive message : Type :=
  | Data (data : list Z)
  | Verb (verb opt : Z)
  | Sub (opt : Z) (payload : list Z).

(** The transport bytes of a message, and what the receiver makes of it. *)
Definition encode (m : message) : list Z :=
  match m with
  | Data d => write d
  | Verb v o => send_iac [v; o]
  | Sub o p => send_sb o p
  end.

Definition user_data (m : message) : list Z := match m with Data d => d | _ => [] end.

Definition reaction (options : gmap Z TelnetOption) (m : message) : list action :=
  match m with
  | Data _ => []
  | Verb v o => handle_verb options v o
  | Sub o p => handle_sb options o p
  end.

Definition message_ok (m : message) : Prop :=
  match m with Verb v _ => is_verb v = true | _ => True end.

(** Between messages; the scratch fields do not matter. *)
Definition received (t t' : telnet) (d : list Z) (l : list action) : Prop :=
  t_options t' = t_options t /\ t_state t' = NORMAL
  /\ t_rx_buf t' = t_rx_buf t ++ d /\ t_log t' = t_log t ++ l.

Lemma telnet_feed_app t d1 d2 : feed t (d1 ++ d2) = feed (feed t d1) d2.
Proof. apply foldl_app. Qed.

Lemma feed_data d : forall t, t_state t = NORMAL -> received t (feed t (write d)) d [].
Proof.
  unfold write. induction d as [|b d IH]; intros t Ht.
  { repeat split; [done|by rewrite app_nil_r..]. }
  unfold escape. rewrite bind_cons. fold (escape d). rewrite telnet_feed_app.
  assert (received t (feed t (if b =? IAC then [IAC; IAC] else [b])) [b] []) as (Ho&Hs&Hr&Hl).
  { unfold feed. destruct (b =? IAC) eqn:E; cbn [foldl].
    - apply Z.eqb_eq in E as ->. unfold feed_byte at 2. rewrite Ht, Z.eqb_refl. cbn.
      repeat split; by rewrite app_nil_r.
    - unfold feed_byte. rewrite Ht, E. repeat split; [done|by cbn; rewrite app_nil_r]. }
  destruct (IH _ Hs) as (Ho'&Hs'&Hr'&Hl').
  repeat split; [congruence|done|rewrite Hr', Hr, <- app_assoc; done|by rewrite Hl', Hl, !app_nil_r].
Qed.

Lemma feed_sub p : forall t, t_state t = IN_SB ->
  let t' := feed t (escape p) in
  t_options t' = t_options t /\ t_state t' = IN_SB /\ t_rx_buf t' = t_rx_buf t /\ t_log t' = t_log t
  /\ t_sb_opt t' = t_sb_opt t /\ t_sb_payload t' = t_sb_payload t ++ p.
Proof.
  induction p as [|b p IH]; intros t Ht t'.
  { subst t'. by rewrite app_nil_r. }
  subst t'. unfold escape. rewrite bind_cons. fold (escape p). rewrite telnet_feed_app.
  set (u := feed t (if b =? IAC then [IAC; IAC] else [b])).
  assert (t_options u = t_options t /\ t_state u = IN_SB /\ t_rx_buf u = t_rx_buf t /\ t_log u = t_log t
          /\ t_sb_opt u = t_sb_opt t /\ t_sb_payload u = t_sb_payload t ++ [b]) as (H1&H2&H3&H4&H5&H6).
  { unfold u, feed. destruct (b =? IAC) eqn:E; cbn [foldl].
    - apply Z.eqb_eq in E as ->. unfold feed_byte at 2 4 6 8 10 12. rewrite Ht, Z.eqb_refl. cbn. done.
    - unfold feed_byte. rewrite Ht, E. done. }
  destruct (IH u H2) as (H1'&H2'&H3'&H4'&H5'&H6').
  split_and!; try congruence. rewrite H6', H6, <- app_assoc. done.
Qed.

Lemma feed_message t m :
  t_state t = NORMAL -> message_ok m ->
  received t (feed t (encode m)) (user_data m) (reaction (t_options t) m).
Proof.
  intros Ht Hm. destruct m as [d|v o|o p]; cbn [encode user_data reaction].
  - by apply feed_data.
  - cbn in Hm. unfold feed, send_iac. cbn [foldl].
    assert (feed_byte t IAC = goto t GOT_IAC) as -> by (unfold feed_byte; by rewrite Ht).
    assert (feed_byte (goto t GOT_IAC) v = goto (set_verb t v) GOT_VERB) as ->.
    { unfold feed_byte. cbn [t_state goto]. rewrite Hm.
      destruct (Z.eqb_spec v IAC) as [-> |]; [done|]. by destruct t. }
    unfold received, feed_byte. cbn. by rewrite app_nil_r.
  - unfold send_sb. rewrite !telnet_feed_app.
    assert (feed t [IAC; SB; o] = goto (start_sb t o) IN_SB) as ->.
    { unfold feed. cbn [foldl]. unfold feed_byte at 3. rewrite Ht. by destruct t. }
    destruct (feed_sub p (goto (start_sb t o) IN_SB) eq_refl) as (H1&H2&H3&H4&H5&H6).
    set (u := feed (goto (start_sb t o) IN_SB) (escape p)) in *.
    assert (feed u [IAC; SE] = goto (log u (handle_sb (t_options u) (t_sb_opt u) (t_sb_payload u))) NORMAL) as ->.
    { unfold feed. cbn [foldl]. unfold feed_byte at 2. rewrite H2. by destruct u. }
    unfold received. cbn [goto log t_options t_state t_rx_buf t_log]. rewrite H1, H3, H4, H5, H6.
    cbn. by rewrite app_nil_r.
Qed.

(** ** Theorems *)

(** C40: user data, negotiation and sub-negotiation written by one end come
    apart again at the other: the user data arrives unchanged and in order,
    0xFF included, each verb and sub-negotiation reaches its handler (or is
    refused or dropped) in order with its payload, and the reader is ready for
    the next message. *)
Theorem telnet_stream_roundtrip ms : forall t,
  t_state t = NORMAL -> Forall message_ok ms ->
  received t (feed t (ms ≫= encode)) (ms ≫= user_data) (ms ≫= reaction (t_options t)).
Proof.
  induction ms as [|m ms IH]; intros t Ht Hms.
  { repeat split; [done|by rewrite app_nil_r..]. }
  apply Forall_cons in Hms as [Hm Hms]. rewrite !bind_cons, telnet_feed_app.
  destruct (feed_message t m Ht Hm) as (H1&H2&H3&H4).
  destruct (IH _ H2 Hms) as (H1'&H2'&H3'&H4').
  repeat split; [congruence|done|by rewrite H3', H3, <- app_assoc|by rewrite H4', H4, H1, <- app_assoc].
Qed.

Lemma telnet_stream_roundtrip_witness :
  t_rx_buf (feed telnet_init ([Data [1; 255]; Verb DO 44; Sub 44 [255; 2]; Data [3]] ≫= encode)) = [1; 255; 3]
  /\ t_log (feed telnet_init ([Data [1; 255]; Verb DO 44; Sub 44 [255; 2]; Data [3]] ≫= encode))
     = [Sent [255; 252; 44]].
Proof.
  destruct (telnet_stream_roundtrip [Data [1; 255]; Verb DO 44; Sub 44 [255; 2]; Data [3]] telnet_init)
    as (_&_&H3&H4); [done|repeat constructor|].
  rewrite H3, H4. split; vm_compute; reflexivity.
Defined.

(** Negotiation settles.  The only bytes the reader sends by itself are
    refusals, to a request it has no handler for; no peer, whatever its
    handlers, answers a refusal with more bytes. *)
Theorem negotiation_settles options verb opt data :
  Sent data ∈ handle_verb options verb opt ->
  exists verb', data = send_iac [verb'; opt] /\ is_verb verb' = true
    /\ (match options !! opt with Some o => implements o verb = false | None => True end)
    /\ forall peer data', Sent data' ∉ handle_verb peer verb' opt.
Proof.
  intros H. unfold handle_verb in H.
  assert (forall peer v, v = WONT \/ v = DONT ->
    forall data', Sent data' ∉ handle_verb peer v opt) as Hquiet.
  { intros peer v Hv data'. unfold handle_verb.
    destruct (peer !! opt) as [o|]; [destruct (implements o v)|]; destruct Hv as [-> | ->]; set_solver. }
  assert (Sent data ∈ (if verb =? DO then [Sent (send_iac [WONT; opt])]
                       else if verb =? WILL then [Sent (send_iac [DONT; opt])] else []) ->
    exists verb', data = send_iac [verb'; opt] /\ is_verb verb' = true /\ (verb' = WONT \/ verb' = DONT)) as Hrefuse.
  { destruct (verb =? DO); [|destruct (verb =? WILL)]; intros Hin;
      [apply list_elem_of_singleton in Hin as [= ->]..|by apply elem_of_nil in Hin]; eauto. }
  destruct (options !! opt) as [o|]; [destruct (implements o verb) eqn:E|].
  - apply list_elem_of_singleton in H. done.
  - destruct (Hrefuse H) as (v'&?&?&?). exists v'. split_and!; auto.
  - destruct (Hrefuse H) as (v'&?&?&?). exists v'. split_and!; auto.
Qed.

Lemma negotiation_settles_witness :
  Sent [255; 252; 1] ∈ handle_verb ∅ DO 1
  /\ exists verb', [255; 252; 1] = send_iac [verb'; 1] /\ is_verb verb' = true.
Proof.
  assert (Sent [255; 252; 1] ∈ handle_verb ∅ DO 1) as H by (vm_compute; left).
  split; [exact H|]. destruct (negotiation_settles ∅ DO 1 _ H) as (v&H1&H2&_).
  exists v. exact (conj H1 H2).
Defined.
