(* ===== verification/Jop.v ===== *)
(** * The JTAG-over-protocol byte stream (src/acrobe/jop/bytestream.py)

    Commands of the host arrive as bytes: configuration, capture windows and
    shifts.  [feed] is [JopDecoder.feed], which keeps an incomplete command
    for the next call; the [encode_*] functions are the host's side;
    [emit_window] and [flush] are [JopEncoder], which packs captured TDO bits
    into response bytes.

    [feed] takes one unit of fuel per byte: every command consumes at least
    one. *)

From S2P Require Import Prelude BitString BitVec.

Definition CMD_CONFIG : Z := 0.
Definition CMD_WRITE_TDO_ENABLE_FIFO : Z := 2.
Definition CMD_SHORT_CUSTOM_TMS_TDI : Z := 4.
Definition CMD_LONG_FIXED_TMS_CUSTOM_TDI : Z := 5.
Definition CMD_LONG_FIXED_TMS_TDI : Z := 6.
Definition CONFIG_RETRIEVE_INFO : Z := 0.
Definition CONFIG_RESET_TDO_FIFO : Z := 1.
Definition CONFIG_INFO_RESPONSE_BYTE : Z := 0.
Definition TDO_FIFO_DEPTH : Z := 2.
Definition SHORT_MAX_BITS : Z := 32.
Definition LONG_MAX_BITS : Z := 8192.

(** ** Operations *)

Record PushTdoCapture := mkPush {
  duration : Z;
  tdo_enable : bool;
  eop_gen : bool;
}.

Inductive Op : Type :=
  | RetrieveInfo
  | ResetTdoFifo
  | Push (w : PushTdoCapture)
  | Shift (tms tdi : BitString).

(** ** Decoder *)

(** [_bits_to_bs] *)
Definition bits_to_bs (bits : list Z) : result BitString :=
  foldM (fun out b => one ← bs_init (Some (AInt b)) (Some 1); bs_iadd out (BStr one)) bs_empty bits.

(** [[(byte >> (from + b)) & 1 for b in range(4)]] *)
Definition nibble (from byte : Z) : list Z :=
  (fun b => Z.land (Z.shiftr byte (from + b)) 1) <$> seqZ 0 4.

Definition decode_short (buf : list Z) (first : Z) : result (Op * Z) :=
  let n_bits := Z.land first 0x1f + 1 in
  let n_data := (n_bits + 3) / 4 in
  if zlen buf <? 1 + n_data then Err Truncated
  else
    let payload := slice buf 1 (1 + n_data) in
    let tdi_bits := payload ≫= nibble 0 in
    let tms_bits := payload ≫= nibble 4 in
    tms ← bits_to_bs (slice_to tms_bits n_bits);
    tdi ← bits_to_bs (slice_to tdi_bits n_bits);
    Ok (Shift tms tdi, 1 + n_data).

Definition decode_long (buf : list Z) (first opcode : Z) : result (Op * Z) :=
  if zlen buf <? 2 then Err Truncated
  else
    second ← index buf 1;
    let n_bits := Z.lor (Z.shiftl second 5) (Z.land first 0x1f) + 1 in
    if opcode =? CMD_LONG_FIXED_TMS_TDI then
      tms ← bs_init (Some (AInt 0)) (Some n_bits);
      tdi ← bs_init (Some (AInt 0)) (Some n_bits);
      Ok (Shift tms tdi, 2)
    else
      let n_data := (n_bits + 7) / 8 in
      if zlen buf <? 2 + n_data then Err Truncated
      else
        let tdi_payload := slice buf 2 (2 + n_data) in
        tdi ← bs_init (Some (ABytes tdi_payload)) (Some n_bits);
        tms ← bs_init (Some (AInt 0)) (Some n_bits);
        Ok (Shift tms tdi, 2 + n_data).

Definition decode_push (buf : list Z) (first : Z) : result (Op * Z) :=
  if zlen buf <? 3 then Err Truncated
  else
    let duration_low5 := Z.land first 0x1f in
    duration_mid8 ← index buf 1;
    third ← index buf 2;
    let tdo_enable := negb (Z.land third 0x80 =? 0) in
    let eop_gen := negb (Z.land third 0x40 =? 0) in
    let duration_top2 := Z.land third 3 in
    let duration_field :=
      Z.lor (Z.lor (Z.shiftl duration_top2 13) (Z.shiftl duration_mid8 5)) duration_low5 in
    Ok (Push (mkPush (duration_field + 1) tdo_enable eop_gen), 3).

(** The body of [_decode_one] once the first byte is there. *)
Definition decode_command (buf : list Z) (first : Z) : result (Op * Z) :=
  let opcode := Z.land (Z.shiftr first 5) 7 in
  if opcode =? CMD_CONFIG then
    let sub := Z.land first 3 in
    if sub =? CONFIG_RETRIEVE_INFO then Ok (RetrieveInfo, 1)
    else if sub =? CONFIG_RESET_TDO_FIFO then Ok (ResetTdoFifo, 1)
    else Err ValueError
  else if opcode =? CMD_WRITE_TDO_ENABLE_FIFO then decode_push buf first
  else if opcode =? CMD_SHORT_CUSTOM_TMS_TDI then decode_short buf first
  else if (opcode =? CMD_LONG_FIXED_TMS_CUSTOM_TDI) || (opcode =? CMD_LONG_FIXED_TMS_TDI)
  then decode_long buf first opcode
  else Err ValueError.

(** [_decode_one]: the command at the head of the buffer and its size. *)
Definition decode_one (buf : list Z) : result (Op * Z) :=
  match buf with
  | [] => Err Truncated
  | first :: _ => decode_command buf first
  end.

(** The loop of [feed]: the operations completed, and what stays in [_buf]. *)
Fixpoint feed_loop (fuel : nat) (buf : list Z) : result (list Op * list Z) :=
  match buf, fuel with
  | [], _ => Ok ([], [])
  | _, O => Err OutOfFuel
  | _, S fuel =>
      match decode_one buf with
      | Err Truncated => Ok ([], buf)
      | Err e => Err e
      | Ok (op, consumed) =>
          '(ops, rest) ← feed_loop fuel (slice_from buf consumed);
          Ok (op :: ops, rest)
      end
  end.

Definition feed (buf data : list Z) : result (list Op * list Z) :=
  let buf := buf ++ data in feed_loop (length buf) buf.

(** ** Encoder of responses *)

Record JopEncoder := mkEncoder {
  e_byte : Z;                     (* self._byte *)
  e_bit_pos : Z;                  (* self._bit_pos *)
}.

Definition encoder_init : JopEncoder := mkEncoder 0 0.

(** The loop body of [emit_window]. *)
Definition emit_bit (st : JopEncoder * list Z) (bit : bool) : JopEncoder * list Z :=
  let '(e, out) := st in
  let byte := Z.lor (e_byte e) (Z.shiftl (Z.b2z bit) (e_bit_pos e)) in
  let bit_pos := e_bit_pos e + 1 in
  if bit_pos =? 8 then (encoder_init, out ++ [byte])
  else (mkEncoder byte bit_pos, out).

(** [emit_window]: the encoder afterwards, the bytes, the EOP indices. *)
Definition emit_window (e : JopEncoder) (tdo : base) (eop : bool)
  : result (JopEncoder * (list Z * list Z)) :=
  '(e, out) ← foldM (fun st i => bit ← base_getitem tdo i; Ok (emit_bit st bit))
                (e, []) (seqZ 0 (base_len tdo));
  if eop then
    let '(e, out) := if 0 <? e_bit_pos e then (encoder_init, out ++ [e_byte e]) else (e, out) in
    Ok (e, (out, match out with [] => [] | _ => [zlen out - 1] end))
  else Ok (e, (out, [])).

Definition flush (e : JopEncoder) : JopEncoder * list Z :=
  if e_bit_pos e =? 0 then (e, []) else (encoder_init, [e_byte e]).

(** ** Encoders of commands *)

(** One payload byte of a short shift, for the clocks from [off] on. *)
Definition encode_nibbles (tms tdi : base) (n off : Z) : result Z :=
  foldM (fun byte b =>
      i ← base_getitem tdi (off + b);
      m ← base_getitem tms (off + b);
      let byte := Z.lor byte (Z.shiftl (Z.land (Z.b2z i) 1) b) in
      Ok (Z.lor byte (Z.shiftl (Z.land (Z.b2z m) 1) (4 + b))))
    0 (seqZ 0 (Z.min 4 (n - off))).

Definition encode_short_custom_tms_tdi (tms tdi : base) : result (list Z) :=
  let n := base_len tms in
  if (n =? 0) || (SHORT_MAX_BITS <? n) then Err ValueError
  else if negb (base_len tdi =? n) then Err ValueError
  else
    let header := Z.lor (Z.shiftl CMD_SHORT_CUSTOM_TMS_TDI 5) (Z.land (n - 1) 0x1f) in
    foldM (fun out k => byte ← encode_nibbles tms tdi n (4 * k); Ok (out ++ [byte]))
      [header] (seqZ 0 ((n + 3) / 4)).

Definition encode_long_fixed_tms_custom_tdi (tdi : base) : result (list Z) :=
  let n := base_len tdi in
  if (n =? 0) || (LONG_MAX_BITS <? n) then Err ValueError
  else
    let field := n - 1 in
    d ← base_data tdi;
    Ok ([Z.lor (Z.shiftl CMD_LONG_FIXED_TMS_CUSTOM_TDI 5) (Z.land field 0x1f);
         Z.land (Z.shiftr field 5) 0xff] ++ ljust d ((n + 7) / 8)).

Definition encode_long_fixed_tms_tdi (num_bits : Z) : result (list Z) :=
  if (num_bits <=? 0) || (LONG_MAX_BITS <? num_bits) then Err ValueError
  else
    let field := num_bits - 1 in
    Ok [Z.lor (Z.shiftl CMD_LONG_FIXED_TMS_TDI 5) (Z.land field 0x1f);
        Z.land (Z.shiftr field 5) 0xff].

Definition encode_write_tdo_enable_fifo (duration : Z) (tdo_enable eop_gen : bool) : result (list Z) :=
  if (duration <=? 0) || (Z.shiftl 1 15 <? duration) then Err ValueError
  else
    let field := duration - 1 in
    Ok [Z.lor (Z.shiftl CMD_WRITE_TDO_ENABLE_FIFO 5) (Z.land field 0x1f);
        Z.land (Z.shiftr field 5) 0xff;
        Z.lor (Z.lor (Z.shiftl (if tdo_enable then 1 else 0) 7) (Z.shiftl (if eop_gen then 1 else 0) 6))
          (Z.land (Z.shiftr field 13) 3)].

Definition encode_retrieve_info : list Z := [Z.lor (Z.shiftl CMD_CONFIG 5) CONFIG_RETRIEVE_INFO].
Definition encode_reset_tdo_fifo : list Z := [Z.lor (Z.shiftl CMD_CONFIG 5) CONFIG_RESET_TDO_FIFO].

(** ** What an operation means *)

Inductive action : Type :=
  | AInfo
  | AReset
  | APush (w : PushTdoCapture)
  | AShift (tms tdi : list bool).

Definition op_action (o : Op) : action :=
  match o with
  | RetrieveInfo => AInfo
  | ResetTdoFifo => AReset
  | Push w => APush w
  | Shift tms tdi => AShift (bits tms) (bits tdi)
  end.

(** What decoding promises of an operation: the two vectors of a shift have
    one length; the padding of TDI may hold junk. *)
Definition op_ok (o : Op) : Prop :=
  match o with
  | RetrieveInfo | ResetTdoFifo => True
  | Push w => 1 <= duration w <= 2 ^ 15
  | Shift tms tdi => clean tms /\ layout_ok tdi /\ bs_length tms = bs_length tdi
                     /\ 1 <= bs_length tms <= LONG_MAX_BITS
  end.

(** A command of the host. *)
Inductive request : Type :=
  | QInfo
  | QReset
  | QPush (w : PushTdoCapture)
  | QShort (tms tdi : base)
  | QLong (tdi : base)
  | QIdle (n : Z).

Definition encode_request (r : request) : result (list Z) :=
  match r with
  | QInfo => Ok encode_retrieve_info
  | QReset => Ok encode_reset_tdo_fifo
  | QPush w => encode_write_tdo_enable_fifo (duration w) (tdo_enable w) (eop_gen w)
  | QShort tms tdi => encode_short_custom_tms_tdi tms tdi
  | QLong tdi => encode_long_fixed_tms_custom_tdi tdi
  | QIdle n => encode_long_fixed_tms_tdi n
  end.

Definition request_action (r : request) : action :=
  match r with
  | QInfo => AInfo
  | QReset => AReset
  | QPush w => APush w
  | QShort tms tdi => AShift (base_bits tms) (base_bits tdi)
  | QLong tdi => AShift (replicate (length (base_bits tdi)) false) (base_bits tdi)
  | QIdle n => AShift (replicate (Z.to_nat n) false) (replicate (Z.to_nat n) false)
  end.

Definition request_ok (r : request) : Prop :=
  match r with
  | QInfo | QReset => True
  | QPush w => 1 <= duration w <= 2 ^ 15
  | QShort tms tdi => value_ok tms /\ value_ok tdi /\ base_len tms = base_len tdi
                      /\ 1 <= base_len tms <= SHORT_MAX_BITS
  | QLong tdi => value_ok tdi /\ 1 <= base_len tdi <= LONG_MAX_BITS
  | QIdle n => 1 <= n <= LONG_MAX_BITS
  end.

(** ** Fields of a command *)

Lemma land_1f m : Z.land m 0x1f = m mod 32.
Proof. exact (land_pow2_ones m 5 ltac:(lia)). Qed.

Lemma land_7 m : Z.land m 7 = m mod 8.
Proof. exact (land_pow2_ones m 3 ltac:(lia)). Qed.

Lemma shiftr_5 m : Z.shiftr m 5 = m / 32.
Proof. by rewrite Z.shiftr_div_pow2. Qed.

Lemma header_spec c m :
  0 <= c < 8 ->
  let h := Z.lor (Z.shiftl c 5) (Z.land m 0x1f) in
  is_byte h /\ Z.land (Z.shiftr h 5) 7 = c /\ Z.land h 0x1f = m mod 32.
Proof.
  intros Hc. cbv zeta. rewrite land_1f, (lor_shiftl c _ 5) by div_lia.
  rewrite land_7, land_1f, shiftr_5. unfold is_byte. div_lia.
Qed.

(** The 13-bit length field. *)
Lemma field_spec f :
  0 <= f < LONG_MAX_BITS ->
  is_byte (Z.land (Z.shiftr f 5) 0xff)
  /\ Z.lor (Z.shiftl (Z.land (Z.shiftr f 5) 0xff) 5) (f mod 32) = f.
Proof.
  unfold LONG_MAX_BITS. intros Hf. rewrite land_ff_mod, shiftr_5. split; [unfold is_byte; div_lia|].
  rewrite (lor_shiftl _ _ 5) by div_lia. div_lia.
Qed.

Lemma field_bound first second :
  is_byte second ->
  0 <= Z.lor (Z.shiftl second 5) (Z.land first 0x1f) < LONG_MAX_BITS.
Proof.
  unfold is_byte, LONG_MAX_BITS. intros. rewrite land_1f, (lor_shiftl _ _ 5) by div_lia. div_lia.
Qed.

Lemma two_bits t : 0 <= t < 4 -> t = 0 \/ t = 1 \/ t = 2 \/ t = 3.
Proof. lia. Qed.

Lemma flags_spec (f : Z) (en eop : bool) :
  0 <= f < 2 ^ 15 ->
  let third := Z.lor (Z.lor (Z.shiftl (if en then 1 else 0) 7) (Z.shiftl (if eop then 1 else 0) 6))
                 (Z.land (Z.shiftr f 13) 3) in
  is_byte third
  /\ negb (Z.land third 0x80 =? 0) = en /\ negb (Z.land third 0x40 =? 0) = eop
  /\ Z.lor (Z.lor (Z.shiftl (Z.land third 3) 13) (Z.shiftl (Z.land (Z.shiftr f 5) 0xff) 5)) (f mod 32) = f.
Proof.
  intros Hf third. set (t := Z.land (Z.shiftr f 13) 3).
  assert (t = f / 2 ^ 13) as Ht.
  { unfold t. rewrite Z.shiftr_div_pow2, (land_pow2_ones _ 2) by div_lia. change (2 ^ 2) with 4. div_lia. }
  assert (third = (if en then 128 else 0) + (if eop then 64 else 0) + t /\ 0 <= t < 4) as [Hthird Htb].
  { assert (0 <= t < 4) as Htb by div_lia. split; [|done]. unfold third. fold t.
    destruct (two_bits t Htb) as [-> | [-> | [-> | ->]]]; by destruct en, eop. }
  assert (Z.land third 3 = t) as ->.
  { rewrite Hthird, (land_pow2_ones _ 2) by div_lia. change (2 ^ 2) with 4. destruct en, eop; div_lia. }
  rewrite land_ff_mod, shiftr_5. split_and!.
  - unfold is_byte. destruct en, eop; div_lia.
  - rewrite Hthird. destruct (two_bits t Htb) as [-> | [-> | [-> | ->]]]; by destruct en, eop.
  - rewrite Hthird. destruct (two_bits t Htb) as [-> | [-> | [-> | ->]]]; by destruct en, eop.
  - assert (Z.shiftl t 13 = Z.shiftl (Z.shiftl t 8) 5) as -> by (by rewrite Z.shiftl_shiftl by div_lia).
    rewrite <- Z.shiftl_lor, (lor_shiftl _ _ 8), (lor_shiftl _ _ 5) by div_lia.
    rewrite Ht. change (2 ^ 13) with 8192. change (2 ^ 8) with 256. change (2 ^ 5) with 32. div_lia.
Qed.

(** ** Decoding one command *)

Lemma bits_to_bs_spec l :
  exists s, bits_to_bs l = Ok s /\ clean s /\ bits s = (fun b => Z.testbit b 0) <$> l.
Proof.
  unfold bits_to_bs. destruct clean_empty as [Hc Hb].
  change (?f <$> l) with ([] ++ (f <$> l)). rewrite <- Hb. clear Hb. revert Hc.
  generalize bs_empty. induction l as [|b l IH]; intros s Hs; cbn [foldM fmap list_fmap].
  - exists s. by rewrite app_nil_r.
  - destruct (bs_init_spec (AInt b) (Some 1)) as (one & -> & Ho & Hob); [done|]. rewrite bind_of_Ok.
    destruct (bs_iadd_spec s (BStr one) Hs) as (s' & -> & Hs' & Hb'); [by split; [apply Ho|]|]. rewrite bind_of_Ok.
    destruct (IH s' Hs') as (r & -> & Hr & Hrb). exists r. split_and!; [done..|].
    rewrite Hrb, Hb'. simpl. rewrite Hob, <- app_assoc. done.
Qed.

Lemma nibble_testbit from byte :
  0 <= from ->
  (fun b => Z.testbit b 0) <$> nibble from byte = (fun b => Z.testbit byte (from + b)) <$> seqZ 0 4.
Proof.
  intros. unfold nibble. rewrite <- list_fmap_compose. apply list_fmap_ext. intros i b Hb. unfold compose.
  apply list_elem_of_lookup_2, elem_of_seqZ in Hb.
  rewrite Z.land_spec, Z.shiftr_spec, Z.add_0_l by lia. by rewrite andb_true_r.
Qed.

(** The bits of one side of a short shift's payload. *)
Definition side (from : Z) (payload : list Z) (n : Z) : list bool :=
  take (Z.to_nat n) (payload ≫= fun byte => (fun b => Z.testbit byte (from + b)) <$> seqZ 0 4).

Lemma side_bits from payload n :
  0 <= from -> 0 <= n ->
  (fun b => Z.testbit b 0) <$> slice_to (payload ≫= nibble from) n = side from payload n.
Proof.
  intros. rewrite slice_to_nonneg by done. unfold side. rewrite fmap_take. f_equal.
  induction payload as [|byte l IH]; [done|]. cbn [mbind list_bind]. rewrite fmap_app.
  by rewrite nibble_testbit, <- IH.
Qed.

Lemma lookup_side from payload n (i : nat) byte :
  (Z.of_nat i < n) -> payload !! (i / 4)%nat = Some byte ->
  side from payload n !! i = Some (Z.testbit byte (from + Z.of_nat (i mod 4))).
Proof.
  intros Hi Hb. unfold side. rewrite lookup_take_lt by lia.
  rewrite (lookup_bind_uniform _ 4) by (intros; rewrite ?length_fmap, ?length_seqZ; lia).
  rewrite Hb. simpl. pose proof (Nat.mod_upper_bound i 4).
  destruct (i mod 4)%nat as [|[|[|[|k]]]]; try done. lia.
Qed.

Lemma length_side from payload n :
  0 <= n <= 4 * zlen payload -> zlen (side from payload n) = n.
Proof.
  intros. unfold side. rewrite length_take.
  assert (length (payload ≫= fun byte => (fun b => Z.testbit byte (from + b)) <$> seqZ 0 4)
          = (4 * length payload)%nat) as ->; [|lia].
  clear. induction payload as [|x l IH]; [done|]. cbn [mbind list_bind].
  rewrite length_app, IH, length_fmap, length_seqZ. simpl length. lia.
Qed.

Lemma decode_short_spec buf first n_bits n_data :
  n_bits = Z.land first 0x1f + 1 -> n_data = (n_bits + 3) / 4 -> 1 + n_data <= zlen buf ->
  exists tms tdi, decode_short buf first = Ok (Shift tms tdi, 1 + n_data)
    /\ clean tms /\ clean tdi
    /\ bits tms = side 4 (slice buf 1 (1 + n_data)) n_bits
    /\ bits tdi = side 0 (slice buf 1 (1 + n_data)) n_bits.
Proof.
  intros Hn Hd Hl. unfold decode_short. rewrite <- Hn, <- Hd. cbv zeta.
  destruct (Z.ltb_spec (zlen buf) (1 + n_data)); [lia|].
  assert (0 <= n_bits) by (rewrite Hn, land_1f; div_lia).
  destruct (bits_to_bs_spec (slice_to (slice buf 1 (1 + n_data) ≫= nibble 4) n_bits)) as (tms & -> & ? & Hm).
  destruct (bits_to_bs_spec (slice_to (slice buf 1 (1 + n_data) ≫= nibble 0) n_bits)) as (tdi & -> & ? & Hi).
  exists tms, tdi. rewrite Hm, Hi, !side_bits by lia. done.
Qed.

(** The vectors of zeros and of raw payload bytes a long shift builds. *)
Lemma zeros_spec n :
  0 <= n -> exists s, bs_init (Some (AInt 0)) (Some n) = Ok s /\ clean s /\ bs_length s = n
                      /\ bits s = replicate (Z.to_nat n) false.
Proof.
  intros Hn. destruct (bs_init_spec (AInt 0) (Some n) Hn) as (s & Hs & Hc & Hb).
  cbn [arg_bits default from_option id] in Hb. rewrite bits_of_zero in Hb.
  exists s. split_and!; [done..| |done]. rewrite <- length_bits, Hb, length_replicate by apply Hc. lia.
Qed.

Lemma raw_payload_spec d n :
  1 <= n -> bytes_ok d -> zlen d = byte_count n ->
  exists s, bs_init (Some (ABytes d)) (Some n) = Ok s /\ layout_ok s /\ bs_length s = n
            /\ bits s = bits_raw d n.
Proof.
  intros Hn Hd Hl. unfold bs_init. rewrite shiftr_byte_count, Hl, Z.eqb_refl, land_mod_8.
  pose proof (byte_count_spec n ltac:(lia)) as Hbc. destruct (Z.eqb_spec (n mod 8) 0) as [Hm|Hm].
  - eexists. split_and!; [done| |done|unfold bits, joined; simpl].
    + split; simpl; rewrite ?app_nil_r; [done|unfold is_byte; lia| |by right; unfold joined; simpl;
        rewrite land_mod_8, Hm, app_nil_r]. rewrite Hl. unfold byte_count in *. div_lia.
    + by rewrite land_mod_8, Hm, app_nil_r.
  - destruct d as [|last front _] using rev_ind; [simpl in *; lia|]. clear - Hn Hd Hl Hm Hbc.
    rewrite index_last, slice_to_last. simpl. apply bytes_ok_app in Hd as [Hf [Hlast _]%Forall_cons].
    rewrite length_app in Hl. simpl in Hl. assert (joined (mkBitString [front] last n (Some (front ++ [last])))
      = front ++ [last]) as Hj.
    { unfold joined. simpl. rewrite land_mod_8, app_nil_r. by destruct (Z.eqb_spec (n mod 8) 0). }
    eexists. split_and!; [done| |done|unfold bits; by rewrite Hj].
    split; simpl; rewrite ?app_nil_r; [done..| |by right; rewrite Hj].
    unfold byte_count in *. div_lia.
Qed.

Lemma decode_long_idle buf first second n :
  index buf 1 = Ok second -> n = Z.lor (Z.shiftl second 5) (Z.land first 0x1f) + 1 -> 0 <= n ->
  2 <= zlen buf ->
  exists tms tdi, decode_long buf first CMD_LONG_FIXED_TMS_TDI = Ok (Shift tms tdi, 2)
    /\ clean tms /\ clean tdi /\ bs_length tms = n /\ bs_length tdi = n
    /\ bits tms = replicate (Z.to_nat n) false /\ bits tdi = replicate (Z.to_nat n) false.
Proof.
  intros Hs Hn H0 Hl. unfold decode_long. destruct (Z.ltb_spec (zlen buf) 2); [lia|].
  rewrite Hs, bind_of_Ok, <- Hn. cbv zeta. destruct (zeros_spec n H0) as (z & -> & ? & ? & ?).
  by exists z, z.
Qed.

Lemma decode_long_custom buf first second n :
  bytes_ok buf -> index buf 1 = Ok second -> n = Z.lor (Z.shiftl second 5) (Z.land first 0x1f) + 1 ->
  1 <= n -> 2 + byte_count n <= zlen buf ->
  exists tms tdi, decode_long buf first CMD_LONG_FIXED_TMS_CUSTOM_TDI = Ok (Shift tms tdi, 2 + byte_count n)
    /\ clean tms /\ layout_ok tdi /\ bs_length tms = n /\ bs_length tdi = n
    /\ bits tms = replicate (Z.to_nat n) false
    /\ bits tdi = bits_raw (slice buf 2 (2 + byte_count n)) n.
Proof.
  intros Hok Hs Hn H1 Hl. pose proof (byte_count_spec n ltac:(lia)) as Hbc.
  unfold decode_long. destruct (Z.ltb_spec (zlen buf) 2); [lia|].
  rewrite Hs, bind_of_Ok, <- Hn. cbv zeta.
  change (CMD_LONG_FIXED_TMS_CUSTOM_TDI =? CMD_LONG_FIXED_TMS_TDI) with false. cbv iota.
  change ((n + 7) / 8) with (byte_count n). destruct (Z.ltb_spec (zlen buf) (2 + byte_count n)); [lia|].
  destruct (raw_payload_spec (slice buf 2 (2 + byte_count n)) n) as (tdi & Ht & ? & ? & ?);
    [done|by apply bytes_ok_slice|rewrite length_slice; lia|].
  destruct (zeros_spec n ltac:(lia)) as (z & Hz & ? & ? & ?). exists z, tdi.
  split_and!; [|done..]. by rewrite Ht, bind_of_Ok, Hz.
Qed.

(** A complete command does not depend on what follows it. *)
Lemma decode_push_app buf x first :
  decode_push buf first <> Err Truncated -> decode_push (buf ++ x) first = decode_push buf first.
Proof.
  unfold decode_push. rewrite length_app. destruct (Z.ltb_spec (zlen buf) 3); [done|]. intros _.
  destruct (Z.ltb_spec (Z.of_nat (length buf + length x)) 3); [lia|]. by rewrite !index_app_l by lia.
Qed.

Lemma decode_short_app buf x first :
  decode_short buf first <> Err Truncated -> decode_short (buf ++ x) first = decode_short buf first.
Proof.
  unfold decode_short. cbv zeta. set (n := (Z.land first 0x1f + 1 + 3) / 4).
  assert (0 <= n) by (unfold n; rewrite land_1f; div_lia).
  rewrite length_app. destruct (Z.ltb_spec (zlen buf) (1 + n)); [done|]. intros _.
  destruct (Z.ltb_spec (Z.of_nat (length buf + length x)) (1 + n)); [lia|].
  by rewrite slice_app_l by lia.
Qed.

Lemma decode_long_app buf x first opcode :
  bytes_ok buf -> decode_long buf first opcode <> Err Truncated ->
  decode_long (buf ++ x) first opcode = decode_long buf first opcode.
Proof.
  intros Hok. unfold decode_long. rewrite length_app. destruct (Z.ltb_spec (zlen buf) 2); [done|].
  destruct (Z.ltb_spec (Z.of_nat (length buf + length x)) 2); [lia|].
  rewrite index_app_l by lia. destruct (index buf 1) as [second|] eqn:E; [|done].
  rewrite !bind_of_Ok. cbv zeta. destruct (opcode =? _); [done|]. set (n := (_ + 1 + 7) / 8).
  assert (0 <= n).
  { apply index_Ok_inv in E; [|lia]. pose proof (Forall_lookup_1 _ _ _ _ Hok E) as Hb.
    pose proof (field_bound first second Hb). unfold n. div_lia. }
  destruct (Z.ltb_spec (zlen buf) (2 + n)); [done|]. intros _.
  destruct (Z.ltb_spec (Z.of_nat (length buf + length x)) (2 + n)); [lia|].
  by rewrite slice_app_l by lia.
Qed.

Lemma decode_one_app buf x :
  bytes_ok buf -> decode_one buf <> Err Truncated -> decode_one (buf ++ x) = decode_one buf.
Proof.
  destruct buf as [|first rest]; [done|]. intros Hok.
  change (decode_one ((first :: rest) ++ x)) with (decode_command ((first :: rest) ++ x) first).
  change (decode_one (first :: rest)) with (decode_command (first :: rest) first).
  revert Hok. generalize (first :: rest). intros buf Hok. unfold decode_command. cbv zeta.
  repeat (case_match; [by auto using decode_push_app, decode_short_app, decode_long_app|]). done.
Qed.

(** Decoding completes, waits for more bytes or raises [ValueError]. *)
Definition decoded (buf : list Z) (r : result (Op * Z)) : Prop :=
  match r with
  | Ok (o, consumed) => op_ok o /\ 1 <= consumed <= zlen buf
  | Err e => e = Truncated \/ e = ValueError
  end.

Lemma index_of_byte buf i :
  bytes_ok buf -> 0 <= i < zlen buf -> exists b, index buf i = Ok b /\ is_byte b.
Proof.
  intros Hok Hi. destruct (lookup_lt_is_Some_2 buf (Z.to_nat i)) as [b Hb]; [lia|].
  exists b. split; [apply index_lookup; [lia|done]|by eapply Forall_lookup_1].
Qed.

Lemma decode_push_ok buf first : bytes_ok buf -> decoded buf (decode_push buf first).
Proof.
  intros Hok. unfold decode_push. destruct (Z.ltb_spec (zlen buf) 3); [by left|].
  destruct (index_of_byte buf 1 Hok) as (mid & -> & Hm); [lia|].
  destruct (index_of_byte buf 2 Hok) as (third & -> & Ht); [lia|].
  rewrite !bind_of_Ok. split; [|lia]. cbv beta iota zeta delta [op_ok duration].
  assert (Z.land third 3 = third mod 4) as -> by (apply (land_pow2_ones _ 2); lia).
  assert (Z.shiftl (third mod 4) 13 = Z.shiftl (Z.shiftl (third mod 4) 8) 5) as ->
    by (by rewrite Z.shiftl_shiftl by lia).
  unfold is_byte in *. rewrite <- Z.shiftl_lor, land_1f, (lor_shiftl _ _ 8), (lor_shiftl _ _ 5) by div_lia.
  change (2 ^ 15) with 32768. change (2 ^ 8) with 256. change (2 ^ 5) with 32. div_lia.
Qed.

Lemma decode_short_ok buf first : decoded buf (decode_short buf first).
Proof.
  set (n := Z.land first 0x1f + 1). set (k := (n + 3) / 4).
  assert (1 <= n <= 32) by (unfold n; rewrite land_1f; div_lia). assert (n <= 4 * k /\ 1 <= k) by (unfold k; div_lia).
  destruct (Z.lt_ge_cases (zlen buf) (1 + k)) as [Hlt|Hge].
  { unfold decode_short. fold n k. rewrite (proj2 (Z.ltb_lt _ _) Hlt). by left. }
  destruct (decode_short_spec buf first n k eq_refl eq_refl Hge) as (tms & tdi & -> & Hm & Hi & Hmb & Hib).
  split; [|lia]. split_and!; [done|apply Hi|..]; rewrite <- ?length_bits by (apply Hm || apply Hi);
    rewrite ?Hmb, ?Hib, ?length_side by (rewrite length_slice; lia); unfold LONG_MAX_BITS; lia.
Qed.

Lemma decode_long_ok buf first opcode :
  bytes_ok buf -> opcode = CMD_LONG_FIXED_TMS_CUSTOM_TDI \/ opcode = CMD_LONG_FIXED_TMS_TDI ->
  decoded buf (decode_long buf first opcode).
Proof.
  intros Hok Hop. destruct (Z.lt_ge_cases (zlen buf) 2) as [Hlt|Hge].
  { unfold decode_long. rewrite (proj2 (Z.ltb_lt _ _) Hlt). by left. }
  destruct (index_of_byte buf 1 Hok) as (second & Hs & Hsb); [lia|].
  pose proof (field_bound first second Hsb) as Hf. set (n := Z.lor (Z.shiftl second 5) (Z.land first 0x1f) + 1).
  destruct Hop as [-> | ->].
  - destruct (Z.lt_ge_cases (zlen buf) (2 + byte_count n)) as [Hlt|Hge'].
    { unfold decode_long. rewrite (proj2 (Z.ltb_ge _ _) Hge), Hs, bind_of_Ok. cbv zeta.
      fold n. change ((n + 7) / 8) with (byte_count n). rewrite (proj2 (Z.ltb_lt _ _) Hlt). by left. }
    pose proof (byte_count_spec n ltac:(lia)).
    destruct (decode_long_custom buf first second n Hok Hs eq_refl) as (tms & tdi & -> & ? & ? & Hm & Hi & _);
      [lia..|]. split; [|lia]. split_and!; [done|done|lia..].
  - destruct (decode_long_idle buf first second n Hs eq_refl) as (tms & tdi & -> & ? & Hi' & Hm & Hi & _);
      [lia..|]. split; [|lia]. split_and!; [done|apply Hi'|lia..].
Qed.

Lemma decode_one_cases buf : bytes_ok buf -> decoded buf (decode_one buf).
Proof.
  destruct buf as [|first rest]; [by left|]. intros Hok.
  change (decode_one (first :: rest)) with (decode_command (first :: rest) first).
  assert (1 <= zlen (first :: rest)) as Hl by (simpl; lia). revert Hok Hl.
  generalize (first :: rest). intros buf Hok Hl. unfold decode_command. cbv zeta.
  set (opcode := Z.land (Z.shiftr first 5) 7).
  destruct (opcode =? CMD_CONFIG); [repeat case_match; first [by right|split; [done|lia]]|].
  destruct (opcode =? CMD_WRITE_TDO_ENABLE_FIFO); [by apply decode_push_ok|].
  destruct (opcode =? CMD_SHORT_CUSTOM_TMS_TDI); [by apply decode_short_ok|].
  destruct (_ || _) eqn:E; [|by right].
  apply decode_long_ok; [done|]. by rewrite orb_true_iff, !Z.eqb_eq in E.
Qed.

(** ** Feeding the decoder *)

Lemma feed_loop_step fuel buf :
  buf <> [] ->
  feed_loop (S fuel) buf =
    match decode_one buf with
    | Err Truncated => Ok ([], buf)
    | Err e => Err e
    | Ok (op, consumed) =>
        '(ops, rest) ← feed_loop fuel (slice_from buf consumed); Ok (op :: ops, rest)
    end.
Proof. by destruct buf. Qed.

(** What a command leaves in the buffer. *)
Lemma consumed_rest buf o consumed :
  bytes_ok buf -> decode_one buf = Ok (o, consumed) ->
  op_ok o /\ bytes_ok (slice_from buf consumed) /\ (length (slice_from buf consumed) < length buf)%nat
  /\ 0 <= consumed <= zlen buf.
Proof.
  intros Hok Hd. pose proof (decode_one_cases buf Hok) as Hc. rewrite Hd in Hc. destruct Hc as [Ho Hc].
  rewrite slice_from_nonneg, length_drop by lia. split_and!; [done|by apply Forall_drop|lia..].
Qed.

Lemma feed_loop_fuel n : forall m buf,
  bytes_ok buf -> (length buf <= n)%nat -> (length buf <= m)%nat -> feed_loop n buf = feed_loop m buf.
Proof.
  induction n as [|n IH]; intros m [|b buf] Hok Hn Hm; simpl in Hn, Hm; try lia; try by destruct m.
  destruct m as [|m]; [lia|]. rewrite !feed_loop_step by done.
  destruct (decode_one (b :: buf)) as [[o c]|] eqn:E; [|done].
  destruct (consumed_rest _ _ _ Hok E) as (_ & Hr & Hl & _). simpl in Hl. by rewrite (IH m) by (done || lia).
Qed.

(** Every byte sequence is decoded or refused with [ValueError]; what is held
    back is an incomplete command. *)
Lemma feed_loop_cases n : forall buf,
  bytes_ok buf -> (length buf <= n)%nat ->
  match feed_loop n buf with
  | Ok (ops, rest) => Forall op_ok ops /\ bytes_ok rest /\ decode_one rest = Err Truncated
  | Err e => e = ValueError
  end.
Proof.
  induction n as [|n IH]; intros [|b buf] Hok Hn; simpl in Hn; try lia; [done..|].
  rewrite feed_loop_step by done. pose proof (decode_one_cases _ Hok) as Hc.
  destruct (decode_one (b :: buf)) as [[o c]|e] eqn:E.
  - destruct (consumed_rest _ _ _ Hok E) as (Ho & Hr & Hl & _). simpl in Hl.
    specialize (IH _ Hr ltac:(lia)). destruct (feed_loop n _) as [[ops rest]|]; [|done].
    destruct IH as (? & ? & ?). by split_and!; [constructor|..].
  - destruct Hc as [-> | ->]; [|done]. done.
Qed.

Lemma feed_loop_app n : forall buf x,
  bytes_ok (buf ++ x) -> (length (buf ++ x) <= n)%nat ->
  feed_loop n (buf ++ x) =
    ('(ops1, rest) ← feed_loop (length buf) buf;
     '(ops2, rest) ← feed_loop (length (rest ++ x)) (rest ++ x);
     Ok (ops1 ++ ops2, rest)).
Proof.
  induction n as [|n IH]; intros buf x Hok Hn.
  { destruct buf; [|simpl in Hn; lia]. destruct x; [done|simpl in Hn; lia]. }
  pose proof (proj1 (bytes_ok_app _ _) Hok) as [Hb Hx]. destruct buf as [|b buf].
  { simpl app in *. change (feed_loop (length []) []) with (Ok (@nil Op, @nil Z)). rewrite bind_of_Ok.
    simpl app. rewrite (feed_loop_fuel (S n) (length x)) by (done || lia).
    by destruct (feed_loop (length x) x) as [[]|]. }
  set (full := b :: buf) in *. rewrite feed_loop_step by (by destruct x).
  change (length full) with (S (length buf)). rewrite feed_loop_step by done.
  pose proof (decode_one_cases full Hb) as Hc. destruct (decode_one full) as [[o c]|e] eqn:E.
  - rewrite decode_one_app, E by (done || by rewrite E).
    destruct (consumed_rest _ _ _ Hb E) as (_ & Hr & Hl & Hcl).
    assert (slice_from (full ++ x) c = slice_from full c ++ x) as ->.
    { rewrite !slice_from_nonneg by lia. by rewrite drop_app_le by lia. }
    rewrite length_app in Hn. simpl in Hl, Hn. rewrite IH; [|by apply bytes_ok_app|rewrite length_app; lia].
    rewrite (feed_loop_fuel (length buf) (length (slice_from full c))) by (done || lia).
    destruct (feed_loop _ (slice_from full c)) as [[ops1 rest]|]; [|done]. rewrite !bind_of_Ok.
    by destruct (feed_loop _ (rest ++ x)) as [[]|].
  - destruct Hc as [-> | ->].
    + rewrite bind_of_Ok. change (Err Truncated) with (Err (A:=Op * Z) Truncated).
      rewrite <- feed_loop_step by (by destruct x).
      rewrite (feed_loop_fuel (S n) (length (full ++ x))) by (done || lia).
      by destruct (feed_loop _ (full ++ x)) as [[]|].
    + rewrite decode_one_app, E by (done || by rewrite E). done.
Qed.

(** [feed] call after call, as packets arrive. *)
Definition feed_all (buf : list Z) (chunks : list (list Z)) : result (list Op * list Z) :=
  foldM (fun '(ops, buf) d => '(new, buf) ← feed buf d; Ok (ops ++ new, buf)) ([], buf) chunks.

Lemma feed_split buf x y :
  bytes_ok (buf ++ x ++ y) ->
  feed buf (x ++ y) =
    ('(ops1, rest) ← feed buf x; '(ops2, rest) ← feed rest y; Ok (ops1 ++ ops2, rest)).
Proof.
  intros Hok. unfold feed. rewrite !app_assoc in *. by rewrite feed_loop_app by done.
Qed.

(** ** Encoded commands decode to themselves *)

Lemma testbit_one_bit (v : bool) c j :
  0 <= c -> 0 <= j -> Z.testbit (Z.shiftl (Z.land (Z.b2z v) 1) c) j = (j =? c) && v.
Proof.
  intros. assert (Z.land (Z.b2z v) 1 = Z.b2z v) as -> by (by destruct v).
  rewrite Z.shiftl_spec by done. destruct (Z.eqb_spec j c) as [->|].
  - rewrite Z.sub_diag. by destruct v.
  - destruct (Z.lt_ge_cases j c); [by rewrite Z.testbit_neg_r by lia|]. destruct v; [|apply Z.bits_0].
    change (Z.b2z true) with 1. rewrite testbit_1. by destruct (Z.eqb_spec (j - c) 0); [lia|].
Qed.

(** The loop of [encode_nibbles] after [c] bits: TDI in the low nibble, TMS in
    the high one. *)
Lemma nibbles_loop tms tdi n off c :
  value_ok tms -> value_ok tdi -> base_len tms = n -> base_len tdi = n -> 0 <= off ->
  0 <= c <= Z.min 4 (n - off) ->
  exists byte, foldM (fun byte b =>
      i ← base_getitem tdi (off + b);
      m ← base_getitem tms (off + b);
      let byte := Z.lor byte (Z.shiftl (Z.land (Z.b2z i) 1) b) in
      Ok (Z.lor byte (Z.shiftl (Z.land (Z.b2z m) 1) (4 + b)))) 0 (seqZ 0 c) = Ok byte
    /\ forall j, 0 <= j ->
       Z.testbit byte j = if j <? 4 then (j <? c) && default false (base_bits tdi !! Z.to_nat (off + j))
                          else (j <? 4 + c) && default false (base_bits tms !! Z.to_nat (off + (j - 4))).
Proof.
  intros Hm Hi Hlm Hli Ho [Hc Hle].
  pose proof (length_base_bits tms (proj1 (proj1 Hm))) as Hbm.
  pose proof (length_base_bits tdi (proj1 (proj1 Hi))) as Hbi.
  revert c Hc Hle. apply (natlike_ind (fun c => _ -> _)).
  - intros _. exists 0. split; [done|]. intros j Hj. rewrite Z.bits_0.
    destruct (Z.ltb_spec j 4), (Z.ltb_spec j 0), (Z.ltb_spec j (4 + 0)); (done || lia).
  - intros c Hc IH Hle. destruct IH as (byte & Hf & Hb); [lia|].
    unfold Z.succ. rewrite seqZ_snoc, foldM_app, Hf, bind_of_Ok by done. cbn [foldM].
    destruct (lookup_lt_is_Some_2 (base_bits tdi) (Z.to_nat (off + c))) as [i Hxi]; [lia|].
    destruct (lookup_lt_is_Some_2 (base_bits tms) (Z.to_nat (off + c))) as [m Hxm]; [lia|].
    rewrite !Z.add_0_l, !base_getitem_spec by (done || apply Hm || apply Hi || lia).
    rewrite (index_lookup (base_bits tdi) _ i), (index_lookup (base_bits tms) _ m) by (done || lia).
    rewrite !bind_of_Ok.
    eexists. split; [done|]. intros j Hj.
    rewrite !Z.lor_spec, Hb, !testbit_one_bit by lia.
    destruct (Z.ltb_spec j 4), (Z.eqb_spec j c), (Z.eqb_spec j (4 + c)); try lia; try subst j.
    all: try replace (4 + c - 4) with c by lia; rewrite ?Hxi, ?Hxm; simpl.
    all: repeat match goal with |- context [?a <? ?b] => destruct (Z.ltb_spec a b); try lia end.
    all: by rewrite ?orb_false_r, ?orb_true_r.
Qed.

Lemma encode_nibbles_spec tms tdi n off :
  value_ok tms -> value_ok tdi -> base_len tms = n -> base_len tdi = n -> 0 <= off <= n ->
  exists byte, encode_nibbles tms tdi n off = Ok byte /\ is_byte byte
    /\ forall j, 0 <= j < Z.min 4 (n - off) ->
         Z.testbit byte j = default false (base_bits tdi !! Z.to_nat (off + j))
         /\ Z.testbit byte (4 + j) = default false (base_bits tms !! Z.to_nat (off + j)).
Proof.
  intros Hm Hi Hlm Hli Ho.
  destruct (nibbles_loop tms tdi n off (Z.min 4 (n - off)) Hm Hi Hlm Hli) as (byte & Hf & Hb); [lia..|].
  exists byte. split_and!; [done| |].
  - assert (forall j, 8 <= j -> Z.testbit byte j = false) as Hhi.
    { intros j Hj. rewrite Hb by lia.
      destruct (Z.ltb_spec j 4), (Z.ltb_spec j (4 + Z.min 4 (n - off))); (done || lia). }
    assert (0 <= byte) by (apply Z.bits_iff_nonneg_ex; exists 8; intros j Hj; apply Hhi; lia).
    split; [done|]. by apply (bounded_bits byte 8).
  - intros j Hj. rewrite !Hb by lia. replace (4 + j - 4) with j by lia.
    by repeat match goal with |- context [?a <? ?b] => destruct (Z.ltb_spec a b); try lia end.
Qed.

Lemma byte_count_min n : 1 <= n -> 1 <= byte_count n.
Proof. unfold byte_count. intros. div_lia. Qed.

(** Decoding by opcode. *)
Lemma decode_one_opcode c m rest :
  0 <= c < 8 ->
  let first := Z.lor (Z.shiftl c 5) (Z.land m 0x1f) in
  let buf := first :: rest in
  decode_one buf =
    if c =? CMD_CONFIG then decode_one buf
    else if c =? CMD_WRITE_TDO_ENABLE_FIFO then decode_push buf first
    else if c =? CMD_SHORT_CUSTOM_TMS_TDI then decode_short buf first
    else if (c =? CMD_LONG_FIXED_TMS_CUSTOM_TDI) || (c =? CMD_LONG_FIXED_TMS_TDI)
    then decode_long buf first c
    else Err ValueError.
Proof.
  intros Hc first buf. destruct (header_spec c m Hc) as (_ & Hop & _). fold first in Hop.
  destruct (c =? CMD_CONFIG) eqn:E; [done|].
  change (decode_one buf) with (decode_command buf first).
  unfold decode_command. rewrite Hop, E. done.
Qed.

Lemma index_1 (a b : Z) l : index (a :: b :: l) 1 = Ok b.
Proof. by apply index_lookup. Qed.

Lemma roundtrip_push w rest :
  1 <= duration w <= 2 ^ 15 ->
  exists enc, encode_request (QPush w) = Ok enc /\ bytes_ok enc
    /\ decode_one (enc ++ rest) = Ok (Push w, zlen enc).
Proof.
  intros Hw. destruct w as [d en eop]. cbn [encode_request duration tdo_enable eop_gen] in *.
  unfold encode_write_tdo_enable_fifo. change (Z.shiftl 1 15) with (2 ^ 15).
  destruct (Z.leb_spec d 0), (Z.ltb_spec (2 ^ 15) d); try lia. cbn [orb]. cbv zeta.
  destruct (flags_spec (d - 1) en eop ltac:(lia)) as (Hb3 & Hen & Heop & Hf).
  destruct (header_spec CMD_WRITE_TDO_ENABLE_FIFO (d - 1) ltac:(done)) as (Hb1 & _ & Hl).
  set (third := Z.lor (Z.lor _ _) (Z.land (Z.shiftr (d - 1) 13) 3)) in *.
  eexists. split; [done|]. split.
  { rewrite !Forall_cons. split_and!; [done|apply land_ff_byte|done|done]. }
  cbn [app]. rewrite decode_one_opcode by done.
  change (CMD_WRITE_TDO_ENABLE_FIFO =? CMD_CONFIG) with false. rewrite Z.eqb_refl. cbv iota zeta.
  unfold decode_push. rewrite (proj2 (Z.ltb_ge _ 3)) by (simpl; lia).
  rewrite index_1, (index_lookup _ 2 third), !bind_of_Ok, Hl, Hen, Heop, Hf by done. cbv zeta.
  by replace (d - 1 + 1) with d by lia.
Qed.

Lemma roundtrip_idle n rest :
  1 <= n <= LONG_MAX_BITS ->
  exists enc tms tdi, encode_request (QIdle n) = Ok enc /\ bytes_ok enc
    /\ decode_one (enc ++ rest) = Ok (Shift tms tdi, zlen enc)
    /\ bits tms = replicate (Z.to_nat n) false /\ bits tdi = replicate (Z.to_nat n) false.
Proof.
  intros Hn. cbn [encode_request]. unfold encode_long_fixed_tms_tdi.
  destruct (Z.leb_spec n 0), (Z.ltb_spec LONG_MAX_BITS n); try lia. cbn [orb]. cbv zeta.
  destruct (field_spec (n - 1) ltac:(lia)) as (Hb2 & Hf).
  destruct (header_spec CMD_LONG_FIXED_TMS_TDI (n - 1) ltac:(done)) as (Hb1 & _ & Hl).
  set (first := Z.lor _ (Z.land (n - 1) 0x1f)) in *. set (second := Z.land (Z.shiftr (n - 1) 5) 0xff) in *.
  destruct (decode_long_idle (first :: second :: rest) first second n)
    as (tms & tdi & Hd & _ & _ & _ & _ & Hm & Hi); [by apply index_1|by rewrite Hl, Hf; lia|lia|simpl; lia|].
  exists [first; second], tms, tdi. split_and!; [done|by rewrite !Forall_cons| |done..].
  cbn [app]. unfold first. rewrite decode_one_opcode by done. fold first. exact Hd.
Qed.

Lemma roundtrip_long tdi rest :
  value_ok tdi -> 1 <= base_len tdi <= LONG_MAX_BITS -> bytes_ok rest ->
  exists enc tms tdi', encode_request (QLong tdi) = Ok enc /\ bytes_ok enc
    /\ decode_one (enc ++ rest) = Ok (Shift tms tdi', zlen enc)
    /\ bits tms = replicate (length (base_bits tdi)) false /\ bits tdi' = base_bits tdi.
Proof.
  intros Hv Hn Hrest. cbn [encode_request]. unfold encode_long_fixed_tms_custom_tdi.
  set (n := base_len tdi) in *. pose proof (length_base_bits tdi (proj1 (proj1 Hv))) as Hlen. fold n in Hlen.
  destruct (Z.eqb_spec n 0), (Z.ltb_spec LONG_MAX_BITS n); try lia. cbn [orb]. cbv zeta.
  rewrite base_data_spec, bind_of_Ok by apply Hv.
  destruct (pack_clean_bytes (base_bits tdi)) as [(Hpok & _ & Hpl & _) Hpb]. rewrite Hlen in Hpl, Hpb.
  assert (ljust (pack (base_bits tdi)) ((n + 7) / 8) = pack (base_bits tdi)) as ->.
  { unfold ljust. rewrite Hpl. change ((n + 7) / 8) with (byte_count n).
    by rewrite Z.sub_diag, app_nil_r. }
  destruct (field_spec (n - 1) ltac:(lia)) as (Hb2 & Hf).
  destruct (header_spec CMD_LONG_FIXED_TMS_CUSTOM_TDI (n - 1) ltac:(done)) as (Hb1 & _ & Hl).
  set (first := Z.lor _ (Z.land (n - 1) 0x1f)) in *. set (second := Z.land (Z.shiftr (n - 1) 5) 0xff) in *.
  set (payload := pack (base_bits tdi)) in *.
  assert (bytes_ok ([first; second] ++ payload)) as Hok.
  { apply bytes_ok_app. split; [by rewrite !Forall_cons|done]. }
  destruct (decode_long_custom (([first; second] ++ payload) ++ rest) first second n)
    as (tms & tdi' & Hd & _ & _ & _ & _ & Hm & Hi);
    [by apply bytes_ok_app|by apply index_1|by rewrite Hl, Hf; lia|lia| |].
  { rewrite !length_app. simpl. lia. }
  rewrite <- app_assoc, slice_app_mid, Hpb in Hi by (simpl; lia).
  exists ([first; second] ++ payload), tms, tdi'.
  split_and!; [done..| |by rewrite Hm; f_equal; lia|done].
  replace (zlen ([first; second] ++ payload)) with (2 + byte_count n) by (rewrite length_app; simpl; lia).
  cbn [app]. unfold first. rewrite decode_one_opcode by done. fold first. exact Hd.
Qed.

(** A side of a payload whose bytes hold the bits of [l] four by four. *)
Lemma side_eq from payload n (l : list bool) :
  zlen l = n -> n <= 4 * zlen payload ->
  (forall (i : nat) byte, Z.of_nat i < n -> payload !! (i / 4)%nat = Some byte ->
     Z.testbit byte (from + Z.of_nat (i mod 4)) = default false (l !! i)) ->
  side from payload n = l.
Proof.
  intros Hl Hn Hb. apply list_eq. intros i. pose proof (length_side from payload n ltac:(lia)) as Hs.
  destruct (Z.lt_ge_cases (Z.of_nat i) n) as [Hi|Hi]; [|by rewrite !lookup_ge_None_2 by lia].
  destruct (lookup_lt_is_Some_2 payload (i / 4)%nat) as [byte Hbyte]; [apply Nat.Div0.div_lt_upper_bound; lia|].
  destruct (lookup_lt_is_Some_2 l i) as [x Hx]; [lia|].
  rewrite (lookup_side _ _ _ _ byte), (Hb i byte), Hx by done. done.
Qed.

(** The payload of a short shift holds the bits of both vectors. *)
Lemma short_payload tms tdi n acc :
  value_ok tms -> value_ok tdi -> base_len tms = n -> base_len tdi = n -> 1 <= n ->
  exists payload, foldM (fun out k => byte ← encode_nibbles tms tdi n (4 * k); Ok (out ++ [byte]))
        acc (seqZ 0 ((n + 3) / 4)) = Ok (acc ++ payload)
    /\ bytes_ok payload /\ zlen payload = (n + 3) / 4
    /\ side 0 payload n = base_bits tdi /\ side 4 payload n = base_bits tms.
Proof.
  intros Hm Hi Hlm Hli Hn. set (k := (n + 3) / 4). assert (1 <= k /\ 4 * (k - 1) < n <= 4 * k) as Hk by (unfold k; div_lia).
  pose proof (length_base_bits tms (proj1 (proj1 Hm))) as Hbm.
  pose proof (length_base_bits tdi (proj1 (proj1 Hi))) as Hbi.
  set (P q byte := is_byte byte /\ forall j, 0 <= j < Z.min 4 (n - 4 * q) ->
         Z.testbit byte j = default false (base_bits tdi !! Z.to_nat (4 * q + j))
         /\ Z.testbit byte (4 + j) = default false (base_bits tms !! Z.to_nat (4 * q + j))).
  destruct (foldM_collect (fun q => encode_nibbles tms tdi n (4 * q)) P (seqZ 0 k)) with (acc := acc)
    as (payload & Hp & HP).
  { intros q Hq%elem_of_seqZ. apply encode_nibbles_spec; (done || lia). }
  pose proof (Forall2_length _ _ _ HP) as Hl. rewrite length_seqZ in Hl.
  assert (forall (i : nat) byte, Z.of_nat i < n -> payload !! (i / 4)%nat = Some byte ->
    Z.testbit byte (0 + Z.of_nat (i mod 4)) = default false (base_bits tdi !! i)
    /\ Z.testbit byte (4 + Z.of_nat (i mod 4)) = default false (base_bits tms !! i)) as Hbits.
  { intros i byte Hin Hbyte. destruct (Forall2_lookup_r _ _ _ _ _ HP Hbyte) as (q & Hq & _ & Hb).
    apply lookup_seqZ in Hq as [-> _]. pose proof (Nat.mod_upper_bound i 4 ltac:(lia)).
    pose proof (Nat.div_mod i 4 ltac:(lia)) as Hdm. destruct (Hb (Z.of_nat (i mod 4))) as [H1 H2]; [lia|].
    by replace (Z.to_nat (4 * (0 + Z.of_nat (i / 4)) + Z.of_nat (i mod 4))) with i in H1, H2 by lia. }
  exists payload. split_and!; [done| |lia|..].
  - apply Forall_lookup_2. intros i b Hb. by destruct (Forall2_lookup_r _ _ _ _ _ HP Hb) as (q & _ & ? & _).
  - apply side_eq; [lia..|]. intros. by apply Hbits.
  - apply side_eq; [lia..|]. intros. by apply Hbits.
Qed.

Lemma roundtrip_short tms tdi rest :
  value_ok tms -> value_ok tdi -> base_len tms = base_len tdi -> 1 <= base_len tms <= SHORT_MAX_BITS ->
  exists enc tms' tdi', encode_request (QShort tms tdi) = Ok enc /\ bytes_ok enc
    /\ decode_one (enc ++ rest) = Ok (Shift tms' tdi', zlen enc)
    /\ bits tms' = base_bits tms /\ bits tdi' = base_bits tdi.
Proof.
  intros Hm Hi Hlen Hn. cbn [encode_request]. unfold encode_short_custom_tms_tdi, SHORT_MAX_BITS in *.
  set (n := base_len tms) in *. rewrite <- Hlen, Z.eqb_refl.
  destruct (Z.eqb_spec n 0), (Z.ltb_spec 32 n); try lia. cbn [orb negb]. cbv zeta.
  destruct (header_spec CMD_SHORT_CUSTOM_TMS_TDI (n - 1) ltac:(done)) as (Hb1 & _ & Hl).
  set (first := Z.lor _ (Z.land (n - 1) 0x1f)) in *.
  destruct (short_payload tms tdi n [first] Hm Hi eq_refl (eq_sym Hlen)) as (payload & -> & Hok & Hlp & Hs0 & Hs4);
    [lia|]. rewrite Z.mod_small in Hl by lia.
  destruct (decode_short_spec (([first] ++ payload) ++ rest) first n ((n + 3) / 4))
    as (tms' & tdi' & Hd & _ & _ & Hm' & Hi'); [lia|done|rewrite !length_app; simpl; lia|].
  rewrite <- app_assoc, slice_app_mid in Hm', Hi' by (simpl; lia). rewrite Hs4 in Hm'. rewrite Hs0 in Hi'.
  exists ([first] ++ payload), tms', tdi'. split_and!; [done| | |done..].
  { apply bytes_ok_app. by rewrite Forall_singleton. }
  replace (zlen ([first] ++ payload)) with (1 + (n + 3) / 4) by (rewrite length_app; simpl; lia).
  cbn [app]. unfold first. rewrite decode_one_opcode by done. fold first. exact Hd.
Qed.

(** Every command of the host decodes to what it means. *)
Lemma request_roundtrip r rest :
  request_ok r -> bytes_ok rest ->
  exists enc o, encode_request r = Ok enc /\ bytes_ok enc /\ enc <> []
    /\ decode_one (enc ++ rest) = Ok (o, zlen enc) /\ op_action o = request_action r.
Proof.
  intros Hr Hrest. assert (forall enc o, bytes_ok rest -> bytes_ok enc -> decode_one (enc ++ rest) = Ok (o, zlen enc) -> enc <> []) as Hne.
  { intros enc o Hok Hok' Hd ->. pose proof (decode_one_cases rest Hok) as Hc. simpl in Hd. rewrite Hd in Hc.
    destruct Hc as [_ Hc]. simpl in Hc. lia. }
  destruct r as [| |w|tms tdi|tdi|n]; cbn [request_ok] in Hr.
  - exists [0], RetrieveInfo. split_and!; [done|by repeat constructor|done..].
  - exists [1], ResetTdoFifo. split_and!; [done|by repeat constructor|done..].
  - destruct (roundtrip_push w rest Hr) as (enc & ? & ? & ?). exists enc, (Push w). eauto 10.
  - destruct Hr as (? & ? & ? & ?).
    destruct (roundtrip_short tms tdi rest) as (enc & m & i & ? & ? & ? & Hm & Hi); [done..|].
    exists enc, (Shift m i). cbn [op_action request_action]. rewrite Hm, Hi. eauto 10.
  - destruct Hr as (? & ?).
    destruct (roundtrip_long tdi rest) as (enc & m & i & ? & ? & ? & Hm & Hi); [done..|].
    exists enc, (Shift m i). cbn [op_action request_action]. rewrite Hm, Hi. eauto 10.
  - destruct (roundtrip_idle n rest Hr) as (enc & m & i & ? & ? & ? & Hm & Hi).
    exists enc, (Shift m i). cbn [op_action request_action]. rewrite Hm, Hi. eauto 10.
Qed.

Definition encode_requests (rs : list request) : result (list Z) :=
  foldM (fun out r => enc ← encode_request r; Ok (out ++ enc)) [] rs.

Lemma feed_loop_requests rs :
  Forall request_ok rs ->
  exists stream ops, (forall acc, foldM (fun out r => enc ← encode_request r; Ok (out ++ enc)) acc rs
                                  = Ok (acc ++ stream))
    /\ bytes_ok stream /\ feed_loop (length stream) stream = Ok (ops, [])
    /\ op_action <$> ops = request_action <$> rs.
Proof.
  induction 1 as [|r rs Hr _ (rest & ops & Henc & Hok & Hf & Ha)].
  { exists [], []. split_and!; [|constructor|done..]. intros acc. by rewrite app_nil_r. }
  destruct (request_roundtrip r rest Hr Hok) as (enc & o & He & Hbe & Hne & Hd & Hao).
  exists (enc ++ rest), (o :: ops). split_and!.
  - intros acc. cbn [foldM]. by rewrite He, !bind_of_Ok, Henc, app_assoc.
  - by apply bytes_ok_app.
  - destruct enc as [|b enc]; [done|]. cbn [app length]. rewrite feed_loop_step by done.
    change (b :: enc ++ rest) with ((b :: enc) ++ rest). rewrite Hd.
    rewrite slice_from_nonneg, drop_app_length' by lia.
    rewrite (feed_loop_fuel _ (length rest)), Hf by (done || rewrite length_app; lia). done.
  - by rewrite !fmap_cons, Hao, Ha.
Qed.

Lemma feed_cases buf d :
  bytes_ok (buf ++ d) ->
  match feed buf d with
  | Ok (ops, rest) => Forall op_ok ops /\ bytes_ok rest /\ decode_one rest = Err Truncated
  | Err e => e = ValueError
  end.
Proof. intros Hb. by apply feed_loop_cases. Qed.

Lemma feed_all_concat chunks : forall ops buf,
  bytes_ok (buf ++ concat chunks) -> decode_one buf = Err Truncated ->
  foldM (fun '(ops, buf) d => '(new, buf) ← feed buf d; Ok (ops ++ new, buf)) (ops, buf) chunks
  = ('(new, rest) ← feed buf (concat chunks); Ok (ops ++ new, rest)).
Proof.
  induction chunks as [|d chunks IH]; intros ops buf Hok Ht; cbn [foldM concat].
  - unfold feed. rewrite app_nil_r. destruct buf as [|b buf]; [by simpl; rewrite app_nil_r|].
    cbn [length]. rewrite feed_loop_step, Ht, bind_of_Ok, app_nil_r by done. done.
  - cbn [concat] in Hok. rewrite feed_split by done. rewrite app_assoc in Hok.
    apply bytes_ok_app in Hok as [Hb Hc].
    pose proof (feed_cases buf d Hb) as Hcases. destruct (feed buf d) as [[new rest]|]; [|done].
    destruct Hcases as (_ & Hr & Htr). rewrite !bind_of_Ok.
    rewrite IH by (done || by apply bytes_ok_app). destruct (feed rest _) as [[]|]; [|done].
    by rewrite !bind_of_Ok, app_assoc.
Qed.

(** ** Packing responses *)

(** One more response bit after the bits [l] of an incomplete byte. *)
Definition pack_bit (st : list bool * list Z) (b : bool) : list bool * list Z :=
  let '(l, out) := st in
  let l := l ++ [b] in
  if (length l =? 8)%nat then ([], out ++ [Z_of_bits l]) else (l, out).

Definition pack_bits (l : list bool) (bs : list bool) : list bool * list Z :=
  foldl pack_bit (l, []) bs.

(** The encoder holds the bits [l]. *)
Definition held (e : JopEncoder) (l : list bool) : Prop :=
  e_byte e = Z_of_bits l /\ e_bit_pos e = zlen l /\ (length l < 8)%nat.

Lemma held_init : held encoder_init [].
Proof. by split_and!; [..|simpl; lia]. Qed.

Lemma emit_bit_spec e l out b :
  held e l ->
  exists e', emit_bit (e, out) b = (e', (pack_bit (l, out) b).2) /\ held e' (pack_bit (l, out) b).1.
Proof.
  intros (Hb & Hp & Hl). unfold emit_bit, pack_bit. rewrite Hb, Hp, length_app. simpl length.
  assert (Z.lor (Z_of_bits l) (Z.shiftl (Z.b2z b) (zlen l)) = Z_of_bits (l ++ [b])) as ->.
  { rewrite Z.lor_comm, lor_shiftl, Z_of_bits_app by (lia || apply Z_of_bits_bound).
    simpl. destruct b; simpl; lia. }
  destruct (Nat.eqb_spec (length l + 1) 8), (Z.eqb_spec (zlen l + 1) 8); try lia; simpl.
  - eexists. split; [done|apply held_init].
  - eexists. split; [done|]. split_and!; [done|simpl; rewrite length_app; simpl; lia..].
Qed.

Lemma emit_loop tdo e l :
  value_ok tdo -> held e l ->
  exists e', foldM (fun st i => bit ← base_getitem tdo i; Ok (emit_bit st bit)) (e, []) (seqZ 0 (base_len tdo))
             = Ok (e', (pack_bits l (base_bits tdo)).2)
    /\ held e' (pack_bits l (base_bits tdo)).1.
Proof.
  intros Hv He. pose proof (length_base_bits tdo (proj1 (proj1 Hv))) as Hlen.
  assert (forall k : nat, (k <= length (base_bits tdo))%nat ->
    exists e', foldM (fun st i => bit ← base_getitem tdo i; Ok (emit_bit st bit)) (e, []) (seqZ 0 (Z.of_nat k))
             = Ok (e', (pack_bits l (take k (base_bits tdo))).2)
    /\ held e' (pack_bits l (take k (base_bits tdo))).1) as H.
  { induction k as [|k IH]; intros Hk; [by exists e|]. destruct IH as (e1 & Hf & H1); [lia|].
    destruct (lookup_lt_is_Some_2 (base_bits tdo) k) as [x Hx]; [lia|].
    rewrite (take_S_r _ _ x Hx). unfold pack_bits. rewrite foldl_app. fold (pack_bits l (take k (base_bits tdo))).
    replace (Z.of_nat (S k)) with (Z.of_nat k + 1) by lia.
    rewrite seqZ_snoc, foldM_app, Hf, bind_of_Ok by lia. cbn [foldM].
    rewrite Z.add_0_l, base_getitem_spec, (index_lookup _ _ x), !bind_of_Ok
      by (apply Hv || lia || by rewrite Nat2Z.id).
    destruct (pack_bits l (take k (base_bits tdo))) as [l1 out1]. cbn [foldl fst snd] in H1 |- *.
    destruct (emit_bit_spec e1 l1 out1 x H1) as (e' & -> & He'). by exists e'. }
  destruct (H (length (base_bits tdo)) ltac:(lia)) as (e' & Hf & He'). rewrite take_ge in Hf, He' by lia.
  exists e'. by rewrite <- Hlen.
Qed.

(** What [emit_window] returns: the complete bytes, and with EOP the
    incomplete one padded with zeros. *)
Definition window_bytes (l bs : list bool) (eop : bool) : list bool * list Z :=
  let '(l', out) := pack_bits l bs in
  if eop then ([], match l' with [] => out | _ => out ++ [Z_of_bits l'] end) else (l', out).

Lemma emit_window_spec tdo e l eop :
  value_ok tdo -> held e l ->
  exists e', emit_window e tdo eop = Ok (e', ((window_bytes l (base_bits tdo) eop).2,
      if eop then match (window_bytes l (base_bits tdo) eop).2 with [] => [] | out => [zlen out - 1] end
      else []))
    /\ held e' (window_bytes l (base_bits tdo) eop).1.
Proof.
  intros Hv He. destruct (emit_loop tdo e l Hv He) as (e' & Hf & He'). unfold emit_window, window_bytes.
  rewrite Hf, bind_of_Ok. destruct (pack_bits l (base_bits tdo)) as [l' out]. cbn [fst snd] in *.
  destruct eop; [|by exists e']. destruct He' as (Hb & Hp & Hl). rewrite Hp, Hb.
  destruct l' as [|b l'].
  - exists e'. split; [by destruct out|]. by split_and!.
  - destruct (Z.ltb_spec 0 (zlen (b :: l'))); [|simpl in *; lia].
    exists encoder_init. split; [|apply held_init]. by destruct (out ++ _).
Qed.

Lemma pack_bits_from l out bs :
  foldl pack_bit (l, out) bs = ((pack_bits l bs).1, out ++ (pack_bits l bs).2).
Proof.
  assert (forall out0 l out, foldl pack_bit (l, out0 ++ out) bs
    = ((foldl pack_bit (l, out) bs).1, out0 ++ (foldl pack_bit (l, out) bs).2)) as H.
  { induction bs as [|b bs IH]; intros out0 l' out'; [done|]. cbn [foldl]. unfold pack_bit at 2 4 6.
    destruct (_ =? 8)%nat; [rewrite <- app_assoc|]; apply IH. }
  rewrite <- (app_nil_r out) at 1. apply H.
Qed.

Lemma pack_bits_app l bs1 bs2 :
  pack_bits l (bs1 ++ bs2) =
    ((pack_bits (pack_bits l bs1).1 bs2).1, (pack_bits l bs1).2 ++ (pack_bits (pack_bits l bs1).1 bs2).2).
Proof.
  unfold pack_bits at 1. rewrite foldl_app. fold (pack_bits l bs1). destruct (pack_bits l bs1).
  apply pack_bits_from.
Qed.

(** Packing cuts the bit stream into bytes, least significant bit first. *)
Lemma pack_bits_spec l bs :
  (length l < 8)%nat ->
  bytes_ok (pack_bits l bs).2 /\ bytes_bits (pack_bits l bs).2 ++ (pack_bits l bs).1 = l ++ bs
  /\ (length (pack_bits l bs).1 < 8)%nat.
Proof.
  revert l. induction bs as [|b bs IH]; intros l Hl.
  { simpl. split_and!; [constructor|by rewrite app_nil_r|done]. }
  change (b :: bs) with ([b] ++ bs). rewrite pack_bits_app. cbn [fst snd].
  assert (bytes_ok (pack_bits l [b]).2 /\ bytes_bits (pack_bits l [b]).2 ++ (pack_bits l [b]).1 = l ++ [b]
    /\ (length (pack_bits l [b]).1 < 8)%nat) as (Hok & Hb & Hlt).
  { unfold pack_bits. cbn [foldl]. unfold pack_bit. pose proof (Z_of_bits_bound (l ++ [b])) as Hz.
    destruct (Nat.eqb_spec (length (l ++ [b])) 8) as [H8|]; cbn [fst snd app].
    - rewrite H8 in Hz. split_and!; [by repeat constructor; apply Hz| |simpl; lia].
      rewrite bytes_bits_cons, !app_nil_r, <- H8. apply bits_of_Z_of_bits.
    - rewrite length_app in *. simpl in *. split_and!; [constructor|done|lia]. }
  destruct (IH (pack_bits l [b]).1 Hlt) as (Hok' & Hb' & Hlt').
  split_and!; [by apply bytes_ok_app| |done].
  by rewrite bytes_bits_app, <- app_assoc, Hb', app_assoc, Hb, <- app_assoc.
Qed.

(** ** Bounds and refusals *)

(** An incomplete command is shorter than the longest complete one. *)
Lemma truncated_bound buf :
  bytes_ok buf -> decode_one buf = Err Truncated -> zlen buf < 2 + LONG_MAX_BITS / 8.
Proof.
  intros Hok Ht. destruct (Z.lt_ge_cases (zlen buf) (2 + LONG_MAX_BITS / 8)) as [|Hge]; [done|exfalso].
  change (2 + LONG_MAX_BITS / 8) with 1026 in Hge.
  destruct buf as [|first rest]; [simpl in Hge; lia|]. revert Ht.
  change (decode_one (first :: rest)) with (decode_command (first :: rest) first).
  revert Hok Hge. generalize (first :: rest). intros buf Hok Hge. unfold decode_command. cbv zeta.
  set (opcode := Z.land (Z.shiftr first 5) 7). destruct (opcode =? CMD_CONFIG); [by repeat case_match|].
  destruct (index_of_byte buf 1 Hok) as (second & Hs & Hsb); [lia|].
  destruct (index_of_byte buf 2 Hok) as (third & Ht & _); [lia|].
  destruct (opcode =? CMD_WRITE_TDO_ENABLE_FIFO).
  { unfold decode_push. destruct (Z.ltb_spec (zlen buf) 3); [lia|]. by rewrite Hs, Ht. }
  destruct (opcode =? CMD_SHORT_CUSTOM_TMS_TDI).
  { destruct (decode_short_spec buf first _ _ eq_refl eq_refl) as (? & ? & -> & _); [|done].
    rewrite land_1f. div_lia. }
  destruct (_ || _) eqn:E; [|done]. rewrite orb_true_iff, !Z.eqb_eq in E.
  pose proof (field_bound first second Hsb) as Hf. unfold LONG_MAX_BITS in Hf. destruct E as [-> | ->].
  - destruct (decode_long_custom buf first second _ Hok Hs eq_refl) as (? & ? & -> & _); [lia| |done].
    unfold byte_count. div_lia.
  - by destruct (decode_long_idle buf first second _ Hs eq_refl) as (? & ? & -> & _); [lia..|].
Qed.

Definition request_wf (r : request) : Prop :=
  match r with
  | QShort tms tdi => value_ok tms /\ value_ok tdi
  | QLong tdi => value_ok tdi
  | _ => True
  end.

Lemma encode_refuses r : request_wf r -> ~ request_ok r -> encode_request r = Err ValueError.
Proof.
  destruct r as [| |w|tms tdi|tdi|n]; cbn [request_wf request_ok encode_request]; intros Hw Hr; try done.
  - unfold encode_write_tdo_enable_fifo. change (Z.shiftl 1 15) with (2 ^ 15).
    destruct (Z.leb_spec (duration w) 0), (Z.ltb_spec (2 ^ 15) (duration w)); try done. lia.
  - destruct Hw as [Hm Hi]. pose proof (length_base_bits tms (proj1 (proj1 Hm))).
    unfold encode_short_custom_tms_tdi. destruct (Z.eqb_spec (base_len tms) 0); [done|].
    destruct (Z.ltb_spec SHORT_MAX_BITS (base_len tms)); [done|]. cbn [orb].
    destruct (Z.eqb_spec (base_len tdi) (base_len tms)); [|done]. exfalso. apply Hr. split_and!; (done || lia).
  - pose proof (length_base_bits tdi (proj1 (proj1 Hw))). unfold encode_long_fixed_tms_custom_tdi.
    destruct (Z.eqb_spec (base_len tdi) 0); [done|].
    destruct (Z.ltb_spec LONG_MAX_BITS (base_len tdi)); [done|]. exfalso. apply Hr. split; (done || lia).
  - unfold encode_long_fixed_tms_tdi.
    destruct (Z.leb_spec n 0), (Z.ltb_spec LONG_MAX_BITS n); try done. lia.
Qed.

(** ** Properties *)

(** The commands of a host, encoded one after the other, are decoded to
    what they mean however the byte stream is cut into packets, and nothing is
    left over. *)
Theorem command_stream_roundtrip rs :
  Forall request_ok rs ->
  exists stream, encode_requests rs = Ok stream
    /\ forall chunks, concat chunks = stream ->
       exists ops, feed_all [] chunks = Ok (ops, [])
                   /\ op_action <$> ops = request_action <$> rs.
Proof.
  intros Hrs. destruct (feed_loop_requests rs Hrs) as (stream & ops & Henc & Hok & Hf & Ha).
  exists stream. split; [apply (Henc [])|]. intros chunks <-. exists ops. split; [|done].
  unfold feed_all. rewrite feed_all_concat by done. unfold feed. cbn [app]. by rewrite Hf.
Qed.

Definition five_bits (z : Z) : base := BStr (mkBitString [[]] z 5 None).

Lemma five_bits_ok z : 0 <= z < 32 -> value_ok (five_bits z).
Proof.
  intros Hz. destruct (clean_intro [[]] z 5 None) as [Hc _]; [constructor|done|done|by left|].
  split; [split; [apply Hc|done]|done].
Qed.

Definition sample_requests : list request :=
  [QPush (mkPush 1000 true false); QShort (five_bits 0x15) (five_bits 0x0a); QIdle 300; QReset].

Lemma sample_requests_ok : Forall request_ok sample_requests.
Proof.
  repeat constructor; try (by apply five_bits_ok); vm_compute; congruence.
Qed.

Lemma command_stream_roundtrip_witness :
  exists ops, feed_all [] [[71; 31]; [128; 132]; [90; 16; 203]; [9; 1]] = Ok (ops, [])
              /\ op_action <$> ops = request_action <$> sample_requests.
Proof.
  destruct (command_stream_roundtrip sample_requests sample_requests_ok) as (stream & Hs & Hf).
  apply Hf. vm_compute in Hs. by injection Hs as <-.
Defined.

(** Whatever bytes arrive, in whatever pieces, decoding gives the
    operations of the whole stream or raises [ValueError]; the operations are
    well formed (one length for both vectors, sizes within the fields), and
    the bytes held back for the next packet never reach the size of the
    longest command. *)
Theorem decoder_robust chunks :
  bytes_ok (concat chunks) ->
  feed_all [] chunks = feed [] (concat chunks)
  /\ match feed_all [] chunks with
     | Ok (ops, rest) => Forall op_ok ops /\ zlen rest < 2 + LONG_MAX_BITS / 8
     | Err e => e = ValueError
     end.
Proof.
  intros Hok. assert (feed_all [] chunks = feed [] (concat chunks)) as ->.
  { unfold feed_all. rewrite feed_all_concat by done. by destruct (feed [] _) as [[]|]. }
  split; [done|]. pose proof (feed_cases [] (concat chunks) Hok) as Hc.
  destruct (feed [] _) as [[ops rest]|]; [|done]. destruct Hc as (? & ? & ?).
  split; [done|]. by apply truncated_bound.
Qed.

Lemma decoder_robust_witness :
  exists ops, feed_all [] [[0xa3; 0]; [0xff; 0x45]] = Ok (ops, [0x45]) /\ length ops = 1%nat /\ Forall op_ok ops.
Proof.
  destruct (decoder_robust [[0xa3; 0]; [0xff; 0x45]]) as [Hf Hc]; [by repeat constructor|].
  destruct (feed_all [] [[0xa3; 0]; [0xff; 0x45]]) as [[ops rest]|] eqn:E; [|by vm_compute in E].
  vm_compute in Hf. injection Hf as Ho Hr. exists ops. rewrite Hr. split_and!; [done|by rewrite Ho|apply Hc].
Defined.
