(* ===== verification/JopFraming.v ===== *)
(** * Packets of the JTAG-over-protocol sockets (src/acrobe/jop/framing.py)

    A guardband, a six-byte header, a payload.  A reader is the list of the
    bytes still to come; [readexactly] is the stream reader's method, which
    raises [IncompleteReadError], an [EOFError]. *)

From S2P Require Import Prelude.

Definition GUARDBAND : list Z := [0xde; 0xad; 0xbe; 0xef].
Definition SIZEOF_PACKET_GUARDBAND : Z := 4.
Definition SIZEOF_H2T_HEADER : Z := 6.
Definition SIZEOF_MGMT_HEADER : Z := 6.
Definition H2T_MAX_PAYLOAD : Z := 0x1000.
Definition MGMT_MAX_PAYLOAD : Z := 0xffff.
Definition FLAG_SOP : Z := 1.
Definition FLAG_EOP : Z := 2.

Record H2tPacket := mkH2t {
  sop : bool;
  eop : bool;
  conn_id : Z;
  channel : Z;
  payload : list Z;
}.

Record MgmtPacket := mkMgmt {
  m_sop : bool;
  m_eop : bool;
  m_channel : Z;
  m_payload : list Z;
}.

(** [struct.pack("<BBHH", flags, a, b, c)]; the callers mask the fields. *)
Definition pack_header (flags a b c : Z) : list Z := [flags; a] ++ le_bytes 2 b ++ le_bytes 2 c.

Definition packet_flags (sop eop : bool) : Z :=
  Z.lor (if sop then FLAG_SOP else 0) (if eop then FLAG_EOP else 0).

Definition h2t_encode (p : H2tPacket) : result (list Z) :=
  if H2T_MAX_PAYLOAD <? zlen (payload p) then Err ValueError
  else if negb ((0 <=? channel p) && (channel p <=? 0x07ff)) then Err ValueError
  else if negb ((0 <=? conn_id p) && (conn_id p <=? 0xff)) then Err ValueError
  else
    let header := pack_header (packet_flags (sop p) (eop p)) (Z.land (conn_id p) 0xff)
                    (Z.land (channel p) 0xffff) (Z.land (zlen (payload p)) 0xffff) in
    Ok (GUARDBAND ++ header ++ payload p).

Definition mgmt_encode (p : MgmtPacket) : result (list Z) :=
  if MGMT_MAX_PAYLOAD <? zlen (m_payload p) then Err ValueError
  else if negb ((0 <=? m_channel p) && (m_channel p <=? 0x07ff)) then Err ValueError
  else
    let header := pack_header (packet_flags (m_sop p) (m_eop p)) 0
                    (Z.land (m_channel p) 0xffff) (Z.land (zlen (m_payload p)) 0xffff) in
    Ok (GUARDBAND ++ header ++ m_payload p).

(** [struct.unpack("<BBHH", header_bytes)] of six bytes. *)
Definition unpack_header (h : list Z) : result (Z * Z * Z * Z) :=
  match h with
  | [flags; a; b0; b1; c0; c1] => Ok (flags, a, from_le [b0; b1], from_le [c0; c1])
  | _ => Err ValueError
  end.

Definition has_flag (flags mask : Z) : bool := negb (Z.land flags mask =? 0).

(** [H2tPacket.decode_header]: (sop, eop, conn_id, channel, data_len) *)
Definition h2t_decode_header (h : list Z) : result (bool * bool * Z * Z * Z) :=
  if negb (zlen h =? SIZEOF_H2T_HEADER) then Err ValueError
  else
    '(flags, conn_id, channel, data_len) ← unpack_header h;
    Ok (has_flag flags FLAG_SOP, has_flag flags FLAG_EOP, conn_id, Z.land channel 0x07ff, data_len).

(** [MgmtPacket.decode_header]: (sop, eop, channel, data_len) *)
Definition mgmt_decode_header (h : list Z) : result (bool * bool * Z * Z) :=
  if negb (zlen h =? SIZEOF_MGMT_HEADER) then Err ValueError
  else
    '(flags, _reserved, channel, data_len) ← unpack_header h;
    Ok (has_flag flags FLAG_SOP, has_flag flags FLAG_EOP, Z.land channel 0x07ff, data_len).

Definition readexactly (n : Z) (stream : list Z) : result (list Z * list Z) :=
  if zlen stream <? n then Err EOFError
  else Ok (take (Z.to_nat n) stream, drop (Z.to_nat n) stream).

Definition read_guardband (stream : list Z) : result (list Z) :=
  '(gb, stream) ← readexactly SIZEOF_PACKET_GUARDBAND stream;
  if bool_decide (gb = GUARDBAND) then Ok stream else Err GuardbandError.

Definition read_payload (data_len : Z) (stream : list Z) : result (list Z * list Z) :=
  if data_len =? 0 then Ok ([], stream) else readexactly data_len stream.

(** [read_h2t_packet]: the packet and the rest of the stream. *)
Definition read_h2t_packet (stream : list Z) : result (H2tPacket * list Z) :=
  stream ← read_guardband stream;
  '(hdr, stream) ← readexactly SIZEOF_H2T_HEADER stream;
  '(sop, eop, conn_id, channel, data_len) ← h2t_decode_header hdr;
  if H2T_MAX_PAYLOAD <? data_len then Err ValueError
  else
    '(payload, stream) ← read_payload data_len stream;
    Ok (mkH2t sop eop conn_id channel payload, stream).

Definition read_mgmt_packet (stream : list Z) : result (MgmtPacket * list Z) :=
  stream ← read_guardband stream;
  '(hdr, stream) ← readexactly SIZEOF_MGMT_HEADER stream;
  '(sop, eop, channel, data_len) ← mgmt_decode_header hdr;
  if MGMT_MAX_PAYLOAD <? data_len then Err ValueError
  else
    '(payload, stream) ← read_payload data_len stream;
    Ok (mkMgmt sop eop channel payload, stream).

(** ** Lemmas *)

Record h2t_ok (p : H2tPacket) : Prop := {
  ho_payload : bytes_ok (payload p);
  ho_length : zlen (payload p) <= H2T_MAX_PAYLOAD;
  ho_channel : 0 <= channel p <= 0x7ff;
  ho_conn : is_byte (conn_id p);
}.

Record mgmt_ok (p : MgmtPacket) : Prop := {
  mo_payload : bytes_ok (m_payload p);
  mo_length : zlen (m_payload p) <= MGMT_MAX_PAYLOAD;
  mo_channel : 0 <= m_channel p <= 0x7ff;
}.

Lemma flags_roundtrip s e :
  has_flag (packet_flags s e) FLAG_SOP = s /\ has_flag (packet_flags s e) FLAG_EOP = e
  /\ is_byte (packet_flags s e).
Proof. by destruct s, e. Qed.

Lemma readexactly_app l stream : readexactly (zlen l) (l ++ stream) = Ok (l, stream).
Proof.
  unfold readexactly. rewrite length_app. destruct (Z.ltb_spec (Z.of_nat (length l + length stream)) (zlen l)); [lia|].
  by rewrite Nat2Z.id, take_app_length, drop_app_length.
Qed.

Lemma read_guardband_app stream : read_guardband (GUARDBAND ++ stream) = Ok stream.
Proof. unfold read_guardband. by rewrite (readexactly_app GUARDBAND), bind_of_Ok. Qed.

Lemma read_payload_app l stream n : zlen l = n -> read_payload n (l ++ stream) = Ok (l, stream).
Proof.
  intros <-. unfold read_payload. destruct (Z.eqb_spec (zlen l) 0) as [H|_]; [|apply readexactly_app].
  by destruct l; [|simpl in H; lia].
Qed.

Lemma word_roundtrip z : 0 <= z < 65536 -> from_le (le_bytes 2 (Z.land z 0xffff)) = z.
Proof.
  intros. rewrite from_le_le_bytes, (land_pow2_ones _ 16) by lia.
  change (256 ^ Z.of_nat 2) with 65536. change (2 ^ 16) with 65536. by rewrite Zmod_mod, Z.mod_small.
Qed.

Lemma guardband_ok : bytes_ok GUARDBAND.
Proof. by repeat constructor. Qed.

Lemma pack_header_ok flags a b c : is_byte flags -> is_byte a -> bytes_ok (pack_header flags a b c).
Proof.
  intros Hf Ha. unfold pack_header. rewrite !bytes_ok_app. split; [by repeat constructor; apply Hf || apply Ha|].
  split; apply le_bytes_ok.
Qed.

Lemma header_roundtrip flags a b c stream :
  0 <= b < 65536 -> 0 <= c < 65536 ->
  let h := pack_header flags a (Z.land b 0xffff) (Z.land c 0xffff) in
  readexactly 6 (h ++ stream) = Ok (h, stream) /\ zlen h = 6 /\ unpack_header h = Ok (flags, a, b, c).
Proof.
  intros Hb Hc h. split; [apply (readexactly_app h)|]. split; [done|].
  change (unpack_header h) with (Ok (flags, a, from_le (le_bytes 2 (Z.land b 0xffff)),
    from_le (le_bytes 2 (Z.land c 0xffff)))). by rewrite !word_roundtrip.
Qed.

Lemma land_7ff z : 0 <= z <= 0x7ff -> Z.land z 0x7ff = z.
Proof. intros. rewrite (land_pow2_ones _ 11) by lia. apply Z.mod_small. lia. Qed.


Lemma mgmt_encode_Ok p : mgmt_ok p -> exists enc, mgmt_encode p = Ok enc /\ bytes_ok enc
  /\ forall stream, read_mgmt_packet (enc ++ stream) = Ok (p, stream).
Proof.
  intros [Hb Hl Hc]. destruct p as [s e c d]. cbn [m_payload m_channel] in *.
  unfold mgmt_encode, MGMT_MAX_PAYLOAD in *. cbn [m_payload m_channel m_sop m_eop].
  destruct (Z.ltb_spec 0xffff (zlen d)); [lia|].
  rewrite (proj2 (Z.leb_le 0 c)), (proj2 (Z.leb_le c 0x7ff)) by lia. cbn [andb negb]. cbv zeta.
  destruct (flags_roundtrip s e) as (Hs & He & Hf). eexists. split; [done|]. split.
  { apply bytes_ok_app. split; [apply guardband_ok|]. apply bytes_ok_app. by split; [apply pack_header_ok|]. }
  intros stream. rewrite <- !app_assoc. unfold read_mgmt_packet, SIZEOF_MGMT_HEADER. rewrite read_guardband_app, bind_of_Ok.
  destruct (header_roundtrip (packet_flags s e) 0 c (zlen d) (d ++ stream)) as (Hr & Hh & Hu); [lia..|].
  rewrite Hr, bind_of_Ok. unfold mgmt_decode_header. rewrite Hh, Hu. cbn [negb]. simpl.
  rewrite Hs, He, land_7ff by lia. destruct (Z.ltb_spec MGMT_MAX_PAYLOAD (zlen d)); [unfold MGMT_MAX_PAYLOAD in *; lia|].
  by rewrite read_payload_app.
Qed.

Lemma readexactly_short n stream : zlen stream < n -> readexactly n stream = Err EOFError.
Proof. intros. unfold readexactly. by rewrite (proj2 (Z.ltb_lt _ _)). Qed.

Lemma h2t_encode_parts p :
  h2t_ok p ->
  exists h, h2t_encode p = Ok (GUARDBAND ++ h ++ payload p) /\ zlen h = SIZEOF_H2T_HEADER /\ bytes_ok h
    /\ h2t_decode_header h = Ok (sop p, eop p, conn_id p, channel p, zlen (payload p)).
Proof.
  intros Hp. destruct (Hp) as [Hb Hl Hc Hi]. unfold is_byte, H2T_MAX_PAYLOAD in *.
  unfold h2t_encode, H2T_MAX_PAYLOAD. rewrite (proj2 (Z.ltb_ge 0x1000 (zlen (payload p)))) by lia.
  rewrite (proj2 (Z.leb_le 0 (channel p))), (proj2 (Z.leb_le (channel p) 0x7ff)),
    (proj2 (Z.leb_le 0 (conn_id p))), (proj2 (Z.leb_le (conn_id p) 0xff)) by lia.
  cbn [andb negb]. cbv zeta. rewrite land_ff_mod, (Z.mod_small (conn_id p)) by lia.
  destruct (header_roundtrip (packet_flags (sop p) (eop p)) (conn_id p) (channel p) (zlen (payload p)) [])
    as (_ & Hh & Hu); [lia..|].
  destruct (flags_roundtrip (sop p) (eop p)) as (Hs & He & Hf).
  eexists. split_and!; [done|done|by apply pack_header_ok|]. unfold h2t_decode_header. rewrite Hh, Hu. simpl.
  by rewrite Hs, He, land_7ff.
Qed.

Lemma h2t_encode_refuses p e : h2t_encode p = Err e -> e = ValueError /\ ~ h2t_ok p.
Proof.
  intros He. assert (~ h2t_ok p) as Hn.
  { intros (h & Hh & _)%h2t_encode_parts. by rewrite Hh in He. }
  split; [|done]. unfold h2t_encode in He. by repeat case_match; simplify_eq.
Qed.

Lemma h2t_encode_accepts p enc : bytes_ok (payload p) -> h2t_encode p = Ok enc -> h2t_ok p.
Proof.
  intros Hb He. unfold h2t_encode in He.
  destruct (Z.ltb_spec H2T_MAX_PAYLOAD (zlen (payload p))); [done|].
  destruct (Z.leb_spec 0 (channel p)), (Z.leb_spec (channel p) 0x7ff); try done.
  destruct (Z.leb_spec 0 (conn_id p)), (Z.leb_spec (conn_id p) 0xff); try done.
  split; [done..|]. unfold is_byte. lia.
Qed.

Lemma h2t_encode_Ok p : h2t_ok p -> exists enc, h2t_encode p = Ok enc /\ bytes_ok enc
  /\ forall stream, read_h2t_packet (enc ++ stream) = Ok (p, stream).
Proof.
  intros Hp. destruct (h2t_encode_parts p Hp) as (h & Hh & Hl & Hhb & Hd). eexists. split; [done|]. split.
  - apply bytes_ok_app. split; [apply guardband_ok|]. apply bytes_ok_app. by split; [|apply Hp].
  - intros stream. rewrite <- !app_assoc. unfold read_h2t_packet. rewrite read_guardband_app, bind_of_Ok.
    rewrite <- Hl, readexactly_app, bind_of_Ok, Hd, bind_of_Ok.
    rewrite (proj2 (Z.ltb_ge H2T_MAX_PAYLOAD _)) by apply Hp. rewrite read_payload_app by done. by destruct p.
Qed.

(** A truncated packet is never delivered. *)
Lemma read_truncated p enc (k : nat) :
  h2t_ok p -> h2t_encode p = Ok enc -> (k < length enc)%nat ->
  read_h2t_packet (take k enc) = Err EOFError.
Proof.
  intros Hp He Hk. destruct (h2t_encode_parts p Hp) as (h & Hh & Hl & Hhb & Hd). rewrite Hh in He.
  assert (enc = GUARDBAND ++ h ++ payload p) as -> by congruence.
  unfold read_h2t_packet. rewrite !length_app in Hk. unfold SIZEOF_H2T_HEADER in *.
  change (length GUARDBAND) with 4%nat in Hk.
  destruct (decide (k < 4)%nat) as [H4|H4].
  { unfold read_guardband. by rewrite readexactly_short by (rewrite length_take; unfold SIZEOF_PACKET_GUARDBAND; lia). }
  rewrite take_app_ge by (simpl; lia). rewrite read_guardband_app, bind_of_Ok.
  change (length GUARDBAND) with 4%nat. destruct (decide (k < 10)%nat) as [H10|H10].
  { by rewrite readexactly_short by (rewrite length_take; lia). }
  rewrite take_app_ge by lia. rewrite <- Hl, readexactly_app, bind_of_Ok, Hd, bind_of_Ok.
  rewrite (proj2 (Z.ltb_ge H2T_MAX_PAYLOAD _)) by apply Hp. unfold read_payload.
  destruct (Z.eqb_spec (zlen (payload p)) 0); [lia|].
  by rewrite readexactly_short by (rewrite length_take; lia).
Qed.

(** A packet within the limits of its header is encoded, and reading the
    stream gives it back with the rest of the stream untouched, while no
    proper prefix delivers a packet; a packet outside the limits is refused;
    a stream that does not begin with the guardband raises
    [GuardbandError]. *)
Theorem packet_framing p stream :
  bytes_ok (payload p) ->
  match h2t_encode p with
  | Ok enc => h2t_ok p /\ bytes_ok enc /\ read_h2t_packet (enc ++ stream) = Ok (p, stream)
      /\ (forall k, (k < length enc)%nat -> read_h2t_packet (take k enc) = Err EOFError)
  | Err e => e = ValueError /\ ~ h2t_ok p
  end
  /\ (4 <= zlen stream -> take 4 stream <> GUARDBAND -> read_h2t_packet stream = Err GuardbandError).
Proof.
  intros Hb. split.
  - destruct (h2t_encode p) as [enc|e] eqn:He; [|by apply h2t_encode_refuses].
    pose proof (h2t_encode_accepts p enc Hb He) as Hp.
    destruct (h2t_encode_Ok p Hp) as (enc' & He' & Hok & Hr). rewrite He in He'. injection He' as <-.
    split_and!; [done..|]. intros k Hk. by eapply read_truncated.
  - intros Hl Hg. unfold read_h2t_packet, read_guardband, readexactly, SIZEOF_PACKET_GUARDBAND.
    rewrite (proj2 (Z.ltb_ge _ _)) by lia. rewrite bind_of_Ok. change (Z.to_nat 4) with 4%nat.
    by rewrite bool_decide_eq_false_2.
Qed.

Lemma packet_framing_witness :
  read_h2t_packet [0xde; 0xad; 0xbe; 0xef; 3; 7; 5; 1; 2; 0; 0xaa; 0x55; 0xde]
  = Ok (mkH2t true true 7 0x105 [0xaa; 0x55], [0xde]).
Proof.
  assert (bytes_ok [0xaa; 0x55]) as Hb by (by repeat constructor).
  destruct (packet_framing (mkH2t true true 7 0x105 [0xaa; 0x55]) [0xde] Hb) as [H _].
  vm_compute in H |- *. by destruct H as (_ & _ & H & _).
Defined.
