(* ===== verification/JopSession.v ===== *)
(** * JTAG-over-protocol sessions (src/acrobe/jop/session.py, control.py)

    A session decodes the host's commands, drives the JTAG interface through
    the TMS walker, and returns the TDO bits the host asked to capture.

    The interface is the parameter [answer]: what it answers to the shifts
    among the operations a call posts, given all it was posted before.  A
    session is driven by packets on the H2T socket and lines on the control
    socket; the two tasks of the program interleave as sequences of these
    events, and each event is handled without another in between reading the
    flags it changes. *)

From Stdlib Require Import Ascii String.
From stdpp Require Import strings.
From S2P Require Import Prelude BitString BitVec JtagTap JtagWalker Jop JopFraming.

Open Scope Z_scope.

Record session := mkSession {
  s_walk : Z;                              (* the walker's __state *)
  s_in_ir : bool;                          (* the walker's __in_ir *)
  s_posted : list (op base);               (* what the interface was posted so far *)
  s_decoder : list Z;                      (* self._decoder._buf *)
  s_encoder : JopEncoder;
  s_fifo : list PushTdoCapture;            (* self._capture_fifo *)
  s_head_remaining : Z;
  s_eop_pending : bool;
  s_server_loopback : bool;
  s_hw_loopback : bool;
  s_driver_params : gmap string string;
  s_mgmt_support : bool;
}.

Definition HW_LOOPBACK : string := "#HW_LOOPBACK".

(** [JopSession.__init__] *)
Definition session_init (mgmt_support : bool) : session :=
  mkSession TLR false [] [] encoder_init [] 0 false false false {[ HW_LOOPBACK := "0"%string ]} mgmt_support.

Definition loopback_active (s : session) : bool := s_server_loopback s || s_hw_loopback s.

Definition set_decoder (s : session) (buf : list Z) : session :=
  mkSession (s_walk s) (s_in_ir s) (s_posted s) buf (s_encoder s) (s_fifo s) (s_head_remaining s)
    (s_eop_pending s) (s_server_loopback s) (s_hw_loopback s) (s_driver_params s) (s_mgmt_support s).

Definition set_fifo (s : session) (fifo : list PushTdoCapture) (remaining : Z) (pending : bool) : session :=
  mkSession (s_walk s) (s_in_ir s) (s_posted s) (s_decoder s) (s_encoder s) fifo remaining
    pending (s_server_loopback s) (s_hw_loopback s) (s_driver_params s) (s_mgmt_support s).

Definition set_walker (s : session) (w : walker base) : session :=
  mkSession (w_state w) (w_in_ir w) (s_posted s ++ w_posted w) (s_decoder s) (s_encoder s) (s_fifo s)
    (s_head_remaining s) (s_eop_pending s) (s_server_loopback s) (s_hw_loopback s)
    (s_driver_params s) (s_mgmt_support s).

Definition set_encoder (s : session) (e : JopEncoder) : session :=
  mkSession (s_walk s) (s_in_ir s) (s_posted s) (s_decoder s) e (s_fifo s) (s_head_remaining s)
    (s_eop_pending s) (s_server_loopback s) (s_hw_loopback s) (s_driver_params s) (s_mgmt_support s).

(** ** Data plane *)

(** [_send_t2h]: the bytes written to the T2H socket. *)
Definition send_t2h (bytes : list Z) (channel conn_id : Z) (eop : bool) : result (list Z) :=
  h2t_encode (mkH2t true eop conn_id channel bytes).

(** The local variables of [_do_shift], with the members its loop changes. *)
Record capture := mkCapture {
  c_fifo : list PushTdoCapture;
  c_remaining : Z;
  c_encoder : JopEncoder;
  c_out : list Z;
  c_any_eop : bool;
  c_bits : BitString;                      (* captured_bits *)
}.

(** Emitting what was captured, when the head window is over. *)
Definition close_window (c : capture) (head : PushTdoCapture) (rest : list PushTdoCapture)
    (bits : BitString) : result capture :=
  '(e, out, bits) ← (if negb (bs_length bits =? 0) && tdo_enable head then
      '(e, (chunk, _)) ← emit_window (c_encoder c) (BStr bits) (eop_gen head);
      Ok (e, c_out c ++ chunk, bs_empty)
    else Ok (c_encoder c, c_out c, bits));
  let remaining := match rest with [] => 0 | next :: _ => duration next end in
  Ok (mkCapture rest remaining e out (c_any_eop c || eop_gen head) bits).

(** The loop body of [_do_shift], at clock [i]. *)
Definition capture_clock (tdo : base) (c : capture) (i : Z) : result capture :=
  if c_remaining c =? 0 then Ok c
  else
    match c_fifo c with
    | [] => Err IndexError
    | head :: rest =>
        bits ← (if tdo_enable head then
                  b ← base_getitem tdo i;
                  one ← bs_init (Some (AInt (Z.b2z b))) (Some 1);
                  bs_iadd (c_bits c) (BStr one)
                else Ok (c_bits c));
        let remaining := c_remaining c - 1 in
        if remaining =? 0 then close_window c head rest bits
        else Ok (mkCapture (c_fifo c) remaining (c_encoder c) (c_out c) (c_any_eop c) bits)
    end.

Section Session.
Variable answer : list (op base) -> list (op base) -> nat -> base.

Definition do_shift (s : session) (tms tdi : BitString) (channel conn_id : Z)
  : result (session * list Z) :=
  '(w, tdo) ← process (A:=BitString) (answer (s_posted s)) (s_walk s) (s_in_ir s) (BStr tms) (BStr tdi);
  let s := set_walker s w in
  c ← foldM (capture_clock tdo)
        (mkCapture (s_fifo s) (s_head_remaining s) (s_encoder s) [] false bs_empty)
        (seqZ 0 (base_len tdo));
  '(e, out) ← (if negb (bs_length (c_bits c) =? 0) then
      '(e, (chunk, _)) ← emit_window (c_encoder c) (BStr (c_bits c)) false;
      Ok (e, c_out c ++ chunk)
    else Ok (c_encoder c, c_out c));
  let s := set_encoder (set_fifo s (c_fifo c) (c_remaining c) (s_eop_pending s)) e in
  match out with
  | [] => Ok (s, [])
  | _ => wire ← send_t2h out channel conn_id (c_any_eop c); Ok (s, wire)
  end.

(** [PushTdoCapture] in [_dispatch_op] *)
Definition push_capture (s : session) (w : PushTdoCapture) : session :=
  let fifo := if TDO_FIFO_DEPTH <=? zlen (s_fifo s) then drop 1 (s_fifo s) else s_fifo s in
  let fifo := fifo ++ [w] in
  let remaining := match fifo with
                   | first :: _ => if s_head_remaining s =? 0 then duration first else s_head_remaining s
                   | [] => s_head_remaining s
                   end in
  set_fifo s fifo remaining (s_eop_pending s).

(** [_dispatch_op]: the session and the bytes written to T2H. *)
Definition dispatch_op (channel conn_id : Z) (s : session) (o : Op) : result (session * list Z) :=
  match o with
  | RetrieveInfo =>
      wire ← send_t2h [CONFIG_INFO_RESPONSE_BYTE] channel conn_id true;
      Ok (s, wire)
  | ResetTdoFifo => Ok (set_fifo s [] 0 false, [])
  | Push w => Ok (push_capture s w, [])
  | Jop.Shift tms tdi => do_shift s tms tdi channel conn_id
  end.

(** One packet of [_h2t_loop]. *)
Definition h2t_packet (s : session) (pkt : H2tPacket) : result (session * list Z) :=
  if loopback_active s then
    wire ← h2t_encode (mkH2t (sop pkt) (eop pkt) (conn_id pkt) (channel pkt) (payload pkt));
    Ok (s, wire)
  else
    match feed (s_decoder s) (payload pkt) with
    | Err ValueError => Ok (set_decoder s [], [])
    | Err e => Err e
    | Ok (ops, buf) =>
        foldM (fun '(s, out) o =>
            '(s, wire) ← dispatch_op (channel pkt) (conn_id pkt) s o; Ok (s, out ++ wire))
          (set_decoder s buf, []) ops
    end.

(** [_h2t_loop] on the bytes of the H2T socket: the session, what was written
    to T2H, and the exception the task ends with ([None]: it returned). *)
Fixpoint h2t_loop (fuel : nat) (s : session) (stream : list Z) : session * list Z * option exn :=
  match fuel with
  | O => (s, [], Some OutOfFuel)
  | S fuel =>
      match read_h2t_packet stream with
      | Err EOFError | Err GuardbandError => (s, [], None)
      | Err e => (s, [], Some e)
      | Ok (pkt, stream) =>
          match h2t_packet s pkt with
          | Err e => (s, [], Some e)
          | Ok (s, wire) =>
              let '(s, out, ended) := h2t_loop fuel s stream in (s, wire ++ out, ended)
          end
      end
  end.
End Session.

(** ** What a session promises

    The host's windows are counted down by the clocks of its shifts.  A clock
    under a window that captures contributes its TDO bit; bits are packed into
    bytes across windows, and the end of a window with [eop_gen] pads the
    incomplete byte. *)

(** The windows not over yet (the first with what remains of it) and the bits
    of the incomplete byte. *)
Definition spec : Type := list PushTdoCapture * list bool.

Definition spec_clock (st : spec) (bit : bool) : spec * list Z :=
  match st with
  | ([], l) => (([], l), [])
  | (w :: rest, l) =>
      let over := duration w =? 1 in
      let '(l, out) := if tdo_enable w then window_bytes l [bit] (over && eop_gen w) else (l, []) in
      ((if over then rest else mkPush (duration w - 1) (tdo_enable w) (eop_gen w) :: rest, l), out)
  end.

Fixpoint spec_clocks (st : spec) (tdo : list bool) : spec * list Z :=
  match tdo with
  | [] => (st, [])
  | bit :: tdo =>
      let '(st, out) := spec_clock st bit in
      let '(st, out') := spec_clocks st tdo in
      (st, out ++ out')
  end.

(** One command; [tdo] is what the target answered to a shift.  [None]: the
    host opened more windows than the hardware holds. *)
Definition spec_action (st : spec) (a : action) (tdo : list bool) : option (spec * list Z) :=
  match a with
  | AInfo => Some (st, [CONFIG_INFO_RESPONSE_BYTE])
  | AReset => Some (([], st.2), [])
  | APush w => if TDO_FIFO_DEPTH <=? zlen st.1 then None else Some ((st.1 ++ [w], st.2), [])
  | AShift _ _ => Some (spec_clocks st tdo)
  end.

Fixpoint spec_run (st : spec) (l : list (action * list bool)) : option (spec * list Z) :=
  match l with
  | [] => Some (st, [])
  | (a, tdo) :: l =>
      '(st, out) ← spec_action st a tdo;
      '(st, out') ← spec_run st l;
      Some (st, out ++ out')
  end.

(** ** Capturing *)

(** The windows of a session, the head with its remaining count. *)
Definition windows (fifo : list PushTdoCapture) (remaining : Z) : list PushTdoCapture :=
  match fifo with
  | [] => []
  | w :: rest => mkPush remaining (tdo_enable w) (eop_gen w) :: rest
  end.

Definition fifo_ok (fifo : list PushTdoCapture) (remaining : Z) : Prop :=
  Forall (fun w => 1 <= duration w) fifo /\ zlen fifo <= TDO_FIFO_DEPTH
  /\ match fifo with [] => remaining = 0 | _ => 1 <= remaining end.

Lemma window_bytes_app l bs1 bs2 e :
  window_bytes l (bs1 ++ bs2) e =
    ((window_bytes (pack_bits l bs1).1 bs2 e).1, (pack_bits l bs1).2 ++ (window_bytes (pack_bits l bs1).1 bs2 e).2).
Proof.
  unfold window_bytes. rewrite pack_bits_app. destruct (pack_bits l bs1) as [l1 out1]. cbn [fst snd].
  destruct (pack_bits l1 bs2) as [l2 out2], e; [|done]. destruct l2; [done|]. cbn [fst snd].
  by rewrite <- app_assoc.
Qed.

Lemma window_bytes_open l bs : window_bytes l bs false = pack_bits l bs.
Proof. unfold window_bytes. by destruct (pack_bits l bs). Qed.

(** The loop of [_do_shift] against the clocks of the specification: [l] is
    what the encoder holds, and the captured bits are packed after it. *)
Record capturing (c : capture) (st : spec) (out : list Z) : Prop := {
  cp_fifo : fifo_ok (c_fifo c) (c_remaining c);
  cp_windows : st.1 = windows (c_fifo c) (c_remaining c);
  cp_clean : clean (c_bits c);
  cp_held : exists l, held (c_encoder c) l
    /\ st.2 = (pack_bits l (bits (c_bits c))).1
    /\ out = c_out c ++ (pack_bits l (bits (c_bits c))).2;
}.

Lemma bit_append s b :
  clean s ->
  exists s', (one ← bs_init (Some (AInt (Z.b2z b))) (Some 1); bs_iadd s (BStr one)) = Ok s'
    /\ clean s' /\ bits s' = bits s ++ [b].
Proof.
  intros Hs. destruct (bs_init_spec (AInt (Z.b2z b)) (Some 1)) as (one & -> & Ho & Hob); [done|].
  rewrite bind_of_Ok. destruct (bs_iadd_spec s (BStr one) Hs) as (s' & -> & Hs' & Hb); [by split; [apply Ho|]|].
  exists s'. split_and!; [done..|]. rewrite Hb. simpl. rewrite Hob. by destruct b.
Qed.

Lemma windows_cons head rest n :
  windows (head :: rest) n = mkPush n (tdo_enable head) (eop_gen head) :: rest.
Proof. done. Qed.

Lemma fifo_ok_next head rest n :
  fifo_ok (head :: rest) n ->
  fifo_ok rest (match rest with [] => 0 | next :: _ => duration next end)
  /\ windows rest (match rest with [] => 0 | next :: _ => duration next end) = rest.
Proof.
  intros (Hd & Hl & _). apply Forall_cons in Hd as [_ Hd]. simpl in Hl.
  destruct rest as [|[d en eo] rest]; [by split; [split_and!|]|].
  split; [|done]. split_and!; [done|simpl in *; lia|by apply Forall_cons in Hd as [? _]].
Qed.

Lemma held_length e l : held e l -> (length l < 8)%nat.
Proof. by intros (_ & _ & ?). Qed.

(** The end of the head window. *)
Lemma close_window_sim c head rest st out b s' :
  capturing c st out -> c_fifo c = head :: rest -> c_remaining c = 1 ->
  clean s' -> bits s' = (if tdo_enable head then bits (c_bits c) ++ [b] else bits (c_bits c)) ->
  exists c', close_window c head rest s' = Ok c'
    /\ capturing c' (spec_clock st b).1 (out ++ (spec_clock st b).2).
Proof.
  intros [Hf Hw Hc (l & Hl & Hst & Hout)] Hfifo Hrem Hs' Hb'. rewrite Hfifo, Hrem in *.
  destruct (fifo_ok_next _ _ _ Hf) as [Hf' Hw']. destruct st as [ws ls]. cbn [fst snd] in *. subst ws ls.
  rewrite windows_cons. cbn [spec_clock duration tdo_enable eop_gen]. rewrite Z.eqb_refl. cbn [andb].
  unfold close_window. destruct (tdo_enable head) eqn:En.
  - assert ((bs_length s' =? 0) = false) as ->.
    { apply Z.eqb_neq. rewrite <- length_bits, Hb', length_app by apply Hs'. simpl. lia. }
    assert (value_ok (BStr s')) as Hv by (split; [split; [apply Hs'|done]|done]).
    destruct (emit_window_spec (BStr s') _ l (eop_gen head) Hv Hl) as (e' & -> & He').
    cbn [negb andb]. rewrite !bind_of_Ok. eexists. split; [done|].
    change (base_bits (BStr s')) with (bits s') in *. rewrite Hb', window_bytes_app in He' |- *.
    destruct (window_bytes (pack_bits l (bits (c_bits c))).1 [b] (eop_gen head)) as [l' o]. cbn [fst snd] in *.
    destruct clean_empty as [Hce Hbe]. split; cbn [c_fifo c_remaining c_encoder c_out c_bits fst snd];
      [done|by rewrite Hw'|done|]. exists l'. rewrite Hbe. cbn [fst snd]. split_and!; [done..|].
    unfold pack_bits at 2. simpl. rewrite app_nil_r, Hout. by rewrite <- !app_assoc.
  - rewrite andb_false_r, bind_of_Ok. eexists. split; [done|]. cbn [fst snd]. rewrite app_nil_r.
    split; cbn [c_fifo c_remaining c_encoder c_out c_bits fst snd]; [done|by rewrite Hw'|done|].
    exists l. by rewrite Hb'.
Qed.

Lemma capture_clock_sim tdo c st out i b :
  value_ok tdo -> 0 <= i -> base_bits tdo !! Z.to_nat i = Some b -> capturing c st out ->
  exists c', capture_clock tdo c i = Ok c'
    /\ capturing c' (spec_clock st b).1 (out ++ (spec_clock st b).2).
Proof.
  intros Hv Hi Hb Hcap. destruct (Hcap) as [Hf Hw Hc (l & Hl & Hst & Hout)].
  unfold capture_clock. destruct (c_fifo c) as [|head rest] eqn:Efifo.
  { destruct Hf as (_ & _ & ->). exists c. split; [done|]. destruct st as [ws ls]. simpl in Hw. subst ws.
    cbn [spec_clock fst snd]. by rewrite app_nil_r. }
  destruct (Hf) as (_ & _ & Hrem). destruct (Z.eqb_spec (c_remaining c) 0); [lia|].
  assert (exists s', (if tdo_enable head then
        b ← base_getitem tdo i; one ← bs_init (Some (AInt (Z.b2z b))) (Some 1); bs_iadd (c_bits c) (BStr one)
      else Ok (c_bits c)) = Ok s' /\ clean s'
      /\ bits s' = if tdo_enable head then bits (c_bits c) ++ [b] else bits (c_bits c)) as (s' & -> & Hs' & Hb').
  { destruct (tdo_enable head); [|by exists (c_bits c)].
    assert (i < base_len tdo) by (rewrite <- length_base_bits by apply Hv; apply lookup_lt_Some in Hb; lia).
    rewrite base_getitem_spec, (index_lookup _ _ b), bind_of_Ok by (done || apply Hv || lia).
    by apply bit_append. }
  rewrite bind_of_Ok. destruct (Z.eqb_spec (c_remaining c - 1) 0).
  { eapply close_window_sim; [done..|lia|done|done]. }
  eexists. split; [done|]. destruct st as [ws ls]. cbn [fst snd] in *. subst ws ls.
  rewrite windows_cons. cbn [spec_clock duration tdo_enable eop_gen].
  destruct (Z.eqb_spec (c_remaining c) 1); [lia|]. cbn [andb].
  rewrite window_bytes_open.
  split; cbn [c_fifo c_remaining c_encoder c_out c_bits].
  - destruct Hf as (? & ? & _). split_and!; [done..|lia].
  - rewrite windows_cons. by destruct (tdo_enable head); [destruct (pack_bits _ [b])|].
  - done.
  - exists l. split; [done|]. destruct (tdo_enable head); rewrite Hb'.
    + rewrite pack_bits_app, Hout. destruct (pack_bits _ [b]). cbn [fst snd]. by rewrite <- app_assoc.
    + cbn [fst snd]. by rewrite app_nil_r.
Qed.

Lemma spec_clocks_app st tdo1 tdo2 :
  spec_clocks st (tdo1 ++ tdo2) =
    let '(st1, out1) := spec_clocks st tdo1 in
    let '(st2, out2) := spec_clocks st1 tdo2 in (st2, out1 ++ out2).
Proof.
  revert st. induction tdo1 as [|b tdo1 IH]; intros st; cbn [app spec_clocks].
  - by destruct (spec_clocks st tdo2).
  - destruct (spec_clock st b) as [st1 o1]. rewrite IH. destruct (spec_clocks st1 tdo1) as [st2 o2].
    destruct (spec_clocks st2 tdo2). by rewrite app_assoc.
Qed.

Lemma spec_clocks_one st b : spec_clocks st [b] = spec_clock st b.
Proof. simpl. destruct (spec_clock st b). by rewrite app_nil_r. Qed.

Lemma capture_loop tdo c st out :
  value_ok tdo -> capturing c st out ->
  exists c', foldM (capture_clock tdo) c (seqZ 0 (base_len tdo)) = Ok c'
    /\ capturing c' (spec_clocks st (base_bits tdo)).1 (out ++ (spec_clocks st (base_bits tdo)).2).
Proof.
  intros Hv Hc. pose proof (length_base_bits tdo (proj1 (proj1 Hv))) as Hlen.
  assert (forall k : nat, (k <= length (base_bits tdo))%nat ->
    exists c', foldM (capture_clock tdo) c (seqZ 0 (Z.of_nat k)) = Ok c'
      /\ capturing c' (spec_clocks st (take k (base_bits tdo))).1
           (out ++ (spec_clocks st (take k (base_bits tdo))).2)) as H.
  { induction k as [|k IH]; intros Hk.
    { exists c. split; [done|]. simpl. by rewrite app_nil_r. }
    destruct IH as (c1 & Hf & H1); [lia|]. destruct (lookup_lt_is_Some_2 (base_bits tdo) k) as [b Hb]; [lia|].
    rewrite (take_S_r _ _ b Hb), spec_clocks_app.
    destruct (spec_clocks st (take k (base_bits tdo))) as [st1 out1]. cbn [fst snd] in H1.
    rewrite spec_clocks_one.
    replace (Z.of_nat (S k)) with (Z.of_nat k + 1) by lia.
    rewrite seqZ_snoc, foldM_app, Hf, bind_of_Ok by lia. cbn [foldM]. rewrite Z.add_0_l.
    destruct (capture_clock_sim tdo c1 st1 (out ++ out1) (Z.of_nat k) b Hv) as (c2 & -> & H2);
      [lia|by rewrite Nat2Z.id|done|]. exists c2. split; [done|].
    destruct (spec_clock st1 b). cbn [fst snd] in *. by rewrite app_assoc. }
  destruct (H (length (base_bits tdo)) ltac:(lia)) as (c' & Hf & Hc'). rewrite take_ge in Hc' by lia.
  exists c'. by rewrite <- Hlen.
Qed.

(** Every clock gives at most one bit, every window at most one padding. *)
Lemma spec_clock_bound ws l b :
  (length l < 8)%nat -> Forall (fun w => 1 <= duration w) ws ->
  let '((ws', l'), out) := spec_clock (ws, l) b in
  8 * zlen out + zlen l' + 7 * zlen ws' <= zlen l + 1 + 7 * zlen ws
  /\ (length l' < 8)%nat /\ Forall (fun w => 1 <= duration w) ws' /\ bytes_ok out.
Proof.
  intros Hl Hws. destruct ws as [|w rest]; cbn [spec_clock].
  { split_and!; [simpl; lia|done..]. }
  apply Forall_cons in Hws as [Hw Hrest]. set (over := duration w =? 1).
  set (ws' := if over then rest else _ :: rest).
  assert (zlen ws' + Z.b2z over <= 1 + zlen rest /\ Forall (fun w => 1 <= duration w) ws') as [Hlen Hws'].
  { unfold ws', over. destruct (Z.eqb_spec (duration w) 1); simpl; [split; [lia|done]|].
    split; [lia|]. constructor; [simpl; lia|done]. }
  destruct (tdo_enable w); [|simpl; split_and!; [simpl in *; destruct over; simpl in *; lia|done..]].
  destruct (pack_bits_spec l [b] Hl) as (Hok & Hb & Hl'). apply (f_equal length) in Hb.
  rewrite !length_app, length_bytes_bits in Hb. simpl in Hb. unfold window_bytes.
  destruct (pack_bits l [b]) as [l1 out1]. cbn [fst snd] in *.
  destruct over, (eop_gen w); cbn [andb Z.b2z] in *; try (split_and!; [simpl in *; lia|done..]).
  destruct l1 as [|x l1]; [split_and!; [simpl in *; lia|simpl; lia|done..]|].
  split_and!; [rewrite length_app; simpl in *; lia|simpl; lia|done|].
  apply bytes_ok_app. split; [done|]. apply Forall_singleton. pose proof (Z_of_bits_bound (x :: l1)).
  pose proof (Z.pow_lt_mono_r 2 (zlen (x :: l1)) 8). unfold is_byte. change 256 with (2 ^ 8). lia.
Qed.

Lemma spec_clocks_bound tdo : forall ws l,
  (length l < 8)%nat -> Forall (fun w => 1 <= duration w) ws ->
  let '((ws', l'), out) := spec_clocks (ws, l) tdo in
  8 * zlen out + zlen l' + 7 * zlen ws' <= zlen l + zlen tdo + 7 * zlen ws /\ bytes_ok out.
Proof.
  induction tdo as [|b tdo IH]; intros ws l Hl Hws; cbn [spec_clocks].
  { split; [simpl; lia|constructor]. }
  pose proof (spec_clock_bound ws l b Hl Hws) as Hc. destruct (spec_clock (ws, l) b) as [[ws1 l1] out1].
  destruct Hc as (Hb & Hl1 & Hws1 & Hok). specialize (IH ws1 l1 Hl1 Hws1).
  destruct (spec_clocks (ws1, l1) tdo) as [[ws2 l2] out2]. destruct IH as [IH Hok2].
  rewrite length_app. split; [simpl length; lia|by apply bytes_ok_app].
Qed.

(** ** Dispatching commands *)

(** The packets a session wrote, as the bytes of the T2H socket. *)
Fixpoint encode_packets (pkts : list H2tPacket) : result (list Z) :=
  match pkts with
  | [] => Ok []
  | p :: pkts => enc ← h2t_encode p; rest ← encode_packets pkts; Ok (enc ++ rest)
  end.

Definition sends (pkts : list H2tPacket) (wire : list Z) : Prop :=
  Forall h2t_ok pkts /\ encode_packets pkts = Ok wire.

Lemma sends_nil : sends [] [].
Proof. by split; [constructor|]. Qed.

Lemma sends_app pkts1 wire1 pkts2 wire2 :
  sends pkts1 wire1 -> sends pkts2 wire2 -> sends (pkts1 ++ pkts2) (wire1 ++ wire2).
Proof.
  intros [Ho1 He1] [Ho2 He2]. split; [by apply Forall_app|]. revert wire1 He1. clear Ho1.
  induction pkts1 as [|p pkts IH]; intros wire1; cbn [encode_packets app]; [by intros [= <-]|].
  destruct (h2t_encode p) as [enc|]; [|done]. rewrite !bind_of_Ok.
  destruct (encode_packets pkts) as [rest|]; [|done]. rewrite bind_of_Ok. intros [= <-].
  by rewrite (IH rest), bind_of_Ok, app_assoc.
Qed.

Lemma sends_one p : h2t_ok p -> exists wire, h2t_encode p = Ok wire /\ sends [p] wire.
Proof.
  intros Hp. destruct (h2t_encode_Ok _ Hp) as (enc & He & _ & _). exists enc. split; [done|].
  split; [by constructor|]. cbn [encode_packets]. by rewrite He, !bind_of_Ok, app_nil_r.
Qed.

Lemma sends_all pkts : Forall h2t_ok pkts -> exists wire, sends pkts wire.
Proof.
  induction 1 as [|p pkts Hp _ (w & IH)]; [exists []; apply sends_nil|].
  destruct (sends_one p Hp) as (enc & _ & Hs). exists (enc ++ w). by apply (sends_app [p]).
Qed.

Lemma send_t2h_Ok bytes channel conn_id eop :
  bytes_ok bytes -> zlen bytes <= H2T_MAX_PAYLOAD -> 0 <= channel <= 0x7ff -> is_byte conn_id ->
  exists wire, send_t2h bytes channel conn_id eop = Ok wire
    /\ sends [mkH2t true eop conn_id channel bytes] wire.
Proof.
  intros. by apply sends_one.
Qed.

(** What the interface promises: every shift is answered with as many bits. *)
Definition answers (answer : list (op base) -> list (op base) -> nat -> base) : Prop :=
  forall posted, answers_shifts (A:=BitString) (answer posted).

(** A session between two commands: the walker follows the controller, the
    encoder holds the incomplete byte, the FIFO holds the windows. *)
Record relates (hw : tap_state) (p : phase) (st : spec) (s : session) : Prop := {
  re_walk : s_walk s = collapse hw;
  re_between : between_calls hw p;
  re_held : held (s_encoder s) st.2;
  re_fifo : fifo_ok (s_fifo s) (s_head_remaining s);
  re_windows : st.1 = windows (s_fifo s) (s_head_remaining s);
}.

(** What the data plane leaves alone. *)
Definition frame (s s' : session) : Prop :=
  s_decoder s' = s_decoder s /\ s_server_loopback s' = s_server_loopback s
  /\ s_hw_loopback s' = s_hw_loopback s /\ s_driver_params s' = s_driver_params s
  /\ s_mgmt_support s' = s_mgmt_support s.

Lemma frame_trans s1 s2 s3 : frame s1 s2 -> frame s2 s3 -> frame s1 s3.
Proof. unfold frame. naive_solver congruence. Qed.

Lemma length_windows fifo n : length (windows fifo n) = length fifo.
Proof. by destruct fifo. Qed.

Lemma windows_durations fifo n : fifo_ok fifo n -> Forall (fun w => 1 <= duration w) (windows fifo n).
Proof.
  intros (Hd & _ & Hn). destruct fifo as [|w rest]; [done|]. apply Forall_cons in Hd as [_ Hd]. by constructor.
Qed.

(** What a shift emits fits one packet. *)
Lemma shift_payload_bound hw p st s tdo :
  relates hw p st s -> zlen tdo <= LONG_MAX_BITS ->
  zlen (spec_clocks st tdo).2 <= H2T_MAX_PAYLOAD /\ bytes_ok (spec_clocks st tdo).2.
Proof.
  intros [_ _ Hh Hf Hw] Ht. destruct st as [ws l]. cbn [fst snd] in *. subst ws.
  pose proof (spec_clocks_bound tdo _ l (held_length _ _ Hh) (windows_durations _ _ Hf)) as Hb.
  destruct (spec_clocks _ tdo) as [[ws' l'] out]. destruct Hb as [Hb Hok]. split; [|done]. cbn [snd].
  rewrite length_windows in Hb. destruct Hf as (_ & Hd & _). pose proof (held_length _ _ Hh).
  unfold TDO_FIFO_DEPTH, LONG_MAX_BITS, H2T_MAX_PAYLOAD in *. lia.
Qed.

(** What is left of the captured bits goes to the encoder. *)
Lemma close_shift c st out :
  capturing c st out ->
  exists e, (if negb (bs_length (c_bits c) =? 0) then
      '(e, (chunk, _)) ← emit_window (c_encoder c) (BStr (c_bits c)) false; Ok (e, c_out c ++ chunk)
    else Ok (c_encoder c, c_out c)) = Ok (e, out)
  /\ held e st.2.
Proof.
  intros [_ _ Hc (l & Hl & Hst & Hout)]. pose proof (length_bits _ (proj1 Hc)) as Hlen.
  destruct (Z.eqb_spec (bs_length (c_bits c)) 0) as [H0|H0]; cbn [negb].
  - assert (bits (c_bits c) = []) as Hn by (apply length_zero_iff_nil; lia). rewrite Hn in Hst, Hout.
    simpl in Hst, Hout. rewrite app_nil_r in Hout. exists (c_encoder c). by rewrite Hst, Hout.
  - assert (value_ok (BStr (c_bits c))) as Hv by (split; [split; [apply Hc|done]|done]).
    destruct (emit_window_spec _ _ l false Hv Hl) as (e & -> & He). rewrite bind_of_Ok.
    rewrite window_bytes_open in *. exists e. by rewrite Hst, Hout.
Qed.

Section Dispatch.
Variable answer : list (op base) -> list (op base) -> nat -> base.
Hypothesis Hanswer : answers answer.

(** The call of the walker behind a shift command. *)
Definition walks_to (hist : list (op base)) (hw : tap_state) (p : phase) (tms tdi tdo : list bool)
    (hist' : list (op base)) (p' : phase) : Prop :=
  exists m i w t es, bits m = tms /\ bits i = tdi /\ base_bits t = tdo
    /\ processed (A:=BitString) (answer hist) hw p (BStr m) (BStr i) w t es p'
    /\ hist' = hist ++ w_posted w.

Lemma do_shift_sim hw p st s tms tdi channel conn_id :
  relates hw p st s -> op_ok (Jop.Shift tms tdi) -> 0 <= channel <= 0x7ff -> is_byte conn_id ->
  exists s' wire pkts tdo p', do_shift answer s tms tdi channel conn_id = Ok (s', wire)
    /\ walks_to (s_posted s) hw p (bits tms) (bits tdi) tdo (s_posted s') p'
    /\ relates (tap_run hw (bits tms)) p' (spec_clocks st tdo).1 s' /\ frame s s'
    /\ sends pkts wire /\ concat (payload <$> pkts) = (spec_clocks st tdo).2.
Proof.
  intros Hrel (Hm & Hi & Hlen & Hn) Hch Hco. destruct (Hrel) as [Hw Hbt Hh Hf Hws].
  unfold do_shift. rewrite Hw.
  destruct (process_spec (A:=BitString) (answer (s_posted s)) hw p (s_in_ir s) (BStr tms) (BStr tdi)
              (Hanswer _) Hbt) as (w & tdo & es & p' & -> & Hpr); [by split; [apply Hm|]|by split|done|].
  rewrite bind_of_Ok. destruct (Hpr) as [Hst' Hbt' _ _ Htok Htlen _ _]. change (bv_bits tdo) with (base_bits tdo) in *.
  change (bv_bits (BStr tms)) with (bits tms) in *. change (bv_len (BStr tms)) with (bs_length tms) in *.
  destruct clean_empty as [Hce Hbe].
  destruct (capture_loop tdo (mkCapture (s_fifo s) (s_head_remaining s) (s_encoder s) [] false bs_empty) st [])
    as (c & Hc & Hcap); [done| |].
  { split; [done|done|done|]. exists (st.2). cbn [c_bits c_encoder c_out]. rewrite Hbe. done. }
  cbv zeta. cbn [set_walker s_fifo s_head_remaining s_encoder]. rewrite Hc, bind_of_Ok.
  destruct (close_shift _ _ _ Hcap) as (e & -> & He). rewrite bind_of_Ok. cbn [app].
  destruct (shift_payload_bound hw p st s (base_bits tdo) Hrel ltac:(lia)) as [Hpb Hpok].
  set (s' := set_encoder _ e).
  assert (walks_to (s_posted s) hw p (bits tms) (bits tdi) (base_bits tdo) (s_posted s') p') as Hwk.
  { by exists tms, tdi, w, tdo, es. }
  assert (relates (tap_run hw (bits tms)) p' (spec_clocks st (base_bits tdo)).1 s') as Hrel'.
  { destruct Hcap. by split. }
  assert (frame s s') as Hfr by done.
  destruct (spec_clocks st (base_bits tdo)).2 as [|b out] eqn:Eout.
  - exists s', [], [], (base_bits tdo), p'. split_and!; [done..|apply sends_nil|done].
  - destruct (send_t2h_Ok (b :: out) channel conn_id (c_any_eop c)) as (wire & -> & Hsend); [done..|].
    rewrite bind_of_Ok. exists s', wire, [mkH2t true (c_any_eop c) conn_id channel (b :: out)], (base_bits tdo), p'.
    split_and!; try done. rewrite Eout. simpl. by rewrite app_nil_r.
Qed.

Lemma push_sim hw p st s w :
  relates hw p st s -> 1 <= duration w ->
  relates hw p (windows (s_fifo (push_capture s w)) (s_head_remaining (push_capture s w)), st.2) (push_capture s w)
  /\ (zlen st.1 < TDO_FIFO_DEPTH ->
      windows (s_fifo (push_capture s w)) (s_head_remaining (push_capture s w)) = st.1 ++ [w]).
Proof.
  intros [Hw Hbt Hh (Hd & Hl & Hn) Hws] Hdw. unfold push_capture, TDO_FIFO_DEPTH in *. cbv zeta.
  cbn [set_fifo s_fifo s_head_remaining]. split.
  - split; cbn [set_fifo s_fifo s_head_remaining s_walk s_encoder fst snd]; try done.
    set (fifo := if 2 <=? zlen (s_fifo s) then drop 1 (s_fifo s) else s_fifo s).
    assert (Forall (fun w => 1 <= duration w) fifo /\ zlen fifo <= 1) as [Hd' Hl'].
    { unfold fifo. destruct (Z.leb_spec 2 (zlen (s_fifo s))); [|by split; [|lia]].
      split; [by apply Forall_drop|]. rewrite length_drop. lia. }
    assert (Forall (fun w => 1 <= duration w) (fifo ++ [w])) as Hd'' by (apply Forall_app; by rewrite Forall_singleton).
    split_and!; [done|rewrite length_app; unfold TDO_FIFO_DEPTH; simpl; lia|].
    destruct (fifo ++ [w]) as [|first rest] eqn:E; [by destruct fifo|]. apply Forall_cons in Hd'' as [? _].
    destruct (Z.eqb_spec (s_head_remaining s) 0); [done|]. destruct (s_fifo s); [done|]. done.
  - rewrite Hws, length_windows. intros Hlt. destruct (Z.leb_spec 2 (zlen (s_fifo s))); [lia|].
    destruct (s_fifo s) as [|head rest]; cbn [app windows].
    + rewrite Hn. by destruct w.
    + destruct (Z.eqb_spec (s_head_remaining s) 0); [lia|]. done.
Qed.

(** One command. *)
Lemma dispatch_sim hw p st s o channel conn_id :
  relates hw p st s -> op_ok o -> 0 <= channel <= 0x7ff -> is_byte conn_id ->
  exists s' wire pkts tdo hw' p' st', dispatch_op answer channel conn_id s o = Ok (s', wire)
    /\ relates hw' p' st' s' /\ frame s s' /\ sends pkts wire
    /\ match op_action o with
       | AShift tms tdi => walks_to (s_posted s) hw p tms tdi tdo (s_posted s') p' /\ hw' = tap_run hw tms
       | _ => s_posted s' = s_posted s /\ hw' = hw /\ p' = p
       end
    /\ forall r, spec_action st (op_action o) tdo = Some r -> r = (st', concat (payload <$> pkts)).
Proof.
  intros Hrel Ho Hch Hco. destruct o as [| |w|tms tdi]; cbn [dispatch_op op_action spec_action].
  - destruct (send_t2h_Ok [CONFIG_INFO_RESPONSE_BYTE] channel conn_id true) as (wire & -> & Hs);
      [by repeat constructor|by vm_compute|done..|]. rewrite bind_of_Ok.
    eexists s, wire, _, [], hw, p, st. split_and!; try done. by intros r [= <-].
  - eexists _, [], [], [], hw, p, ([], st.2). split_and!;
      [done| |done|apply sends_nil|done..|by intros r [= <-]].
    by destruct Hrel.
  - destruct (push_sim hw p st s w Hrel) as [Hr Hx]; [apply Ho|].
    eexists _, [], [], [], hw, p, _. split_and!; try done.
    intros r. destruct (Z.leb_spec TDO_FIFO_DEPTH (zlen st.1)); [done|]. intros [= <-]. by rewrite Hx.
  - destruct (do_shift_sim hw p st s tms tdi channel conn_id Hrel Ho Hch Hco)
      as (s' & wire & pkts & tdo & p' & Hd & Hwk & Hrel' & Hfr & Hsend & Hpay).
    exists s', wire, pkts, tdo, (tap_run hw (bits tms)), p', (spec_clocks st tdo).1.
    split_and!; try done. intros r [= <-]. rewrite Hpay. by destruct (spec_clocks st tdo).
Qed.

(** A sequence of commands with the TDO of their shifts: the walker is called
    on each shift in turn, from where the one before left the controller and
    the interface. *)
Inductive walked : list (op base) -> tap_state -> phase -> list (action * list bool) ->
    list (op base) -> tap_state -> phase -> Prop :=
  | walked_nil hist hw p : walked hist hw p [] hist hw p
  | walked_shift hist hist1 hist' hw hw' p p1 p' tms tdi tdo l :
      walks_to hist hw p tms tdi tdo hist1 p1 ->
      walked hist1 (tap_run hw tms) p1 l hist' hw' p' ->
      walked hist hw p ((AShift tms tdi, tdo) :: l) hist' hw' p'
  | walked_other hist hist' hw hw' p p' a tdo l :
      (forall tms tdi, a <> AShift tms tdi) -> walked hist hw p l hist' hw' p' ->
      walked hist hw p ((a, tdo) :: l) hist' hw' p'.

Lemma walked_app hist hw p l1 hist1 hw1 p1 l2 hist2 hw2 p2 :
  walked hist hw p l1 hist1 hw1 p1 -> walked hist1 hw1 p1 l2 hist2 hw2 p2 ->
  walked hist hw p (l1 ++ l2) hist2 hw2 p2.
Proof. induction 1; intros H2; [done|econstructor; eauto|apply walked_other; eauto]. Qed.

Lemma spec_run_app st l1 l2 :
  spec_run st (l1 ++ l2) =
    ('(st1, out1) ← spec_run st l1; '(st2, out2) ← spec_run st1 l2; Some (st2, out1 ++ out2)).
Proof.
  revert st. induction l1 as [|[a tdo] l1 IH]; intros st; cbn [app spec_run].
  - simpl. by destruct (spec_run st l2) as [[]|].
  - destruct (spec_action st a tdo) as [[st1 o1]|]; [|done]. simpl. rewrite IH.
    destruct (spec_run st1 l1) as [[st2 o2]|]; [|done]. simpl.
    destruct (spec_run st2 l2) as [[]|]; [|done]. simpl. by rewrite app_assoc.
Qed.

(** What a run of commands [acts] has done to a session. *)
Record ran (hw : tap_state) (p : phase) (st : spec) (s : session) (acts : list action)
    (s' : session) (wire : list Z) (pkts : list H2tPacket) (l : list (action * list bool))
    (hw' : tap_state) (p' : phase) (st' : spec) : Prop := {
  ra_relates : relates hw' p' st' s';
  ra_sends : sends pkts wire;
  ra_acts : l.*1 = acts;
  ra_walked : walked (s_posted s) hw p l (s_posted s') hw' p';
  ra_spec : forall r, spec_run st l = Some r -> r = (st', concat (payload <$> pkts));
}.

Lemma ran_nil hw p st s : relates hw p st s -> ran hw p st s [] s [] [] [] hw p st.
Proof. intros. split; [done|apply sends_nil|done|constructor|by intros r [= <-]]. Qed.

Lemma ran_app hw p st s a1 s1 w1 k1 l1 hw1 p1 st1 a2 s2 w2 k2 l2 hw2 p2 st2 :
  ran hw p st s a1 s1 w1 k1 l1 hw1 p1 st1 -> ran hw1 p1 st1 s1 a2 s2 w2 k2 l2 hw2 p2 st2 ->
  ran hw p st s (a1 ++ a2) s2 (w1 ++ w2) (k1 ++ k2) (l1 ++ l2) hw2 p2 st2.
Proof.
  intros [Hr1 Hs1 Ha1 Hw1 Hp1] [Hr2 Hs2 Ha2 Hw2 Hp2]. split.
  - done.
  - by apply sends_app.
  - by rewrite fmap_app, Ha1, Ha2.
  - by eapply walked_app.
  - intros r. rewrite spec_run_app. destruct (spec_run st l1) as [[st' o1]|]; [|done]. simpl.
    specialize (Hp1 _ eq_refl). injection Hp1 as -> ->.
    destruct (spec_run st1 l2) as [[st'' o2]|]; [|done]. simpl. intros [= <-].
    specialize (Hp2 _ eq_refl). injection Hp2 as -> ->. by rewrite fmap_app, concat_app.
Qed.

(** The operations of one packet. *)
Lemma run_ops_sim channel conn_id ops : forall hw p st s out,
  relates hw p st s -> Forall op_ok ops -> 0 <= channel <= 0x7ff -> is_byte conn_id ->
  exists s' wire pkts l hw' p' st',
    foldM (fun '(s, out) o => '(s, wire) ← dispatch_op answer channel conn_id s o; Ok (s, out ++ wire))
      (s, out) ops = Ok (s', out ++ wire)
    /\ ran hw p st s (op_action <$> ops) s' wire pkts l hw' p' st' /\ frame s s'.
Proof.
  induction ops as [|o ops IH]; intros hw p st s out Hrel Hops Hch Hco.
  { exists s, [], [], [], hw, p, st. split; [by rewrite app_nil_r|]. split; [by apply ran_nil|done]. }
  apply Forall_cons in Hops as [Ho Hops].
  destruct (dispatch_sim hw p st s o channel conn_id Hrel Ho Hch Hco)
    as (s1 & w1 & k1 & tdo & hw1 & p1 & st1 & Hd & Hrel1 & Hfr1 & Hsend1 & Hact & Hspec).
  assert (ran hw p st s [op_action o] s1 w1 k1 [(op_action o, tdo)] hw1 p1 st1) as Hran1.
  { split; try done.
    - destruct (op_action o) as [| |w|tms tdi]; [destruct Hact as (-> & -> & ->); apply walked_other; [done|constructor]..|].
      destruct Hact as [Hwk ->]. eapply walked_shift; [done|constructor].
    - intros r. cbn [spec_run]. destruct (spec_action st (op_action o) tdo) as [[st' o']|]; [|done]. simpl.
      intros [= <-]. rewrite app_nil_r. by apply Hspec. }
  destruct (IH hw1 p1 st1 s1 (out ++ w1) Hrel1 Hops Hch Hco)
    as (s2 & w2 & k2 & l2 & hw2 & p2 & st2 & Hf & Hran2 & Hfr2).
  exists s2, (w1 ++ w2), (k1 ++ k2), ((op_action o, tdo) :: l2), hw2, p2, st2.
  split; [|split; [exact (ran_app _ _ _ _ _ _ _ _ _ _ _ _ _ _ _ _ _ _ _ _ Hran1 Hran2)|by eapply frame_trans]].
  cbn [foldM]. rewrite Hd, !bind_of_Ok, Hf. by rewrite app_assoc.
Qed.
End Dispatch.

(** ** Packets *)

Definition decoder_ok (s : session) : Prop :=
  bytes_ok (s_decoder s) /\ decode_one (s_decoder s) = Err Truncated.

Definition run_packets answer (s : session) (pkts : list H2tPacket) : result (session * list Z) :=
  foldM (fun '(s, out) pkt => '(s, wire) ← h2t_packet answer s pkt; Ok (s, out ++ wire)) (s, []) pkts.

Section Packets.
Variable answer : list (op base) -> list (op base) -> nat -> base.
Hypothesis Hanswer : answers answer.

Lemma relates_set_decoder hw p st s buf : relates hw p st s -> relates hw p st (set_decoder s buf).
Proof. by intros []. Qed.

(** A packet whose commands are complete or incomplete, but valid. *)
Lemma packet_ops hw p st s pkt ops buf :
  relates hw p st s -> loopback_active s = false -> decoder_ok s -> h2t_ok pkt ->
  feed (s_decoder s) (payload pkt) = Ok (ops, buf) ->
  exists s' wire pkts l hw' p' st', h2t_packet answer s pkt = Ok (s', wire)
    /\ ran answer hw p st s (op_action <$> ops) s' wire pkts l hw' p' st'
    /\ s_decoder s' = buf /\ decoder_ok s' /\ loopback_active s' = false
    /\ s_driver_params s' = s_driver_params s.
Proof.
  intros Hrel Hlb [Hok Htr] [Hpok _ Hch Hco] Hfeed. unfold h2t_packet. rewrite Hlb, Hfeed.
  pose proof (feed_cases _ _ (proj2 (bytes_ok_app _ _) (conj Hok Hpok))) as Hc. rewrite Hfeed in Hc.
  destruct Hc as (Hops & Hbuf & Hbtr).
  destruct (run_ops_sim answer Hanswer (channel pkt) (conn_id pkt) ops hw p st (set_decoder s buf) [])
    as (s' & wire & pkts & l & hw' & p' & st' & Hf & Hran & Hfr); [by apply relates_set_decoder|done..|].
  destruct Hfr as (Hd & Hs & Hh & Hpar & _).
  cbn [set_decoder s_decoder s_server_loopback s_hw_loopback s_driver_params] in *.
  exists s', wire, pkts, l, hw', p', st'. split_and!; [done| |done| | |done].
  - destruct Hran as [? ? ? Hw ?]. by split.
  - unfold decoder_ok. by rewrite Hd.
  - unfold loopback_active in *. by rewrite Hs, Hh.
Qed.

Lemma feed_nil buf : decode_one buf = Err Truncated -> feed buf [] = Ok ([], buf).
Proof.
  intros Ht. unfold feed. rewrite app_nil_r. destruct buf; [done|]. cbn [length].
  by rewrite feed_loop_step, Ht by done.
Qed.

(** Packets that together carry a valid command stream. *)
Lemma run_packets_sim pkts : forall hw p st s out ops buf,
  relates hw p st s -> loopback_active s = false -> decoder_ok s -> Forall h2t_ok pkts ->
  feed (s_decoder s) (concat (payload <$> pkts)) = Ok (ops, buf) ->
  exists s' wire replies l hw' p' st',
    foldM (fun '(s, out) pkt => '(s, wire) ← h2t_packet answer s pkt; Ok (s, out ++ wire)) (s, out) pkts
      = Ok (s', out ++ wire)
    /\ ran answer hw p st s (op_action <$> ops) s' wire replies l hw' p' st'
    /\ s_decoder s' = buf.
Proof.
  induction pkts as [|pkt pkts IH]; intros hw p st s out ops buf Hrel Hlb Hdec Hpk Hfeed.
  { cbn [fmap list_fmap concat] in Hfeed. rewrite feed_nil in Hfeed by apply Hdec. injection Hfeed as <- <-.
    exists s, [], [], [], hw, p, st. split_and!; [by rewrite app_nil_r|by apply ran_nil|done]. }
  apply Forall_cons in Hpk as [Hp Hpks]. cbn [fmap list_fmap concat] in Hfeed.
  assert (bytes_ok (concat (payload <$> pkts))) as Hrest.
  { clear - Hpks. induction Hpks as [|q qs [] _ IH]; [constructor|]. by apply bytes_ok_app. }
  rewrite feed_split in Hfeed by (rewrite !bytes_ok_app; by split_and!; [apply Hdec|apply Hp|]).
  destruct (feed (s_decoder s) (payload pkt)) as [[ops1 b1]|] eqn:E1; [|done]. rewrite bind_of_Ok in Hfeed.
  destruct (packet_ops hw p st s pkt ops1 b1 Hrel Hlb Hdec Hp E1)
    as (s1 & w1 & k1 & l1 & hw1 & p1 & st1 & Hh & Hran1 & Hb1 & Hdec1 & Hlb1 & _).
  destruct (feed b1 _) as [[ops2 b2]|] eqn:E2; [|done]. rewrite bind_of_Ok in Hfeed. injection Hfeed as <- <-.
  destruct (IH hw1 p1 st1 s1 (out ++ w1) ops2 b2) as (s2 & w2 & k2 & l2 & hw2 & p2 & st2 & Hf & Hran2 & Hb2);
    [apply Hran1|done..|by rewrite Hb1|].
  exists s2, (w1 ++ w2), (k1 ++ k2), (l1 ++ l2), hw2, p2, st2. split_and!; [| |done].
  - cbn [foldM]. rewrite Hh, !bind_of_Ok, Hf. by rewrite app_assoc.
  - rewrite fmap_app. by eapply ran_app.
Qed.

(** Any packet at all. *)
Lemma any_packet hw p st s pkt :
  relates hw p st s -> decoder_ok s -> h2t_ok pkt ->
  exists s' wire replies hw' p' st', h2t_packet answer s pkt = Ok (s', wire)
    /\ relates hw' p' st' s' /\ decoder_ok s' /\ sends replies wire
    /\ s_driver_params s' = s_driver_params s.
Proof.
  intros Hrel Hdec Hp. destruct (loopback_active s) eqn:Hlb.
  - unfold h2t_packet. rewrite Hlb. destruct (sends_one pkt Hp) as (enc & He & Hs).
    exists s, enc, [pkt], hw, p, st. split_and!; [|done..]. destruct pkt. simpl in *. by rewrite He.
  - pose proof (feed_cases (s_decoder s) (payload pkt)) as Hc.
    destruct (feed (s_decoder s) (payload pkt)) as [[ops buf]|e] eqn:E.
    + destruct (packet_ops hw p st s pkt ops buf Hrel Hlb Hdec Hp E)
        as (s' & wire & replies & l & hw' & p' & st' & Hh & [? ? _ _ _] & _ & ? & _ & ?).
      by exists s', wire, replies, hw', p', st'.
    + rewrite Hc in E by (apply bytes_ok_app; split; [apply Hdec|apply Hp]).
      unfold h2t_packet. rewrite Hlb, E. exists (set_decoder s []), [], [], hw, p, st.
      split_and!; [done|by apply relates_set_decoder|done|apply sends_nil|done].
Qed.
End Packets.

(** ** The H2T socket *)

Lemma h2t_loop_packets answer pkts : forall s out stream s' wire fuel,
  sends pkts stream ->
  foldM (fun '(s, out) pkt => '(s, wire) ← h2t_packet answer s pkt; Ok (s, out ++ wire)) (s, out) pkts
    = Ok (s', out ++ wire) ->
  (length stream < fuel)%nat -> h2t_loop answer fuel s stream = (s', wire, None).
Proof.
  induction pkts as [|p pkts IH]; intros s out stream s' wire fuel [Hok Henc] Hrun Hfuel;
    (destruct fuel as [|fuel]; [lia|]); cbn [encode_packets foldM] in *.
  { injection Henc as <-. injection Hrun as -> Ho. rewrite <- (app_nil_r out) in Ho at 1.
    apply app_inv_head in Ho as <-. done. }
  apply Forall_cons in Hok as [Hp Hok]. destruct (h2t_encode_Ok p Hp) as (enc & He & _ & Hr).
  rewrite He, bind_of_Ok in Henc. destruct (encode_packets pkts) as [rest|] eqn:Erest; [|done].
  rewrite bind_of_Ok in Henc. injection Henc as <-. cbn [h2t_loop]. rewrite Hr.
  destruct (h2t_packet answer s p) as [[s1 w1]|]; [|done]. rewrite !bind_of_Ok in Hrun.
  assert (exists w2, wire = w1 ++ w2) as [w2 ->].
  { clear - Hrun. enough (exists w2, out ++ wire = (out ++ w1) ++ w2) as [w2 Hw].
    { exists w2. rewrite <- app_assoc in Hw. by apply app_inv_head in Hw. }
    revert Hrun. generalize (out ++ wire), (out ++ w1), s1. clear.
    induction pkts as [|q qs IH]; intros total acc s1; cbn [foldM].
    - intros [= _ <-]. exists []. by rewrite app_nil_r.
    - destruct (h2t_packet answer s1 q) as [[s2 w]|]; [|done]. rewrite !bind_of_Ok.
      intros [w2 ->]%IH. exists (w ++ w2). by rewrite app_assoc. }
  rewrite app_assoc in Hrun.
  rewrite (IH s1 (out ++ w1) rest s' w2 fuel); [done|by split|done|].
  rewrite length_app in Hfuel. destruct enc; [|simpl in Hfuel; lia].
  specialize (Hr []). simpl in Hr. done.
Qed.

(** ** Properties *)

(** C6: a host that encodes its commands and sends them in packets cut
    anywhere gets back, as well-formed packets on the T2H socket, exactly the
    bytes the specification computes from its windows and the TDO of its
    shifts, whatever the interface answers; each shift was walked from the
    controller state the one before left, and the task returns when the
    stream ends. *)
Theorem session_captures_tdo answer mgmt rs pkts :
  answers answer -> Forall request_ok rs -> Forall h2t_ok pkts ->
  encode_requests rs = Ok (concat (payload <$> pkts)) ->
  exists stream s' wire replies l hw' p', encode_packets pkts = Ok stream
    /\ h2t_loop answer (S (length stream)) (session_init mgmt) stream = (s', wire, None)
    /\ sends replies wire
    /\ l.*1 = request_action <$> rs
    /\ walked answer [] TestLogicReset PReset l (s_posted s') hw' p' /\ s_walk s' = collapse hw'
    /\ forall st out, spec_run ([], []) l = Some (st, out) ->
         concat (payload <$> replies) = out /\ held (s_encoder s') st.2.
Proof.
  intros Hans Hrs Hpk Henc. destruct (feed_loop_requests rs Hrs) as (stream & ops & Hs & Hok & Hf & Ha).
  unfold encode_requests in Henc. rewrite Hs in Henc. injection Henc as Hst. cbn [app] in Hst. subst stream.
  destruct (run_packets_sim answer Hans pkts TestLogicReset PReset ([], []) (session_init mgmt) [] ops [])
    as (s' & wire & replies & l & hw' & p' & st' & Hrun & [Hrel Hsend Hacts Hwk Hspec] & _).
  { split; [done|done|apply held_init|by split_and!|done]. }
  { done. } { done. } { done. } { done. }
  destruct (sends_all pkts Hpk) as (stream & Hstream).
  exists stream, s', wire, replies, l, hw', p'. split_and!; [apply Hstream| |done| |done|apply Hrel|].
  - eapply h2t_loop_packets; [done|apply Hrun|lia].
  - by rewrite Hacts, Ha.
  - intros st out Hr. specialize (Hspec _ Hr). injection Hspec as -> ->. split; [done|apply Hrel].
Qed.

(** An interface that answers every shift with its own bits. *)
Definition loop_back (hist posted : list (op base)) (f : nat) : base :=
  match posted !! f with Some (JtagTap.Shift v _ _) => v | _ => BStr bs_empty end.

Lemma loop_back_answers : answers loop_back.
Proof. intros hist posted f v Hv Hok. unfold loop_back. by rewrite Hv. Qed.

(** Into Shift-DR, then eight bits under a window that captures. *)
Definition sample_scan_requests : list request :=
  [QShort (BStr (mkBitString [[]] 2 4 None)) (BStr (mkBitString [[]] 0 4 None));
   QPush (mkPush 8 true true); QLong (BStr (mkBitString [[0xa5]] 0 8 None))].

Definition sample_packets : list H2tPacket :=
  [mkH2t true false 1 2 [131; 32; 71]; mkH2t false true 1 2 [0; 192; 167; 0; 165]].

Example sample_scan_encoded :
  encode_requests sample_scan_requests = Ok (concat (payload <$> sample_packets)).
Proof. vm_compute. reflexivity. Qed.

Lemma small_value_ok l z n :
  bytes_ok l -> n = 8 * zlen l + n mod 8 -> 0 <= z < 2 ^ (n mod 8) ->
  value_ok (BStr (mkBitString [l] z n None)).
Proof.
  intros Hl Hn Hz. destruct (clean_intro [l] z n None) as [Hc _]; simpl; rewrite ?app_nil_r; [done..|by left|].
  split; [split; [apply Hc|done]|done].
Qed.

Lemma session_captures_tdo_witness :
  exists stream s' wire replies, encode_packets sample_packets = Ok stream
    /\ h2t_loop loop_back (S (length stream)) (session_init false) stream = (s', wire, None)
    /\ sends replies wire.
Proof.
  destruct (session_captures_tdo loop_back false sample_scan_requests sample_packets)
    as (stream & s' & wire & replies & _ & _ & _ & H1 & H2 & H3 & _).
  - apply loop_back_answers.
  - repeat constructor; try (apply small_value_ok; [by repeat constructor|done|done]); vm_compute; congruence.
  - repeat constructor; vm_compute; congruence.
  - vm_compute. reflexivity.
  - by exists stream, s', wire, replies.
Defined.

(** A third window pushed before the first is over drops the first but
    leaves its count running: the second window lasts what remained of the
    first instead of its own duration. *)
Theorem overflow_shortens_window s w1 w2 w :
  s_fifo s = [w1; w2] -> 1 <= s_head_remaining s ->
  let s' := push_capture s w in
  s_fifo s' = [w2; w]
  /\ windows (s_fifo s') (s_head_remaining s')
     = [mkPush (s_head_remaining s) (tdo_enable w2) (eop_gen w2); w].
Proof.
  intros Hf Hr. unfold push_capture. rewrite Hf.
  change (TDO_FIFO_DEPTH <=? zlen [w1; w2]) with true. cbv iota zeta. cbn [drop app].
  destruct (Z.eqb_spec (s_head_remaining s) 0); [lia|done].
Qed.

Lemma overflow_shortens_window_witness :
  let s := push_capture (push_capture (session_init false) (mkPush 2 false false)) (mkPush 100 true true) in
  windows (s_fifo (push_capture s (mkPush 8 true false))) (s_head_remaining (push_capture s (mkPush 8 true false)))
  = [mkPush 2 true true; mkPush 8 true false].
Proof.
  intros s. destruct (overflow_shortens_window s (mkPush 2 false false) (mkPush 100 true true) (mkPush 8 true false))
    as [_ H]; [done|by vm_compute|exact H].
Defined.

(** The EOP of a window that does not capture is forgotten: a window of two
    clocks that asks for EOP, then one of eight clocks that captures; the only
    packet of the T2H stream has no EOP.  ([_eop_pending] is never set.) *)
Example eop_of_silent_window_lost :
  (x ← run_packets loop_back (session_init false)
         [mkH2t true true 0 0 [131; 32; 65; 0; 64; 193; 0; 71; 0; 128; 167; 0; 165]]; Ok (x.2))
  = Ok [222; 173; 190; 239; 1; 0; 0; 0; 1; 0; 165].
Proof. vm_compute. reflexivity. Qed.
