(* ===== verification/JopControl.v ===== *)
(** * The control socket of a session (src/acrobe/jop/control.py, session.py)

    NUL-terminated ASCII commands that read and write parameters; loopback
    modes; and a whole session as a sequence of control lines and data packets
    in any order.  The line reader ([_read_until_nul]) hands over the bytes
    between two NULs. *)

From Stdlib Require Import Ascii String.
From stdpp Require Import strings.
From S2P Require Import Prelude BitString BitVec JtagTap JtagWalker Jop JopFraming JopSession.

Open Scope Z_scope.

(** ** Text *)

(** [str.isspace] on ASCII. *)
Definition is_space (a : ascii) : bool :=
  let n := nat_of_ascii a in ((9 <=? n) && (n <=? 13) || (28 <=? n) && (n <=? 32))%nat.

Fixpoint lstrip (l : list ascii) : list ascii :=
  match l with
  | a :: l' => if is_space a then lstrip l' else l
  | [] => []
  end.

(** [str.strip] *)
Definition strip (l : list ascii) : list ascii := reverse (lstrip (reverse (lstrip l))).

(** [str.split]: the words, the characters of the current one in [word]. *)
Fixpoint split_words (word : list ascii) (l : list ascii) : list (list ascii) :=
  match l with
  | [] => match word with [] => [] | _ => [word] end
  | a :: l =>
      if is_space a then match word with [] => split_words [] l | _ => word :: split_words [] l end
      else split_words (word ++ [a]) l
  end.

(** [parse_control_command] *)
Definition parse_control_command (line : list ascii) : string * list string :=
  match string_of_list_ascii <$> split_words [] (strip line) with
  | [] => (EmptyString, [])
  | verb :: args => (verb, args)
  end.

(** [text.encode("ascii")], for text that is ASCII. *)
Definition encode_ascii (s : string) : list Z := Z.of_nat ∘ nat_of_ascii <$> list_ascii_of_string s.

(** [line.decode("ascii")]: [UnicodeDecodeError] is a [ValueError]. *)
Definition decode_ascii (l : list Z) : result (list ascii) :=
  if forallb (fun b => (0 <=? b) && (b <? 128)) l then Ok ((fun b => ascii_of_nat (Z.to_nat b)) <$> l)
  else Err ValueError.

(** ** Parameters *)

(** [str(n)] of the advertised sizes. *)
Definition DEFAULT_H2T_BUFF_SZ : string := "16384".
Definition DEFAULT_MGMT_BUFF_SZ : string := "16384".
Definition DEFAULT_CTRL_BUFF_SZ : string := "4096".

Definition get_param (s : session) (name : string) : option string :=
  if (name =? "MGMT_SUPPORT")%string then Some (if s_mgmt_support s then "1"%string else "0"%string)
  else if (name =? "H2T_RX_BUFF_SZ")%string then Some DEFAULT_H2T_BUFF_SZ
  else if (name =? "MGMT_RX_BUFF_SZ")%string then Some DEFAULT_MGMT_BUFF_SZ
  else if (name =? "CTRL_RX_BUFF_SZ")%string then Some DEFAULT_CTRL_BUFF_SZ
  else if (name =? "T2H_NAGLE")%string then Some "0"%string
  else if (name =? "MGMT_RSP_NAGLE")%string then Some "0"%string
  else if (name =? "SERVER_LOOPBACK")%string then Some "0"%string
  else None.

Definition is_one (value : string) : bool :=
  (string_of_list_ascii (strip (list_ascii_of_string value)) =? "1")%string.

Definition set_loopback (s : session) (server hw : bool) (params : gmap string string) : session :=
  mkSession (s_walk s) (s_in_ir s) (s_posted s) (s_decoder s) (s_encoder s) (s_fifo s)
    (s_head_remaining s) (s_eop_pending s) server hw params (s_mgmt_support s).

Definition set_param (s : session) (name value : string) : session * bool :=
  if (name =? "SERVER_LOOPBACK")%string
  then (set_loopback s (is_one value) (s_hw_loopback s) (s_driver_params s), true)
  else (s, match get_param s name with Some _ => true | None => false end).

Definition get_driver_param (s : session) (name : string) : option string := s_driver_params s !! name.

Definition set_driver_param (s : session) (name value : string) : session * bool :=
  if (name =? HW_LOOPBACK)%string
  then (set_loopback s (s_server_loopback s) (is_one value) (<[name := value]> (s_driver_params s)), true)
  else (s, false).

(** ** Commands *)

(** A response and its NUL. *)
Definition nul_terminated (s : string) : list Z := encode_ascii s ++ [0].

Definition reply_value (value : option string) : list Z :=
  match value with
  | None => nul_terminated "GET_PARAM_FAILURE"
  | Some v => nul_terminated v
  end.

Definition reply_ack (ok : bool) : list Z :=
  nul_terminated (if ok then "SET_PARAM_ACK" else "SET_PARAM_FAIL_ACK").

(** [args[0] if args else ""], then looked up unless empty. *)
Definition lookup_arg (get : string -> option string) (args : list string) : option string :=
  let name := default EmptyString (head args) in
  if (name =? EmptyString)%string then None else get name.

(** [_handle_control]: the session, the bytes written to the control socket,
    whether the client disconnects. *)
Definition handle_control (s : session) (line : list ascii) : session * list Z * bool :=
  let '(verb, args) := parse_control_command line in
  if (verb =? "PING")%string then (s, nul_terminated "PONG", false)
  else if (verb =? "GET_PARAM")%string then (s, reply_value (lookup_arg (get_param s) args), false)
  else if (verb =? "SET_PARAM")%string then
    match args with
    | name :: value :: _ => let '(s, ok) := set_param s name value in (s, reply_ack ok, false)
    | _ => (s, reply_ack false, false)
    end
  else if (verb =? "GET_DRIVER_PARAM")%string
  then (s, reply_value (lookup_arg (get_driver_param s) args), false)
  else if (verb =? "SET_DRIVER_PARAM")%string then
    match args with
    | name :: value :: _ => let '(s, ok) := set_driver_param s name value in (s, reply_ack ok, false)
    | _ => (s, reply_ack false, false)
    end
  else if (verb =? "DISCONNECT")%string then (s, nul_terminated "DISCONNECT_ACK", true)
  else (s, nul_terminated "UNRECOGNIZED_COMMAND", false).

(** ** A session as a sequence of events *)

Inductive session_event : Type :=
  | Ctrl (line : list Z)
  | H2t (pkt : H2tPacket).

(** The session, what it wrote to the control and T2H sockets, whether the
    client has disconnected (the tasks are cancelled then). *)
Record running := mkRunning {
  r_session : session;
  r_ctrl : list Z;
  r_t2h : list Z;
  r_closed : bool;
}.

Definition session_step answer (r : running) (e : session_event) : result running :=
  if r_closed r then Ok r
  else
    match e with
    | Ctrl line =>
        text ← decode_ascii line;
        let '(s, out, disconnect) := handle_control (r_session r) text in
        Ok (mkRunning s (r_ctrl r ++ out) (r_t2h r) disconnect)
    | H2t pkt =>
        '(s, wire) ← h2t_packet answer (r_session r) pkt;
        Ok (mkRunning s (r_ctrl r) (r_t2h r ++ wire) false)
    end.

Definition running_init (mgmt_support : bool) : running :=
  mkRunning (session_init mgmt_support) [] [] false.

(** ** Lemmas *)

(** Text of ASCII characters other than NUL. *)
Definition char_ok (a : ascii) : Prop := (1 <= nat_of_ascii a < 128)%nat.
Definition str_ok (s : string) : Prop := Forall char_ok (list_ascii_of_string s).

Definition is_reply (out : list Z) : Prop :=
  exists body, out = body ++ [0] /\ Forall (fun b => 1 <= b < 128) body.

Lemma nul_terminated_reply s : str_ok s -> is_reply (nul_terminated s).
Proof.
  intros Hs. eexists. split; [done|]. unfold encode_ascii. apply Forall_fmap.
  eapply Forall_impl; [exact Hs|]. unfold char_ok. simpl. intros a Ha. lia.
Qed.

(** A literal of the program. *)
Lemma literal_ok s : forallb (fun a => (1 <=? nat_of_ascii a) && (nat_of_ascii a <? 128))%nat (list_ascii_of_string s) = true ->
  str_ok s.
Proof.
  rewrite forallb_forall. intros H. apply Forall_forall. intros a Ha. apply list_elem_of_In, H in Ha.
  unfold char_ok. apply andb_true_iff in Ha as [?%Nat.leb_le ?%Nat.ltb_lt]. done.
Qed.

Ltac literal := by apply literal_ok; vm_compute.

Lemma lstrip_ok l : Forall char_ok l -> Forall char_ok (lstrip l).
Proof. induction 1; cbn [lstrip]; [done|]. case_match; [done|by constructor]. Qed.

Lemma strip_ok l : Forall char_ok l -> Forall char_ok (strip l).
Proof. intros. unfold strip. by apply Forall_reverse, lstrip_ok, Forall_reverse, lstrip_ok. Qed.

Lemma split_words_ok l : forall word,
  Forall char_ok word -> Forall char_ok l -> Forall (Forall char_ok) (split_words word l).
Proof.
  induction l as [|a l IH]; intros word Hw Hl; cbn [split_words].
  - destruct word; [constructor|by rewrite Forall_singleton].
  - apply Forall_cons in Hl as [Ha Hl]. destruct (is_space a).
    + destruct word; [by apply IH|]. constructor; [done|by apply IH].
    + apply IH; [|done]. apply Forall_app. by rewrite Forall_singleton.
Qed.

Lemma parse_ok line :
  Forall char_ok line ->
  str_ok (parse_control_command line).1 /\ Forall str_ok (parse_control_command line).2.
Proof.
  intros Hl. unfold parse_control_command.
  pose proof (split_words_ok (strip line) [] ltac:(constructor) (strip_ok _ Hl)) as Hw.
  assert (Forall str_ok (string_of_list_ascii <$> split_words [] (strip line))) as Hs.
  { apply Forall_fmap. eapply Forall_impl; [exact Hw|]. intros w ?. unfold str_ok. simpl.
    by rewrite list_ascii_of_string_of_list_ascii. }
  destruct (string_of_list_ascii <$> _) as [|verb args]; [by split; constructor|].
  by apply Forall_cons in Hs.
Qed.

(** Driver parameters hold text the client sent. *)
Definition params_ok (s : session) : Prop := map_Forall (fun _ v => str_ok v) (s_driver_params s).

Lemma get_param_ok s name v : get_param s name = Some v -> str_ok v.
Proof.
  unfold get_param. intros H. repeat case_match; simplify_eq; literal.
Qed.

Lemma reply_value_ok (o : option string) : (forall v, o = Some v -> str_ok v) -> is_reply (reply_value o).
Proof.
  intros Ho. destruct o as [v|]; cbn [reply_value]; apply nul_terminated_reply; [by apply Ho|literal].
Qed.

Lemma reply_ack_ok b : is_reply (reply_ack b).
Proof. destruct b; apply nul_terminated_reply; literal. Qed.

Lemma lookup_arg_ok get args v : lookup_arg get args = Some v -> exists name, get name = Some v.
Proof. unfold lookup_arg. case_match; [done|eauto]. Qed.

(** What a control line leaves alone. *)
Definition control_frame (s s' : session) : Prop :=
  s_walk s' = s_walk s /\ s_encoder s' = s_encoder s /\ s_fifo s' = s_fifo s
  /\ s_head_remaining s' = s_head_remaining s /\ s_decoder s' = s_decoder s.

Lemma set_param_ok s name value :
  params_ok s -> params_ok (set_param s name value).1 /\ control_frame s (set_param s name value).1.
Proof. intros Hp. unfold set_param. by destruct (name =? _)%string. Qed.

Lemma set_driver_param_ok s name value :
  params_ok s -> str_ok value ->
  params_ok (set_driver_param s name value).1 /\ control_frame s (set_driver_param s name value).1.
Proof.
  intros Hp Hv. unfold set_driver_param. destruct (name =? _)%string; [|done].
  split; [|done]. by apply map_Forall_insert_2.
Qed.

Lemma handle_control_ok s line :
  params_ok s -> Forall char_ok line ->
  let '(s', out, _) := handle_control s line in params_ok s' /\ control_frame s s' /\ is_reply out.
Proof.
  intros Hp Hl. destruct (parse_ok line Hl) as [_ Ha]. unfold handle_control.
  destruct (parse_control_command line) as [verb args]. cbn [snd] in Ha.
  destruct (verb =? "PING")%string; [by split_and!; [|..|apply nul_terminated_reply; literal]|].
  destruct (verb =? "GET_PARAM")%string.
  { split_and!; [done..|]. apply reply_value_ok. intros v [n Hn]%lookup_arg_ok. by eapply get_param_ok. }
  destruct (verb =? "SET_PARAM")%string.
  { destruct args as [|name [|value rest]]; [by split_and!; [|..|apply reply_ack_ok]..|].
    destruct (set_param_ok s name value Hp) as [? ?]. destruct (set_param s name value).
    split_and!; [done..|apply reply_ack_ok]. }
  destruct (verb =? "GET_DRIVER_PARAM")%string.
  { split_and!; [done..|]. apply reply_value_ok. intros v [n Hn]%lookup_arg_ok. by apply (Hp n). }
  destruct (verb =? "SET_DRIVER_PARAM")%string.
  { destruct args as [|name [|value rest]]; [by split_and!; [|..|apply reply_ack_ok]..|].
    rewrite !Forall_cons in Ha. destruct (set_driver_param_ok s name value Hp) as [? ?]; [apply Ha|].
    destruct (set_driver_param s name value). split_and!; [done..|apply reply_ack_ok]. }
  destruct (verb =? "DISCONNECT")%string; split_and!; try done; apply nul_terminated_reply; literal.
Qed.

Definition event_ok (e : session_event) : Prop :=
  match e with
  | Ctrl line => Forall (fun b => 1 <= b < 128) line
  | H2t pkt => h2t_ok pkt
  end.

Definition is_ctrl (e : session_event) : bool := match e with Ctrl _ => true | H2t _ => false end.

Lemma decode_ascii_Ok line :
  Forall (fun b => 1 <= b < 128) line ->
  exists text, decode_ascii line = Ok text /\ Forall char_ok text.
Proof.
  intros Hl. unfold decode_ascii. eexists. split.
  - assert (forallb (fun b => (0 <=? b) && (b <? 128)) line = true) as ->; [|done].
    apply forallb_forall. intros b Hb. rewrite Forall_forall in Hl.
    specialize (Hl b (proj2 (list_elem_of_In _ _) Hb)). apply andb_true_iff. rewrite Z.leb_le, Z.ltb_lt. lia.
  - apply Forall_fmap. eapply Forall_impl; [exact Hl|]. intros b Hb. unfold char_ok. simpl in *.
    rewrite nat_ascii_embedding by lia. lia.
Qed.

(** A session between two events. *)
Record session_ok (r : running) (ctrls : nat) : Prop := {
  so_data : exists hw p st, relates hw p st (r_session r);
  so_decoder : decoder_ok (r_session r);
  so_params : params_ok (r_session r);
  so_t2h : exists replies, sends replies (r_t2h r);
  so_ctrl : exists replies, r_ctrl r = concat replies /\ Forall is_reply replies
                            /\ (r_closed r = false -> length replies = ctrls);
}.

Lemma relates_control hw p st s s' : relates hw p st s -> control_frame s s' -> relates hw p st s'.
Proof.
  intros [H1 H2 H3 H4 H5] (Hw & He & Hf & Hr & _). split; rewrite ?Hw, ?He, ?Hf, ?Hr; done.
Qed.

Lemma session_step_ok answer r e n :
  answers answer -> session_ok r n -> event_ok e ->
  exists r', session_step answer r e = Ok r' /\ session_ok r' (if is_ctrl e then S n else n).
Proof.
  intros Hans [(hw & p & st & Hrel) Hdec Hpar (reps & Hreps) (ctl & Hctl & Hctlok & Hn)] He.
  unfold session_step. destruct (r_closed r) eqn:Ec.
  { exists r. split; [done|]. split; [eauto|done|done|eauto|]. exists ctl. split_and!; [done..|by rewrite Ec]. }
  specialize (Hn eq_refl). destruct e as [line|pkt]; cbn [event_ok is_ctrl] in *.
  - destruct (decode_ascii_Ok line He) as (text & -> & Ht). rewrite bind_of_Ok.
    pose proof (handle_control_ok (r_session r) text Hpar Ht) as Hh.
    destruct (handle_control (r_session r) text) as [[s' out] d]. destruct Hh as (Hp' & Hfr & Hrep).
    eexists. split; [done|]. split; cbn [r_session r_ctrl r_t2h r_closed].
    + exists hw, p, st. by eapply relates_control.
    + destruct Hfr as (_ & _ & _ & _ & Hd). unfold decoder_ok. by rewrite Hd.
    + done.
    + eauto.
    + exists (ctl ++ [out]). rewrite concat_app, Hctl. simpl. rewrite app_nil_r. split_and!; [done| |].
      * apply Forall_app. by rewrite Forall_singleton.
      * intros _. rewrite length_app, Hn. simpl. lia.
  - destruct (any_packet answer Hans hw p st (r_session r) pkt Hrel Hdec He)
      as (s' & wire & replies & hw' & p' & st' & Hk & Hrel' & Hdec' & Hsend & Hpf).
    rewrite Hk, bind_of_Ok. eexists. split; [done|]. split; cbn [r_session r_ctrl r_t2h r_closed].
    + by exists hw', p', st'.
    + done.
    + unfold params_ok. by rewrite Hpf.
    + exists (reps ++ replies). by apply sends_app.
    + by exists ctl.
Qed.

(** ** Properties *)


Definition sample_events : list session_event :=
  [Ctrl (encode_ascii "PING"); H2t (mkH2t true true 1 2 [131; 32; 71; 0; 192; 167]);
   Ctrl (encode_ascii "GET_PARAM BOGUS"); H2t (mkH2t true true 1 2 [0; 165; 255]);
   H2t (mkH2t true true 1 2 [0])].


(** While a loopback mode is on, the T2H socket carries the bytes of the
    H2T socket unchanged, and the JTAG side is not touched. *)
Theorem loopback_echoes answer s pkts stream :
  loopback_active s = true -> Forall h2t_ok pkts -> encode_packets pkts = Ok stream ->
  h2t_loop answer (S (length stream)) s stream = (s, stream, None).
Proof.
  intros Hlb Hok Henc. eapply (h2t_loop_packets answer pkts s []); [by split| |lia].
  assert (forall out, foldM (fun '(s, out) pkt => '(s, wire) ← h2t_packet answer s pkt; Ok (s, out ++ wire))
    (s, out) pkts = Ok (s, out ++ stream)) as H; [|apply H].
  revert stream Henc. induction pkts as [|p pkts IH]; intros stream Henc out; cbn [encode_packets foldM] in *.
  - injection Henc as <-. by rewrite app_nil_r.
  - apply Forall_cons in Hok as [_ Hok]. destruct (h2t_encode p) as [enc|] eqn:He; [|done].
    rewrite bind_of_Ok in Henc. destruct (encode_packets pkts) as [rest|]; [|done]. injection Henc as <-.
    unfold h2t_packet at 2. rewrite Hlb. destruct p as [x1 x2 x3 x4 x5].
    cbn [sop eop conn_id channel payload]. rewrite He, !bind_of_Ok.
    rewrite (IH Hok rest eq_refl (out ++ enc)). by rewrite app_assoc.
Qed.

Lemma loopback_echoes_witness :
  let s := (handle_control (session_init false) (list_ascii_of_string "SET_PARAM SERVER_LOOPBACK 1")).1.1 in
  exists stream, encode_packets sample_packets = Ok stream
    /\ h2t_loop loop_back (S (length stream)) s stream = (s, stream, None).
Proof.
  intros s. eexists. split; [vm_compute; reflexivity|].
  apply (loopback_echoes loop_back s sample_packets); [done| |done].
  repeat constructor; vm_compute; congruence.
Defined.

(** A driver parameter reads back as it was set, and switches the
    loopback; the server's own loopback switch does too, but reads as [0]
    whatever was set. *)
Theorem parameters_read_back s value :
  let s1 := (set_driver_param s HW_LOOPBACK value).1 in
  let s2 := (set_param s "SERVER_LOOPBACK" value).1 in
  get_driver_param s1 HW_LOOPBACK = Some value /\ s_hw_loopback s1 = is_one value
  /\ s_server_loopback s2 = is_one value
  /\ get_param s2 "SERVER_LOOPBACK" = Some "0"%string.
Proof.
  intros s1 s2. unfold s1, s2, set_driver_param, set_param, get_driver_param.
  rewrite String.eqb_refl. split_and!; try done. apply lookup_insert_eq.
Qed.
