(* ===== verification/GdbResponder.v ===== *)
(** * The GDB remote protocol responder (src/acrobe/target/gdb/protocol.py)

    [Responder.handle_packet] and its handlers: registers, memory, run control,
    break- and watchpoints, chunked document reads, flash programming.

    The target (the [Debuggable] and its [Core]s of
    src/acrobe/target/debuggable.py, and the [Loadable]) is a record of
    operations over its state [T]; an operation may raise.  The two XML
    documents are given as bytes.  A handler is a function from the responder
    to the responder and the reply, in a state and error monad. *)

From Stdlib Require Import Ascii String.
From S2P Require Import Prelude MemoryMap PyText GdbPacket.

Open Scope Z_scope.

(** ** The target *)

Inductive RegisterType : Type := GPR | FLOAT | DOUBLE | PC | LR | SP | SYSTEM.

#[global] Instance RegisterType_eq_dec : EqDecision RegisterType.
Proof. solve_decision. Defined.

Record Register := mkRegister {
  number : Z;
  reg_name : list Z;
  width : Z;
  datatype : RegisterType;
  group : list Z;
  gdb_visible : bool;
  gdb_feature : option (list Z);
  gdb_in_g_packet : bool;
}.

#[global] Instance Register_eq_dec : EqDecision Register.
Proof. solve_decision. Defined.

Inductive CoreState : Type := RUN | HALT | SLEEP | FAULT | LOCKUP | UNKNOWN.
Inductive HaltCause : Type :=
  | C_EXCEPTION | C_INSTRUCTION | C_BREAKPOINT | C_WATCHPOINT | C_DEBUGGER | C_UNKNOWN.

#[global] Instance CoreState_eq_dec : EqDecision CoreState.
Proof. solve_decision. Defined.

Abbreviation method T A := (T -> T * result A).

Record Target (T : Type) := mkTarget {
  cores : nat;
  registers : nat -> list Register;
  little_endian : nat -> bool;                          (* gdb_byteorder *)
  lookup_register : nat -> Z -> result Register;
  reg_read : nat -> list Register -> method T (list Z); (* values in the order asked *)
  reg_write : nat -> list (Register * Z) -> method T unit;
  core_state : nat -> method T CoreState;
  halt_cause : nat -> method T HaltCause;
  halt : nat -> method T unit;
  resume : nat -> method T unit;
  step_core : nat -> method T unit;
  reset : nat -> method T unit;                         (* reset(stop=True) *)
  breakpoint_add : nat -> Z -> Z -> method T unit;
  breakpoint_list : nat -> method T (list (Z * Z));     (* (_, address) *)
  breakpoint_remove : nat -> Z * Z -> method T unit;
  watchpoint_add : nat -> Z -> Z -> Z -> method T unit; (* addr, size, kind *)
  watchpoint_remove : nat -> Z * Z * Z -> method T unit;
  watchpoint_hit : nat -> method T (option (Z * Z * Z));
  mem_read : Z -> Z -> method T (list Z);
  mem_write : Z -> list Z -> method T unit;
  detach : method T unit;
  monitor : list Z -> list (list Z) -> method T (option (list Z));  (* the text, when it is one *)
  load : option (MemoryMap -> method T unit);           (* loadable.write(m, do_erase=True) *)
  interrupted : option (method T bool);                 (* the transport: did a 0x03 byte come? *)
  pause : T -> T;                                       (* time passes: sleep *)
  target_xml : list Z;
  memory_map_xml : option (list Z);
}.
Arguments cores {T} _. Arguments registers {T} _ _. Arguments little_endian {T} _ _.
Arguments lookup_register {T} _ _ _. Arguments reg_read {T} _ _ _ _. Arguments reg_write {T} _ _ _ _.
Arguments core_state {T} _ _ _. Arguments halt_cause {T} _ _ _. Arguments halt {T} _ _ _.
Arguments resume {T} _ _ _. Arguments step_core {T} _ _ _. Arguments reset {T} _ _ _.
Arguments breakpoint_add {T} _ _ _ _ _. Arguments breakpoint_list {T} _ _ _.
Arguments breakpoint_remove {T} _ _ _ _. Arguments watchpoint_add {T} _ _ _ _ _ _.
Arguments watchpoint_remove {T} _ _ _ _. Arguments watchpoint_hit {T} _ _ _.
Arguments mem_read {T} _ _ _ _. Arguments mem_write {T} _ _ _ _. Arguments detach {T} _ _.
Arguments monitor {T} _ _ _ _. Arguments load {T} _. Arguments interrupted {T} _. Arguments pause {T} _ _.
Arguments target_xml {T} _. Arguments memory_map_xml {T} _.

(** ** The responder *)

Record responder (T : Type) := mkResponder {
  current_core : nat;
  no_ack_mode_requested : bool;
  flash_image : list (Z * list Z);
  target : T;
}.
Arguments mkResponder {T} _ _ _ _. Arguments current_core {T} _. Arguments no_ack_mode_requested {T} _.
Arguments flash_image {T} _. Arguments target {T} _.

(** [__init__]: thread [i + 1] is core [i]; the first is selected. *)
Definition new_responder {T} (D : Target T) (t : T) : result (responder T) :=
  if (cores D =? 0)%nat then Err ValueError else Ok (mkResponder 0 false [] t).

Definition M (T A : Type) : Type := responder T -> responder T * result A.

#[global] Instance M_ret T : MRet (M T) := fun A a s => (s, Ok a).
#[global] Instance M_bind T : MBind (M T) :=
  fun A B f m s => match m s with (s, Ok a) => f a s | (s, Err e) => (s, Err e) end.

#[global] Instance M_fmap T : FMap (M T) :=
  fun A B f m s => match m s with (s, Ok a) => (s, Ok (f a)) | (s, Err e) => (s, Err e) end.

Definition lift {T A} (r : result A) : M T A := fun s => (s, r).

(** [try: m except ...: h] *)
Definition try_except {T A} (m : M T A) (caught : exn -> bool) (h : M T A) : M T A :=
  fun s => match m s with (s, Err e) => if caught e then h s else (s, Err e) | r => r end.

Definition value_error (e : exn) : bool :=
  match e with ValueError | BinasciiError => true | _ => false end.
Definition any_exception (e : exn) : bool := true.
Definition not_implemented (e : exn) : bool := match e with NotImplementedError => true | _ => false end.
Definition no_register (e : exn) : bool := match e with KeyError | AttributeError => true | _ => false end.
Definition breakpoint_error (e : exn) : bool :=
  match e with NotImplementedError | RuntimeError | KeyError => true | _ => value_error e end.

(** A call of a method of the target; of the current core. *)
Definition call {T A} (f : method T A) : M T A :=
  fun s => let '(t, r) := f (target s) in
           (mkResponder (current_core s) (no_ack_mode_requested s) (flash_image s) t, r).

Definition on_core {T A} (f : nat -> method T A) : M T A := fun s => call (f (current_core s)) s.

Definition with_core {T A} (f : nat -> M T A) : M T A := fun s => f (current_core s) s.

Definition set_core {T} (n : nat) : M T unit :=
  fun s => (mkResponder n (no_ack_mode_requested s) (flash_image s) (target s), Ok tt).

Definition set_no_ack {T} : M T unit :=
  fun s => (mkResponder (current_core s) true (flash_image s) (target s), Ok tt).

Definition set_image {T} (l : list (Z * list Z)) : M T unit :=
  fun s => (mkResponder (current_core s) (no_ack_mode_requested s) l (target s), Ok tt).

Definition get_image {T} : M T (list (Z * list Z)) := fun s => (s, Ok (flash_image s)).

(** ** Replies *)

Abbreviation reply T := (M T (option (list Z))).

Definition say {T} (bytes : list Z) : reply T := mret (Some bytes).
Definition no_reply {T} : reply T := mret None.

Definition ok : list Z := lit "OK".
Definition error (code : Z) : list Z :=
  let c := Z.land code 0xff in lit "E" ++ [hex_lower (c / 16); hex_lower (c mod 16)].

Definition PACKET_SIZE : Z := 4096.
Definition INTERRUPT_STOP_REPLY : list Z := lit "S02".

(** Every cause has a tag, so that the default by state is never used. *)
Definition HALT_CAUSE_TAG (c : HaltCause) : list Z :=
  match c with
  | C_BREAKPOINT => lit "T05hwbreak:;"
  | C_WATCHPOINT => lit "T05watch:;"
  | C_DEBUGGER => lit "S05"
  | C_INSTRUCTION => lit "S04"
  | C_EXCEPTION => lit "T05syscall_entry:;"
  | C_UNKNOWN => lit "T00"
  end.

Definition WATCH_STOP_TAG (kind : Z) : result (list Z) :=
  if kind =? 2 then Ok (lit "watch") else if kind =? 3 then Ok (lit "rwatch")
  else if kind =? 4 then Ok (lit "awatch") else Err KeyError.

Section Handlers.
Context {T : Type}.
Variable D : Target T.
Variable fuel : nat.                 (* polls of a running core *)

(** [__thread_stop] *)
Definition thread_stop_reply (current : nat) (r : list Z) : list Z :=
  let head := slice r 0 1 in
  if (cores D <? 2)%nat || negb (bool_decide (head = lit "S") || bool_decide (head = lit "T")) then r
  else
    let tid := Z.of_nat current + 1 in
    lit "T" ++ slice r 1 3 ++ lit "thread:" ++ format_x tid ++ lit ";" ++ slice_from r 3.

Definition thread_stop (r : list Z) : M T (list Z) := with_core (fun current => mret (thread_stop_reply current r)).

Definition running (s : CoreState) : bool := bool_decide (s = RUN) || bool_decide (s = SLEEP).

(** What [__stop_signal] does once the core has stopped. *)
Definition stop_cause : M T (list Z) :=
  cause ← try_except (Some <$> on_core (halt_cause D)) not_implemented (mret None);
  match cause with
  | None => mret (lit "T00")
  | Some C_WATCHPOINT =>
      hit ← on_core (watchpoint_hit D);
      match hit with
      | Some (kind, addr, _) =>
          tag ← lift (WATCH_STOP_TAG kind);
          mret (lit "T05" ++ tag ++ lit ":" ++ format_x addr ++ lit ";")
      | None => mret (HALT_CAUSE_TAG C_WATCHPOINT)
      end
  | Some cause => mret (HALT_CAUSE_TAG cause)
  end.

(** [__stop_signal] *)
Definition stop_signal : M T (list Z) :=
  state ← try_except (Some <$> on_core (core_state D)) not_implemented (mret None);
  match state with
  | None => mret (lit "T00")
  | Some state =>
      if running state then
        state ← try_except (_ ← on_core (halt D); Some <$> on_core (core_state D)) not_implemented (mret None);
        match state with
        | None => mret (lit "T05")
        | Some state => if running state then mret (lit "T0b") else stop_cause
        end
      else stop_cause
  end.

(** [__stop_reason] *)
Definition stop_reason : M T (list Z) := r ← stop_signal; thread_stop r.

(** ** Threads and registers *)

Definition handle_H (payload : list Z) : reply T :=
  try_except (
    tid ← lift (int_base16 (slice_from payload 2));
    if tid <=? 0 then _ ← set_core 0; say ok
    else if (1 <=? tid) && (tid <=? Z.of_nat (cores D)) then _ ← set_core (Z.to_nat (tid - 1)); say ok
    else say (error 1))
  value_error (say (error 1)).

Definition handle_T (payload : list Z) : reply T :=
  try_except (
    tid ← lift (int_base16 (slice_from payload 1));
    if (1 <=? tid) && (tid <=? Z.of_nat (cores D)) then say ok else say (error 1))
  value_error (say (error 1)).

Definition g_registers (core : nat) : list Register := filter (fun r => gdb_in_g_packet r) (registers D core).

(** [value.to_bytes(r.width // 8, byteorder)] and [int.from_bytes] *)
Definition reg_bytes (little : bool) (r : Register) (v : Z) : result (list Z) :=
  if little then to_bytes_le (width r / 8) v else to_bytes_be (width r / 8) v.
Definition reg_value (little : bool) (l : list Z) : Z := if little then from_le l else from_be l.

Definition g_step (little : bool) (out : list Z) : Register * Z -> result (list Z) :=
  fun '(r, v) => b ← reg_bytes little r v; Ok (out ++ to_hex b).

Definition handle_g : reply T :=
  with_core (fun core =>
    values ← on_core (fun c => reg_read D c (g_registers core));
    out ← lift (foldM (g_step (little_endian D core)) [] (zip (g_registers core) values));
    say out).

(** [to_write[r] = value] of a dict *)
Definition dict_set (d : list (Register * Z)) (r : Register) (v : Z) : list (Register * Z) :=
  if bool_decide (r ∈ d.*1) then (fun '(r', v') => if bool_decide (r' = r) then (r', v) else (r', v')) <$> d
  else d ++ [(r, v)].

(** One register of a [G] packet: skipped when its text is missing or all [x]. *)
Definition parse_step (little : bool) (raw : list Z)
    : Z * list (Register * Z) -> Register -> result (Z * list (Register * Z)) :=
  fun '(cursor, to_write) r =>
    let hex_len := width r / 8 * 2 in
    let chunk := slice raw cursor (cursor + hex_len) in
    let cursor := cursor + hex_len in
    if bool_decide (chunk = []) || forallb (fun c => (c =? 120) || (c =? 88)) chunk
    then Ok (cursor, to_write)
    else d ← a2b_hex chunk; Ok (cursor, dict_set to_write r (reg_value little d)).

Definition parse_G (little : bool) (raw : list Z) (rs : list Register) : result (list (Register * Z)) :=
  '(_, to_write) ← foldM (parse_step little raw) (0, []) rs; Ok to_write.

Definition handle_G (payload : list Z) : reply T :=
  with_core (fun core =>
    match parse_G (little_endian D core) (slice_from payload 1) (g_registers core) with
    | Err e => if value_error e then say (error 1) else lift (Err e)
    | Ok [] => say ok
    | Ok to_write => _ ← on_core (fun c => reg_write D c to_write); say ok
    end).

Definition handle_p (payload : list Z) : reply T :=
  with_core (fun core =>
    match int_base16 (slice_from payload 1) with
    | Err e => if value_error e then say (error 1) else lift (Err e)
    | Ok num =>
        match lookup_register D core num with
        | Err e => if no_register e then say (error 1) else lift (Err e)
        | Ok r =>
            values ← on_core (fun c => reg_read D c [r]);
            value ← lift (index values 0);
            b ← lift (reg_bytes (little_endian D core) r value);
            say (to_hex b)
        end
    end).

Definition handle_P (payload : list Z) : reply T :=
  with_core (fun core =>
    match (eq ← find_sep 61 payload; num ← int_base16 (slice payload 1 eq); Ok (eq, num)) with
    | Err e => if value_error e then say (error 1) else lift (Err e)
    | Ok (eq, num) =>
        match lookup_register D core num with
        | Err e => if no_register e then say (error 1) else lift (Err e)
        | Ok r =>
            match a2b_hex (slice_from payload (eq + 1)) with
            | Err e => if value_error e then say (error 1) else lift (Err e)
            | Ok d => _ ← on_core (fun c => reg_write D c [(r, reg_value (little_endian D core) d)]); say ok
            end
        end
    end).

(** ** Memory *)

Definition handle_m (payload : list Z) : reply T :=
  match (comma ← find_sep 44 payload;
         addr ← int_base16 (slice payload 1 comma);
         size ← int_base16 (slice_from payload (comma + 1)); Ok (addr, size)) with
  | Err e => if value_error e then say (error 1) else lift (Err e)
  | Ok (addr, size) =>
      if size =? 0 then say []
      else try_except (data ← call (mem_read D addr size); say (to_hex data)) any_exception (say (error 1))
  end.

(** The address of a write packet, and where its data begins. *)
Definition write_header (payload : list Z) : result (Z * Z) :=
  comma ← find_sep 44 payload;
  colon ← find_sep 58 payload;
  addr ← int_base16 (slice payload 1 comma);
  _ ← int_base16 (slice payload (comma + 1) colon);
  Ok (addr, colon).

Definition write_memory (addr : Z) (data : list Z) : reply T :=
  try_except (_ ← call (mem_write D addr data); say ok) any_exception (say (error 1)).

Definition handle_M (payload : list Z) : reply T :=
  match ('(addr, colon) ← write_header payload;
         data ← a2b_hex (slice_from payload (colon + 1)); Ok (addr, data)) with
  | Err e => if value_error e then say (error 1) else lift (Err e)
  | Ok (addr, data) => write_memory addr data
  end.

Definition handle_X (payload : list Z) : reply T :=
  match write_header payload with
  | Err e => if value_error e then say (error 1) else lift (Err e)
  | Ok (addr, colon) =>
      match slice_from payload (colon + 1) with
      | [] => say ok
      | data => write_memory addr data
      end
  end.

(** ** Run control *)

Definition terminal (s : CoreState) : bool :=
  bool_decide (s = HALT) || bool_decide (s = LOCKUP) || bool_decide (s = FAULT).

(** One poll of the core, [true] when the wait is over: an exception ends the
    polling task too. *)
Definition poll_core : M T bool :=
  state ← try_except (Some <$> on_core (core_state D)) any_exception (mret None);
  mret (match state with None => true | Some s => terminal s end).

(** [__wait_for_halt]: the poll of the core races with the interrupt byte,
    which wins when both are there. *)
Fixpoint wait_for_halt (fuel : nat) : M T (list Z) :=
  match fuel with
  | O => lift (Err OutOfFuel)
  | S fuel =>
      stopped ← poll_core;
      intr ← match interrupted D with None => mret false | Some f => try_except (call f) any_exception (mret true) end;
      if (intr : bool) then _ ← on_core (halt D); thread_stop INTERRUPT_STOP_REPLY
      else if (stopped : bool) then stop_reason
      else _ ← call (fun t => (pause D t, Ok tt)); wait_for_halt fuel
  end.

Definition handle_c : reply T := _ ← on_core (resume D); Some <$> wait_for_halt fuel.
Definition handle_s : reply T := _ ← on_core (step_core D); Some <$> wait_for_halt fuel.

Definition handle_interrupt : reply T :=
  _ ← on_core (halt D); Some <$> thread_stop INTERRUPT_STOP_REPLY.

(** ** Break- and watchpoints *)

Definition breakpoint_op (add : bool) (bp_type addr kind : Z) : reply T :=
  if (bp_type =? 0) || (bp_type =? 1) then
    if add then _ ← on_core (fun c => breakpoint_add D c addr kind); say ok
    else
      l ← on_core (breakpoint_list D);
      match list_find (fun bp : Z * Z => snd bp = addr) l with
      | Some (_, bp) => _ ← on_core (fun c => breakpoint_remove D c bp); say ok
      | None => say ok
      end
  else if (2 <=? bp_type) && (bp_type <=? 4) then
    if add then _ ← on_core (fun c => watchpoint_add D c addr kind bp_type); say ok
    else _ ← on_core (fun c => watchpoint_remove D c (bp_type, addr, kind)); say ok
  else say [].

(** [__breakpoint] *)
Definition handle_breakpoint (payload : list Z) (add : bool) : reply T :=
  match split_sep 44 (decode_replace (slice_from payload 1)) with
  | [type_str; addr_str; kind_str] =>
      match (bp_type ← int_base16 type_str; addr ← int_base16 addr_str;
             kind ← int_base16 kind_str; Ok (bp_type, addr, kind)) with
      | Err e => if value_error e then say (error 1) else lift (Err e)
      | Ok (bp_type, addr, kind) =>
          try_except (breakpoint_op add bp_type addr kind) breakpoint_error (say (error 1))
      end
  | _ => say (error 1)
  end.

(** ** Queries *)

Definition q_qSupported : reply T :=
  say (lit "PacketSize=" ++ format_x PACKET_SIZE
       ++ lit ";QStartNoAckMode+;qXfer:features:read+;hwbreak+"
       ++ match memory_map_xml D with Some _ => lit ";qXfer:memory-map:read+" | None => [] end).

Definition q_QStartNoAckMode : reply T := _ ← set_no_ack; say ok.

(** One chunk of a document, and whether it is the last. *)
Definition xfer_chunk (data : list Z) (offset length : Z) : list Z :=
  if zlen data <=? offset then lit "l"
  else
    let chunk := slice data offset (offset + length) in
    (if zlen data <=? offset + zlen chunk then lit "l" else lit "m") ++ chunk.

Definition q_qXfer (args : list Z) : reply T :=
  match split_sep 58 args with
  | object :: action :: annex :: range :: _ =>
      if negb (bool_decide (action = lit "read")) then say (error 0)
      else match split_sep 44 range with
      | [offset_str; length_str] =>
          match (offset ← int_base16 offset_str; length ← int_base16 length_str; Ok (offset, length)) with
          | Err e => if value_error e then say (error 0) else lift (Err e)
          | Ok (offset, length) =>
              if bool_decide (object = lit "features") && bool_decide (annex = lit "target.xml")
              then say (xfer_chunk (target_xml D) offset length)
              else if bool_decide (object = lit "memory-map")
              then say (xfer_chunk (default [] (memory_map_xml D)) offset length)
              else say []
          end
      | _ => say (error 0)
      end
  | _ => say (error 0)
  end.

(** [",".join(f"{i + 1:x}" for i in range(len(self.cores)))] *)
Fixpoint join_ids (ids : list Z) : list Z :=
  match ids with
  | [] => []
  | [i] => format_x i
  | i :: ids => format_x i ++ lit "," ++ join_ids ids
  end.

Definition q_qfThreadInfo : reply T := say (lit "m" ++ join_ids (seqZ 1 (Z.of_nat (cores D)))).

Definition q_qC : reply T := with_core (fun core => say (lit "QC" ++ format_x (Z.of_nat core + 1))).

(** [binascii.a2b_hex] of text: a character outside ASCII is a plain
    [ValueError], which the handler does not catch. *)
Definition q_qRcmd (args : list Z) : reply T :=
  if negb (forallb (fun c => c <? 128) args) then lift (Err ValueError)
  else match (raw ← a2b_hex args; utf8_decode raw) with
  | Err e => match e with BinasciiError => say (error 1) | _ => lift (Err e) end
  | Ok cmd =>
      match split_words [] cmd with
      | [] => say (to_hex (utf8_encode (lit "Usage: monitor <command>" ++ [10])))
      | head :: tail =>
          result ← try_except (Some <$> call (monitor D head tail)) not_implemented (mret None);
          match result with
          | None => say (to_hex (utf8_encode (lit "Unknown monitor command: " ++ head ++ [10])))
          | Some (Some text) => say (to_hex (utf8_encode text))
          | Some None => say ok
          end
      end
  end.

(** [text.split(sep, 1)] at the first of [:], else of [,]. *)
Definition split_query (text : list Z) : list Z * list Z :=
  match find_sep 58 text, find_sep 44 text with
  | Ok i, _ => (slice_to text i, slice_from text (i + 1))
  | Err _, Ok i => (slice_to text i, slice_from text (i + 1))
  | Err _, Err _ => (text, [])
  end.

(** [__q_dispatch] *)
Definition q_dispatch (payload : list Z) : reply T :=
  let '(head, args) := split_query (decode_replace payload) in
  if bool_decide (head = lit "qSupported") then q_qSupported
  else if bool_decide (head = lit "QStartNoAckMode") then q_QStartNoAckMode
  else if bool_decide (head = lit "qXfer") then q_qXfer args
  else if bool_decide (head = lit "qfThreadInfo") then q_qfThreadInfo
  else if bool_decide (head = lit "qsThreadInfo") then say (lit "l")
  else if bool_decide (head = lit "qC") then q_qC
  else if bool_decide (head = lit "qAttached") then say (lit "1")
  else if bool_decide (head = lit "qRcmd") then q_qRcmd args
  else say [].

(** ** Flash *)

Definition v_flash_erase : reply T :=
  match load D with
  | None => say (error 1)
  | Some _ => _ ← set_image []; say ok
  end.

Definition v_flash_write (args : list Z) : reply T :=
  match load D with
  | None => say (error 1)
  | Some _ =>
      match find_sep 58 args with
      | Err _ => say (error 1)
      | Ok colon =>
          addr ← lift (int_base16 (slice_to args colon));
          image ← get_image;
          _ ← set_image (image ++ [(addr, slice_from args (colon + 1))]);
          say ok
      end
  end.

Definition v_flash_done : reply T :=
  match load D with
  | None => say (error 1)
  | Some write =>
      image ← get_image;
      let m := foldl (fun m '(addr, data) => append m addr data) empty_map image in
      _ ← set_image [];
      _ ← call (write m);
      say ok
  end.

(** [__v_cont]: the first action, whatever thread it names. *)
Definition v_cont (payload : list Z) : reply T :=
  if bool_decide (payload = lit "vCont?") then say (lit "vCont;c;s")
  else
    let entry := default [] (head (split_sep 59 (slice_from payload 6))) in
    let action := if bool_decide (58 ∈ entry) then default [] (head (split_sep 58 entry)) else slice entry 0 1 in
    if bool_decide (action = lit "c") then handle_c
    else if bool_decide (action = lit "s") then handle_s
    else say [].

(** [__v_dispatch] *)
Definition v_dispatch (payload : list Z) : reply T :=
  if starts_with (lit "vFlashErase:") payload then v_flash_erase
  else if starts_with (lit "vFlashWrite:") payload then v_flash_write (slice_from payload 12)
  else if bool_decide (payload = lit "vFlashDone") then v_flash_done
  else if starts_with (lit "vCont") payload then v_cont payload
  else say [].

(** [handle_packet] *)
Definition handle_packet (payload : list Z) : reply T :=
  match payload with
  | [] => say []
  | first :: _ =>
      let cmd c := first =? c in
      if cmd 63 (* ? *) then Some <$> stop_reason
      else if cmd 33 (* ! *) then say ok
      else if cmd 113 || cmd 81 (* q Q *) then q_dispatch payload
      else if cmd 118 (* v *) then v_dispatch payload
      else if cmd 72 (* H *) then handle_H payload
      else if cmd 84 (* T *) then handle_T payload
      else if cmd 103 (* g *) then handle_g
      else if cmd 71 (* G *) then handle_G payload
      else if cmd 112 (* p *) then handle_p payload
      else if cmd 80 (* P *) then handle_P payload
      else if cmd 109 (* m *) then handle_m payload
      else if cmd 77 (* M *) then handle_M payload
      else if cmd 88 (* X *) then handle_X payload
      else if cmd 99 (* c *) then handle_c
      else if cmd 115 (* s *) then handle_s
      else if cmd 82 (* R *) then _ ← on_core (reset D); no_reply
      else if cmd 90 (* Z *) then handle_breakpoint payload true
      else if cmd 122 (* z *) then handle_breakpoint payload false
      else if cmd 68 (* D *) then _ ← call (detach D); say ok
      else if cmd 107 (* k *) then _ ← call (detach D); no_reply
      else say []
  end.
End Handlers.

(** ** Lemmas *)

Lemma split_sep_last sep w : Forall (fun c => c <> sep) w -> split_sep sep w = [w].
Proof. intros H. apply split_sep_single. intros Hs. by apply (proj1 (Forall_forall _ _) H) in Hs. Qed.

Lemma split_sep_app sep w l :
  Forall (fun c => c <> sep) w -> split_sep sep (w ++ sep :: l) = w :: split_sep sep l.
Proof. intros H. by rewrite split_sep_concat, split_sep_last. Qed.

Lemma decode_replace_ascii l : Forall (fun c => c < 128) l -> decode_replace l = l.
Proof.
  induction 1 as [|c l Hc _ IH]; [done|]. unfold decode_replace in *. rewrite fmap_cons, IH.
  by destruct (Z.ltb_spec c 128); [|lia].
Qed.

(** A separator does not occur in a printed number. *)
Lemma format_x_no sep n : 0 <= n -> sep < 48 \/ 58 <= sep < 97 -> Forall (fun c => c <> sep) (format_x n).
Proof. intros Hn Hs. eapply Forall_impl; [by apply format_x_chars|]. simpl. lia. Qed.

Lemma format_x_ascii n : 0 <= n -> Forall (fun c => c < 128) (format_x n).
Proof. intros Hn. eapply Forall_impl; [by apply format_x_chars|]. simpl. lia. Qed.

(** A literal has no separator, decided by evaluation. *)
Lemma no_sep_dec sep l : forallb (fun c => negb (c =? sep)) l = true -> Forall (fun c => c <> sep) l.
Proof.
  rewrite forallb_forall. intros H. apply Forall_forall. intros c Hc%list_elem_of_In%H.
  by apply negb_true_iff, Z.eqb_neq in Hc.
Qed.

Section HandlerProofs.
Context {T : Type}.
Variable D : Target T.
Variable fuel : nat.
Implicit Types s : responder T.

(** *** Document reads *)

(** The request a debugger sends for a chunk of a document. *)
Definition xfer_request (object annex : list Z) (offset length : Z) : list Z :=
  lit "qXfer:" ++ object ++ lit ":read:" ++ annex ++ lit ":" ++ format_x offset ++ lit "," ++ format_x length.

Definition document (object annex : list Z) : option (list Z) :=
  if bool_decide (object = lit "features") && bool_decide (annex = lit "target.xml") then Some (target_xml D)
  else if bool_decide (object = lit "memory-map") then Some (default [] (memory_map_xml D)) else None.

Lemma xfer_reply s object annex data offset length :
  document object annex = Some data ->
  Forall (fun c => c <> 58) object -> Forall (fun c => c < 128) object ->
  Forall (fun c => c <> 58) annex -> Forall (fun c => c < 128) annex ->
  0 <= offset -> 0 <= length ->
  handle_packet D fuel (xfer_request object annex offset length) s = (s, Ok (Some (xfer_chunk data offset length))).
Proof.
  intros Hdoc Ho Hoa Ha Haa Hoff Hlen.
  change (handle_packet D fuel (xfer_request object annex offset length) s)
    with (q_dispatch D (xfer_request object annex offset length) s).
  unfold q_dispatch. rewrite decode_replace_ascii.
  2: { unfold xfer_request. rewrite !Forall_app. split_and!; try done; try (by apply format_x_ascii);
       by repeat constructor. }
  assert (split_query (xfer_request object annex offset length)
    = (lit "qXfer", object ++ lit ":read:" ++ annex ++ lit ":" ++ format_x offset ++ lit "," ++ format_x length)) as ->.
  { unfold split_query, xfer_request. change (lit "qXfer:") with (lit "qXfer" ++ [58]). rewrite <- app_assoc.
    cbn [app]. rewrite find_sep_app by (by apply no_sep_dec). 
    change (zlen (lit "qXfer")) with 5. f_equal; rewrite ?slice_to_nonneg, ?slice_from_nonneg by lia; done. }
  cbv beta iota zeta. rewrite 2!bool_decide_eq_false_2, bool_decide_eq_true_2 by done. unfold q_qXfer.
  change (object ++ lit ":read:" ++ annex ++ lit ":" ++ format_x offset ++ lit "," ++ format_x length)
    with (object ++ 58 :: (lit "read" ++ 58 :: (annex ++ 58 :: (format_x offset ++ 44 :: format_x length)))).
  rewrite !split_sep_app by (done || by apply no_sep_dec).
  rewrite split_sep_last by (apply Forall_app; split; [by apply format_x_no; [|lia]|];
    constructor; [done|by apply format_x_no; [|lia]]).
  rewrite bool_decide_eq_true_2 by done. cbn [negb].
  rewrite split_sep_app, split_sep_last by (apply format_x_no; [done|lia]).
  rewrite !int_format_x by done. rewrite !bind_of_Ok. unfold document in Hdoc.
  destruct (bool_decide (object = lit "features") && bool_decide (annex = lit "target.xml"));
    [by injection Hdoc as <-|].
  destruct (bool_decide (object = lit "memory-map")); [by injection Hdoc as <-|done].
Qed.

(** A debugger reading a document: chunk after chunk until the last. *)
Fixpoint read_document (n : nat) (object annex : list Z) (offset length : Z) (acc : list Z) s
  : option (list Z * responder T) :=
  match n with
  | O => None
  | S n =>
      match handle_packet D fuel (xfer_request object annex offset length) s with
      | (s, Ok (Some (c :: chunk))) =>
          let acc := acc ++ chunk in
          if c =? 108 then Some (acc, s)
          else if c =? 109 then read_document n object annex (offset + zlen chunk) length acc s
          else None
      | _ => None
      end
  end.

Lemma xfer_chunk_cases data offset length :
  0 <= offset -> 1 <= length ->
  (zlen data <= offset + length /\ xfer_chunk data offset length = 108 :: drop (Z.to_nat offset) data)
  \/ (offset + length < zlen data
      /\ xfer_chunk data offset length = 109 :: take (Z.to_nat length) (drop (Z.to_nat offset) data)).
Proof.
  intros Ho Hl. unfold xfer_chunk. destruct (Z.leb_spec (zlen data) offset).
  { left. split; [lia|]. by rewrite drop_ge by lia. }
  rewrite slice_nonneg by lia. replace (Z.to_nat (offset + length) - Z.to_nat offset)%nat with (Z.to_nat length) by lia.
  rewrite length_take, length_drop. destruct (Z.le_gt_cases (zlen data) (offset + length)).
  - left. split; [done|]. rewrite (proj2 (Z.leb_le _ _)) by lia. by rewrite take_ge by (rewrite length_drop; lia).
  - right. split; [done|]. by rewrite (proj2 (Z.leb_gt _ _)) by lia.
Qed.

Lemma read_document_spec object annex data length s :
  document object annex = Some data ->
  Forall (fun c => c <> 58) object -> Forall (fun c => c < 128) object ->
  Forall (fun c => c <> 58) annex -> Forall (fun c => c < 128) annex -> 1 <= length ->
  forall n offset acc, 0 <= offset -> zlen data - offset < Z.of_nat n -> (0 < n)%nat ->
  read_document n object annex offset length acc s = Some (acc ++ drop (Z.to_nat offset) data, s).
Proof.
  intros Hdoc Ho Hoa Ha Haa Hlen. induction n as [|n IH]; intros offset acc Hoff Hn Hpos; [lia|].
  cbn [read_document]. rewrite (xfer_reply s object annex data) by (done || lia).
  destruct (xfer_chunk_cases data offset length Hoff Hlen) as [[_ ->]|[Hlt ->]]; [done|].
  change (109 =? 108) with false. change (109 =? 109) with true. cbv iota zeta.
  rewrite IH; [|lia|rewrite length_take, length_drop; lia|lia].
  rewrite length_take, length_drop. replace (Z.of_nat (Z.to_nat length `min` (List.length data - Z.to_nat offset))) with length by lia.
  rewrite <- app_assoc, Z2Nat.inj_add, <- drop_drop, take_drop by lia. done.
Qed.

(** *** Memory packets *)

(** A write request: [c] is [M] or [X]. *)
Definition write_request (c addr size : Z) (body : list Z) : list Z :=
  c :: format_x addr ++ 44 :: format_x size ++ 58 :: body.

Lemma slice_from_app {A} (l1 l2 : list A) n : n = zlen l1 -> slice_from (l1 ++ l2) n = l2.
Proof. intros ->. rewrite slice_from_nonneg, Nat2Z.id by lia. apply drop_app_length. Qed.

Lemma write_header_spec c addr size body :
  c <> 44 -> c <> 58 -> 0 <= addr -> 0 <= size ->
  exists colon, write_header (write_request c addr size body) = Ok (addr, colon)
    /\ slice_from (write_request c addr size body) (colon + 1) = body.
Proof.
  intros Hc Hc' Ha Hs. unfold write_header, write_request.
  change (c :: format_x addr ++ 44 :: format_x size ++ 58 :: body)
    with ((c :: format_x addr) ++ 44 :: (format_x size ++ 58 :: body)).
  rewrite find_sep_app, bind_of_Ok by (constructor; [done|by apply format_x_no; [|lia]]).
  assert (find_sep 58 ((c :: format_x addr) ++ 44 :: (format_x size ++ 58 :: body))
          = Ok (zlen ((c :: format_x addr) ++ 44 :: format_x size))) as ->.
  { replace ((c :: format_x addr) ++ 44 :: (format_x size ++ 58 :: body))
      with (((c :: format_x addr) ++ 44 :: format_x size) ++ 58 :: body) by (by rewrite <- app_assoc).
    apply find_sep_app. apply Forall_app. split; (constructor; [done|by apply format_x_no; [|lia]]). }
  rewrite bind_of_Ok.
  pose proof (slice_app_mid [c] (format_x addr) (44 :: format_x size ++ 58 :: body) 1 (zlen (c :: format_x addr)))
    as Eaddr.
  cbn [app] in *. rewrite Eaddr, int_format_x, bind_of_Ok by (simpl length; lia).
  replace (c :: format_x addr ++ 44 :: format_x size ++ 58 :: body)
    with ((c :: format_x addr ++ [44]) ++ format_x size ++ 58 :: body) by (cbn [app]; by rewrite <- app_assoc).
  rewrite slice_app_mid by (simpl length; rewrite !length_app; simpl length; lia). rewrite int_format_x, bind_of_Ok by done.
  eexists. split; [done|].
  replace ((c :: format_x addr ++ [44]) ++ format_x size ++ 58 :: body)
    with ((c :: format_x addr ++ 44 :: format_x size ++ [58]) ++ body)
    by (cbn [app]; rewrite <- !app_assoc; cbn [app]; by rewrite <- app_assoc).
  apply slice_from_app. simpl length. rewrite !length_app. simpl length. rewrite !length_app. simpl length. lia.
Qed.

(** The address and the size of a read packet. *)
Lemma read_range_spec addr size :
  0 <= addr -> 0 <= size ->
  let payload := 109 :: format_x addr ++ 44 :: format_x size in
  (comma ← find_sep 44 payload;
   addr ← int_base16 (slice payload 1 comma);
   size ← int_base16 (slice_from payload (comma + 1)); Ok (addr, size)) = Ok (addr, size).
Proof.
  intros Ha Hs.
  change (109 :: format_x addr ++ 44 :: format_x size) with ((109 :: format_x addr) ++ 44 :: format_x size).
  cbv zeta. rewrite find_sep_app, bind_of_Ok by (constructor; [done|by apply format_x_no; [|lia]]).
  pose proof (slice_app_mid [109] (format_x addr) (44 :: format_x size) 1 (zlen (109 :: format_x addr))) as Eaddr.
  cbn [app] in *. rewrite Eaddr, int_format_x, bind_of_Ok by (simpl length; lia).
  replace (109 :: format_x addr ++ 44 :: format_x size)
    with ((109 :: format_x addr ++ [44]) ++ format_x size) by (cbn [app]; by rewrite <- app_assoc).
  rewrite slice_from_app by (simpl length; rewrite length_app; simpl length; lia).
  by rewrite int_format_x, bind_of_Ok by lia.
Qed.

Lemma read_header_spec addr size s :
  0 <= addr -> 1 <= size ->
  handle_m D (109 :: format_x addr ++ 44 :: format_x size) s
  = try_except (data ← call (mem_read D addr size); say (to_hex data)) any_exception (say (error 1)) s.
Proof.
  intros Ha Hs. unfold handle_m. rewrite read_range_spec by lia. by destruct (Z.eqb_spec size 0); [lia|].
Qed.

Lemma read_header_zero addr s :
  0 <= addr -> handle_m D (109 :: format_x addr ++ 44 :: format_x 0) s = (s, Ok (Some [])).
Proof.
  intros Ha. unfold handle_m. by rewrite read_range_spec.
Qed.

(** *** Memory packets are always answered *)

(** The exceptions a parser can raise. *)
Definition raises_only {A} (P : exn -> bool) (r : result A) : Prop :=
  match r with Ok _ => True | Err e => P e = true end.

Lemma raises_bind {A B} P (r : result A) (f : A -> result B) :
  raises_only P r -> (forall a, raises_only P (f a)) -> raises_only P (r ≫= f).
Proof. intros Hr Hf. destruct r; [apply Hf|done]. Qed.

Lemma raises_scan_number l : raises_only value_error (scan_number l).
Proof. unfold scan_number. by repeat case_match. Qed.

Lemma raises_int_base16 l : raises_only value_error (int_base16 l).
Proof.
  unfold int_base16. destruct (drop_spaces l) as [|c l']; [done|].
  destruct (c =? 45), (c =? 43); try apply raises_scan_number;
    pose proof (raises_scan_number l') as H; by destruct (scan_number l').
Qed.

Lemma raises_find_sep sep l : raises_only value_error (find_sep sep l).
Proof. unfold find_sep. by repeat case_match. Qed.

Lemma raises_a2b_hex l : raises_only value_error (a2b_hex l).
Proof.
  enough (forall n l, (length l <= n)%nat -> raises_only value_error (a2b_hex l)) as H by by eapply H.
  clear l. induction n as [|n IH]; intros [|h [|d rest]] Hl; cbn [a2b_hex length] in *; try done; [lia|].
  destruct (digit16 h), (digit16 d); try done. apply raises_bind; [apply IH; lia|done].
Qed.

Hint Resolve raises_bind raises_int_base16 raises_find_sep raises_a2b_hex : raises.

Lemma raises_write_header payload : raises_only value_error (write_header payload).
Proof. unfold write_header. repeat (apply raises_bind; [auto with raises|intros]). done. Qed.
Hint Resolve raises_write_header : raises.

(** An operation that is answered, without touching the responder itself. *)
Definition answered (m : reply T) : Prop :=
  forall s, exists s' r, m s = (s', Ok (Some r))
    /\ current_core s' = current_core s /\ flash_image s' = flash_image s
    /\ no_ack_mode_requested s' = no_ack_mode_requested s.

Lemma answered_say r : answered (say r).
Proof. intros s. by exists s, r. Qed.

Lemma answered_call {A} (f : method T A) (g : A -> list Z) r :
  answered (try_except (a ← call f; say (g a)) any_exception (say r)).
Proof.
  intros s. unfold try_except, mbind, M_bind, call, say, mret, M_ret.
  destruct (f (target s)) as [t [a|e]]; cbn; by eexists _, _.
Qed.

Lemma answered_parsed {A} (r : result A) (f : A -> reply T) e :
  raises_only value_error r -> (forall a, answered (f a)) ->
  answered (match r with Err x => if value_error x then say (error e) else lift (Err x) | Ok a => f a end).
Proof. intros Hr Hf. destruct r as [a|x]; [apply Hf|]. cbn in Hr. rewrite Hr. apply answered_say. Qed.

Lemma memory_packet_answered payload c :
  head payload = Some c -> c ∈ lit "mMX" -> answered (handle_packet D fuel payload).
Proof.
  destruct payload as [|c' rest]; [done|]. intros [= ->] Hc.
  set (payload := c :: rest). 
  assert (handle_packet D fuel payload = if c =? 109 then handle_m D payload
            else if c =? 77 then handle_M D payload else handle_X D payload) as ->.
  { by repeat (apply elem_of_cons in Hc as [->|Hc]; [done|]); apply elem_of_nil in Hc. }
  destruct (c =? 109); [|destruct (c =? 77)].
  - unfold handle_m. apply (answered_parsed _ (fun '(addr, size) => _)).
    + repeat (apply raises_bind; [auto with raises|intros]). done.
    + intros [addr size]. destruct (size =? 0); [apply answered_say|apply answered_call].
  - unfold handle_M. apply (answered_parsed _ (fun '(addr, data) => _)).
    + apply raises_bind; [auto with raises|]. intros [addr colon]. apply raises_bind; [auto with raises|done].
    + intros [addr data]. apply (answered_call (mem_write D addr data) (fun _ => ok)).
  - unfold handle_X. apply (answered_parsed _ (fun '(addr, colon) => _)); [auto with raises|].
    intros [addr colon]. destruct (slice_from payload (colon + 1)) as [|b d]; [apply answered_say|].
    apply (answered_call (mem_write D addr (b :: d)) (fun _ => ok)).
Qed.
End HandlerProofs.
