(* ===== verification/GdbDebugger.v ===== *)
(** * What a debugger gets from the responder (src/acrobe/target/gdb/protocol.py)

    Sequences of packets as a debugger sends them, and what their replies mean:
    memory accesses against a flat memory, document reads, thread selection,
    register transfers.  [MemoryTarget] states what the responder needs from
    the memory of the target. *)

From Stdlib Require Import Ascii String.
From S2P Require Import Prelude MemoryMap PyText GdbPacket GdbResponder.

Open Scope Z_scope.

(** ** The memory of a target *)

(** The bytes [d] written at [a] over [m]. *)
Definition write_bytes (m : Z -> Z) (a : Z) (d : list Z) : Z -> Z :=
  fun x => default (m x) (chunk_byte (a, d) x).

Definition read_bytes (m : Z -> Z) (a n : Z) : list Z := m <$> seqZ a n.

(** Accesses succeed, reads do not disturb, writes reach exactly their bytes. *)
Class MemoryTarget {T} (D : Target T) (mem : T -> Z -> Z) : Prop := {
  mt_byte t x : is_byte (mem t x);
  mt_read t a n : 1 <= n ->
    exists t', mem_read D a n t = (t', Ok (read_bytes (mem t) a n)) /\ forall x, mem t' x = mem t x;
  mt_write t a d : bytes_ok d ->
    exists t', mem_write D a d t = (t', Ok tt) /\ forall x, mem t' x = write_bytes (mem t) a d x;
}.

(** ** Memory requests *)

Inductive request : Type :=
  | ReadMemory (addr size : Z)
  | WriteHex (addr : Z) (data : list Z)
  | WriteBinary (addr : Z) (data : list Z).

Definition request_packet (q : request) : list Z :=
  match q with
  | ReadMemory addr size => 109 :: format_x addr ++ 44 :: format_x size
  | WriteHex addr data => write_request 77 addr (zlen data) (to_hex data)
  | WriteBinary addr data => write_request 88 addr (zlen data) data
  end.

Definition request_ok (q : request) : Prop :=
  match q with
  | ReadMemory addr size => 0 <= addr /\ 0 <= size
  | WriteHex addr data | WriteBinary addr data => 0 <= addr /\ bytes_ok data
  end.

(** Packets one after the other, with their replies. *)
Fixpoint serve {T} (D : Target T) (fuel : nat) (payloads : list (list Z)) (s : responder T)
  : responder T * list (result (option (list Z))) :=
  match payloads with
  | [] => (s, [])
  | payload :: payloads =>
      let '(s, r) := handle_packet D fuel payload s in
      let '(s, rs) := serve D fuel payloads s in (s, r :: rs)
  end.

(** The requests on a flat memory. *)
Definition request_spec (m : Z -> Z) (q : request) : (Z -> Z) * list Z :=
  match q with
  | ReadMemory addr size => (m, to_hex (read_bytes m addr size))
  | WriteHex addr data | WriteBinary addr data => (write_bytes m addr data, ok)
  end.

Fixpoint requests_spec (m : Z -> Z) (qs : list request) : (Z -> Z) * list (list Z) :=
  match qs with
  | [] => (m, [])
  | q :: qs =>
      let '(m, r) := request_spec m q in
      let '(m, rs) := requests_spec m qs in (m, r :: rs)
  end.

Lemma write_bytes_nil m a x : write_bytes m a [] x = m x.
Proof. unfold write_bytes, chunk_byte. cbn [fst snd]. by destruct (a <=? x). Qed.

Section Memory.
Context {T : Type} (D : Target T) (mem : T -> Z -> Z) `{!MemoryTarget D mem} (fuel : nat).
Implicit Types s : responder T.

(** The same responder, on another target. *)
Definition on_target s t : responder T :=
  mkResponder (current_core s) (no_ack_mode_requested s) (flash_image s) t.

Lemma write_memory_spec s addr data :
  bytes_ok data ->
  exists t, write_memory D addr data s = (on_target s t, Ok (Some ok))
    /\ forall x, mem t x = write_bytes (mem (target s)) addr data x.
Proof.
  intros Hd. destruct (mt_write (target s) addr data Hd) as (t&E&Ht). exists t. split; [|done].
  unfold write_memory, try_except, mbind, M_bind, call. by rewrite E.
Qed.

Lemma request_reply q s :
  request_ok q ->
  exists t, handle_packet D fuel (request_packet q) s = (on_target s t, Ok (Some (snd (request_spec (mem (target s)) q))))
    /\ forall x, mem t x = fst (request_spec (mem (target s)) q) x.
Proof.
  destruct q as [addr size|addr data|addr data]; intros [Ha Hd]; cbn [request_packet].
  - change (handle_packet D fuel (109 :: ?l) s) with (handle_m D (109 :: l) s).
    destruct (Z.eq_dec size 0) as [->|Hn].
    + exists (target s). rewrite read_header_zero by done. by destruct s.
    + rewrite read_header_spec by lia. destruct (mt_read (target s) addr size) as (t&E&Ht); [lia|].
      exists t. split; [|done]. unfold try_except, mbind, M_bind, call. by rewrite E.
  - change (handle_packet D fuel (write_request 77 ?a ?b ?c) s) with (handle_M D (write_request 77 a b c) s).
    unfold handle_M. destruct (write_header_spec 77 addr (zlen data) (to_hex data)) as (colon&E&Hb); [lia..|].
    rewrite E, bind_of_Ok, Hb, a2b_to_hex, bind_of_Ok by done. by apply write_memory_spec.
  - change (handle_packet D fuel (write_request 88 ?a ?b ?c) s) with (handle_X D (write_request 88 a b c) s).
    unfold handle_X. destruct (write_header_spec 88 addr (zlen data) data) as (colon&E&Hb); [lia..|].
    rewrite E, Hb. destruct data as [|b d]; [|by apply write_memory_spec].
    exists (target s). split; [by destruct s|]. intros x. symmetry. apply write_bytes_nil.
Qed.

Lemma requests_spec_ext qs : forall m m', (forall x, m x = m' x) ->
  snd (requests_spec m qs) = snd (requests_spec m' qs)
  /\ forall x, fst (requests_spec m qs) x = fst (requests_spec m' qs) x.
Proof.
  induction qs as [|q qs IH]; intros m m' H; [done|]. cbn [requests_spec].
  assert (snd (request_spec m q) = snd (request_spec m' q)
    /\ forall x, fst (request_spec m q) x = fst (request_spec m' q) x) as [Hr Hm].
  { destruct q as [a n|a d|a d]; cbn [request_spec fst snd].
    - split; [|done]. unfold read_bytes. f_equal. apply list_fmap_ext. intros. apply H.
    - split; [done|]. intros x. unfold write_bytes. by rewrite H.
    - split; [done|]. intros x. unfold write_bytes. by rewrite H. }
  destruct (request_spec m q) as [m1 r1], (request_spec m' q) as [m2 r2]. cbn [fst snd] in *. subst r2.
  destruct (IH m1 m2 Hm) as [E1 E2].
  destruct (requests_spec m1 qs), (requests_spec m2 qs). cbn [fst snd] in *. by subst.
Qed.

Lemma serve_requests qs : forall s, Forall request_ok qs ->
  exists t, serve D fuel (request_packet <$> qs) s
      = (on_target s t, (fun r => Ok (Some r)) <$> snd (requests_spec (mem (target s)) qs))
    /\ forall x, mem t x = fst (requests_spec (mem (target s)) qs) x.
Proof.
  induction qs as [|q qs IH]; intros s Hq.
  { exists (target s). by destruct s. }
  inversion_clear Hq as [|?? Hq1 Hqs]. destruct (request_reply q s Hq1) as (t1&E1&M1).
  destruct (IH (on_target s t1) Hqs) as (t2&E2&M2). exists t2.
  rewrite fmap_cons. cbn [serve requests_spec]. rewrite E1, E2.
  destruct (request_spec (mem (target s)) q) as [m1 r1]. cbn [fst snd target on_target] in *.
  destruct (requests_spec_ext qs _ _ M1) as [X1 X2]. rewrite X1.
  destruct (requests_spec m1 qs) as [m2 rs]. cbn [fst snd] in *. split; [done|].
  intros x. by rewrite M2, X2.
Qed.
End Memory.

(** ** Invariants of the responder *)

Section Invariant.
Context {T : Type} (D : Target T) (P : responder T -> Prop).

(** An operation that preserves [P], whether it succeeds or raises. *)
Definition keeps {A} (m : M T A) : Prop := forall s, P s -> P (fst (m s)).

Lemma keeps_ret {A} (a : A) : keeps (mret a).
Proof. by intros s. Qed.

Lemma keeps_lift {A} (r : result A) : keeps (lift r).
Proof. by intros s. Qed.

Lemma keeps_bind {A B} (m : M T A) (f : A -> M T B) : keeps m -> (forall a, keeps (f a)) -> keeps (m ≫= f).
Proof.
  intros Hm Hf s Hs. specialize (Hm s Hs). unfold mbind, M_bind. destruct (m s) as [s' [a|e]]; [by apply Hf|done].
Qed.

Lemma keeps_fmap {A B} (f : A -> B) (m : M T A) : keeps m -> keeps (f <$> m).
Proof. intros Hm s Hs. specialize (Hm s Hs). unfold fmap, M_fmap. by destruct (m s) as [s' [a|e]]. Qed.

Lemma keeps_try {A} (m : M T A) caught h : keeps m -> keeps h -> keeps (try_except m caught h).
Proof.
  intros Hm Hh s Hs. specialize (Hm s Hs). unfold try_except.
  destruct (m s) as [s' [a|e]]; [done|]. destruct (caught e); [by apply Hh|done].
Qed.

Lemma keeps_with_core {A} (f : nat -> M T A) : (forall c, keeps (f c)) -> keeps (with_core f).
Proof. intros Hf s Hs. by apply Hf. Qed.

Hypothesis P_call : forall s t, P s -> P (on_target s t).

Lemma keeps_call {A} (f : method T A) : keeps (call f).
Proof. intros s Hs. unfold call. pose proof (P_call s (fst (f (target s))) Hs). by destruct (f (target s)). Qed.

Lemma keeps_on_core {A} (f : nat -> method T A) : keeps (on_core f).
Proof. intros s Hs. by apply keeps_call. Qed.
End Invariant.

(** Follows the structure of a handler. *)
Ltac keeps_step :=
  lazymatch goal with
  | |- keeps _ (say _) => apply keeps_ret
  | |- keeps _ no_reply => apply keeps_ret
  | |- keeps _ (mret _) => apply keeps_ret
  | |- keeps _ (lift _) => apply keeps_lift
  | |- keeps _ (mbind _ _) => apply keeps_bind; [|intros ?]
  | |- keeps _ (fmap _ _) => apply keeps_fmap
  | |- keeps _ (try_except _ _ _) => apply keeps_try
  | |- keeps _ (with_core _) => apply keeps_with_core; intros ?
  | |- keeps _ (call _) => by apply keeps_call
  | |- keeps _ (on_core _) => by apply keeps_on_core
  | |- keeps _ (match ?x with _ => _ end) => destruct x eqn:?
  end.

Ltac keeps_tac := repeat (keeps_step || assumption).

Section Threads.
Context {T : Type} (D : Target T) (fuel : nat).

(** The current core exists. *)
Definition core_ok (s : responder T) : Prop := (current_core s < cores D)%nat.

Lemma core_ok_target s t : core_ok s -> core_ok (on_target s t).
Proof. done. Qed.

Lemma keeps_stop_reason : keeps core_ok (stop_reason D).
Proof.
  pose proof core_ok_target.
  unfold stop_reason, stop_signal, stop_cause, thread_stop. keeps_tac.
Qed.

Lemma keeps_wait_for_halt n : keeps core_ok (wait_for_halt D n).
Proof.
  pose proof core_ok_target. pose proof keeps_stop_reason.
  induction n; cbn [wait_for_halt]; unfold poll_core, thread_stop; keeps_tac.
Qed.

Lemma keeps_set_core n : (n < cores D)%nat -> keeps core_ok (set_core n).
Proof. by intros Hn s _. Qed.

Lemma keeps_fields : keeps core_ok set_no_ack /\ (forall l, keeps core_ok (set_image l)) /\ keeps core_ok get_image.
Proof. split_and!; intros; intros s Hs; exact Hs. Qed.

Lemma keeps_handle_H payload : (0 < cores D)%nat -> keeps core_ok (handle_H D payload).
Proof.
  intros H0. unfold handle_H. keeps_tac; apply keeps_set_core; [done|].
  apply andb_true_iff in Heqb0. lia.
Qed.

Lemma handle_packet_core payload : (0 < cores D)%nat -> keeps core_ok (handle_packet D fuel payload).
Proof.
  intros H0. pose proof core_ok_target. pose proof keeps_stop_reason.
  pose proof (keeps_wait_for_halt fuel). pose proof (keeps_handle_H payload H0).
  destruct keeps_fields as (?&?&?). destruct payload as [|c payload]; [apply keeps_ret|].
  unfold handle_packet. cbv beta zeta.
  unfold q_dispatch, q_qSupported, q_QStartNoAckMode, q_qXfer, q_qfThreadInfo, q_qC, q_qRcmd,
    v_dispatch, v_flash_erase, v_flash_write, v_flash_done, v_cont, handle_c, handle_s, handle_T,
    handle_g, handle_G, handle_p, handle_P, handle_m, handle_M, handle_X, write_memory,
    handle_breakpoint, breakpoint_op. cbv beta zeta. keeps_tac.
Qed.

Lemma serve_core payloads : (0 < cores D)%nat -> forall s, core_ok s -> core_ok (fst (serve D fuel payloads s)).
Proof.
  intros H0. induction payloads as [|p ps IH]; intros s Hs; [done|]. cbn [serve].
  pose proof (handle_packet_core p H0 s Hs) as Hs'. destruct (handle_packet D fuel p s) as [s' r].
  specialize (IH s' Hs'). by destruct (serve D fuel ps s').
Qed.

Lemma select_thread op i s :
  (i < cores D)%nat ->
  handle_packet D fuel (72 :: op :: format_x (Z.of_nat i + 1)) s
  = (mkResponder i (no_ack_mode_requested s) (flash_image s) (target s), Ok (Some ok)).
Proof.
  intros Hi. change (handle_packet D fuel (72 :: ?l) s) with (handle_H D (72 :: l) s). unfold handle_H, try_except.
  change (slice_from (72 :: op :: ?l) 2) with (slice_from ([72; op] ++ l) 2).
  rewrite slice_from_app, int_format_x by (done || lia).
  unfold mbind, M_bind, lift. destruct (Z.leb_spec (Z.of_nat i + 1) 0); [lia|].
  rewrite (proj2 (Z.leb_le 1 _)), (proj2 (Z.leb_le _ (Z.of_nat (cores D)))) by lia. cbn -[ok].
  by replace (Z.to_nat (Z.of_nat i + 1 - 1)) with i by lia.
Qed.
End Threads.

(** ** Register transfers *)

Section Registers.
Context {T : Type} (D : Target T) (fuel : nat).

Definition reg_ok (r : Register) (v : Z) : Prop := 8 <= width r /\ 0 <= v < 256 ^ (width r / 8).

Lemma reg_bytes_spec little r v :
  reg_ok r v -> exists b, reg_bytes little r v = Ok b /\ bytes_ok b /\ zlen b = width r / 8 /\ reg_value little b = v.
Proof.
  intros [Hw Hv]. assert (1 <= width r / 8) by (apply Z.div_le_lower_bound; lia).
  unfold reg_bytes, reg_value, to_bytes_be. rewrite to_bytes_le_Ok by lia.
  assert (from_le (le_bytes (Z.to_nat (width r / 8)) v) = v) as Hfrom
    by (rewrite from_le_le_bytes, Z2Nat.id by lia; apply Z.mod_small; lia).
  destruct little; eexists; (split; [done|]).
  - split_and!; [apply le_bytes_ok|rewrite length_le_bytes; lia|done].
  - split_and!; [apply Forall_reverse, le_bytes_ok|rewrite length_reverse, length_le_bytes; lia|].
    unfold from_be. by rewrite reverse_involutive.
Qed.

Lemma to_hex_not_x b : (0 < length b)%nat -> bytes_ok b ->
  bool_decide (to_hex b = []) || forallb (fun c => (c =? 120) || (c =? 88)) (to_hex b) = false.
Proof.
  destruct b as [|x b]; [simpl; lia|]. intros _ Hb. inversion_clear Hb as [|?? Hx _]. unfold is_byte in Hx.
  change (to_hex (x :: b)) with (hex_lower (x / 16) :: hex_lower (x mod 16) :: to_hex b).
  destruct (hex_lower_digit (x / 16)) as [E _]; [div_lia|]. cbn [forallb].
  rewrite bool_decide_eq_false_2 by done. cbn [orb].
  destruct (Z.eqb_spec (hex_lower (x / 16)) 120) as [E1|]; [by rewrite E1 in E|].
  by destruct (Z.eqb_spec (hex_lower (x / 16)) 88) as [E1|]; [rewrite E1 in E|].
Qed.

Lemma dict_set_fresh d r v : r ∉ d.*1 -> dict_set d r v = d ++ [(r, v)].
Proof. intros H. unfold dict_set. by rewrite bool_decide_eq_false_2. Qed.

(** Reading back what [g] printed. *)
Lemma parse_g_text little rs vs : Forall2 reg_ok rs vs -> forall before written,
  NoDup (written.*1 ++ rs) ->
  exists text, (forall out, foldM (g_step little) out (zip rs vs) = Ok (out ++ text))
    /\ exists cursor, foldM (parse_step little (before ++ text)) (zlen before, written) rs = Ok (cursor, written ++ zip rs vs).
Proof.
  induction 1 as [|r v rs vs Hrv _ IH]; intros before written Hnd.
  { exists []. split; [intros out; by rewrite app_nil_r|]. exists (zlen before). cbn. by rewrite !app_nil_r. }
  destruct (reg_bytes_spec little r v Hrv) as (b&Eb&Hb&Hl&Hv).
  destruct (IH (before ++ to_hex b) (written ++ [(r, v)])) as (text&Et&cursor&Ec).
  { by rewrite fmap_app, <- app_assoc. }
  assert (1 <= width r / 8) by (destruct Hrv; apply Z.div_le_lower_bound; lia).
  exists (to_hex b ++ text). split.
  - intros out. cbn [zip_with foldM g_step]. rewrite Eb, !bind_of_Ok, Et. by rewrite <- app_assoc.
  - exists cursor. cbn [foldM zip_with].
    assert (parse_step little (before ++ to_hex b ++ text) (zlen before, written) r
      = Ok (zlen (before ++ to_hex b), written ++ [(r, v)])) as ->.
    { unfold parse_step. rewrite slice_app_mid by (rewrite ?length_to_hex; lia).
      rewrite to_hex_not_x, a2b_to_hex, bind_of_Ok by (done || lia). rewrite Hv.
      rewrite length_app, length_to_hex, dict_set_fresh.
      - do 2 f_equal. lia.
      - apply NoDup_app in Hnd as (_&Hd&_). intros Hin. apply (Hd r Hin). by left. }
    rewrite bind_of_Ok, app_assoc, Ec. by rewrite <- app_assoc.
Qed.

(** A [G] packet that carries the text of [g]: the values are written. *)
Lemma write_back_registers s t vs :
  let core := current_core s in
  NoDup (g_registers D core) -> Forall2 reg_ok (g_registers D core) vs -> vs <> [] ->
  reg_read D core (g_registers D core) (target s) = (t, Ok vs) ->
  exists text, handle_packet D fuel (lit "g") s = (on_target s t, Ok (Some text))
    /\ forall s', current_core s' = core ->
         handle_packet D fuel (71 :: text) s'
         = (_ ← on_core (fun c => reg_write D c (zip (g_registers D core) vs)); say ok) s'.
Proof.
  intros core Hnd Hvs Hne Hread.
  destruct (parse_g_text (little_endian D core) _ _ Hvs [] [] Hnd) as (text&Eg&cursor&EG). exists text. split.
  - change (handle_packet D fuel (lit "g") s) with (handle_g D s).
    unfold handle_g, with_core, mbind, M_bind, on_core, call, lift. fold core. rewrite Hread, Eg. done.
  - intros s' Hc. change (handle_packet D fuel (71 :: text) s') with (handle_G D (71 :: text) s').
    unfold handle_G, with_core. rewrite Hc. unfold parse_G.
    change (slice_from (71 :: text) 1) with (slice_from ([71] ++ text) 1). rewrite slice_from_app by done.
    cbn [app] in EG. change (zlen (@nil Z)) with 0 in EG. rewrite EG, bind_of_Ok. cbn [app].
    destruct Hvs; [done|]. done.
Qed.
End Registers.

(** ** A simulated target *)

Record sim := mkSim {
  sim_mem : Z -> Z;
  sim_regs : list Z;
  sim_state : CoreState;
  sim_left : nat;           (* pauses until a running core stops *)
}.

Definition sim_registers : list Register :=
  let reg n name w in_g := mkRegister n name w GPR (lit "general") true None in_g in
  [reg 0 (lit "r0") 32 true; reg 1 (lit "r1") 32 true; reg 25 (lit "cpsr") 8 false].

Definition missing {T A} : method T A := fun t => (t, Err NotImplementedError).

Definition sim_run (t : sim) : sim * result unit :=
  (mkSim (sim_mem t) (sim_regs t) RUN (sim_left t), Ok tt).

Definition sim_pause (t : sim) : sim :=
  match sim_state t, sim_left t with
  | RUN, S n => mkSim (sim_mem t) (sim_regs t) RUN n
  | RUN, O => mkSim (sim_mem t) (sim_regs t) HALT 0
  | _, _ => t
  end.

(** Two cores that run together; memory and registers are plain storage. *)
Definition sim_target (flash : option (MemoryMap -> method sim unit)) (intr : option (method sim bool)) : Target sim := {|
  cores := 2;
  registers _ := sim_registers;
  little_endian _ := true;
  lookup_register _ n :=
    match filter (fun r => number r = n) sim_registers with r :: _ => Ok r | [] => Err KeyError end;
  reg_read _ rs t := (t, mapM (fun r => index (sim_regs t) (number r)) rs);
  reg_write _ ws t :=
    (mkSim (sim_mem t) (foldl (fun regs '(r, v) => <[Z.to_nat (number r) := v]> regs) (sim_regs t) ws)
       (sim_state t) (sim_left t), Ok tt);
  core_state _ t := (t, Ok (sim_state t));
  halt_cause _ t := (t, Ok C_DEBUGGER);
  halt _ t := (mkSim (sim_mem t) (sim_regs t) HALT (sim_left t), Ok tt);
  resume _ := sim_run;
  step_core _ := sim_run;
  reset _ t := (mkSim (sim_mem t) (sim_regs t) HALT (sim_left t), Ok tt);
  breakpoint_add _ _ _ := missing;
  breakpoint_list _ := missing;
  breakpoint_remove _ _ := missing;
  watchpoint_add _ _ _ _ := missing;
  watchpoint_remove _ _ := missing;
  watchpoint_hit _ := missing;
  mem_read a n t := (t, Ok (read_bytes (fun x => sim_mem t x mod 256) a n));
  mem_write a d t := (mkSim (write_bytes (sim_mem t) a d) (sim_regs t) (sim_state t) (sim_left t), Ok tt);
  detach t := (t, Ok tt);
  monitor _ _ := missing;
  load := flash;
  interrupted := intr;
  pause := sim_pause;
  target_xml := lit "<target/>";
  memory_map_xml := None;
|}.

#[global] Instance sim_memory flash intr : MemoryTarget (sim_target flash intr) (fun t x => sim_mem t x mod 256).
Proof.
  split.
  - intros t x. unfold is_byte. pose proof (Z.mod_pos_bound (sim_mem t x) 256). lia.
  - intros t a n _. by exists t.
  - intros t a d Hd. eexists. split; [done|]. intros x. cbn [sim_mem]. unfold write_bytes, chunk_byte. cbn [fst snd].
    destruct (a <=? x); [|done]. destruct (d !! Z.to_nat (x - a)) as [v|] eqn:E; [|done]. cbn [default from_option id].
    apply Z.mod_small. by apply (Forall_lookup_1 _ _ _ _ Hd) in E.
Qed.

Definition sim_start : sim := mkSim (fun x => x) [17; 0x12345678; 5] HALT 3.
Definition sim_responder : responder sim := mkResponder 0 false [] sim_start.

(** ** Theorems *)

(** C24: memory through the protocol is memory.  Any sequence of reads, hex
    writes and binary writes, in any order and overlapping as they may, is
    answered as a flat memory would, and leaves the target with that memory. *)
Theorem gdb_memory_refines {T} (D : Target T) mem `{!MemoryTarget D mem} fuel qs s :
  Forall request_ok qs ->
  exists t, serve D fuel (request_packet <$> qs) s
      = (on_target s t, (fun r => Ok (Some r)) <$> snd (requests_spec (mem (target s)) qs))
    /\ forall x, mem t x = fst (requests_spec (mem (target s)) qs) x.
Proof. apply (serve_requests D mem fuel). Qed.

Lemma gdb_memory_refines_witness :
  let qs := [WriteHex 0x1000 [1; 2; 3]; WriteBinary 0x1002 [58; 44; 9]; ReadMemory 0xfff 6; ReadMemory 16 0] in
  Forall request_ok qs /\
  snd (serve (sim_target None None) 0 (request_packet <$> qs) sim_responder)
  = [Ok (Some ok); Ok (Some ok); Ok (Some (lit "ff01023a2c09")); Ok (Some [])].
Proof.
  intros qs. assert (Forall request_ok qs) as Hq by (repeat constructor; vm_compute; congruence).
  split; [exact Hq|]. destruct (gdb_memory_refines (sim_target None None) _ 0 qs sim_responder Hq) as (t&E&_).
  rewrite E. reflexivity.
Defined.

(** A document arrives whole.  Whatever the chunk size a debugger asks for,
    reading from offset 0 and advancing by what it got until the last chunk, it
    receives the target description, and the memory map (empty when there is
    none), byte for byte, in at most one request per byte and one more. *)
Theorem gdb_documents_read_whole {T} (D : Target T) fuel s size :
  1 <= size ->
  let whole doc := S (length (doc : list Z)) in
  let map_xml := default [] (memory_map_xml D) in
  read_document D fuel (whole (target_xml D)) (lit "features") (lit "target.xml") 0 size [] s
    = Some (target_xml D, s)
  /\ read_document D fuel (whole map_xml) (lit "memory-map") [] 0 size [] s = Some (map_xml, s).
Proof.
  intros Hs. cbv zeta. split.
  - rewrite (read_document_spec D fuel _ _ (target_xml D)); try done; try (by apply no_sep_dec); try lia;
      repeat constructor.
  - rewrite (read_document_spec D fuel _ _ (default [] (memory_map_xml D))); try done; try (by apply no_sep_dec); try lia;
      repeat constructor.
Qed.

Lemma gdb_documents_read_whole_witness :
  1 <= 4 /\ read_document (sim_target None None) 0 10 (lit "features") (lit "target.xml") 0 4 [] sim_responder
  = Some (lit "<target/>", sim_responder).
Proof. split; [lia|]. exact (proj1 (gdb_documents_read_whole (sim_target None None) 0 sim_responder 4 ltac:(lia))). Defined.

(** A memory packet always gets an answer.  Whatever bytes follow the [m],
    [M] or [X], and whatever the target does, raising any exception included,
    the handler replies; the selected core, the pending flash image and the
    acknowledge mode are untouched. *)
Theorem gdb_memory_packets_answered {T} (D : Target T) fuel payload c s :
  head payload = Some c -> c ∈ lit "mMX" ->
  exists s' r, handle_packet D fuel payload s = (s', Ok (Some r))
    /\ current_core s' = current_core s /\ flash_image s' = flash_image s
    /\ no_ack_mode_requested s' = no_ack_mode_requested s.
Proof. intros Hh Hc. exact (memory_packet_answered D fuel payload c Hh Hc s). Qed.

Lemma gdb_memory_packets_answered_witness :
  exists s' r, handle_packet (sim_target None None) 0 (lit "M10,zz:4") sim_responder = (s', Ok (Some r))
    /\ flash_image s' = [].
Proof.
  destruct (gdb_memory_packets_answered (sim_target None None) 0 (lit "M10,zz:4") 77 sim_responder)
    as (s'&r&E&_&H&_); [reflexivity|right; left|]. by exists s', r.
Defined.

(** The selected thread exists.  From a fresh responder, whatever packets
    are served and however they fail, the current core is a core of the target
    and [qC] names it; every thread that exists can be selected. *)
Theorem gdb_current_core_valid {T} (D : Target T) fuel t s0 payloads :
  new_responder D t = Ok s0 ->
  let s := fst (serve D fuel payloads s0) in
  (current_core s < cores D)%nat
  /\ handle_packet D fuel (lit "qC") s = (s, Ok (Some (lit "QC" ++ format_x (Z.of_nat (current_core s) + 1))))
  /\ forall op i, (i < cores D)%nat ->
       exists s', handle_packet D fuel (72 :: op :: format_x (Z.of_nat i + 1)) s = (s', Ok (Some ok))
         /\ current_core s' = i.
Proof.
  unfold new_responder. destruct (Nat.eqb_spec (cores D) 0); [done|]. intros E.
  assert (s0 = mkResponder 0 false [] t) as -> by congruence. split_and!.
  - apply serve_core; unfold core_ok; cbn [current_core]; lia.
  - done.
  - intros op i Hi. eexists. split; [by apply select_thread|done].
Qed.

Lemma gdb_current_core_valid_witness :
  let s := fst (serve (sim_target None None) 9 [lit "Hg2"; lit "Hg9"; lit "c"] sim_responder) in
  (current_core s < 2)%nat /\ current_core s = 1%nat.
Proof.
  split; [|reflexivity].
  exact (proj1 (gdb_current_core_valid (sim_target None None) 9 sim_start sim_responder
    [lit "Hg2"; lit "Hg9"; lit "c"] eq_refl)).
Defined.

(** Saving and restoring the registers.  The text a [g] packet gets for the
    registers of the current core, sent back in a [G] packet at any later time,
    writes to each register exactly the value that was read, in the byte order
    of the core. *)
Theorem gdb_registers_roundtrip {T} (D : Target T) fuel s t vs :
  let core := current_core s in
  NoDup (g_registers D core) -> Forall2 reg_ok (g_registers D core) vs -> vs <> [] ->
  reg_read D core (g_registers D core) (target s) = (t, Ok vs) ->
  exists text, handle_packet D fuel (lit "g") s = (on_target s t, Ok (Some text))
    /\ forall s', current_core s' = core ->
         handle_packet D fuel (71 :: text) s'
         = (_ ← on_core (fun c => reg_write D c (zip (g_registers D core) vs)); say ok) s'.
Proof. apply write_back_registers. Qed.

Lemma gdb_registers_roundtrip_witness :
  exists text, handle_packet (sim_target None None) 0 (lit "g") sim_responder = (sim_responder, Ok (Some text))
    /\ text = lit "1100000078563412"
    /\ sim_regs (target (fst (handle_packet (sim_target None None) 0 (71 :: text)
          (mkResponder 0 false [] (mkSim (fun _ => 0) [0; 0; 0] HALT 0))))) = [17; 0x12345678; 0].
Proof.
  destruct (gdb_registers_roundtrip (sim_target None None) 0 sim_responder sim_start [17; 0x12345678]) as (text&E&H).
  - apply (bool_decide_unpack _). vm_compute. exact I.
  - repeat constructor; vm_compute; congruence.
  - done.
  - reflexivity.
  - assert (text = lit "1100000078563412") as Ht by (vm_compute in E |- *; congruence).
    exists text. split; [exact E|]. split; [exact Ht|]. rewrite H by reflexivity. reflexivity.
Defined.
