(* ===== verification/GdbRun.v ===== *)
(** * Running a core under the debugger (src/acrobe/target/gdb/protocol.py)

    Continue and step wait for the core to stop or for an interrupt byte; a
    stop reply says that the core has stopped.  [wait_ends] is what happens
    between the reply and the command, poll by poll; [ObservedCore] states what
    the state of a core must be for the reply to be about it. *)

From Stdlib Require Import Ascii String.
From S2P Require Import Prelude MemoryMap PyText GdbPacket GdbResponder GdbDebugger.

Open Scope Z_scope.

Section Waiting.
Context {T : Type} (D : Target T) (c : nat).

(** One poll: the state after it, whether the wait for the core is over,
    whether an interrupt came. *)
Definition observe (t : T) : T * bool * bool :=
  let '(t, r) := core_state D c t in
  let stopped := match r with Ok st => terminal st | Err _ => true end in
  match interrupted D with
  | None => (t, stopped, false)
  | Some f => let '(t, r) := f t in (t, stopped, match r with Ok b => b | Err _ => true end)
  end.

(** [wait_ends n t t' b]: polling from [t], the wait ends after [n] pauses in
    [t'], by an interrupt when [b]. *)
Inductive wait_ends : nat -> T -> T -> bool -> Prop :=
  | ends_now t t' stopped intr :
      observe t = (t', stopped, intr) -> stopped || intr = true -> wait_ends 0 t t' intr
  | ends_later n t t' t'' b :
      observe t = (t', false, false) -> wait_ends n (pause D t') t'' b -> wait_ends (S n) t t'' b.

(** What is replied, according to how the wait ended. *)
Definition end_reply (b : bool) : M T (list Z) :=
  if b then _ ← on_core (halt D); thread_stop D INTERRUPT_STOP_REPLY else stop_reason D.
End Waiting.

(** A poll of the model is an observation. *)
Lemma poll_observe {T} (D : Target T) s t stopped intr (k : bool -> bool -> M T (list Z)) :
  observe D (current_core s) (target s) = (t, stopped, intr) ->
  (stopped ← poll_core D;
   intr ← match interrupted D with None => mret false | Some f => try_except (call f) any_exception (mret true) end;
   k stopped intr) s = k stopped intr (on_target s t).
Proof.
  unfold observe, poll_core, try_except, mbind, M_bind, fmap, M_fmap, on_core, call, mret, M_ret.
  destruct (core_state D (current_core s) (target s)) as [t1 [st|e]]; cbn;
    (destruct (interrupted D) as [f|]; [cbn; destruct (f t1) as [t2 [b|e']]|]); cbn; by intros [= <- <- <-].
Qed.

Lemma wait_for_halt_ends {T} (D : Target T) n t0 t b c : wait_ends D c n t0 t b ->
  forall fuel s, current_core s = c -> target s = t0 -> (n < fuel)%nat ->
  wait_for_halt D fuel s = end_reply D b (on_target s t).
Proof.
  induction 1 as [t0 t stopped intr Ho Hs|n t0 t1 t b Ho _ IH]; intros fuel s <- <- Hf.
  - destruct fuel as [|fuel]; [lia|]. cbn [wait_for_halt].
    rewrite (poll_observe D s t stopped intr (fun stopped intr => if intr then _ else if stopped then _ else _)) by done.
    unfold end_reply. destruct intr; [done|]. by destruct stopped.
  - destruct fuel as [|fuel]; [lia|]. cbn [wait_for_halt].
    rewrite (poll_observe D s t1 false false (fun stopped intr => if intr then _ else if stopped then _ else _)) by done.
    unfold mbind at 1, M_bind at 1, call. cbn [target on_target current_core].
    rewrite (IH fuel) by (done || lia). done.
Qed.

(** ** What a stop reply says *)

(** [st] is the state of core [c]: reading it gives it, and neither reading it
    nor asking for the cause of a stop changes it. *)
Class ObservedCore {T} (D : Target T) (c : nat) (st : T -> CoreState) : Prop := {
  oc_state t : exists t', core_state D c t = (t', Ok (st t)) /\ st t' = st t;
  oc_cause t : st (fst (halt_cause D c t)) = st t;
  oc_hit t : st (fst (watchpoint_hit D c t)) = st t;
}.

(** Halting works. *)
Definition halts {T} (D : Target T) (c : nat) (st : T -> CoreState) : Prop :=
  forall t, exists t', halt D c t = (t', Ok tt) /\ running (st t') = false.

(** The replies that do not depend on the state having been read as stopped: no
    way to halt, a core that would not halt, an interrupt. *)
Definition hedged : list (list Z) := [lit "T05"; lit "T0b"; INTERRUPT_STOP_REPLY].

Section Truth.
Context {T : Type} (D : Target T) (c : nat) (st : T -> CoreState) `{!ObservedCore D c st}.
Implicit Types s : responder T.

Definition truthful (names : list Z -> list Z) (m : M T (list Z)) : Prop :=
  forall s s' r, current_core s = c -> m s = (s', Ok r) ->
    current_core s' = c
    /\ (running (st (target s')) = false \/ r ∈ names <$> hedged)
    /\ (halts D c st -> running (st (target s')) = false).

Lemma stop_cause_state s s' r :
  current_core s = c -> stop_cause D s = (s', r) -> current_core s' = c /\ st (target s') = st (target s).
Proof.
  intros Hc. unfold stop_cause, mbind, M_bind, try_except, fmap, M_fmap, on_core, call. rewrite Hc.
  pose proof (oc_cause (target s)) as H1. destruct (halt_cause D c (target s)) as [t1 [cause|e]].
  2: { destruct (not_implemented e); intros [= <- <-]; by rewrite <- H1. }
  destruct cause; try (intros [= <- <-]; by rewrite <- H1).
  cbn [current_core target].
  pose proof (oc_hit t1) as H2. rewrite ?Hc. destruct (watchpoint_hit D c t1) as [t2 [[[[k a] z]|]|e]]; cbn [fst] in *.
  - unfold lift. destruct (WATCH_STOP_TAG k); intros [= <- <-]; cbn [target current_core]; by rewrite <- H1, <- H2.
  - intros [= <- <-]. cbn [target current_core]. by rewrite <- H1, <- H2.
  - intros [= <- <-]. cbn [target current_core]. by rewrite <- H1, <- H2.
Qed.

Lemma stop_signal_truthful : truthful id (stop_signal D).
Proof.
  intros s s' r Hc. unfold stop_signal. unfold mbind at 1, M_bind at 1, try_except at 1, fmap at 1, M_fmap at 1, on_core at 1, call at 1.
  rewrite ?Hc. destruct (oc_state (target s)) as (t1&->&H1). cbv iota beta.
  destruct (running (st (target s))) eqn:Hrun.
  2: { intros E. apply stop_cause_state in E as [Hc' Hst]; [|done]. cbn [target] in Hst.
       rewrite Hst, H1. split; [done|]. split; [by left|done]. }
  unfold mbind at 1, M_bind at 1, try_except at 1, mbind at 1, M_bind at 1, fmap at 1, M_fmap at 1, on_core, call.
  cbn [current_core target no_ack_mode_requested flash_image]. rewrite ?Hc.
  destruct (halt D c t1) as [t2 [u|e]] eqn:Hh.
  - cbn [current_core target]. rewrite ?Hc. destruct (oc_state t2) as (t3&->&H3). cbv iota beta.
    destruct (running (st t2)) eqn:Hrun2.
    + intros [= <- <-]. cbn [target current_core]. split; [done|]. split; [right; right; left|].
      intros Hh'. destruct (Hh' t1) as (t'&E&Hr). congruence.
    + intros E. apply stop_cause_state in E as [Hc' Hst]; [|done]. cbn [target] in Hst.
      rewrite Hst, H3. split; [done|]. split; [by left|done].
  - destruct (not_implemented e); intros [= <- <-]. split; [done|]. split; [right; left|].
    intros Hh'. destruct (Hh' t1) as (t'&E&_). congruence.
Qed.

Lemma stop_reason_truthful : truthful (thread_stop_reply D c) (stop_reason D).
Proof.
  intros s s' r Hc. unfold stop_reason, mbind, M_bind. destruct (stop_signal D s) as [s1 [r1|e]] eqn:E; [|done].
  apply stop_signal_truthful in E as (Hc'&Ht&Hh); [|done].
  unfold thread_stop, with_core. intros [= <- <-]. rewrite Hc'. split; [done|]. split; [|done].
  destruct Ht as [Ht|Ht]; [by left|]. right. rewrite list_fmap_id in Ht. by apply list_elem_of_fmap_2.
Qed.

Lemma interrupt_truthful : truthful (thread_stop_reply D c) (_ ← on_core (halt D); thread_stop D INTERRUPT_STOP_REPLY).
Proof.
  intros s s' r Hc. unfold mbind, M_bind, on_core, call. rewrite ?Hc.
  destruct (halt D c (target s)) as [t1 [u|e]] eqn:Hh; [|done].
  unfold thread_stop, with_core. intros [= <- <-]. cbn [current_core target]. rewrite ?Hc. split; [done|]. split.
  - right. apply list_elem_of_fmap_2. right. right. left.
  - intros Hh'. destruct (Hh' (target s)) as (t'&E&Hr). congruence.
Qed.

Lemma wait_truthful n : truthful (thread_stop_reply D c) (wait_for_halt D n).
Proof.
  induction n as [|n IH]; intros s s' r Hc; [done|]. cbn [wait_for_halt].
  destruct (observe D (current_core s) (target s)) as [[t stopped] intr] eqn:Ho.
  rewrite (poll_observe D s t stopped intr (fun stopped intr => if intr then _ else if stopped then _ else _)) by done.
  destruct intr; [by apply interrupt_truthful|]. destruct stopped; [by apply stop_reason_truthful|].
  unfold mbind, M_bind, call. by apply IH.
Qed.
End Truth.

(** ** The commands *)

Definition continues (payload : list Z) : bool := bool_decide (head payload = Some 99) || bool_decide (payload = lit "vCont;c").
Definition steps (payload : list Z) : bool := bool_decide (head payload = Some 115) || bool_decide (payload = lit "vCont;s").
Definition asks (payload : list Z) : bool := bool_decide (head payload = Some 63).

Section Commands.
Context {T : Type} (D : Target T) (fuel : nat).

Lemma continues_spec payload : continues payload = true -> handle_packet D fuel payload = handle_c D fuel.
Proof.
  unfold continues. rewrite orb_true_iff, !bool_decide_eq_true. intros [H| ->]; [|done].
  destruct payload as [|x payload]; [done|]. by injection H as ->.
Qed.

Lemma steps_spec payload : steps payload = true -> handle_packet D fuel payload = handle_s D fuel.
Proof.
  unfold steps. rewrite orb_true_iff, !bool_decide_eq_true. intros [H| ->]; [|done].
  destruct payload as [|x payload]; [done|]. by injection H as ->.
Qed.

Lemma asks_spec payload : asks payload = true -> handle_packet D fuel payload = (Some <$> stop_reason D).
Proof.
  unfold asks. rewrite bool_decide_eq_true. intros H. destruct payload as [|x payload]; [done|]. by injection H as ->.
Qed.

(** A reply of a run command, and of the wait behind it. *)
Lemma run_truthful c st `{!ObservedCore D c st} (start : nat -> method T unit) s s' r :
  current_core s = c -> (_ ← on_core start; Some <$> wait_for_halt D fuel) s = (s', Ok r) ->
  (running (st (target s')) = false \/ exists h, h ∈ hedged /\ r = Some (thread_stop_reply D c h))
  /\ (halts D c st -> running (st (target s')) = false).
Proof.
  intros Hc. unfold mbind, M_bind, on_core, call, fmap, M_fmap.
  destruct (start (current_core s) (target s)) as [t1 [u|e]]; [|done].
  destruct (wait_for_halt D fuel _) as [s1 [r1|e]] eqn:E; [|done]. intros [= <- <-].
  apply (wait_truthful D c st) in E as (_&[Ht|Ht]&Hn); [by split; [left|]| |done].
  apply list_elem_of_fmap in Ht as (h&Hr&Hh). split; [right; exists h; by rewrite Hr|done].
Qed.
End Commands.

(** ** Theorems *)

(** C26: a stop reply is true.  When [?], continue or step is answered, the core
    has left the running and the sleeping state, unless the reply is one of the
    three that say otherwise (the target cannot halt, the core would not halt,
    an interrupt was forwarded); when halting works it has stopped in every
    case. *)
Theorem gdb_stop_reply_truthful {T} (D : Target T) c st `{!ObservedCore D c st} fuel payload s s' r :
  current_core s = c -> asks payload || continues payload || steps payload = true ->
  handle_packet D fuel payload s = (s', Ok r) ->
  (running (st (target s')) = false \/ exists h, h ∈ hedged /\ r = Some (thread_stop_reply D c h))
  /\ (halts D c st -> running (st (target s')) = false).
Proof.
  intros Hc Hp. apply orb_true_iff in Hp as [[Hp|Hp]%orb_true_iff|Hp].
  - rewrite asks_spec by done. unfold fmap, M_fmap.
    destruct (stop_reason D s) as [s1 [r1|e]] eqn:E; [|done]. intros [= <- <-].
    apply (stop_reason_truthful D c st) in E as (_&[Ht|Ht]&Hn); [by split; [left|]| |done].
    apply list_elem_of_fmap in Ht as (h&Hr&Hh). split; [right; exists h; by rewrite Hr|done].
  - rewrite continues_spec by done. by apply run_truthful.
  - rewrite steps_spec by done. by apply run_truthful.
Qed.

#[global] Instance sim_observed flash intr c : ObservedCore (sim_target flash intr) c sim_state.
Proof. split; intros t; [by exists t|done..]. Qed.

Lemma gdb_stop_reply_truthful_witness :
  let '(s', r) := handle_packet (sim_target None None) 9 (lit "c") sim_responder in
  r = Ok (Some (lit "T05thread:1;")) /\ running (sim_state (target s')) = false.
Proof.
  destruct (handle_packet (sim_target None None) 9 (lit "c") sim_responder) as [s' r] eqn:E.
  assert (r = Ok (Some (lit "T05thread:1;"))) as -> by (vm_compute in E |- *; congruence). split; [reflexivity|].
  apply (gdb_stop_reply_truthful (sim_target None None) 0 sim_state 9 (lit "c") sim_responder s'
    (Some (lit "T05thread:1;"))); [reflexivity|reflexivity|exact E|].
  intros t. by eexists.
Defined.


