(* ===== verification/GdbFlash.v ===== *)
(** * Downloading to flash under the debugger

    The [vFlash] packets of src/acrobe/target/gdb/protocol.py over the loadable
    of src/acrobe/target/loadable.py: the responder collects the written
    chunks, and [vFlashDone] hands them to [Loadable.write] with [do_erase].
    [FlashTarget] is the interface between the two; [flash_device] discharges
    it with the loadable of [Flash]. *)

From Stdlib Require Import Ascii String.
From S2P Require Import Prelude MemoryMap Flash PyText GdbPacket GdbResponder GdbDebugger.

Open Scope Z_scope.

(** ** The loadable behind the responder *)

(** [flash t] are the regions and the memory of the target: the target's
    [loadable.write(m, do_erase=True)] is that of the loadable. *)
Class FlashTarget {T} (D : Target T) (erased : Z) (program : Z -> Z -> Z)
    (flash : T -> list region * (Z -> Z)) (write : MemoryMap -> method T unit) : Prop := {
  ft_load : GdbResponder.load D = Some write;
  ft_write m t rs mem verified :
    Flash.load erased program (fst (flash t)) (snd (flash t)) m true false false = Ok (rs, mem, verified) ->
    exists t', write m t = (t', Ok tt) /\ flash t' = (rs, mem);
}.

(** ** The packets *)

Definition erase_packet (range : list Z) : list Z := lit "vFlashErase:" ++ range.
Definition write_packet (c : chunk) : list Z := lit "vFlashWrite:" ++ format_x (fst c) ++ 58 :: snd c.
Definition done_packet : list Z := lit "vFlashDone".

Definition with_image {T} (s : responder T) (l : list chunk) : responder T :=
  mkResponder (current_core s) (no_ack_mode_requested s) l (target s).

(** The memory afterwards: the image where there is a region, the rest of the
    flash erased. *)
Definition downloaded (erased : Z) (regions : list region) (cs : list chunk) (mem : Z -> Z) (x : Z) : Z :=
  if existsb (fun r => contains r x) regions then
    match byte_at cs x with
    | Some v => v
    | None => if existsb (fun r => is_flash r && contains r x) regions then erased else mem x
    end
  else mem x.

Lemma existsb_Exists {A} (f : A -> bool) l : existsb f l = true <-> Exists (fun x => f x = true) l.
Proof.
  rewrite existsb_exists, Exists_exists. split; intros (x&Hx&Hf); exists x; split; try done; by apply list_elem_of_In.
Qed.

Lemma serve_app {T} (D : Target T) fuel l1 l2 s :
  serve D fuel (l1 ++ l2) s
  = let '(s, r1) := serve D fuel l1 s in let '(s, r2) := serve D fuel l2 s in (s, r1 ++ r2).
Proof.
  revert s. induction l1 as [|p l1 IH]; intros s; cbn [app serve].
  { by destruct (serve D fuel l2 s). }
  destruct (handle_packet D fuel p s) as [s1 r]. rewrite IH. destruct (serve D fuel l1 s1) as [s2 r1].
  by destruct (serve D fuel l2 s2).
Qed.

Section Packets.
Context {T : Type} (D : Target T) (fuel : nat) (write : MemoryMap -> method T unit).
Hypothesis Hload : GdbResponder.load D = Some write.
Implicit Types s : responder T.

Lemma erase_reply range s :
  handle_packet D fuel (erase_packet range) s = (with_image s [], Ok (Some ok)).
Proof.
  change (handle_packet D fuel (erase_packet range) s) with (v_dispatch D fuel (erase_packet range) s).
  unfold v_dispatch, starts_with. rewrite bool_decide_eq_true_2 by done. unfold v_flash_erase. by rewrite Hload.
Qed.

Lemma write_reply c s :
  0 <= fst c -> handle_packet D fuel (write_packet c) s = (with_image s (flash_image s ++ [c]), Ok (Some ok)).
Proof.
  intros Hc. change (handle_packet D fuel (write_packet c) s) with (v_dispatch D fuel (write_packet c) s).
  unfold v_dispatch, starts_with. rewrite bool_decide_eq_false_2, bool_decide_eq_true_2 by done.
  unfold write_packet. rewrite slice_from_app by done. unfold v_flash_write. rewrite Hload.
  rewrite find_sep_app by (by apply format_x_no; [|lia]).
  rewrite slice_to_nonneg, Nat2Z.id, take_app_length by lia.
  replace (format_x (fst c) ++ 58 :: snd c) with ((format_x (fst c) ++ [58]) ++ snd c) by (by rewrite <- app_assoc).
  rewrite slice_from_app by (rewrite length_app; simpl length; lia). rewrite int_format_x by done. by destruct c.
Qed.

Lemma done_reply s t :
  write (mkMap (flash_image s) ∅ []) (target s) = (t, Ok tt) ->
  handle_packet D fuel done_packet s = (on_target (with_image s []) t, Ok (Some ok)).
Proof.
  intros E. change (handle_packet D fuel done_packet s) with (v_flash_done D s). unfold v_flash_done. rewrite Hload.
  unfold mbind, M_bind, get_image, set_image, call. cbn [target current_core no_ack_mode_requested flash_image].
  assert (forall cs m, foldl (fun m '(addr, data) => append m addr data) m cs
            = mkMap (chunks m ++ cs) (info m) (sources m)) as Hcollect.
  { induction cs as [|[a d] cs IH]; intros m; cbn [foldl]; [rewrite app_nil_r; by destruct m|].
    rewrite IH. unfold append. cbn [chunks info sources]. by rewrite <- app_assoc. }
  rewrite Hcollect. change (chunks empty_map ++ flash_image s) with (flash_image s).
  change (info empty_map) with (∅ : metadata). change (sources empty_map) with (@nil string). by rewrite E.
Qed.

Lemma serve_erases ranges s :
  ranges <> [] -> serve D fuel (erase_packet <$> ranges) s = (with_image s [], replicate (length ranges) (Ok (Some ok))).
Proof.
  destruct ranges as [|range ranges]; [done|]. intros _. revert range s.
  induction ranges as [|range' ranges IH]; intros range s; rewrite fmap_cons; cbn [serve]; rewrite erase_reply; [done|].
  by rewrite (IH range').
Qed.

Lemma serve_writes cs : Forall (fun c : chunk => 0 <= fst c) cs -> forall s,
  serve D fuel (write_packet <$> cs) s = (with_image s (flash_image s ++ cs), replicate (length cs) (Ok (Some ok))).
Proof.
  induction 1 as [|c cs Hc _ IH]; intros s.
  { rewrite app_nil_r. by destruct s. }
  rewrite fmap_cons. cbn [serve]. rewrite write_reply, IH by done. cbn [with_image flash_image].
  by rewrite <- app_assoc.
Qed.
End Packets.

Lemma flash_at_Exists regions x :
  existsb (fun r => is_flash r && contains r x) regions = true
  <-> Exists (fun r => is_flash r = true /\ contains r x = true) regions.
Proof.
  rewrite existsb_Exists, !Exists_exists.
  split; intros (r&Hr&Hx); exists r; by apply andb_true_iff in Hx || (split; [|apply andb_true_iff]).
Qed.

Lemma erase_all_byte erased regions mem x :
  (erase_all erased regions mem).2 x
  = if existsb (fun r => is_flash r && contains r x) regions then erased else mem x.
Proof.
  rewrite erase_all_spec. destruct (existsb _ regions) eqn:Ex.
  - by rewrite decide_True by by apply flash_at_Exists.
  - rewrite decide_False; [done|]. intros Hex%flash_at_Exists. congruence.
Qed.

(** Regions flagged blank are where they were. *)
Lemma region_at_blank regions x :
  match region_at (sort_by r_address (set_blank <$> regions)) x with
  | Some r' => existsb (fun r => contains r x) regions = true /\ exists r, r' = set_blank r
  | None => existsb (fun r => contains r x) regions = false
  end.
Proof.
  unfold region_at. set (p := fun r => contains r x = true).
  assert (forall r', r' ∈ filter p (sort_by r_address (set_blank <$> regions)) <->
            exists r, r' = set_blank r /\ r ∈ regions /\ contains r x = true) as Hf.
  { intros r'. rewrite list_elem_of_filter, sort_by_perm, list_elem_of_fmap. unfold p. split.
    - intros [Hx (r&->&Hr)]. rewrite set_blank_contains in Hx. by exists r.
    - intros (r&->&Hr&Hx). rewrite set_blank_contains. split; [done|]. by exists r. }
  destruct (filter p (sort_by r_address (set_blank <$> regions))) as [|r' l].
  - apply not_true_iff_false. intros (r&Hr&Hx)%existsb_Exists%Exists_exists.
    apply (elem_of_nil (set_blank r)), Hf. by exists r.
  - destruct (proj1 (Hf r')) as (r&->&Hr&Hx); [left|]. cbn [head]. split; [|by exists r].
    apply existsb_Exists, Exists_exists. by exists r.
Qed.

Section Download.
Context {T : Type} (D : Target T) (erased : Z) (program : Z -> Z -> Z)
  (flash : T -> list region * (Z -> Z)) (write : MemoryMap -> method T unit)
  `{!FlashCell erased program} `{!FlashTarget D erased program flash write} (fuel : nat).

(** What the loadable leaves in the memory. *)
Lemma erase_and_load regions mem cs :
  Forall region_ok regions -> laid_out (sort_by r_address regions) -> (forall x, is_byte (mem x)) ->
  Forall (fun c : chunk => bytes_ok (snd c)) cs -> consistent cs ->
  exists mem', Flash.load erased program regions mem (mkMap cs ∅ []) true false false
      = Ok (set_blank <$> regions, mem', true)
    /\ forall x, mem' x = downloaded erased regions cs mem x.
Proof.
  intros Hok Hlay Hmem Hcs Hcons.
  pose proof (load_spec (erased:=erased) (program:=program) regions mem (mkMap cs ∅ []) true false false
    Hok Hlay Hmem Hcs) as H. cbv zeta in H.
  change (pre_program erased regions mem true false) with (set_blank <$> regions, (erase_all erased regions mem).2) in H.
  destruct H as (mem'&E&Hspec&_).
  { apply Forall_forall. by intros r _ H. }
  exists mem'. split; [done|]. intros x. rewrite Hspec. unfold target_spec, downloaded.
  pose proof (region_at_blank regions x) as Hr. destruct (region_at _ x) as [r'|].
  - destruct Hr as [-> (r&->)]. unfold cell_spec. cbn [chunks simplified].
    rewrite simplified_byte by done. destruct (byte_at cs x) as [v|]; [done|]. rewrite <- erase_all_byte.
    unfold set_blank. by destruct (r_kind r) eqn:Ek; cbn [r_kind is_blank]; rewrite ?Ek.
  - rewrite Hr, erase_all_byte. destruct (existsb (fun r => is_flash r && contains r x) regions) eqn:Ex; [|done].
    apply flash_at_Exists, Exists_exists in Ex as (r&Hin&_&Hx).
    apply not_true_iff_false in Hr. destruct Hr. apply existsb_Exists, Exists_exists. by exists r.
Qed.

(** The whole download. *)
Lemma serve_download ranges cs s :
  let '(regions, mem) := flash (target s) in
  Forall region_ok regions -> laid_out (sort_by r_address regions) -> (forall x, is_byte (mem x)) ->
  Forall (fun c : chunk => 0 <= fst c /\ bytes_ok (snd c)) cs -> consistent cs -> ranges <> [] ->
  exists t mem', serve D fuel ((erase_packet <$> ranges) ++ (write_packet <$> cs) ++ [done_packet]) s
      = (on_target (with_image s []) t, replicate (length ranges + length cs + 1) (Ok (Some ok)))
    /\ flash t = (set_blank <$> regions, mem')
    /\ forall x, mem' x = downloaded erased regions cs mem x.
Proof.
  destruct (flash (target s)) as [regions mem] eqn:Efl. intros Hok Hlay Hmem Hcs Hcons Hne.
  apply Forall_and in Hcs as [Ha Hb].
  destruct (erase_and_load regions mem cs Hok Hlay Hmem Hb Hcons) as (mem'&El&Hm).
  destruct (ft_write (mkMap cs ∅ []) (target s) (set_blank <$> regions) mem' true) as (t&Ew&Ht);
    [by rewrite Efl|]. exists t, mem'. split; [|done].
  rewrite serve_app, (serve_erases D fuel write ft_load) by done.
  rewrite serve_app, (serve_writes D fuel write ft_load) by done. cbn [with_image flash_image app serve].
  rewrite (done_reply D fuel write ft_load _ t) by done.
  by rewrite !replicate_add, <- app_assoc.
Qed.
End Download.

(** ** A target that is a loadable *)

Section Device.
Context (erased : Z) (program : Z -> Z -> Z).

Definition device_write (m : MemoryMap) (t : list region * (Z -> Z)) : (list region * (Z -> Z)) * result unit :=
  match Flash.load erased program (fst t) (snd t) m true false false with
  | Ok (rs, mem, _) => ((rs, mem), Ok tt)
  | Err e => (t, Err e)
  end.

Definition flash_device : Target (list region * (Z -> Z)) := {|
  cores := 1;
  registers _ := [];
  little_endian _ := true;
  lookup_register _ _ := Err KeyError;
  reg_read _ _ := missing; reg_write _ _ := missing;
  core_state _ t := (t, Ok HALT); halt_cause _ t := (t, Ok C_DEBUGGER);
  halt _ t := (t, Ok tt); resume _ := missing; step_core _ := missing; reset _ := missing;
  breakpoint_add _ _ _ := missing; breakpoint_list _ := missing; breakpoint_remove _ _ := missing;
  watchpoint_add _ _ _ _ := missing; watchpoint_remove _ _ := missing; watchpoint_hit _ := missing;
  mem_read a n t := (t, Ok (read_bytes (snd t) a n));
  mem_write _ _ := missing;
  detach t := (t, Ok tt);
  monitor _ _ := missing;
  GdbResponder.load := Some device_write;
  interrupted := None;
  pause t := t;
  target_xml := lit "<target/>";
  memory_map_xml := None;
|}.

#[global] Instance flash_device_loads : FlashTarget flash_device erased program id device_write.
Proof.
  split; [done|]. intros m t rs mem verified E. exists (rs, mem). split; [|done].
  unfold device_write, id in *. by rewrite E.
Qed.
End Device.

(** ** Theorems *)

(** C25: a download reaches the flash.  Erase packets for any ranges, then write
    packets in any order whose data agree where they overlap, then the done
    packet: each is answered OK, and afterwards the target holds the data
    wherever there is a region, the rest of every flash region is erased and
    everything else is as before.  The responder keeps nothing of the image. *)
Theorem gdb_flash_download {T} (D : Target T) erased program flash write
    `{!FlashCell erased program} `{!FlashTarget D erased program flash write} fuel ranges cs s :
  let '(regions, mem) := flash (target s) in
  Forall region_ok regions -> laid_out (sort_by r_address regions) -> (forall x, is_byte (mem x)) ->
  Forall (fun c : chunk => 0 <= fst c /\ bytes_ok (snd c)) cs -> consistent cs -> ranges <> [] ->
  exists t mem', serve D fuel ((erase_packet <$> ranges) ++ (write_packet <$> cs) ++ [done_packet]) s
      = (on_target (with_image s []) t, replicate (length ranges + length cs + 1) (Ok (Some ok)))
    /\ flash t = (set_blank <$> regions, mem')
    /\ forall x, mem' x = downloaded erased regions cs mem x.
Proof. apply (serve_download D erased program flash write fuel). Qed.

(** Over a responder with a stale image; the written bytes contain a colon. *)
Definition flash_session : responder (list region * (Z -> Z)) :=
  mkResponder 0 false [(0, [1; 1])] ([new_flash 0x1000 64 16 [32]], fun _ => 0x55).

Lemma gdb_flash_download_witness :
  let packets := [lit "vFlashErase:1000,10"; lit "vFlashWrite:1000:a:"; lit "vFlashWrite:1012:b"; lit "vFlashDone"] in
  let '(s, replies) := serve (flash_device 255 Z.land) 0 packets flash_session in
  replies = replicate 4 (Ok (Some ok)) /\ read_bytes (snd (target s)) 0x1000 3 = [97; 58; 255]
  /\ snd (target s) 0x1012 = 98 /\ snd (target s) 0x103f = 255 /\ snd (target s) 0xfff = 0x55.
Proof.
  intros packets.
  destruct (gdb_flash_download (flash_device 255 Z.land) 255 Z.land id (device_write 255 Z.land) 0
    [lit "1000,10"] [(0x1000, lit "a:"); (0x1012, lit "b")] flash_session) as (t&mem'&E&Hf&Hm).
  - repeat constructor; try (vm_compute; congruence). exists 5. split; [lia|]. by split.
  - repeat constructor.
  - intros x. vm_compute. split; congruence.
  - repeat constructor; vm_compute; congruence.
  - intros c c' x v v' Hc Hc' Hv Hv'. apply chunk_byte_Some in Hv as B. apply chunk_byte_Some in Hv' as B'.
    apply list_elem_of_In in Hc as [<-|[<-|[]]], Hc' as [<-|[<-|[]]]; unfold chunk_end in *; simpl fst in *; simpl snd in *;
      simpl length in *; first [congruence|lia].
  - done.
  - change packets with ((erase_packet <$> [lit "1000,10"]) ++ (write_packet <$> [(0x1000, lit "a:"); (0x1012, lit "b")]) ++ [done_packet]).
    rewrite E. unfold id in Hf. cbn [target on_target]. rewrite Hf. cbn [snd]. split; [reflexivity|].
    unfold read_bytes. rewrite (list_fmap_ext _ _ _ (fun i x _ => Hm x)), !Hm. split_and!; reflexivity.
Defined.

(** A write packet whose address is not a number is not answered: the
    exception leaves the handler. *)
Theorem malformed_flash_write_raises {T} (D : Target T) fuel s write :
  GdbResponder.load D = Some write ->
  handle_packet D fuel (lit "vFlashWrite:zz:1") s = (s, Err ValueError).
Proof.
  intros Hl. change (handle_packet D fuel (lit "vFlashWrite:zz:1") s) with (v_flash_write D (lit "zz:1") s).
  unfold v_flash_write. by rewrite Hl.
Qed.

(** A second page of the same region, outside the range asked for, is erased. *)
Example erase_range_ignored :
  let '(s, _) := serve (flash_device 255 Z.land) 0
    [lit "vFlashErase:1000,10"; lit "vFlashWrite:1000:a"; lit "vFlashDone"] flash_session in
  snd (target flash_session) 0x1030 = 0x55 /\ snd (target s) 0x1030 = 255.
Proof. vm_compute. done. Qed.
