(* ===== verification/GdbServer.v ===== *)
(** * The GDB server session (src/acrobe/target/gdb/server.py)

    A session accumulates the bytes of a connection, cuts them into packets,
    hands these to the responder and frames the replies; while a continue or a
    step waits, the session is the responder's transport and watches for an
    interrupt.

    The session is part of the target the responder works on ([wired]).  The
    connection is the list of chunks it will deliver, one per read; while a core
    runs, one per poll, an empty one when nothing came.  The end of the list is
    the end of the stream.  [packet_ack] is the responder's field of that
    name. *)

From Stdlib Require Import Ascii String.
From S2P Require Import Prelude MemoryMap PyText GdbPacket GdbResponder GdbDebugger.

Open Scope Z_scope.

(** ** The connection *)

Record io := mkIo {
  buffer : list Z;
  arriving : list (list Z);
  output : list Z;
  packet_ack : bool;
}.

Definition set_buffer (c : io) (b : list Z) : io := mkIo b (arriving c) (output c) (packet_ack c).
Definition put (c : io) (l : list Z) : io := mkIo (buffer c) (arriving c) (output c ++ l) (packet_ack c).
Definition receive (c : io) (chunk : list Z) (rest : list (list Z)) : io :=
  mkIo (buffer c ++ chunk) rest (output c) (packet_ack c).

Definition INTERRUPT : Z := 3.

(** What stands at the head of the buffer. *)
Inductive head_of : Type :=
  | Nothing                                (* empty, or an incomplete packet *)
  | Byte (b : Z) (rest : list Z)           (* not the start of a packet *)
  | Framed (packet rest : list Z).

Definition next_item (b : list Z) : head_of :=
  match b with
  | [] => Nothing
  | c :: rest =>
      if negb (c =? PACKET_START) then Byte c rest
      else match find_sep PACKET_END b with
           | Err _ => Nothing
           | Ok e => if zlen b <=? e + 2 then Nothing
                     else Framed (slice_to b (e + 3)) (slice_from b (e + 3))
           end
  end.

(** [__send_response] *)
Definition send_response (c : io) (payload : list Z) : io := put c (frame payload).

Definition acknowledge (c : io) (a : string) : io := if packet_ack c then put c (lit a) else c.

(** [__parse_one_interrupt]; the fuel bounds the items of the buffer. *)
Fixpoint parse_one_interrupt (fuel : nat) (c : io) : io * result bool :=
  match fuel with
  | O => (c, Err OutOfFuel)
  | S fuel =>
      match next_item (buffer c) with
      | Nothing => (c, Ok false)
      | Byte b rest =>
          if b =? INTERRUPT then (set_buffer c rest, Ok true) else parse_one_interrupt fuel (set_buffer c rest)
      | Framed packet rest =>
          let c := set_buffer c rest in
          match parse packet with
          | None => parse_one_interrupt fuel (acknowledge c "-")
          | Some payload =>
              let c := acknowledge c "+" in
              if bool_decide (payload = lit "vCtrlC") then (send_response c (lit "OK"), Ok true)
              else parse_one_interrupt fuel c
          end
      end
  end.

(** [next_interrupt_byte], between two polls of the core. *)
Definition next_interrupt_byte (c : io) : io * result bool :=
  match parse_one_interrupt (S (length (buffer c))) c with
  | (c, Ok false) =>
      match arriving c with
      | [] => (c, Err ConnectionResetError)
      | chunk :: rest =>
          let c := receive c chunk rest in parse_one_interrupt (S (length (buffer c))) c
      end
  | r => r
  end.

(** ** The session as the transport of the responder *)

Definition up {T A} (f : method T A) : method (T * io) A := fun '(t, c) => let '(t, r) := f t in ((t, c), r).

Definition wired {T} (D : Target T) : Target (T * io) := {|
  cores := cores D;
  registers := registers D;
  little_endian := little_endian D;
  lookup_register := lookup_register D;
  reg_read c rs := up (reg_read D c rs);
  reg_write c ws := up (reg_write D c ws);
  core_state c := up (core_state D c);
  halt_cause c := up (halt_cause D c);
  halt c := up (halt D c);
  resume c := up (resume D c);
  step_core c := up (step_core D c);
  reset c := up (reset D c);
  breakpoint_add c a k := up (breakpoint_add D c a k);
  breakpoint_list c := up (breakpoint_list D c);
  breakpoint_remove c b := up (breakpoint_remove D c b);
  watchpoint_add c a n k := up (watchpoint_add D c a n k);
  watchpoint_remove c w := up (watchpoint_remove D c w);
  watchpoint_hit c := up (watchpoint_hit D c);
  mem_read a n := up (mem_read D a n);
  mem_write a d := up (mem_write D a d);
  detach := up (detach D);
  monitor h args := up (monitor D h args);
  load := match load D with None => None | Some write => Some (fun m => up (write m)) end;
  interrupted := Some (fun '(t, c) => let '(c, r) := next_interrupt_byte c in ((t, c), r));
  pause '(t, c) := (pause D t, c);
  target_xml := target_xml D;
  memory_map_xml := memory_map_xml D;
|}.

(** ** The session *)

Section Session.
Context {T : Type} (D : Target T) (fuel : nat).
Abbreviation S' := (responder (T * io)).

Definition conn (s : S') : io := snd (target s).
Definition with_conn (s : S') (c : io) : S' :=
  mkResponder (current_core s) (no_ack_mode_requested s) (flash_image s) (fst (target s), c).

Definition respond (s : S') (r : option (list Z)) : S' :=
  match r with Some payload => with_conn s (send_response (conn s) payload) | None => s end.

(** After a command, the switch of the acknowledge mode. *)
Definition switch_ack (s : S') : S' :=
  if no_ack_mode_requested s then
    let c := conn s in
    mkResponder (current_core s) false (flash_image s)
      (fst (target s), mkIo (buffer c) (arriving c) (output c) false)
  else s.

(** [__drain_buffer] *)
Fixpoint drain_buffer (n : nat) (s : S') : S' * result unit :=
  match n with
  | O => (s, Err OutOfFuel)
  | S n =>
      let c := conn s in
      match next_item (buffer c) with
      | Nothing => (s, Ok tt)
      | Byte b rest =>
          let s := with_conn s (set_buffer c rest) in
          if b =? INTERRUPT then
            match handle_interrupt (wired D) s with
            | (s, Err e) => (s, Err e)
            | (s, Ok r) => drain_buffer n (respond s r)
            end
          else drain_buffer n s
      | Framed packet rest =>
          let c := set_buffer c rest in
          match parse packet with
          | None => drain_buffer n (with_conn s (acknowledge c "-"))
          | Some payload =>
              match handle_packet (wired D) fuel payload (with_conn s (acknowledge c "+")) with
              | (s, Err e) => (s, Err e)
              | (s, Ok r) => drain_buffer n (switch_ack (respond s r))
              end
          end
      end
  end.

(** A bound on the items a drain can meet, those that arrive meanwhile included. *)
Definition pending (c : io) : nat := S (length (buffer c) + length (concat (arriving c))).

(** [serve]: read until the end of the stream. *)
Fixpoint serve_session (n : nat) (s : S') : S' * result unit :=
  match n with
  | O => (s, Err OutOfFuel)
  | S n =>
      match arriving (conn s) with
      | [] => (s, Ok tt)
      | chunk :: rest =>
          let s := with_conn s (receive (conn s) chunk rest) in
          match drain_buffer (pending (conn s)) s with
          | (s, Err ConnectionResetError) => (s, Ok tt)
          | (s, Err e) => (s, Err e)
          | (s, Ok _) => serve_session n s
          end
      end
  end.
End Session.

(** ** Commands that do not run a core leave the connection alone *)

Section Lifting.
Context {T : Type} (D : Target T) (fuel : nat).

(** The responder of a session over the responder of its target. *)
Definition embed (s : responder T) (c : io) : responder (T * io) :=
  mkResponder (current_core s) (no_ack_mode_requested s) (flash_image s) (target s, c).

(** [m'] does what [m] does, whatever the connection. *)
Definition lifts {A} (m : M T A) (m' : M (T * io) A) : Prop :=
  forall s c, m' (embed s c) = let '(s', r) := m s in (embed s' c, r).

Lemma lifts_ret {A} (a : A) : lifts (mret a) (mret a).
Proof. by intros s c. Qed.

Lemma lifts_lift {A} (r : result A) : lifts (lift r) (lift r).
Proof. by intros s c. Qed.

Lemma lifts_bind {A B} (m : M T A) m' (f : A -> M T B) f' :
  lifts m m' -> (forall a, lifts (f a) (f' a)) -> lifts (m ≫= f) (m' ≫= f').
Proof.
  intros Hm Hf s c. unfold mbind, M_bind. rewrite Hm. destruct (m s) as [s' [a|e]]; [apply Hf|done].
Qed.

Lemma lifts_fmap {A B} (f : A -> B) (m : M T A) m' : lifts m m' -> lifts (f <$> m) (f <$> m').
Proof. intros Hm s c. unfold fmap, M_fmap. rewrite Hm. by destruct (m s) as [s' [a|e]]. Qed.

Lemma lifts_try {A} (m : M T A) m' caught h h' :
  lifts m m' -> lifts h h' -> lifts (try_except m caught h) (try_except m' caught h').
Proof.
  intros Hm Hh s c. unfold try_except. rewrite Hm. destruct (m s) as [s' [a|e]]; [done|].
  destruct (caught e); [apply Hh|done].
Qed.

Lemma lifts_with_core {A} (f : nat -> M T A) f' : (forall n, lifts (f n) (f' n)) -> lifts (with_core f) (with_core f').
Proof. intros Hf s c. unfold with_core. apply Hf. Qed.

Lemma lifts_call {A} (f : method T A) : lifts (call f) (call (up f)).
Proof. intros s c. unfold call, up. cbn [target embed]. by destruct (f (target s)). Qed.

Lemma lifts_on_core {A} (f : nat -> method T A) : lifts (on_core f) (on_core (fun n => up (f n))).
Proof. intros s c. unfold on_core. apply lifts_call. Qed.

Lemma lifts_fields :
  lifts set_no_ack set_no_ack /\ (forall l, lifts (set_image l) (set_image l)) /\ lifts get_image get_image
  /\ forall n, lifts (set_core n) (set_core n).
Proof. split_and!; by intros. Qed.
End Lifting.

(** Follows the common structure of two handlers. *)
Ltac lifts_step :=
  lazymatch goal with
  | |- lifts (say _) _ => apply lifts_ret
  | |- lifts no_reply _ => apply lifts_ret
  | |- lifts (mret _) _ => apply lifts_ret
  | |- lifts (lift _) _ => apply lifts_lift
  | |- lifts (mbind _ _) _ => apply lifts_bind; [|intros ?]
  | |- lifts (fmap _ _) _ => apply lifts_fmap
  | |- lifts (try_except _ _ _) _ => apply lifts_try
  | |- lifts (with_core _) _ => apply lifts_with_core; intros ?
  | |- lifts (call _) _ => apply lifts_call
  | |- lifts (on_core ?f) _ => apply (lifts_on_core f)
  | |- lifts (match ?x with _ => _ end) _ => destruct x eqn:?
  end.

Ltac lifts_tac := repeat (lifts_step || eassumption || match goal with H : forall _, lifts _ _ |- _ => apply H end).

Section Quiet.
Context {T : Type} (D : Target T) (fuel : nat).

(** Not a continue or a step. *)
Definition quiet (payload : list Z) : bool :=
  negb (bool_decide (head payload = Some 99) || bool_decide (head payload = Some 115)
        || starts_with (lit "vCont") payload).

Lemma lifts_thread_stop r : lifts (thread_stop D r) (thread_stop (wired D) r).
Proof. unfold thread_stop. lifts_tac. Qed.

Lemma lifts_stop_reason : lifts (stop_reason D) (stop_reason (wired D)).
Proof.
  pose proof lifts_thread_stop. unfold stop_reason, stop_signal, stop_cause. lifts_tac.
Qed.

Lemma lifts_interrupt : lifts (handle_interrupt D) (handle_interrupt (wired D)).
Proof. pose proof lifts_thread_stop. unfold handle_interrupt. lifts_tac. Qed.

Lemma lifts_handle_packet payload :
  quiet payload = true -> lifts (handle_packet D fuel payload) (handle_packet (wired D) fuel payload).
Proof.
  unfold quiet. rewrite negb_true_iff, !orb_false_iff. intros [[Hc Hs] Hv].
  pose proof lifts_stop_reason. destruct (@lifts_fields T) as (?&?&?&?).
  destruct payload as [|x payload]; [apply lifts_ret|].
  apply bool_decide_eq_false in Hc, Hs.
  assert ((x =? 99) = false) as Hc' by (apply Z.eqb_neq; intros ->; by apply Hc).
  assert ((x =? 115) = false) as Hs' by (apply Z.eqb_neq; intros ->; by apply Hs).
  unfold handle_packet, v_dispatch. cbv beta zeta. rewrite Hc', Hs', Hv.
  unfold q_dispatch, q_qSupported, q_QStartNoAckMode, q_qXfer, q_qfThreadInfo, q_qC, q_qRcmd,
    v_flash_erase, v_flash_write, v_flash_done, handle_H, handle_T,
    handle_g, handle_G, handle_p, handle_P, handle_m, handle_M, handle_X, write_memory,
    handle_breakpoint, breakpoint_op, g_registers.
  cbn [wired cores registers little_endian lookup_register load memory_map_xml target_xml].
  cbv beta zeta. lifts_tac.
Qed.
End Quiet.

(** ** What a client sends *)

Inductive item : Type :=
  | Stray (b : Z)                          (* an acknowledge, or a byte between packets *)
  | CtrlC
  | Command (payload : list Z)
  | Garbled (body : list Z) (n : Z).       (* a packet whose checksum is wrong *)

Definition item_ok (i : item) : Prop :=
  match i with
  | Stray b => b <> PACKET_START /\ b <> INTERRUPT
  | CtrlC => True
  | Command payload => quiet payload = true
  | Garbled body n => Forall (fun x => x <> PACKET_END) body /\ 0 <= n < 256 /\ n <> Z.land (sum_bytes body) 0xff
  end.

Definition wire (i : item) : list Z :=
  match i with
  | Stray b => [b]
  | CtrlC => [INTERRUPT]
  | Command payload => frame payload
  | Garbled body n => packet body n
  end.

(** The session, item by item, on the responder of the target: the responder,
    the acknowledge mode and the bytes sent. *)
Definition framed (r : option (list Z)) : list Z := match r with Some payload => frame payload | None => [] end.

Section Spec.
Context {T : Type} (D : Target T) (fuel : nat).

Definition item_spec (s : responder T) (ack : bool) (i : item) : responder T * bool * list Z * result unit :=
  match i with
  | Stray _ => (s, ack, [], Ok tt)
  | CtrlC =>
      match handle_interrupt D s with
      | (s, Ok r) => (s, ack, framed r, Ok tt)
      | (s, Err e) => (s, ack, [], Err e)
      end
  | Command payload =>
      let a := if ack then lit "+" else [] in
      match handle_packet D fuel payload s with
      | (s, Ok r) =>
          if no_ack_mode_requested s
          then (mkResponder (current_core s) false (flash_image s) (target s), false, a ++ framed r, Ok tt)
          else (s, ack, a ++ framed r, Ok tt)
      | (s, Err e) => (s, ack, a, Err e)
      end
  | Garbled _ _ => (s, ack, if ack then lit "-" else [], Ok tt)
  end.

Fixpoint session_spec (s : responder T) (ack : bool) (items : list item) : responder T * bool * list Z * result unit :=
  match items with
  | [] => (s, ack, [], Ok tt)
  | i :: items =>
      match item_spec s ack i with
      | (s, ack, out, Ok _) => let '(s, ack, out', r) := session_spec s ack items in (s, ack, out ++ out', r)
      | (s, ack, out, Err e) => (s, ack, out, Err e)
      end
  end.
End Spec.

(** ** Cutting the stream into items *)

Lemma find_sep_none sep l : Forall (fun x => x <> sep) l -> find_sep sep l = Err ValueError.
Proof.
  intros H. unfold find_sep. rewrite (proj2 (list_find_None _ l)); [done|].
  eapply Forall_impl; [exact H|]. done.
Qed.

Lemma next_packet body n rest :
  Forall (fun x => x <> PACKET_END) body -> next_item (packet body n ++ rest) = Framed (packet body n) rest.
Proof.
  intros Hb. unfold packet. set (tail := [hex_lower (n / 16); hex_lower (n mod 16)]).
  change ((PACKET_START :: body ++ PACKET_END :: tail) ++ rest) with (PACKET_START :: ((body ++ PACKET_END :: tail) ++ rest)).
  cbn [next_item]. rewrite Z.eqb_refl. cbn [negb].
  assert (PACKET_START :: ((body ++ PACKET_END :: tail) ++ rest) = (PACKET_START :: body) ++ PACKET_END :: tail ++ rest) as Eq
    by (by rewrite <- app_assoc).
  rewrite Eq, find_sep_app by (by constructor).
  assert (zlen tail = 2) as Ht by done.
  destruct (Z.leb_spec (zlen ((PACKET_START :: body) ++ PACKET_END :: tail ++ rest)) (zlen (PACKET_START :: body) + 2)) as [Hle|_].
  { exfalso. rewrite length_app in Hle. cbn [length] in Hle. rewrite length_app in Hle. lia. }
  replace ((PACKET_START :: body) ++ PACKET_END :: tail ++ rest) with (((PACKET_START :: body) ++ PACKET_END :: tail) ++ rest)
    by (by rewrite <- app_assoc).
  assert (zlen (PACKET_START :: body) + 3 = zlen ((PACKET_START :: body) ++ PACKET_END :: tail)) as El
    by (rewrite length_app; cbn [length]; lia).
  rewrite slice_from_app by done. rewrite El, slice_to_nonneg, Nat2Z.id, take_app_length by lia. done.
Qed.

Definition classified (i : item) (rest : list Z) : head_of :=
  match i with
  | Stray b => Byte b rest
  | CtrlC => Byte INTERRUPT rest
  | _ => Framed (wire i) rest
  end.

Lemma next_wire i rest : item_ok i -> next_item (wire i ++ rest) = classified i rest.
Proof.
  destruct i as [b| |payload|body n]; cbn [item_ok wire classified].
  - intros [H _]. cbn [app next_item]. by rewrite (proj2 (Z.eqb_neq _ _) H).
  - done.
  - intros _. destruct (frame_packet payload) as [E H]. rewrite E. by apply next_packet.
  - intros (H&_). by apply next_packet.
Qed.

(** A part of a packet is not an item yet. *)
Lemma next_partial body n b rest :
  Forall (fun x => x <> PACKET_END) body -> packet body n = b ++ rest -> rest <> [] -> next_item b = Nothing.
Proof.
  intros Hb E Hr. destruct b as [|c b]; [done|]. unfold packet in E. cbn [app] in E. injection E as <- E.
  cbn [next_item]. rewrite Z.eqb_refl. cbn [negb].
  apply app_eq_app in E as (k&[[-> ->]|[Eb Ek]]).
  - apply Forall_app in Hb as [Hb _]. by rewrite find_sep_none by (by constructor).
  - subst b. destruct k as [|x k]; [rewrite app_nil_r; by rewrite find_sep_none by (by constructor)|].
    cbn [app] in Ek. injection Ek as <- Ek.
    change (PACKET_START :: body ++ PACKET_END :: k) with ((PACKET_START :: body) ++ PACKET_END :: k).
    rewrite find_sep_app by (by constructor).
    assert (length k < 2)%nat as Hk.
    { apply (f_equal length) in Ek. rewrite length_app in Ek. cbn [length] in Ek. destruct rest; [done|].
      cbn [length] in Ek. lia. }
    destruct (Z.leb_spec (zlen ((PACKET_START :: body) ++ PACKET_END :: k)) (zlen (PACKET_START :: body) + 2)) as [_|Hle]; [done|].
    exfalso. rewrite length_app in Hle. cbn [length] in Hle. lia.
Qed.

Lemma wire_partial i b rest : item_ok i -> wire i = b ++ rest -> rest <> [] -> next_item b = Nothing.
Proof.
  destruct i as [c| |payload|body n]; cbn [item_ok wire]; intros Hi E Hr.
  - destruct b as [|x [|y b]]; [done|by destruct rest|done].
  - destruct b as [|x [|y b]]; [done|by destruct rest|done].
  - destruct (frame_packet payload) as [Ef H]. rewrite Ef in E. by eapply next_partial.
  - by eapply next_partial; [apply Hi|..].
Qed.

(** An item leaves the buffer shorter, so that the watch for an interrupt ends. *)
Lemma next_item_shorter b :
  match next_item b with
  | Nothing => True
  | Byte _ rest | Framed _ rest => (length rest < length b)%nat
  end.
Proof.
  unfold next_item. destruct b as [|c b]; [done|]. destruct (negb (c =? PACKET_START)); [simpl; lia|].
  destruct (find_sep PACKET_END (c :: b)) as [e|] eqn:E; [|done].
  assert (0 <= e) by (unfold find_sep in E; destruct (list_find _ _) as [[i x]|]; [injection E as <-; lia|done]).
  destruct (zlen (c :: b) <=? e + 2); [done|]. rewrite slice_from_nonneg, length_drop by lia. simpl length. lia.
Qed.

Lemma parse_one_interrupt_ends fuel : forall c,
  (length (buffer c) < fuel)%nat -> exists c' b, parse_one_interrupt fuel c = (c', Ok b).
Proof.
  induction fuel as [|fuel IH]; intros c Hf; [lia|]. cbn [parse_one_interrupt].
  pose proof (next_item_shorter (buffer c)) as Hn. destruct (next_item (buffer c)) as [|b rest|packet rest].
  - by eexists _, _.
  - destruct (b =? INTERRUPT); [by eexists _, _|]. apply IH. cbn [buffer set_buffer]. lia.
  - assert (forall a, buffer (acknowledge (set_buffer c rest) a) = rest) as Ha
      by (intros a; unfold acknowledge; by destruct (packet_ack _)).
    destruct (parse packet) as [payload|]; [case_bool_decide; [by eexists _, _|]|]; apply IH; rewrite Ha; lia.
Qed.

Abbreviation stream items := (concat (wire <$> (items : list item))).

(** However far the bytes have come, they are some whole items and a part that
    is not an item yet. *)
Lemma split_stream items : Forall item_ok items -> forall b rest, stream items = b ++ rest ->
  exists items1 items2 part, items = items1 ++ items2 /\ b = stream items1 ++ part
    /\ next_item part = Nothing /\ stream items2 = part ++ rest.
Proof.
  induction 1 as [|i items Hi _ IH]; intros b rest E.
  { symmetry in E. apply app_nil in E as [-> ->]. by exists [], [], []. }
  rewrite fmap_cons in E. cbn [concat] in E. apply app_eq_app in E as (k&[[Ew Er]|[-> E]]).
  - destruct k as [|x k].
    + rewrite app_nil_r in Ew. subst b. cbn [app] in Er. exists [i], items, []. split_and!; [done| |done|done].
      cbn. by rewrite !app_nil_r.
    + exists [], (i :: items), b. split_and!; [done|done|by eapply wire_partial|].
      rewrite fmap_cons. cbn [concat]. by rewrite Ew, Er, <- app_assoc.
  - destruct (IH k rest E) as (items1&items2&part&->&->&Hp&E2). exists (i :: items1), items2, part.
    split_and!; [done| |done|done]. rewrite fmap_cons. cbn [concat]. by rewrite <- app_assoc.
Qed.

Lemma wire_length i : (1 <= length (wire i))%nat.
Proof. destruct i; cbn; lia. Qed.

Lemma stream_length items : (length items <= length (stream items))%nat.
Proof.
  induction items as [|i items IH]; [done|]. rewrite fmap_cons. cbn [concat length]. rewrite length_app.
  pose proof (wire_length i). lia.
Qed.

(** ** The session follows its specification *)

Section SessionProofs.
Context {T : Type} (D : Target T) (fuel : nat).
Implicit Types s : responder T.

(** One item at the head of the buffer. *)
Lemma drain_item i s ack arr out part n :
  item_ok i ->
  drain_buffer D fuel (S n) (embed s (mkIo (wire i ++ part) arr out ack))
  = match item_spec D fuel s ack i with
    | (s', ack', o, Ok _) => drain_buffer D fuel n (embed s' (mkIo part arr (out ++ o) ack'))
    | (s', ack', o, Err e) => (embed s' (mkIo part arr (out ++ o) ack'), Err e)
    end.
Proof.
  intros Hi. cbn [drain_buffer]. unfold conn at 1. cbn [embed target snd buffer].
  rewrite next_wire by done. unfold conn, with_conn. cbn [embed target fst snd].
  destruct i as [b| |payload|body m]; cbn [item_spec classified wire].
  - destruct Hi as [_ Hb]. rewrite (proj2 (Z.eqb_neq _ _) Hb). by rewrite app_nil_r.
  - rewrite Z.eqb_refl. change (mkResponder ?a ?b ?c (target s, ?d)) with (embed s d). rewrite lifts_interrupt.
    destruct (handle_interrupt D s) as [s' [[r|]|e]]; cbn [respond framed]; by rewrite ?app_nil_r.
  - rewrite parse_framed. change (mkResponder ?a ?b ?c (target s, ?d)) with (embed s d).
    rewrite (lifts_handle_packet D fuel payload Hi).
    assert (acknowledge (set_buffer (mkIo (frame payload ++ part) arr out ack) part) "+"
            = mkIo part arr (out ++ if ack then lit "+" else []) ack) as ->
      by (destruct ack; unfold acknowledge, set_buffer; cbn; by rewrite ?app_nil_r).
    destruct (handle_packet D fuel payload s) as [s' [r|e]]; [|done].
    unfold switch_ack, respond, with_conn, conn, send_response.
    destruct r as [r|]; cbn [framed embed no_ack_mode_requested target snd fst put];
      destruct (no_ack_mode_requested s') eqn:En; cbn [buffer arriving output packet_ack current_core flash_image];
      rewrite ?app_nil_r, ?app_assoc; unfold embed, put; cbn; rewrite ?En; by rewrite ?app_assoc.
  - destruct Hi as (Hb&Hm&Hne). rewrite parse_packet by done. rewrite (proj2 (Z.eqb_neq _ _) Hne).
    unfold acknowledge, set_buffer. cbn [packet_ack]. destruct ack; cbn [put]; unfold put, embed; cbn; by rewrite ?app_nil_r.
Qed.

Lemma drain_items items : Forall item_ok items -> forall s ack arr out part n,
  next_item part = Nothing -> (length items < n)%nat ->
  let '(s', ack', o, r) := session_spec D fuel s ack items in
  exists left, drain_buffer D fuel n (embed s (mkIo (stream items ++ part) arr out ack))
      = (embed s' (mkIo left arr (out ++ o) ack'), r)
    /\ (r = Ok tt -> left = part).
Proof.
  induction 1 as [|i items Hi _ IH]; intros s ack arr out part n Hp Hn; (destruct n as [|n]; [cbn [length] in Hn; lia|]).
  - cbn [session_spec fmap list_fmap concat app]. exists part. split; [|done].
    cbn [drain_buffer]. unfold conn. cbn [embed target snd buffer]. by rewrite Hp, app_nil_r.
  - cbn [session_spec]. rewrite fmap_cons. cbn [concat]. rewrite <- app_assoc.
    rewrite drain_item by done. destruct (item_spec D fuel s ack i) as [[[s1 ack1] o1] [u|e]]; [|by eexists].
    cbn [length] in Hn. specialize (IH s1 ack1 arr (out ++ o1) part n Hp ltac:(lia)).
    destruct (session_spec D fuel s1 ack1 items) as [[[s2 ack2] o2] r]. by rewrite <- app_assoc in IH.
Qed.

(** How [serve] ends: a lost connection is a normal end. *)
Definition ends (r : result unit) : result unit :=
  match r with Err ConnectionResetError => Ok tt | _ => r end.

Lemma session_spec_app items1 items2 s ack :
  session_spec D fuel s ack (items1 ++ items2) =
  match session_spec D fuel s ack items1 with
  | (s, ack, out, Ok _) => let '(s, ack, out', r) := session_spec D fuel s ack items2 in (s, ack, out ++ out', r)
  | (s, ack, out, Err e) => (s, ack, out, Err e)
  end.
Proof.
  revert s ack. induction items1 as [|i items1 IH]; intros s ack.
  { cbn [app session_spec]. by destruct (session_spec D fuel s ack items2) as [[[??]?]?]. }
  cbn [app session_spec]. destruct (item_spec D fuel s ack i) as [[[s1 ack1] o1] [u|e]]; [|done]. rewrite IH.
  destruct (session_spec D fuel s1 ack1 items1) as [[[s2 ack2] o2] [u2|e]]; [|done].
  destruct (session_spec D fuel s2 ack2 items2) as [[[s3 ack3] o3] r3]. by rewrite app_assoc.
Qed.

Lemma nothing_left items part : Forall item_ok items -> next_item part = Nothing -> part = stream items -> items = [].
Proof.
  intros [|i items' Hi _]; [done|]. rewrite fmap_cons. cbn [concat]. intros Hp ->.
  rewrite next_wire in Hp by done. by destruct i.
Qed.

Lemma serve_step s part chunk chunks out ack n :
  let c := mkIo (part ++ chunk) chunks out ack in
  serve_session D fuel (S n) (embed s (mkIo part (chunk :: chunks) out ack))
  = match drain_buffer D fuel (pending c) (embed s c) with
    | (s, Err ConnectionResetError) => (s, Ok tt)
    | (s, Err e) => (s, Err e)
    | (s, Ok _) => serve_session D fuel n s
    end.
Proof. done. Qed.

Lemma serve_chunks chunks : forall items part s ack out n,
  Forall item_ok items -> next_item part = Nothing -> part ++ concat chunks = stream items -> (length chunks < n)%nat ->
  let '(s', ack', o, r) := session_spec D fuel s ack items in
  exists c, serve_session D fuel n (embed s (mkIo part chunks out ack)) = (embed s' c, ends r)
    /\ output c = out ++ o /\ packet_ack c = ack'.
Proof.
  induction chunks as [|chunk chunks IH]; intros items part s ack out n Hok Hp E Hn;
    (destruct n as [|n]; [cbn [length] in Hn; lia|]).
  - cbn [concat] in E. rewrite app_nil_r in E. rewrite (nothing_left items part Hok Hp E).
    cbn [session_spec serve_session]. unfold conn. cbn. eexists. split; [done|]. cbn. by rewrite app_nil_r.
  - cbn [concat] in E. rewrite app_assoc in E. symmetry in E.
    destruct (split_stream items Hok _ _ E) as (items1&items2&part'&->&Eb&Hp'&E2).
    apply Forall_app in Hok as [Hok1 Hok2]. rewrite session_spec_app.
    rewrite serve_step, Eb.
    pose proof (drain_items items1 Hok1 s ack chunks out part'
      (pending (mkIo (stream items1 ++ part') chunks out ack)) Hp') as Hd.
    destruct (session_spec D fuel s ack items1) as [[[s1 ack1] o1] r1].
    destruct Hd as (left&Hd&Hleft).
    { unfold pending. cbn [buffer]. rewrite length_app. pose proof (stream_length items1). lia. }
    rewrite Hd.
    destruct r1 as [[]|e]; [|eexists; split; [by destruct e|done]].
    rewrite Hleft by done. cbn [length] in Hn.
    specialize (IH items2 part' s1 ack1 (out ++ o1) n Hok2 Hp' (eq_sym E2) ltac:(lia)).
    destruct (session_spec D fuel s1 ack1 items2) as [[[s2 ack2] o2] r2].
    destruct IH as (c&Hc&Ho&Ha). exists c. split_and!; [done|by rewrite app_assoc|done].
Qed.
End SessionProofs.

(** ** Theorems *)

(** C14: a session is the sequence of its items.  However the connection cuts
    the stream into chunks, the packets in it are served once each and in order;
    each is acknowledged until that mode is switched off, which takes effect
    after the reply that switches it; a packet with a wrong checksum is refused
    and changes nothing; interrupts are served where they stand, and other bytes
    between packets are skipped.  The commands are those that do not run a
    core. *)
Theorem gdb_session_serves_stream {T} (D : Target T) fuel chunks items s ack :
  Forall item_ok items -> concat chunks = concat (wire <$> items) ->
  let '(s', ack', out, r) := session_spec D fuel s ack items in
  exists c, serve_session D fuel (S (length chunks)) (embed s (mkIo [] chunks [] ack)) = (embed s' c, ends r)
    /\ output c = out /\ packet_ack c = ack'.
Proof. intros Hok E. apply (serve_chunks D fuel chunks items [] s ack []); [done|done|done|lia]. Qed.

(** A no-ack request between two reads of the thread, cut inside both packets,
    with an acknowledge and a refused packet between them. *)
Definition sample_items : list item :=
  [Command (lit "QStartNoAckMode"); Stray 43; Garbled (lit "qC") 0; Command (lit "Hg2"); CtrlC; Command (lit "qC")].

Definition sample_chunks : list (list Z) :=
  let b := concat (wire <$> sample_items) in [take 7 b; []; take 20 (drop 7 b); drop 27 b].

Lemma gdb_session_serves_stream_witness :
  exists s' c, serve_session (sim_target None None) 0 5 (embed sim_responder (mkIo [] sample_chunks [] true))
      = (embed s' c, Ok tt)
    /\ output c = lit "+" ++ frame (lit "OK") ++ frame (lit "OK") ++ frame (lit "T02thread:2;") ++ frame (lit "QC2")
    /\ packet_ack c = false.
Proof.
  assert (Forall item_ok sample_items) as Hok.
  { repeat constructor; try done; vm_compute; congruence. }
  pose proof (gdb_session_serves_stream (sim_target None None) 0 sample_chunks sample_items sim_responder true Hok
    ltac:(vm_compute; reflexivity)) as H.
  destruct (session_spec (sim_target None None) 0 sim_responder true sample_items) as [[[s' ack'] out] r] eqn:E.
  destruct H as (c&Hc&Ho&Ha). exists s', c. change (S (length sample_chunks)) with 5%nat in Hc. rewrite Hc, Ho, Ha.
  assert (r = Ok tt) as -> by (vm_compute in E; congruence).
  assert (ack' = false) as -> by (vm_compute in E; congruence).
  assert (out = lit "+" ++ frame (lit "OK") ++ frame (lit "OK") ++ frame (lit "T02thread:2;") ++ frame (lit "QC2")) as ->
    by (vm_compute in E |- *; congruence).
  split_and!; reflexivity.
Defined.

(** An interrupt that arrives while a core runs halts it: the byte comes two
    polls after the command, in the middle of acknowledges. *)
Example interrupt_while_running :
  let '(s, r) := serve_session (sim_target None None) 9 5
    (embed (mkResponder 0 false [] (mkSim (fun x => x) [] HALT 100))
       (mkIo [] [frame (lit "c"); []; [43]; [43; INTERRUPT]] [] true)) in
  r = Ok tt /\ output (snd (target s)) = lit "+" ++ frame (lit "T02thread:1;") /\ sim_state (fst (target s)) = HALT.
Proof. vm_compute. done. Qed.
