(* ===== verification/GdbXml.v ===== *)
(** * The documents of the GDB responder (src/acrobe/target/gdb/protocol.py)

    [__build_target_xml] and [__build_memory_map_xml]: what the target
    description and the memory map say, and the text [ElementTree] makes of
    them. *)

From Stdlib Require Import Ascii String.
From S2P Require Import Prelude MemoryMap Flash PyText GdbPacket GdbResponder.

Open Scope Z_scope.

(** ** Elements and their text *)

Inductive element : Type :=
  El (tag : list Z) (attrs : list (list Z * list Z)) (text : list Z) (children : list element).

(** Escaping, for character data and for attribute values. *)
Definition escape_cdata_char (c : Z) : list Z :=
  if c =? 38 then lit "&amp;" else if c =? 60 then lit "&lt;" else if c =? 62 then lit "&gt;" else [c].

Definition escape_attrib_char (c : Z) : list Z :=
  if c =? 34 then lit "&quot;" else if c =? 13 then lit "&#13;" else if c =? 10 then lit "&#10;"
  else if c =? 9 then lit "&#09;" else escape_cdata_char c.

(** The encoding is ASCII; other characters become references. *)
Definition ascii_char (c : Z) : list Z := if c <? 128 then [c] else lit "&#" ++ format_d c ++ lit ";".

Definition cdata (text : list Z) : list Z := (text ≫= escape_cdata_char) ≫= ascii_char.
Definition attrib (text : list Z) : list Z := (text ≫= escape_attrib_char) ≫= ascii_char.

Definition attribute (a : list Z * list Z) : list Z :=
  lit " " ++ fst a ++ [61; 34] ++ attrib (snd a) ++ [34].

(** [et.tostring] *)
Fixpoint tostring (e : element) : list Z :=
  match e with
  | El tag attrs text children =>
      lit "<" ++ tag ++ (attrs ≫= attribute)
      ++ match text, children with
         | [], [] => lit " />"
         | _, _ => lit ">" ++ cdata text ++ (children ≫= tostring) ++ lit "</" ++ tag ++ lit ">"
         end
  end.

(** ** The target description *)

Definition REGTYPE_MAP (t : RegisterType) : list Z :=
  match t with
  | GPR => lit "int"
  | FLOAT => lit "float"
  | DOUBLE => lit "ieee_double"
  | PC | LR => lit "code_ptr"
  | SP => lit "data_ptr"
  | SYSTEM => lit "int"
  end.

(** What a core says of itself. *)
Record core_info := mkCore {
  core_registers : list Register;
  gdb_feature_name : list Z;
  gdb_empty_features : list (list Z);
}.

(** A dict from feature names to registers, in order of insertion. *)
Abbreviation features := (list (list Z * list Register)).

Definition setdefault (d : features) (feat : list Z) : features :=
  if bool_decide (feat ∈ d.*1) then d else d ++ [(feat, [])].

(** [if r not in regs: regs.append(r)] *)
Definition add_first (regs : list Register) (r : Register) : list Register :=
  if bool_decide (r ∈ regs) then regs else regs ++ [r].

Fixpoint append_at (d : features) (feat : list Z) (r : Register) : features :=
  match d with
  | [] => []
  | (f, regs) :: d => if bool_decide (f = feat) then (f, add_first regs r) :: d else (f, regs) :: append_at d feat r
  end.

Definition add_register (d : features) (feat : list Z) (r : Register) : features :=
  append_at (setdefault d feat) feat r.

(** [a or b] of strings that may be missing *)
Definition py_or (a b : list Z) : list Z := match a with [] => b | _ => a end.

Definition feature_of (c : core_info) (r : Register) : list Z :=
  py_or (default [] (gdb_feature r)) (py_or (gdb_feature_name c) (lit "org.gnu.gdb.generic")).

Definition collect_core (d : features) (c : core_info) : features :=
  let d := foldl (fun d r => if gdb_visible r then add_register d (feature_of c r) r else d) d (core_registers c) in
  foldl setdefault d (gdb_empty_features c).

Definition by_feature (cs : list core_info) : features := foldl collect_core [] cs.

Definition reg_element (r : Register) : element :=
  El (lit "reg")
    [(lit "name", reg_name r); (lit "bitsize", format_d (width r)); (lit "regnum", format_d (number r));
     (lit "type", REGTYPE_MAP (datatype r)); (lit "group", group r)] [] [].

Definition build_target_xml (cs : list core_info) : list Z :=
  lit "<?xml version=" ++ [34] ++ lit "1.0" ++ [34] ++ lit "?><!DOCTYPE target SYSTEM " ++ [34] ++ lit "gdb-target.dtd"
  ++ [34] ++ lit ">"
  ++ tostring (El (lit "target") [] []
       ((fun '(name, regs) => El (lit "feature") [(lit "name", name)] [] (reg_element <$> (regs : list Register)))
        <$> by_feature cs)).

(** ** The memory map *)

Definition overlaps (r l : region) : bool := (r_address r <? r_end l) && (r_address l <? r_end r).

(** The regions announced: those of the loadable, and those of the debug view
    that overlap none of them. *)
Definition announced (debug loadable : list region) : list region :=
  sort_by r_address (filter (fun r => existsb (overlaps r) loadable = false) debug ++ loadable).

Definition hex0x (n : Z) : list Z := lit "0x" ++ format_x n.

Definition memory_element (r : region) : list element :=
  let place := [(lit "start", hex0x (r_address r)); (lit "length", hex0x (r_size r))] in
  match r_kind r with
  | Flash wp _ =>
      [El (lit "memory") ((lit "type", lit "flash") :: place) []
         [El (lit "property") [(lit "name", lit "blocksize")] (hex0x wp) []]]
  | Ram => [El (lit "memory") ((lit "type", lit "ram") :: place) [] []]
  | Eeprom => []
  end.

Definition build_memory_map_xml (debug : list region) (loadable : option (list region)) : option (list Z) :=
  let regions := match loadable with Some l => announced debug l | None => sort_by r_address debug end in
  match regions with
  | [] => None
  | _ => Some (
      lit "<?xml version=" ++ [34] ++ lit "1.0" ++ [34] ++ lit "?><!DOCTYPE memory-map PUBLIC " ++ [34]
      ++ lit "+//IDN gnu.org//DTD GDB Memory Map V1.0//EN" ++ [34; 32; 34]
      ++ lit "http://sourceware.org/gdb/gdb-memory-map.dtd" ++ [34] ++ lit ">"
      ++ tostring (El (lit "memory-map") [] [] (regions ≫= memory_element)))
  end.

(** ** Lemmas *)

(** The registers listed under a feature. *)
Fixpoint listed (d : features) (feat : list Z) : list Register :=
  match d with
  | [] => []
  | (f, regs) :: d => if bool_decide (f = feat) then regs else listed d feat
  end.

(** The first occurrences, in order. *)
Definition firsts (l : list Register) : list Register := foldl add_first [] l.

Definition wanted (feat : list Z) (c : core_info) : list Register :=
  filter (fun r => gdb_visible r = true /\ feature_of c r = feat) (core_registers c).

Lemma listed_absent d feat : feat ∉ d.*1 -> listed d feat = [].
Proof.
  induction d as [|[f regs] d IH]; [done|]. rewrite fmap_cons. intros [Hf Hd]%not_elem_of_cons. cbn [listed].
  rewrite bool_decide_eq_false_2 by (intros ->; by apply Hf). by apply IH.
Qed.

Lemma setdefault_spec d feat :
  feat ∈ (setdefault d feat).*1 /\ forall f, listed (setdefault d feat) f = listed d f.
Proof.
  unfold setdefault. case_bool_decide as Hin; [done|]. rewrite fmap_app. split; [apply elem_of_app; right; by left|].
  intros f. clear Hin. induction d as [|[f1 regs] d IH]; cbn [app listed]; [by case_bool_decide|]. by rewrite IH.
Qed.

Lemma listed_append_at d feat r f :
  feat ∈ d.*1 ->
  listed (append_at d feat r) f = if bool_decide (f = feat) then add_first (listed d f) r else listed d f.
Proof.
  induction d as [|[f1 regs] d IH]; intros Hin; [by apply elem_of_nil in Hin|]. cbn [append_at listed].
  destruct (decide (f1 = feat)) as [->|E].
  - rewrite (bool_decide_eq_true_2 (feat = feat)) by done. cbn [listed].
    destruct (decide (f = feat)) as [->|Hf]; [by rewrite !(bool_decide_eq_true_2 (feat = feat)) by done|].
    by rewrite (bool_decide_eq_false_2 (feat = f)), (bool_decide_eq_false_2 (f = feat)) by congruence.
  - rewrite (bool_decide_eq_false_2 (f1 = feat)) by done. cbn [listed].
    destruct (decide (f1 = f)) as [->|Hf].
    + by rewrite (bool_decide_eq_true_2 (f = f)), (bool_decide_eq_false_2 (f = feat)) by done.
    + rewrite !(bool_decide_eq_false_2 (f1 = f)) by done. apply IH.
      rewrite fmap_cons in Hin. by apply elem_of_cons in Hin as [Hin|Hin].
Qed.

Lemma listed_add_register d feat r f :
  listed (add_register d feat r) f = if bool_decide (f = feat) then add_first (listed d f) r else listed d f.
Proof.
  unfold add_register. destruct (setdefault_spec d feat) as [Hin E]. by rewrite listed_append_at, E by done.
Qed.

(** A core adds its visible registers, each to its feature. *)
Lemma listed_collect_core d c f : listed (collect_core d c) f = foldl add_first (listed d f) (wanted f c).
Proof.
  unfold collect_core. assert (forall l d, listed (foldl setdefault d l) f = listed d f) as Hempty.
  { induction l as [|feat l IH]; intros d'; [done|]. cbn [foldl]. by rewrite IH, (proj2 (setdefault_spec d' feat)). }
  rewrite Hempty. unfold wanted. revert d. induction (core_registers c) as [|r rs IH]; intros d; [done|].
  cbn [foldl]. rewrite IH, filter_cons. destruct (gdb_visible r) eqn:Hv.
  - rewrite listed_add_register. destruct (decide (feature_of c r = f)) as [->|Hf].
    + by rewrite bool_decide_eq_true_2, decide_True by done.
    + rewrite bool_decide_eq_false_2 by congruence. rewrite decide_False by (by intros []). done.
  - rewrite decide_False by (by intros []). done.
Qed.

Lemma listed_by_feature cs f : listed (by_feature cs) f = firsts (cs ≫= wanted f).
Proof.
  unfold by_feature, firsts. change (@nil Register) with (listed [] f). generalize (@nil (list Z * list Register)) as d.
  induction cs as [|c cs IH]; intros d; [done|]. cbn [foldl]. rewrite IH, bind_cons, foldl_app.
  by rewrite listed_collect_core.
Qed.

Lemma firsts_spec l : NoDup (firsts l) /\ forall r, r ∈ firsts l <-> r ∈ l.
Proof.
  unfold firsts. assert (forall acc, NoDup acc -> NoDup (foldl add_first acc l) /\
    forall r, r ∈ foldl add_first acc l <-> r ∈ acc \/ r ∈ l) as H.
  { induction l as [|x l IH]; intros acc Hacc; cbn [foldl].
    - split; [done|]. set_solver.
    - assert (NoDup (add_first acc x) /\ forall r, r ∈ add_first acc x <-> r ∈ acc \/ r = x) as [Hn He].
      { unfold add_first. case_bool_decide as Hx; [split; [done|set_solver]|]. split; [|set_solver].
        apply NoDup_app. split_and!; [done| |apply NoDup_singleton]. set_solver. }
      destruct (IH _ Hn) as [Hn' He']. split; [done|]. intros r. rewrite He', He. set_solver. }
  destruct (H [] (NoDup_nil_2)) as [Hn He]. split; [done|]. set_solver.
Qed.

(** The features are distinct. *)
Lemma append_at_names d feat r : (append_at d feat r).*1 = d.*1.
Proof.
  induction d as [|[f regs] d IH]; [done|]. cbn [append_at]. case_bool_decide; rewrite !fmap_cons; [done|by rewrite IH].
Qed.

Lemma setdefault_names d feat : NoDup (d.*1) -> NoDup ((setdefault d feat).*1).
Proof.
  intros Hd. unfold setdefault. case_bool_decide; [done|]. rewrite fmap_app.
  apply NoDup_app. split_and!; [done| |apply NoDup_singleton]. set_solver.
Qed.

Lemma by_feature_names cs : NoDup ((by_feature cs).*1).
Proof.
  unfold by_feature. assert (NoDup (@nil (list Z * list Register)).*1) as H by constructor. revert H.
  generalize (@nil (list Z * list Register)) as d.
  assert (forall l d, NoDup (d.*1) -> NoDup ((foldl setdefault d l).*1)) as Hs.
  { induction l as [|f l IH]; intros d Hd; [done|]. by apply IH, setdefault_names. }
  induction cs as [|c cs IH]; intros d Hd; [done|]. cbn [foldl]. apply IH. unfold collect_core. apply Hs.
  revert d Hd. induction (core_registers c) as [|r rs IHr]; intros d Hd; [done|]. cbn [foldl]. apply IHr.
  destruct (gdb_visible r); [|done]. unfold add_register. rewrite append_at_names. by apply setdefault_names.
Qed.

(** *** Regions *)

Abbreviation apart := (fun r r' : region => overlaps r r' = false).

Lemma ForallOrdPairs_perm {A} (R : A -> A -> Prop) l l' :
  (forall x y, R x y -> R y x) -> l ≡ₚ l' -> ForallOrdPairs R l -> ForallOrdPairs R l'.
Proof.
  intros Hsym. induction 1 as [|x l l' Hp IH|x y l|l l' l'' _ IH1 _ IH2]; intros H.
  - done.
  - inversion_clear H as [|?? Hx Hl]. constructor; [by rewrite <- Hp|by apply IH].
  - inversion_clear H as [|?? Hy Hl]. inversion_clear Hl as [|?? Hx Hl']. inversion_clear Hy as [|?? Hyx Hyl].
    constructor; [constructor; [by apply Hsym|done]|]. by constructor.
  - by apply IH2, IH1.
Qed.

Lemma apart_sorted rs :
  Forall (fun r => 0 < r_size r) rs -> StronglySorted (fun r r' => r_address r <= r_address r') rs -> ForallOrdPairs apart rs -> laid_out rs.
Proof.
  intros Hpos Hs Ha. unfold laid_out. induction Hs as [|r rs Hs IH Hr]; [constructor|].
  inversion_clear Hpos as [|?? Hp Hps]. inversion_clear Ha as [|?? Har Ha']. constructor; [by apply IH|].
  rewrite Forall_forall in *. intros r' Hin. specialize (Hr r' Hin). specialize (Har r' Hin). specialize (Hps r' Hin).
  cbn beta in *. unfold overlaps, r_end in *. apply andb_false_iff in Har as [H|H]; apply Z.ltb_ge in H; lia.
Qed.

Lemma ForallOrdPairs_app {A} (R : A -> A -> Prop) l1 l2 :
  ForallOrdPairs R l1 -> ForallOrdPairs R l2 -> (forall x y, x ∈ l1 -> y ∈ l2 -> R x y) ->
  ForallOrdPairs R (l1 ++ l2).
Proof.
  induction 1 as [|x l1 Hx _ IH]; intros H2 H; [done|]. cbn [app]. constructor.
  - apply Forall_app. split; [done|]. apply Forall_forall. intros y Hy. by apply H; [left|].
  - apply IH; [done|]. intros. apply H; [by right|done].
Qed.

Lemma Forall_filter_all {A} (Q P : A -> Prop) `{!forall x, Decision (P x)} l : Forall Q l -> Forall Q (filter P l).
Proof. rewrite !Forall_forall. intros HQ x [_ Hx]%list_elem_of_filter. by apply HQ. Qed.

Lemma ForallOrdPairs_filter {A} (R : A -> A -> Prop) (P : A -> Prop) `{!forall x, Decision (P x)} l :
  ForallOrdPairs R l -> ForallOrdPairs R (filter P l).
Proof.
  induction 1 as [|x l Hx _ IH]; [constructor|]. rewrite filter_cons. case_decide; [|done].
  constructor; [|done]. by apply Forall_filter_all.
Qed.

Lemma announced_laid_out debug loadable :
  Forall (fun r => 0 < r_size r) (debug ++ loadable) ->
  ForallOrdPairs apart debug -> ForallOrdPairs apart loadable -> laid_out (announced debug loadable).
Proof.
  intros [Hd Hl]%Forall_app Ad Al. unfold announced. apply apart_sorted.
  - rewrite sort_by_perm. apply Forall_app. split; [by apply Forall_filter_all|done].
  - apply sort_by_sorted.
  - eapply ForallOrdPairs_perm; [|symmetry; apply sort_by_perm|].
    { intros r r'. unfold overlaps. by rewrite andb_comm. }
    apply ForallOrdPairs_app; [by apply ForallOrdPairs_filter|done|].
    intros r l [Hr _]%list_elem_of_filter Hin. destruct (overlaps r l) eqn:E; [|done].
    apply not_true_iff_false in Hr. destruct Hr. apply existsb_exists. exists l. split; [by apply list_elem_of_In|done].
Qed.

(** ** Theorems *)

(** The memory map given to the debugger has no overlaps and is in address
    order, as long as the regions of the debug view do not overlap among
    themselves nor those of the loadable; it holds all regions of the loadable,
    and the regions of the debug view that overlap none of these. *)
Theorem gdb_memory_map_disjoint debug loadable :
  Forall (fun r => 0 < r_size r) (debug ++ loadable) ->
  ForallOrdPairs apart debug -> ForallOrdPairs apart loadable ->
  laid_out (announced debug loadable)
  /\ forall r, r ∈ announced debug loadable
       <-> r ∈ loadable \/ (r ∈ debug /\ forall l, l ∈ loadable -> overlaps r l = false).
Proof.
  intros Hpos Ad Al. split; [by apply announced_laid_out|]. intros r. unfold announced.
  rewrite sort_by_perm, elem_of_app, list_elem_of_filter.
  assert (existsb (overlaps r) loadable = false <-> forall l, l ∈ loadable -> overlaps r l = false) as ->; [|tauto].
  rewrite <- not_true_iff_false, existsb_exists. split.
  - intros H l Hl. apply not_true_iff_false. intros E. apply H. exists l. split; [by apply list_elem_of_In|done].
  - intros H (l&Hl&E). rewrite H in E by (by apply list_elem_of_In). done.
Qed.

(** The target description names each feature once; under a feature stand the
    visible registers of all cores that belong to it, each once. *)
Theorem gdb_target_description cs feat :
  NoDup ((by_feature cs).*1) /\ NoDup (listed (by_feature cs) feat)
  /\ forall r, r ∈ listed (by_feature cs) feat
       <-> exists c, c ∈ cs /\ r ∈ core_registers c /\ gdb_visible r = true /\ feature_of c r = feat.
Proof.
  split; [apply by_feature_names|]. rewrite listed_by_feature.
  destruct (firsts_spec (cs ≫= wanted feat)) as [Hn He]. split; [done|]. intros r.
  rewrite He, list_elem_of_bind. unfold wanted. setoid_rewrite list_elem_of_filter. naive_solver.
Qed.

(** A register name with mark-up in it. *)
Example target_xml_sample :
  build_target_xml [mkCore [mkRegister 0 (lit "a<b") 32 PC (lit "general") true None true] (lit "org.f") []]
  = lit "<?xml version=" ++ [34] ++ lit "1.0" ++ [34] ++ lit "?><!DOCTYPE target SYSTEM " ++ [34] ++ lit "gdb-target.dtd"
    ++ [34] ++ lit "><target><feature name=" ++ [34] ++ lit "org.f" ++ [34] ++ lit "><reg name=" ++ [34]
    ++ lit "a&lt;b" ++ [34] ++ lit " bitsize=" ++ [34] ++ lit "32" ++ [34] ++ lit " regnum=" ++ [34] ++ lit "0" ++ [34]
    ++ lit " type=" ++ [34] ++ lit "code_ptr" ++ [34] ++ lit " group=" ++ [34] ++ lit "general" ++ [34]
    ++ lit " /></feature></target>".
Proof. vm_compute. reflexivity. Qed.
