(* ===== verification/Aca.v ===== *)
(** * ACA decompression (src/acrobe/stapl/aca.py)

    Boolean arrays of a STAPL file may be compressed: base-64 text with an
    alphabet of its own, packed from the low bit, holds a length and a sequence
    of literal and repeated blocks.

    [base64.b64decode] is the decoder of Python's [binascii]: characters outside
    the alphabet are skipped, the input ends at a complete padding. *)

From Stdlib Require Import Ascii String.
From S2P Require Import Prelude BitString Crc PyText.

Open Scope Z_scope.

(** ** Text to bits *)

Definition ACA_ALPHABET : list Z :=
  lit "0123456789ABCDEFGHIJKLMNOPQRSTUVWXYZabcdefghijklmnopqrstuvwxyz_@".

Definition STD_ALPHABET : list Z :=
  lit "ABCDEFGHIJKLMNOPQRSTUVWXYZabcdefghijklmnopqrstuvwxyz0123456789+/".

(** The position of a character in an alphabet. *)
Definition position (alphabet : list Z) (c : Z) : option Z :=
  match list_find (fun x => x = c) alphabet with Some (i, _) => Some (Z.of_nat i) | None => None end.

(** [_ACA_TO_STD]: one character of [text.translate]. *)
Definition ACA_TO_STD (c : Z) : list Z :=
  if bool_decide (c ∈ [32; 9; 10; 13]) then []
  else match position ACA_ALPHABET c with
       | Some i => [default 0 (STD_ALPHABET !! Z.to_nat (swib i 6))]
       | None => [c]
       end.

(** [binascii.a2b_base64]: characters taken in the current group of four, what
    is left of the last one, padding characters in a row. *)
Fixpoint a2b_base64 (quad_pos leftchar pads : Z) (l : list Z) : result (list Z) :=
  match l with
  | [] => if quad_pos =? 0 then Ok [] else Err BinasciiError
  | c :: l =>
      if c =? 61 then
        if (2 <=? quad_pos) && (4 <=? quad_pos + (pads + 1)) then Ok []
        else a2b_base64 quad_pos leftchar (if 2 <=? quad_pos then pads + 1 else pads) l
      else match position STD_ALPHABET c with
      | None => a2b_base64 quad_pos leftchar pads l
      | Some v =>
          if quad_pos =? 0 then a2b_base64 1 v 0 l
          else if quad_pos =? 1 then
            d ← a2b_base64 2 (Z.land v 0x0f) 0 l; Ok (Z.lor (Z.shiftl leftchar 2) (Z.shiftr v 4) :: d)
          else if quad_pos =? 2 then
            d ← a2b_base64 3 (Z.land v 3) 0 l; Ok (Z.lor (Z.shiftl leftchar 4) (Z.shiftr v 2) :: d)
          else d ← a2b_base64 0 0 0 l; Ok (Z.lor (Z.shiftl leftchar 6) v :: d)
      end
  end.

(** [base64.b64decode] of text *)
Definition b64decode (s : list Z) : result (list Z) :=
  if forallb (fun c => c <? 128) s then a2b_base64 0 0 0 s else Err ValueError.

(** [bitswap8] *)
Definition bitswap8 (d : list Z) : list Z := (fun b => swib b 8) <$> d.

(** [_text_to_bits] *)
Definition text_to_bits (text : list Z) : result (list Z) :=
  let as_std := text ≫= ACA_TO_STD in
  let as_std := as_std ++ replicate (Z.to_nat ((- zlen as_std) mod 4)) 65 in
  d ← b64decode as_std; Ok (bitswap8 d).

(** ** Decompression *)

(** [output_pos.bit_length()] *)
Definition bit_length (n : Z) : Z := if n =? 0 then 0 else Z.log2 n + 1.

(** [_offset_field_width] *)
Definition offset_field_width (output_pos : Z) : Z :=
  if output_pos =? 0 then 1 else Z.min (bit_length output_pos) 13.

(** [output[a:b] = v] of a bytearray, for positions within it *)
Definition assign_range (l : list Z) (a b : Z) (v : list Z) : list Z :=
  slice_to l a ++ v ++ slice_from l b.

(** One block; the output, its position, the position in the input. *)
Definition block_step (compressed : BitString) (length : Z) (st : list Z * Z * Z) : result (list Z * Z * Z) :=
  let '(output, output_pos, pos) := st in
  block_type ← bs_getitem compressed pos;
  let pos := pos + 1 in
  let field n := getitem_slice (SrcStr compressed) (Some pos) (Some (pos + n)) in
  if negb block_type then
    let n := Z.min (length - output_pos) 3 in
    d ← base_data (field (8 * n));
    Ok (assign_range output output_pos (output_pos + n) d, output_pos + n, pos + 8 * n)
  else
    let n := offset_field_width output_pos in
    offset ← to_int (field n);
    let pos := pos + n in
    count ← to_int (getitem_slice (SrcStr compressed) (Some pos) (Some (pos + 8)));
    let pos := pos + 8 in
    let ref_pos := output_pos - offset in
    _ ← guard_or (0 <=? ref_pos) AssertionError;
    let copy_count := Z.min count (length - output_pos) in
    Ok (assign_range output output_pos (output_pos + copy_count) (slice output ref_pos (ref_pos + copy_count)),
        output_pos + copy_count, pos).

Fixpoint blocks_loop (fuel : nat) (compressed : BitString) (length : Z) (st : list Z * Z * Z)
  : result (list Z * Z * Z) :=
  let '(output, output_pos, pos) := st in
  if output_pos <? length then
    match fuel with
    | O => Err OutOfFuel
    | S fuel => st ← block_step compressed length st; blocks_loop fuel compressed length st
    end
  else Ok st.

(** [decompress]; every block takes a bit of the input at least. *)
Definition decompress (text : list Z) : result (list Z) :=
  d ← text_to_bits text;
  compressed ← bs_init (Some (ABytes d)) None;
  length ← to_int (getitem_slice (SrcStr compressed) (Some 0) (Some 32));
  '(output, output_pos, _) ← blocks_loop (S (Z.to_nat (bs_length compressed))) compressed length
                               (replicate (Z.to_nat length) 0, 0, 32);
  _ ← guard_or (output_pos =? length) AssertionError;
  Ok output.

Example decompress_spec_example :
  decompress (lit "O00008Cn63Pb PMRWpGBDgj6RV60") = Ok (lit "abcdefabcdefghijkldefabc").
Proof. vm_compute. reflexivity. Qed.

(** ** The format *)

(** The text of a sequence of 6-bit values, and of bits. *)
Definition aca_char (v : Z) : Z := default 0 (ACA_ALPHABET !! Z.to_nat v).

Definition sextets (l : list bool) : list Z :=
  (fun i => Z_of_bits (take 6 (drop (6 * i) l))) <$> seq 0 ((length l + 5) / 6).

Definition aca_text (l : list bool) : list Z := aca_char <$> sextets l.

(** The blocks of a compressed array. *)
Inductive block : Type :=
  | Literal (d : list Z)
  | Repeat (offset count : Z).

Definition block_bits (pos : Z) (b : block) : list bool :=
  match b with
  | Literal d => false :: bytes_bits d
  | Repeat offset count => true :: bits_of (Z.to_nat (offset_field_width pos)) offset ++ bits_of 8 count
  end.

(** What a block adds: a repeated block copies byte by byte from [offset]
    bytes back. *)
Definition block_length (len pos : Z) (b : block) : Z :=
  match b with Literal d => zlen d | Repeat _ count => Z.min count (len - pos) end.

Fixpoint copy_back (n : nat) (out : list Z) (offset : Z) : list Z :=
  match n with
  | O => out
  | S n => copy_back n (out ++ [default 0 (out !! Z.to_nat (zlen out - offset))]) offset
  end.

Definition expand_block (len : Z) (out : list Z) (b : block) : list Z :=
  match b with
  | Literal d => out ++ d
  | Repeat offset count => copy_back (Z.to_nat (Z.min count (len - zlen out))) out offset
  end.

Definition block_ok (len pos : Z) (b : block) : Prop :=
  match b with
  | Literal d => bytes_ok d /\ zlen d = Z.min (len - pos) 3
  | Repeat offset count => 0 <= offset <= pos /\ offset < 2 ^ offset_field_width pos /\ 0 <= count < 256
  end.

(** The copied bytes are there already. *)
Definition no_overlap (len pos : Z) (b : block) : Prop :=
  match b with Literal _ => True | Repeat offset count => Z.min count (len - pos) <= offset end.

Fixpoint blocks_ok (P : Z -> Z -> block -> Prop) (len pos : Z) (bs : list block) : Prop :=
  match bs with
  | [] => pos = len
  | b :: bs => pos < len /\ block_ok len pos b /\ P len pos b /\ blocks_ok P len (pos + block_length len pos b) bs
  end.

Fixpoint blocks_bits (len pos : Z) (bs : list block) : list bool :=
  match bs with
  | [] => []
  | b :: bs => block_bits pos b ++ blocks_bits len (pos + block_length len pos b) bs
  end.

Definition array_bits (len : Z) (bs : list block) : list bool := bits_of 32 len ++ blocks_bits len 0 bs.

(** ** The text decoder *)

Definition std_char (v : Z) : Z := default 0 (STD_ALPHABET !! Z.to_nat (swib v 6)).

Lemma alphabet_check v :
  0 <= v < 64 ->
  ACA_TO_STD (aca_char v) = [std_char v] /\ std_char v < 128 /\ std_char v <> 61
  /\ position STD_ALPHABET (std_char v) = Some (swib v 6).
Proof.
  intros Hv. assert (v ∈ seqZ 0 64) as Hin by (apply elem_of_seqZ; lia). clear Hv.
  assert (forallb (fun v => bool_decide (ACA_TO_STD (aca_char v) = [std_char v]) && (std_char v <? 128)
    && negb (std_char v =? 61) && bool_decide (position STD_ALPHABET (std_char v) = Some (swib v 6))) (seqZ 0 64) = true)
    as H by (vm_compute; reflexivity).
  rewrite forallb_forall in H. apply list_elem_of_In, H in Hin. rewrite !andb_true_iff, !bool_decide_eq_true in Hin.
  destruct Hin as [[[H1 H2] H3] H4]. split_and!; [done|lia| |done]. apply negb_true_iff in H3. lia.
Qed.

(** Two neighbours and the three ways they share a byte. *)
Lemma sextet_pair v w :
  0 <= v < 64 -> 0 <= w < 64 ->
  let s x := swib x 6 in
  bits_of 8 (swib (Z.lor (Z.shiftl (s v) 2) (Z.shiftr (s w) 4)) 8) = bits_of 6 v ++ take 2 (bits_of 6 w)
  /\ bits_of 8 (swib (Z.lor (Z.shiftl (Z.land (s v) 0x0f) 4) (Z.shiftr (s w) 2)) 8)
     = drop 2 (bits_of 6 v) ++ take 4 (bits_of 6 w)
  /\ bits_of 8 (swib (Z.lor (Z.shiftl (Z.land (s v) 3) 6) (s w)) 8) = drop 4 (bits_of 6 v) ++ bits_of 6 w.
Proof.
  intros Hv Hw. assert (v ∈ seqZ 0 64) as Iv by (apply elem_of_seqZ; lia).
  assert (w ∈ seqZ 0 64) as Iw by (apply elem_of_seqZ; lia). clear Hv Hw.
  assert (forallb (fun v => forallb (fun w =>
      bool_decide (bits_of 8 (swib (Z.lor (Z.shiftl (swib v 6) 2) (Z.shiftr (swib w 6) 4)) 8) = bits_of 6 v ++ take 2 (bits_of 6 w))
      && bool_decide (bits_of 8 (swib (Z.lor (Z.shiftl (Z.land (swib v 6) 0x0f) 4) (Z.shiftr (swib w 6) 2)) 8)
           = drop 2 (bits_of 6 v) ++ take 4 (bits_of 6 w))
      && bool_decide (bits_of 8 (swib (Z.lor (Z.shiftl (Z.land (swib v 6) 3) 6) (swib w 6)) 8)
           = drop 4 (bits_of 6 v) ++ bits_of 6 w)) (seqZ 0 64)) (seqZ 0 64) = true) as H by (vm_compute; reflexivity).
  rewrite forallb_forall in H. apply list_elem_of_In, H in Iv. rewrite forallb_forall in Iv.
  apply list_elem_of_In, Iv in Iw. rewrite !andb_true_iff, !bool_decide_eq_true in Iw. destruct Iw as [[??]?]. by split_and!.
Qed.

Abbreviation sextet v := (0 <= v < 64).

Lemma decode_quads n : forall vs, length vs = (4 * n)%nat -> Forall (fun v => sextet v) vs ->
  exists d, a2b_base64 0 0 0 (std_char <$> vs) = Ok d /\ bytes_bits (bitswap8 d) = vs ≫= bits_of 6.
Proof.
  induction n as [|n IH]; intros vs Hl Hv.
  { destruct vs; [|simpl in Hl; lia]. by exists []. }
  destruct vs as [|v0 [|v1 [|v2 [|v3 vs]]]]; cbn [length] in Hl; try lia.
  repeat match goal with H : Forall _ (_ :: _) |- _ => inversion_clear H end.
  destruct (IH vs) as (d&Ed&Hd); [lia|done|].
  assert (forall c l q lc pads, sextet c -> a2b_base64 q lc pads (std_char c :: l)
    = let v := swib c 6 in
      if q =? 0 then a2b_base64 1 v 0 l
      else if q =? 1 then d ← a2b_base64 2 (Z.land v 0x0f) 0 l; Ok (Z.lor (Z.shiftl lc 2) (Z.shiftr v 4) :: d)
      else if q =? 2 then d ← a2b_base64 3 (Z.land v 3) 0 l; Ok (Z.lor (Z.shiftl lc 4) (Z.shiftr v 2) :: d)
      else d ← a2b_base64 0 0 0 l; Ok (Z.lor (Z.shiftl lc 6) v :: d)) as Hstep.
  { intros c l q lc pads Hc. destruct (alphabet_check c Hc) as (_&_&Hne&Hp). cbn [a2b_base64].
    by rewrite (proj2 (Z.eqb_neq _ _) Hne), Hp. }
  rewrite !fmap_cons. do 4 (rewrite Hstep by done; cbv zeta; cbn [Z.eqb Pos.eqb]). rewrite Ed, !bind_of_Ok. eexists. split; [done|].
  unfold bitswap8 in *. rewrite !fmap_cons, !bytes_bits_cons, Hd, !bind_cons.
  destruct (sextet_pair v0 v1) as (->&_&_); [done..|]. destruct (sextet_pair v1 v2) as (_&->&_); [done..|].
  destruct (sextet_pair v2 v3) as (_&_&->); [done..|].
  by rewrite <- !app_assoc.
Qed.

(** The text of values, white space anywhere, decodes to their bits, padded to
    whole groups of four. *)
Lemma text_to_bits_spec text vs :
  Forall (fun v => sextet v) vs -> filter (fun c => c ∉ [32; 9; 10; 13]) text = aca_char <$> vs ->
  exists d (k : nat), text_to_bits text = Ok d /\ bytes_ok d /\ bytes_bits d = (vs ≫= bits_of 6) ++ replicate k false.
Proof.
  intros Hv Ht. set (p := Z.to_nat ((- zlen vs) mod 4)).
  assert (text ≫= ACA_TO_STD = std_char <$> vs) as Estd.
  { assert (text ≫= ACA_TO_STD = (aca_char <$> vs) ≫= ACA_TO_STD) as ->.
    - rewrite <- Ht. clear. induction text as [|c text IH]; [done|]. rewrite filter_cons, bind_cons, IH.
      case_decide as Hc; [by rewrite bind_cons|]. unfold ACA_TO_STD at 1. by rewrite bool_decide_eq_true_2.
    - clear Ht. induction Hv as [|v vs Hv _ IH]; [done|]. rewrite !fmap_cons, bind_cons, IH.
      by rewrite (proj1 (alphabet_check v Hv)). }
  assert (Forall (fun v => sextet v) (vs ++ replicate p 0)) as Hv'
    by (apply Forall_app; split; [done|apply Forall_replicate; lia]).
  set (all := vs ++ replicate p 0) in *.
  assert (length all = 4 * (length all / 4))%nat as Hl.
  { apply Nat.div_exact; [done|]. unfold all. rewrite length_app, length_replicate. unfold p.
    apply Nat2Z.inj. rewrite Nat2Z.inj_mod, Nat2Z.inj_add, Z2Nat.id by (apply Z.mod_pos_bound; lia).
    change (Z.of_nat 4) with 4. rewrite Zplus_mod_idemp_r. by rewrite Z.add_opp_diag_r. }
  destruct (decode_quads _ _ Hl Hv') as (d&Ed&Hd). exists (bitswap8 d), (6 * p)%nat.
  assert (text_to_bits text = Ok (bitswap8 d)) as ->.
  { unfold text_to_bits. rewrite Estd, length_fmap.
    replace (replicate (Z.to_nat ((- zlen vs) mod 4)) 65) with (std_char <$> replicate p 0)
      by (by rewrite fmap_replicate).
    rewrite <- fmap_app. fold all. unfold b64decode.
    assert (forallb (fun c => c <? 128) (std_char <$> all) = true) as ->; [|by rewrite Ed].
    apply forallb_forall. intros c Hc%list_elem_of_In. apply list_elem_of_fmap in Hc as (v&->&Hin).
    rewrite Forall_forall in Hv'. destruct (alphabet_check v (Hv' v Hin)) as (_&H&_). by apply Z.ltb_lt. }
  split_and!; [done| |].
  - unfold bitswap8. apply Forall_fmap, Forall_true. intros b. apply (swib_range b 8). lia.
  - rewrite Hd. unfold all. rewrite bind_app. f_equal. clear. induction p as [|p IH]; [done|].
    cbn [replicate]. rewrite bind_cons, IH. replace (6 * S p)%nat with (6 + 6 * p)%nat by lia. done.
Qed.

(** ** The blocks *)

Lemma sextets_bits l : exists k, (sextets l ≫= bits_of 6) = l ++ replicate k false.
Proof.
  unfold sextets. assert (forall n l, (length l <= 6 * n)%nat -> exists k,
    ((fun i => Z_of_bits (take 6 (drop (6 * i) l))) <$> seq 0 n) ≫= bits_of 6 = l ++ replicate k false) as H.
  { clear. induction n as [|n IH]; intros l Hl.
    - destruct l; [|simpl in Hl; lia]. by exists 0%nat.
    - destruct (IH (drop 6 l)) as (k&Hk); [rewrite length_drop; lia|].
      cbn [seq]. rewrite fmap_cons, bind_cons, <- seq_shift, <- list_fmap_compose.
      rewrite (list_fmap_ext _ (fun i => Z_of_bits (take 6 (drop (6 * i) (drop 6 l))))).
      2: { intros i x _. unfold compose. rewrite drop_drop. do 3 f_equal. lia. }
      rewrite Hk. rewrite Nat.mul_0_r, drop_0.
      destruct (decide (6 <= length l)%nat) as [H6|H6].
      + exists k. assert (length (take 6 l) = 6%nat) as Ht by (rewrite length_take; lia).
        rewrite <- Ht at 1. rewrite bits_of_Z_of_bits, app_assoc, take_drop. done.
      + exists (6 - length l + k)%nat. rewrite drop_ge, take_ge by lia. cbn [app].
        rewrite replicate_add, app_assoc. f_equal.
        apply list_eq_same_length with 6%nat.
        * rewrite length_app, length_replicate. lia.
        * apply length_bits_of.
        * intros i x y Hi. rewrite lookup_bits_of by done. intros [= <-].
          rewrite testbit_Z_of_bits. destruct (decide (i < length l)%nat).
          -- rewrite lookup_app_l by done. by intros ->.
          -- rewrite lookup_app_r, (lookup_ge_None_2 l) by lia. rewrite lookup_replicate. by intros [-> _]. }
  apply H. pose proof (Nat.div_mod (length l + 5) 6 ltac:(lia)). pose proof (Nat.mod_upper_bound (length l + 5) 6 ltac:(lia)). lia.
Qed.

Lemma read_field s pre f rest pos n :
  clean s -> bits s = pre ++ f ++ rest -> pos = zlen pre -> n = zlen f ->
  let b := getitem_slice (SrcStr s) (Some pos) (Some (pos + n)) in
  to_int b = Ok (Z_of_bits f) /\ base_data b = Ok (pack f).
Proof.
  intros Hs Hb -> -> b. pose proof (length_bits s (proj1 Hs)) as Hl.
  assert (zlen (bits s) = zlen pre + zlen f + zlen rest) as Hlen by (rewrite Hb, !length_app; lia).
  destruct (getitem_slice_spec (SrcStr s) (Some (zlen pre)) (Some (zlen pre + zlen f)) (zlen pre) (zlen pre + zlen f))
    as [Hwf Hbits].
  - apply Hs.
  - unfold slice_range. cbn [source_length].
    destruct (Z.ltb_spec (zlen pre) 0); [lia|]. destruct (Z.ltb_spec (zlen pre + zlen f) 0); [lia|]. f_equal; lia.
  - fold b in Hwf, Hbits. cbn [source_bits] in Hbits. rewrite Hb, slice_app_mid in Hbits by lia.
    split; [rewrite to_int_spec by apply Hwf|rewrite base_data_spec by done]; by rewrite Hbits.
Qed.

Lemma pack_bytes d : bytes_ok d -> pack (bytes_bits d) = d.
Proof.
  intros Hd. unfold pack. rewrite Z_of_bytes_bits by done.
  assert (byte_count (zlen (bytes_bits d)) = zlen d) as ->
    by (rewrite length_bytes_bits; unfold byte_count; div_lia).
  rewrite Nat2Z.id. by apply le_bytes_from_le.
Qed.

Lemma assign_range_app (out d : list Z) (k : nat) :
  (length d <= k)%nat ->
  assign_range (out ++ replicate k 0) (zlen out) (zlen out + zlen d) d = (out ++ d) ++ replicate (k - length d) 0.
Proof.
  intros Hk. unfold assign_range. rewrite slice_to_nonneg, slice_from_nonneg, Nat2Z.id, take_app_length by lia.
  rewrite drop_app_ge by lia. replace (Z.to_nat (zlen out + zlen d) - length out)%nat with (length d) by lia.
  by rewrite drop_replicate, app_assoc.
Qed.

(** What a block adds in the code: what lies past the position is still zero. *)
Definition added (len : Z) (out : list Z) (b : block) : list Z :=
  match b with
  | Literal d => d
  | Repeat offset count =>
      let n := Z.min count (len - zlen out) in
      slice (out ++ replicate (Z.to_nat (len - zlen out)) 0) (zlen out - offset) (zlen out - offset + n)
  end.

Lemma length_added len out b :
  zlen out < len -> block_ok len (zlen out) b -> zlen (added len out b) = block_length len (zlen out) b.
Proof.
  intros Hlt Hb. destruct b as [d|offset count]; [done|]. destruct Hb as (Ho&_&Hc). unfold added, block_length.
  rewrite slice_nonneg, length_take, length_drop, length_app, length_replicate by lia. lia.
Qed.

Lemma offset_field_width_pos pos : 0 <= pos -> 1 <= offset_field_width pos.
Proof.
  intros Hp. unfold offset_field_width, bit_length. destruct (Z.eqb_spec pos 0); [lia|].
  pose proof (Z.log2_nonneg pos). lia.
Qed.

Lemma block_step_spec s len out pre b rest :
  clean s -> bits s = pre ++ block_bits (zlen out) b ++ rest -> zlen out < len -> block_ok len (zlen out) b ->
  let out' := out ++ added len out b in
  block_step s len (out ++ replicate (Z.to_nat (len - zlen out)) 0, zlen out, zlen pre)
  = Ok (out' ++ replicate (Z.to_nat (len - zlen out')) 0, zlen out', zlen (pre ++ block_bits (zlen out) b)).
Proof.
  intros Hs Hbits Hlt Hb out'. pose proof (length_added len out b Hlt Hb) as Hadd.
  assert (zlen out' = zlen out + block_length len (zlen out) b) as Hout' by (unfold out'; rewrite length_app; lia).
  assert (0 <= block_length len (zlen out) b <= len - zlen out) as Hbl
    by (destruct b; cbn [block_length block_ok] in *; lia).
  unfold block_step. rewrite bs_getitem_spec by apply Hs.
  assert (forall x l, block_bits (zlen out) b = x :: l -> index (bits s) (zlen pre) = Ok x) as Htype.
  { intros x l E. rewrite Hbits, E. apply index_lookup; [lia|]. by rewrite Nat2Z.id, lookup_app_r, Nat.sub_diag by lia. }
  destruct b as [d|offset count]; cbn [block_bits block_ok block_length] in *.
  - rewrite (Htype false (bytes_bits d)), bind_of_Ok by done. cbn [negb].
    destruct Hb as [Hd Hn]. rewrite <- Hn.
    destruct (read_field s (pre ++ [false]) (bytes_bits d) rest (zlen pre + 1) (8 * zlen d) Hs) as [_ ->].
    { rewrite Hbits. by rewrite <- app_assoc. }
    { rewrite length_app. simpl length. lia. }
    { rewrite length_bytes_bits. lia. }
    rewrite bind_of_Ok, pack_bytes by done. unfold out'. cbn [added]. f_equal. f_equal; [f_equal|].
    + rewrite assign_range_app by lia. do 2 f_equal. rewrite length_app. lia.
    + rewrite length_app. lia.
    + rewrite length_app. simpl length. rewrite length_bytes_bits. lia.
  - destruct Hb as (Ho&How&Hc). pose proof (offset_field_width_pos (zlen out) ltac:(lia)) as Hw.
    set (w := offset_field_width (zlen out)) in *.
    rewrite (Htype true (bits_of (Z.to_nat w) offset ++ bits_of 8 count)), bind_of_Ok by done. cbn [negb].
    destruct (read_field s (pre ++ [true]) (bits_of (Z.to_nat w) offset) (bits_of 8 count ++ rest) (zlen pre + 1) w Hs)
      as [-> _].
    { rewrite Hbits. cbn [app]. rewrite <- !app_assoc. done. }
    { rewrite length_app. simpl length. lia. }
    { rewrite length_bits_of. lia. }
    rewrite bind_of_Ok, Z_of_bits_bits_of, Z2Nat.id, (Z.mod_small offset) by lia.
    destruct (read_field s (pre ++ true :: bits_of (Z.to_nat w) offset) (bits_of 8 count) rest (zlen pre + 1 + w) 8 Hs)
      as [-> _].
    { rewrite Hbits, <- app_assoc. cbn [app]. by rewrite <- app_assoc. }
    { rewrite length_app. simpl length. rewrite length_bits_of. lia. }
    { done. }
    rewrite bind_of_Ok, Z_of_bits_bits_of, (Z.mod_small count) by lia.
    unfold guard_or. rewrite (proj2 (Z.leb_le _ _)), bind_of_Ok by lia.
    fold (added len out (Repeat offset count)).
    f_equal. f_equal; [f_equal|].
    + rewrite <- Hadd, assign_range_app by lia. unfold out'. do 2 f_equal. rewrite length_app. lia.
    + lia.
    + rewrite length_app. simpl length. rewrite length_app, length_bits_of. change (length (bits_of 8 count)) with 8%nat. lia.
Qed.

(** All blocks. *)
Definition expand_code (len : Z) (out : list Z) (bs : list block) : list Z :=
  foldl (fun out b => out ++ added len out b) out bs.

Lemma blocks_loop_spec s len P bs : clean s -> forall out pre rest fuel,
  bits s = pre ++ blocks_bits len (zlen out) bs ++ rest -> blocks_ok P len (zlen out) bs -> (length bs < fuel)%nat ->
  exists pos, blocks_loop fuel s len (out ++ replicate (Z.to_nat (len - zlen out)) 0, zlen out, zlen pre)
    = Ok (expand_code len out bs, len, pos).
Proof.
  intros Hs. induction bs as [|b bs IH]; intros out pre rest fuel Hbits Hok Hf.
  - cbn [blocks_ok] in Hok. exists (zlen pre). destruct fuel; cbn [blocks_loop];
      rewrite Hok, Z.ltb_irrefl, Z.sub_diag; cbn [replicate Z.to_nat]; by rewrite app_nil_r.
  - cbn [blocks_ok blocks_bits] in *. destruct Hok as (Hlt&Hb&_&Hok).
    destruct fuel as [|fuel]; [cbn [length] in Hf; lia|]. cbn [blocks_loop]. rewrite (proj2 (Z.ltb_lt _ _)) by done.
    rewrite <- app_assoc in Hbits.
    rewrite (block_step_spec s len out pre b _ Hs Hbits Hlt Hb), bind_of_Ok.
    pose proof (length_added len out b Hlt Hb) as Hadd.
    assert (zlen (out ++ added len out b) = zlen out + block_length len (zlen out) b) as Hl by (rewrite length_app; lia).
    rewrite <- Hl in Hok, Hbits. rewrite app_assoc in Hbits.
    cbn [length] in Hf. apply (IH _ _ _ fuel Hbits Hok ltac:(lia)).
Qed.

(** Without overlap the code copies what the format says. *)
Lemma copy_back_spec base offset n k :
  0 <= offset <= zlen base -> Z.of_nat (k + n) <= offset ->
  let seg := drop (length base - Z.to_nat offset) base in
  copy_back n (base ++ take k seg) offset = base ++ take (k + n) seg.
Proof.
  intros Ho. revert k. induction n as [|n IH]; intros k Hk seg; cbn [copy_back]; [by rewrite Nat.add_0_r|].
  assert (length seg = Z.to_nat offset) as Hseg by (unfold seg; rewrite length_drop; lia).
  destruct (lookup_lt_is_Some_2 seg k) as [x Hx]; [lia|].
  assert ((base ++ take k seg) !! Z.to_nat (zlen (base ++ take k seg) - offset) = Some x) as ->.
  { rewrite length_app, length_take. rewrite lookup_app_l by lia.
    unfold seg in Hx. rewrite lookup_drop in Hx. rewrite <- Hx. f_equal. lia. }
  cbn [default from_option id]. rewrite <- app_assoc, <- take_S_r by done.
  rewrite IH by lia. do 2 f_equal. lia.
Qed.

Lemma expand_block_added len out b :
  zlen out < len -> block_ok len (zlen out) b -> no_overlap len (zlen out) b ->
  expand_block len out b = out ++ added len out b.
Proof.
  intros Hlt Hb Hno. destruct b as [d|offset count]; [done|]. cbn [block_ok no_overlap expand_block added] in *.
  destruct Hb as (Ho&_&Hc). set (n := Z.min count (len - zlen out)) in *.
  pose proof (copy_back_spec out offset (Z.to_nat n) 0 Ho ltac:(lia)) as H. cbv zeta in H.
  rewrite take_0, app_nil_r in H. rewrite H. f_equal. cbn [Nat.add].
  rewrite slice_nonneg by lia. replace (Z.to_nat (zlen out - offset + n) - Z.to_nat (zlen out - offset))%nat with (Z.to_nat n) by lia.
  replace (Z.to_nat (zlen out - offset)) with (length out - Z.to_nat offset)%nat by lia.
  rewrite drop_app_le by lia. by rewrite take_app_le by (rewrite length_drop; lia).
Qed.

Lemma expand_code_spec len bs : forall out, blocks_ok no_overlap len (zlen out) bs ->
  expand_code len out bs = foldl (expand_block len) out bs.
Proof.
  induction bs as [|b bs IH]; intros out Hok; [done|]. cbn [blocks_ok] in Hok. destruct Hok as (Hlt&Hb&Hno&Hok).
  unfold expand_code in *. cbn [foldl]. rewrite expand_block_added by done. apply IH.
  pose proof (length_added len out b Hlt Hb). rewrite length_app.
  replace (Z.of_nat (length out + length (added len out b))) with (zlen out + block_length len (zlen out) b) by lia. done.
Qed.

Lemma length_blocks len bs : forall pos, (length bs <= length (blocks_bits len pos bs))%nat.
Proof.
  induction bs as [|b bs IH]; intros pos; [done|]. cbn [blocks_bits length]. rewrite length_app.
  specialize (IH (pos + block_length len pos b)). destruct b; cbn [block_bits length]; lia.
Qed.

(** The text of an array, decompressed. *)
Lemma decompress_array P len bs text :
  0 <= len < 2 ^ 32 -> blocks_ok P len 0 bs ->
  filter (fun c => c ∉ [32; 9; 10; 13]) text = aca_text (array_bits len bs) ->
  decompress text = Ok (expand_code len [] bs).
Proof.
  intros Hlen Hok Ht.
  destruct (text_to_bits_spec text (sextets (array_bits len bs))) as (d&k1&Ed&Hd&Hbits); [|done|].
  { unfold sextets. apply Forall_fmap, Forall_true. intros i. unfold compose.
    pose proof (Z_of_bits_bound (take 6 (drop (6 * i) (array_bits len bs)))) as Hb.
    assert (2 ^ zlen (take 6 (drop (6 * i) (array_bits len bs))) <= 2 ^ 6); [|lia].
    apply Z.pow_le_mono_r; [lia|]. rewrite length_take. lia. }
  destruct (sextets_bits (array_bits len bs)) as (k2&Hk2). rewrite Hk2, <- app_assoc in Hbits.
  unfold decompress. rewrite Ed, bind_of_Ok.
  destruct (bs_init_spec (ABytes d) None Hd) as (s&Es&Hs&Hsb). rewrite Es, bind_of_Ok.
  cbn [arg_bits] in Hsb. rewrite Hbits in Hsb. unfold array_bits in Hsb. rewrite <- app_assoc in Hsb.
  destruct (read_field s [] (bits_of 32 len) _ 0 32 Hs Hsb eq_refl eq_refl) as [El _].
  change (0 + 32) with 32 in El. rewrite El, bind_of_Ok, Z_of_bits_bits_of, Z.mod_small by lia.
  destruct (blocks_loop_spec s len P bs Hs [] (bits_of 32 len) (replicate k2 false ++ replicate k1 false)
    (S (Z.to_nat (bs_length s)))) as (pos&El').
  { done. }
  { done. }
  { pose proof (length_bits s (proj1 Hs)) as Hls. rewrite Hsb, !length_app in Hls.
    pose proof (length_blocks len bs 0). lia. }
  cbn [app length] in El'. rewrite Z.sub_0_r in El'. change (zlen (bits_of 32 len)) with 32 in El'.
  change (Z.of_nat 0) with 0 in El'. rewrite El', bind_of_Ok. unfold guard_or. by rewrite Z.eqb_refl.
Qed.

(** ** Every text is decoded or refused *)

Lemma a2b_base64_errors l : forall q lc p, a2b_base64 q lc p l <> Err OutOfFuel.
Proof.
  induction l as [|c l IH]; intros q lc p; cbn [a2b_base64]; [by destruct (q =? 0)|].
  destruct (c =? 61); [destruct (_ && _); [done|apply IH]|].
  destruct (position STD_ALPHABET c) as [v|]; [|apply IH].
  destruct (q =? 0); [apply IH|]. destruct (q =? 1); [|destruct (q =? 2)];
    match goal with |- (a2b_base64 ?a ?b ?c l ≫= _) <> _ => pose proof (IH a b c); by destruct (a2b_base64 a b c l) end.
Qed.

Lemma text_to_bits_ends text :
  match text_to_bits text with Ok d => bytes_ok d | Err e => e <> OutOfFuel end.
Proof.
  unfold text_to_bits, b64decode. destruct (forallb _ _); [|done].
  match goal with |- context [a2b_base64 0 0 0 ?l] => pose proof (a2b_base64_errors l 0 0 0) as He;
    destruct (a2b_base64 0 0 0 l) as [d|e] end.
  - cbn. unfold bitswap8. apply Forall_fmap, Forall_true. intros b. apply (swib_range b 8). lia.
  - cbn. congruence.
Qed.

Lemma field_Ok s a n :
  clean s -> let b := getitem_slice (SrcStr s) (Some a) (Some n) in
  (exists v, to_int b = Ok v) /\ exists d, base_data b = Ok d.
Proof.
  intros Hs b. destruct (slice_range (source_length (SrcStr s)) (Some a) (Some n)) as [b' e'] eqn:E.
  destruct (getitem_slice_spec (SrcStr s) _ _ _ _ (proj1 Hs) E) as [Hwf _].
  split; eexists; [by apply to_int_spec, Hwf|by apply base_data_spec].
Qed.

(** A block moves on in the input, which must not have ended. *)
Lemma block_step_progress s len output opos pos :
  clean s -> 0 <= pos -> 0 <= opos < len ->
  match block_step s len (output, opos, pos) with
  | Ok (_, opos', pos') => pos < bs_length s /\ pos < pos' /\ 0 <= opos'
  | Err e => e <> OutOfFuel
  end.
Proof.
  intros Hs Hp Ho. unfold block_step.
  assert (match bs_getitem s pos with Ok _ => pos < bs_length s | Err e => e <> OutOfFuel end) as Hg.
  { rewrite bs_getitem_spec by apply Hs. destruct (index (bits s) pos) as [x|e] eqn:E.
    - apply index_Ok_inv in E; [|done]. apply lookup_lt_Some in E. pose proof (length_bits s (proj1 Hs)). lia.
    - rewrite index_unfold in E. repeat case_match; congruence. }
  destruct (bs_getitem s pos) as [t|e]; [|done]. rewrite bind_of_Ok. destruct t; cbn [negb].
  - destruct (field_Ok s (pos + 1) (pos + 1 + offset_field_width opos) Hs) as [(v&->) _]. rewrite bind_of_Ok.
    destruct (field_Ok s (pos + 1 + offset_field_width opos) (pos + 1 + offset_field_width opos + 8) Hs) as [(v'&Ev') _].
    assert (0 <= v').
    { destruct (slice_range (source_length (SrcStr s)) (Some (pos + 1 + offset_field_width opos))
        (Some (pos + 1 + offset_field_width opos + 8))) as [b' e'] eqn:E.
      destruct (getitem_slice_spec (SrcStr s) _ _ _ _ (proj1 Hs) E) as [Hwf _].
      rewrite to_int_spec in Ev' by apply Hwf. injection Ev' as <-. apply Z_of_bits_bound. }
    rewrite Ev', bind_of_Ok. unfold guard_or. destruct (0 <=? opos - v); [|done]. rewrite bind_of_Ok.
    pose proof (offset_field_width_pos opos). lia.
  - destruct (field_Ok s (pos + 1) (pos + 1 + 8 * Z.min (len - opos) 3) Hs) as [_ (d&->)]. rewrite bind_of_Ok. lia.
Qed.

Lemma blocks_loop_ends s len : clean s -> forall fuel output opos pos,
  0 <= pos -> 0 <= opos -> bs_length s - pos < Z.of_nat fuel -> (0 < fuel)%nat ->
  blocks_loop fuel s len (output, opos, pos) <> Err OutOfFuel.
Proof.
  intros Hs. induction fuel as [|fuel IH]; intros output opos pos Hp Ho Hf Hpos; [lia|]. cbn [blocks_loop].
  destruct (Z.ltb_spec opos len) as [Hlt|]; [|done].
  pose proof (block_step_progress s len output opos pos Hs Hp ltac:(lia)) as Hstep.
  destruct (block_step s len (output, opos, pos)) as [[[o' p'] pos']|e]; [|by intros [= ->]].
  rewrite bind_of_Ok. destruct Hstep as (Hlt'&Hmv&Hp'). apply IH; lia.
Qed.

(** ** Theorems *)

(** C37: decompression inverts the format.  Any array compressed as literal
    blocks and repeated blocks that copy bytes produced before the block begins,
    written in the ACA alphabet with white space anywhere, decompresses to the
    array. *)
Theorem aca_decompress_correct len bs text :
  0 <= len < 2 ^ 32 -> blocks_ok no_overlap len 0 bs ->
  filter (fun c => c ∉ [32; 9; 10; 13]) text = aca_text (array_bits len bs) ->
  decompress text = Ok (foldl (expand_block len) [] bs).
Proof.
  intros Hlen Hok Ht. rewrite (decompress_array no_overlap len bs text Hlen Hok Ht). f_equal.
  by apply expand_code_spec.
Qed.

(** The array of the standard's example, one repeated block of it cut short by
    the end of the array. *)
Definition sample_blocks : list block :=
  [Literal (lit "abc"); Literal (lit "def"); Repeat 6 6; Literal (lit "ghi"); Repeat 15 200].

Lemma aca_decompress_correct_witness :
  decompress (lit "K" ++ [10; 32] ++ drop 1 (aca_text (array_bits 20 sample_blocks))) = Ok (lit "abcdefabcdefghiabcde").
Proof.
  rewrite (aca_decompress_correct 20 sample_blocks); [vm_compute; reflexivity|lia| |vm_compute; reflexivity].
  repeat first [split | vm_compute; congruence | constructor].
Defined.

(** Decompression ends.  Whatever the text, it is decompressed or an
    exception is raised: each block consumes input, and the end of the input is
    an error. *)
Theorem aca_decompress_ends text : decompress text <> Err OutOfFuel.
Proof.
  unfold decompress. pose proof (text_to_bits_ends text) as Ht.
  destruct (text_to_bits text) as [d|e]; [|by intros [= ->]]. rewrite bind_of_Ok.
  destruct (bs_init_spec (ABytes d) None Ht) as (s&->&Hs&_). rewrite bind_of_Ok.
  destruct (field_Ok s 0 32 Hs) as [(len&->) _]. rewrite bind_of_Ok.
  pose proof (blocks_loop_ends s len Hs (S (Z.to_nat (bs_length s))) (replicate (Z.to_nat len) 0) 0 32) as Hl.
  destruct (blocks_loop _ s len _) as [[[o p] q]|e]; rewrite ?bind_of_Ok.
  - unfold guard_or. by destruct (p =? len).
  - intros [= ->]. apply Hl; [lia|lia|lia|lia|done].
Qed.

(** A repeated block longer than its offset does not repeat: the bytes past the
    position of the block are read as zero. *)
Theorem aca_overlapping_repeat :
  let bs := [Literal (lit "abc"); Repeat 1 5] in
  blocks_ok (fun _ _ _ => True) 8 0 bs /\ foldl (expand_block 8) [] bs = lit "abcccccc"
  /\ decompress (aca_text (array_bits 8 bs)) = Ok (lit "abcc" ++ [0; 0; 0; 0]).
Proof. split; [|split; vm_compute; reflexivity]. repeat first [split | vm_compute; congruence | constructor]. Qed.

(** Text cut short is not refused: a literal block at the end of the input
    gives fewer bytes than the array holds. *)
Example aca_truncated_text :
  decompress (take 6 (aca_text (array_bits 3 [Literal (lit "abc")]))) = Ok [1; 0].
Proof. vm_compute. reflexivity. Qed.
