(* ===== verification/StaplExpr.v ===== *)
(** * STAPL expressions (src/acrobe/stapl/parser.py)

    The expression trees of a STAPL program and the precedence-climbing parser
    [_ExprParser] that builds them from text, Boolean literals included.

    The parser's position is the text that is left.  Characters are those of
    ASCII: [isalnum] and the like are not those of the other alphabets. *)

From Stdlib Require Import Ascii String.
From S2P Require Import Prelude PyText Aca.

Open Scope Z_scope.

(** ** Characters *)

Definition is_digit (c : Z) : bool := between 48 c 57.
Definition is_alpha (c : Z) : bool := between 65 c 90 || between 97 c 122.
Definition is_alnum (c : Z) : bool := is_digit c || is_alpha c.
Definition is_name_char (c : Z) : bool := is_alnum c || (c =? 95).
Definition upper_char (c : Z) : Z := if between 97 c 122 then c - 32 else c.
Definition upper (l : list Z) : list Z := upper_char <$> l.

(** [text.strip()] *)
Fixpoint lstrip (l : list Z) : list Z :=
  match l with
  | c :: l' => if is_text_space c then lstrip l' else l
  | [] => []
  end.

Definition strip (l : list Z) : list Z := reverse (lstrip (reverse (lstrip l))).

(** The longest prefix of characters that satisfy [p], and what follows. *)
Fixpoint span (p : Z -> bool) (l : list Z) : list Z * list Z :=
  match l with
  | c :: l' => if p c then let '(w, rest) := span p l' in (c :: w, rest) else ([], l)
  | [] => ([], [])
  end.

(** [int(text)] of a run of decimal digits *)
Definition int_base10 (l : list Z) : Z := foldl (fun acc c => 10 * acc + (c - 48)) 0 l.

(** ** Boolean literals *)

Inductive raw_format : Type := Bin | Hex | Compressed.

(** [_data] when it is decoded already, the text otherwise. *)
Inductive boolean_data : Type :=
  | Decoded (d : list Z)
  | Raw (text : list Z) (format : raw_format).

Record boolean_literal := mkBoolean {
  literal_data : boolean_data;
  bit_count : Z;
}.

(** [''.join(text.split())] *)
Definition squeeze (l : list Z) : list Z := concat (split_words [] l).

(** The bits of one byte, from the low one. *)
Fixpoint binary_byte (j : Z) (val : Z) (l : list Z) : result Z :=
  match l with
  | [] => Ok val
  | b :: l =>
      if b =? 49 then binary_byte (j + 1) (Z.lor val (Z.shiftl 1 j)) l
      else if b =? 48 then binary_byte (j + 1) val l
      else Err ValueError
  end.

(** The groups of [n] characters of a text. *)
Definition groups (n : nat) (l : list Z) : list (list Z) :=
  (fun i => take n (drop (n * i) l)) <$> seq 0 ((length l + (n - 1)) / n).

(** [_decode_binary_literal] *)
Definition decode_binary_literal (text : list Z) : result (list Z) :=
  mapM (binary_byte 0 0) (groups 8 (reverse (squeeze text))).

(** [int(c, 16)] of one character *)
Definition int16_char (c : Z) : result Z := match digit16 c with Some d => Ok d | None => Err ValueError end.

(** [_decode_hex_literal] *)
Definition hex_pair (l : list Z) : result Z :=
  match l with
  | [] => Err IndexError
  | lo :: rest =>
      l ← int16_char lo; h ← int16_char (List.hd 48 rest); Ok (Z.lor l (Z.shiftl h 4))
  end.

Definition decode_hex_literal (text : list Z) : result (list Z) :=
  mapM hex_pair (groups 2 (reverse (squeeze text))).

Definition LAZY_THRESHOLD : Z := 4096.

(** [_parse_binary_literal], [_parse_hex_literal], [_parse_aca_literal] *)
Definition parse_binary_literal (text : list Z) : result boolean_literal :=
  let clean := squeeze text in
  if LAZY_THRESHOLD <? zlen clean then Ok (mkBoolean (Raw clean Bin) (zlen clean))
  else d ← decode_binary_literal clean; Ok (mkBoolean (Decoded d) (zlen clean)).

Definition parse_hex_literal (text : list Z) : result boolean_literal :=
  let clean := squeeze text in
  if LAZY_THRESHOLD <? zlen clean then Ok (mkBoolean (Raw clean Hex) (zlen clean * 4))
  else d ← decode_hex_literal clean; Ok (mkBoolean (Decoded d) (zlen clean * 4)).

Definition parse_aca_literal (text : list Z) : result boolean_literal :=
  let clean := squeeze text in
  header ← text_to_bits (slice_to clean 8);
  Ok (mkBoolean (Raw clean Compressed) (from_le (slice_to header 4) * 8)).

(** [BooleanLiteral.data] *)
Definition boolean_bytes (b : boolean_literal) : result (list Z) :=
  match literal_data b with
  | Decoded d => Ok d
  | Raw text Compressed => decompress text
  | Raw text Hex => decode_hex_literal text
  | Raw text Bin => decode_binary_literal text
  end.

(** ** Expressions *)

Inductive unop : Type := Neg | Com | Not.

Inductive binop : Type :=
  | LOr | LAnd | BOr | BXor | BAnd | Eq | Ne | Lt | Le | Gt | Ge | Shl | Shr | Add | Sub | Mul | Div | Mod.

Inductive func : Type := ABS | INT | BOOL | CHR.

Inductive expr : Type :=
  | IntLiteral (v : Z)
  | VarRef (name : list Z)
  | ArrayIndex (name : list Z) (index : expr)
  | ArraySubrange (name : list Z) (high low : expr)
  | ArrayWhole (name : list Z)
  | UnaryOp (op : unop) (operand : expr)
  | BinOp (op : binop) (lhs rhs : expr)
  | FuncCall (name : func) (arg : expr)
  | BooleanLiteral (b : boolean_literal).

(** [_PREC]: a higher number binds tighter. *)
Definition PREC (op : binop) : Z :=
  match op with
  | LOr => 1
  | LAnd => 2
  | BOr => 3
  | BXor => 4
  | BAnd => 5
  | Eq | Ne => 6
  | Lt | Le | Gt | Ge => 7
  | Shl | Shr => 8
  | Add | Sub => 9
  | Mul | Div | Mod => 10
  end.

(** ** The parser *)

Definition is_blank (c : Z) : bool := (c =? 32) || (c =? 9).

Fixpoint skip_ws (l : list Z) : list Z :=
  match l with
  | c :: l' => if is_blank c then skip_ws l' else l
  | [] => []
  end.

(** [_peek_operator], and the text after the operator. *)
Definition peek_operator (l : list Z) : option (binop * list Z) :=
  match l with
  | [] => None
  | a :: rest =>
      let one :=
        if a =? 43 then Some (Add, rest) else if a =? 45 then Some (Sub, rest) else if a =? 42 then Some (Mul, rest)
        else if a =? 47 then Some (Div, rest) else if a =? 37 then Some (Mod, rest) else if a =? 60 then Some (Lt, rest)
        else if a =? 62 then Some (Gt, rest) else if a =? 38 then Some (BAnd, rest) else if a =? 124 then Some (BOr, rest)
        else if a =? 94 then Some (BXor, rest) else None in
      match rest with
      | b :: rest' =>
          if (a =? 61) && (b =? 61) then Some (Eq, rest') else if (a =? 33) && (b =? 61) then Some (Ne, rest')
          else if (a =? 60) && (b =? 61) then Some (Le, rest') else if (a =? 62) && (b =? 61) then Some (Ge, rest')
          else if (a =? 60) && (b =? 60) then Some (Shl, rest') else if (a =? 62) && (b =? 62) then Some (Shr, rest')
          else if (a =? 38) && (b =? 38) then Some (LAnd, rest') else if (a =? 124) && (b =? 124) then Some (LOr, rest')
          else one
      | [] => one
      end
  end.

(** [assert self._text[self._pos] == c], then past it *)
Definition expect (c : Z) (l : list Z) : result (list Z) :=
  match l with
  | [] => Err IndexError
  | x :: l => if x =? c then Ok l else Err AssertionError
  end.

(** [_parse_boolean_literal], after its first character *)
Definition parse_boolean_literal (ch : Z) (l : list Z) : result (expr * list Z) :=
  if ch =? 35 then
    let '(w, rest) := span (fun c => (c =? 48) || (c =? 49) || is_blank c) l in
    b ← parse_binary_literal w; Ok (BooleanLiteral b, rest)
  else if ch =? 36 then
    let '(w, rest) := span (fun c => is_digit c || between 97 c 102 || between 65 c 70 || is_blank c) l in
    b ← parse_hex_literal w; Ok (BooleanLiteral b, rest)
  else
    let '(w, rest) := span (fun c => is_alnum c || (c =? 95) || (c =? 64)) l in
    b ← parse_aca_literal w; Ok (BooleanLiteral b, rest).

Definition function_of (name : list Z) : option func :=
  let u := upper name in
  if bool_decide (u = lit "ABS") then Some ABS
  else if bool_decide (u = lit "INT") then Some INT
  else if bool_decide (u = lit "BOOL") then Some BOOL
  else None.

Fixpoint parse_level (fuel : nat) (min_prec : Z) (l : list Z) : result (expr * list Z) :=
  match fuel with
  | O => Err OutOfFuel
  | S fuel => '(lhs, l) ← parse_unary fuel l; binop_loop fuel min_prec lhs l
  end

(** the loop of [_parse_expr] *)
with binop_loop (fuel : nat) (min_prec : Z) (lhs : expr) (l : list Z) : result (expr * list Z) :=
  match fuel with
  | O => Err OutOfFuel
  | S fuel =>
      let l := skip_ws l in
      match peek_operator l with
      | None => Ok (lhs, l)
      | Some (op, l') =>
          if PREC op <? min_prec then Ok (lhs, l)
          else
            '(rhs, l) ← parse_level fuel (PREC op + 1) l';
            binop_loop fuel min_prec (BinOp op lhs rhs) l
      end
  end

with parse_unary (fuel : nat) (l : list Z) : result (expr * list Z) :=
  match fuel with
  | O => Err OutOfFuel
  | S fuel =>
      match skip_ws l with
      | [] => Err ValueError
      | ch :: rest =>
          if ch =? 126 then '(e, l) ← parse_unary fuel rest; Ok (UnaryOp Com e, l)
          else if (ch =? 33) && negb (bool_decide (head rest = Some 61))
          then '(e, l) ← parse_unary fuel rest; Ok (UnaryOp Not e, l)
          else if ch =? 45 then '(e, l) ← parse_unary fuel rest; Ok (UnaryOp Neg e, l)
          else parse_primary fuel (ch :: rest)
      end
  end

with parse_primary (fuel : nat) (l : list Z) : result (expr * list Z) :=
  match fuel with
  | O => Err OutOfFuel
  | S fuel =>
      match skip_ws l with
      | [] => Err ValueError
      | ch :: rest =>
          if ch =? 40 then
            '(e, l) ← parse_level fuel 0 rest;
            match skip_ws l with
            | c :: l => if c =? 41 then Ok (e, l) else Err ValueError
            | [] => Err ValueError
            end
          else if is_digit ch then
            let '(w, rest) := span is_digit (ch :: rest) in Ok (IntLiteral (int_base10 w), rest)
          else if (ch =? 35) || (ch =? 36) || (ch =? 64) then parse_boolean_literal ch rest
          else if is_alpha ch || (ch =? 95) then parse_identifier fuel (ch :: rest)
          else Err ValueError
      end
  end

with parse_identifier (fuel : nat) (l : list Z) : result (expr * list Z) :=
  match fuel with
  | O => Err OutOfFuel
  | S fuel =>
      let '(name, l) := span is_name_char l in
      let l := skip_ws l in
      match (if bool_decide (head l = Some 40) then function_of name else None) with
      | Some f =>
          '(arg, l) ← parse_level fuel 0 (List.tl l); l ← expect 41 (skip_ws l); Ok (FuncCall f arg, l)
      | None =>
          if bool_decide (upper name = lit "CHR") && bool_decide (head l = Some 36) then
            l ← expect 40 (skip_ws (List.tl l));
            '(arg, l) ← parse_level fuel 0 l; l ← expect 41 (skip_ws l); Ok (FuncCall CHR arg, l)
          else if bool_decide (head l = Some 91) then
            let l := skip_ws (List.tl l) in
            if bool_decide (head l = Some 93) then Ok (ArrayWhole name, List.tl l)
            else
              '(first, l) ← parse_level fuel 0 l;
              let l := skip_ws l in
              if bool_decide (take 2 l = [46; 46]) then
                '(second, l) ← parse_level fuel 0 (drop 2 l); l ← expect 93 (skip_ws l);
                Ok (ArraySubrange name first second, l)
              else l ← expect 93 l; Ok (ArrayIndex name first, l)
          else Ok (VarRef name, l)
      end
  end.

(** Four calls at most between two characters. *)
Definition parse_fuel (l : list Z) : nat := 4 * length l + 4.

(** [parse_expr]: what follows the expression is not looked at. *)
Definition parse_expr (text : list Z) : result expr :=
  match strip text with
  | [] => Err ValueError
  | l => '(e, _) ← parse_level (parse_fuel l) 0 l; Ok e
  end.

Example parse_sample :
  parse_expr (lit " a[1 + i*2..0] == -b && !(c << 3 < $0F)")
  = Ok (BinOp LAnd
      (BinOp Eq (ArraySubrange (lit "a") (BinOp Add (IntLiteral 1) (BinOp Mul (VarRef (lit "i")) (IntLiteral 2))) (IntLiteral 0))
         (UnaryOp Neg (VarRef (lit "b"))))
      (UnaryOp Not (BinOp Lt (BinOp Shl (VarRef (lit "c")) (IntLiteral 3)) (BooleanLiteral (mkBoolean (Decoded [15]) 8))))).
Proof. vm_compute. reflexivity. Qed.

(** ** The parser ends *)

(** Not cut short, and no longer text than [k] left. *)
Definition bounded (k : nat) (r : result (expr * list Z)) : Prop :=
  match r with Ok (_, l) => (length l <= k)%nat | Err e => e <> OutOfFuel end.

Lemma bounded_bind k k' r (f : expr * list Z -> result (expr * list Z)) :
  bounded k r -> (forall e l, (length l <= k)%nat -> bounded k' (f (e, l))) -> bounded k' (r ≫= f).
Proof. intros Hr Hf. destruct r as [[e l]|e]; [by apply Hf|done]. Qed.

Lemma bounded_mono k k' r : bounded k r -> (k <= k')%nat -> bounded k' r.
Proof. destruct r as [[e l]|e]; cbn; [lia|done]. Qed.

Lemma bounded_expect k c l (f : list Z -> result (expr * list Z)) :
  (forall l', (length l' <= length l)%nat -> bounded k (f l')) -> bounded k (l' ← expect c l; f l').
Proof.
  intros Hf. destruct l as [|x l]; [done|]. cbn [expect]. destruct (x =? c); [|done]. apply Hf. cbn [length]. lia.
Qed.

Lemma skip_ws_length l : (length (skip_ws l) <= length l)%nat.
Proof. induction l as [|c l IH]; [done|]. cbn [skip_ws]. destruct (is_blank c); cbn [length] in *; lia. Qed.

Lemma span_length p l : (length (snd (span p l)) <= length l)%nat.
Proof.
  induction l as [|c l IH]; [done|]. cbn [span]. destruct (p c); [|done].
  destruct (span p l) as [w rest]. cbn [snd length] in *. lia.
Qed.

Lemma peek_operator_length l op l' : peek_operator l = Some (op, l') -> (length l' < length l)%nat.
Proof.
  unfold peek_operator. intros H. destruct l as [|a [|b l]]; [done|..]; cbn [length];
    repeat (case_match; simplify_eq/=; try lia).
Qed.

Lemma tail_length (l : list Z) c : head l = Some c -> (S (length (List.tl l)) = length l)%nat.
Proof. by destruct l. Qed.

Lemma mapM_ends {A B} (f : A -> result B) l : (forall x, f x <> Err OutOfFuel) -> mapM f l <> Err OutOfFuel.
Proof.
  intros Hf. induction l as [|x l IH]; [done|]. cbn [mapM]. specialize (Hf x).
  destruct (f x) as [y|e]; cbn; [|congruence]. by destruct (mapM f l); cbn; [|congruence].
Qed.

Lemma binary_byte_ends l : forall j v, binary_byte j v l <> Err OutOfFuel.
Proof.
  induction l as [|b l IH]; intros j v; cbn [binary_byte]; [done|].
  destruct (b =? 49); [apply IH|]. destruct (b =? 48); [apply IH|done].
Qed.

Lemma hex_pair_ends l : hex_pair l <> Err OutOfFuel.
Proof. unfold hex_pair, int16_char. destruct l as [|x l]; [done|]. by destruct (digit16 x), (digit16 (List.hd 48 l)). Qed.

Lemma boolean_literal_bounded ch l : bounded (length l) (parse_boolean_literal ch l).
Proof.
  assert (forall (r : result boolean_literal) rest, r <> Err OutOfFuel -> (length rest <= length l)%nat ->
    bounded (length l) (b ← r; Ok (BooleanLiteral b, rest))) as H.
  { intros r rest Hr Hl. destruct r; cbn; [done|congruence]. }
  unfold parse_boolean_literal. destruct (ch =? 35); [|destruct (ch =? 36)];
    match goal with |- context [span ?p l] => pose proof (span_length p l); destruct (span p l) as [w rest] end;
    cbn [snd] in *; apply H; try done.
  - unfold parse_binary_literal. destruct (LAZY_THRESHOLD <? _); [done|].
    pose proof (mapM_ends (binary_byte 0 0) (groups 8 (reverse (squeeze (squeeze w)))) (fun l => binary_byte_ends l 0 0)).
    unfold decode_binary_literal. destruct (mapM _ _); cbn; congruence.
  - unfold parse_hex_literal. destruct (LAZY_THRESHOLD <? _); [done|].
    pose proof (mapM_ends hex_pair (groups 2 (reverse (squeeze (squeeze w)))) hex_pair_ends).
    unfold decode_hex_literal. destruct (mapM _ _); cbn; congruence.
  - unfold parse_aca_literal. pose proof (text_to_bits_ends (slice_to (squeeze w) 8)).
    destruct (text_to_bits _); cbn; congruence.
Qed.

(** The fuel each function needs. *)
Lemma parser_bounded n :
  (forall p l, (4 * length l + 3 <= n)%nat -> bounded (length l) (parse_level n p l))
  /\ (forall p e l, (4 * length l + 1 <= n)%nat -> bounded (length l) (binop_loop n p e l))
  /\ (forall l, (4 * length l + 2 <= n)%nat -> bounded (length l) (parse_unary n l))
  /\ (forall l, (4 * length l + 1 <= n)%nat -> bounded (length l) (parse_primary n l))
  /\ (forall l, (4 * length l <= n)%nat -> (1 <= n)%nat -> bounded (length l) (parse_identifier n l)).
Proof.
  induction n as [|n (Hlevel&Hloop&Hunary&Hprimary&Hident)]; [split_and!; intros; lia|].
  assert (forall k (r : result (expr * list Z)) (f : expr * list Z -> result (expr * list Z)) k',
    bounded k' r -> (k' <= k)%nat -> (forall e l, (length l <= k')%nat -> bounded k (f (e, l))) ->
    bounded k (r ≫= f)) as Hbind by (intros; by eapply bounded_bind).
  split_and!.
  - intros p l Hn. cbn [parse_level]. eapply Hbind; [apply Hunary; lia|done|]. intros e l' Hl'.
    eapply bounded_mono; [apply Hloop; lia|done].
  - intros p e l Hn. cbn [binop_loop]. pose proof (skip_ws_length l) as Hws.
    destruct (peek_operator (skip_ws l)) as [[op l']|] eqn:E; [|cbn; lia].
    apply peek_operator_length in E. destruct (PREC op <? p); [cbn; lia|].
    eapply Hbind; [apply Hlevel; lia|lia|]. intros rhs l'' Hl''. eapply bounded_mono; [apply Hloop; lia|lia].
  - intros l Hn. cbn [parse_unary]. pose proof (skip_ws_length l) as Hws.
    destruct (skip_ws l) as [|ch rest] eqn:E; [done|]. cbn [length] in Hws.
    assert (forall op, bounded (length l) ('(e, l) ← parse_unary n rest; Ok (UnaryOp op e, l))) as Hop.
    { intros op. eapply Hbind; [apply Hunary; lia|lia|]. intros e l' Hl'. cbn. lia. }
    destruct (ch =? 126); [apply Hop|]. destruct (_ && _); [apply Hop|]. destruct (ch =? 45); [apply Hop|].
    eapply bounded_mono; [apply Hprimary; cbn [length]; lia|cbn [length]; lia].
  - intros l Hn. cbn [parse_primary]. pose proof (skip_ws_length l) as Hws.
    destruct (skip_ws l) as [|ch rest] eqn:E; [done|]. cbn [length] in Hws.
    destruct (ch =? 40).
    { eapply Hbind; [apply Hlevel; lia|lia|]. intros e l' Hl'. pose proof (skip_ws_length l') as Hws'.
      destruct (skip_ws l') as [|c l'']; [done|]. cbn [length] in Hws'. destruct (c =? 41); [cbn; lia|done]. }
    destruct (is_digit ch).
    { pose proof (span_length is_digit (ch :: rest)) as Hs. destruct (span is_digit (ch :: rest)) as [w rest'].
      cbn [snd length bounded] in *. lia. }
    destruct (_ || _ || _); [eapply bounded_mono; [apply boolean_literal_bounded|lia]|].
    destruct (_ || _); [|done]. eapply bounded_mono; [apply Hident; cbn [length]; lia|cbn [length]; lia].
  - intros l Hn _. cbn [parse_identifier]. pose proof (span_length is_name_char l) as Hs.
    destruct (span is_name_char l) as [name l1]. cbn [snd] in Hs. pose proof (skip_ws_length l1) as Hws.
    set (l2 := skip_ws l1) in *.
    assert (forall f l3, (length l3 < length l)%nat ->
      bounded (length l) ('(arg, l) ← parse_level n 0 l3; l ← expect 41 (skip_ws l); Ok (FuncCall f arg, l))) as Hcall.
    { intros f l3 Hl3. eapply Hbind; [apply Hlevel; lia|lia|]. intros arg l4 Hl4. apply bounded_expect.
      intros l5 Hl5. pose proof (skip_ws_length l4). cbn. lia. }
    destruct (if bool_decide (head l2 = Some 40) then function_of name else None) as [f|] eqn:Ef.
    { case_bool_decide as Hh; [|done]. apply tail_length in Hh. apply Hcall. lia. }
    clear Ef. destruct (_ && _) eqn:Ec.
    { apply andb_true_iff in Ec as [_ Hh%bool_decide_eq_true]. apply tail_length in Hh.
      apply bounded_expect. intros l3 Hl3. pose proof (skip_ws_length (List.tl l2)). apply Hcall. lia. }
    clear Ec. case_bool_decide as Hh; [|cbn; lia]. apply tail_length in Hh. cbv zeta.
    pose proof (skip_ws_length (List.tl l2)) as Hws3. set (l3 := skip_ws (List.tl l2)) in *.
    case_bool_decide as Hh'; [apply tail_length in Hh'; cbn; lia|].
    eapply Hbind; [apply Hlevel; lia|lia|]. intros first l4 Hl4. pose proof (skip_ws_length l4) as Hws4.
    case_bool_decide as Hdots.
    + eapply (Hbind _ _ _ (length (drop 2 (skip_ws l4)))); [apply Hlevel; rewrite length_drop; lia|rewrite length_drop; lia|].
      intros second l5 Hl5. apply bounded_expect. intros l6 Hl6. pose proof (skip_ws_length l5).
      rewrite length_drop in Hl5. cbn. lia.
    + apply bounded_expect. intros l5 Hl5. cbn. lia.
Qed.

(** ** Printing *)

Definition op_text (op : binop) : list Z :=
  match op with
  | LOr => lit "||" | LAnd => lit "&&" | BOr => lit "|" | BXor => lit "^" | BAnd => lit "&"
  | Eq => lit "==" | Ne => lit "!=" | Lt => lit "<" | Le => lit "<=" | Gt => lit ">" | Ge => lit ">="
  | Shl => lit "<<" | Shr => lit ">>" | Add => lit "+" | Sub => lit "-" | Mul => lit "*" | Div => lit "/" | Mod => lit "%"
  end.

Definition unop_char (op : unop) : Z := match op with Neg => 45 | Com => 126 | Not => 33 end.

Definition func_text (f : func) : list Z :=
  match f with ABS => lit "ABS" | INT => lit "INT" | BOOL => lit "BOOL" | CHR => lit "CHR$" end.

Definition bit_char (b : bool) : Z := if b then 49 else 48.

(** A decoded literal in binary: the highest bit first. *)
Definition boolean_text (b : boolean_literal) : list Z :=
  match literal_data b with
  | Decoded d => lit "#" ++ reverse (bit_char <$> BitString.bits_raw d (bit_count b))
  | Raw text _ => text
  end.

#[global] Instance binop_eq_dec : EqDecision binop.
Proof. solve_decision. Defined.

(** The operators of the grammar, tier by tier from the loosest to the
    tightest. *)
Definition tiers : list (list binop) :=
  [[LOr]; [LAnd]; [BOr]; [BXor]; [BAnd]; [Eq; Ne]; [Lt; Le; Gt; Ge]; [Shl; Shr]; [Add; Sub]; [Mul; Div; Mod]].

Definition tier (op : binop) : Z :=
  match list_find (fun t => op ∈ t) tiers with Some (i, _) => Z.of_nat i + 1 | None => 0 end.

Lemma PREC_tier op : PREC op = tier op.
Proof. by destruct op. Qed.

(** An expression where operators that bind looser than [p] need
    parentheses. *)
Fixpoint show (p : Z) (e : expr) : list Z :=
  match e with
  | IntLiteral v => format_d v
  | VarRef name => name
  | ArrayIndex name i => name ++ lit "[" ++ show 0 i ++ lit "]"
  | ArraySubrange name high low => name ++ lit "[" ++ show 0 high ++ lit ".." ++ show 0 low ++ lit "]"
  | ArrayWhole name => name ++ lit "[]"
  | UnaryOp op operand => unop_char op :: show 11 operand
  | BinOp op lhs rhs =>
      let inner := show (tier op) lhs ++ lit " " ++ op_text op ++ lit " " ++ show (tier op + 1) rhs in
      if tier op <? p then lit "(" ++ inner ++ lit ")" else inner
  | FuncCall f arg => func_text f ++ lit "(" ++ show 0 arg ++ lit ")"
  | BooleanLiteral b => boolean_text b
  end.

(** ** What the parser can give back *)

Definition name_ok (name : list Z) : Prop :=
  match name with
  | [] => False
  | c :: rest => (is_alpha c || (c =? 95)) = true /\ forallb is_name_char rest = true
  end.

(** A literal decoded at once: exactly the bytes of its bits. *)
Definition literal_ok (b : boolean_literal) : Prop :=
  match literal_data b with
  | Decoded d => BitString.clean_bytes d (bit_count b) /\ bit_count b <= LAZY_THRESHOLD
  | Raw _ _ => False
  end.

Fixpoint expr_ok (e : expr) : Prop :=
  match e with
  | IntLiteral v => 0 <= v
  | VarRef name | ArrayWhole name => name_ok name
  | ArrayIndex name i => name_ok name /\ expr_ok i
  | ArraySubrange name high low => name_ok name /\ expr_ok high /\ expr_ok low
  | UnaryOp _ operand => expr_ok operand
  | BinOp _ lhs rhs => expr_ok lhs /\ expr_ok rhs
  | FuncCall _ arg => expr_ok arg
  | BooleanLiteral b => literal_ok b
  end.

(** What may follow an expression: nothing that could be part of it. *)
Definition ends_expr (l : list Z) : Prop :=
  match skip_ws l with
  | [] => True
  | c :: _ => is_name_char c = false /\ c <> 91 /\ c <> 40 /\ c <> 36 /\ c <> 64
  end.

Definition stops (p : Z) (l : list Z) : Prop :=
  ends_expr l /\ match peek_operator (skip_ws l) with None => True | Some (op, _) => tier op < p end.

Lemma stops_mono p p' l : stops p l -> p <= p' -> stops p' l.
Proof. intros [He Hp] Hle. split; [done|]. destruct (peek_operator (skip_ws l)) as [[op ?]|]; [lia|done]. Qed.

Lemma skip_ws_idem l : skip_ws (skip_ws l) = skip_ws l.
Proof.
  induction l as [|c l IH]; [done|]. cbn [skip_ws]. destruct (is_blank c) eqn:E; [done|]. cbn [skip_ws]. by rewrite E.
Qed.

Lemma binop_loop_skip fuel p e l l' : skip_ws l = skip_ws l' -> binop_loop fuel p e l = binop_loop fuel p e l'.
Proof. intros H. destruct fuel; [done|]. cbn [binop_loop]. by rewrite H. Qed.

(** *** Tokens *)

Lemma span_app p w rest :
  forallb p w = true -> match rest with [] => True | c :: _ => p c = false end -> span p (w ++ rest) = (w, rest).
Proof.
  intros Hw Hr. induction w as [|c w IH]; cbn [app].
  - destruct rest as [|c rest]; [done|]. cbn [span]. by rewrite Hr.
  - cbn [forallb] in Hw. apply andb_true_iff in Hw as [Hc Hw]. cbn [span]. by rewrite Hc, IH.
Qed.

(** The text that follows does not begin with a character of [p], when [p] has
    neither blanks nor what may follow. *)
Lemma ends_expr_head (p : Z -> bool) l :
  ends_expr l -> (forall c, is_blank c = true -> p c = false) ->
  (forall c, is_name_char c = false -> c <> 91 -> c <> 40 -> c <> 36 -> c <> 64 -> p c = false) ->
  match l with [] => True | c :: _ => p c = false end.
Proof.
  intros He Hb Hp. destruct l as [|c l]; [done|]. unfold ends_expr in He. cbn [skip_ws] in He.
  destruct (is_blank c) eqn:E; [by apply Hb|]. destruct He as (?&?&?&?&?). by apply Hp.
Qed.

Lemma name_not_blank c : is_blank c = true -> is_name_char c = false.
Proof.
  unfold is_blank. intros H. apply orb_true_iff in H as [H|H]; apply Z.eqb_eq in H; subst c; reflexivity.
Qed.

Lemma digit_name c : is_digit c = true -> is_name_char c = true.
Proof. unfold is_name_char, is_alnum. by intros ->. Qed.

Lemma name_chars name : name_ok name -> forallb is_name_char name = true /\ exists c l, name = c :: l
  /\ (is_alpha c || (c =? 95)) = true.
Proof.
  destruct name as [|c l]; [done|]. intros [Hc Hl]. split; [|by exists c, l]. cbn [forallb]. rewrite Hl, andb_true_r.
  unfold is_name_char, is_alnum. destruct (is_alpha c); [by rewrite orb_true_r|]. cbn [orb] in Hc. by rewrite Hc, orb_true_r.
Qed.

(** The characters a primary begins with. *)
Lemma alpha_start c : (is_alpha c || (c =? 95)) = true ->
  is_blank c = false /\ is_digit c = false /\ c <> 40 /\ c <> 35 /\ c <> 36 /\ c <> 64 /\ c <> 126 /\ c <> 33 /\ c <> 45
  /\ c <> 93 /\ c <> 61.
Proof.
  unfold is_alpha, is_blank, is_digit, between. rewrite !orb_true_iff, !andb_true_iff. intros H.
  assert (65 <= c <= 90 \/ 97 <= c <= 122 \/ c = 95) by lia.
  split_and!; try lia; apply not_true_iff_false; rewrite ?orb_true_iff, ?andb_true_iff; lia.
Qed.

Lemma op_text_peek op rest : peek_operator (op_text op ++ 32 :: rest) = Some (op, 32 :: rest).
Proof. by destruct op. Qed.

Lemma op_text_ends op rest : ends_expr (lit " " ++ op_text op ++ 32 :: rest).
Proof. by destruct op; vm_compute. Qed.

Lemma op_text_stops op p rest : tier op < p -> stops p (lit " " ++ op_text op ++ lit " " ++ rest).
Proof.
  intros Hp. split; [apply op_text_ends|]. cbn [app skip_ws lit].
  assert (skip_ws (lit " " ++ op_text op ++ lit " " ++ rest) = op_text op ++ 32 :: rest) as -> by by destruct op.
  by rewrite op_text_peek.
Qed.

(** *** Binary literals *)

Lemma skip_ws_split l : exists blanks, l = blanks ++ skip_ws l /\ forallb is_blank blanks = true.
Proof.
  induction l as [|c l (bl&Hl&Hb)]; [by exists []|]. cbn [skip_ws]. destruct (is_blank c) eqn:E; [|by exists []].
  exists (c :: bl). cbn [app forallb]. rewrite E, <- Hl. done.
Qed.

Lemma squeeze_word w blanks :
  forallb (fun c => negb (is_text_space c)) w = true -> forallb is_text_space blanks = true -> squeeze (w ++ blanks) = w.
Proof.
  intros Hw Hb. unfold squeeze.
  assert (forall l acc, forallb is_text_space l = true -> concat (split_words acc l) = acc) as Htail.
  { induction l as [|c l IH]; intros acc Hl; cbn [split_words].
    - destruct acc; cbn; by rewrite ?app_nil_r.
    - cbn [forallb] in Hl. apply andb_true_iff in Hl as [-> Hl]. destruct acc as [|x acc]; [by apply IH|].
      cbn [concat]. by rewrite IH, app_nil_r. }
  assert (forall acc, concat (split_words acc (w ++ blanks)) = acc ++ w) as H; [|apply H].
  induction w as [|c w IH]; intros acc; cbn [app]; [by rewrite Htail, app_nil_r|].
  cbn [forallb] in Hw. apply andb_true_iff in Hw as [Hc%negb_true_iff Hw]. cbn [split_words].
  rewrite Hc, IH, <- app_assoc by done. done.
Qed.

Lemma binary_byte_bits l : forall j v,
  0 <= j -> 0 <= v < 2 ^ j -> binary_byte j v (bit_char <$> l) = Ok (v + 2 ^ j * Z_of_bits l).
Proof.
  induction l as [|b l IH]; intros j v Hj Hv; [cbn; f_equal; lia|]. rewrite fmap_cons. cbn [binary_byte Z_of_bits].
  assert (2 ^ (j + 1) = 2 * 2 ^ j) as Hp by (rewrite Z.pow_add_r by lia; lia). destruct b; cbn [bit_char Z.eqb Pos.eqb].
  - rewrite Z.lor_comm, lor_shiftl by lia. rewrite IH by lia. f_equal. cbn [Z.b2z]. rewrite Hp. lia.
  - rewrite IH by lia. f_equal. cbn [Z.b2z]. rewrite Hp. lia.
Qed.

Lemma groups_cons n l : (0 < n)%nat -> l <> [] -> groups n l = take n l :: groups n (drop n l).
Proof.
  intros Hn Hl. unfold groups. rewrite length_drop.
  assert ((length l + (n - 1)) / n = S ((length l - n + (n - 1)) / n))%nat as ->.
  { destruct (decide (length l <= n)%nat).
    - replace (length l - n + (n - 1))%nat with (n - 1)%nat by lia. rewrite (Nat.div_small (n - 1)) by lia.
      assert (0 < length l)%nat by (destruct l; [done|simpl; lia]).
      symmetry. apply (Nat.div_unique _ _ _ (length l - 1)); lia.
    - replace (length l + (n - 1))%nat with (1 * n + (length l - n + (n - 1)))%nat by lia.
      rewrite Nat.div_add_l by lia. lia. }
  cbn [seq]. rewrite fmap_cons, Nat.mul_0_r, drop_0. f_equal. rewrite <- seq_shift, <- list_fmap_compose.
  apply list_fmap_ext. intros i x _. unfold compose. rewrite drop_drop. f_equal. f_equal. lia.
Qed.

Lemma pack_cons l : l <> [] -> BitString.pack l = Z_of_bits (take 8 l) :: BitString.pack (drop 8 l).
Proof.
  intros Hl. assert (0 < length l)%nat by (destruct l; [done|simpl; lia]). unfold BitString.pack.
  assert (byte_count (zlen l) = 1 + byte_count (zlen (drop 8 l))) as ->
    by (rewrite length_drop; unfold byte_count; div_lia).
  rewrite Z2Nat.inj_add by (unfold byte_count; div_lia). change (Z.to_nat 1) with 1%nat. cbn [Nat.add le_bytes].
  pose proof (Z_of_bits_bound (take 8 l)) as Hb. rewrite length_take in Hb.
  assert (2 ^ Z.of_nat (8 `min` length l) <= 256) by (change 256 with (2 ^ 8); apply Z.pow_le_mono_r; lia).
  assert (Z_of_bits l = Z_of_bits (take 8 l) + 256 * Z_of_bits (drop 8 l)) as Hv.
  { rewrite <- (take_drop 8 l) at 1. rewrite Z_of_bits_app. destruct (decide (8 <= length l)%nat).
    - rewrite length_take, Nat.min_l by lia. done.
    - rewrite drop_ge by lia. cbn [Z_of_bits]. lia. }
  assert (Z_of_bits l mod 256 = Z_of_bits (take 8 l)) as -> by (rewrite Hv; div_lia).
  assert (Z_of_bits l / 256 = Z_of_bits (drop 8 l)) as -> by (rewrite Hv; div_lia). done.
Qed.

Lemma decode_binary_bits l : mapM (binary_byte 0 0) (groups 8 (bit_char <$> l)) = Ok (BitString.pack l).
Proof.
  assert (forall n l, (length l <= n)%nat -> mapM (binary_byte 0 0) (groups 8 (bit_char <$> l)) = Ok (BitString.pack l)) as H.
  { clear. induction n as [|n IH]; intros l Hl; [by destruct l; [|simpl in Hl; lia]|].
    destruct (decide (l = [])) as [->|Hne]; [done|].
    rewrite groups_cons, <- fmap_take, <- fmap_drop by (lia || by destruct l). cbn [mapM].
    rewrite binary_byte_bits by lia. rewrite IH by (rewrite length_drop; destruct l; [done|simpl in *; lia]).
    rewrite (pack_cons l Hne). cbn -[Z_of_bits BitString.pack take drop Z.mul Z.add]. do 2 f_equal. lia. }
  by eapply H.
Qed.

Lemma parse_binary_text b rest :
  literal_ok b -> ends_expr rest ->
  exists l, boolean_text b = 35 :: l /\ parse_boolean_literal 35 (l ++ rest) = Ok (BooleanLiteral b, skip_ws rest).
Proof.
  unfold literal_ok, boolean_text. destruct b as [[d|] n]; cbn [literal_data bit_count]; [|done].
  intros [Hd Hn] He. eexists. split; [done|].
  set (bs := BitString.bits_raw d n). set (w := reverse (bit_char <$> bs)).
  assert (zlen w = n) as Hlen.
  { unfold w. rewrite length_reverse, length_fmap. unfold bs. destruct Hd as (?&?&?&?).
    apply BitString.length_bits_raw. pose proof (byte_count_spec n). lia. }
  assert (forallb (fun c => (c =? 48) || (c =? 49)) w = true) as Hw.
  { unfold w. apply forallb_forall. intros c Hc%list_elem_of_In. rewrite elem_of_reverse in Hc.
    apply list_elem_of_fmap in Hc as (b&->&_). by destruct b. }
  destruct (skip_ws_split rest) as (blanks&Er&Hb).
  cbn [parse_boolean_literal Z.eqb Pos.eqb]. unfold parse_boolean_literal. cbn [Z.eqb Pos.eqb].
  rewrite Er at 1. rewrite app_assoc, span_app.
  - unfold parse_binary_literal. rewrite squeeze_word.
    2: { apply forallb_forall. intros c Hc. rewrite forallb_forall in Hw. apply Hw in Hc.
         apply orb_true_iff in Hc as [Hc|Hc]; apply Z.eqb_eq in Hc; by subst c. }
    2: { apply forallb_forall. intros c Hc. rewrite forallb_forall in Hb. apply Hb in Hc.
         unfold is_blank in Hc. apply orb_true_iff in Hc as [Hc|Hc]; apply Z.eqb_eq in Hc; by subst c. }
    rewrite Hlen, (proj2 (Z.ltb_ge _ _)) by done. unfold decode_binary_literal.
    rewrite <- (app_nil_r w) at 1. rewrite squeeze_word; [|..|done].
    2: { apply forallb_forall. intros c Hc. rewrite forallb_forall in Hw. apply Hw in Hc.
         apply orb_true_iff in Hc as [Hc|Hc]; apply Z.eqb_eq in Hc; by subst c. }
    unfold w. rewrite reverse_involutive, decode_binary_bits, !bind_of_Ok. unfold bs.
    destruct Hd as (?&?&?&?). by rewrite BitString.pack_bits_raw.
  - rewrite forallb_app. apply andb_true_iff. split; apply forallb_forall; intros c Hc.
    + rewrite forallb_forall in Hw. by rewrite (Hw c Hc).
    + rewrite forallb_forall in Hb. by rewrite (Hb c Hc), orb_true_r.
  - unfold ends_expr in He. destruct (skip_ws rest) as [|c l] eqn:Es; [done|]. destruct He as (Hc&_).
    assert (is_blank c = false) as ->.
    { pose proof (skip_ws_idem rest) as Hi. rewrite Es in Hi. cbn [skip_ws] in Hi.
      destruct (is_blank c); [|done]. pose proof (skip_ws_length l). rewrite Hi in H. simpl in H. lia. }
    rewrite orb_false_r. apply not_true_iff_false. intros [H|H]%orb_true_iff; apply Z.eqb_eq in H; by subst c.
Qed.

(** *** Expressions *)

(** Printable ASCII is not stripped. *)
Definition is_visible (c : Z) : bool := between 33 c 126.

Lemma visible_kept c : is_visible c = true -> is_text_space c = false.
Proof.
  unfold is_visible, between. intros [??]%andb_true_iff. apply not_true_iff_false. unfold is_text_space, is_space.
  rewrite !orb_true_iff, !andb_true_iff. lia.
Qed.

Lemma name_visible c : is_name_char c = true -> is_visible c = true.
Proof. unfold is_name_char, is_alnum, is_digit, is_alpha, is_visible, between. rewrite !orb_true_iff, !andb_true_iff. lia. Qed.

(** The first character of an expression. *)
Definition starts (c : Z) : Prop := is_visible c = true /\ is_blank c = false /\ c <> 93 /\ c <> 61.

Lemma show_head e : forall q, expr_ok e -> exists c l, show q e = c :: l /\ starts c.
Proof.
  assert (forall name l, name_ok name -> exists c l', name ++ l = c :: l' /\ starts c) as Hname.
  { intros name l Hn. destruct (name_chars name Hn) as (_&c&l'&->&Hc).
    assert (is_visible c = true) by (unfold is_alpha, is_visible, between in *; lia).
    apply alpha_start in Hc. exists c, (l' ++ l). unfold starts. tauto. }
  induction e as [v|name|name i _|name h _ l _|name|op e _|op e1 IH1 e2 _|f e _|b]; intros q He; cbn [show expr_ok] in *.
  - destruct (format_d_spec v He) as (Hf&_&Hl). destruct (format_d v) as [|c l]; [simpl in Hl; lia|].
    inversion_clear Hf. exists c, l. split; [done|]. unfold starts, is_visible, between, is_blank. split_and!; lia.
  - rewrite <- (app_nil_r name). by apply Hname.
  - apply Hname, He.
  - apply Hname, He.
  - by apply Hname.
  - eexists _, _. split; [done|]. by destruct op.
  - destruct (tier op <? q); [by eexists _, _|]. destruct (IH1 (tier op) (proj1 He)) as (c&l&->&Hc). by eexists _, _.
  - destruct f; by eexists _, _.
  - unfold literal_ok in He. destruct b as [[d|] n]; [|done]. by eexists _, _.
Qed.

Lemma skip_ws_show e q rest : expr_ok e -> skip_ws (show q e ++ rest) = show q e ++ rest.
Proof. intros He. destruct (show_head e q He) as (c&l&->&_&Hc&_). cbn [app skip_ws]. by rewrite Hc. Qed.

Lemma parse_unary_skip fuel l : parse_unary fuel (32 :: l) = parse_unary fuel l.
Proof. by destruct fuel. Qed.

Lemma parse_level_skip fuel p l : parse_level fuel p (32 :: l) = parse_level fuel p l.
Proof. destruct fuel; [done|]. cbn [parse_level]. by rewrite parse_unary_skip. Qed.

(** What [show] gives is parsed: as an operand, and as what the loop of a level
    goes on with. *)
Definition parsed_operand (e : expr) : Prop :=
  forall rest fuel, ends_expr rest -> (4 * length (show 11 e ++ rest) + 2 <= fuel)%nat ->
  exists tail, parse_unary fuel (show 11 e ++ rest) = Ok (e, tail) /\ skip_ws tail = skip_ws rest.

Definition parsed_level (e : expr) : Prop :=
  forall p q rest r, 0 <= p <= q -> q <= 11 -> stops (q + 1) rest ->
  (forall fuel, (4 * length rest + 1 <= fuel)%nat -> binop_loop fuel p e rest = r) ->
  forall fuel, (4 * length (show q e ++ rest) + 3 <= fuel)%nat -> parse_level fuel p (show q e ++ rest) = r.

(** A bracket closes any level. *)
Definition closing (c : Z) : Prop := c = 41 \/ c = 93 \/ c = 46.

Lemma closing_stops c rest p : closing c -> stops p (c :: rest) /\ skip_ws (c :: rest) = c :: rest
  /\ forall fuel e, (1 <= fuel)%nat -> binop_loop fuel p e (c :: rest) = Ok (e, c :: rest).
Proof.
  intros Hc. assert (skip_ws (c :: rest) = c :: rest) as Hs by (destruct Hc as [->|[->| ->]]; done).
  assert (peek_operator (c :: rest) = None) as Hp by (destruct Hc as [->|[->| ->]]; by destruct rest).
  split_and!; [|done|].
  - split; [|by rewrite Hs, Hp]. unfold ends_expr. rewrite Hs. by destruct Hc as [->|[->| ->]].
  - intros fuel e Hf. destruct fuel; [lia|]. cbn [binop_loop]. by rewrite Hs, Hp.
Qed.

Lemma parsed_inside e c rest fuel :
  parsed_level e -> closing c -> (4 * length (show 0 e ++ c :: rest) + 3 <= fuel)%nat ->
  parse_level fuel 0 (show 0 e ++ c :: rest) = Ok (e, c :: rest).
Proof.
  intros He Hc Hf. destruct (closing_stops c rest 1 Hc) as (Hst&_&_).
  apply (He 0 0 (c :: rest)); [lia|lia|done| |done]. intros fuel' Hf'.
  apply (closing_stops c rest 0 Hc). lia.
Qed.

(** A level, from its operand, when it has no operator of its own. *)
Lemma level_of_operand e :
  (forall q, show q e = show 11 e) -> parsed_operand e -> parsed_level e.
Proof.
  intros Hq Ho p q rest r Hp Hq11 [He _] Hr fuel Hf. rewrite (Hq q) in *.
  destruct fuel as [|fuel]; [lia|]. cbn [parse_level].
  destruct (Ho rest fuel He) as (tail&->&Ht); [lia|]. rewrite bind_of_Ok, (binop_loop_skip fuel p e tail rest Ht).
  apply Hr. rewrite length_app in Hf. lia.
Qed.

(** From an operand to the primary behind it. *)
Lemma unary_primary fuel c l :
  is_blank c = false -> c <> 126 -> c <> 33 -> c <> 45 -> parse_unary (S fuel) (c :: l) = parse_primary fuel (c :: l).
Proof.
  intros Hb H1 H2 H3. cbn [parse_unary skip_ws]. rewrite Hb.
  by rewrite (proj2 (Z.eqb_neq _ _) H1), (proj2 (Z.eqb_neq _ _) H2), (proj2 (Z.eqb_neq _ _) H3).
Qed.

Lemma parenthesised e rest fuel :
  (forall n, (4 * length (show 0 e ++ 41%Z :: rest) + 3 <= n)%nat -> parse_level n 0 (show 0 e ++ 41 :: rest) = Ok (e, 41 :: rest)) ->
  (4 * length (lit "(" ++ show 0 e ++ lit ")" ++ rest) + 2 <= fuel)%nat ->
  parse_unary fuel (lit "(" ++ show 0 e ++ lit ")" ++ rest) = Ok (e, rest).
Proof.
  intros He Hf. rewrite !length_app in Hf. simpl length in Hf. destruct fuel as [|[|fuel]]; [lia|lia|].
  change (lit "(" ++ ?l) with (40 :: l). rewrite unary_primary by done. cbn [parse_primary skip_ws is_blank Z.eqb Pos.eqb orb].
  change (lit ")" ++ rest) with (41 :: rest).
  rewrite He by (rewrite length_app; simpl length; lia). rewrite bind_of_Ok. done.
Qed.

(** A name up to a character that is not part of it. *)
Lemma identifier_start name rest fuel :
  name_ok name -> (3 <= fuel)%nat ->
  parse_unary fuel (name ++ rest) = parse_identifier (fuel - 2) (name ++ rest).
Proof.
  intros Hn Hf. destruct (name_chars name Hn) as (_&c&l&->&Hc). destruct (alpha_start c Hc) as (Hb&Hd&H40&H35&H36&H64&H126&H33&H45&_).
  destruct fuel as [|[|fuel]]; [lia|lia|]. cbn [app]. rewrite unary_primary by done. cbn [parse_primary skip_ws].
  rewrite Hb, Hd, (proj2 (Z.eqb_neq _ _) H40), (proj2 (Z.eqb_neq _ _) H35), (proj2 (Z.eqb_neq _ _) H36),
    (proj2 (Z.eqb_neq _ _) H64), Hc. cbn [orb]. by replace (S (S fuel) - 2)%nat with fuel by lia.
Qed.

Lemma span_name name c rest :
  name_ok name -> is_name_char c = false -> span is_name_char (name ++ c :: rest) = (name, c :: rest).
Proof. intros Hn Hc. apply span_app; [by apply name_chars|done]. Qed.

(** *** Each construct *)

Ltac lengths := rewrite ?length_app in *; simpl length in *; rewrite ?length_app in *; simpl length in *.

Lemma parsed_int v : 0 <= v -> parsed_operand (IntLiteral v).
Proof.
  intros Hv rest fuel He Hf. cbn [show] in *. destruct (format_d_spec v Hv) as (Hd&Hval&Hl).
  assert (forallb is_digit (format_d v) = true) as Hdig.
  { apply forallb_forall. intros c Hc%list_elem_of_In. rewrite Forall_forall in Hd. specialize (Hd c Hc).
    unfold is_digit, between. apply andb_true_iff. lia. }
  pose proof (span_app is_digit (format_d v) rest Hdig) as Hspan. rewrite length_app in Hf.
  destruct (format_d v) as [|c l]; [simpl in Hl; lia|]. exists rest. split; [|done].
  destruct fuel as [|[|fuel]]; [lia|lia|]. cbn [app] in *. inversion_clear Hd.
  assert (is_blank c = false) as Hb by (unfold is_blank; lia).
  rewrite unary_primary by (done || lia). cbn [parse_primary skip_ws]. rewrite Hb.
  rewrite (proj2 (Z.eqb_neq c 40)) by lia.
  cbn [forallb] in Hdig. apply andb_true_iff in Hdig as [-> _]. rewrite Hspan.
  - unfold int_base10. by rewrite Hval.
  - apply ends_expr_head; [done|..].
    + intros x Hx. apply not_true_iff_false. intros Hdg%digit_name. by rewrite name_not_blank in Hdg.
    + intros x Hx _ _ _ _. apply not_true_iff_false. intros Hdg%digit_name. congruence.
Qed.

Lemma parsed_var name : name_ok name -> parsed_operand (VarRef name).
Proof.
  intros Hn rest fuel He Hf. cbn [show] in *. exists (skip_ws rest). split; [|by rewrite skip_ws_idem].
  assert (0 < length name)%nat by (destruct name; [done|simpl; lia]). rewrite length_app in Hf.
  rewrite identifier_start by (done || lia). destruct (fuel - 2)%nat as [|n] eqn:En; [lia|]. cbn [parse_identifier].
  rewrite span_app.
  - unfold ends_expr in He. destruct (skip_ws rest) as [|c l]; cbn [head].
    + by destruct (bool_decide (upper name = _)).
    + destruct He as (_&H91&H40&H36&_).
      rewrite (bool_decide_eq_false_2 (Some c = Some 40)), (bool_decide_eq_false_2 (Some c = Some 36)),
        (bool_decide_eq_false_2 (Some c = Some 91)) by congruence.
      by rewrite andb_false_r.
  - by apply name_chars.
  - apply ends_expr_head; [done|apply name_not_blank|done].
Qed.

(** After the bracket of an array. *)
Lemma array_start name l fuel :
  name_ok name -> (4 * length (name ++ 91%Z :: l) + 2 <= fuel)%nat ->
  exists n, (4 * length l + 4 <= n)%nat /\
    parse_unary fuel (name ++ 91 :: l)
    = let l := skip_ws l in
      if bool_decide (head l = Some 93) then Ok (ArrayWhole name, List.tl l)
      else
        '(first, l) ← parse_level n 0 l;
        let l := skip_ws l in
        if bool_decide (take 2 l = [46; 46]) then
          '(second, l) ← parse_level n 0 (drop 2 l); l ← expect 93 (skip_ws l);
          Ok (ArraySubrange name first second, l)
        else l ← expect 93 l; Ok (ArrayIndex name first, l).
Proof.
  intros Hn Hf. lengths. assert (0 < length name)%nat by (destruct name; [done|simpl; lia]).
  exists (fuel - 3)%nat. split; [lia|]. rewrite identifier_start by (done || lia).
  destruct (fuel - 2)%nat as [|n] eqn:En; [lia|]. replace (fuel - 3)%nat with n by lia. cbn [parse_identifier].
  rewrite span_name by done. cbn [skip_ws is_blank Z.eqb Pos.eqb orb head List.tl].
  rewrite (bool_decide_eq_false_2 (Some 91 = Some 40)), (bool_decide_eq_false_2 (Some 91 = Some 36)) by done.
  by rewrite andb_false_r, bool_decide_eq_true_2.
Qed.

Lemma head_show e q rest c : expr_ok e -> c = 93 \/ c = 61 -> bool_decide (head (show q e ++ rest) = Some c) = false.
Proof.
  intros He Hc. destruct (show_head e q He) as (x&l&->&_&_&H93&H61). apply bool_decide_eq_false_2. cbn [app head].
  destruct Hc as [->| ->]; congruence.
Qed.

Lemma parsed_index name i : name_ok name -> expr_ok i -> parsed_level i -> parsed_operand (ArrayIndex name i).
Proof.
  intros Hn Hi IH rest fuel _ Hf. exists rest. split; [|done]. cbn [show] in *.
  change (lit "[" ++ ?l) with (91 :: l) in *. change (lit "]") with [93] in *.
  rewrite <- app_assoc, <- app_comm_cons, <- app_assoc in *. cbn [app] in *.
  destruct (array_start name (show 0 i ++ 93 :: rest) fuel Hn Hf) as (n&Hn'&->).
  cbv zeta. rewrite skip_ws_show, head_show by (done || by left).
  rewrite parsed_inside; [|done|by right; left|lia]. rewrite bind_of_Ok.
  cbn [skip_ws is_blank Z.eqb Pos.eqb orb]. by rewrite bool_decide_eq_false_2 by done.
Qed.

Lemma parsed_subrange name h l :
  name_ok name -> expr_ok h -> expr_ok l -> parsed_level h -> parsed_level l -> parsed_operand (ArraySubrange name h l).
Proof.
  intros Hn Hh Hl IHh IHl rest fuel _ Hf. exists rest. split; [|done]. cbn [show] in *.
  change (lit "[" ++ ?l) with (91 :: l) in *. change (lit "]") with [93] in *. change (lit "..") with [46; 46] in *.
  rewrite <- app_assoc, <- app_comm_cons, <- !app_assoc in *. cbn [app] in *.
  destruct (array_start name (show 0 h ++ 46 :: 46 :: show 0 l ++ 93 :: rest) fuel Hn Hf) as (n&Hn'&->).
  cbv zeta. rewrite skip_ws_show, head_show by (done || by left).
  rewrite parsed_inside; [|done|by right; right|lia]. rewrite bind_of_Ok.
  cbn [skip_ws is_blank Z.eqb Pos.eqb orb]. rewrite bool_decide_eq_true_2 by done.
  cbn [drop]. rewrite drop_0. rewrite parsed_inside; [|done|by right; left|lengths; lia]. rewrite bind_of_Ok. done.
Qed.

Lemma parsed_whole name : name_ok name -> parsed_operand (ArrayWhole name).
Proof.
  intros Hn rest fuel _ Hf. exists rest. split; [|done]. cbn [show] in *.
  change (lit "[]") with [91; 93] in *. rewrite <- app_assoc in *. cbn [app] in *.
  destruct (array_start name (93 :: rest) fuel Hn Hf) as (n&_&->). done.
Qed.

Lemma parsed_unop op e : expr_ok e -> parsed_operand e -> parsed_operand (UnaryOp op e).
Proof.
  intros Hok IH rest fuel He Hf. cbn [show app] in *. lengths. destruct fuel as [|fuel]; [lia|].
  destruct (IH rest fuel He) as (tail&E&Ht); [lengths; lia|]. exists tail. split; [|done].
  destruct op; cbn [parse_unary unop_char skip_ws is_blank Z.eqb Pos.eqb orb andb negb].
  - by rewrite E.
  - by rewrite E.
  - rewrite head_show by (done || by right). cbn [negb]. by rewrite E.
Qed.

Lemma parsed_call f e : parsed_level e -> parsed_operand (FuncCall f e).
Proof.
  intros IH rest fuel _ Hf. exists rest. split; [|done]. cbn [show] in *.
  change (lit "(" ++ ?l) with (40 :: l) in *. change (lit ")") with [41] in *.
  rewrite <- app_assoc, <- app_comm_cons, <- app_assoc in *. cbn [app] in *.
  set (l := show 0 e ++ 41 :: rest) in *.
  assert (forall n, (4 * length l + 3 <= n)%nat ->
    ('(arg, l) ← parse_level n 0 l; l ← expect 41 (skip_ws l); Ok (FuncCall f arg, l)) = Ok (FuncCall f e, rest)) as Hcall.
  { intros n Hn. unfold l. rewrite parsed_inside; [done|done|by left|done]. }
  assert (exists name tail, func_text f ++ 40 :: l = name ++ tail /\ name_ok name) as (name&tail&E&Hname).
  { destruct f; [exists (lit "ABS")|exists (lit "INT")|exists (lit "BOOL")|exists (lit "CHR")];
      by eexists. }
  assert (3 <= fuel)%nat by (destruct f; simpl in Hf; lia).
  rewrite E, identifier_start, <- E by done. clear E.
  assert (4 * length l + 4 <= fuel - 2)%nat as Hf' by (destruct f; simpl in Hf; lia).
  destruct (fuel - 2)%nat as [|n]; [lia|]. specialize (Hcall n ltac:(lia)).
  destruct f; exact Hcall.
Qed.

Lemma parsed_bool b : literal_ok b -> parsed_operand (BooleanLiteral b).
Proof.
  intros Hb rest fuel He Hf. cbn [show] in *. destruct (parse_binary_text b rest Hb He) as (l&E&Hp).
  rewrite E in *. exists (skip_ws rest). split; [|by rewrite skip_ws_idem]. cbn [app] in *.
  destruct fuel as [|[|fuel]]; [simpl in Hf; lia|simpl in Hf; lia|]. rewrite unary_primary by done.
  exact Hp.
Qed.

(** *** Operators *)

Lemma parsed_binop_plain op lhs rhs :
  parsed_level lhs -> parsed_level rhs ->
  forall p q rest r, 0 <= p <= q -> q <= tier op -> stops (q + 1) rest ->
  (forall fuel, (4 * length rest + 1 <= fuel)%nat -> binop_loop fuel p (BinOp op lhs rhs) rest = r) ->
  forall fuel, (4 * length (show q (BinOp op lhs rhs) ++ rest) + 3 <= fuel)%nat ->
  parse_level fuel p (show q (BinOp op lhs rhs) ++ rest) = r.
Proof.
  intros IHl IHr p q rest r Hp Hq Hst Hr fuel. cbn [show].
  assert (1 <= tier op <= 10) as Hop by (by destruct op). rewrite (proj2 (Z.ltb_ge _ _)) by done.
  rewrite <- !app_assoc. intros Hf.
  apply (IHl p (tier op)); [lia|lia|apply op_text_stops; lia| |done].
  intros n Hn. destruct n as [|n]; [lia|]. cbn [binop_loop].
  assert (skip_ws (lit " " ++ op_text op ++ lit " " ++ show (tier op + 1) rhs ++ rest)
    = op_text op ++ 32 :: show (tier op + 1) rhs ++ rest) as -> by by destruct op.
  rewrite op_text_peek, !PREC_tier, (proj2 (Z.ltb_ge _ _)), parse_level_skip by lia.
  lengths. rewrite (IHr (tier op + 1) (tier op + 1) rest (Ok (rhs, skip_ws rest))); [|lia|lia|..].
  - rewrite bind_of_Ok, (binop_loop_skip _ _ _ _ rest) by apply skip_ws_idem. apply Hr. lia.
  - apply (stops_mono (q + 1)); [done|lia].
  - intros m Hm. destruct m as [|m]; [lia|]. cbn [binop_loop]. destruct Hst as [_ Hst].
    destruct (peek_operator (skip_ws rest)) as [[op' l]|]; [|done]. by rewrite PREC_tier, (proj2 (Z.ltb_lt _ _)) by lia.
  - lengths. lia.
Qed.

Lemma parsed_binop op lhs rhs :
  parsed_level lhs -> parsed_level rhs -> parsed_operand (BinOp op lhs rhs) /\ parsed_level (BinOp op lhs rhs).
Proof.
  intros IHl IHr. pose proof (parsed_binop_plain op lhs rhs IHl IHr) as Hplain.
  assert (forall q rest fuel, tier op < q -> (4 * length (show q (BinOp op lhs rhs) ++ rest) + 2 <= fuel)%nat ->
    parse_unary fuel (show q (BinOp op lhs rhs) ++ rest) = Ok (BinOp op lhs rhs, rest)) as Hparen.
  { intros q rest fuel Hq.
    assert (show q (BinOp op lhs rhs) = lit "(" ++ show 0 (BinOp op lhs rhs) ++ lit ")") as ->.
    { cbn [show]. rewrite (proj2 (Z.ltb_lt _ _)) by done. by destruct op. }
    rewrite <- !app_assoc. apply parenthesised. intros n.
    apply (Hplain 0 0 (41 :: rest)); [lia|by destruct op|by apply closing_stops; left|].
    intros m Hm. apply (closing_stops 41 rest 0); [by left|lia]. }
  split.
  - intros rest fuel _ Hf. exists rest. split; [|done]. apply Hparen; [by destruct op|done].
  - intros p q rest r Hp Hq Hst Hr fuel Hf.
    destruct (Z.ltb_spec (tier op) q) as [E|E]; [|by apply (Hplain p q rest)].
    destruct fuel as [|fuel]; [lia|]. cbn [parse_level].
    rewrite Hparen, bind_of_Ok by lia. apply Hr. lengths. lia.
Qed.

Lemma parsed_expr e : expr_ok e -> parsed_operand e /\ parsed_level e.
Proof.
  assert (forall e, (forall q, show q e = show 11 e) -> parsed_operand e -> parsed_operand e /\ parsed_level e) as H
    by (intros; split; [done|by apply level_of_operand]).
  induction e as [v|name|name i IHi|name h IHh l IHl|name|op e IHe|op e1 IH1 e2 IH2|f e IHe|b]; cbn [expr_ok]; intros Hok.
  - by apply H, parsed_int.
  - by apply H, parsed_var.
  - destruct Hok. by apply H, parsed_index, IHi.
  - destruct Hok as (?&?&?). apply H; [done|]. by apply parsed_subrange; [..|apply IHh|apply IHl].
  - by apply H, parsed_whole.
  - by apply H, parsed_unop, IHe.
  - destruct Hok. by apply parsed_binop; [apply IH1|apply IH2].
  - by apply H, parsed_call, IHe.
  - by apply H, parsed_bool.
Qed.

(** *** The ends of the text *)

Lemma show_last e : forall q, expr_ok e -> exists l c, show q e = l ++ [c] /\ is_visible c = true.
Proof.
  assert (forall (l : list Z) p, l <> [] -> forallb p l = true -> (forall c, p c = true -> is_visible c = true) ->
    exists l' c, l = l' ++ [c] /\ is_visible c = true) as Hword.
  { intros l p Hl Hp Hc. destruct l as [|c l _] using rev_ind; [done|]. exists l, c. split; [done|].
    rewrite forallb_app in Hp. apply andb_true_iff in Hp as [_ Hp]. cbn in Hp. rewrite andb_true_r in Hp. by apply Hc. }
  assert (forall a b : list Z, (exists l c, b = l ++ [c] /\ is_visible c = true) ->
    exists l c, a ++ b = l ++ [c] /\ is_visible c = true) as Happ.
  { intros a b (l&c&->&Hc). exists (a ++ l), c. by rewrite app_assoc. }
  assert (forall c, is_visible c = true -> exists l c', [c] = l ++ [c'] /\ is_visible c' = true) as Hone
    by (intros c Hc; by exists [], c).
  induction e as [v|name|name i _|name h _ l _|name|op e IH|op e1 _ e2 IH2|f e _|b]; intros q He; cbn [show expr_ok] in *.
  - destruct (format_d_spec v He) as (Hf&_&Hl). apply (Hword _ is_digit).
    + intros E. rewrite E in Hl. simpl in Hl. lia.
    + apply forallb_forall. intros c Hc%list_elem_of_In. rewrite Forall_forall in Hf. specialize (Hf c Hc).
      unfold is_digit, between. lia.
    + intros c Hc. by apply name_visible, digit_name.
  - apply (Hword _ is_name_char); [by intros -> | by apply name_chars|apply name_visible].
  - do 3 apply Happ. by apply Hone.
  - do 5 apply Happ. by apply Hone.
  - apply Happ. by exists [91], 93.
  - destruct (IH 11 He) as (l&c&->&Hc). by exists (unop_char op :: l), c.
  - destruct (tier op <? q); [do 2 apply Happ; by apply Hone|]. do 4 apply Happ. by apply IH2, He.
  - do 3 apply Happ. by apply Hone.
  - unfold literal_ok in He. destruct b as [[d|] n]; [|done].
    apply (Hword _ (fun c => (c =? 35) || (c =? 48) || (c =? 49))); [done|..].
    + unfold boolean_text. cbn [literal_data bit_count]. change (lit "#" ++ ?l) with (35 :: l). cbn [forallb Z.eqb Pos.eqb orb andb].
      apply forallb_forall. intros c Hc%list_elem_of_In. rewrite elem_of_reverse in Hc.
      apply list_elem_of_fmap in Hc as ([]&->&_); done.
    + intros c Hc. unfold is_visible, between. lia.
Qed.

Lemma strip_visible a l b : is_visible a = true -> is_visible b = true -> forall m, a :: l = m ++ [b] -> strip (a :: l) = a :: l.
Proof.
  intros Ha Hb m Em. unfold strip. cbn [lstrip]. rewrite (visible_kept a Ha), Em, reverse_app. cbn [reverse rev_append app].
  change (reverse [b] ++ reverse m) with (b :: reverse m). cbn [lstrip]. rewrite (visible_kept b Hb).
  by rewrite reverse_cons, reverse_involutive.
Qed.

(** ** Properties *)

(** C16: An expression written with the parentheses its operators need parses to
    itself: the precedence table, left association, unary operators,
    subscripts, calls and binary literals agree with the text. *)
Theorem stapl_expr_roundtrip e : expr_ok e -> parse_expr (show 0 e) = Ok e.
Proof.
  intros He. destruct (parsed_expr e He) as [_ Hl]. destruct (show_head e 0 He) as (a&l&E&Ha&_).
  destruct (show_last e 0 He) as (m&b&Em&Hb). unfold parse_expr.
  assert (strip (show 0 e) = show 0 e) as -> by (rewrite E in *; by apply (strip_visible a l b Ha Hb m)).
  assert (parse_level (parse_fuel (show 0 e)) 0 (show 0 e) = Ok (e, [])) as Hp.
  { rewrite <- (app_nil_r (show 0 e)) at 2. apply (Hl 0 0 []); [lia|lia|done| |].
    - intros [|fuel] ?; [lia|done].
    - unfold parse_fuel. rewrite app_nil_r. lia. }
  rewrite E in *. by rewrite Hp.
Qed.

Lemma stapl_expr_roundtrip_witness :
  let e := BinOp Mul (BinOp Sub (IntLiteral 8) (BinOp Sub (VarRef (lit "i")) (IntLiteral 1)))
    (UnaryOp Neg (BinOp LOr (IntLiteral 0) (BooleanLiteral (mkBoolean (Decoded [5]) 3)))) in
  expr_ok e /\ parse_expr (lit "(8 - (i - 1)) * -(0 || #101)") = Ok e.
Proof.
  intros e. assert (expr_ok e) as He.
  { unfold e. cbn [expr_ok]. split_and!; [lia|done|lia|lia|]. unfold literal_ok, BitString.clean_bytes. cbn [literal_data bit_count].
    split_and!; try done. by repeat constructor. }
  split; [done|]. change (lit "(8 - (i - 1)) * -(0 || #101)") with (show 0 e). by apply stapl_expr_roundtrip.
Defined.

(** Parsing an expression ends: on every text the parser returns a tree or
    raises, within a number of calls linear in the length of the text. *)
Lemma parse_expr_ends text : parse_expr text <> Err OutOfFuel.
Proof.
  unfold parse_expr. destruct (strip text) as [|c l] eqn:E; [done|]. rewrite <- E.
  destruct (parser_bounded (parse_fuel (strip text))) as (H&_). specialize (H 0 (strip text)).
  destruct (parse_level _ 0 (strip text)) as [[e rest]|err]; [done|]. intros [= ->]. apply H; [|done]. unfold parse_fuel. lia.
Qed.

(** What follows an expression is dropped. *)
Example parse_ignores_tail : parse_expr (lit "a + 1 ) garbage") = Ok (BinOp Add (VarRef (lit "a")) (IntLiteral 1)).
Proof. vm_compute. reflexivity. Qed.
