(* ===== verification/StaplLexer.v ===== *)
(** * The STAPL lexer (src/acrobe/stapl/lexer.py)

    Comments, statements ended by semicolons, white space, the CRC statement.
    Loops over the text are functions of the text that is left. *)

From Stdlib Require Import Ascii String.
From S2P Require Import Prelude Crc CrcCatalog PyText Aca StaplExpr.

Open Scope Z_scope.

Definition QUOTE : Z := 34.
Definition APOSTROPHE : Z := 39.
Definition SEMICOLON : Z := 59.
Definition NL : Z := 10.
Definition CR : Z := 13.

(** [text.index(c)]: what is before the first [c], and what is after it *)
Fixpoint split_at (c : Z) (l : list Z) : option (list Z * list Z) :=
  match l with
  | [] => None
  | x :: l =>
      if x =? c then Some ([], l)
      else match split_at c l with Some (a, b) => Some (x :: a, b) | None => None end
  end.

(** [_strip_comments]: [Normal] text, a string, a comment *)
Inductive lex_mode : Type := Normal | InString | InComment.

Fixpoint strip_comments (mode : lex_mode) (l : list Z) : result (list Z) :=
  match l with
  | [] => match mode with InString => Err StaplError | _ => Ok [] end
  | ch :: l =>
      match mode with
      | Normal =>
          if ch =? QUOTE then r ← strip_comments InString l; Ok (ch :: r)
          else if ch =? APOSTROPHE then strip_comments InComment l
          else r ← strip_comments Normal l; Ok (ch :: r)
      | InString => r ← strip_comments (if ch =? QUOTE then Normal else InString) l; Ok (ch :: r)
      | InComment => if ch =? NL then r ← strip_comments Normal l; Ok (ch :: r) else strip_comments InComment l
      end
  end.

(** [_find_semicolon]: the text before it and the text after it; [text.index]
    raises in a string that does not end *)
Fixpoint find_semicolon (in_string : bool) (l : list Z) : result (option (list Z * list Z)) :=
  match l with
  | [] => if in_string then Err ValueError else Ok None
  | ch :: l =>
      if negb in_string && (ch =? SEMICOLON) then Ok (Some ([], l))
      else
        r ← find_semicolon (xorb in_string (ch =? QUOTE)) l;
        Ok (match r with Some (a, b) => Some (ch :: a, b) | None => None end)
  end.

Definition is_ws (c : Z) : bool := (c =? 32) || (c =? 9).

(** [_WS_RE.sub(' ', text)] *)
Fixpoint collapse_ws (in_ws : bool) (l : list Z) : list Z :=
  match l with
  | [] => []
  | c :: l =>
      if is_ws c then if in_ws then collapse_ws true l else 32 :: collapse_ws true l
      else c :: collapse_ws false l
  end.

(** The loop of [_normalize_whitespace] over the matches of [_STRING_RE]: a
    quote with no other after it is text like any other. *)
Fixpoint normalize_loop (fuel : nat) (l : list Z) : list Z :=
  match fuel with
  | O => l
  | S fuel =>
      match split_at QUOTE l with
      | None => collapse_ws false l
      | Some (before, rest) =>
          match split_at QUOTE rest with
          | None => collapse_ws false l
          | Some (body, after) => collapse_ws false before ++ [QUOTE] ++ body ++ [QUOTE] ++ normalize_loop fuel after
          end
      end
  end.

Definition normalize_whitespace (l : list Z) : list Z := strip (normalize_loop (S (length l)) l).

(** [chunk.replace('\r', '').replace('\n', ' ')] *)
Definition unfold_lines (l : list Z) : list Z :=
  (fun c => if c =? NL then 32 else c) <$> filter (fun c => c <> CR) l.

Record Statement := mkStatement {
  line : Z;
  text : list Z;
}.

(** The line of the first character that is not white space. *)
Fixpoint first_line (n : Z) (l : list Z) : Z :=
  match l with
  | [] => n
  | ch :: l =>
      if ch =? NL then first_line (n + 1) l
      else if (ch =? 32) || (ch =? 9) || (ch =? CR) then first_line n l
      else n
  end.

Definition count_nl (l : list Z) : Z := zlen (filter (fun c => c = NL) l).

(** The loop of [tokenize] *)
Fixpoint split_statements (fuel : nat) (line_num : Z) (l : list Z) : result (list Statement) :=
  match fuel with
  | O => Err OutOfFuel
  | S fuel =>
      match l with
      | [] => Ok []
      | _ :: _ =>
          semi ← find_semicolon false l;
          match semi with
          | None => match strip (unfold_lines l) with [] => Ok [] | _ => Err StaplError end
          | Some (chunk, rest) =>
              let t := normalize_whitespace (unfold_lines chunk) in
              r ← split_statements fuel (line_num + count_nl chunk) rest;
              Ok (match t with [] => r | _ => mkStatement (first_line line_num chunk) t :: r end)
          end
      end
  end.

(** ** The CRC statement *)

(** [_CRC_ALG] *)
Definition CRC_ALG : result Crc := db ← loaded_db; from_name db (chars "CRC-16/IBM-SDLC").

(** [_compute_crc]: [text.encode("ascii").replace(b'\r', b'')] *)
Definition compute_crc (l : list Z) : result Z :=
  if forallb (fun c => c <? 128) l 
  then alg ← CRC_ALG; calc alg (filter (fun c => c <> CR) l) None else Err ValueError.

(** [_find_crc_statement_pos]: the text before the last CRC *)
Fixpoint find_crc_pos (mode : lex_mode) (before l : list Z) : option (list Z) :=
  match l with
  | [] => None
  | ch :: rest =>
      let later m := find_crc_pos m (before ++ [ch]) rest in
      match mode with
      | InString => later (if ch =? QUOTE then Normal else InString)
      | InComment => later (if ch =? NL then Normal else InComment)
      | Normal =>
          if ch =? APOSTROPHE then later InComment
          else if ch =? QUOTE then later InString
          else
            match later Normal with
            | Some p => Some p
            | None =>
                if bool_decide (upper (take 3 l) = lit "CRC")
                   && match last before with Some c => negb (is_name_char c) | None => true end
                   && match drop 3 l with c :: _ => negb (is_name_char c) | [] => true end
                then Some before else None
            end
      end
  end.

(** [text.split(None, 1)] *)
Definition split_first (l : list Z) : list (list Z) :=
  match lstrip l with
  | [] => []
  | l =>
      let '(w, rest) := span (fun c => negb (is_text_space c)) l in
      match lstrip rest with [] => [w] | r => [w; r] end
  end.

Definition is_crc_statement (st : Statement) : bool :=
  let u := upper (text st) in starts_with (lit "CRC ") u || bool_decide (u = lit "CRC").

(** [_verify_crc] *)
Definition verify_crc (source : list Z) (l : list Statement) : result unit :=
  match last (filter (fun st => is_crc_statement st = true) l) with
  | None => Err StaplError
  | Some st =>
      match split_first (text st) with
      | [_; value] =>
          declared ← int_base16 value;
          if declared =? 0 then Ok tt
          else
            match find_crc_pos Normal [] source with
            | None => Err StaplError
            | Some before =>
                computed ← compute_crc before;
                if computed =? declared then Ok tt else Err StaplError
            end
      | _ => Err StaplError
      end
  end.

(** [tokenize] *)
Definition tokenize (check_crc : bool) (source : list Z) : result (list Statement) :=
  cleaned ← strip_comments Normal source;
  l ← split_statements (S (length cleaned)) 1 cleaned;
  _ ← (if check_crc then verify_crc source l else Ok tt);
  Ok l.

(** A file whose CRC is checked; the text of the CRC statement is not part of
    it. *)
Definition sample_source : list Z :=
  lit "NOTE " ++ [34] ++ lit "CREATOR" ++ [34] ++ lit " " ++ [34] ++ lit "it's; me" ++ [34] ++ lit ";" ++ [CR; NL]
  ++ lit "' a comment; CRC 1;" ++ [NL] ++ lit "PROCEDURE   P;" ++ [NL; 9] ++ lit "X = 1; ENDPROC;" ++ [NL] ++ lit "crc ".

(** ** Layout *)

(** The text of a statement as the lexer gives it: strings closed, no comment,
    no semicolon outside strings, on one line. *)
Fixpoint one_statement (in_string : bool) (l : list Z) : bool :=
  match l with
  | [] => negb in_string
  | c :: l =>
      negb (c =? NL) && negb (c =? CR)
      && (in_string || (negb (c =? APOSTROPHE) && negb (c =? SEMICOLON)))
      && one_statement (xorb in_string (c =? QUOTE)) l
  end.

Definition statement_ok (t : list Z) : Prop :=
  t <> [] /\ one_statement false t = true /\ normalize_whitespace t = t
  /\ match t with c :: _ => is_text_space c = false | [] => True end.

(** A commented statement on a line of its own. *)
Definition laid_out (entry : list Z * list Z) : list Z :=
  [APOSTROPHE] ++ entry.1 ++ [NL] ++ entry.2 ++ [SEMICOLON; NL].

Definition laid_out_clean (entry : list Z * list Z) : list Z := [NL] ++ entry.2 ++ [SEMICOLON; NL].

Lemma strip_comment c rest : Forall (fun x => x <> NL) c ->
  strip_comments InComment (c ++ NL :: rest) = (r ← strip_comments Normal rest; Ok (NL :: r)).
Proof.
  induction 1 as [|x c Hx _ IH]; cbn [app strip_comments]; [done|]. by rewrite (proj2 (Z.eqb_neq _ _) Hx).
Qed.

Lemma strip_statement t rest : forall in_string, one_statement in_string t = true ->
  strip_comments (if in_string then InString else Normal) (t ++ rest) = (r ← strip_comments Normal rest; Ok (t ++ r)).
Proof.
  induction t as [|c t IH]; intros b; cbn [one_statement app].
  - destruct b; [done|]. intros _. by destruct (strip_comments Normal rest).
  - rewrite !andb_true_iff. intros (((_&_)&Ha)&Hr). specialize (IH _ Hr). destruct b; cbn [strip_comments xorb] in *.
    + destruct (c =? QUOTE); rewrite IH; by destruct (strip_comments Normal rest).
    + cbn [orb] in Ha. apply andb_true_iff in Ha as [Ha%negb_true_iff _]. rewrite Ha. cbn [xorb] in IH.
      destruct (c =? QUOTE); rewrite IH; by destruct (strip_comments Normal rest).
Qed.

Lemma find_semicolon_statement t rest : forall in_string, one_statement in_string t = true ->
  find_semicolon in_string (t ++ SEMICOLON :: rest) = Ok (Some (t, rest)).
Proof.
  induction t as [|c t IH]; intros b; cbn [one_statement app].
  - by destruct b.
  - rewrite !andb_true_iff. intros (((_&_)&Ha)&Hr). cbn [find_semicolon]. rewrite (IH _ Hr).
    destruct b; [done|]. cbn [orb negb andb] in *. apply andb_true_iff in Ha as [_ Ha%negb_true_iff]. by rewrite Ha.
Qed.

Lemma one_statement_line t : forall b, one_statement b t = true -> unfold_lines t = t /\ count_nl t = 0.
Proof.
  induction t as [|c t IH]; intros b; [done|]. cbn [one_statement]. rewrite !andb_true_iff, !negb_true_iff, !Z.eqb_neq.
  intros (((Hn&Hc)&_)&Hr). destruct (IH _ Hr) as [Hu Hz]. unfold unfold_lines, count_nl in *.
  rewrite !filter_cons, decide_True, decide_False by done. rewrite fmap_cons, Hu, (proj2 (Z.eqb_neq _ _) Hn). done.
Qed.

Lemma lstrip_space l : lstrip (32 :: l) = lstrip l.
Proof. done. Qed.

(** Leading spaces do not matter. *)
Lemma split_at_app c l1 l2 : Forall (fun x => x <> c) l1 ->
  split_at c (l1 ++ l2) = match split_at c l2 with Some (a, b) => Some (l1 ++ a, b) | None => None end.
Proof.
  induction 1 as [|x l1 Hx _ IH]; cbn [app split_at]; [by destruct (split_at c l2) as [[]|]|].
  rewrite (proj2 (Z.eqb_neq _ _) Hx), IH. by destruct (split_at c l2) as [[]|].
Qed.

Lemma collapse_visible b l : match l with c :: _ => is_ws c = false | [] => True end -> collapse_ws b l = collapse_ws false l.
Proof. destruct l as [|c l]; [done|]. intros H. cbn [collapse_ws]. by rewrite H. Qed.

Lemma split_at_head c l a b : split_at c l = Some (a, b) -> l = a ++ c :: b.
Proof.
  revert a. induction l as [|x l IH]; intros a; [done|]. cbn [split_at]. destruct (Z.eqb_spec x c) as [->|]; [by intros [= <- <-]|].
  destruct (split_at c l) as [[a' b']|]; [|done]. intros [= <- <-]. cbn [app]. by rewrite (IH a').
Qed.

Lemma normalize_fuel f : forall g l, (length l < f)%nat -> (length l < g)%nat -> normalize_loop f l = normalize_loop g l.
Proof.
  induction f as [|f IH]; intros [|g] l Hf Hg; try lia. cbn [normalize_loop].
  destruct (split_at QUOTE l) as [[a rest]|] eqn:E; [|done]. apply split_at_head in E as ->.
  destruct (split_at QUOTE rest) as [[body after]|] eqn:E; [|done]. apply split_at_head in E as ->.
  rewrite !length_app in *. simpl length in *. rewrite !length_app in *. simpl length in *. do 4 f_equal. apply IH; lia.
Qed.

Lemma normalize_spaces n t :
  match t with c :: _ => is_text_space c = false | [] => True end ->
  normalize_whitespace (replicate n 32 ++ t) = normalize_whitespace t.
Proof.
  intros Ht. destruct n as [|n]; [done|]. unfold normalize_whitespace.
  assert (forall b, match b with c :: _ => is_ws c = false | [] => True end ->
    collapse_ws false (replicate (S n) 32 ++ b) = 32 :: collapse_ws false b) as Hcol.
  { intros b Hb. cbn [replicate app collapse_ws]. change (is_ws 32) with true. cbv iota. f_equal.
    induction n as [|n IH]; [by apply collapse_visible|]. exact IH. }
  assert (forall l1 l2, t = l1 ++ l2 -> match l1 with c :: _ => is_ws c = false | [] => True end) as Hhead.
  { intros l1 l2 ->. destruct l1 as [|c l1]; [done|]. cbn [app] in Ht. apply not_true_iff_false. intros Hw.
    apply not_true_iff_false in Ht. apply Ht. unfold is_ws in Hw. apply orb_true_iff in Hw as [Hw|Hw]; apply Z.eqb_eq in Hw; by subst c. }
  assert (normalize_loop (S (length (replicate (S n) 32 ++ t))) (replicate (S n) 32 ++ t) = 32 :: normalize_loop (S (length t)) t) as ->.
  2: { unfold strip. by rewrite lstrip_space. }
  cbn [normalize_loop]. rewrite split_at_app by (apply Forall_replicate; done).
  assert (collapse_ws false (replicate (S n) 32 ++ t) = 32 :: collapse_ws false t) as Hall
    by (apply Hcol, (Hhead t []); by rewrite app_nil_r).
  destruct (split_at QUOTE t) as [[a rest]|] eqn:E; [|done]. apply split_at_head in E as Et.
  destruct (split_at QUOTE rest) as [[body after]|] eqn:E2; [|done]. apply split_at_head in E2.
  rewrite Hcol by by apply (Hhead a (QUOTE :: rest)). cbn [app]. erewrite (normalize_fuel _ (length t)); [done|..];
    subst; rewrite ?length_app, ?length_replicate; simpl length; rewrite ?length_app; simpl length; lia.
Qed.

Lemma first_line_text n k t : match t with c :: _ => is_text_space c = false | [] => True end -> t <> [] ->
  first_line n (replicate k NL ++ t) = n + Z.of_nat k.
Proof.
  intros Ht Hne. revert n. induction k as [|k IH]; intros n; cbn [replicate app first_line].
  - destruct t as [|c t]; [done|]. cbn [first_line]. rewrite Z.add_0_r.
    destruct (Z.eqb_spec c NL) as [->|]; [done|]. destruct (Z.eqb_spec c 32) as [->|]; [done|].
    destruct (Z.eqb_spec c 9) as [->|]; [done|]. by destruct (Z.eqb_spec c CR) as [->|].
  - change (NL =? NL) with true. cbv iota. rewrite IH. lia.
Qed.

Lemma unfold_newlines k : unfold_lines (replicate k NL) = replicate k 32.
Proof.
  induction k as [|k IH]; [done|]. unfold unfold_lines in *. cbn [replicate]. rewrite filter_cons, decide_True by done.
  by rewrite fmap_cons, IH.
Qed.

Lemma unfold_lines_app l1 l2 : unfold_lines (l1 ++ l2) = unfold_lines l1 ++ unfold_lines l2.
Proof. unfold unfold_lines. by rewrite filter_app, fmap_app. Qed.

Lemma count_nl_app l1 l2 : count_nl (l1 ++ l2) = count_nl l1 + count_nl l2.
Proof. unfold count_nl. rewrite filter_app, length_app. lia. Qed.

Lemma count_newlines k : count_nl (replicate k NL) = Z.of_nat k.
Proof. induction k as [|k IH]; [done|]. unfold count_nl in *. cbn [replicate]. rewrite filter_cons, decide_True by done. cbn [length]. lia. Qed.

Lemma find_semicolon_newlines k l :
  find_semicolon false (replicate k NL ++ l)
  = (r ← find_semicolon false l; Ok (match r with Some (a, b) => Some (replicate k NL ++ a, b) | None => None end)).
Proof.
  induction k as [|k IH]; [cbn [replicate app]; destruct (find_semicolon false l) as [[[]|]|]; reflexivity|]. cbn [replicate app find_semicolon].
  change (negb false && (NL =? SEMICOLON)) with false. change (xorb false (NL =? QUOTE)) with false. cbv iota.
  rewrite IH. destruct (find_semicolon false l) as [[[]|]|]; reflexivity.
Qed.

(** The statements of the entries, the first on line [n + 1]. *)
Fixpoint numbered (n : Z) (l : list (list Z)) : list Statement :=
  match l with
  | [] => []
  | t :: l => mkStatement (n + 1) t :: numbered (n + 2) l
  end.

(** The loop, [k] newlines into an entry. *)
Lemma split_laid_out entries : forall fuel k n,
  Forall (fun e => statement_ok e.2) entries -> (length (concat (laid_out_clean <$> entries)) < fuel)%nat ->
  split_statements fuel n (replicate k NL ++ concat (laid_out_clean <$> entries))
  = Ok (numbered (n + Z.of_nat k) (snd <$> entries)).
Proof.
  induction entries as [|[c t] entries IH]; intros fuel k n Hok Hf; (destruct fuel as [|fuel]; [lia|]).
  - cbn [fmap list_fmap concat numbered]. rewrite app_nil_r. cbn [split_statements].
    destruct k as [|k]; [done|]. pose proof (find_semicolon_newlines (S k) []) as Hs. rewrite app_nil_r in Hs.
    rewrite Hs, unfold_newlines. cbn [find_semicolon]. rewrite !bind_of_Ok.
    assert (forall j, lstrip (replicate j 32) = []) as E by (induction j as [|j IHj]; [done|exact IHj]).
    unfold strip. rewrite E. by destruct k.
  - inversion Hok as [|? ? (Hne&H1&Hn&Hv) Hok']; subst. cbn [snd] in *.
    rewrite !fmap_cons in *. cbn [concat] in *. change (laid_out_clean (c, t)) with ([NL] ++ t ++ [SEMICOLON; NL]) in *.
    set (R := concat (laid_out_clean <$> entries)) in *.
    replace (replicate k NL ++ ([NL] ++ t ++ [SEMICOLON; NL]) ++ R) with (replicate (S k) NL ++ t ++ SEMICOLON :: replicate 1 NL ++ R).
    2: { rewrite replicate_S_end, <- !app_assoc. done. }
    rewrite !length_app in Hf. simpl length in Hf. destruct (one_statement_line t false H1) as [Hu Hc].
    cbn [split_statements]. rewrite find_semicolon_newlines, find_semicolon_statement, !bind_of_Ok by done.
    cbn [replicate app]. rewrite app_comm_cons. change (NL :: replicate k NL) with (replicate (S k) NL).
    rewrite unfold_lines_app, unfold_newlines, Hu, normalize_spaces, Hn, first_line_text, count_nl_app, count_newlines, Hc by done.
    change (NL :: R) with (replicate 1 NL ++ R). rewrite IH by (done || lia). rewrite bind_of_Ok.
    cbn [numbered snd]. destruct t as [|x t]; [done|]. do 2 f_equal; [f_equal; lia|]. f_equal. lia.
Qed.

Lemma strip_laid_out entries :
  Forall (fun e => Forall (fun x => x <> NL) e.1 /\ one_statement false e.2 = true) entries ->
  strip_comments Normal (concat (laid_out <$> entries)) = Ok (concat (laid_out_clean <$> entries)).
Proof.
  induction 1 as [|[c t] entries [Hc Ht] _ IH]; [done|]. rewrite !fmap_cons. cbn [concat fst snd] in *.
  unfold laid_out at 1. cbn [fst snd]. rewrite <- !app_assoc. cbn [app strip_comments].
  change (APOSTROPHE =? QUOTE) with false. change (APOSTROPHE =? APOSTROPHE) with true. cbv iota.
  rewrite strip_comment by done. rewrite (strip_statement t _ false Ht). cbn [strip_comments].
  change (SEMICOLON =? QUOTE) with false. change (SEMICOLON =? APOSTROPHE) with false.
  change (NL =? QUOTE) with false. change (NL =? APOSTROPHE) with false. cbv iota.
  rewrite IH, !bind_of_Ok. unfold laid_out_clean at 2. cbn [fst snd app]. by rewrite <- app_assoc.
Qed.

(** A file of statements, each under a comment line with any text, is split
    into exactly those statements, in order and with their line numbers: strings
    keep their semicolons and apostrophes, comments leave nothing. *)
Theorem stapl_tokenize_layout entries :
  Forall (fun e => Forall (fun x => x <> NL) e.1 /\ statement_ok e.2) entries ->
  tokenize false (concat (laid_out <$> entries)) = Ok (numbered 1 (snd <$> entries)).
Proof.
  intros H. unfold tokenize. rewrite strip_laid_out, bind_of_Ok.
  2: { eapply Forall_impl; [exact H|]. intros e (?&?&?&?). done. }
  pose proof (split_laid_out entries (S (length (concat (laid_out_clean <$> entries)))) 0 1) as Hs. cbn [replicate app] in Hs.
  rewrite Hs; [done| |lia]. eapply Forall_impl; [exact H|]. by intros e [].
Qed.

Lemma stapl_tokenize_layout_witness :
  tokenize false (concat (laid_out <$> [(lit "it's; one", lit "X = 1"); ([], lit "PRINT " ++ [34] ++ lit "a; 'b'  c" ++ [34])]))
  = Ok [mkStatement 2 (lit "X = 1"); mkStatement 4 (lit "PRINT " ++ [34] ++ lit "a; 'b'  c" ++ [34])].
Proof.
  apply (stapl_tokenize_layout [(lit "it's; one", lit "X = 1"); ([], lit "PRINT " ++ [34] ++ lit "a; 'b'  c" ++ [34])]).
  repeat constructor; cbn; try done; vm_compute; reflexivity.
Defined.

(** The CRC is that of the text before the CRC statement. *)
Example sample_crc :
  tokenize true (sample_source ++ lit "31C7;")
    = Ok [mkStatement 1 (lit "NOTE " ++ [34] ++ lit "CREATOR" ++ [34] ++ lit " " ++ [34] ++ lit "it's; me" ++ [34]);
          mkStatement 3 (lit "PROCEDURE P"); mkStatement 4 (lit "X = 1"); mkStatement 4 (lit "ENDPROC");
          mkStatement 5 (lit "crc 31C7")]
  /\ tokenize true (sample_source ++ lit "31C8;") = Err StaplError.
Proof. split; vm_compute; reflexivity. Qed.
