(* ===== verification/StaplEval.v ===== *)
(** * STAPL variables and expressions (src/acrobe/stapl/interpreter.py)

    The variables of an interpreter, the bit helpers of the module and the
    evaluation of expressions.

    [_eval_bits] hands out the variable's own [MutableBitString], or a slice
    that reads it: [bits] keeps the name, and each read looks at the variable as
    it is then.  A Boolean variable's object is replaced by its declaration
    only, so within a statement the name stands for the object. *)

From Stdlib Require Import Ascii String.
From stdpp Require Import gmap.
From S2P Require Import Prelude BitString BitVec PyText Aca StaplExpr.

Open Scope Z_scope.

(** ** Variables *)

Abbreviation ident := (list Z).

(** A value of [_integers]: [int | list[int]]. *)
Inductive ivalue : Type :=
  | Scalar (v : Z)
  | Array (l : list Z).

Record vars := mkVars {
  integers : gmap ident ivalue;
  booleans : gmap ident MutableBitString;
  bool_scalars : gset ident;
}.

Definition no_vars : vars := mkVars ∅ ∅ ∅.

Definition set_integer (name : ident) (v : ivalue) (s : vars) : vars :=
  mkVars (<[name := v]> (integers s)) (booleans s) (bool_scalars s).
Definition set_booleans (m : gmap ident MutableBitString) (s : vars) : vars :=
  mkVars (integers s) m (bool_scalars s).
Definition set_boolean (name : ident) (v : MutableBitString) (s : vars) : vars :=
  set_booleans (<[name := v]> (booleans s)) s.
Definition add_scalar (name : ident) (s : vars) : vars :=
  mkVars (integers s) (booleans s) ({[name]} ∪ bool_scalars s).

(** [d[name]] *)
Definition subscript {A} (m : gmap ident A) (name : ident) : result A :=
  match m !! name with Some v => Ok v | None => Err KeyError end.

(** ** Bit strings an expression gives *)

Inductive bits : Type :=
  | Fresh (b : base)                      (* a value of its own *)
  | Whole (name : ident)                  (* the variable's object *)
  | Window (name : ident) (b e : Z).      (* a [BitStringSlice] of it *)

Definition deref (m : gmap ident MutableBitString) (v : bits) : result base :=
  match v with
  | Fresh b => Ok b
  | Whole name => m ← subscript m name; Ok (BMut m)
  | Window name b e => m ← subscript m name; Ok (BSlice (mkSlice (SrcMut m) b e))
  end.

(** ** Helpers of the module *)

(** [_get_bit] *)
Definition get_bit (bs : base) (idx : Z) : result Z :=
  if (0 <=? idx) && (idx <? base_len bs) then b ← base_getitem bs idx; Ok (Z.b2z b) else Ok 0.

(** [_set_bit] *)
Definition set_bit (m : MutableBitString) (idx : Z) (value : bool) : result MutableBitString :=
  if (0 <=? idx) && (idx <? mb_length m) then mb_setitem m idx value else Ok m.

(** [_get_subrange] of a variable *)
Definition get_subrange (name : ident) (m : MutableBitString) (high low : Z) : result bits :=
  if low <=? high then
    b ← mb_getitem_slice m (Some low) (Some (high + 1)) None;
    Ok (match b with BSlice s => Window name (sl_begin s) (sl_end s) | _ => Fresh b end)
  else
    b ← mb_getitem_slice m (Some high) (Some (low + 1)) None;
    r ← base_reversed b;
    Ok (Fresh (BStr r)).

(** [for i in range(n)]: bit [i] of [source], read when it is its turn, put
    into the variable [name]. *)
Definition store_loop (put : MutableBitString -> Z -> bool -> result MutableBitString)
    (name : ident) (source : bits) (n : Z) (m : gmap ident MutableBitString) : result (gmap ident MutableBitString) :=
  foldM (fun m i =>
    src ← deref m source;
    v ← base_getitem src i;
    target ← subscript m name;
    target ← put target i v;
    Ok (<[name := target]> m)) m (seqZ 0 n).

(** [target[b:e] = source]: [MutableBitString.__setitem__] with the source read
    bit by bit. *)
Definition assign_slice (name : ident) (b e : Z) (source : bits) (m : gmap ident MutableBitString)
    : result (gmap ident MutableBitString) :=
  target ← subscript m name;
  src ← deref m source;
  let '(b, e) := slice_range (mb_length target) (Some b) (Some e) in
  store_loop (fun t i v => d ← write_bit (mb_data t) (b + i) v; Ok (mkMutable d (mb_length t)))
    name source (Z.min (e - b) (base_len src)) m.

(** [_set_subrange] *)
Definition set_subrange (name : ident) (high low : Z) (source : bits) (m : gmap ident MutableBitString)
    : result (gmap ident MutableBitString) :=
  if low <=? high then assign_slice name low (high + 1) source m
  else
    src ← deref m source;
    let n := Z.min (low - high + 1) (base_len src) in
    r ← base_reversed src;
    assign_slice name (low + 1 - n) (low + 1) (Fresh (BStr r)) m.

(** [_copy_bits] *)
Definition copy_bits (name : ident) (source : bits) (m : gmap ident MutableBitString)
    : result (gmap ident MutableBitString) :=
  target ← subscript m name;
  src ← deref m source;
  store_loop mb_setitem name source (Z.min (base_len src) (mb_length target)) m.

(** [_bits_compare] *)
Fixpoint compare_loop (a b mask : base) (l : list Z) : result bool :=
  match l with
  | [] => Ok true
  | i :: l =>
      selected ← (if i <? base_len mask then base_getitem mask i else Ok false);
      if (selected : bool) then
        x ← get_bit a i; y ← get_bit b i;
        if negb (x =? y) then Ok false else compare_loop a b mask l
      else compare_loop a b mask l
  end.

Definition bits_compare (a b mask : base) (length : Z) : result bool := compare_loop a b mask (seqZ 0 length).

(** ** Integers *)

(** [_to_signed32] *)
Definition to_signed32 (val : Z) : Z :=
  let val := Z.land val 0xFFFFFFFF in
  if Z.land val 0x80000000 =? 0 then val else val - 0x100000000.

(** [n / d] rounded to the nearest integer, to the even one when halfway. *)
Definition round_half_even (n d : Z) : Z :=
  let q := n / d in
  let r := n mod d in
  if (2 * r <? d) || ((2 * r =? d) && Z.even q) then q else q + 1.

(** The fraction [a / b / 2 ^ e]. *)
Definition scaled (a b e : Z) : Z * Z := if 0 <=? e then (a, b * 2 ^ e) else (a * 2 ^ (- e), b).

(** The exponent for which it has 53 bits before the point. *)
Definition quotient_exponent (a b : Z) : Z :=
  let e := Z.log2 a - Z.log2 b - 52 in
  let '(n, d) := scaled a b e in
  if n <? 2 ^ 52 * d then e - 1 else e.

(** [int(a / b)] of positive integers: the quotient is rounded to a binary64
    number of 53 bits, then cut.  A quotient too small to be normal is cut to 0
    whatever its rounding. *)
Definition truediv_pos (a b : Z) : result Z :=
  let e := quotient_exponent a b in
  let '(n, d) := scaled a b e in
  let m := round_half_even n d in
  let v := if 0 <=? e then m * 2 ^ e else m / 2 ^ (- e) in
  if 2 ^ 1024 <=? v then Err OverflowError else Ok v.

Definition truediv_int (a b : Z) : result Z :=
  if a =? 0 then Ok 0
  else v ← truediv_pos (Z.abs a) (Z.abs b); Ok (Z.sgn a * Z.sgn b * v).

(** [_eval_binop], the operands evaluated *)
Definition binop_value (op : binop) (a b : Z) : result Z :=
  match op with
  | Add => Ok (to_signed32 (a + b))
  | Sub => Ok (to_signed32 (a - b))
  | Mul => Ok (to_signed32 (a * b))
  | Div => if b =? 0 then Err StaplRuntimeError else q ← truediv_int a b; Ok (to_signed32 q)
  | Mod => if b =? 0 then Err StaplRuntimeError else Ok (a mod b)
  | Shl => if b <? 0 then Err ValueError else Ok (to_signed32 (Z.shiftl a b))
  | Shr => if b <? 0 then Err ValueError else Ok (to_signed32 (Z.shiftr a b))
  | BAnd => Ok (Z.land a b)
  | BOr => Ok (Z.lor a b)
  | BXor => Ok (Z.lxor a b)
  | Eq => Ok (Z.b2z (a =? b))
  | Ne => Ok (Z.b2z (negb (a =? b)))
  | Lt => Ok (Z.b2z (a <? b))
  | Gt => Ok (Z.b2z (b <? a))
  | Le => Ok (Z.b2z (a <=? b))
  | Ge => Ok (Z.b2z (b <=? a))
  | LAnd => Ok (Z.b2z (negb (a =? 0) && negb (b =? 0)))
  | LOr => Ok (Z.b2z (negb (a =? 0) || negb (b =? 0)))
  end.

Definition unop_value (op : unop) (val : Z) : Z :=
  match op with
  | Neg => - val
  | Com => Z.land (Z.lnot val) 0xFFFFFFFF
  | Not => if val =? 0 then 1 else 0
  end.

(** ** Expressions *)

(** [BitString(val, 32)] *)
Definition int_bits (val : Z) : result bits := b ← bs_init (Some (AInt val)) (Some 32); Ok (Fresh (BStr b)).

Definition literal_string (lit : boolean_literal) : result BitString :=
  d ← boolean_bytes lit; bs_init (Some (ABytes d)) (Some (bit_count lit)).

Section eval.
Context (s : vars).

(** [_eval_bits], [eval] evaluating integers *)
Definition bits_with (eval : expr -> result Z) (e : expr) : result bits :=
  match e with
  | BooleanLiteral lit => b ← literal_string lit; Ok (Fresh (BStr b))
  | VarRef name =>
      if bool_decide (is_Some (booleans s !! name)) then Ok (Whole name)
      else match integers s !! name with
           | Some (Scalar val) => int_bits val
           | Some (Array _) => Err AssertionError
           | None => Err StaplRuntimeError
           end
  | ArraySubrange name high low =>
      high ← eval high; low ← eval low;
      match booleans s !! name with
      | Some m => get_subrange name m high low
      | None => Err StaplRuntimeError
      end
  | ArrayWhole name =>
      if bool_decide (is_Some (booleans s !! name)) then Ok (Whole name) else Err StaplRuntimeError
  | FuncCall BOOL arg => val ← eval arg; int_bits val
  | _ => val ← eval e; int_bits val
  end.

(** [_eval_int] *)
Fixpoint eval_int (e : expr) : result Z :=
  match e with
  | IntLiteral v => Ok v
  | VarRef name =>
      match integers s !! name with
      | Some (Scalar v) => Ok v
      | Some (Array _) => Err AssertionError
      | None =>
          match booleans s !! name with
          | Some ba => if bool_decide (name ∈ bool_scalars s) then get_bit (BMut ba) 0 else to_int (BMut ba)
          | None => Err StaplRuntimeError
          end
      end
  | ArrayIndex name index_expr =>
      idx ← eval_int index_expr;
      match integers s !! name with
      | Some (Array arr) => if (idx <? 0) || (zlen arr <=? idx) then Ok 0 else index arr idx
      | Some (Scalar _) => Err AssertionError
      | None =>
          match booleans s !! name with
          | Some ba => get_bit (BMut ba) idx
          | None => Err StaplRuntimeError
          end
      end
  | UnaryOp op operand => val ← eval_int operand; Ok (unop_value op val)
  | BinOp op lhs rhs => a ← eval_int lhs; b ← eval_int rhs; binop_value op a b
  | FuncCall ABS arg => v ← eval_int arg; Ok (Z.abs v)
  | FuncCall INT arg => v ← bits_with eval_int arg; ba ← deref (booleans s) v; to_int ba
  | BooleanLiteral lit => b ← literal_string lit; to_int (BStr b)
  | ArraySubrange _ _ _ | ArrayWhole _ | FuncCall _ _ => Err StaplRuntimeError
  end.

(** [_eval_bits] *)
Definition eval_bits (e : expr) : result bits := bits_with eval_int e.

(** [bytes(self._eval_bits(e))] *)
Definition eval_bytes (e : expr) : result (list Z) :=
  v ← eval_bits e; b ← deref (booleans s) v; base_data b.

(** [_eval_export_value] *)
Definition eval_export_value (e : expr) : result (Z + list Z) :=
  match eval_int e with
  | Ok v => Ok (inl v)
  | Err (StaplRuntimeError | AssertionError) => b ← eval_bytes e; Ok (inr b)
  | Err x => Err x
  end.

(** One part of [_eval_print]: a string, or an expression. *)
Definition print_part (part : list Z + expr) : result (list Z) :=
  match part with
  | inl text => Ok text
  | inr (FuncCall CHR arg) =>
      val ← eval_int arg; if (0 <=? val) && (val <? 0x110000) then Ok [val] else Err ValueError
  | inr e => val ← eval_int e; Ok (format_d val)
  end.

Definition eval_print (parts : list (list Z + expr)) : result (list Z) :=
  l ← mapM print_part parts; Ok (concat l).

End eval.
