(* ===== verification/StaplExec.v ===== *)
(** * STAPL statements (src/acrobe/stapl/interpreter.py)

    The interpreter: its state, one definition per statement, procedures and
    actions.  The player is code of the caller: a record of its methods over its
    own state.

    A procedure may run for ever, so the program counter's loop has fuel, which
    calls and the statement after THEN use too. *)

From Stdlib Require Import Ascii String.
From stdpp Require Import gmap.
From S2P Require Import Prelude BitString BitVec PyText Aca StaplExpr StaplEval.

Open Scope Z_scope.

(** ** Programs *)

Record scan := mkScan {
  scan_length : expr;
  scan_tdi : expr;
  scan_capture : option expr;
  scan_compare : option expr;
  scan_mask : option expr;
  scan_result : option expr;
}.

Inductive stmt : Type :=
  | IntegerDecl (name : ident) (size : option expr) (init : option (list expr))
  | BooleanDecl (name : ident) (size : option expr) (init : option expr)
  | AssignStmt (target : ident) (index high low : option expr) (value : expr)
  | GotoStmt (label : ident)
  | CallStmt (procedure : ident)
  | ReturnStmt
  | ExitStmt (code : expr)
  | IfStmt (condition : expr) (then_stmt : stmt)
  | ForStmt (var : ident) (start stop : expr) (step : option expr)
  | NextStmt (var : ident)
  | PushStmt (value : expr)
  | PopStmt (target : ident) (index : option expr)
  | DrScanStmt (sc : scan)
  | IrScanStmt (sc : scan)
  | DrStopStmt (state : ident)
  | IrStopStmt (state : ident)
  | StateStmt (path : list ident)
  | WaitStmt (wait_state : option ident) (cycles usecs : option expr) (end_state : option ident)
      (max_cycles max_usecs : option expr)
  | TrstStmt (cycles usecs : option expr)
  | FrequencyStmt (value : option expr)
  | PreDrStmt (count : expr) (data : option expr)
  | PostDrStmt (count : expr) (data : option expr)
  | PreIrStmt (count : expr) (data : option expr)
  | PostIrStmt (count : expr) (data : option expr)
  | PrintStmt (parts : list (list Z + expr))
  | ExportStmt (key : list Z) (value : expr)
  | VmapStmt (signals : list ident)
  | VectorStmt (dir_vec in_vec : expr) (capture compare mask vresult : option expr).

Record ProcedureDef := mkProcedure {
  proc_name : ident;
  uses : list ident;
  statements : list stmt;
  labels : gmap ident Z;
}.

Inductive modifier : Type := Required | OPTIONAL | RECOMMENDED.

Record Program := mkProgram {
  actions : gmap ident (list (ident * modifier));       (* ActionDef.procedures *)
  procedures : gmap ident ProcedureDef;
  data_blocks : gmap ident (list stmt);                 (* DataBlock.statements *)
}.

(** ** The player *)

Definition method (P A : Type) : Type := P -> P * result A.

Record StaplPlayer (P : Type) := mkPlayer {
  ir_scan : Z -> list Z -> Z * list Z -> Z * list Z -> bool -> method P (option (list Z));
  dr_scan : Z -> list Z -> Z * list Z -> Z * list Z -> bool -> method P (option (list Z));
  player_state : ident -> option (list ident) -> method P unit;
  player_wait : option ident -> option Z -> option Z -> option ident -> method P unit;
  player_trst : option Z -> option Z -> method P unit;
  player_frequency : option Z -> method P unit;
  player_note : list Z -> method P unit;
  player_export : list Z -> Z + list Z -> method P unit;
  player_vector : list Z -> list Z -> bool -> method P (option (list Z));
}.
Arguments ir_scan {P} _. Arguments dr_scan {P} _. Arguments player_state {P} _. Arguments player_wait {P} _.
Arguments player_trst {P} _. Arguments player_frequency {P} _. Arguments player_note {P} _.
Arguments player_export {P} _. Arguments player_vector {P} _.

(** ** The interpreter's state *)

Record ForState := mkFor {
  for_var : ident;
  for_end : Z;
  for_step : Z;
  for_pc : Z;
}.

(** The fields that scans use: [_pre_dr] and the like. *)
Record padding := mkPadding {
  pre_dr : Z * list Z;
  post_dr : Z * list Z;
  pre_ir : Z * list Z;
  post_ir : Z * list Z;
}.

(** Stacks have their top first. *)
Record interp (P : Type) := mkInterp {
  env : vars;
  stack : list Z;
  call_stack : list (ident * Z);
  for_stack : list ForState;
  pads : padding;
  dr_stop : ident;
  ir_stop : ident;
  initialized_data : gset ident;
  vmap_signals : list ident;
  player : P;
}.
Arguments mkInterp {P} _ _ _ _ _ _ _ _ _ _. Arguments env {P} _. Arguments stack {P} _.
Arguments call_stack {P} _. Arguments for_stack {P} _. Arguments pads {P} _. Arguments dr_stop {P} _.
Arguments ir_stop {P} _. Arguments initialized_data {P} _. Arguments vmap_signals {P} _. Arguments player {P} _.

Definition new_interp {P : Type} (p : P) : interp P :=
  mkInterp no_vars [] [] [] (mkPadding (0, []) (0, []) (0, []) (0, [])) (lit "IDLE") (lit "IDLE") ∅ [] p.

Definition set_env {P : Type} (v : vars) (s : interp P) : interp P :=
  mkInterp v (stack s) (call_stack s) (for_stack s) (pads s) (dr_stop s) (ir_stop s) (initialized_data s)
    (vmap_signals s) (player s).
Definition set_stack {P : Type} (l : list Z) (s : interp P) : interp P :=
  mkInterp (env s) l (call_stack s) (for_stack s) (pads s) (dr_stop s) (ir_stop s) (initialized_data s)
    (vmap_signals s) (player s).
Definition set_call_stack {P : Type} (l : list (ident * Z)) (s : interp P) : interp P :=
  mkInterp (env s) (stack s) l (for_stack s) (pads s) (dr_stop s) (ir_stop s) (initialized_data s)
    (vmap_signals s) (player s).
Definition set_for_stack {P : Type} (l : list ForState) (s : interp P) : interp P :=
  mkInterp (env s) (stack s) (call_stack s) l (pads s) (dr_stop s) (ir_stop s) (initialized_data s)
    (vmap_signals s) (player s).
Definition set_pads {P : Type} (f : padding -> padding) (s : interp P) : interp P :=
  mkInterp (env s) (stack s) (call_stack s) (for_stack s) (f (pads s)) (dr_stop s) (ir_stop s) (initialized_data s)
    (vmap_signals s) (player s).
Definition set_stops {P : Type} (dr ir : ident) (s : interp P) : interp P :=
  mkInterp (env s) (stack s) (call_stack s) (for_stack s) (pads s) dr ir (initialized_data s) (vmap_signals s) (player s).
Definition set_initialized {P : Type} (l : gset ident) (s : interp P) : interp P :=
  mkInterp (env s) (stack s) (call_stack s) (for_stack s) (pads s) (dr_stop s) (ir_stop s) l (vmap_signals s) (player s).
Definition set_vmap {P : Type} (l : list ident) (s : interp P) : interp P :=
  mkInterp (env s) (stack s) (call_stack s) (for_stack s) (pads s) (dr_stop s) (ir_stop s) (initialized_data s) l (player s).
Definition set_player {P : Type} (p : P) (s : interp P) : interp P :=
  mkInterp (env s) (stack s) (call_stack s) (for_stack s) (pads s) (dr_stop s) (ir_stop s) (initialized_data s)
    (vmap_signals s) p.

(** Code of the interpreter: the state is kept when it raises. *)
Definition I (P A : Type) : Type := interp P -> interp P * result A.

#[global] Instance I_ret P : MRet (I P) := fun A a s => (s, Ok a).
#[global] Instance I_bind P : MBind (I P) :=
  fun A B f m s => match m s with (s, Ok a) => f a s | (s, Err e) => (s, Err e) end.

Definition raise {P A : Type} (e : exn) : I P A := fun s => (s, Err e).
(** What is computed from the variables. *)
Definition ask {P A : Type} (f : vars -> result A) : I P A := fun s => (s, f (env s)).
Definition update {P : Type} (f : interp P -> interp P) : I P unit := fun s => (f s, Ok tt).
Definition get {P A : Type} (f : interp P -> A) : I P A := fun s => (s, Ok (f s)).
(** A change of the Boolean variables. *)
Definition on_booleans {P : Type} (f : gmap ident MutableBitString -> result (gmap ident MutableBitString)) : I P unit :=
  fun s => match f (booleans (env s)) with
           | Ok m => (set_env (set_booleans m (env s)) s, Ok tt)
           | Err e => (s, Err e)
           end.
Definition call {P A : Type} (f : method P A) : I P A :=
  fun s => let '(p, r) := f (player s) in (set_player p s, r).

Definition ask_opt {P A : Type} (f : vars -> expr -> result A) (e : option expr) : I P (option A) :=
  match e with None => mret None | Some e => v ← ask (fun s => f s e); mret (Some v) end.

(** Running a step. *)
Section steps.
Context {P A B : Type} (s : interp P).

Lemma bind_ask (f : vars -> result A) (k : A -> I P B) a : f (env s) = Ok a -> (ask f ≫= k) s = k a s.
Proof. intros H. unfold mbind, I_bind, ask. by rewrite H. Qed.
Lemma bind_ask_err (f : vars -> result A) (k : A -> I P B) e : f (env s) = Err e -> (ask f ≫= k) s = (s, Err e).
Proof. intros H. unfold mbind, I_bind, ask. by rewrite H. Qed.
Lemma bind_get (f : interp P -> A) (k : A -> I P B) : (get f ≫= k) s = k (f s) s.
Proof. done. Qed.
Lemma bind_ret (a : A) (k : A -> I P B) : (mret a ≫= k) s = k a s.
Proof. done. Qed.
Lemma bind_update (f : interp P -> interp P) (k : unit -> I P B) : (update f ≫= k) s = k tt (f s).
Proof. done. Qed.
Lemma bind_call (f : method P A) (k : A -> I P B) p a : f (player s) = (p, Ok a) -> (call f ≫= k) s = k a (set_player p s).
Proof. intros H. unfold mbind, I_bind, call. by rewrite H. Qed.
Lemma bind_step (m : I P A) (k : A -> I P B) s' a : m s = (s', Ok a) -> (m ≫= k) s = k a s'.
Proof. intros H. unfold mbind, I_bind. by rewrite H. Qed.
Lemma bind_raise (m : I P A) (k : A -> I P B) s' e : m s = (s', Err e) -> (m ≫= k) s = (s', Err e).
Proof. intros H. unfold mbind, I_bind. by rewrite H. Qed.
Lemma bind_inv (m : I P A) (k : A -> I P B) s' b :
  (m ≫= k) s = (s', Ok b) -> exists a s1, m s = (s1, Ok a) /\ k a s1 = (s', Ok b).
Proof. unfold mbind, I_bind. destruct (m s) as [s1 [a|e]]; [|done]. intros H. by exists a, s1. Qed.
End steps.

(** [_ones_bytes] *)
Definition ones_bytes (bit_count : Z) : result (list Z) :=
  let d := replicate (Z.to_nat ((bit_count + 7) / 8)) 255 in
  let excess := Z.land bit_count 7 in
  if excess =? 0 then Ok d else set_item d (-1) (Z.shiftl 1 excess - 1).

(** ** Declarations *)

(** [while len(vals) < size: vals.append(0)] *)
Definition pad_zeros (vals : list Z) (size : Z) : list Z := vals ++ replicate (Z.to_nat (size - zlen vals)) 0.

(** [_exec_integer_decl] *)
Definition exec_integer_decl {P : Type} (name : ident) (size : option expr) (init : option (list expr)) : I P unit :=
  match size with
  | Some size =>
      size ← ask (fun s => eval_int s size);
      match init with
      | Some ((_ :: _) as init) =>
          vals ← ask (fun s => mapM (eval_int s) init);
          update (fun s => set_env (set_integer name (Array (pad_zeros (reverse vals) size)) (env s)) s)
      | _ => update (fun s => set_env (set_integer name (Array (replicate (Z.to_nat size) 0)) (env s)) s)
      end
  | None =>
      match init with
      | Some (e :: _) =>
          v ← ask (fun s => eval_int s e); update (fun s => set_env (set_integer name (Scalar v) (env s)) s)
      | _ => update (fun s => set_env (set_integer name (Scalar 0) (env s)) s)
      end
  end.

(** [self._booleans[name] = MutableBitString(value, size)] *)
Definition declare_boolean {P : Type} (name : ident) (value : arg) (size : Z) : I P unit :=
  m ← ask (fun _ => mb_init (Some value) (Some size));
  update (fun s => set_env (set_boolean name m (env s)) s).

(** [_exec_boolean_decl] *)
Definition exec_boolean_decl {P : Type} (name : ident) (size : option expr) (init : option expr) : I P unit :=
  match size with
  | Some size =>
      size ← ask (fun s => eval_int s size);
      match init with
      | Some (BooleanLiteral b) => d ← ask (fun _ => boolean_bytes b); declare_boolean name (ABytes d) size
      | _ => declare_boolean name (AInt 0) size
      end
  | None =>
      _ ← update (fun s => set_env (add_scalar name (env s)) s);
      match init with
      | Some e => val ← ask (fun s => eval_int s e); declare_boolean name (AInt (Z.land val 1)) 1
      | None => declare_boolean name (AInt 0) 1
      end
  end.

Definition exec_declaration {P : Type} (d : stmt) : I P unit :=
  match d with
  | IntegerDecl name size init => exec_integer_decl name size init
  | BooleanDecl name size init => exec_boolean_decl name size init
  | _ => mret tt
  end.

Fixpoint exec_declarations {P : Type} (l : list stmt) : I P unit :=
  match l with
  | [] => mret tt
  | d :: l => _ ← exec_declaration d; exec_declarations l
  end.

(** [_init_data_block] *)
Definition init_data_block {P : Type} (prog : Program) (name : ident) : I P unit :=
  done ← get initialized_data;
  if bool_decide (name ∈ done) then mret tt
  else
    _ ← update (set_initialized ({[name]} ∪ done));
    block ← ask (fun _ => subscript (data_blocks prog) name);
    exec_declarations block.

(** ** Assignment *)

(** [self._booleans[name][0] = v] *)
Definition set_first {P : Type} (name : ident) (v : bool) : I P unit :=
  on_booleans (fun m => t ← subscript m name; t ← mb_setitem t 0 v; Ok (<[name := t]> m)).

(** [_exec_assign] *)
Definition exec_assign {P : Type} (name : ident) (idx high low : option expr) (value : expr) : I P unit :=
  match high, low with
  | Some high, Some low =>
      high ← ask (fun s => eval_int s high);
      low ← ask (fun s => eval_int s low);
      source ← ask (fun s => eval_bits s value);
      on_booleans (set_subrange name high low source)
  | _, _ =>
      s ← get env;
      match idx with
      | Some idx =>
          idx ← ask (fun s => eval_int s idx);
          match integers s !! name, booleans s !! name with
          | Some (Array arr), _ =>
              v ← ask (fun s => eval_int s value);
              arr ← ask (fun _ => set_item arr idx v);
              update (fun s => set_env (set_integer name (Array arr) (env s)) s)
          | Some (Scalar _), _ => raise StaplRuntimeError
          | None, Some t =>
              v ← ask (fun s => eval_int s value);
              on_booleans (fun m => t ← set_bit t idx (negb (v =? 0)); Ok (<[name := t]> m))
          | None, None => raise StaplRuntimeError
          end
      | None =>
          if bool_decide (is_Some (booleans s !! name)) && negb (bool_decide (name ∈ bool_scalars s)) then
            source ← ask (fun s => eval_bits s value); on_booleans (copy_bits name source)
          else if bool_decide (name ∈ bool_scalars s) then
            val ← ask (fun s => eval_int s value); set_first name (negb (Z.land val 1 =? 0))
          else
            match integers s !! name with
            | Some (Array _) => _ ← ask (fun s => eval_int s value); raise StaplRuntimeError
            | Some (Scalar _) =>
                v ← ask (fun s => eval_int s value);
                update (fun s => set_env (set_integer name (Scalar v) (env s)) s)
            | None => raise StaplRuntimeError
            end
      end
  end.

(** The assignment of PopStmt, the value popped *)
Definition exec_pop_to {P : Type} (target : ident) (idx : option expr) (val : Z) : I P unit :=
  s ← get env;
  match idx with
  | Some idx =>
      idx ← ask (fun s => eval_int s idx);
      arr ← ask (fun _ => subscript (integers s) target);
      match arr with
      | Array arr =>
          arr ← ask (fun _ => set_item arr idx val);
          update (fun s => set_env (set_integer target (Array arr) (env s)) s)
      | Scalar _ => raise AssertionError
      end
  | None =>
      if bool_decide (target ∈ bool_scalars s) then
        if (val =? 0) || (val =? 1) then set_first target (negb (val =? 0)) else raise AssertionError
      else update (fun s => set_env (set_integer target (Scalar val) (env s)) s)
  end.

(** ** FOR and NEXT *)

(** [_exec_next] *)
Definition exec_next {P : Type} (var_name : ident) (pc : Z) : I P Z :=
  fors ← get for_stack;
  match fors with
  | [] => raise StaplRuntimeError
  | for_state :: rest =>
      if bool_decide (for_var for_state = var_name) then
        current ← ask (fun s => subscript (integers s) var_name);
        match current with
        | Array _ => raise AssertionError
        | Scalar current =>
            let new_val := current + for_step for_state in
            let done :=
              if 0 <? for_step for_state then for_end for_state <? new_val
              else if for_step for_state <? 0 then new_val <? for_end for_state
              else true in
            if (done : bool) then _ ← update (set_for_stack rest); mret (pc + 1)
            else
              _ ← update (fun s => set_env (set_integer var_name (Scalar new_val) (env s)) s);
              mret (for_pc for_state)
        end
      else raise StaplRuntimeError
  end.

(** ** Scans *)

(** [_store_bits] *)
Definition store_bits {P : Type} (target : expr) (source : base) : I P unit :=
  match target with
  | VarRef name =>
      s ← get env;
      if bool_decide (is_Some (booleans s !! name)) then on_booleans (copy_bits name (Fresh source))
      else raise StaplRuntimeError
  | ArraySubrange name h l =>
      high ← ask (fun s => eval_int s h);
      low ← ask (fun s => eval_int s l);
      on_booleans (set_subrange name high low (Fresh source))
  | ArrayWhole name => on_booleans (copy_bits name (Fresh source))
  | _ => raise StaplRuntimeError
  end.

(** [_store_bool_result] *)
Definition store_bool_result {P : Type} (target : expr) (value : bool) : I P unit :=
  match target with
  | VarRef name =>
      s ← get env;
      if bool_decide (name ∈ bool_scalars s) then set_first name value
      else if bool_decide (is_Some (integers s !! name)) then
        update (fun s => set_env (set_integer name (Scalar (Z.b2z value)) (env s)) s)
      else raise StaplRuntimeError
  | ArrayIndex name idx =>
      idx ← ask (fun s => eval_int s idx);
      s ← get env;
      match booleans s !! name, integers s !! name with
      | Some t, _ => on_booleans (fun m => t ← set_bit t idx value; Ok (<[name := t]> m))
      | None, Some (Array arr) =>
          arr ← ask (fun _ => set_item arr idx (Z.b2z value));
          update (fun s => set_env (set_integer name (Array arr) (env s)) s)
      | None, Some (Scalar _) => raise AssertionError
      | None, None => raise StaplRuntimeError
      end
  | _ => raise StaplRuntimeError
  end.

(** What follows the player's answer, in [_exec_scan] and in [_exec_vector]. *)
Definition finish_scan {P : Type} (n : Z) (capture compare mask vresult : option expr) (tdo_bytes : option (list Z)) : I P unit :=
  match tdo_bytes with
  | None => mret tt
  | Some tdo_bytes =>
      _ ← match capture with
          | Some capture =>
              tdo ← ask (fun _ => bs_init (Some (ABytes tdo_bytes)) (Some n)); store_bits capture (BStr tdo)
          | None => mret tt
          end;
      match compare with
      | Some compare =>
          tdo ← ask (fun _ => bs_init (Some (ABytes tdo_bytes)) (Some n));
          equal ← ask (fun s =>
            expected ← eval_bits s compare;
            mask ← match mask with
                   | Some mask => eval_bits s mask
                   | None => d ← ones_bytes n; b ← bs_init (Some (ABytes d)) (Some n); Ok (Fresh (BStr b))
                   end;
            expected ← deref (booleans s) expected;
            mask ← deref (booleans s) mask;
            bits_compare (BStr tdo) expected mask n);
          match vresult with Some target => store_bool_result target equal | None => mret tt end
      | None => mret tt
      end
  end.

Definition wanted {A} (o : option A) : bool := match o with Some _ => true | None => false end.

Section player.
Context {P : Type} (D : StaplPlayer P).

(** [_exec_scan] *)
Definition exec_scan (sc : scan) (is_ir : bool) : I P unit :=
  length ← ask (fun s => eval_int s (scan_length sc));
  tdi ← ask (fun s => eval_bytes s (scan_tdi sc));
  let needs_capture := wanted (scan_capture sc) || wanted (scan_compare sc) in
  p ← get pads;
  tdo_bytes ← (if is_ir then call (ir_scan D length tdi (pre_ir p) (post_ir p) needs_capture)
               else call (dr_scan D length tdi (pre_dr p) (post_dr p) needs_capture));
  finish_scan length (scan_capture sc) (scan_compare sc) (scan_mask sc) (scan_result sc) tdo_bytes.

(** [_exec_vector] *)
Definition exec_vector (dir_vec in_vec : expr) (capture compare mask vresult : option expr) : I P unit :=
  dir_bits ← ask (fun s => v ← eval_bits s dir_vec; deref (booleans s) v);
  in_bytes ← ask (fun s => eval_bytes s in_vec);
  dir_bytes ← ask (fun _ => base_data dir_bits);
  tdo_bytes ← call (player_vector D dir_bytes in_bytes (wanted capture || wanted compare));
  finish_scan (base_len dir_bits) capture compare mask vresult tdo_bytes.

(** The padding of PREDR and the like: [count] and its bytes. *)
Definition pad_of (count : expr) (data : option expr) : I P (Z * list Z) :=
  count ← ask (fun s => eval_int s count);
  d ← match data with
      | Some data => ask (fun s => eval_bytes s data)
      | None => ask (fun _ => ones_bytes count)
      end;
  mret (count, d).

(** The statements that go on at the next one, whatever happens. *)
Definition exec_simple (st : stmt) (pc : Z) : I P unit :=
  match st with
  | IntegerDecl name size init => exec_integer_decl name size init
  | BooleanDecl name size init => exec_boolean_decl name size init
  | AssignStmt target idx high low value => exec_assign target idx high low value
  | ForStmt var start stop step =>
      start ← ask (fun s => eval_int s start);
      stop ← ask (fun s => eval_int s stop);
      step ← match step with Some step => ask (fun s => eval_int s step) | None => mret 1 end;
      _ ← update (fun s => set_env (set_integer var (Scalar start) (env s)) s);
      update (fun s => set_for_stack (mkFor var stop step (pc + 1) :: for_stack s) s)
  | PushStmt value => v ← ask (fun s => eval_int s value); update (fun s => set_stack (v :: stack s) s)
  | PopStmt target idx =>
      st ← get stack;
      match st with
      | [] => raise StaplRuntimeError
      | val :: rest => _ ← update (set_stack rest); exec_pop_to target idx val
      end
  | DrScanStmt sc => exec_scan sc false
  | IrScanStmt sc => exec_scan sc true
  | DrStopStmt state => update (fun s => set_stops state (ir_stop s) s)
  | IrStopStmt state => update (fun s => set_stops (dr_stop s) state s)
  | StateStmt path =>
      final ← ask (fun _ => index path (-1));
      call (player_state D final (if 1 <? zlen path then Some (slice_to path (-1)) else None))
  | WaitStmt wait_state cycles usecs end_state _ _ =>
      cycles ← ask_opt eval_int cycles;
      usecs ← ask_opt eval_int usecs;
      call (player_wait D wait_state cycles usecs end_state)
  | TrstStmt cycles usecs =>
      cycles ← ask_opt eval_int cycles;
      usecs ← ask_opt eval_int usecs;
      call (player_trst D cycles usecs)
  | FrequencyStmt value => hz ← ask_opt eval_int value; call (player_frequency D hz)
  | PreDrStmt count data =>
      p ← pad_of count data; update (set_pads (fun q => mkPadding p (post_dr q) (pre_ir q) (post_ir q)))
  | PostDrStmt count data =>
      p ← pad_of count data; update (set_pads (fun q => mkPadding (pre_dr q) p (pre_ir q) (post_ir q)))
  | PreIrStmt count data =>
      p ← pad_of count data; update (set_pads (fun q => mkPadding (pre_dr q) (post_dr q) p (post_ir q)))
  | PostIrStmt count data =>
      p ← pad_of count data; update (set_pads (fun q => mkPadding (pre_dr q) (post_dr q) (pre_ir q) p))
  | PrintStmt parts => text ← ask (fun s => eval_print s parts); call (player_note D text)
  | ExportStmt key value => v ← ask (fun s => eval_export_value s value); call (player_export D key v)
  | VmapStmt signals => update (set_vmap signals)
  | VectorStmt dir_vec in_vec capture compare mask vresult => exec_vector dir_vec in_vec capture compare mask vresult
  | _ => raise StaplRuntimeError
  end.

(** ** Procedures *)

Context (prog : Program).

(** The data blocks of USES. *)
Fixpoint init_uses (l : list ident) : I P unit :=
  match l with
  | [] => mret tt
  | dep_name :: l =>
      _ ← (if bool_decide (is_Some (data_blocks prog !! upper dep_name)) then init_data_block prog (upper dep_name)
           else mret tt);
      init_uses l
  end.

(** [_execute_stmt]: the next program counter *)
Fixpoint execute_stmt (fuel : nat) (st : stmt) (pc : Z) (proc : ProcedureDef) : I P Z :=
  match fuel with
  | O => raise OutOfFuel
  | S fuel =>
      match st with
      | GotoStmt label =>
          match labels proc !! upper label with Some target => mret target | None => raise StaplRuntimeError end
      | CallStmt procedure =>
          _ ← update (fun s => set_call_stack ((proc_name proc, pc + 1) :: call_stack s) s);
          _ ← execute_procedure fuel (upper procedure);
          mret (pc + 1)
      | ExitStmt code => code ← ask (fun s => eval_int s code); raise (StaplExit code)
      | IfStmt condition then_stmt =>
          cond ← ask (fun s => eval_int s condition);
          if negb (cond =? 0) then execute_stmt fuel then_stmt pc proc else mret (pc + 1)
      | NextStmt var => exec_next var pc
      | _ => _ ← exec_simple st pc; mret (pc + 1)
      end
  end

(** [_execute_procedure] *)
with execute_procedure (fuel : nat) (name : ident) : I P unit :=
  match fuel with
  | O => raise OutOfFuel
  | S fuel =>
      match procedures prog !! upper name with
      | None => raise StaplRuntimeError
      | Some proc => _ ← init_uses (uses proc); run_from fuel proc 0
      end
  end

(** [while pc < len(proc.statements)] *)
with run_from (fuel : nat) (proc : ProcedureDef) (pc : Z) : I P unit :=
  match fuel with
  | O => raise OutOfFuel
  | S fuel =>
      if pc <? zlen (statements proc) then
        st ← ask (fun _ => index (statements proc) pc);
        pc ← execute_stmt fuel st pc proc;
        run_from fuel proc pc
      else mret tt
  end.

(** ** Actions *)

(** [procs_to_call] *)
Definition is_called (include exclude : gset ident) (p : ident * modifier) : bool :=
  match p.2 with
  | OPTIONAL => bool_decide (upper p.1 ∈ include)
  | RECOMMENDED => negb (bool_decide (upper p.1 ∈ exclude))
  | Required => true
  end.

Definition procs_to_call (include exclude : gset ident) (l : list (ident * modifier)) : list ident :=
  upper ∘ fst <$> filter (fun p => is_called include exclude p = true) l.

Fixpoint call_all (fuel : nat) (l : list ident) : I P unit :=
  match l with
  | [] => mret tt
  | name :: l => _ ← execute_procedure fuel name; call_all fuel l
  end.

(** [execute] *)
Definition execute (fuel : nat) (action_name : ident) (include exclude : gset ident) : I P Z :=
  match actions prog !! upper action_name with
  | None => raise StaplRuntimeError
  | Some l => fun s =>
      match call_all fuel (procs_to_call include exclude l) s with
      | (s, Ok _) => (s, Ok 0)
      | (s, Err (StaplExit code)) => (s, Ok code)
      | (s, Err e) => (s, Err e)
      end
  end.

End player.
