(* ===== verification/StaplParser.v ===== *)
(** * STAPL statements and programs (src/acrobe/stapl/parser.py)

    From the lexer's statements to a [Program]: labels, the handler of each
    keyword, procedures, data blocks and actions.  Offsets into a text are
    positions of its list of characters.

    A handler is looked up by name among the methods of the parser, so words that
    name other methods reach those; [_parse_body_statement_into] is the one that
    is not followed, as it fails on a text whatever it does with it. *)

From Stdlib Require Import Ascii String.
From stdpp Require Import gmap.
From S2P Require Import Prelude PyText Aca StaplExpr StaplLexer StaplEval StaplExec.

Open Scope Z_scope.

(** ** Searching *)

(** [text.find(c)] *)
Fixpoint find_char (c : Z) (l : list Z) : option nat :=
  match l with
  | [] => None
  | x :: l => if x =? c then Some O else S <$> find_char c l
  end.

(** [text.rindex(c)] *)
Definition rindex (c : Z) (l : list Z) : result nat :=
  match find_char c (reverse l) with Some i => Ok (length l - 1 - i)%nat | None => Err ValueError end.

(** [text.find(word)] *)
Fixpoint find_sub (word l : list Z) : option nat :=
  if starts_with word l then Some O
  else match l with [] => None | _ :: l => S <$> find_sub word l end.

Definition is_open (c : Z) : bool := (c =? 40) || (c =? 91).
Definition is_close (c : Z) : bool := (c =? 41) || (c =? 93).

(** [_split_comma_toplevel]; [count] is [len(parts)] *)
Fixpoint split_comma_loop (max_parts count : nat) (depth : Z) (in_string : bool) (current l : list Z) : list (list Z) :=
  match l with
  | [] => if (0 <? count)%nat || negb (bool_decide (current = [])) then [current] else []
  | ch :: l =>
      if in_string then split_comma_loop max_parts count depth (negb (ch =? QUOTE)) (current ++ [ch]) l
      else if ch =? QUOTE then split_comma_loop max_parts count depth true (current ++ [ch]) l
      else if is_open ch then split_comma_loop max_parts count (depth + 1) false (current ++ [ch]) l
      else if is_close ch then split_comma_loop max_parts count (depth - 1) false (current ++ [ch]) l
      else if (ch =? 44) && (depth =? 0) then
        if (0 <? max_parts)%nat && (max_parts - 1 <=? count)%nat
        then split_comma_loop max_parts count depth false (current ++ [ch]) l
        else current :: split_comma_loop max_parts (S count) depth false [] l
      else split_comma_loop max_parts count depth false (current ++ [ch]) l
  end.

Definition split_comma_toplevel (l : list Z) (max_parts : nat) : list (list Z) :=
  split_comma_loop max_parts 0 0 false [] l.

(** [_find_keyword]; [prev] is the character before *)
Fixpoint find_keyword_loop (keyword : list Z) (prev : option Z) (depth : Z) (in_string : bool) (l : list Z) : option nat :=
  match l with
  | [] => None
  | ch :: rest =>
      let later depth in_string := S <$> find_keyword_loop keyword (Some ch) depth in_string rest in
      if in_string then later depth (negb (ch =? QUOTE))
      else if ch =? QUOTE then later depth true
      else if is_open ch then later (depth + 1) false
      else if is_close ch then later (depth - 1) false
      else if (depth =? 0) && bool_decide (upper (take (length keyword) l) = upper keyword)
              && match prev with Some c => negb (is_name_char c) | None => true end
              && match drop (length keyword) l with c :: _ => negb (is_name_char c) | [] => true end
      then Some O
      else later depth false
  end.

Definition find_keyword (l keyword : list Z) : option nat := find_keyword_loop keyword None 0 false l.

(** [_find_assignment_eq] *)
Fixpoint find_eq_loop (prev : option Z) (depth : Z) (in_string : bool) (l : list Z) : option nat :=
  match l with
  | [] => None
  | ch :: rest =>
      let later depth in_string := S <$> find_eq_loop (Some ch) depth in_string rest in
      if in_string then later depth (negb (ch =? QUOTE))
      else if ch =? QUOTE then later depth true
      else if is_open ch then later (depth + 1) false
      else if is_close ch then later (depth - 1) false
      else if (ch =? 61) && (depth =? 0) then
        match rest with
        | c :: rest' =>
            if c =? 61 then (fun i => S (S i)) <$> find_eq_loop (Some c) depth false rest'
            else match prev with
                 | Some p => if (p =? 33) || (p =? 60) || (p =? 62) then later depth false else Some O
                 | None => Some O
                 end
        | [] =>
            match prev with
            | Some p => if (p =? 33) || (p =? 60) || (p =? 62) then None else Some O
            | None => Some O
            end
        end
      else later depth false
  end.

Definition find_assignment_eq (l : list Z) : option nat := find_eq_loop None 0 false l.

(** [_unquote] *)
Definition unquote (l : list Z) : list Z :=
  let l := strip l in
  if bool_decide (head l = Some QUOTE) && bool_decide (last l = Some QUOTE) then slice l 1 (-1) else l.

(** [_parse_name_and_string], the name *)
Definition action_name_of (l : list Z) : list Z :=
  let l := strip l in
  match find_char QUOTE l with None => strip l | Some i => strip (take i l) end.

(** [text[bracket + 1 : text.rindex(']')].strip()] *)
Definition bracketed (bracket : nat) (l : list Z) : result (list Z) :=
  r ← rindex 93 l; Ok (strip (take (r - S bracket) (drop (S bracket) l))).

(** ** Parts of statements *)

(** [_parse_lhs] *)
Definition parse_lhs (l : list Z) : result (ident * option expr * option expr * option expr) :=
  let l := strip l in
  match find_char 91 l with
  | None => Ok (l, None, None, None)
  | Some bracket =>
      let name := strip (take bracket l) in
      inner ← bracketed bracket l;
      match inner with
      | [] => Ok (name, None, None, None)
      | _ =>
          match find_sub [46; 46] inner with
          | Some i =>
              high ← parse_expr (take i inner); low ← parse_expr (drop (i + 2) inner);
              Ok (name, None, Some high, Some low)
          | None => e ← parse_expr inner; Ok (name, Some e, None, None)
          end
      end
  end.

(** [_parse_var_ref] *)
Definition parse_var_ref (l : list Z) : result (ident * option expr) :=
  match find_char 91 l with
  | None => Ok (l, None)
  | Some bracket =>
      inner ← bracketed bracket l; e ← parse_expr inner; Ok (strip (take bracket l), Some e)
  end.

(** The part of a declaration before its [=], and the one after. *)
Definition split_eq (rest : list Z) : list Z * option (list Z) :=
  match find_assignment_eq rest with
  | Some i => (strip (take i rest), Some (strip (drop (S i) rest)))
  | None => (strip rest, None)
  end.

(** The name and the size of a declaration. *)
Definition name_and_size (lhs : list Z) : result (ident * option expr) :=
  match find_char 91 lhs with
  | None => Ok (lhs, None)
  | Some bracket =>
      size ← bracketed bracket lhs; size ← parse_expr size; Ok (strip (take bracket lhs), Some size)
  end.

(** [_parse_integer_decl] *)
Definition parse_integer_decl (rest : list Z) : result stmt :=
  let '(lhs, rhs) := split_eq rest in
  '(name, size) ← name_and_size lhs;
  match rhs with
  | None => Ok (IntegerDecl name size None)
  | Some rhs =>
      init ← match size with
             | Some _ => mapM (fun v => parse_expr (strip v)) (split_comma_toplevel rhs 0)
             | None => e ← parse_expr rhs; Ok [e]
             end;
      Ok (IntegerDecl name size (Some init))
  end.

(** [_parse_boolean_literal_or_expr] *)
Definition parse_boolean_literal_or_expr (l : list Z) : result expr :=
  let l := strip l in
  match l with
  | c :: body =>
      if c =? 35 then b ← parse_binary_literal body; Ok (BooleanLiteral b)
      else if c =? 36 then b ← parse_hex_literal body; Ok (BooleanLiteral b)
      else if c =? 64 then b ← parse_aca_literal body; Ok (BooleanLiteral b)
      else parse_expr l
  | [] => parse_expr l
  end.

(** [_parse_boolean_decl] *)
Definition parse_boolean_decl (rest : list Z) : result stmt :=
  let '(lhs, rhs) := split_eq rest in
  '(name, size) ← name_and_size lhs;
  match rhs with
  | None => Ok (BooleanDecl name size None)
  | Some rhs => init ← parse_boolean_literal_or_expr rhs; Ok (BooleanDecl name size (Some init))
  end.

(** The clauses of a scan or of a vector: CAPTURE and COMPARE *)
Record clauses := mkClauses {
  c_capture : option expr;
  c_compare : option expr;
  c_mask : option expr;
  c_result : option expr;
}.

Fixpoint parse_clauses (fuel : nat) (c : clauses) (parts : list (list Z)) : result clauses :=
  match fuel, parts with
  | _, [] => Ok c
  | O, _ => Err OutOfFuel
  | S fuel, part :: parts =>
      let part := strip part in
      let u := upper part in
      if starts_with (lit "CAPTURE ") u then
        e ← parse_expr (strip (drop 8 part)); parse_clauses fuel (mkClauses (Some e) (c_compare c) (c_mask c) (c_result c)) parts
      else if starts_with (lit "COMPARE ") u then
        e ← parse_expr (strip (drop 8 part));
        match parts with
        | [] => parse_clauses fuel (mkClauses (c_capture c) (Some e) (c_mask c) (c_result c)) []
        | [m] =>
            m ← parse_expr (strip m);
            parse_clauses fuel (mkClauses (c_capture c) (Some e) (Some m) (c_result c)) []
        | m :: r :: parts =>
            m ← parse_expr (strip m); r ← parse_expr (strip r);
            parse_clauses fuel (mkClauses (c_capture c) (Some e) (Some m) (Some r)) parts
        end
      else Err StaplError
  end.

(** The two expressions and the clauses of [_parse_scan_stmt] and
    [_parse_vector_stmt]. *)
Definition parse_two_and_clauses (rest : list Z) : result (expr * expr * clauses) :=
  match split_comma_toplevel rest 0 with
  | a :: b :: parts =>
      a ← parse_expr (strip a); b ← parse_expr (strip b);
      c ← parse_clauses (length parts) (mkClauses None None None None) parts;
      Ok (a, b, c)
  | _ => Err StaplError
  end.

Definition parse_scan_stmt (rest : list Z) : result scan :=
  '(n, tdi, c) ← parse_two_and_clauses rest;
  Ok (mkScan n tdi (c_capture c) (c_compare c) (c_mask c) (c_result c)).

Definition parse_vector_stmt (rest : list Z) : result stmt :=
  '(d, i, c) ← parse_two_and_clauses rest;
  Ok (VectorStmt d i (c_capture c) (c_compare c) (c_mask c) (c_result c)).

(** ** WAIT and TRST *)

Definition JTAG_STATES : list (list Z) :=
  lit <$> ["RESET"; "IDLE"; "DRSELECT"; "DRCAPTURE"; "DRSHIFT"; "DREXIT1"; "DRPAUSE"; "DREXIT2"; "DRUPDATE";
           "IRSELECT"; "IRCAPTURE"; "IRSHIFT"; "IREXIT1"; "IRPAUSE"; "IREXIT2"; "IRUPDATE"]%string.

Definition is_state (t : list Z) : bool := bool_decide (upper t ∈ JTAG_STATES).

(** [_tokenize_wait] *)
Fixpoint tokenize_wait_loop (depth : Z) (current l : list Z) : list (list Z) :=
  let flush := if bool_decide (current = []) then [] else [strip current] in
  match l with
  | [] => flush
  | ch :: l =>
      if is_open ch then tokenize_wait_loop (depth + 1) (current ++ [ch]) l
      else if is_close ch then tokenize_wait_loop (depth - 1) (current ++ [ch]) l
      else if (ch =? 44) && (depth =? 0) then flush ++ [44] :: tokenize_wait_loop depth [] l
      else if is_ws ch && (depth =? 0) then flush ++ tokenize_wait_loop depth [] l
      else tokenize_wait_loop depth (current ++ [ch]) l
  end.

Definition tokenize_wait (l : list Z) : list (list Z) :=
  filter (fun t => t <> []) (tokenize_wait_loop 0 [] l).

Definition token_is (word : string) (t : list Z) : bool := bool_decide (upper t = lit word).

(** [_parse_wait_type]: the cycles, the microseconds and the tokens left *)
Definition parse_wait_type (tokens : list (list Z)) : result (option expr * option expr * list (list Z)) :=
  match tokens with
  | t :: unit :: rest =>
      if token_is "CYCLES" unit then
        cycles ← parse_expr t;
        match rest with
        | comma :: u :: unit2 :: rest2 =>
            if bool_decide (comma = [44]) && token_is "USEC" unit2
            then usecs ← parse_expr u; Ok (Some cycles, Some usecs, rest2)
            else Ok (Some cycles, None, rest)
        | _ => Ok (Some cycles, None, rest)
        end
      else if token_is "USEC" unit then usecs ← parse_expr t; Ok (None, Some usecs, rest)
      else Ok (None, None, tokens)
  | _ => Ok (None, None, tokens)
  end.

(** [_parse_wait_stmt] *)
Definition parse_wait_stmt (rest : list Z) : result stmt :=
  let tokens := tokenize_wait rest in
  let '(wait_state, tokens) :=
    match tokens with
    | t :: comma :: after => if is_state t && bool_decide (comma = [44]) then (Some (upper t), after) else (None, tokens)
    | _ => (None, tokens)
    end in
  '(cycles, usecs, tokens) ← parse_wait_type tokens;
  let '(end_state, tokens) :=
    match tokens with
    | comma :: after =>
        if bool_decide (comma = [44]) then
          match after with
          | t :: after' => if is_state t then (Some (upper t), after') else (None, after)
          | [] => (None, after)
          end
        else (None, tokens)
    | [] => (None, tokens)
    end in
  '(max_cycles, max_usecs) ←
    match tokens with
    | t :: after => if token_is "MAX" t then '(c, u, _) ← parse_wait_type after; Ok (c, u) else Ok (None, None)
    | [] => Ok (None, None)
    end;
  Ok (WaitStmt wait_state cycles usecs end_state max_cycles max_usecs).

(** [_parse_trst_stmt] *)
Definition parse_trst_stmt (rest : list Z) : result stmt :=
  match strip rest with
  | [] => Ok (TrstStmt None None)
  | rest => '(c, u, _) ← parse_wait_type (tokenize_wait rest); Ok (TrstStmt c u)
  end.

(** [_parse_pre_post] *)
Definition parse_pre_post (rest : list Z) : result (expr * option expr) :=
  match split_comma_toplevel rest 2 with
  | [] => Err IndexError
  | count :: parts =>
      count ← parse_expr (strip count);
      match parts with
      | [] => Ok (count, None)
      | d :: _ => d ← parse_expr (strip d); Ok (count, Some d)
      end
  end.

(** [_parse_print_parts] *)
Definition parse_print_part (part : list Z) : result (list Z + expr) :=
  let part := strip part in
  if bool_decide (head part = Some QUOTE) then Ok (inl (unquote part)) else e ← parse_expr part; Ok (inr e).

(** ** Statements *)

Definition KEYWORDS : list (list Z) :=
  lit <$> ["ACTION"; "BOOLEAN"; "CALL"; "CRC"; "DATA"; "DRSCAN"; "DRSTOP"; "ENDDATA"; "ENDPROC"; "EXIT"; "EXPORT"; "FOR";
           "FREQUENCY"; "GOTO"; "IF"; "INTEGER"; "IRSCAN"; "IRSTOP"; "NEXT"; "NOTE"; "POP"; "POSTDR"; "POSTIR"; "PREDR";
           "PREIR"; "PRINT"; "PROCEDURE"; "PUSH"; "STATE"; "TRST"; "VECTOR"; "VMAP"; "WAIT"]%string.

(** [_parse_assign_text] *)
Definition parse_assign_text (l : list Z) : result stmt :=
  match find_assignment_eq l with
  | None => Err StaplError
  | Some i =>
      '(target, idx, high, low) ← parse_lhs (strip (take i l));
      value ← parse_expr (strip (drop (S i) l));
      Ok (AssignStmt target idx high low value)
  end.

(** [_parse_for] *)
Definition parse_for (rest : list Z) : result stmt :=
  (* [rest[:-1]] and [rest[0:]] when there is no [=] *)
  let '(var, after_eq) := match find_char 61 rest with
                          | Some i => (strip (take i rest), strip (drop (S i) rest))
                          | None => (strip (slice_to rest (-1)), strip rest)
                          end in
  match find_keyword after_eq (lit "TO") with
  | None => Err StaplError
  | Some i =>
      let start_text := strip (take i after_eq) in
      let after_to := strip (drop (i + 2) after_eq) in
      '(end_text, step) ←
        match find_keyword after_to (lit "STEP") with
        | Some j => step ← parse_expr (strip (drop (j + 4) after_to)); Ok (strip (take j after_to), Some step)
        | None => Ok (after_to, None)
        end;
      start ← parse_expr start_text;
      stop ← parse_expr end_text;
      Ok (ForStmt var start stop step)
  end.

Definition stop_state (rest : list Z) : list Z :=
  match upper (strip rest) with [] => lit "IDLE" | s => s end.

Definition is_word (keyword : list Z) (w : string) : bool := bool_decide (keyword = lit w).

(** The handlers that do not parse another statement; [None] when the parser
    has no method of that name. *)
Definition plain_handler (keyword rest : list Z) : option (result stmt) :=
  if is_word keyword "INTEGER" then Some (parse_integer_decl rest)
  else if is_word keyword "BOOLEAN" then Some (parse_boolean_decl rest)
  else if is_word keyword "GOTO" then Some (Ok (GotoStmt (strip rest)))
  else if is_word keyword "CALL" then Some (Ok (CallStmt (strip rest)))
  else if is_word keyword "ENDPROC" then Some (Ok ReturnStmt)
  else if is_word keyword "EXIT" then Some (e ← parse_expr rest; Ok (ExitStmt e))
  else if is_word keyword "FOR" then Some (parse_for rest)
  else if is_word keyword "NEXT" then Some (Ok (NextStmt (strip rest)))
  else if is_word keyword "PUSH" then Some (e ← parse_expr rest; Ok (PushStmt e))
  else if is_word keyword "POP" then Some ('(target, idx) ← parse_var_ref (strip rest); Ok (PopStmt target idx))
  else if is_word keyword "DRSCAN" then Some (sc ← parse_scan_stmt rest; Ok (DrScanStmt sc))
  else if is_word keyword "IRSCAN" then Some (sc ← parse_scan_stmt rest; Ok (IrScanStmt sc))
  else if is_word keyword "DRSTOP" then Some (Ok (DrStopStmt (stop_state rest)))
  else if is_word keyword "IRSTOP" then Some (Ok (IrStopStmt (stop_state rest)))
  else if is_word keyword "STATE" then Some (Ok (StateStmt (split_words [] (upper (strip rest)))))
  else if is_word keyword "WAIT" then Some (parse_wait_stmt rest)
  else if is_word keyword "TRST" then Some (parse_trst_stmt rest)
  else if is_word keyword "FREQUENCY" then
    Some (match strip rest with [] => Ok (FrequencyStmt None) | r => e ← parse_expr r; Ok (FrequencyStmt (Some e)) end)
  else if is_word keyword "PREDR" then Some ('(c, d) ← parse_pre_post rest; Ok (PreDrStmt c d))
  else if is_word keyword "POSTDR" then Some ('(c, d) ← parse_pre_post rest; Ok (PostDrStmt c d))
  else if is_word keyword "PREIR" then Some ('(c, d) ← parse_pre_post rest; Ok (PreIrStmt c d))
  else if is_word keyword "POSTIR" then Some ('(c, d) ← parse_pre_post rest; Ok (PostIrStmt c d))
  else if is_word keyword "PRINT" then Some (parts ← mapM parse_print_part (split_comma_toplevel rest 0); Ok (PrintStmt parts))
  else if is_word keyword "EXPORT" then
    Some (match split_comma_toplevel rest 2 with
          | [k; v] => e ← parse_expr (strip v); Ok (ExportStmt (unquote (strip k)) e)
          | _ => Err StaplError
          end)
  else if is_word keyword "VMAP" then Some (Ok (VmapStmt ((fun p => unquote (strip p)) <$> split_comma_toplevel rest 0)))
  else if is_word keyword "VECTOR" then Some (parse_vector_stmt rest)
  else if is_word keyword "ASSIGN_TEXT" then Some (parse_assign_text rest)
  (* methods that take no argument *)
  else if is_word keyword "NOTE" || is_word keyword "ACTION" || is_word keyword "PROCEDURE" || is_word keyword "DATA" || is_word keyword "CRC" then Some (Err TypeError)
  else if is_word keyword "BODY_STATEMENT_INTO" then Some (Err TypeError)
  else None.

(** The first word of a statement, in capitals, and what follows it. *)
Definition keyword_and_rest (l : list Z) : result (list Z * list Z) :=
  match split_first l with
  | [] => Err IndexError
  | [w] => Ok (upper w, [])
  | w :: r :: _ => Ok (upper w, strip r)
  end.

(** [getattr(self, '_parse_' + keyword)], called: [parse] parses a statement
    after THEN when its flag is set, any other otherwise. *)
Definition handler (parse : bool -> list Z -> result stmt) (keyword rest : list Z) : option (result stmt) :=
  if is_word keyword "IF" then
    Some (match find_keyword rest (lit "THEN") with
          | None => Err StaplError
          | Some i =>
              condition ← parse_expr (strip (take i rest));
              then_stmt ← parse true (strip (drop (i + 4) rest));
              Ok (IfStmt condition then_stmt)
          end)
  else if is_word keyword "STATEMENT_TEXT" then Some (parse false rest)
  else if is_word keyword "INLINE_STATEMENT" then Some (parse true rest)
  else plain_handler keyword rest.

(** [_parse_statement_text] ([inline] false) and [_parse_inline_statement],
    which are the same but for the keyword prefixes. *)
Fixpoint parse_statement (fuel : nat) (inline : bool) (l : list Z) : result stmt :=
  match fuel with
  | O => Err OutOfFuel
  | S fuel =>
      let assignment := if bool_decide (61 ∈ l) then parse_assign_text l else Err StaplError in
      '(keyword, rest) ← keyword_and_rest l;
      match handler (parse_statement fuel) keyword rest with
      | Some r => r
      | None =>
          if inline then assignment
          else
            match list_find (fun kw => starts_with kw keyword && (length kw <? length keyword)%nat = true) KEYWORDS with
            | Some (_, kw) =>
                match handler (parse_statement fuel) kw (strip (drop (length kw) l)) with Some r => r | None => assignment end
            | None => assignment
            end
      end
  end.

Definition parse_statement_text (l : list Z) : result stmt := parse_statement (S (length l)) false l.

(** ** Blocks *)

(** A label before the statement, in capitals, and the text after it. *)
Definition label_of (l : list Z) : option (ident * list Z) :=
  match find_char 58 l with
  | Some (S _ as colon) =>
      let before := strip (take colon l) in
      if negb (bool_decide (before = [])) && forallb is_name_char before
      then Some (upper before, strip (drop (S colon) l)) else None
  | _ => None
  end.

(** [_keyword] *)
Definition keyword_of (l : list Z) : result (list Z) :=
  let word l :=
    match split_first l with
    | [] => Err IndexError
    | w :: _ =>
        let w := upper w in
        if bool_decide (w ∈ KEYWORDS) then Ok w
        else if bool_decide (61 ∈ l) then Ok (lit "ASSIGN") else Ok w
    end in
  match label_of l with
  | Some (_, []) => Ok (lit "LABEL")
  | Some (_, l) => word l
  | None => word l
  end.

Record body := mkBody {
  b_stmts : list stmt;
  b_labels : gmap ident Z;
}.

(** [_parse_body_statement_into] *)
Definition parse_body_statement_into (b : body) (l : list Z) : result body :=
  match label_of l with
  | Some (name, l) =>
      let labels := <[name := zlen (b_stmts b)]> (b_labels b) in
      match l with
      | [] => Ok (mkBody (b_stmts b) labels)
      | _ => st ← parse_statement_text l; Ok (mkBody (b_stmts b ++ [st]) labels)
      end
  | None => st ← parse_statement_text l; Ok (mkBody (b_stmts b ++ [st]) (b_labels b))
  end.

(** ** Programs *)

Definition is_keyword (w : string) (l : list Z) : result bool := k ← keyword_of l; Ok (bool_decide (k = lit w)).

(** The body of a procedure, up to ENDPROC, and the statements after it *)
Fixpoint parse_proc_body (b : body) (l : list Statement) : result (body * list Statement) :=
  match l with
  | [] => Err StaplError
  | st :: l =>
      stop ← is_keyword "ENDPROC" (text st);
      if stop : bool then
        Ok (match label_of (text st) with
            | Some (name, _) => mkBody (b_stmts b) (<[name := zlen (b_stmts b)]> (b_labels b))
            | None => b
            end, l)
      else b ← parse_body_statement_into b (text st); parse_proc_body b l
  end.

Definition is_declaration (st : stmt) : bool :=
  match st with IntegerDecl _ _ _ | BooleanDecl _ _ _ => true | _ => false end.

(** The body of a data block, up to ENDDATA *)
Fixpoint parse_data_body (b : body) (l : list Statement) : result (body * list Statement) :=
  match l with
  | [] => Err StaplError
  | st :: l =>
      stop ← is_keyword "ENDDATA" (text st);
      if stop : bool then Ok (b, l)
      else
        b ← parse_body_statement_into b (text st);
        match last (b_stmts b) with
        | None => Err IndexError
        | Some parsed => if is_declaration parsed then parse_data_body b l else Err StaplError
        end
  end.

(** [_, rest = text.split(None, 1)] *)
Definition after_keyword (l : list Z) : result (list Z) :=
  match split_first l with [_; rest] => Ok rest | _ => Err ValueError end.

(** [_split_string_args] *)
Fixpoint split_string_args (in_string : bool) (current l : list Z) : result (list (list Z)) :=
  match l with
  | [] => if in_string then Err ValueError else Ok []
  | c :: l =>
      if c =? QUOTE then
        if in_string then r ← split_string_args false [] l; Ok (current :: r) else split_string_args true [] l
      else split_string_args in_string (if in_string then current ++ [c] else []) l
  end.

(** One procedure of an action, with its modifier *)
Definition parse_action_part (part : list Z) : result (ident * modifier) :=
  match split_words [] (strip part) with
  | [] => Err IndexError
  | [name] => Ok (name, Required)
  | name :: m :: _ =>
      if bool_decide (upper m = lit "OPTIONAL") then Ok (name, OPTIONAL)
      else if bool_decide (upper m = lit "RECOMMENDED") then Ok (name, RECOMMENDED)
      else Err AssertionError
  end.

Record parsed := mkParsed {
  notes : list (list Z * list Z);
  program : Program;
  program_crc : Z;
}.

(** [_parse_action] *)
Definition parse_action (p : parsed) (l : list Z) : result parsed :=
  rest ← after_keyword l;
  match find_char 61 rest with
  | None => Err StaplError
  | Some i =>
      let name := action_name_of (strip (take i rest)) in
      procs ← mapM parse_action_part (split_comma_toplevel (strip (drop (S i) rest)) 0);
      let prog := program p in
      Ok (mkParsed (notes p) (mkProgram (<[upper name := procs]> (actions prog)) (procedures prog) (data_blocks prog)) (program_crc p))
  end.

(** [_parse_procedure] *)
Definition parse_procedure (p : parsed) (l : list Z) (after : list Statement) : result (parsed * list Statement) :=
  rest ← after_keyword l;
  let '(name, uses) :=
    match find_sub (lit " USES ") (upper rest) with
    | Some i => (strip (take i rest), strip <$> split_sep 44 (strip (drop (i + 6) rest)))
    | None => (strip rest, [])
    end in
  '(b, after) ← parse_proc_body (mkBody [] ∅) after;
  let prog := program p in
  let proc := mkProcedure name uses (b_stmts b) (b_labels b) in
  Ok (mkParsed (notes p) (mkProgram (actions prog) (<[upper name := proc]> (procedures prog)) (data_blocks prog)) (program_crc p), after).

(** [_parse_data] *)
Definition parse_data (p : parsed) (l : list Z) (after : list Statement) : result (parsed * list Statement) :=
  name ← after_keyword l;
  '(b, after) ← parse_data_body (mkBody [] ∅) after;
  let prog := program p in
  Ok (mkParsed (notes p) (mkProgram (actions prog) (procedures prog) (<[upper (strip name) := b_stmts b]> (data_blocks prog)))
        (program_crc p), after).

(** One round of [_Parser.parse] *)
Definition parse_top (p : parsed) (st : Statement) (after : list Statement) : result (parsed * list Statement) :=
  kw ← keyword_of (text st);
  if bool_decide (kw = lit "NOTE") then
    rest ← after_keyword (text st);
    args ← split_string_args false [] rest;
    match args with
    | [key; value] => Ok (mkParsed (notes p ++ [(key, value)]) (program p) (program_crc p), after)
    | _ => Err StaplError
    end
  else if bool_decide (kw = lit "ACTION") then p ← parse_action p (text st); Ok (p, after)
  else if bool_decide (kw = lit "PROCEDURE") then parse_procedure p (text st) after
  else if bool_decide (kw = lit "DATA") then parse_data p (text st) after
  else if bool_decide (kw = lit "CRC") then
    val ← after_keyword (text st); crc ← int_base16 val; Ok (mkParsed (notes p) (program p) crc, after)
  else Err StaplError.

Fixpoint parse_loop (fuel : nat) (p : parsed) (l : list Statement) : result parsed :=
  match l with
  | [] => Ok p
  | st :: l =>
      match fuel with
      | O => Err OutOfFuel
      | S fuel => '(p, l) ← parse_top p st l; parse_loop fuel p l
      end
  end.

Definition no_program : parsed := mkParsed [] (mkProgram ∅ ∅ ∅) 0.

(** [parse] *)
Definition parse (l : list Statement) : result parsed := parse_loop (length l) no_program l.

(** ** Keywords *)

(** No keyword begins another: at most one matches the beginning of a word, so
    the order in which they are tried does not matter. *)
Lemma keywords_prefix_free a b l :
  a ∈ KEYWORDS -> b ∈ KEYWORDS -> starts_with a l = true -> starts_with b l = true -> a = b.
Proof.
  intros Ha Hb H1 H2.
  assert (forallb (fun a => forallb (fun b => bool_decide (a = b) || negb (starts_with a b)) KEYWORDS) KEYWORDS = true) as Hall
    by (vm_compute; reflexivity).
  assert (forall a b, a ∈ KEYWORDS -> b ∈ KEYWORDS -> starts_with a b = true -> a = b) as Hp.
  { intros x y Hx Hy Hs. rewrite forallb_forall in Hall. specialize (Hall x (proj1 (list_elem_of_In _ _) Hx)).
    rewrite forallb_forall in Hall. specialize (Hall y (proj1 (list_elem_of_In _ _) Hy)).
    rewrite Hs, orb_false_r in Hall. by apply bool_decide_eq_true in Hall. }
  unfold starts_with in *. apply bool_decide_eq_true in H1, H2.
  destruct (Nat.le_gt_cases (length a) (length b)) as [Hle|Hle].
  - apply Hp; [done..|]. apply bool_decide_eq_true. rewrite <- H2, take_take, Nat.min_l by done. done.
  - symmetry. apply Hp; [done..|]. apply bool_decide_eq_true. rewrite <- H1, take_take, Nat.min_l by lia. done.
Qed.

(** An assignment to a variable whose name begins with a keyword is parsed as a
    statement of that keyword. *)
Theorem keyword_prefix_hijacks :
  parse_statement_text (lit "EXITCODE = 3") = Ok (ExitStmt (VarRef (lit "CODE")))
  /\ parse_statement_text (lit "RESULTCODE = 3") = Ok (AssignStmt (lit "RESULTCODE") None None None (IntLiteral 3)).
Proof. split; vm_compute; reflexivity. Qed.

(** ** Labels *)

Definition labels_ok (b : body) : Prop := forall name i, b_labels b !! name = Some i -> 0 <= i <= zlen (b_stmts b).

Lemma labels_ok_insert b name : labels_ok b -> labels_ok (mkBody (b_stmts b) (<[name := zlen (b_stmts b)]> (b_labels b))).
Proof.
  intros Hb n i. cbn. destruct (decide (n = name)) as [->|Hne]; [rewrite lookup_insert_eq; intros [= <-]; lia|].
  rewrite lookup_insert_ne by done. apply Hb.
Qed.

Lemma labels_ok_snoc b st : labels_ok b -> labels_ok (mkBody (b_stmts b ++ [st]) (b_labels b)).
Proof. intros Hb n i Hi. specialize (Hb n i Hi). cbn. rewrite length_app. simpl length. lia. Qed.

Lemma labels_ok_statement b l b' : labels_ok b -> parse_body_statement_into b l = Ok b' -> labels_ok b'.
Proof.
  intros Hb. unfold parse_body_statement_into. destruct (label_of l) as [[name rest]|].
  - pose proof (labels_ok_insert b name Hb) as Hi. destruct rest as [|c rest]; [by intros [= <-]|].
    destruct (parse_statement_text (c :: rest)); [|done]. intros [= <-]. exact (labels_ok_snoc _ a Hi).
  - destruct (parse_statement_text l); [|done]. intros [= <-]. by apply labels_ok_snoc.
Qed.

Lemma labels_ok_proc l : forall b b' rest, labels_ok b -> parse_proc_body b l = Ok (b', rest) -> labels_ok b'.
Proof.
  induction l as [|st l IH]; intros b b' rest Hb; [done|]. cbn [parse_proc_body].
  destruct (is_keyword "ENDPROC" (text st)) as [[]|]; [| |done]; rewrite bind_of_Ok.
  - destruct (label_of (text st)) as [[name ?]|]; intros [= <- <-]; [by apply labels_ok_insert|done].
  - destruct (parse_body_statement_into b (text st)) as [b1|] eqn:E; [|done]. rewrite bind_of_Ok.
    apply IH. by apply (labels_ok_statement b (text st)).
Qed.

Definition program_labels_ok (p : parsed) : Prop :=
  forall name proc, procedures (program p) !! name = Some proc ->
  forall label i, labels proc !! label = Some i -> 0 <= i <= zlen (statements proc).

Lemma parse_top_labels p st after p' after' :
  program_labels_ok p -> parse_top p st after = Ok (p', after') -> program_labels_ok p'.
Proof.
  intros Hp. unfold parse_top. destruct (keyword_of (text st)) as [kw|]; [|done]. rewrite bind_of_Ok.
  destruct (bool_decide (kw = lit "NOTE")).
  { destruct (after_keyword _) as [rest|]; [|done]. rewrite bind_of_Ok. destruct (split_string_args false [] rest) as [args|]; [|done].
    rewrite bind_of_Ok. destruct args as [|? [|? []]]; try done. by intros [= <- <-]. }
  destruct (bool_decide (kw = lit "ACTION")).
  { unfold parse_action. destruct (after_keyword _) as [rest|]; [|done]. rewrite bind_of_Ok.
    destruct (find_char 61 rest); [|done]. destruct (mapM _ _); [|done]. rewrite !bind_of_Ok. by intros [= <- <-]. }
  destruct (bool_decide (kw = lit "PROCEDURE")).
  { unfold parse_procedure. destruct (after_keyword _) as [rest|]; [|done]. rewrite bind_of_Ok.
    destruct (match find_sub _ _ with Some i => _ | None => _ end) as [name uses].
    destruct (parse_proc_body _ after) as [[b rest']|] eqn:E; [|done]. rewrite bind_of_Ok. intros [= <- <-].
    apply labels_ok_proc in E; [|by intros ??]. intros n proc. cbn [program procedures].
    destruct (decide (n = upper name)) as [->|Hne]; [|rewrite lookup_insert_ne by done; apply Hp].
    rewrite lookup_insert_eq. intros [= <-]. exact E. }
  destruct (bool_decide (kw = lit "DATA")).
  { unfold parse_data. destruct (after_keyword _) as [rest|]; [|done]. rewrite bind_of_Ok.
    destruct (parse_data_body _ after) as [[b rest']|]; [|done]. rewrite bind_of_Ok. by intros [= <- <-]. }
  destruct (bool_decide (kw = lit "CRC")); [|done].
  destruct (after_keyword _) as [rest|]; [|done]. rewrite bind_of_Ok. destruct (int_base16 rest); [|done]. rewrite bind_of_Ok.
  by intros [= <- <-].
Qed.

Lemma parse_loop_labels fuel : forall p l p', program_labels_ok p -> parse_loop fuel p l = Ok p' -> program_labels_ok p'.
Proof.
  induction fuel as [|fuel IH]; intros p [|st l] p' Hp; cbn [parse_loop]; try done; try by intros [= <-].
  destruct (parse_top p st l) as [[p1 l1]|] eqn:E; [|done]. rewrite bind_of_Ok. apply IH. by eapply parse_top_labels.
Qed.

(** ** The parser ends *)

Definition ends {A} (r : result A) : Prop := r <> Err OutOfFuel.

Lemma ends_bind {A B} (r : result A) (k : A -> result B) : ends r -> (forall a, ends (k a)) -> ends (r ≫= k).
Proof. intros Hr Hk. destruct r as [a|e]; [apply Hk|]. unfold ends in *. cbn. congruence. Qed.

Lemma ends_Ok {A} (a : A) : ends (Ok a).
Proof. done. Qed.

Lemma ends_mapM {A B} (f : A -> result B) l : (forall x, ends (f x)) -> ends (mapM f l).
Proof. exact (mapM_ends f l). Qed.

Lemma ends_parse_expr l : ends (parse_expr l).
Proof. apply parse_expr_ends. Qed.

Create HintDb stapl_ends.
#[export] Hint Resolve ends_Ok ends_parse_expr : stapl_ends.

Ltac ends :=
  repeat first
    [ solve [eauto with stapl_ends]
    | solve [intros [=]]
    | apply ends_bind; [|intros]
    | apply ends_mapM; intros
    | progress cbv zeta
    | case_match ].

Lemma int_base16_ends l : ends (int_base16 l).
Proof.
  assert (forall l, ends (scan_number l)) as H.
  { intros l0. unfold scan_number. destruct (scan_digits 0 false (drop_prefix l0)) as [[v r]|]; [|done]. by destruct (drop_spaces r). }
  unfold int_base16. destruct (drop_spaces l) as [|c l']; [done|]. destruct (c =? 45); [|destruct (c =? 43); apply H].
  specialize (H l'). by destruct (scan_number l') as [|[]].
Qed.

Lemma bracketed_ends b l : ends (bracketed b l).
Proof. unfold bracketed, rindex. by destruct (find_char 93 (reverse l)). Qed.
#[export] Hint Resolve int_base16_ends bracketed_ends : stapl_ends.

Lemma parse_lhs_ends l : ends (parse_lhs l).
Proof. unfold parse_lhs. ends. Qed.
Lemma parse_var_ref_ends l : ends (parse_var_ref l).
Proof. unfold parse_var_ref. ends. Qed.
Lemma name_and_size_ends l : ends (name_and_size l).
Proof. unfold name_and_size. ends. Qed.
#[export] Hint Resolve parse_lhs_ends parse_var_ref_ends name_and_size_ends : stapl_ends.

Lemma ends_text_to_bits l : ends (text_to_bits l).
Proof. pose proof (text_to_bits_ends l) as Ht. destruct (text_to_bits l) as [|e]; [done|]. by intros [= ->]. Qed.
#[export] Hint Resolve ends_text_to_bits : stapl_ends.

Lemma parse_literals_end l : ends (parse_binary_literal l) /\ ends (parse_hex_literal l) /\ ends (parse_aca_literal l).
Proof.
  split_and!; unfold parse_binary_literal, parse_hex_literal, parse_aca_literal; ends.
  - apply binary_byte_ends.
  - apply hex_pair_ends.
Qed.

Lemma parse_integer_decl_ends l : ends (parse_integer_decl l).
Proof. unfold parse_integer_decl. ends. Qed.
Lemma parse_boolean_decl_ends l : ends (parse_boolean_decl l).
Proof. unfold parse_boolean_decl, parse_boolean_literal_or_expr. ends; apply parse_literals_end. Qed.
#[export] Hint Resolve parse_integer_decl_ends parse_boolean_decl_ends : stapl_ends.

Lemma parse_clauses_ends fuel : forall c l, (length l <= fuel)%nat -> ends (parse_clauses fuel c l).
Proof.
  induction fuel as [|fuel IH]; intros c [|part l] Hl; cbn [parse_clauses]; try done; [simpl in Hl; lia|].
  cbn [length] in Hl. cbv zeta. destruct (starts_with _ _); [apply ends_bind; [apply parse_expr_ends|intros; apply IH; lia]|].
  destruct (starts_with _ _); [|done]. apply ends_bind; [apply parse_expr_ends|intros e].
  destruct l as [|m [|r l]]; [apply IH; simpl; lia|..].
  - apply ends_bind; [apply parse_expr_ends|intros; apply IH; simpl; lia].
  - cbn [length] in Hl. do 2 (apply ends_bind; [apply parse_expr_ends|intros ?]). apply IH. lia.
Qed.

Lemma parse_two_and_clauses_ends l : ends (parse_two_and_clauses l).
Proof.
  unfold parse_two_and_clauses. destruct (split_comma_toplevel l 0) as [|a [|b parts]]; try done. ends. by apply parse_clauses_ends.
Qed.
#[export] Hint Resolve parse_two_and_clauses_ends : stapl_ends.

Lemma parse_wait_type_ends l : ends (parse_wait_type l).
Proof. unfold parse_wait_type. ends. Qed.
#[export] Hint Resolve parse_wait_type_ends : stapl_ends.

Lemma parse_assign_ends l : ends (parse_assign_text l).
Proof. unfold parse_assign_text. ends. Qed.
#[export] Hint Resolve parse_assign_ends : stapl_ends.

Lemma plain_handler_ends keyword rest r : plain_handler keyword rest = Some r -> ends r.
Proof.
  unfold plain_handler, parse_for, parse_scan_stmt, parse_vector_stmt, parse_wait_stmt, parse_trst_stmt, parse_pre_post, parse_print_part.
  repeat match goal with |- context [is_word keyword ?w] => destruct (is_word keyword w); [intros [= <-]; ends|] end.
  cbn [orb]. done.
Qed.

Lemma lstrip_length l : (length (lstrip l) <= length l)%nat.
Proof. induction l as [|c l IH]; [done|]. cbn [lstrip]. destruct (is_text_space c); cbn [length]; lia. Qed.

Lemma strip_length l : (length (strip l) <= length l)%nat.
Proof.
  unfold strip. rewrite length_reverse. pose proof (lstrip_length (reverse (lstrip l))). rewrite length_reverse in *.
  pose proof (lstrip_length l). lia.
Qed.

Lemma keyword_and_rest_length l kw rest : keyword_and_rest l = Ok (kw, rest) -> (length rest < length l)%nat.
Proof.
  unfold keyword_and_rest, split_first. pose proof (lstrip_length l) as Hl. destruct (lstrip l) as [|c l'] eqn:E; [done|].
  assert (is_text_space c = false) as Hc.
  { clear Hl. induction l as [|x l IH]; [done|]. cbn [lstrip] in E. destruct (is_text_space x) eqn:Ex; [by apply IH|].
    by injection E as -> _. }
  cbn [span]. rewrite Hc. cbn [negb]. pose proof (span_length (fun c => negb (is_text_space c)) l') as Hs.
  destruct (span _ l') as [w r]. cbn [snd length] in *. pose proof (lstrip_length r) as Hr.
  destruct (lstrip r) as [|x r'] eqn:Er; intros [= <- <-]; [simpl; lia|]. pose proof (strip_length (x :: r')).
  cbn [length] in *. lia.
Qed.

Lemma handler_ends parse n keyword rest r :
  (forall inline l, (length l < n)%nat -> ends (parse inline l)) -> (length rest < n)%nat ->
  handler parse keyword rest = Some r -> ends r.
Proof.
  intros Hp Hr. unfold handler. destruct (is_word keyword "IF").
  - intros [= <-]. destruct (find_keyword rest (lit "THEN")) as [i|]; [|done]. apply ends_bind; [apply ends_parse_expr|intros c].
    apply ends_bind; [|done]. apply Hp. pose proof (strip_length (drop (i + 4) rest)). rewrite length_drop in *. lia.
  - destruct (is_word _ _); [intros [= <-]; by apply Hp|]. destruct (is_word _ _); [intros [= <-]; by apply Hp|]. apply plain_handler_ends.
Qed.

Lemma parse_statement_ends fuel : forall inline l, (length l < fuel)%nat -> ends (parse_statement fuel inline l).
Proof.
  induction fuel as [|fuel IH]; intros inline l Hl; [lia|]. cbn [parse_statement]. cbv zeta.
  assert (ends (if bool_decide (61 ∈ l) then parse_assign_text l else Err StaplError)) as Ha by ends.
  destruct (keyword_and_rest l) as [[keyword rest]|e] eqn:E.
  2: { unfold keyword_and_rest in E. destruct (split_first l) as [|w [|r ws]]; try done. by injection E as <-. }
  apply keyword_and_rest_length in E. rewrite bind_of_Ok.
  destruct (handler (parse_statement fuel) keyword rest) as [r|] eqn:Eh.
  { eapply (handler_ends (parse_statement fuel) fuel); [done| |exact Eh]. lia. }
  destruct inline; [done|]. destruct (list_find _ KEYWORDS) as [[i kw]|] eqn:Ef; [|done].
  destruct (handler _ kw _) as [r|] eqn:Ek; [|done]. eapply (handler_ends (parse_statement fuel) fuel); [done| |exact Ek].
  apply list_find_Some in Ef as (Hk&_&_). apply list_elem_of_lookup_2 in Hk.
  assert (forallb (fun k => (0 <? length k)%nat) KEYWORDS = true) as Hpos by (vm_compute; reflexivity).
  rewrite forallb_forall in Hpos. specialize (Hpos kw (proj1 (list_elem_of_In _ _) Hk)). apply Nat.ltb_lt in Hpos.
  pose proof (strip_length (drop (length kw) l)). rewrite length_drop in *. lia.
Qed.

Lemma parse_statement_text_ends l : ends (parse_statement_text l).
Proof. apply parse_statement_ends. lia. Qed.

Lemma keyword_of_ends l : ends (keyword_of l).
Proof.
  unfold keyword_of. destruct (label_of l) as [[? []]|]; [done|..]; destruct (split_first _); try done; ends.
Qed.

Lemma parse_body_ends b l : ends (parse_body_statement_into b l).
Proof.
  unfold parse_body_statement_into. destruct (label_of l) as [[? []]|]; [done|..]; (apply ends_bind; [apply parse_statement_text_ends|done]).
Qed.

Lemma after_keyword_ends l : ends (after_keyword l).
Proof. unfold after_keyword. by destruct (split_first l) as [|? [|? []]]. Qed.

Lemma split_string_args_ends l : forall b cur, ends (split_string_args b cur l).
Proof.
  induction l as [|c l IH]; intros b cur; cbn [split_string_args]; [by destruct b|].
  destruct (c =? QUOTE); [destruct b|]; [apply ends_bind; [apply IH|done]|apply IH..].
Qed.

Lemma parse_action_part_ends l : ends (parse_action_part l).
Proof. unfold parse_action_part. ends. Qed.

#[export] Hint Resolve keyword_of_ends parse_body_ends after_keyword_ends split_string_args_ends parse_action_part_ends : stapl_ends.

(** Not cut short, and no more statements than before left. *)
Definition consumes {A} (n : nat) (r : result (A * list Statement)) : Prop :=
  match r with Ok (_, l) => (length l <= n)%nat | Err e => e <> OutOfFuel end.

Lemma consumes_bind {A B} n (r : result A) (k : A -> result (B * list Statement)) :
  ends r -> (forall a, consumes n (k a)) -> consumes n (r ≫= k).
Proof. intros Hr Hk. destruct r as [a|e]; [apply Hk|]. cbn. intros ->. by apply Hr. Qed.

Lemma consumes_Ok {A} (a : A) l : consumes (length l) (Ok (a, l)).
Proof. cbn. lia. Qed.

Lemma parse_proc_body_consumes l : forall b, consumes (length l) (parse_proc_body b l).
Proof.
  induction l as [|st l IH]; intros b; [done|]. cbn [parse_proc_body]. apply consumes_bind; [unfold is_keyword; ends|intros [|]].
  - cbn. lia.
  - apply consumes_bind; [ends|intros b']. specialize (IH b'). unfold consumes in *. destruct (parse_proc_body b' l) as [[? l']|]; cbn [length]; [lia|done].
Qed.

Lemma parse_data_body_consumes l : forall b, consumes (length l) (parse_data_body b l).
Proof.
  induction l as [|st l IH]; intros b; [done|]. cbn [parse_data_body]. apply consumes_bind; [unfold is_keyword; ends|intros [|]].
  - cbn. lia.
  - apply consumes_bind; [ends|intros b']. destruct (last (b_stmts b')); [|done]. destruct (is_declaration _); [|done].
    specialize (IH b'). unfold consumes in *. destruct (parse_data_body b' l) as [[? l']|]; cbn [length]; [lia|done].
Qed.

Lemma parse_top_consumes p st after : consumes (length after) (parse_top p st after).
Proof.
  unfold parse_top. apply consumes_bind; [ends|intros kw]. destruct (bool_decide _).
  { apply consumes_bind; [ends|intros rest]. apply consumes_bind; [ends|intros args]. destruct args as [|? [|? []]]; done || apply consumes_Ok. }
  destruct (bool_decide _); [apply consumes_bind; [unfold parse_action; ends|intros; apply consumes_Ok]|].
  destruct (bool_decide _).
  { unfold parse_procedure. apply consumes_bind; [ends|intros rest]. destruct (match find_sub _ _ with Some i => _ | None => _ end) as [name uses].
    pose proof (parse_proc_body_consumes after (mkBody [] ∅)) as H. destruct (parse_proc_body _ after) as [[]|]; exact H. }
  destruct (bool_decide _).
  { unfold parse_data. apply consumes_bind; [ends|intros rest].
    pose proof (parse_data_body_consumes after (mkBody [] ∅)) as H. destruct (parse_data_body _ after) as [[]|]; exact H. }
  destruct (bool_decide _); [|done]. do 2 (apply consumes_bind; [ends|intros ?]). apply consumes_Ok.
Qed.

Lemma parse_loop_ends fuel : forall p l, (length l <= fuel)%nat -> ends (parse_loop fuel p l).
Proof.
  induction fuel as [|fuel IH]; intros p [|st l] Hl; cbn [parse_loop]; try done; [simpl in Hl; lia|]. cbn [length] in Hl.
  pose proof (parse_top_consumes p st l) as H. destruct (parse_top p st l) as [[p' l']|e]; cbn [consumes] in H; [apply IH; lia|].
  cbn. congruence.
Qed.

(** ** Properties *)

Lemma find_semicolon_ends l : forall b,
  match find_semicolon b l with Ok (Some (_, rest)) => (length rest < length l)%nat | Ok None => True | Err e => e <> OutOfFuel end.
Proof.
  induction l as [|c l IH]; intros b; cbn [find_semicolon]; [by destruct b|]. destruct (_ && _); [cbn; lia|].
  specialize (IH (xorb b (c =? QUOTE))). destruct (find_semicolon _ l) as [[[a r]|]|]; cbn; [cbn in IH; lia|done..].
Qed.

Lemma split_statements_ends fuel : forall n l, (length l < fuel)%nat -> ends (split_statements fuel n l).
Proof.
  induction fuel as [|fuel IH]; intros n l Hl; [lia|]. cbn [split_statements]. destruct l as [|c l]; [done|].
  pose proof (find_semicolon_ends (c :: l) false) as H. destruct (find_semicolon false (c :: l)) as [[[chunk rest]|]|e].
  - rewrite bind_of_Ok. cbv zeta. apply ends_bind; [apply IH; lia|done].
  - rewrite bind_of_Ok. by destruct (strip _).
  - cbn. congruence.
Qed.

Lemma strip_comments_ends l : forall m, ends (strip_comments m l).
Proof.
  induction l as [|c l IH]; intros m; cbn [strip_comments]; [by destruct m|].
  destruct m; repeat case_match; try apply IH; (apply ends_bind; [apply IH|done]).
Qed.


(** The labels of every parsed procedure, the one before ENDPROC included,
    stand before one of its statements or right after the last: a GOTO either
    lands there or reports the missing label. *)
Theorem stapl_goto_lands {P : Type} (D : StaplPlayer P) l p name proc fuel label pc s :
  parse l = Ok p -> procedures (program p) !! name = Some proc ->
  exists r, execute_stmt D (program p) (S fuel) (GotoStmt label) pc proc s = (s, r)
    /\ match r with Ok target => 0 <= target <= zlen (statements proc) | Err e => e = StaplRuntimeError end.
Proof.
  intros Hp Hproc. assert (program_labels_ok p) as Hok.
  { eapply (parse_loop_labels (length l) no_program); [by intros ??|exact Hp]. }
  cbn [execute_stmt]. destruct (labels proc !! upper label) as [i|] eqn:E; eexists; (split; [reflexivity|]); [|done].
  by apply (Hok name proc Hproc (upper label)).
Qed.

Definition sample_statements : list Statement :=
  mkStatement 1 <$> [lit "PROCEDURE P"; lit "again: PUSH 1"; lit "IF x THEN GOTO done"; lit "GOTO AGAIN"; lit "done: ENDPROC"].

Lemma stapl_goto_lands_witness :
  exists p proc r, parse sample_statements = Ok p /\ procedures (program p) !! lit "P" = Some proc
    /\ execute_stmt (P := unit) (mkPlayer unit
         (fun _ _ _ _ _ t => (t, Ok None)) (fun _ _ _ _ _ t => (t, Ok None)) (fun _ _ t => (t, Ok tt)) (fun _ _ _ _ t => (t, Ok tt))
         (fun _ _ t => (t, Ok tt)) (fun _ t => (t, Ok tt)) (fun _ t => (t, Ok tt)) (fun _ _ t => (t, Ok tt)) (fun _ _ _ t => (t, Ok None)))
       (program p) 1 (GotoStmt (lit "Done")) 1 proc (new_interp tt) = (new_interp tt, r)
    /\ match r with Ok target => 0 <= target <= zlen (statements proc) | Err e => e = StaplRuntimeError end.
Proof.
  eexists _, _. set (D := mkPlayer _ _ _ _ _ _ _ _ _ _).
  destruct (stapl_goto_lands D sample_statements _ (lit "P") _ 0 (lit "Done") 1 (new_interp tt) eq_refl eq_refl) as (r&Hr).
  exists r. split; [reflexivity|]. split; [reflexivity|]. exact Hr.
Defined.
