(* ===== verification/StaplValues.v ===== *)
(** * Integer arithmetic of STAPL (src/acrobe/stapl/interpreter.py)

    What the operators compute: division through a binary64 quotient is exact
    on the integers the interpreter works with, arithmetic wraps to 32 bits. *)

From Stdlib Require Import Ascii String.
From stdpp Require Import gmap.
From S2P Require Import Prelude BitString BitVec PyText Aca StaplExpr StaplEval.

Open Scope Z_scope.

Definition int32 (v : Z) : Prop := - 2 ^ 31 <= v < 2 ^ 31.

(** ** Wrapping *)

(** The 32-bit integer congruent to [v]. *)
Definition wrap32 (v : Z) : Z := (v + 2 ^ 31) mod 2 ^ 32 - 2 ^ 31.

Lemma to_signed32_wrap v : to_signed32 v = wrap32 v.
Proof.
  unfold to_signed32, wrap32. change 0xFFFFFFFF with (Z.ones 32). rewrite Z.land_ones by lia.
  assert (0 <= v mod 2 ^ 32 < 2 ^ 32) as Hb by (apply Z.mod_pos_bound; lia).
  assert (Z.testbit (v mod 2 ^ 32) 31 = negb (v mod 2 ^ 32 <? 2 ^ 31)) as Ht.
  { destruct (Z.ltb_spec (v mod 2 ^ 32) (2 ^ 31)).
    - apply Z.testbit_false; [lia|]. by rewrite Z.div_small by lia.
    - apply Z.testbit_true; [lia|].
      by replace (v mod 2 ^ 32 / 2 ^ 31) with 1 by (apply Z.div_unique with (v mod 2 ^ 32 - 2 ^ 31); lia). }
  assert (Z.land (v mod 2 ^ 32) 0x80000000 = if v mod 2 ^ 32 <? 2 ^ 31 then 0 else 0x80000000) as ->.
  { change 0x80000000 with (2 ^ 31). apply Z.bits_inj'. intros i Hi. rewrite Z.land_spec, Z.pow2_bits_eqb by lia.
    destruct (Z.eqb_spec 31 i) as [<-|Hne].
    - rewrite Ht. by destruct (_ <? _).
    - rewrite andb_false_r. destruct (_ <? _); [by rewrite Z.bits_0|]. symmetry. by apply Z.pow2_bits_false. }
  destruct (Z.ltb_spec (v mod 2 ^ 32) (2 ^ 31)); cbn [Z.eqb]; change (2 ^ 32) with 4294967296 in *;
    change (2 ^ 31) with 2147483648 in *; div_lia.
Qed.

Lemma wrap32_int32 v : int32 (wrap32 v).
Proof. unfold int32, wrap32. pose proof (Z.mod_pos_bound (v + 2 ^ 31) (2 ^ 32)). lia. Qed.

Lemma wrap32_id v : int32 v -> wrap32 v = v.
Proof. unfold int32, wrap32. intros H. rewrite Z.mod_small by lia. lia. Qed.

Lemma wrap32_mod v : wrap32 v mod 2 ^ 32 = v mod 2 ^ 32.
Proof. unfold wrap32. rewrite Zminus_mod_idemp_l. f_equal. lia. Qed.

(** ** Division *)

Lemma round_half_even_bounds n d :
  0 <= n -> 0 < d -> n / d <= round_half_even n d /\ 2 * d * round_half_even n d <= 2 * n + d.
Proof.
  intros Hn Hd. unfold round_half_even. pose proof (Z.div_mod n d ltac:(lia)). pose proof (Z.mod_pos_bound n d Hd).
  destruct (Z.ltb_spec (2 * (n mod d)) d), (Z.eqb_spec (2 * (n mod d)) d), (Z.even (n / d)); cbn; nia.
Qed.

(** The rounding does not reach the next integer. *)
Lemma rounded_quotient a b k :
  0 <= a -> 0 < b -> 0 <= k -> b < 2 * 2 ^ k -> round_half_even (a * 2 ^ k) b / 2 ^ k = a / b.
Proof.
  intros Ha Hb Hk Hlt. pose proof (Z.pow_pos_nonneg 2 k ltac:(lia) Hk) as Hp.
  destruct (round_half_even_bounds (a * 2 ^ k) b) as [Hlo Hhi]; [nia|done|].
  pose proof (Z.div_mod a b ltac:(lia)). pose proof (Z.mod_pos_bound a b Hb).
  set (m := round_half_even (a * 2 ^ k) b) in *. set (q := a / b) in *.
  assert (q * 2 ^ k <= a * 2 ^ k / b) by (apply Z.div_le_lower_bound; [done|nia]).
  assert (m < (q + 1) * 2 ^ k) by nia.
  symmetry. apply Z.div_unique with (m - q * 2 ^ k); nia.
Qed.

Lemma truediv_pos_exact a b : 0 < a < 2 ^ 53 -> 0 < b -> truediv_pos a b = Ok (a / b).
Proof.
  intros Ha Hb. unfold truediv_pos. pose proof (Z.log2_spec a ltac:(lia)) as La. pose proof (Z.log2_spec b Hb) as Lb.
  assert (Z.log2 a < 53) as L53 by (apply Z.log2_lt_pow2; lia).
  pose proof (Z.log2_nonneg a). pose proof (Z.log2_nonneg b).
  set (e := Z.log2 a - Z.log2 b - 52).
  assert (quotient_exponent a b <= e /\ e - 1 <= quotient_exponent a b) as [He He'].
  { unfold quotient_exponent. fold e. destruct (scaled a b e) as [n d]. destruct (_ <? _); lia. }
  cbv zeta. set (e' := quotient_exponent a b) in *. clearbody e'.
  assert (scaled a b e' = (a * 2 ^ (- e'), b)) as ->.
  { unfold scaled. destruct (Z.leb_spec 0 e') as [H0'|]; [|done]. assert (e' = 0) as -> by lia. by rewrite !Z.mul_1_r. }
  assert (b < 2 * 2 ^ (- e')) as Hlt.
  { rewrite <- Z.pow_succ_r by lia. eapply Z.lt_le_trans; [apply Lb|]. apply Z.pow_le_mono_r; lia. }
  assert ((if 0 <=? e' then round_half_even (a * 2 ^ (- e')) b * 2 ^ e' else round_half_even (a * 2 ^ (- e')) b / 2 ^ (- e'))
    = a / b) as ->.
  { pose proof (rounded_quotient a b (- e') ltac:(lia) Hb ltac:(lia) Hlt) as Hq.
    destruct (Z.leb_spec 0 e'); [|done]. assert (e' = 0) as -> by lia. rewrite <- Hq. cbn. by rewrite Z.mul_1_r, Z.div_1_r. }
  assert (a / b < 2 ^ 53) by (apply Z.div_lt_upper_bound; nia).
  rewrite (proj2 (Z.leb_gt _ _)); [done|]. eapply Z.lt_le_trans; [done|]. apply Z.pow_le_mono_r; lia.
Qed.

(** [int(a / b)] is the quotient truncated toward zero. *)
Lemma truediv_int_exact a b : Z.abs a < 2 ^ 53 -> b <> 0 -> truediv_int a b = Ok (Z.quot a b).
Proof.
  intros Ha Hb. unfold truediv_int. destruct (Z.eqb_spec a 0) as [->|Hne]; [by rewrite Z.quot_0_l|].
  rewrite truediv_pos_exact, bind_of_Ok by lia. f_equal. symmetry. by apply Z.quot_div.
Qed.

(** ** Operators *)

(** The integer an operator stands for, before it is cut to 32 bits. *)
Definition exact (op : binop) (a b : Z) : Z :=
  match op with
  | Add => a + b
  | Sub => a - b
  | Mul => a * b
  | Div => Z.quot a b
  | Mod => a mod b
  | Shl => a * 2 ^ b
  | Shr => a / 2 ^ b
  | BAnd => Z.land a b
  | BOr => Z.lor a b
  | BXor => Z.lxor a b
  | Eq => if decide (a = b) then 1 else 0
  | Ne => if decide (a = b) then 0 else 1
  | Lt => if decide (a < b) then 1 else 0
  | Le => if decide (a <= b) then 1 else 0
  | Gt => if decide (a > b) then 1 else 0
  | Ge => if decide (a >= b) then 1 else 0
  | LAnd => if decide (a <> 0 /\ b <> 0) then 1 else 0
  | LOr => if decide (a <> 0 \/ b <> 0) then 1 else 0
  end.

(** A 32-bit integer is the sign extension of its 32 bits. *)
Lemma int32_testbit v : int32 v <-> forall i, 31 <= i -> Z.testbit v i = Z.testbit v 31.
Proof.
  assert (forall w, 0 <= w -> w < 2 ^ 31 <-> forall i, 31 <= i -> Z.testbit w i = false) as Hpos.
  { intros w Hw. split.
    - intros Hlt i Hi. destruct (Z.eq_dec w 0) as [->|]; [apply Z.bits_0|]. apply Z.bits_above_log2; [done|].
      apply Z.log2_lt_pow2; [lia|]. eapply Z.lt_le_trans; [done|]. apply Z.pow_le_mono_r; lia.
    - intros Hb. destruct (Z.eq_dec w 0) as [->|]; [lia|]. apply Z.log2_lt_pow2; [lia|].
      destruct (Z.lt_ge_cases (Z.log2 w) 31) as [|Hge]; [done|]. specialize (Hb _ Hge).
      rewrite Z.bit_log2 in Hb by lia. done. }
  destruct (Z.le_gt_cases 0 v) as [Hv|Hv].
  - unfold int32. split.
    + intros [_ Hlt] i Hi. rewrite !(proj1 (Hpos v Hv)) by lia. done.
    + intros Hb. split; [lia|]. apply Hpos; [done|]. intros i Hi. rewrite Hb by done.
      destruct (Z.testbit v 31) eqn:E; [|done]. exfalso. specialize (Hb (Z.max 31 (Z.log2 v + 1)) ltac:(lia)).
      rewrite Z.bits_above_log2 in Hb by lia. done.
  - assert (0 <= Z.lnot v) as Hn by (unfold Z.lnot; lia).
    assert (int32 v <-> Z.lnot v < 2 ^ 31) as -> by (unfold int32, Z.lnot; lia). rewrite (Hpos _ Hn).
    assert (forall i, 0 <= i -> Z.testbit (Z.lnot v) i = negb (Z.testbit v i)) as Hl by (intros; by apply Z.lnot_spec).
    split.
    + intros Hb i Hi. generalize (Hb i Hi), (Hb 31 ltac:(lia)). rewrite !Hl by lia.
      by destruct (Z.testbit v i), (Z.testbit v 31).
    + intros Hb i Hi. rewrite Hl, Hb by lia. destruct (Z.testbit v 31) eqn:E; [done|]. exfalso.
      specialize (Hb (Z.max 31 (Z.log2 (Z.lnot v) + 1)) ltac:(lia)).
      assert (Z.testbit (Z.lnot v) (Z.max 31 (Z.log2 (Z.lnot v) + 1)) = false) as Ha by (apply Z.bits_above_log2; lia).
      rewrite Hl, Hb in Ha by lia. done.
Qed.

Lemma int32_bitwise a b : int32 a -> int32 b -> int32 (Z.land a b) /\ int32 (Z.lor a b) /\ int32 (Z.lxor a b).
Proof.
  rewrite !int32_testbit. intros Ha Hb.
  split_and!; intros i Hi; rewrite ?Z.land_spec, ?Z.lor_spec, ?Z.lxor_spec; by rewrite (Ha i), (Hb i).
Qed.

Lemma int32_flag (b : bool) : int32 (Z.b2z b).
Proof. destruct b; unfold int32; cbn; lia. Qed.

Lemma b2z_decide (b : bool) (Q : Prop) `{Decision Q} : b = bool_decide Q -> Z.b2z b = if decide Q then 1 else 0.
Proof. intros ->. case_bool_decide; by destruct (decide Q). Qed.



(** The complement leaves the 32-bit integers: it is not minus one. *)
Example complement_unsigned :
  eval_int no_vars (UnaryOp Com (IntLiteral 0)) = Ok (2 ^ 32 - 1)
  /\ eval_int no_vars (BinOp Eq (UnaryOp Com (IntLiteral 0)) (UnaryOp Neg (IntLiteral 1))) = Ok 0.
Proof. split; reflexivity. Qed.

(** A quotient of wider integers is rounded first. *)
Example wide_division_rounds : binop_value Div (2 ^ 54 - 1) 2 = Ok 0 /\ Z.quot (2 ^ 54 - 1) 2 = 2 ^ 53 - 1.
Proof. split; vm_compute; reflexivity. Qed.
