(* ===== verification/StaplBits.v ===== *)
(** * Boolean arrays of STAPL (src/acrobe/stapl/interpreter.py)

    What subranges read and write, as lists of bits, the case where the source
    of an assignment is a window of its own target included; the comparison of
    scanned bits under a mask. *)

From Stdlib Require Import Ascii String.
From stdpp Require Import gmap.
From S2P Require Import Prelude BitString BitVec PyText Aca StaplExpr StaplEval StaplExec.

Open Scope Z_scope.

Abbreviation store := (gmap ident MutableBitString).

Definition booleans_ok (m : store) : Prop := map_Forall (fun _ t => mb_ok t) m.

(** ** Values *)

(** The bits a value stands for, in a store. *)
Definition view (m : store) (v : bits) : list bool :=
  match v with
  | Fresh b => base_bits b
  | Whole name => from_option mb_bits [] (m !! name)
  | Window name b e => slice (from_option mb_bits [] (m !! name)) b e
  end.

Definition bits_ok (m : store) (v : bits) : Prop :=
  match v with
  | Fresh b => base_ok b
  | Whole name => is_Some (m !! name)
  | Window name b e => exists t, m !! name = Some t /\ 0 <= b <= e /\ e <= mb_length t
  end.

Lemma length_mb_bits t : mb_ok t -> zlen (mb_bits t) = mb_length t.
Proof. intros Ht. exact (length_base_bits (BMut t) Ht). Qed.

Lemma deref_spec m v :
  booleans_ok m -> bits_ok m v ->
  exists src, deref m v = Ok src /\ base_ok src /\ base_bits src = view m v /\ base_len src = zlen (view m v).
Proof.
  intros Hm Hv.
  enough (exists src, deref m v = Ok src /\ base_ok src /\ base_bits src = view m v) as (src&H1&H2&H3).
  { exists src. split_and!; [done..|]. rewrite <- H3. symmetry. by apply length_base_bits. }
  destruct v as [b|name|name b e]; cbn [deref view bits_ok] in *.
  - by exists b.
  - destruct Hv as [t Et]. unfold subscript. rewrite Et. exists (BMut t). split_and!; [reflexivity| |reflexivity]. exact (Hm name t Et).
  - destruct Hv as (t&Et&?&?). unfold subscript. rewrite Et. exists (BSlice (mkSlice (SrcMut t) b e)).
    split_and!; [reflexivity| |reflexivity]. cbn. split_and!; [exact (Hm name t Et)|lia..].
Qed.

(** Where in [name] the bits of [v] come from, when they do. *)
Definition offset_in (name : ident) (v : bits) : option Z :=
  match v with
  | Fresh _ => None
  | Whole n => if bool_decide (n = name) then Some 0 else None
  | Window n b _ => if bool_decide (n = name) then Some b else None
  end.

(** No bit is read after it has been overwritten. *)
Definition no_smear (name : ident) (v : bits) (dest n : Z) : Prop :=
  match offset_in name v with
  | None => True
  | Some b => dest <= b \/ b + n <= dest
  end.

(** ** The loop *)

(** [put] writes bit [dest + i]. *)
Definition puts (put : MutableBitString -> Z -> bool -> result MutableBitString) (dest n : Z) : Prop :=
  forall t i v, mb_ok t -> 0 <= i < n -> dest + n <= mb_length t ->
  exists t', put t i v = Ok t' /\ mb_ok t' /\ mb_length t' = mb_length t
    /\ mb_bits t' = <[Z.to_nat (dest + i) := v]> (mb_bits t).

Lemma booleans_ok_insert m name t : booleans_ok m -> mb_ok t -> booleans_ok (<[name := t]> m).
Proof. intros Hm Ht. by apply map_Forall_insert_2. Qed.

(** [S] over [L], from [dest], up to bit [k] of [S]. *)
Definition overlaid (L S : list bool) (dest k : Z) (R : list bool) : Prop :=
  forall j : nat, R !! j = if decide (dest <= Z.of_nat j < dest + k) then S !! (j - Z.to_nat dest)%nat else L !! j.

Lemma overlaid_splice L S dest k R :
  0 <= dest -> 0 <= k -> dest + k <= zlen L -> k <= zlen S -> overlaid L S dest k R ->
  R = take (Z.to_nat dest) L ++ take (Z.to_nat k) S ++ drop (Z.to_nat (dest + k)) L.
Proof.
  intros Hd Hk HL HS HR. apply list_eq. intros j. rewrite HR. destruct (decide _) as [Hj|Hj].
  - rewrite lookup_app_r by (rewrite length_take; lia). rewrite length_take, Nat.min_l by lia.
    rewrite lookup_app_l by (rewrite length_take; lia). by rewrite lookup_take_lt by lia.
  - destruct (decide (Z.of_nat j < dest)).
    + rewrite lookup_app_l by (rewrite length_take; lia). by rewrite lookup_take_lt by lia.
    + rewrite lookup_app_r by (rewrite length_take; lia). rewrite length_take, Nat.min_l by lia.
      rewrite lookup_app_r by (rewrite length_take; lia). rewrite length_take, Nat.min_l by lia.
      rewrite lookup_drop. f_equal. lia.
Qed.

(** Reading bit [k] when the bits before it are written. *)
Lemma view_overlaid m name t v dest n k t' :
  m !! name = Some t -> bits_ok m v -> booleans_ok m -> 0 <= dest -> 0 <= k < n -> n <= zlen (view m v) ->
  no_smear name v dest n -> overlaid (mb_bits t) (view m v) dest k (mb_bits t') -> mb_length t' = mb_length t -> mb_ok t' ->
  view (<[name := t']> m) v !! Z.to_nat k = view m v !! Z.to_nat k.
Proof.
  intros Et Hv Hm Hd Hk Hn Hs Ho Hl Ht'. unfold no_smear in Hs. destruct v as [b|nm|nm b e]; cbn [view offset_in bits_ok] in *.
  - done.
  - destruct (decide (nm = name)) as [->|Hne]; [|by rewrite lookup_insert_ne].
    rewrite bool_decide_eq_true_2 in Hs by done. rewrite lookup_insert_eq, Et in *. cbn [from_option] in *.
    rewrite Ho. destruct (decide _) as [Hj|]; [|done]. lia.
  - destruct (decide (nm = name)) as [->|Hne]; [|by rewrite lookup_insert_ne].
    rewrite bool_decide_eq_true_2 in Hs by done. rewrite lookup_insert_eq, Et in *. cbn [from_option] in *.
    destruct Hv as (t0&[= <-]&Hb&He).
    rewrite !slice_nonneg in * by lia. rewrite length_take, length_drop in Hn.
    rewrite !lookup_take_lt, !lookup_drop by lia. rewrite Ho. destruct (decide _) as [Hj|]; [|done]. lia.
Qed.

Lemma store_loop_spec put name v m t n dest :
  booleans_ok m -> m !! name = Some t -> bits_ok m v -> 0 <= dest -> 0 <= n -> n <= zlen (view m v) ->
  dest + n <= mb_length t -> puts put dest n -> no_smear name v dest n ->
  exists t', store_loop put name v n m = Ok (<[name := t']> m) /\ mb_ok t' /\ mb_length t' = mb_length t
    /\ mb_bits t' = take (Z.to_nat dest) (mb_bits t) ++ take (Z.to_nat n) (view m v) ++ drop (Z.to_nat (dest + n)) (mb_bits t).
Proof.
  intros Hm Et Hv Hd Hn HnS Hfit Hput Hs. pose proof (Hm name t Et) as Ht. pose proof (length_mb_bits t Ht) as HL.
  assert (forall k, 0 <= k <= n -> exists t', store_loop put name v k m = Ok (<[name := t']> m) /\ mb_ok t'
    /\ mb_length t' = mb_length t /\ overlaid (mb_bits t) (view m v) dest k (mb_bits t')) as Hloop.
  2: { destruct (Hloop n ltac:(lia)) as (t'&E&Hok&Hlen&Ho). exists t'. split_and!; [done..|].
       apply overlaid_splice; [done|done|lia|done|done]. }
  intros k [H0 Hk]. revert k H0 Hk. apply (natlike_ind (fun k => k <= n -> _)).
  - intros _. exists t. split_and!; [by cbn; rewrite insert_id|done|done|]. intros j. by rewrite decide_False by lia.
  - intros k Hk IH Hkn. destruct IH as (tk&E&Hok&Hlen&Ho); [lia|].
    unfold store_loop in *. rewrite <- Z.add_1_r, seqZ_snoc, foldM_app, E, bind_of_Ok by done. cbn [foldM]. change (0 + k) with k.
    assert (bits_ok (<[name := tk]> m) v) as Hvk.
    { destruct v as [b|nm|nm b e]; cbn [bits_ok] in *; [done|..]; destruct (decide (nm = name)) as [->|Hne];
        rewrite ?lookup_insert_eq, ?lookup_insert_ne by done; try done.
      destruct Hv as (t0&?&?&?). simplify_eq. exists tk. split_and!; lia || done. }
    destruct (deref_spec (<[name := tk]> m) v) as (src&->&Hsrc&Hbits&Hlb); [by apply booleans_ok_insert|done|].
    rewrite bind_of_Ok.
    assert (view (<[name := tk]> m) v !! Z.to_nat k = view m v !! Z.to_nat k) as Hk'
      by (apply (view_overlaid m name t v dest n k tk); done || lia).
    destruct (lookup_lt_is_Some_2 (view m v) (Z.to_nat k)) as [x Hx]; [lia|].
    rewrite base_getitem_spec, Hbits; [|done|rewrite Hlb; rewrite Hx in Hk'; apply lookup_lt_Some in Hk'; lia].
    rewrite (index_lookup _ k x), bind_of_Ok by (done || congruence).
    unfold subscript. rewrite lookup_insert_eq, bind_of_Ok.
    destruct (Hput tk k x) as (t'&->&Hok'&Hlen'&Hb'); [done|lia|lia|]. rewrite bind_of_Ok. cbn [mbind].
    exists t'. split_and!; [by rewrite insert_insert_eq|done|lia|]. intros j. rewrite Hb'.
    pose proof (length_mb_bits tk Hok).
    destruct (decide (j = Z.to_nat (dest + k))) as [->|Hj].
    + rewrite list_lookup_insert_eq by lia. rewrite decide_True by lia. rewrite <- Hx. f_equal. lia.
    + rewrite list_lookup_insert_ne by done. rewrite Ho.
      destruct (decide (dest <= Z.of_nat j < dest + k)); [by rewrite decide_True by lia|by rewrite decide_False by lia].
Qed.

(** The two writers. *)
Lemma puts_setitem n : puts mb_setitem 0 n.
Proof.
  intros t i v Ht Hi Hfit. pose proof (mb_setitem_spec t i v Ht) as H. pose proof (length_mb_bits t Ht) as HL.
  rewrite set_item_Ok in H by lia. destruct (mb_setitem t i v) as [t'|e]; [|done]. destruct H as [Hok [= Hb]].
  exists t'. split_and!; [done|done| |done]. rewrite <- (length_mb_bits t'), <- Hb, length_insert by done. done.
Qed.

Lemma puts_write b n :
  0 <= b -> puts (fun t i v => d ← write_bit (mb_data t) (b + i) v; Ok (mkMutable d (mb_length t))) b n.
Proof.
  intros Hb t i v Ht Hi Hfit. destruct (puts_setitem (b + n) t (b + i) v Ht ltac:(lia) ltac:(lia)) as (t'&E&Hrest).
  exists t'. split; [|done]. unfold mb_setitem in E. rewrite (proj2 (Z.ltb_ge (b + i) 0)) in E by lia. cbv zeta in E.
  rewrite (proj2 (Z.leb_le _ _)), (proj2 (Z.ltb_lt _ _)) in E by lia. done.
Qed.

(** ** Subranges *)

Lemma slice_range_inside len b e : 0 <= b <= e -> e <= len -> slice_range len (Some b) (Some e) = (b, e).
Proof.
  intros Hb He. unfold slice_range. rewrite !(proj2 (Z.ltb_ge _ _)) by lia. f_equal; lia.
Qed.

Lemma assign_slice_spec name b e v m t :
  booleans_ok m -> m !! name = Some t -> bits_ok m v -> 0 <= b <= e -> e <= mb_length t ->
  let n := Z.min (e - b) (zlen (view m v)) in
  no_smear name v b n ->
  exists t', assign_slice name b e v m = Ok (<[name := t']> m) /\ mb_ok t' /\ mb_length t' = mb_length t
    /\ mb_bits t' = take (Z.to_nat b) (mb_bits t) ++ take (Z.to_nat n) (view m v) ++ drop (Z.to_nat (b + n)) (mb_bits t).
Proof.
  intros Hm Et Hv Hb He n Hs. unfold assign_slice, subscript. rewrite Et, bind_of_Ok.
  destruct (deref_spec m v Hm Hv) as (src&->&_&_&Hl). rewrite bind_of_Ok, slice_range_inside, Hl by lia. fold n.
  apply store_loop_spec; try done; try lia. apply puts_write; lia.
Qed.

(** [A[high..low] = v], the bits of [v] in order. *)
Lemma set_subrange_up name high low v m t :
  booleans_ok m -> m !! name = Some t -> bits_ok m v -> 0 <= low <= high -> high < mb_length t ->
  let n := Z.min (high - low + 1) (zlen (view m v)) in
  no_smear name v low n ->
  exists t', set_subrange name high low v m = Ok (<[name := t']> m) /\ mb_ok t' /\ mb_length t' = mb_length t
    /\ mb_bits t' = take (Z.to_nat low) (mb_bits t) ++ take (Z.to_nat n) (view m v) ++ drop (Z.to_nat (low + n)) (mb_bits t).
Proof.
  intros Hm Et Hv Hl Hh n Hs. unfold set_subrange. rewrite (proj2 (Z.leb_le _ _)) by lia.
  assert (n = Z.min (high + 1 - low) (zlen (view m v))) as En by lia. rewrite En in *.
  apply assign_slice_spec; done || lia.
Qed.

(** [A[high..low] = v] with [high < low]: the bits of [v] downward from [low]. *)
Lemma set_subrange_down name high low v m t :
  booleans_ok m -> m !! name = Some t -> bits_ok m v -> 0 <= high < low -> low < mb_length t ->
  let n := zlen (view m v) in n <= low - high + 1 ->
  exists t', set_subrange name high low v m = Ok (<[name := t']> m) /\ mb_ok t' /\ mb_length t' = mb_length t
    /\ mb_bits t' = take (Z.to_nat (low + 1 - n)) (mb_bits t) ++ reverse (view m v) ++ drop (Z.to_nat (low + 1)) (mb_bits t).
Proof.
  intros Hm Et Hv Hl Hh n Hn. unfold set_subrange. rewrite (proj2 (Z.leb_gt _ _)) by lia.
  destruct (deref_spec m v Hm Hv) as (src&->&Hsrc&Hbits&Hlen). rewrite bind_of_Ok, Hlen. fold n.
  rewrite Z.min_r by lia. destruct (base_reversed_spec src Hsrc) as (r&->&[Hr _]&Hrb). rewrite bind_of_Ok.
  assert (view m (Fresh (BStr r)) = reverse (view m v)) as Ev by (cbn; by rewrite Hrb, Hbits).
  destruct (assign_slice_spec name (low + 1 - n) (low + 1) (Fresh (BStr r)) m t) as (t'&H1&H2&H3&H4); try done; try lia.
  exists t'. split_and!; [done..|]. rewrite H4, Ev, length_reverse. fold n.
  replace (low + 1 - (low + 1 - n)) with n by lia. rewrite Z.min_id.
  replace (low + 1 - n + n) with (low + 1) by lia. rewrite (take_ge (reverse _)) by (rewrite length_reverse; lia). done.
Qed.

(** The bits of [A[high..low]]. *)
Lemma get_subrange_spec name high low m t :
  booleans_ok m -> m !! name = Some t -> 0 <= high < mb_length t -> 0 <= low < mb_length t ->
  exists v, get_subrange name t high low = Ok v /\ bits_ok m v
    /\ view m v = if low <=? high then slice (mb_bits t) low (high + 1) else reverse (slice (mb_bits t) high (low + 1)).
Proof.
  intros Hm Et Hh Hl. pose proof (Hm name t Et) as Ht. unfold get_subrange, mb_getitem_slice. cbn [negb].
  destruct (Z.leb_spec low high).
  - unfold getitem_slice. cbn [source_length]. rewrite slice_range_inside, (proj2 (Z.leb_gt _ _)) by lia. eexists.
    split; [reflexivity|]. cbn. rewrite Et. split; [|done]. exists t. split_and!; lia || done.
  - rewrite bind_of_Ok.
    destruct (getitem_slice_spec (SrcMut t) (Some high) (Some (low + 1)) high (low + 1)) as [[Hok _] Hbits];
      [done|by apply slice_range_inside; cbn; lia|].
    destruct (base_reversed_spec _ Hok) as (r&->&[Hr _]&Hrb). eexists. split; [reflexivity|]. split; [done|].
    cbn [view base_bits]. by rewrite Hrb, Hbits.
Qed.

(** ** Comparison *)

(** Bits past the end read as zero; the mask selects nothing there. *)
Definition masked_equal (a b mask : list bool) (n : Z) : Prop :=
  forall i : nat, Z.of_nat i < n -> mask !! i = Some true -> default false (a !! i) = default false (b !! i).

Lemma get_bit_spec b i : base_ok b -> 0 <= i -> get_bit b i = Ok (Z.b2z (default false (base_bits b !! Z.to_nat i))).
Proof.
  intros Hb Hi. pose proof (length_base_bits b Hb) as Hl. unfold get_bit. rewrite (proj2 (Z.leb_le _ _)) by done.
  destruct (Z.ltb_spec i (base_len b)) as [Hlt|Hge]; cbn [andb].
  - rewrite base_getitem_spec by done. destruct (lookup_lt_is_Some_2 (base_bits b) (Z.to_nat i)) as [x Hx]; [lia|].
    rewrite (index_lookup _ _ x), Hx by done. done.
  - rewrite lookup_ge_None_2 by lia. done.
Qed.

Lemma bits_compare_spec a b mask n :
  base_ok a -> base_ok b -> base_ok mask ->
  exists r, bits_compare a b mask n = Ok r /\ (r = true <-> masked_equal (base_bits a) (base_bits b) (base_bits mask) n).
Proof.
  intros Ha Hb Hmask. unfold bits_compare.
  assert (forall l, Forall (fun i => 0 <= i) l -> exists r, compare_loop a b mask l = Ok r /\
    (r = true <-> Forall (fun i => base_bits mask !! Z.to_nat i = Some true ->
       default false (base_bits a !! Z.to_nat i) = default false (base_bits b !! Z.to_nat i)) l)) as Hloop.
  { induction 1 as [|i l Hi Hl (r&IH&Hr)]; [by exists true|]. cbn [compare_loop].
    pose proof (length_base_bits mask Hmask) as Hlm.
    assert (exists sel : bool, (if i <? base_len mask then base_getitem mask i else Ok false) = Ok sel
      /\ (sel = true <-> base_bits mask !! Z.to_nat i = Some true)) as (sel&->&Hsel).
    { destruct (Z.ltb_spec i (base_len mask)).
      - rewrite base_getitem_spec by done. destruct (lookup_lt_is_Some_2 (base_bits mask) (Z.to_nat i)) as [x Hx]; [lia|].
        rewrite (index_lookup _ _ x), Hx by done. exists x. split; [done|]. by split; [intros ->|intros [= ->]].
      - exists false. split; [done|]. by rewrite lookup_ge_None_2 by lia. }
    rewrite bind_of_Ok. destruct sel.
    - rewrite !get_bit_spec, !bind_of_Ok by done. set (x := default false (base_bits a !! _)). set (y := default false (base_bits b !! _)).
      assert ((Z.b2z x =? Z.b2z y) = eqb x y) as -> by by destruct x, y.
      destruct (eqb x y) eqn:E; cbn [negb].
      + exists r. split; [done|]. rewrite Forall_cons, Hr. apply eqb_prop in E. unfold x, y in E. tauto.
      + exists false. split; [done|]. split; [done|]. intros [Hx _]%Forall_cons. exfalso.
        assert (x = y) by (by apply Hx, Hsel). subst. by rewrite H, eqb_reflx in E.
    - exists r. split; [done|]. rewrite Forall_cons, Hr. split; [|tauto]. intros Hf. split; [|done].
      intros Hs. apply Hsel in Hs. done. }
  destruct (Hloop (seqZ 0 n)) as (r&->&Hr).
  { apply Forall_forall. intros i Hi%elem_of_seqZ. lia. }
  exists r. split; [done|]. rewrite Hr, Forall_forall. unfold masked_equal. split.
  - intros H i Hi. specialize (H (Z.of_nat i)). rewrite Nat2Z.id in H. apply H, elem_of_seqZ. lia.
  - intros H i Hi%elem_of_seqZ. apply H. lia.
Qed.

(** ** Properties *)

(** What is assigned to a subrange is what the subrange reads next, upward or
    downward, and nothing else changes: provided the source is as wide as the
    range, and is not an overlapping window of the same array shifted up. *)
Theorem stapl_subrange_roundtrip name high low v m t :
  booleans_ok m -> m !! name = Some t -> bits_ok m v -> 0 <= high < mb_length t -> 0 <= low < mb_length t ->
  zlen (view m v) = Z.abs (high - low) + 1 -> (low <= high -> no_smear name v low (high - low + 1)) ->
  exists t' w,
    set_subrange name high low v m = Ok (<[name := t']> m) /\ mb_ok t' /\ mb_length t' = mb_length t
    /\ get_subrange name t' high low = Ok w /\ view (<[name := t']> m) w = view m v
    /\ forall i : nat, Z.of_nat i < Z.min low high \/ Z.max low high < Z.of_nat i -> mb_bits t' !! i = mb_bits t !! i.
Proof.
  intros Hm Et Hv Hh Hl Hw Hs. pose proof (length_mb_bits t (Hm name t Et)) as HL.
  assert (exists t', set_subrange name high low v m = Ok (<[name := t']> m) /\ mb_ok t' /\ mb_length t' = mb_length t
    /\ mb_bits t' = take (Z.to_nat (Z.min low high)) (mb_bits t) ++ (if low <=? high then view m v else reverse (view m v))
         ++ drop (Z.to_nat (Z.max low high + 1)) (mb_bits t)) as (t'&Hset&Hok&Hlen&Hbits).
  { destruct (Z.leb_spec low high).
    - destruct (set_subrange_up name high low v m t) as (t'&?&?&?&Hb); try done; try lia.
      { rewrite Z.min_l by lia. by apply Hs. }
      exists t'. split_and!; [done..|]. rewrite Hb, Z.min_l, (take_ge (view m v)) by lia.
      do 2 f_equal; [f_equal; lia|]. f_equal. f_equal. lia.
    - destruct (set_subrange_down name high low v m t) as (t'&?&?&?&Hb); try done; try lia.
      exists t'. split_and!; [done..|]. rewrite Hb. do 2 f_equal; [f_equal; lia|]. do 2 f_equal. lia. }
  set (S := if low <=? high then view m v else reverse (view m v)) in *.
  assert (zlen S = Z.abs (high - low) + 1) as HS by (unfold S; destruct (low <=? high); rewrite ?length_reverse; lia).
  destruct (get_subrange_spec name high low (<[name := t']> m) t') as (w&Hget&_&Hview);
    [by apply booleans_ok_insert|by apply lookup_insert_eq|lia|lia|].
  assert (slice (mb_bits t') (Z.min low high) (Z.max low high + 1) = S) as Hslice.
  { rewrite Hbits, slice_nonneg by lia. rewrite drop_app_length' by (rewrite length_take; lia).
    by rewrite take_app_length' by lia. }
  exists t', w. split_and!; [done..| |].
  - rewrite Hview. unfold S in Hslice. destruct (Z.leb_spec low high).
    + by rewrite Z.min_l, Z.max_r in Hslice by lia.
    + rewrite Z.min_r, Z.max_l in Hslice by lia. by rewrite Hslice, reverse_involutive.
  - intros i Hi. rewrite Hbits. destruct Hi as [Hi|Hi].
    + by rewrite lookup_app_l, lookup_take_lt by (rewrite ?length_take; lia).
    + rewrite !lookup_app_r, lookup_drop by (rewrite ?length_take; lia). f_equal. rewrite length_take. lia.
Qed.

Definition sample_array : MutableBitString := mkMutable [5] 8.

Lemma sample_array_ok : mb_ok sample_array.
Proof. split; cbn; [by repeat constructor|lia|reflexivity|lia]. Qed.

Lemma stapl_subrange_roundtrip_witness :
  exists t' w, set_subrange (lit "A") 7 4 (Window (lit "A") 0 4) {[lit "A" := sample_array]} = Ok {[lit "A" := t']}
    /\ get_subrange (lit "A") t' 7 4 = Ok w /\ view {[lit "A" := t']} w = [true; false; true; false].
Proof.
  destruct (stapl_subrange_roundtrip (lit "A") 7 4 (Window (lit "A") 0 4) {[lit "A" := sample_array]} sample_array)
    as (t'&w&Hset&_&_&Hget&Hview&_).
  - apply map_Forall_singleton. exact sample_array_ok.
  - apply lookup_singleton_eq.
  - exists sample_array. split; [apply lookup_singleton_eq|cbn; lia].
  - cbn; lia.
  - cbn; lia.
  - vm_compute. reflexivity.
  - intros _. vm_compute. right. discriminate.
  - exists t', w. rewrite insert_singleton_eq in *. split_and!; [done..|]. rewrite Hview. vm_compute. reflexivity.
Defined.

(** [A[7..1] = A[6..0]] copies bit 0 over the whole array: the source is read
    bit by bit, after the bits below have been overwritten. *)
Theorem overlapping_subrange_smears :
  let A := lit "A" in
  let s0 := set_env (set_boolean A sample_array no_vars) (new_interp tt) in
  let shift_up := AssignStmt A None (Some (IntLiteral 7)) (Some (IntLiteral 1)) (ArraySubrange A (IntLiteral 6) (IntLiteral 0)) in
  forall D : StaplPlayer unit,
  exists s, exec_simple D shift_up 0 s0 = (s, Ok tt)
    /\ mb_bits <$> booleans (env s) !! A = Some (replicate 8 true)
    /\ mb_bits sample_array = [true; false; true; false; false; false; false; false].
Proof. intros A s0 shift_up D. eexists. split; [vm_compute; reflexivity|]. split; vm_compute; reflexivity. Qed.

(** A downward range takes the highest bits of a source wider than it:
    [A[0..3] = BOOL(5)] clears the four bits. *)
Theorem downward_subrange_takes_high_bits :
  let A := lit "A" in
  let s0 := set_env (set_boolean A sample_array no_vars) (new_interp tt) in
  let st := AssignStmt A None (Some (IntLiteral 0)) (Some (IntLiteral 3)) (FuncCall BOOL (IntLiteral 5)) in
  forall D : StaplPlayer unit,
  exists s, exec_simple D st 0 s0 = (s, Ok tt) /\ mb_bits <$> booleans (env s) !! A = Some (replicate 8 false).
Proof. intros A s0 st D. eexists. split; [vm_compute; reflexivity|vm_compute; reflexivity]. Qed.

Lemma set_first_spec {P : Type} name v (s : interp P) t :
  booleans_ok (booleans (env s)) -> booleans (env s) !! name = Some t -> 0 < mb_length t ->
  exists t', set_first name v s = (set_env (set_boolean name t' (env s)) s, Ok tt) /\ mb_ok t' /\ mb_bits t' = <[0%nat := v]> (mb_bits t).
Proof.
  intros Hm Et Hl. destruct (puts_setitem (mb_length t) t 0 v (Hm name t Et)) as (t'&E&Hok&_&Hb); [lia|lia|].
  exists t'. split; [|done]. unfold set_first, on_booleans, subscript. by rewrite Et, bind_of_Ok, E.
Qed.

(** A scan that compares drives the padding and the bits it evaluates, and
    its result is 1 exactly when the bits read agree with the expected ones at
    every position the mask selects. *)
Theorem stapl_scan_compare {P : Type} (D : StaplPlayer P) s n tdi_e tdi cmp_e cmp mask_e mask r t p tdo :
  eval_int (env s) n = Ok (zlen tdo * 8) ->
  eval_bytes (env s) tdi_e = Ok tdi ->
  dr_scan D (zlen tdo * 8) tdi (pre_dr (pads s)) (post_dr (pads s)) true (player s) = (p, Ok (Some tdo)) ->
  bytes_ok tdo ->
  booleans_ok (booleans (env s)) ->
  eval_bits (env s) cmp_e = Ok cmp -> bits_ok (booleans (env s)) cmp ->
  eval_bits (env s) mask_e = Ok mask -> bits_ok (booleans (env s)) mask ->
  r ∈ bool_scalars (env s) -> booleans (env s) !! r = Some t -> mb_length t = 1 ->
  exists t' equal,
    exec_scan D (mkScan n tdi_e None (Some cmp_e) (Some mask_e) (Some (VarRef r))) false s
      = (set_env (set_boolean r t' (env s)) (set_player p s), Ok tt)
    /\ mb_bits t' = [equal]
    /\ (equal = true <->
        masked_equal (bytes_bits tdo) (view (booleans (env s)) cmp) (view (booleans (env s)) mask) (zlen tdo * 8)).
Proof.
  intros Hn Htdi Hscan Htdo Hm Hcmp Hcok Hmask Hmok Hr Et Hlen.
  destruct (deref_spec _ cmp Hm Hcok) as (c&Ec&Hc&Hcb&_). destruct (deref_spec _ mask Hm Hmok) as (k&Ek&Hk&Hkb&_).
  destruct (bs_init_spec (ABytes tdo) (Some (zlen tdo * 8))) as (b&Eb&[Hb _]&Hbb).
  { cbn. unfold clean_bytes, byte_count. split_and!; [done|lia|div_lia|]. pose proof (from_le_bound tdo Htdo). rewrite Z.mul_comm, Z.pow_mul_r by lia. change (2 ^ 8) with 256. lia. }
  destruct (bits_compare_spec (BStr b) c k (zlen tdo * 8) Hb Hc Hk) as (equal&Eeq&Hequal).
  set (s1 := set_player p s).
  destruct (set_first_spec r equal s1 t Hm Et ltac:(lia)) as (t'&Hset&_&Hb').
  exists t', equal. split_and!.
  - unfold exec_scan. cbn [scan_length scan_tdi scan_capture scan_compare scan_mask scan_result wanted orb].
    erewrite bind_ask by exact Hn. erewrite bind_ask by exact Htdi. cbv zeta. rewrite bind_get.
    erewrite bind_call by exact Hscan. fold s1. unfold finish_scan. rewrite bind_ret.
    erewrite bind_ask by exact Eb. erewrite (bind_ask s1).
    2: { cbn [env s1 set_player]. rewrite Hcmp, bind_of_Ok, Hmask, bind_of_Ok, Ec, bind_of_Ok, Ek, bind_of_Ok. exact Eeq. }
    unfold store_bool_result. rewrite bind_get. by rewrite bool_decide_eq_true_2.
  - pose proof (length_mb_bits t (Hm r t Et)) as HL. rewrite Hb'. destruct (mb_bits t) as [|x [|y l]]; done || (simpl in HL; lia).
  - rewrite Hequal. cbn [base_bits]. rewrite Hbb, Hcb, Hkb. cbn [arg_bits]. unfold bits_raw.
    by rewrite take_ge by (rewrite length_bytes_bits; lia).
Qed.

(** A player whose chain gives back what is shifted in. *)
Definition loopback : StaplPlayer unit :=
  mkPlayer unit
    (fun _ tdi _ _ capture p => (p, Ok (if capture : bool then Some tdi else None)))
    (fun _ tdi _ _ capture p => (p, Ok (if capture : bool then Some tdi else None)))
    (fun _ _ p => (p, Ok tt)) (fun _ _ _ _ p => (p, Ok tt)) (fun _ _ p => (p, Ok tt)) (fun _ p => (p, Ok tt))
    (fun _ p => (p, Ok tt)) (fun _ _ p => (p, Ok tt)) (fun _ i capture p => (p, Ok (if capture : bool then Some i else None))).

Lemma stapl_scan_compare_witness :
  let R := lit "R" in
  let flag := mkMutable [0] 1 in
  let s0 := set_env (add_scalar R (set_boolean R flag no_vars)) (new_interp tt) in
  let byte b := BooleanLiteral (mkBoolean (Decoded [b]) 8) in
  exists t' equal,
    exec_scan loopback (mkScan (IntLiteral 8) (byte 0x35) None (Some (byte 0x05)) (Some (byte 0x0F)) (Some (VarRef R))) false s0
      = (set_env (set_boolean R t' (env s0)) s0, Ok tt)
    /\ mb_bits t' = [equal] /\ equal = true.
Proof.
  intros R flag s0 byte.
  assert (forall b, is_byte b -> exists v, eval_bits (env s0) (byte b) = Ok v /\ bits_ok (booleans (env s0)) v
    /\ view (booleans (env s0)) v = bits_of 8 b) as Hbyte.
  { intros b Hb. eexists. split; [reflexivity|]. split; [|reflexivity]. split; cbn; [by constructor|unfold is_byte; lia|done|by right]. }
  destruct (Hbyte 0x05 ltac:(unfold is_byte; lia)) as (c&Ec&Hc&Vc). destruct (Hbyte 0x0F ltac:(unfold is_byte; lia)) as (k&Ek&Hk&Vk).
  destruct (stapl_scan_compare loopback s0 (IntLiteral 8) (byte 0x35) [0x35] (byte 0x05) c (byte 0x0F) k R flag tt [0x35])
    as (t'&equal&Hrun&Hbits&Heq); try done.
  - by repeat constructor.
  - apply map_Forall_singleton. split; cbn; [by repeat constructor|lia|reflexivity|lia].
  - exists t', equal. split_and!; [exact Hrun|done|]. apply Heq. rewrite Vc, Vk. intros i Hi.
    do 8 (destruct i as [|i]; [done|]). change (zlen [0x35] * 8) with 8 in Hi. lia.
Defined.
