(* ===== verification/StaplRun.v ===== *)
(** * Running STAPL procedures (src/acrobe/stapl/interpreter.py)

    The program counter's loop as a step relation, independent of fuel; what a
    FOR loop does; the types of the variables as an invariant. *)

From Stdlib Require Import Ascii String.
From stdpp Require Import gmap relations.
From S2P Require Import Prelude BitString BitVec PyText Aca StaplExpr StaplEval StaplExec StaplValues StaplBits.

Open Scope Z_scope.

Section run.
Context {P : Type} (D : StaplPlayer P) (prog : Program).

(** ** Fuel *)

Definition settled {A} (r : interp P * result A) : Prop := r.2 <> Err OutOfFuel.

Lemma settled_bind {A B} (m m' : I P A) (k k' : A -> I P B) s :
  settled ((m ≫= k) s) -> (settled (m s) -> m' s = m s) ->
  (forall a s', m s = (s', Ok a) -> settled (k a s') -> k' a s' = k a s') -> (m' ≫= k') s = (m ≫= k) s.
Proof.
  unfold mbind, I_bind, settled. intros Hs Hm Hk. destruct (m s) as [s' [a|e]] eqn:E.
  - rewrite Hm by (cbn; congruence). by apply Hk.
  - rewrite Hm; [done|cbn in *; congruence].
Qed.

Lemma fuel_step fuel :
  (forall st pc proc s, settled (execute_stmt D prog fuel st pc proc s) ->
     execute_stmt D prog (S fuel) st pc proc s = execute_stmt D prog fuel st pc proc s)
  /\ (forall name s, settled (execute_procedure D prog fuel name s) ->
     execute_procedure D prog (S fuel) name s = execute_procedure D prog fuel name s)
  /\ (forall proc pc s, settled (run_from D prog fuel proc pc s) ->
     run_from D prog (S fuel) proc pc s = run_from D prog fuel proc pc s).
Proof.
  induction fuel as [|fuel (Hstmt&Hproc&Hrun)]; [by split_and!|]. split_and!.
  - intros st pc proc s Hs. destruct st; try done.
    + apply (settled_bind _ _ _ _ _ Hs); [done|]. intros [] s1 _ Hs1.
      apply (settled_bind _ _ _ _ _ Hs1); [apply Hproc|done].
    + apply (settled_bind _ _ _ _ _ Hs); [done|]. intros c s1 _. destruct (negb (c =? 0)); [apply Hstmt|done].
  - intros name s Hs. cbn [execute_procedure] in *. destruct (procedures prog !! upper name) as [proc|]; [|done].
    apply (settled_bind _ _ _ _ _ Hs); [done|]. intros [] s1 _. apply Hrun.
  - intros proc pc s Hs. cbn [run_from] in Hs |- *. destruct (pc <? zlen (statements proc)); [|done].
    apply (settled_bind _ _ _ _ _ Hs); [done|]. intros st s1 _ Hs1.
    apply (settled_bind _ _ _ _ _ Hs1); [apply Hstmt|]. intros pc' s2 _. apply Hrun.
Qed.

Lemma fuel_mono_stmt fuel fuel' st pc proc s :
  settled (execute_stmt D prog fuel st pc proc s) -> (fuel <= fuel')%nat ->
  execute_stmt D prog fuel' st pc proc s = execute_stmt D prog fuel st pc proc s.
Proof. intros Hs. induction 1 as [|g Hg IH]; [done|]. rewrite (proj1 (fuel_step g)); [done|]. by rewrite IH. Qed.

Lemma fuel_mono_run fuel fuel' proc pc s :
  settled (run_from D prog fuel proc pc s) -> (fuel <= fuel')%nat ->
  run_from D prog fuel' proc pc s = run_from D prog fuel proc pc s.
Proof.
  intros Hs. induction 1 as [|g Hg IH]; [done|]. destruct (fuel_step g) as (_&_&->); [done|]. by rewrite IH.
Qed.

(** ** Steps of the program counter *)

Inductive step (proc : ProcedureDef) : Z * interp P -> Z * interp P -> Prop :=
  | step_stmt fuel st pc s pc' s' :
      pc < zlen (statements proc) -> index (statements proc) pc = Ok st ->
      execute_stmt D prog fuel st pc proc s = (s', Ok pc') ->
      step proc (pc, s) (pc', s').

Definition reach (proc : ProcedureDef) : Z * interp P -> Z * interp P -> Prop := rtc (step proc).

Lemma step_deterministic proc c c1 c2 : step proc c c1 -> step proc c c2 -> c1 = c2.
Proof.
  intros H1 H2. inversion H1 as [f1 st1 pc s pc1 s1 _ E1 R1]; subst. inversion H2 as [f2 st2 ? ? pc2 s2 _ E2 R2]; subst.
  rewrite E1 in E2. simplify_eq.
  assert (forall f pc' s', execute_stmt D prog f st2 pc proc s = (s', Ok pc') ->
    execute_stmt D prog (Nat.max f1 f2) st2 pc proc s = (s', Ok pc') \/ (Nat.max f1 f2 < f)%nat) as Hm.
  { intros f pc' s' Hf. destruct (decide (Nat.max f1 f2 < f)%nat); [by right|]. left.
    rewrite <- Hf. apply fuel_mono_stmt; [by rewrite Hf|lia]. }
  destruct (Hm _ _ _ R1), (Hm _ _ _ R2); try lia. congruence.
Qed.

(** What the loop returns is what the steps reach, and the other way round. *)
Lemma run_from_reach fuel proc pc s s' :
  run_from D prog fuel proc pc s = (s', Ok tt) -> exists pc', zlen (statements proc) <= pc' /\ reach proc (pc, s) (pc', s').
Proof.
  revert pc s. induction fuel as [|fuel IH]; intros pc s; cbn [run_from]; [done|].
  destruct (Z.ltb_spec pc (zlen (statements proc))) as [Hlt|Hge].
  - intros (st&s0&Est&H)%bind_inv. injection Est as <- Est. apply bind_inv in H as (pc1&s1&E&H).
    destruct (IH pc1 s1 H) as (pc'&Hpc'&Hr). exists pc'. split; [done|]. eapply rtc_l; [|done]. by econstructor.
  - intros [= <-]. exists pc. split; [done|]. apply rtc_refl.
Qed.

Lemma reach_run_from proc c c' :
  reach proc c c' -> zlen (statements proc) <= c'.1 -> exists fuel, run_from D prog fuel proc c.1 c.2 = (c'.2, Ok tt).
Proof.
  induction 1 as [[pc s]|c1 c2 c3 Hstep _ IH]; intros Hend.
  - exists 1%nat. cbn [run_from fst snd] in *. by rewrite (proj2 (Z.ltb_ge _ _)).
  - destruct (IH Hend) as [fuel Hrun]. inversion Hstep as [f st pc s pc' s' Hlt Hst Hex]; subst. cbn [fst snd] in *.
    exists (S (Nat.max f fuel)). cbn [run_from]. rewrite (proj2 (Z.ltb_lt _ _)) by done.
    erewrite bind_ask by exact Hst. erewrite bind_step.
    2: { rewrite (fuel_mono_stmt f); [exact Hex|by rewrite Hex|lia]. }
    rewrite (fuel_mono_run fuel); [done|by rewrite Hrun|lia].
Qed.


(** ** FOR loops *)

(** The passes through a loop from [start] to [stop]: one at least, as the end
    is looked at by NEXT. *)
Definition passes (start stop step : Z) : Z :=
  if 0 <? step then Z.max 1 ((stop - start) / step + 1)
  else if step <? 0 then Z.max 1 ((start - stop) / (- step) + 1)
  else 1.

(** The last pass is the one after which NEXT goes on. *)
Lemma passes_last start stop step k :
  0 <= k ->
  (let new_val := start + k * step + step in
   if 0 <? step then stop <? new_val else if step <? 0 then new_val <? stop else true)
  = (passes start stop step <=? k + 1).
Proof.
  intros Hk. unfold passes. cbv zeta. destruct (Z.ltb_spec 0 step) as [Hs|Hs].
  - apply eq_true_iff_eq. rewrite Z.ltb_lt, Z.leb_le.
    pose proof (Z.div_mod (stop - start) step ltac:(lia)). pose proof (Z.mod_pos_bound (stop - start) step Hs). nia.
  - destruct (Z.ltb_spec step 0) as [Hn|Hn]; [|symmetry; apply Z.leb_le; lia].
    apply eq_true_iff_eq. rewrite Z.ltb_lt, Z.leb_le.
    pose proof (Z.div_mod (start - stop) (- step) ltac:(lia)). pose proof (Z.mod_pos_bound (start - stop) (- step) ltac:(lia)). nia.
Qed.

(** A change that the loop itself makes. *)
Definition loop_frame (var : ident) (s s' : interp P) : Prop :=
  (exists l, s' = set_for_stack l s) \/ (exists v, s' = set_env (set_integer var v (env s)) s).

Definition in_loop (var : ident) (v : Z) (fors : list ForState) (s : interp P) : Prop :=
  integers (env s) !! var = Some (Scalar v) /\ for_stack s = fors.

(** NEXT, in the innermost loop. *)
Lemma next_step proc pc pc0 var stop c fors a k s :
  0 <= pc -> index (statements proc) pc = Ok (NextStmt var) -> 0 <= k ->
  in_loop var (a + k * c) (mkFor var stop c pc0 :: fors) s ->
  step proc (pc, s)
    (if passes a stop c <=? k + 1 then (pc + 1, set_for_stack fors s)
     else (pc0, set_env (set_integer var (Scalar (a + (k + 1) * c)) (env s)) s)).
Proof.
  intros Hpc Hst Hk [Hv Hf]. pose proof (index_Ok_inv _ _ _ Hpc Hst) as Hlt%lookup_lt_Some.
  pose proof (passes_last a stop c k Hk) as Hd. cbv zeta in Hd.
  assert (execute_stmt D prog 1 (NextStmt var) pc proc s =
    (if passes a stop c <=? k + 1 then (set_for_stack fors s, Ok (pc + 1))
     else (set_env (set_integer var (Scalar (a + (k + 1) * c)) (env s)) s, Ok pc0))) as E.
  { cbn [execute_stmt]. unfold exec_next. rewrite bind_get, Hf. cbn [for_var for_step for_end for_pc].
    rewrite bool_decide_eq_true_2 by done. erewrite bind_ask by (unfold subscript; by rewrite Hv). cbv zeta.
    cbv iota beta. rewrite Hd. destruct (_ <=? _); [done|]. rewrite bind_update. by replace (a + k * c + c) with (a + (k + 1) * c) by lia. }
  destruct (_ <=? _); (eapply step_stmt; [lia|exact Hst|exact E]).
Qed.

Section for_loop.
Context (proc : ProcedureDef) (pc pc' : Z) (var : ident) (a b c : Z) (fors : list ForState) (Inv : Z -> interp P -> Prop).
Context (Hpc' : 0 <= pc') (Hnext : index (statements proc) pc' = Ok (NextStmt var)).
Context (Hframe : forall k s s', loop_frame var s s' -> Inv k s -> Inv k s').
Context (Hbody : forall k s, 0 <= k < passes a b c -> Inv k s -> in_loop var (a + k * c) (mkFor var b c (pc + 1) :: fors) s ->
  exists s', reach proc (pc + 1, s) (pc', s') /\ Inv (k + 1) s' /\ in_loop var (a + k * c) (mkFor var b c (pc + 1) :: fors) s').

Lemma loop_passes n : forall k s,
  Z.of_nat n = passes a b c - k - 1 -> 0 <= k -> Inv k s -> in_loop var (a + k * c) (mkFor var b c (pc + 1) :: fors) s ->
  exists s', reach proc (pc + 1, s) (pc' + 1, s') /\ Inv (passes a b c) s' /\ in_loop var (a + (passes a b c - 1) * c) fors s'.
Proof.
  induction n as [|n IH]; intros k s Hn Hk Hi Hin; destruct (Hbody k s) as (s1&Hr&Hi1&Hin1); try done; try lia;
    pose proof (next_step proc pc' (pc + 1) var b c fors a k s1 Hpc' Hnext Hk Hin1) as Hs.
  - rewrite (proj2 (Z.leb_le _ _)) in Hs by lia. exists (set_for_stack fors s1).
    replace (k + 1) with (passes a b c) in Hi1 by lia. replace (passes a b c - 1) with k by lia. split_and!.
    + eapply rtc_r; [exact Hr|exact Hs].
    + eapply Hframe; [|exact Hi1]. left. by eexists.
    + split; [apply Hin1|done].
  - rewrite (proj2 (Z.leb_gt _ _)) in Hs by lia.
    destruct (IH (k + 1) (set_env (set_integer var (Scalar (a + (k + 1) * c)) (env s1)) s1)) as (s'&Hr'&Hrest); [lia|lia| | |].
    + eapply Hframe; [|exact Hi1]. right. by eexists.
    + split; [apply lookup_insert_eq|apply Hin1].
    + exists s'. split; [|done]. etransitivity; [exact Hr|]. eapply rtc_l; [exact Hs|exact Hr'].
Qed.
End for_loop.

(** C15: A FOR loop runs its body exactly as many times as its bounds say, once
    at least, the variable taking the values [a], [a + c], ... in turn, and then
    goes on after NEXT with the FOR stack as it was: for every body that comes
    back to NEXT with the variable and the stack as it found them, and every
    invariant the body carries from one pass to the next. *)
Theorem stapl_for_loop proc pc pc' var e1 e2 e3 a b c (Inv : Z -> interp P -> Prop) s :
  0 <= pc -> index (statements proc) pc = Ok (ForStmt var e1 e2 e3) ->
  0 <= pc' -> index (statements proc) pc' = Ok (NextStmt var) ->
  eval_int (env s) e1 = Ok a -> eval_int (env s) e2 = Ok b ->
  match e3 with Some e => eval_int (env s) e = Ok c | None => c = 1 end ->
  (forall k s s', loop_frame var s s' -> Inv k s -> Inv k s') ->
  Inv 0 s ->
  (forall k si, 0 <= k < passes a b c -> Inv k si -> in_loop var (a + k * c) (mkFor var b c (pc + 1) :: for_stack s) si ->
     exists sj, reach proc (pc + 1, si) (pc', sj) /\ Inv (k + 1) sj
       /\ in_loop var (a + k * c) (mkFor var b c (pc + 1) :: for_stack s) sj) ->
  exists s', reach proc (pc, s) (pc' + 1, s') /\ Inv (passes a b c) s'
    /\ in_loop var (a + (passes a b c - 1) * c) (for_stack s) s'.
Proof.
  intros Hpc Hfor Hpc' Hnext H1 H2 H3 Hframe H0 Hbody.
  pose proof (index_Ok_inv _ _ _ Hpc Hfor) as Hlt%lookup_lt_Some.
  set (s0 := set_for_stack (mkFor var b c (pc + 1) :: for_stack s) (set_env (set_integer var (Scalar a) (env s)) s)).
  assert (step proc (pc, s) (pc + 1, s0)) as Hs.
  { eapply (step_stmt proc 1); [lia|exact Hfor|]. cbn [execute_stmt]. erewrite bind_step; [reflexivity|].
    cbn [exec_simple]. erewrite bind_ask by exact H1. erewrite bind_ask by exact H2.
    destruct e3 as [e|]; [erewrite bind_ask by exact H3|rewrite bind_ret; subst c]; by rewrite bind_update. }
  assert (1 <= passes a b c) as Hp by (unfold passes; repeat case_match; lia).
  destruct (loop_passes proc pc pc' var a b c (for_stack s) Inv Hpc' Hnext Hframe Hbody (Z.to_nat (passes a b c - 1)) 0 s0)
    as (s'&Hr&Hrest); [lia|lia| | |].
  - eapply Hframe; [left; by eexists|]. eapply Hframe; [right; by eexists|done].
  - split; [rewrite Z.add_0_r; apply lookup_insert_eq|done].
  - exists s'. split; [|done]. eapply rtc_l; [exact Hs|exact Hr].
Qed.

End run.

(** [FOR I = 1 TO 10; SUM = SUM + I; NEXT I;] adds up. *)
Definition sum_procedure : ProcedureDef :=
  mkProcedure (lit "SUMUP") []
    [ForStmt (lit "I") (IntLiteral 1) (IntLiteral 10) None;
     AssignStmt (lit "SUM") None None None (BinOp Add (VarRef (lit "SUM")) (VarRef (lit "I")));
     NextStmt (lit "I")] ∅.

Lemma stapl_for_loop_witness :
  let s0 := set_env (set_integer (lit "SUM") (Scalar 0) no_vars) (new_interp tt) in
  exists s', reach loopback (mkProgram ∅ ∅ ∅) sum_procedure (0, s0) (3, s') /\ integers (env s') !! lit "SUM" = Some (Scalar 55).
Proof.
  intros s0.
  destruct (stapl_for_loop loopback (mkProgram ∅ ∅ ∅) sum_procedure 0 2 (lit "I") (IntLiteral 1) (IntLiteral 10) None 1 10 1
    (fun k s => integers (env s) !! lit "SUM" = Some (Scalar (k * (k + 1) / 2)) /\ booleans (env s) = ∅ /\ bool_scalars (env s) = ∅) s0)
    as (s'&Hr&[Hsum _]&_); try done.
  - intros k s s' [[l ->]|[v ->]] H; [done|]. unfold set_integer. cbn [integers booleans bool_scalars set_env env].
    by rewrite lookup_insert_ne.
  - intros k s Hk (Hsum&Hb&Hs) [Hi Hf]. change (passes 1 10 1) with 10 in Hk.
    assert (0 <= k * (k + 1) <= 90) as Hkk by nia.
    exists (set_env (set_integer (lit "SUM") (Scalar (k * (k + 1) / 2 + (1 + k * 1))) (env s)) s). split_and!.
    + eapply rtc_l; [|apply rtc_refl]. eapply (step_stmt _ _ _ 1); [done|reflexivity|].
      cbn [execute_stmt]. erewrite bind_step; [reflexivity|]. cbn [exec_simple exec_assign]. rewrite bind_get, Hb, Hs.
      rewrite bool_decide_eq_false_2 by (intros [? [=]]). cbn [andb].
      rewrite bool_decide_eq_false_2 by apply not_elem_of_empty. rewrite Hsum.
      erewrite bind_ask; [reflexivity|]. cbn [eval_int]. rewrite Hsum, bind_of_Ok, Hi, bind_of_Ok. cbn [binop_value].
      rewrite to_signed32_wrap, wrap32_id; [done|]. unfold int32. div_lia.
    + unfold set_integer. cbn [integers set_env env]. rewrite lookup_insert_eq. do 2 f_equal. div_lia.
    + done.
    + done.
    + split; [|done]. unfold set_integer. cbn [integers set_env env]. by rewrite lookup_insert_ne.
  - by exists s'.
Defined.
