(* ===== verification/StaplTypes.v ===== *)
(** * The variables keep their types (src/acrobe/stapl/interpreter.py)

    Every Boolean variable is, after every statement and also when one raises,
    a bit array of exactly its declared size with nothing stored past it; only a
    declaration changes a size. *)

From Stdlib Require Import Ascii String.
From stdpp Require Import gmap.
From S2P Require Import Prelude BitString BitVec PyText Aca StaplExpr StaplEval StaplExec StaplBits.

Open Scope Z_scope.

Lemma index_elem_of {A} (l : list A) i x : index l i = Ok x -> x ∈ l.
Proof.
  rewrite index_unfold. destruct (0 <=? _); [|done]. destruct (l !! Z.to_nat _) eqn:E; [|done]. intros [= <-].
  by eapply list_elem_of_lookup_2.
Qed.

(** ** Declared arrays *)

(** Whatever bytes initialise it, [MutableBitString(data, size)] is well
    formed. *)
Lemma normalise_ok d n :
  bytes_ok d -> 0 <= n -> zlen d = byte_count n ->
  exists d', (if (Z.land n 7 =? 0) || (zlen d =? 0) then Ok d
              else update_byte d (-1) (fun b => Z.land b (Z.shiftl 1 (Z.land n 7) - 1))) = Ok d'
    /\ mb_ok (mkMutable d' n).
Proof.
  intros Hd Hn Hl.
  assert (exists seed, layout_ok seed /\ joined seed = d /\ bs_length seed = n /\ bs_cache seed = None) as (seed&Hs&Hj&Hln&Hc).
  { destruct (Z.eqb_spec (Z.land n 7) 0) as [E|E].
    - exists (mkBitString [d] 0 n None). unfold joined. cbn. rewrite E. cbn. rewrite app_nil_r. split_and!; try done.
      rewrite land_mod_8 in E. constructor; cbn; rewrite ?app_nil_r; [done|unfold is_byte; lia| |by left].
      unfold byte_count in Hl. div_lia.
    - assert (d <> []) as Hne by (intros ->; rewrite land_mod_8 in E; unfold byte_count in Hl; simpl in Hl; div_lia).
      destruct (exists_last Hne) as (front&x&->). apply bytes_ok_app in Hd as [Hf Hx].
      rewrite length_app, Nat2Z.inj_add in Hl. simpl length in Hl. rewrite land_mod_8 in E. unfold byte_count in Hl.
      exists (mkBitString [front] x n None). unfold joined. cbn. rewrite app_nil_r, land_mod_8. rewrite (proj2 (Z.eqb_neq _ _)) by done.
      split_and!; try done. constructor; cbn; rewrite ?app_nil_r; [done|by inversion Hx| |by left]. div_lia. }
  destruct (mb_init_seed seed Hs) as (m&E&Hm&_). rewrite (data_spec seed Hs), bind_of_Ok, Hj, Hln in E.
  cbv zeta in E. unfold byte_count in Hl. rewrite <- Hl, !Z.ltb_irrefl in E.
  destruct (if (Z.land n 7 =? 0) || (zlen d =? 0) then _ else _) as [d'|e]; [|done].
  rewrite bind_of_Ok in E. injection E as <-. by exists d'.
Qed.

(** The bytes a seed holds. *)
Lemma seed_data d n seed D :
  bytes_ok d -> bs_init (Some (ABytes d)) (Some n) = Ok seed -> data seed = Ok D ->
  bs_length seed = n /\ bytes_ok D /\ 0 <= n /\ byte_count n <= zlen D.
Proof.
  intros Hd Hi HD.
  assert (forall d', bytes_ok d' -> byte_count n <= zlen d' ->
    (forall c, (c = None \/ (c = Some d' /\ 0 <= n)) ->
    (if Z.land n 7 =? 0 then Ok (mkBitString [d'] 0 n c)
     else last ← index d' (-1); Ok (mkBitString [slice_to d' (-1)] last n c)) = Ok seed ->
    bs_length seed = n /\ bytes_ok D /\ 0 <= n /\ byte_count n <= zlen D)) as H.
  { intros d' Hd' Hl c Hc Es.
    assert (joined seed = d' /\ bs_length seed = n /\ bs_cache seed = c) as (Hj&Hn&Hcc).
    { destruct (Z.land n 7 =? 0) eqn:E.
      - injection Es as <-. unfold joined. cbn. rewrite E. cbn. by rewrite app_nil_r.
      - destruct d' as [|x d' _] using rev_ind; [done|]. rewrite index_last, bind_of_Ok in Es. injection Es as <-.
        unfold joined. cbn [bs_length bs_bytes bs_last bs_cache]. rewrite E. cbn [concat]. rewrite app_nil_r. split_and!; try done.
        by rewrite slice_to_last. }
    split; [done|]. unfold data in HD. rewrite Hcc in HD. destruct Hc as [->|[-> H0]].
    - rewrite Hj, Hn in HD. destruct (Z.leb_spec 0 n); [|done]. cbn [andb] in HD.
      destruct (n <=? _); [|done]. by injection HD as <-.
    - by injection HD as <-. }
  cbn [bs_init] in Hi. rewrite Z.shiftr_div_pow2 in Hi by done. change (2 ^ 3) with 8 in Hi.
  destruct (Z.eqb_spec (zlen d) ((n + 7) / 8)) as [E|E].
  - destruct (Z.le_gt_cases 0 n) as [H0|H0].
    + apply (H d Hd) with (c := Some d); [unfold byte_count; lia|by right|done].
    + exfalso. assert (zlen d = 0) by div_lia. destruct d; [|simpl in *; lia].
      assert (Z.land n 7 <> 0) by (rewrite land_mod_8; div_lia). rewrite (proj2 (Z.eqb_neq _ _)) in Hi by done. done.
  - unfold append, append_bytes in Hi. cbn [bs_length bs_empty] in Hi. change (Z.land 0 7 =? 0) with true in Hi.
    unfold append_tail in Hi. cbn [bs_length bs_empty bs_bytes app] in Hi.
    apply (H (ljust d ((n + 7) / 8))) with (c := None); [..|by left|exact Hi].
    + unfold ljust. apply bytes_ok_app. split; [done|]. apply Forall_replicate. unfold is_byte. lia.
    + unfold ljust, byte_count. rewrite length_app, length_replicate. lia.
Qed.

Lemma mb_init_bytes_ok d n m : bytes_ok d -> mb_init (Some (ABytes d)) (Some n) = Ok m -> mb_ok m.
Proof.
  intros Hd. unfold mb_init. destruct (bs_init _ _) as [seed|e] eqn:Hi; [|done]. rewrite bind_of_Ok.
  destruct (data seed) as [D|e] eqn:HD; [|done]. rewrite bind_of_Ok. cbv zeta.
  destruct (seed_data d n seed D Hd Hi HD) as (->&HDok&Hn&Hl). unfold byte_count in Hl.
  rewrite (proj2 (Z.ltb_ge _ _)) by done.
  set (D' := if (n + 7) / 8 <? zlen D then _ else D).
  assert (bytes_ok D' /\ zlen D' = byte_count n) as [HD' HlD'].
  { unfold D', byte_count. destruct (Z.ltb_spec ((n + 7) / 8) (zlen D)); [|split; [done|lia]].
    assert (0 <= (n + 7) / 8) by div_lia.
    rewrite slice_to_nonneg by lia. split; [by apply Forall_take|]. rewrite length_take. lia. }
  destruct (normalise_ok D' n HD' Hn HlD') as (d'&->&Hok). rewrite bind_of_Ok. by intros [= <-].
Qed.

(** ** Relations on the Boolean variables *)

(** Well-formed arrays stay well formed; [kept] adds that they keep their
    sizes. *)
Definition typed (m m' : store) : Prop := booleans_ok m -> booleans_ok m'.
Definition kept (m m' : store) : Prop :=
  booleans_ok m -> booleans_ok m' /\ forall name, mb_length <$> m' !! name = mb_length <$> m !! name.

#[global] Instance typed_preorder : PreOrder typed.
Proof. split; [by intros m H|]. intros m1 m2 m3 H1 H2 H. auto. Qed.

#[global] Instance kept_preorder : PreOrder kept.
Proof.
  split; [by intros m H; split|]. intros m1 m2 m3 H1 H2 H. destruct (H1 H) as [Ho1 Hl1]. destruct (H2 Ho1) as [Ho2 Hl2].
  split; [done|]. intros name. by rewrite Hl2.
Qed.

Lemma kept_typed m m' : kept m m' -> typed m m'.
Proof. intros H Hm. by apply H. Qed.

(** A variable rewritten with an array of the same size. *)
Lemma kept_insert m name t t' : m !! name = Some t -> (mb_ok t -> mb_ok t' /\ mb_length t' = mb_length t) -> kept m (<[name := t']> m).
Proof.
  intros Et Ht Hm. destruct (Ht (Hm name t Et)) as [Hok Hl]. split; [by apply booleans_ok_insert|]. intros n.
  destruct (decide (n = name)) as [->|Hne]; [|by rewrite lookup_insert_ne]. rewrite lookup_insert_eq, Et. cbn. by rewrite Hl.
Qed.

Lemma mb_setitem_kept t i v t' : mb_ok t -> mb_setitem t i v = Ok t' -> mb_ok t' /\ mb_length t' = mb_length t.
Proof.
  intros Ht E. pose proof (mb_setitem_spec t i v Ht) as H. rewrite E in H. split; [apply H|].
  unfold mb_setitem in E. cbv zeta in E. destruct (_ && _); [|done]. destruct (write_bit _ _ _); [|done]. by injection E as <-.
Qed.

(** The loops that write bits. *)
Lemma store_loop_kept put name source n m m' len :
  (forall t i v t', mb_ok t -> mb_length t = len -> 0 <= i < n -> put t i v = Ok t' -> mb_ok t' /\ mb_length t' = mb_length t) ->
  mb_length <$> m !! name = Some len -> store_loop put name source n m = Ok m' -> kept m m'.
Proof.
  intros Hput Hlen. unfold store_loop.
  assert (Forall (fun i => 0 <= i < n) (seqZ 0 n)) as Hall by (apply Forall_forall; intros i Hi%elem_of_seqZ; lia).
  revert m Hlen. induction Hall as [|i l Hi _ IH]; intros m Hlen; cbn [foldM]; [by intros [= <-]|].
  destruct (deref m source) as [src|]; [|done]. rewrite bind_of_Ok. destruct (base_getitem src i) as [v|]; [|done].
  rewrite bind_of_Ok. unfold subscript. destruct (m !! name) as [t|] eqn:Et; [|done]. rewrite bind_of_Ok.
  destruct (put t i v) as [t'|] eqn:Ep; [|done]. rewrite !bind_of_Ok. cbn [mbind]. injection Hlen as Hlen. intros Hrest.
  intros Hm. assert (kept m (<[name := t']> m)) as Hk by (apply (kept_insert _ _ t); [done|]; intros Ht; by apply (Hput t i v)).
  destruct (Hput t i v t') as [Hok Hl]; [by apply (Hm name t)|done|done|done|].
  refine (transitivity (R:=kept) Hk _ Hm). apply IH; [|exact Hrest]. rewrite lookup_insert_eq. cbn. by rewrite Hl, Hlen.
Qed.

Lemma assign_slice_kept name b e source m m' : assign_slice name b e source m = Ok m' -> kept m m'.
Proof.
  unfold assign_slice, subscript. destruct (m !! name) as [t|] eqn:Et; [|done]. rewrite bind_of_Ok.
  destruct (deref m source) as [src|]; [|done]. rewrite bind_of_Ok.
  destruct (slice_range (mb_length t) (Some b) (Some e)) as [b' e'] eqn:Er. intros H Hm. revert H Hm.
  assert (mb_ok t -> 0 <= b' /\ e' <= mb_length t) as Hr.
  { intros Ht. apply slice_range_spec in Er; [lia|]. apply Ht. }
  intros H Hm. specialize (Hr (Hm name t Et)). revert Hm.
  apply (store_loop_kept _ _ _ _ _ _ (mb_length t)) in H; [done| |by rewrite Et].
  intros t0 i v t' Ht0 Hl Hi. pose proof (mb_setitem_kept t0 (b' + i) v t' Ht0) as Hk. unfold mb_setitem in Hk. cbv zeta in Hk.
  rewrite (proj2 (Z.ltb_ge (b' + i) 0)), (proj2 (Z.leb_le _ _)), (proj2 (Z.ltb_lt _ _)) in Hk by lia. exact Hk.
Qed.

Lemma set_subrange_kept name high low source m m' : set_subrange name high low source m = Ok m' -> kept m m'.
Proof.
  unfold set_subrange. destruct (low <=? high); [apply assign_slice_kept|].
  destruct (deref m source); [|done]. rewrite bind_of_Ok. destruct (base_reversed _); [|done]. rewrite bind_of_Ok.
  apply assign_slice_kept.
Qed.

Lemma copy_bits_kept name source m m' : copy_bits name source m = Ok m' -> kept m m'.
Proof.
  unfold copy_bits, subscript. destruct (m !! name) as [t|] eqn:Et; [|done]. rewrite bind_of_Ok.
  destruct (deref m source); [|done]. rewrite bind_of_Ok. apply (store_loop_kept _ _ _ _ _ _ (mb_length t)); [|by rewrite Et].
  intros t0 i v t' Ht0 _ _. by apply mb_setitem_kept.
Qed.

Lemma set_bit_kept m name t i v t' : m !! name = Some t -> set_bit t i v = Ok t' -> kept m (<[name := t']> m).
Proof.
  intros Et E. apply (kept_insert _ _ t t' Et). intros Ht. unfold set_bit in E. destruct (_ && _); [by eapply mb_setitem_kept|].
  by injection E as <-.
Qed.

(** ** Code that respects a relation *)

Section respects.
Context {P : Type} (R : store -> store -> Prop) `{!PreOrder R}.

Definition respects {A} (m : I P A) : Prop := forall s, R (booleans (env s)) (booleans (env (m s).1)).

Lemma respects_same {A} (m : I P A) : (forall s, booleans (env (m s).1) = booleans (env s)) -> respects m.
Proof. intros H s. by rewrite H. Qed.

Lemma respects_ret {A} (a : A) : respects (mret a).
Proof. by apply respects_same. Qed.
Lemma respects_raise {A} e : respects (raise (A := A) e).
Proof. by apply respects_same. Qed.
Lemma respects_ask {A} (f : vars -> result A) : respects (ask f).
Proof. by apply respects_same. Qed.
Lemma respects_get {A} (f : interp P -> A) : respects (get f).
Proof. by apply respects_same. Qed.
Lemma respects_call {A} (f : method P A) : respects (call f).
Proof. apply respects_same. intros s. unfold call. by destruct (f (player s)). Qed.
Lemma respects_update f : (forall s, booleans (env (f s)) = booleans (env s)) -> respects (update f).
Proof. intros H. apply respects_same. exact H. Qed.
Lemma respects_bind {A B} (m : I P A) (k : A -> I P B) : respects m -> (forall a, respects (k a)) -> respects (m ≫= k).
Proof.
  intros Hm Hk s. unfold mbind, I_bind. specialize (Hm s). destruct (m s) as [s1 [a|e]]; [|done]. cbn [fst] in Hm.
  etransitivity; [exact Hm|]. apply Hk.
Qed.
Lemma respects_on_booleans f : (forall m m', f m = Ok m' -> R m m') -> respects (on_booleans f).
Proof. intros Hf s. unfold on_booleans. destruct (f (booleans (env s))) eqn:E; [by apply Hf|done]. Qed.
(** The Boolean variables as they are, read before they are changed. *)
Lemma respects_get_env {A} (k : vars -> I P A) :
  (forall s, R (booleans (env s)) (booleans (env (k (env s) s).1))) -> respects (get env ≫= k).
Proof. intros H s. rewrite bind_get. apply H. Qed.

Lemma at_ask {A B} (f : vars -> result A) (k : A -> I P B) s :
  (forall a, f (env s) = Ok a -> R (booleans (env s)) (booleans (env (k a s).1))) ->
  R (booleans (env s)) (booleans (env ((ask f ≫= k) s).1)).
Proof. intros H. unfold mbind, I_bind, ask. destruct (f (env s)) eqn:E; [by apply H|done]. Qed.
Lemma at_on_booleans f (s : interp P) :
  (forall m', f (booleans (env s)) = Ok m' -> R (booleans (env s)) m') -> R (booleans (env s)) (booleans (env (on_booleans f s).1)).
Proof. intros H. unfold on_booleans. destruct (f (booleans (env s))); [by apply H|done]. Qed.

Lemma respects_ask_opt {A} (f : vars -> expr -> result A) e : respects (ask_opt f e).
Proof. destruct e; cbn [ask_opt]; [apply respects_bind; [apply respects_ask|intros; apply respects_ret]|apply respects_ret]. Qed.

End respects.

Lemma respects_mono {P A : Type} (R R' : store -> store -> Prop) (m : I P A) :
  (forall m m', R m m' -> R' m m') -> respects R m -> respects R' m.
Proof. intros H Hm s. apply H, Hm. Qed.

Create HintDb stapl_types.
#[export] Hint Resolve respects_ret respects_raise respects_ask respects_get respects_call respects_ask_opt : stapl_types.
#[export] Hint Resolve set_subrange_kept copy_bits_kept : stapl_types.

Ltac respects :=
  repeat first
    [ solve [eauto with stapl_types typeclass_instances]
    | apply respects_update; [typeclasses eauto|intros; reflexivity]
    | apply respects_on_booleans; [typeclasses eauto|solve [eauto with stapl_types]]
    | apply respects_bind; [typeclasses eauto| |intros]
    | progress cbv zeta
    | case_match ].

Section kept.
Context {P : Type} (D : StaplPlayer P).

Lemma kept_set_first name v : respects kept (set_first (P := P) name v).
Proof.
  apply respects_on_booleans; [typeclasses eauto|]. intros m m'. unfold subscript.
  destruct (m !! name) as [t|] eqn:Et; [|done]. rewrite bind_of_Ok. destruct (mb_setitem t 0 v) as [t'|] eqn:E; [|done].
  intros [= <-]. apply (kept_insert _ _ t t' Et). intros Ht. by apply (mb_setitem_kept t 0 v).
Qed.
Hint Resolve kept_set_first : stapl_types.

(** From one state to any. *)
Ltac anywhere :=
  match goal with
  | |- kept (booleans (env ?s)) (booleans (env (?m ?s).1)) => refine ((_ : respects kept m) s)
  end.

Lemma kept_set_bit_at name idx v (s : interp P) t :
  booleans (env s) !! name = Some t ->
  kept (booleans (env s)) (booleans (env (on_booleans (P := P) (fun m => t ← set_bit t idx v; Ok (<[name := t]> m)) s).1)).
Proof.
  intros Et. apply at_on_booleans; [typeclasses eauto|]. intros m'. destruct (set_bit t idx v) as [t'|] eqn:E; [|done].
  intros [= <-]. by apply (set_bit_kept _ _ t idx v).
Qed.

Lemma kept_integer_decl name size init : respects kept (exec_integer_decl (P := P) name size init).
Proof. unfold exec_integer_decl. respects. Qed.

Lemma kept_assign name idx high low value : respects kept (exec_assign (P := P) name idx high low value).
Proof.
  unfold exec_assign. destruct high as [high|], low as [low|]; [respects|..].
  all: apply respects_get_env; intros s; destruct idx as [idx|]; [|anywhere; respects].
  all: apply at_ask; [typeclasses eauto|]; intros i _.
  all: destruct (integers (env s) !! name) as [[|]|]; [anywhere; respects..|].
  all: destruct (booleans (env s) !! name) as [t|] eqn:Et; [|anywhere; respects].
  all: apply at_ask; [typeclasses eauto|]; intros v _; by apply kept_set_bit_at.
Qed.

Lemma kept_pop_to target idx val : respects kept (exec_pop_to (P := P) target idx val).
Proof. unfold exec_pop_to. respects. Qed.

Lemma kept_store_bits target source : respects kept (store_bits (P := P) target source).
Proof. unfold store_bits. respects. Qed.

Lemma kept_store_bool_result target value : respects kept (store_bool_result (P := P) target value).
Proof.
  unfold store_bool_result. destruct target; try solve [respects].
  apply respects_bind; [typeclasses eauto|respects|intros i]. apply respects_get_env. intros s.
  destruct (booleans (env s) !! name) as [t|] eqn:Et; [by apply kept_set_bit_at|]. anywhere. respects.
Qed.

Lemma kept_next var pc : respects kept (exec_next (P := P) var pc).
Proof. unfold exec_next. respects. Qed.

Hint Resolve kept_integer_decl kept_assign kept_pop_to kept_store_bits kept_store_bool_result kept_next : stapl_types.

Lemma kept_finish_scan n capture compare mask vresult tdo :
  respects kept (finish_scan (P := P) n capture compare mask vresult tdo).
Proof. unfold finish_scan. respects. Qed.
Hint Resolve kept_finish_scan : stapl_types.

Lemma kept_scan sc is_ir : respects kept (exec_scan D sc is_ir).
Proof. unfold exec_scan. respects. Qed.

Lemma kept_vector dir_vec in_vec capture compare mask vresult :
  respects kept (exec_vector D dir_vec in_vec capture compare mask vresult).
Proof. unfold exec_vector. respects. Qed.

Lemma kept_pad_of count data : respects kept (pad_of (P := P) count data).
Proof. unfold pad_of. respects. Qed.
Hint Resolve kept_scan kept_vector kept_pad_of : stapl_types.

(** Every statement but the declaration of a Boolean variable. *)
Definition declares_boolean (st : stmt) : bool := match st with BooleanDecl _ _ _ => true | _ => false end.

Lemma kept_simple st pc : declares_boolean st = false -> respects kept (exec_simple D st pc).
Proof. intros Hst. destruct st; try done; cbn [exec_simple]; respects. Qed.

Lemma typed_simple_kept st pc : declares_boolean st = false -> respects typed (exec_simple D st pc).
Proof. intros Hst. by eapply respects_mono, kept_simple; [apply kept_typed|]. Qed.

(** ** Declarations *)

(** The bytes of a literal are bytes. *)
Definition literal_typed (b : boolean_literal) : Prop := forall d, boolean_bytes b = Ok d -> bytes_ok d.

Fixpoint stmt_typed (st : stmt) : Prop :=
  match st with
  | BooleanDecl _ _ (Some (BooleanLiteral b)) => literal_typed b
  | IfStmt _ st => stmt_typed st
  | _ => True
  end.

Lemma typed_declare name value size :
  match value with ABytes d => bytes_ok d | AInt _ => True | ABase _ => False end ->
  respects typed (declare_boolean (P := P) name value size).
Proof.
  intros Hv s Hm. unfold declare_boolean, mbind, I_bind, ask.
  destruct (mb_init (Some value) (Some size)) as [m|e] eqn:E; [|done]. cbn. apply booleans_ok_insert; [done|].
  destruct value as [z|d|b]; [|by apply (mb_init_bytes_ok d size)|done].
  destruct (Z.le_gt_cases 0 size) as [H0|H0].
  - destruct (mb_init_spec (AInt z) (Some size) H0) as (m'&E'&Hok&_). congruence.
  - unfold mb_init, bs_init in E. by rewrite (proj2 (Z.ltb_lt _ _)) in E.
Qed.

Lemma typed_boolean_decl name size init :
  stmt_typed (BooleanDecl name size init) -> respects typed (exec_boolean_decl (P := P) name size init).
Proof.
  intros Ht. unfold exec_boolean_decl. destruct size as [size|].
  - apply respects_bind; [typeclasses eauto|respects|intros n]. destruct init as [e|]; [|by apply typed_declare].
    destruct e; try by apply typed_declare. intros s Hm. unfold mbind, I_bind, ask.
    destruct (boolean_bytes b) as [d|err] eqn:E; [|done]. apply typed_declare; [by apply Ht|done].
  - apply respects_bind; [typeclasses eauto|respects|intros []].
    destruct init as [e|]; [|by apply typed_declare]. apply respects_bind; [typeclasses eauto|respects|intros v].
    by apply typed_declare.
Qed.

Lemma typed_simple st pc : stmt_typed st -> respects typed (exec_simple D st pc).
Proof.
  intros Ht. destruct (declares_boolean st) eqn:E; [|by apply typed_simple_kept]. destruct st; try done.
  by apply typed_boolean_decl.
Qed.

Lemma typed_declarations l : Forall stmt_typed l -> respects typed (exec_declarations (P := P) l).
Proof.
  induction 1 as [|st l Hst _ IH]; cbn [exec_declarations]; [respects|].
  apply respects_bind; [typeclasses eauto| |intros; apply IH]. destruct st; try solve [respects].
  - eapply respects_mono; [apply kept_typed|]. apply kept_integer_decl.
  - by apply typed_boolean_decl.
Qed.

(** ** Programs *)

Context (prog : Program).

Record program_typed : Prop := {
  pt_procedures : forall name p, procedures prog !! name = Some p -> Forall stmt_typed (statements p);
  pt_data : forall name l, data_blocks prog !! name = Some l -> Forall stmt_typed l;
}.

Context (Hprog : program_typed).

Lemma typed_uses l : respects typed (init_uses (P := P) prog l).
Proof.
  induction l as [|name l IH]; cbn [init_uses]; [respects|]. apply respects_bind; [typeclasses eauto| |done].
  case_bool_decide; [|respects]. unfold init_data_block. apply respects_bind; [typeclasses eauto|respects|intros done].
  case_bool_decide; [respects|]. apply respects_bind; [typeclasses eauto|respects|intros []].
  intros s. apply at_ask; [typeclasses eauto|]. intros block Hb. apply typed_declarations.
  unfold subscript in Hb. destruct (data_blocks prog !! upper name) as [l'|] eqn:El; [|done]. injection Hb as <-.
  by apply (pt_data Hprog (upper name)).
Qed.

Lemma typed_run fuel :
  (forall st pc proc, stmt_typed st -> respects typed (execute_stmt D prog fuel st pc proc))
  /\ (forall name, respects typed (execute_procedure D prog fuel name))
  /\ (forall proc pc, Forall stmt_typed (statements proc) -> respects typed (run_from D prog fuel proc pc)).
Proof.
  induction fuel as [|fuel (Hstmt&Hproc&Hrun)]; [split_and!; intros; apply respects_raise; typeclasses eauto|]. split_and!.
  - intros st pc proc Hst.
    assert (respects typed (_ ← exec_simple D st pc; mret (pc + 1))) as Hs.
    { apply respects_bind; [typeclasses eauto|by apply typed_simple|intros; respects]. }
    destruct st; try exact Hs; cbn [execute_stmt].
    + respects.
    + apply respects_bind; [typeclasses eauto|respects|intros []].
      apply respects_bind; [typeclasses eauto|apply Hproc|intros; respects].
    + respects.
    + apply respects_bind; [typeclasses eauto|respects|intros c]. destruct (negb _); [by apply Hstmt|respects].
    + eapply respects_mono; [apply kept_typed|apply kept_next].
  - intros name. cbn [execute_procedure]. destruct (procedures prog !! upper name) as [proc|] eqn:E; [|respects].
    apply respects_bind; [typeclasses eauto|apply typed_uses|intros []]. apply Hrun. by apply (pt_procedures Hprog (upper name)).
  - intros proc pc Hp. cbn [run_from]. destruct (pc <? _); [|respects]. intros s. apply at_ask; [typeclasses eauto|].
    intros st Hst. refine ((_ : respects typed _) s). apply respects_bind; [typeclasses eauto| |intros; by apply Hrun].
    apply Hstmt. rewrite Forall_forall in Hp. apply Hp. by apply index_elem_of in Hst.
Qed.

Lemma typed_execute fuel action include exclude : respects typed (execute D prog fuel action include exclude).
Proof.
  unfold execute. destruct (actions prog !! upper action) as [l|]; [|respects]. intros s.
  assert (forall l, respects typed (call_all D prog fuel l)) as Hall.
  { induction l0 as [|name l0 IH]; cbn [call_all]; [respects|]. apply respects_bind; [typeclasses eauto|apply typed_run|done]. }
  specialize (Hall (procs_to_call include exclude l) s). destruct (call_all _ _ _ _ s) as [s' [[]|e]]; [done|]. by destruct e.
Qed.

End kept.

(** ** Property *)

(** C17: Whatever an action does and however it ends, every Boolean variable is
    a bit array of exactly its size, with nothing stored past its last bit; and a
    statement that is not a Boolean declaration keeps the size of each one. *)
Theorem stapl_arrays_typed {P : Type} (D : StaplPlayer P) prog fuel action include exclude st pc s :
  program_typed prog -> booleans_ok (booleans (env s)) ->
  booleans_ok (booleans (env (execute D prog fuel action include exclude s).1))
  /\ (declares_boolean st = false -> forall name,
      mb_length <$> booleans (env (exec_simple D st pc s).1) !! name = mb_length <$> booleans (env s) !! name).
Proof.
  intros Hp Hs. split; [by apply typed_execute|]. intros Hst. by apply (kept_simple D st pc Hst s).
Qed.

(** A program with a declared array, copied within itself. *)
Definition sample_program : Program :=
  mkProgram {[lit "GO" := [(lit "MAIN", Required)]]}
    {[lit "MAIN" := mkProcedure (lit "MAIN") [lit "STORE"]
        [AssignStmt (lit "A") None (Some (IntLiteral 7)) (Some (IntLiteral 4)) (ArraySubrange (lit "A") (IntLiteral 3) (IntLiteral 0));
         ExitStmt (IntLiteral 3)] ∅]}
    {[lit "STORE" := [BooleanDecl (lit "A") (Some (IntLiteral 8)) (Some (BooleanLiteral (mkBoolean (Decoded [0xA5]) 8)))]]}.

Lemma stapl_arrays_typed_witness :
  let prog := sample_program in
  program_typed prog
  /\ booleans_ok (booleans (env (execute loopback prog 9 (lit "go") ∅ ∅ (new_interp tt)).1))
  /\ (execute loopback prog 9 (lit "go") ∅ ∅ (new_interp tt)).2 = Ok 3.
Proof.
  intros prog. assert (program_typed prog) as Hp.
  { split.
    - intros name p H. cbn [procedures prog sample_program] in H. apply lookup_singleton_Some in H as [_ <-]. repeat constructor.
    - intros name l H. cbn [data_blocks prog sample_program] in H. apply lookup_singleton_Some in H as [_ <-]. constructor; [|constructor]. intros d [= <-]. by repeat constructor. }
  split_and!; [done| |vm_compute; reflexivity].
  apply (stapl_arrays_typed loopback prog 9 (lit "go") ∅ ∅ ReturnStmt 0 (new_interp tt) Hp). apply map_Forall_empty.
Defined.
