(* ===== verification/StaplJtag.v ===== *)
(** * The STAPL player of a JTAG interface (src/acrobe/stapl/player.py)

    [JtagPlayer] turns the scans of a program into JTAG operations.  The
    interface it drives, a batcher of the tree, is a parameter: a function that
    runs one operation, with its own state; so is the clock [asyncio.sleep]
    waits on. *)

From Stdlib Require Import Ascii String.
From stdpp Require Import gmap.
From S2P Require Import Prelude BitString BitVec JtagTap PyText Aca StaplExpr StaplEval StaplExec.

Open Scope Z_scope.

(** What [post] gives: the bits read, for a shift that reads. *)
Record Interface (T : Type) := mkInterface {
  post : op base -> method T (option base);
  sleep_us : Z -> method T unit;
}.
Arguments post {T} _. Arguments sleep_us {T} _.

Record jtag_player (T : Type) := mkJtagPlayer {
  iface : T;
  started : bool;
}.
Arguments mkJtagPlayer {T} _ _. Arguments iface {T} _. Arguments started {T} _.

Section player.
Context {T : Type} (J : Interface T).

Definition J_ (A : Type) : Type := method (jtag_player T) A.

#[local] Instance J_ret : MRet J_ := fun A a p => (p, Ok a).
#[local] Instance J_bind : MBind J_ :=
  fun A B f m p => match m p with (p, Ok a) => f a p | (p, Err e) => (p, Err e) end.

Definition do_post (o : op base) : J_ (option base) :=
  fun p => let '(t, r) := post J o (iface p) in (mkJtagPlayer t (started p), r).
Definition do_sleep (us : Z) : J_ unit :=
  fun p => let '(t, r) := sleep_us J us (iface p) in (mkJtagPlayer t (started p), r).
Definition pure_ {A} (r : result A) : J_ A := fun p => (p, r).

(** The bits of a scan: [pre], the scan's own, [post]. *)
Definition combine (length : Z) (tdi : list Z) (pre post : Z * list Z) : result BitString :=
  let '(pre_bits, pre_data) := pre in
  let '(post_bits, post_data) := post in
  combined ← (if pre_bits =? 0 then Ok bs_empty else append bs_empty (ABytes pre_data) (Some pre_bits));
  combined ← append combined (ABytes tdi) (Some length);
  if post_bits =? 0 then Ok combined else append combined (ABytes post_data) (Some post_bits).

(** The window of the scan in what was read. *)
Definition extract (total pre_bits length : Z) (tdo : option base) : result (list Z) :=
  match tdo with
  | None => Err AttributeError
  | Some tdo =>
      d ← base_data tdo;
      tdo_bits ← bs_init (Some (ABytes (slice_to d ((total + 7) / 8)))) (Some total);
      base_data (getitem_slice (SrcStr tdo_bits) (Some pre_bits) (Some (pre_bits + length)))
  end.

(** The capture and the shift of a scan. *)
Definition scan_body (capture_op : op base) (length : Z) (combined : BitString) (pre_bits : Z) (capture : bool)
    : J_ (option (list Z)) :=
  _ ← do_post capture_op;
  tdo ← do_post (Shift (BStr combined) capture 0);
  _ ← do_post (Run 1);
  if capture then d ← pure_ (extract (bs_length combined) pre_bits length tdo); mret (Some d) else mret None.

(** The first instruction scan begins with an idle clock. *)
Definition mark_started : J_ unit := fun p => (mkJtagPlayer (iface p) true, Ok tt).
Definition ensure_started : J_ unit :=
  fun p => if started p then (p, Ok tt) else (do_post (Run 1) ≫= fun _ => mark_started) p.

(** [JtagPlayer.ir_scan] *)
Definition jtag_ir_scan (length : Z) (tdi : list Z) (pre post : Z * list Z) (capture : bool) : J_ (option (list Z)) :=
  combined ← pure_ (combine length tdi pre post);
  _ ← ensure_started;
  scan_body CaptureIr length combined pre.1 capture.

(** [JtagPlayer.dr_scan] *)
Definition jtag_dr_scan (length : Z) (tdi : list Z) (pre post : Z * list Z) (capture : bool) : J_ (option (list Z)) :=
  combined ← pure_ (combine length tdi pre post);
  scan_body CaptureDr length combined pre.1 capture.

(** [JtagPlayer.state] *)
Definition jtag_state (target : ident) (path : option (list ident)) : J_ unit :=
  _ ← do_post (Run (if bool_decide (upper target = lit "RESET") then 5 else 1)); mret tt.

(** [JtagPlayer.wait] *)
Definition jtag_wait (wait_state : option ident) (cycles usecs : option Z) (end_state : option ident) : J_ unit :=
  let named (s : option ident) := match s with Some (_ :: _) => true | _ => false end in
  _ ← (if named wait_state then jtag_state (default [] wait_state) None else mret tt);
  _ ← (if default 0 cycles =? 0 then mret tt else (_ ← do_post (Run (default 0 cycles)); mret tt));
  _ ← (if default 0 usecs =? 0 then mret tt else do_sleep (default 0 usecs));
  if named end_state && negb (bool_decide (end_state = wait_state)) then jtag_state (default [] end_state) None else mret tt.

(** [JtagPlayer.trst] *)
Definition jtag_trst (cycles usecs : option Z) : J_ unit := _ ← do_post (Run 5); mret tt.

(** The class: [note] and [export] only print, [frequency] does nothing, [vector]
    is not implemented. *)
Definition JtagPlayer : StaplPlayer (jtag_player T) :=
  mkPlayer (jtag_player T) jtag_ir_scan jtag_dr_scan jtag_state jtag_wait jtag_trst
    (fun _ => mret tt) (fun _ => mret tt) (fun _ _ => mret tt) (fun _ _ _ => pure_ (Err AssertionError)).

End player.

(** ** What the chain sees *)

Lemma extract_spec total pre_bits length b :
  base_wf b -> base_len b = total -> 0 <= pre_bits -> 0 <= length -> pre_bits + length <= total ->
  extract total pre_bits length (Some b) = Ok (pack (slice (base_bits b) pre_bits (pre_bits + length))).
Proof.
  intros Hb Hl Hp Hn Ht. unfold extract. pose proof (length_base_bits b (proj1 Hb)) as Hlb.
  rewrite base_data_spec, bind_of_Ok by done. set (d := pack (base_bits b)).
  destruct (pack_clean_bytes (base_bits b)) as [Hc Hbits]. fold d in Hc, Hbits. rewrite Hlb, Hl in Hc, Hbits.
  destruct Hc as (Hd&_&Hsz&Hclean). rewrite slice_to_nonneg by div_lia.
  rewrite take_ge by (unfold byte_count in Hsz; lia).
  destruct (bs_init_spec (ABytes d) (Some total)) as (t&->&Htc&Htb); [by split_and!; [|lia|..]|]. rewrite bind_of_Ok.
  cbn [arg_bits] in Htb. rewrite Hbits in Htb.
  assert (bs_length t = total) as Htl by (rewrite <- (length_bits t (proj1 Htc)), Htb; lia).
  destruct (getitem_slice_spec (SrcStr t) (Some pre_bits) (Some (pre_bits + length)) pre_bits (pre_bits + length)) as [Hw Hs].
  { apply Htc. }
  { unfold slice_range. cbn [source_length]. rewrite !(proj2 (Z.ltb_ge _ _)), Htl by lia. f_equal; lia. }
  rewrite base_data_spec by done. rewrite Hs. cbn [source_bits]. by rewrite Htb.
Qed.

Lemma combine_spec length tdi pre post :
  clean_bytes tdi length -> clean_bytes pre.2 pre.1 -> clean_bytes post.2 post.1 ->
  exists s, combine length tdi pre post = Ok s /\ clean s
    /\ BitString.bits s = bits_raw pre.2 pre.1 ++ bits_raw tdi length ++ bits_raw post.2 post.1.
Proof.
  intros Ht Hpre Hpost. destruct pre as [pn pd], post as [qn qd]. cbn [fst snd] in *. unfold combine.
  assert (forall s d n, clean s -> clean_bytes d n ->
    exists s', (if n =? 0 then Ok s else append s (ABytes d) (Some n)) = Ok s' /\ clean s' /\ BitString.bits s' = BitString.bits s ++ bits_raw d n) as Happ.
  { intros s d n Hs Hd. destruct (Z.eqb_spec n 0) as [->|Hn].
    - exists s. split_and!; [done..|]. by rewrite app_nil_r.
    - apply (append_spec s (ABytes d) (Some n) Hs Hd). }
  destruct clean_empty as [He Heb]. destruct (Happ bs_empty pd pn He Hpre) as (s1&->&H1&Hb1). rewrite bind_of_Ok.
  destruct (append_spec s1 (ABytes tdi) (Some length) H1 Ht) as (s2&->&H2&Hb2). rewrite bind_of_Ok.
  destruct (Happ s2 qd qn H2 Hpost) as (s3&->&H3&Hb3). exists s3. split_and!; [done..|].
  rewrite Hb3, Hb2, Hb1, Heb. cbn [arg_bits app]. by rewrite <- app_assoc.
Qed.

(** An interface that keeps what it is asked to do, and answers a shift with the
    bits [resp] gives. *)
Definition recording (resp : BitString -> base) : Interface (list (op base)) :=
  mkInterface _
    (fun o l => (l ++ [o], Ok (match o with Shift (BStr b) true _ => Some (resp b) | _ => None end)))
    (fun _ l => (l, Ok tt)).



(** A scan whose bits come as more bytes than it has bits is not followed by its
    padding: the four high bits shifted are those of TDI, not ones. *)
Theorem overlong_tdi_loses_padding :
  exists b, combine 4 [0x05; 0; 0; 0] (0, []) (4, [0x0F]) = Ok b
    /\ BitString.bits b = bits_of 4 0x05 ++ replicate 4 false.
Proof. eexists. split; vm_compute; reflexivity. Qed.

(** STATE RESET runs idle clocks: the controller is never reset. *)
Theorem state_reset_idles p :
  jtag_state (recording BStr) (lit "RESET") None (mkJtagPlayer [] true) = (mkJtagPlayer [Run 5] true, Ok tt)
  /\ (exists es p', transact_all p [Run (V := base) 5] = Some (es, p') /\ EReset ∉ es).
Proof.
  split; [reflexivity|]. destruct p as [| |x]; eexists _, _; (split; [reflexivity|]); cbn; set_solver.
Qed.
