(* ===== verification/StaplProgram.v ===== *)
(** * From text to the chain

    A STAPL file read by the lexer and the parser, run by the interpreter, its
    scans sent to a JTAG interface. *)

From Stdlib Require Import Ascii String.
From stdpp Require Import gmap.
From S2P Require Import Prelude BitString BitVec JtagTap PyText Aca StaplExpr StaplLexer StaplEval StaplExec StaplParser StaplBits StaplJtag.

Open Scope Z_scope.

(** [load]: a file, read. *)
Definition load_program (source : list Z) : result Program :=
  l ← tokenize false source; p ← parse l; Ok (program p).

(** Running an action of a file on a JTAG interface. *)
Definition play {T : Type} (J : Interface T) (fuel : nat) (source : list Z) (action : ident) (t : T)
    : result (interp (jtag_player T) * result Z) :=
  prog ← load_program source;
  Ok (execute (JtagPlayer J) prog fuel action ∅ ∅ (new_interp (mkJtagPlayer t false))).

Definition quoted (s : string) : list Z := [QUOTE] ++ lit s ++ [QUOTE].
Definition lines (l : list (list Z)) : list Z := l ≫= fun t => t ++ [NL].

(** Reading an identification code behind a bypassed device, and checking it. *)
Definition idcode_source : list Z :=
  lines [
    lit "NOTE " ++ quoted "CREATOR" ++ lit " " ++ quoted "sample" ++ lit ";";
    lit "ACTION READ = SETUP, DO_READ RECOMMENDED;";
    lit "DATA STORE;";
    lit "  BOOLEAN ID[8] = $00;   ' the code read";
    lit "  BOOLEAN OK;";
    lit "ENDDATA;";
    lit "PROCEDURE SETUP;";
    lit "  PREIR 2; POSTDR 1; IRSCAN 4, #0010;";
    lit "ENDPROC;";
    lit "PROCEDURE DO_READ USES STORE;";
    lit "  INTEGER I;";
    lit "  FOR I = 1 TO 2;";
    lit "    DRSCAN 8, $A5, CAPTURE ID[7..0], COMPARE $05, $0F, OK;";
    lit "    IF OK == 0 THEN GOTO FAILED;";
    lit "  NEXT I;";
    lit "  EXIT I + 40;";
    lit "FAILED: EXIT 1;";
    lit "ENDPROC;";
    lit "CRC 0;" ].

Example idcode_runs :
  exists s, play (recording BStr) 20 idcode_source (lit "read") [] = Ok (s, Ok 42)
    /\ mb_bits <$> booleans (env s) !! lit "ID" = Some (bits_of 8 0xA5)
    /\ transact_all PIdle (iface (player s))
       = Some ([EIdle; ECapture IR] ++ (EShift IR <$> [true; true] ++ bits_of 4 2) ++ [EUpdate IR; EIdle]
               ++ concat (replicate 2 ([ECapture DR] ++ (EShift DR <$> bits_of 8 0xA5 ++ [true]) ++ [EUpdate DR; EIdle])), PIdle).
Proof.
  eexists. split; [vm_compute; reflexivity|]. split; vm_compute; reflexivity.
Qed.
