(* ===== verification/ArmDp.v ===== *)
(** * ARM debug ports (src/acrobe/component/arm/dp.py)

    The operations a debug port executes, and what they mean: each AP access is
    one access of the register at its address in the system behind the port,
    each DP access one of the port's own register.  The system is an interface,
    [System]: an access may fault, and the debug port's registers are the
    system's too, except the ones the wire protocols use themselves (SELECT,
    SELECT1, RDBUFF, ABORT).  [SwDp] and [JtagDp] implement the operations over
    their wires; [MemAp] is a client. *)

From S2P Require Import Prelude.

(** ** Operations *)

Inductive dp_op : Type :=
  | ApRead (addr : Z) | ApWrite (addr data : Z)
  | DpRead (addr : Z) | DpWrite (addr data : Z)
  | Abort (what : Z) | Run (cycles : Z).

#[global] Instance dp_op_eq_dec : EqDecision dp_op.
Proof. solve_decision. Defined.

(** Register offsets; bits 4 to 7 are the bank. *)
Definition DPIDR : Z := 0x00.
Definition CTRL_STAT : Z := 0x04.
Definition DLCR : Z := 0x14.
Definition DPIDR1 : Z := 0x10.
Definition BASEPTR0 : Z := 0x20.
Definition TARGETID : Z := 0x24.
Definition BASEPTR1 : Z := 0x30.
Definition SELECT1 : Z := 0x54.
Definition TARGETID1 : Z := 0x64.
Definition SELECT : Z := 0x08.
Definition RDBUFF : Z := 0x0c.

(** Bits of CTRL/STAT and of ABORT. *)
Definition STICKYORUN : Z := Z.shiftl 1 1.
Definition STICKYCMP : Z := Z.shiftl 1 4.
Definition STICKYERR : Z := Z.shiftl 1 5.
Definition STICKY_MASK : Z := Z.lor (Z.lor STICKYORUN STICKYCMP) STICKYERR.
Definition STKERRCLR : Z := Z.shiftl 1 2.
Definition PWRUP_ACK_MASK : Z := Z.lor (Z.shiftl 1 29) (Z.shiftl 1 31).
Definition PWRUP_REQ_MASK : Z := Z.lor (Z.shiftl 1 28) (Z.shiftl 1 30).
Definition ABORT_ALL : Z := 0x1f.

(** ** The system behind a port

    [None] is an access that faults. *)
Class System (S : Type) : Type := {
  ap_read : S -> Z -> option (S * Z);
  ap_write : S -> Z -> Z -> option S;
  dp_read : S -> Z -> Z;
  dp_write : S -> Z -> Z -> S;
  dp_abort : S -> Z -> S;
}.

(** What the future of an operation resolves to: an integer for a read. *)
Definition exec_dp {S} `{System S} (s : S) (o : dp_op) : option (S * option Z) :=
  match o with
  | ApRead a => '(s, v) ← ap_read s a; Some (s, Some v)
  | ApWrite a d => s ← ap_write s a d; Some (s, None)
  | DpRead a => Some (s, Some (dp_read s a))
  | DpWrite a d => Some (dp_write s a d, None)
  | Abort w => Some (dp_abort s w, None)
  | Run _ => Some (s, None)
  end.

Fixpoint exec_dps {S} `{System S} (s : S) (l : list dp_op) : option (S * list (option Z)) :=
  match l with
  | [] => Some (s, [])
  | o :: l => '(s, v) ← exec_dp s o; '(s, vs) ← exec_dps s l; Some (s, v :: vs)
  end.

(** ** Addresses *)

(** The version of the architecture and the size of its addresses, as
    [Dp.start] stores them: ADIv5, ADIv6 with addresses of 32 bits, and with
    more. *)
Inductive adi : Type := V5 | V6 | V6Large.

#[global] Instance adi_eq_dec : EqDecision adi.
Proof. solve_decision. Defined.

Definition word_aligned (a : Z) : Prop := Z.land a 3 = 0.

(** The addresses an AP access can name: on ADIv5 an AP number in bits 24 to
    31 and a register offset below 0x100. *)
Definition ap_addr_ok (v : adi) (a : Z) : Prop :=
  word_aligned a /\
  match v with
  | V5 => 0 <= a < 2 ^ 32 /\ Z.land a 0x00ffff00 = 0
  | V6 => 0 <= a < 2 ^ 32
  | V6Large => 0 <= a < 2 ^ 64
  end.

(** The registers of the port that are not the wire protocol's own. *)
Definition dp_addr_ok (a : Z) : Prop := 0 <= a < 256 /\ word_aligned a.

Definition dp_op_ok (v : adi) (o : dp_op) : Prop :=
  match o with
  | ApRead a => ap_addr_ok v a
  | ApWrite a d => ap_addr_ok v a /\ 0 <= d < 2 ^ 32
  | DpRead a => dp_addr_ok a /\ Z.land a 8 = 0
  | DpWrite a d => dp_addr_ok a /\ Z.land a 0xc = 4 /\ a <> SELECT1 /\ 0 <= d < 2 ^ 32
  | Abort _ | Run _ => True
  end.

(** ** Sequences *)

Section Sequences.
Context {S} `{System S}.

Lemma exec_dps_cons s o l s' vs :
  exec_dps s (o :: l) = Some (s', vs) <->
  exists s1 v vs', exec_dp s o = Some (s1, v) /\ exec_dps s1 l = Some (s', vs') /\ vs = v :: vs'.
Proof.
  cbn [exec_dps]. split.
  - intros ([s1 v]&E&([s2 vs']&E'&[= <- <-])%bind_Some)%bind_Some. by exists s1, v, vs'.
  - intros (s1&v&vs'&->&E&->). cbn. by rewrite E.
Qed.

Lemma exec_dps_app s l1 l2 s' vs :
  exec_dps s (l1 ++ l2) = Some (s', vs) <->
  exists s1 vs1 vs2, exec_dps s l1 = Some (s1, vs1) /\ exec_dps s1 l2 = Some (s', vs2) /\ vs = vs1 ++ vs2.
Proof.
  revert s vs. induction l1 as [|o l1 IH]; intros s vs.
  - cbn. split; [intros E; by exists s, [], vs|]. intros (s1&vs1&vs2&[= <- <-]&E&->). done.
  - rewrite <- app_comm_cons, exec_dps_cons. setoid_rewrite IH. setoid_rewrite exec_dps_cons. split.
    + intros (s1&v&vs'&E&(s2&vs1&vs2&E1&E2&->)&->). exists s2, (v :: vs1), vs2. split_and!; [|done|done].
      by exists s1, v, vs1.
    + intros (s2&vs1&vs2&(s1&v&vs'&E&E1&->)&E2&->). exists s1, v, (vs' ++ vs2). split_and!; [done| |done].
      by exists s2, vs', vs2.
Qed.

Lemma length_exec_dps s l s' vs : exec_dps s l = Some (s', vs) -> length vs = length l.
Proof.
  revert s vs. induction l as [|o l IH]; intros s vs; [by intros [= <- <-]|].
  rewrite exec_dps_cons. intros (s1&v&vs'&_&E&->). cbn. by rewrite (IH _ _ E).
Qed.
End Sequences.

(** ** Bit fields *)

(** The masks of the source as runs of ones. *)
Ltac field_masks :=
  repeat match goal with
  | |- context [0xFFFFFFF0] => change 0xFFFFFFF0 with (Z.shiftl (Z.ones 28) 4)
  | |- context [0xff000000] => change 0xff000000 with (Z.shiftl (Z.ones 8) 24)
  | |- context [Z.land _ 0xff] => change 0xff with (Z.ones 8)
  | |- context [Z.land _ 0xf0] => change 0xf0 with (Z.shiftl (Z.ones 4) 4)
  | |- context [Z.land _ 0xf] => change 0xf with (Z.ones 4)
  | |- context [Z.land _ 0xc] => change 0xc with (Z.shiftl (Z.ones 2) 2)
  end.

Lemma zero_field a n k i : Z.land a (Z.shiftl (Z.ones n) k) = 0 -> 0 <= n -> 0 <= k -> k <= i < k + n -> Z.testbit a i = false.
Proof.
  intros E Hn Hk Hi. apply (f_equal (fun z => Z.testbit z i)) in E. revert E.
  rewrite Z.land_spec, Z.shiftl_spec, testbit_ones_ltb, Z.bits_0, (proj2 (Z.ltb_lt _ _)) by lia.
  by rewrite andb_true_r.
Qed.

Lemma aligned_low a i : word_aligned a -> i < 2 -> Z.testbit a i = false.
Proof.
  intros Ha Hi. destruct (Z.le_gt_cases 0 i); [|by apply Z.testbit_neg_r].
  apply (zero_field a 2 0); [done|lia..].
Qed.

(** Bit by bit, with the bits of the masks and the low bits of an aligned
    address known. *)
Ltac mask_bits := field_masks; repeat (first
  [ rewrite Z.testbit_ones by lia | progress bit_rewrite | bit_above | bit_below
  | match goal with Ha : word_aligned ?a |- context [Z.testbit ?a ?i] => rewrite (aligned_low a i Ha) by lia end
  | bit_case ]); subst; try done; try lia; try btauto; try (f_equal; lia).

Ltac address_bits :=
  apply Z.bits_inj'; let i := fresh "i" in let Hi := fresh "Hi" in intros i Hi; mask_bits.

(** The register an access reaches through SELECT and SELECT1, given the address
    bits of the packet. *)
Definition ap_target (v : adi) (se se1 a : Z) : Z :=
  match v with
  | V5 => Z.lor (Z.lor (Z.land se 0xff000000) (Z.land se 0xf0)) a
  | V6 => Z.lor (Z.land se 0xFFFFFFF0) a
  | V6Large => Z.lor (Z.shiftl se1 32) (Z.lor (Z.land se 0xFFFFFFF0) a)
  end.

Definition dp_target (se a : Z) : Z := Z.lor (Z.shiftl (Z.land se 0xf) 4) a.

(** Selecting the upper bits of an address reaches it. *)
Lemma ap_target_selected v se se1 a :
  ap_addr_ok v a -> Z.land se 0xFFFFFFF0 = Z.land a 0xFFFFFFF0 -> (v = V6Large -> se1 = Z.shiftr a 32) ->
  ap_target v se se1 (Z.land a 0xc) = a.
Proof.
  intros [Ha Hr] Hse Hse1.
  assert (Hbits : forall i, 4 <= i < 32 -> Z.testbit se i = Z.testbit a i).
  { intros i Hi. apply (f_equal (fun z => Z.testbit z i)) in Hse. revert Hse. clear Hse1 Hr Ha. mask_bits. }
  unfold ap_target. destruct v; apply Z.bits_inj'; intros i Hi.
  - destruct Hr as [Hr Hmid]. change 0x00ffff00 with (Z.shiftl (Z.ones 16) 8) in Hmid.
    destruct (decide (8 <= i < 24)); [rewrite (zero_field a 16 8 i Hmid) by lia|].
    all: clear Hmid Hse Hse1; mask_bits; by rewrite Hbits by lia.
  - clear Hse Hse1. mask_bits; by rewrite Hbits by lia.
  - rewrite Hse1 by done. clear Hse Hse1. mask_bits; by rewrite Hbits by lia.
Qed.

Lemma dp_target_selected se a :
  dp_addr_ok a -> Z.land se 0xf = Z.land (Z.shiftr a 4) 0xf -> dp_target se (Z.land a 0xc) = a.
Proof.
  intros [Hr Ha] Hse. unfold dp_target. rewrite Hse. change 256 with (2 ^ 8) in Hr. clear Hse. address_bits.
Qed.

(** On ADIv5 the fields of an address are all of it. *)
Lemma ap_fields_v5 a x :
  ap_addr_ok V5 a ->
  Z.lor (Z.lor (Z.shiftl (Z.land (Z.shiftr a 24) 0xff) 24) (Z.shiftl (Z.land (Z.shiftr a 4) 0xf) 4)) x
  = Z.lor (Z.land a 0xFFFFFFF0) x.
Proof.
  intros (_&Hr&Hmid). change 0x00ffff00 with (Z.shiftl (Z.ones 16) 8) in Hmid. apply Z.bits_inj'. intros i Hi.
  assert (8 <= i < 24 -> Z.testbit a i = false) as Hz by (intros; apply (zero_field a 16 8 i Hmid); lia). clear Hmid.
  mask_bits; [do 2 f_equal; lia..|]. by rewrite Hz by lia.
Qed.

(** ** What a port promises

    The futures of a batch, by position.  A client is proved against
    [DebugPort]: on a batch of well-formed operations none of which faults, the
    system does what the operations say, and every future is settled, a read's
    with its value. *)

Abbreviation outcomes := (gmap nat (result (option Z))).

Definition answers (vs : list (option Z)) (m : outcomes) : Prop :=
  forall f x, vs !! f = Some x -> exists y, m !! f = Some (Ok y) /\ (x = None \/ y = x).

Class DebugPort (S P : Type) `{System S} : Type := {
  port_version : adi;
  port_flush : P -> list dp_op -> P * outcomes;
  port_sys : P -> S;
  port_ok : P -> Prop;
  port_refines : forall p batch s vs,
    port_ok p -> Forall (dp_op_ok port_version) batch -> exec_dps (port_sys p) batch = Some (s, vs) ->
    exists p' m, port_flush p batch = (p', m) /\ port_ok p' /\ port_sys p' = s /\ answers vs m;
}.

(** ** CTRL/STAT

    A port over JTAG writes the control bits of CTRL/STAT back to clear the
    sticky flags.  The flags are the port's, not the system's, and writing the
    bits a system holds changes nothing; registers are words. *)

Definition holds_ctrl {S} `{System S} (s : S) (x : Z) : Prop := dp_write s CTRL_STAT x = s.

Class WordSystem (S : Type) `{System S} : Prop := {
  ap_read_word : forall s a s' x, ap_read s a = Some (s', x) -> 0 <= x < 2 ^ 32;
  dp_read_word : forall s a, 0 <= dp_read s a < 2 ^ 32;
  no_sticky : forall s, Z.land (dp_read s CTRL_STAT) STICKYERR = 0;
  ctrl_masked : forall s x, dp_write s CTRL_STAT (Z.ldiff x STICKY_MASK) = dp_write s CTRL_STAT x;
  ctrl_written : forall s x, holds_ctrl (dp_write s CTRL_STAT x) x;
  ctrl_ap_read : forall s a s' x y, ap_read s a = Some (s', x) -> holds_ctrl s y -> holds_ctrl s' y;
  ctrl_ap_write : forall s a s' x y, ap_write s a x = Some s' -> holds_ctrl s y -> holds_ctrl s' y;
  ctrl_dp_write : forall s a x y, a <> CTRL_STAT -> holds_ctrl s y -> holds_ctrl (dp_write s a x) y;
  ctrl_abort : forall s x y, holds_ctrl s y -> holds_ctrl (dp_abort s x) y;
}.

(** ** A sample system

    Registers in two maps, and the control bits; one AP register cannot be
    accessed. *)

Record registers := mkRegisters { ap_regs : gmap Z Z; dp_regs : gmap Z Z; ctrl_bits : Z }.

Definition broken_register : Z := 0x02000004.

#[global] Instance registers_system : System registers := {
  ap_read s a := if a =? broken_register then None else Some (s, (ap_regs s !!! a) mod 2 ^ 32);
  ap_write s a x :=
    if a =? broken_register then None else Some (mkRegisters (<[a := x]> (ap_regs s)) (dp_regs s) (ctrl_bits s));
  dp_read s a := (if a =? CTRL_STAT then Z.ldiff (ctrl_bits s) STICKY_MASK else dp_regs s !!! a) mod 2 ^ 32;
  dp_write s a x :=
    if a =? CTRL_STAT then mkRegisters (ap_regs s) (dp_regs s) (Z.ldiff x STICKY_MASK)
    else mkRegisters (ap_regs s) (<[a := x]> (dp_regs s)) (ctrl_bits s);
  dp_abort s _ := s;
}.

#[global] Instance registers_word : WordSystem registers.
Proof.
  assert (Hidem : forall x, Z.ldiff (Z.ldiff x STICKY_MASK) STICKY_MASK = Z.ldiff x STICKY_MASK) by (intros; bitwise).
  assert (Hctrl : forall s y, holds_ctrl s y <-> Z.ldiff y STICKY_MASK = ctrl_bits s).
  { intros [a d c] y. unfold holds_ctrl. cbn. split; [by intros [= ->]|by intros ->]. }
  split.
  - intros s a s' x. cbn. destruct (_ =? _); [done|]. intros [= <- <-]. by apply Z.mod_pos_bound.
  - intros s a. by apply Z.mod_pos_bound.
  - intros s. cbn. change STICKYERR with (Z.shiftl 1 5).
    apply Z.bits_inj'. intros i Hi. rewrite Z.land_spec, Z.bits_0.
    destruct (decide (i = 5)) as [->|Hn].
    + rewrite testbit_mod_pow2, Z.ldiff_spec by lia. by rewrite andb_false_r.
    + apply andb_false_iff. right. change (Z.shiftl 1 5) with (2 ^ 5). apply Z.pow2_bits_false. lia.
  - intros s x. cbn. by rewrite Hidem.
  - intros s x. by apply Hctrl.
  - intros s a s' x y. cbn. destruct (_ =? _); [done|]. by intros [= <- <-].
  - intros s a s' x y. cbn. destruct (_ =? _); [done|]. rewrite !Hctrl. by intros [= <-].
  - intros s a x y Ha. rewrite !Hctrl. cbn. by rewrite (proj2 (Z.eqb_neq _ _)).
  - intros s x y. done.
Qed.

Definition sample_registers : registers :=
  mkRegisters (list_to_map [(0x010000fc, 0x24770011); (0x02000008, 0xbad); (0x010000f8, 0xe00ff003)])
    (list_to_map [(DPIDR, 0x2ba01477); (TARGETID, 0x11)]) 0.
