(* ===== verification/SwDp.v ===== *)
(** * The debug port over SWD (src/acrobe/component/arm/sw_dp.py and
      src/acrobe/protocol/swd.py)

    [SwDp.flush_ops] lowers a batch of debug port operations to SWD packets: it
    keeps copies of SELECT and SELECT1 to skip writes, and binds the future of an
    AP read to the packet that carries its data, which is the next AP read or a
    read of RDBUFF inserted before anything that destroys it.
    [Interface.flush_ops] turns the selection of a target on a shared wire into
    its preamble.

    The chip at the other end is the SW-DP of the ARM Debug Interface: posted AP
    reads, banked registers, sticky errors.  The theorem is that a batch means
    what its operations mean, whatever the chip leaves in a destroyed read
    buffer. *)

From S2P Require Import Prelude ArmDp.

(** ** Packets *)

Inductive swd_op : Type :=
  | SwdRead (ap : bool) (addr : Z)
  | SwdWrite (ap : bool) (addr data : Z)
  | SwdRun (cycles : Z)
  | Wakeup (cycles : Z)
  | JtagToSwd | LineReset | SwdToDormant | DormantToSwd
  | TargetSelWrite (target : Z)
  | TargetSelect (target : Z).

#[global] Instance swd_op_eq_dec : EqDecision swd_op.
Proof. solve_decision. Defined.

(** ** The interface's batch (swd.Interface.flush_ops)

    Futures are numbers.  The state is [current_target]; the result is the
    batch for the wire, where an injected packet has no future of a caller, and
    the futures settled at once. *)

Abbreviation future := nat (only parsing).

Record interface_out := mkInterfaceOut {
  current_target : option Z;
  wire : list (swd_op * option future);
  selected : list future;
}.

Definition preamble (target : Z) : list (swd_op * option future) :=
  (fun o => (o, None)) <$> [Wakeup 50; SwdRun 4; TargetSelWrite target; SwdRun 4; SwdRead false 0x00].

Definition invalidates (o : swd_op) : bool :=
  match o with SwdToDormant | DormantToSwd | JtagToSwd | LineReset => true | _ => false end.

Definition interface_op (st : interface_out) (x : swd_op * future) : interface_out :=
  let '(o, f) := x in
  match o with
  | TargetSelect target =>
      if bool_decide (current_target st = Some target)
      then mkInterfaceOut (current_target st) (wire st) (selected st ++ [f])
      else mkInterfaceOut (Some target) (wire st ++ preamble target) (selected st ++ [f])
  | _ =>
      mkInterfaceOut (if invalidates o then None else current_target st) (wire st ++ [(o, Some f)]) (selected st)
  end.

Definition interface_flush (current : option Z) (batch : list (swd_op * future)) : interface_out :=
  foldl interface_op (mkInterfaceOut current [] []) batch.

(** ** Lowering (SwDp.flush_ops) *)

Definition SELECT_REG : Z := 0x08.
Definition ABORT_REG : Z := 0x00.
Definition RDBUFF_REG : Z := 0x0c.
Definition AP_IDLE_CYCLES : Z := 32.

(** The fields of the object that the lowering uses. *)
Record sw_dp := mkSwDp {
  d_select : Z;
  d_select1 : option Z;
  adi_version : option Z;
  asize : option Z;
  targetsel : option Z;
}.

(** The local variables of [flush_ops]: the packets posted so far, whose
    positions are their futures; the pairs of a user's future and a packet's;
    the futures settled while lowering; the caches; the AP read in flight. *)
Record lowering := mkLowering {
  posted : list swd_op;
  records : list (future * nat);
  settled : list future;
  select : Z;
  select1 : option Z;
  pending : option future;
}.

Definition post (o : swd_op) (l : lowering) : lowering :=
  mkLowering (posted l ++ [o]) (records l) (settled l) (select l) (select1 l) (pending l).

(** The future of the packet posted next, bound to a user's. *)
Definition bind_to (f : future) (o : swd_op) (l : lowering) : lowering :=
  mkLowering (posted l ++ [o]) (records l ++ [(f, length (posted l))]) (settled l) (select l) (select1 l) (pending l).

Definition set_pending (p : option future) (l : lowering) : lowering :=
  mkLowering (posted l) (records l) (settled l) (select l) (select1 l) p.
Definition set_select (v : Z) (l : lowering) : lowering :=
  mkLowering (posted l) (records l) (settled l) v (select1 l) (pending l).
Definition set_select1 (v : option Z) (l : lowering) : lowering :=
  mkLowering (posted l) (records l) (settled l) (select l) v (pending l).
Definition set_result (f : future) (l : lowering) : lowering :=
  mkLowering (posted l) (records l) (settled l ++ [f]) (select l) (select1 l) (pending l).

(** [__select1_for] *)
Definition select1_for (d : sw_dp) (o : dp_op) : option Z :=
  match o with
  | ApRead a | ApWrite a _ =>
      if bool_decide (adi_version d = Some 6) && (32 <? default 0 (asize d)) then Some (Z.shiftr a 32) else None
  | _ => None
  end.

Definition op_addr (o : dp_op) : Z :=
  match o with ApRead a | ApWrite a _ | DpRead a | DpWrite a _ => a | Abort _ | Run _ => 0 end.

(** [__select_for] *)
Definition select_value (d : sw_dp) (o : dp_op) (cur : Z) : Z :=
  match o with
  | ApRead a | ApWrite a _ =>
      if bool_decide (adi_version d = Some 5) then
        let apsel := Z.land (Z.shiftr a 24) 0xff in
        let apbank := Z.land (Z.shiftr a 4) 0xf in
        Z.lor (Z.lor (Z.shiftl apsel 24) (Z.shiftl apbank 4)) (Z.land cur 0xf)
      else Z.lor (Z.land a 0xFFFFFFF0) (Z.land cur 0xf)
  | _ => Z.lor (Z.land cur 0xFFFFFFF0) (Z.land (Z.shiftr (op_addr o) 4) 0xf)
  end.

Definition drain_pending (l : lowering) : lowering :=
  match pending l with
  | None => l
  | Some f => set_pending None (bind_to f (SwdRead false RDBUFF_REG) l)
  end.

Definition write_select (value : Z) (l : lowering) : lowering :=
  if select l =? value then l
  else set_select value (post (SwdWrite false SELECT_REG value) (drain_pending l)).

Definition select_for (d : sw_dp) (o : dp_op) (l : lowering) : lowering :=
  let l :=
    match select1_for d o with
    | Some new_select1 =>
        if bool_decide (select1 l = Some new_select1) then l
        else
          let l := drain_pending l in
          let l := write_select (Z.lor (Z.land (select l) 0xFFFFFFF0) (Z.land (Z.shiftr SELECT1 4) 0xf)) l in
          set_select1 (Some new_select1) (post (SwdWrite false (Z.land SELECT1 0xc) new_select1) l)
    | None => l
    end in
  write_select (select_value d o (select l)) l.

(** One entry of the batch. *)
Definition lower_op (d : sw_dp) (l : lowering) (x : dp_op * future) : lowering :=
  let '(o, f) := x in
  let wire_addr := Z.land (op_addr o) 0xc in
  match o with
  | Run cycles => set_result f (post (SwdRun cycles) l)
  | Abort what => bind_to f (SwdWrite false ABORT_REG what) (drain_pending l)
  | DpRead _ =>
      let l := select_for d o l in
      if wire_addr =? RDBUFF_REG then
        let w := length (posted l) in
        let l := post (SwdRead false wire_addr) l in
        let prior := match pending l with Some p => [(p, w)] | None => [] end in
        mkLowering (posted l) (records l ++ prior ++ [(f, w)]) (settled l) (select l) (select1 l) None
      else bind_to f (SwdRead false wire_addr) l
  | DpWrite _ data => bind_to f (SwdWrite false wire_addr data) (drain_pending (select_for d o l))
  | ApRead _ =>
      let l := select_for d o l in
      let l := match pending l with
               | Some p => bind_to p (SwdRead true wire_addr) l
               | None => post (SwdRead true wire_addr) l
               end in
      post (SwdRun AP_IDLE_CYCLES) (set_pending (Some f) l)
  | ApWrite _ data =>
      post (SwdRun AP_IDLE_CYCLES) (bind_to f (SwdWrite true wire_addr data) (drain_pending (select_for d o l)))
  end.

(** The caches at the head of a batch: an interface that will change targets
    resets the chip's. *)
Definition start_lowering (d : sw_dp) (current : option Z) : lowering :=
  match targetsel d with
  | None => mkLowering [] [] [] (d_select d) (d_select1 d) None
  | Some t =>
      let keep := bool_decide (current = Some t) in
      mkLowering [TargetSelect t] [] []
        (if keep then d_select d else 0) (if keep then d_select1 d else None) None
  end.

Definition with_futures {A} (l : list A) : list (A * future) := zip l (seq 0 (length l)).

Definition flush_lower (d : sw_dp) (current : option Z) (batch : list dp_op) : lowering :=
  drain_pending (foldl (lower_op d) (start_lowering d current) (with_futures batch)).

(** The object after the flush. *)
Definition flushed (d : sw_dp) (l : lowering) : sw_dp :=
  mkSwDp (select l) (select1 l) (adi_version d) (asize d) (targetsel d).

(** What a packet's future holds, as a user sees it. *)
Definition translate (r : result (option Z)) : result (option Z) :=
  match r with Err SwdAccessFailure => Err DpAccessFailure | _ => r end.

(** The end of [flush_ops]: the users' futures that are settled, with their
    results, given those of the packets; a future that is done is skipped. *)
Definition settle_record (results : outcomes) (m : outcomes) (x : future * nat) : outcomes :=
  let '(f, w) := x in
  if bool_decide (is_Some (m !! f)) then m
  else match results !! w with Some r => <[f := translate r]> m | None => m end.

Definition settle_futures (l : lowering) (results : outcomes) : outcomes :=
  foldl (settle_record results) (list_to_map ((fun f => (f, Ok None)) <$> settled l)) (records l).

(** The futures of the interface's batch, given the results of the packets. *)
Definition interface_results (st : interface_out) (rs : list (result (option Z))) : outcomes :=
  list_to_map ((fun f => (f, Ok None)) <$> selected st)
  ∪ list_to_map (omap (fun '((_, f), r) => (fun f => (f, r)) <$> f) (zip (wire st) rs)).

(** ** The chip

    The state of an SW-DP: SELECT and SELECT1, the result of the last AP read,
    the sticky error, whether it is the selected target of a shared wire, and
    the system behind it.  [lost] is what UNKNOWN values are. *)

Record chip (S : Type) := mkChip {
  sel : Z; sel1 : Z; latch : Z; sticky : bool; chosen : bool; sys : S;
}.
Arguments mkChip {S} _ _ _ _ _ _.
Arguments sel {S} _. Arguments sel1 {S} _. Arguments latch {S} _.
Arguments sticky {S} _. Arguments chosen {S} _. Arguments sys {S} _.

Section Chip.
Context {S : Type} `{System S} (v : adi) (lost : chip S -> Z) (identity : option Z).

(** The address of an AP access and of a DP access. *)
Definition ap_address (c : chip S) (a : Z) : Z := ap_target v (sel c) (sel1 c) a.
Definition dp_address (c : chip S) (a : Z) : Z := dp_target (sel c) a.

Definition on_sys (c : chip S) (x : S) : chip S := mkChip (sel c) (sel1 c) (latch c) (sticky c) (chosen c) x.
Definition destroyed (c : chip S) : chip S := mkChip (sel c) (sel1 c) (lost c) (sticky c) (chosen c) (sys c).
Definition faulted (c : chip S) : chip S := mkChip (sel c) (sel1 c) (lost c) true (chosen c) (sys c).

(** A line reset clears SELECT; SELECT1 is UNKNOWN then. *)
Definition line_reset (c : chip S) : chip S := mkChip 0 (lost c) (lost c) (sticky c) (chosen c) (sys c).

(** A packet the chip answers.  A sticky error refuses everything but reads of
    DPIDR and CTRL/STAT and writes of ABORT; an AP access that faults is
    acknowledged and sets it. *)
Definition answer (c : chip S) (o : swd_op) : chip S * result (option Z) :=
  match o with
  | SwdRead false a =>
      if sticky c && negb ((a =? 0) || (a =? 4)) then (c, Err SwdAccessFailure)
      else if Z.land a 8 =? 0 then (c, Ok (Some (dp_read (sys c) (dp_address c a))))
      else (c, Ok (Some (latch c)))
  | SwdWrite false a data =>
      if a =? ABORT_REG then
        (mkChip (sel c) (sel1 c) (lost c) (sticky c && negb (Z.testbit data 2)) (chosen c) (dp_abort (sys c) data),
         Ok None)
      else if sticky c then (c, Err SwdAccessFailure)
      else if a =? SELECT_REG then
        (mkChip data (sel1 c) (lost c) (sticky c) (chosen c) (sys c), Ok None)
      else if (a =? 4) && (Z.land (sel c) 0xf =? 5) then
        (mkChip (sel c) data (lost c) (sticky c) (chosen c) (sys c), Ok None)
      else (destroyed (on_sys c (dp_write (sys c) (dp_address c a) data)), Ok None)
  | SwdRead true a =>
      if sticky c then (c, Err SwdAccessFailure)
      else match ap_read (sys c) (ap_address c a) with
           | Some (s, x) => (mkChip (sel c) (sel1 c) x (sticky c) (chosen c) s, Ok (Some (latch c)))
           | None => (faulted c, Ok (Some (latch c)))
           end
  | SwdWrite true a data =>
      if sticky c then (c, Err SwdAccessFailure)
      else match ap_write (sys c) (ap_address c a) data with
           | Some s => (destroyed (on_sys c s), Ok None)
           | None => (faulted c, Ok None)
           end
  | _ => (c, Ok None)
  end.

(** On a shared wire only the selected chip answers; a single chip is always
    selected. *)
Definition packet (c : chip S) (o : swd_op) : chip S * result (option Z) :=
  match o with
  | Wakeup n => (if 50 <=? n then line_reset c else c, Ok None)
  | LineReset | JtagToSwd | SwdToDormant | DormantToSwd => (line_reset c, Ok None)
  | TargetSelWrite t =>
      (mkChip (sel c) (sel1 c) (latch c) (sticky c)
         (match identity with None => true | Some i => i =? t end) (sys c), Ok None)
  | SwdRun _ | TargetSelect _ => (c, Ok None)
  | _ => if chosen c then answer c o else (c, Err SwdAccessFailure)
  end.

Fixpoint packets (c : chip S) (l : list swd_op) : chip S * list (result (option Z)) :=
  match l with
  | [] => (c, [])
  | o :: l => let '(c, r) := packet c o in let '(c, rs) := packets c l in (c, r :: rs)
  end.

(** A flush of the port, of the interface, and the packets on the chip. *)
Definition flush (d : sw_dp) (current : option Z) (batch : list dp_op) (c : chip S)
    : sw_dp * option Z * chip S * outcomes :=
  let l := flush_lower d current batch in
  let io := interface_flush current (with_futures (posted l)) in
  let '(c, rs) := packets c (fst <$> wire io) in
  (flushed d l, current_target io, c, settle_futures l (interface_results io rs)).
End Chip.

Arguments flush {S _} _ _ _ _ _ _ _.

(** ** Addresses *)

(** The port writes SELECT so that the chip addresses the operation's
    register. *)
Definition speaks (d : sw_dp) (v : adi) : Prop :=
  match v with
  | V5 => adi_version d = Some 5
  | V6 => adi_version d = Some 6 /\ default 0 (asize d) <= 32
  | V6Large => adi_version d = Some 6 /\ 32 < default 0 (asize d)
  end.

Definition is_ap (o : dp_op) : bool := match o with ApRead _ | ApWrite _ _ => true | _ => false end.

Section Addresses.
Context {S : Type} (d : sw_dp) (v : adi) (Hd : speaks d v).

Lemma select_value_bound o cur : dp_op_ok v o -> 0 <= cur < 2 ^ 32 -> 0 <= select_value d o cur < 2 ^ 32.
Proof.
  intros Ho Hc.
  assert (forall x n, 0 <= n -> 0 <= Z.land x (Z.ones n) < 2 ^ n) as Hm.
  { intros x n Hn. rewrite Z.land_ones by done. apply Z.mod_pos_bound. lia. }
  assert (forall x, 0 <= Z.land x 0xFFFFFFF0 < 2 ^ 32) as Hhigh by (intros; by apply land_bound).
  assert (forall x, 0 <= Z.land x 0xf < 2 ^ 32) as Hlow by (intros; by apply land_bound).
  unfold select_value. destruct o; try (by apply lor_bound).
  all: case_bool_decide; [|by apply lor_bound]. all: apply lor_bound; [apply lor_bound|done].
  all: rewrite Z.shiftl_mul_pow2 by lia.
  all: match goal with |- 0 <= Z.land ?x ?m * _ < _ =>
    assert (0 <= Z.land x m < 2 ^ 8) by (by apply land_bound) end; lia.
Qed.

Lemma ap_address_selected (c : chip S) o :
  dp_op_ok v o -> is_ap o = true -> sel c = select_value d o (sel c) ->
  (v = V6Large -> sel1 c = Z.shiftr (op_addr o) 32) ->
  ap_address v c (Z.land (op_addr o) 0xc) = op_addr o.
Proof.
  intros Ho Hap Hsel Hsel1. assert (Ha : ap_addr_ok v (op_addr o)) by (destruct o; naive_solver).
  apply ap_target_selected; [done| |done]. rewrite Hsel.
  assert (bool_decide (adi_version d = Some 5) = match v with V5 => true | _ => false end) as E.
  { destruct v; cbn in Hd; [by rewrite Hd| |]; destruct Hd as [-> _]; done. }
  unfold select_value. rewrite E. destruct o; try done; destruct v; cbn [op_addr] in *.
  all: rewrite ?(ap_fields_v5 _ _ Ha); address_bits.
Qed.

Lemma dp_address_selected (c : chip S) o :
  (exists a, o = DpRead a \/ exists x, o = DpWrite a x) -> dp_addr_ok (op_addr o) -> sel c = select_value d o (sel c) ->
  dp_address c (Z.land (op_addr o) 0xc) = op_addr o.
Proof.
  intros Ho [Hr Ha] Hs.
  assert (sel c = Z.lor (Z.land (sel c) 0xFFFFFFF0) (Z.land (Z.shiftr (op_addr o) 4) 0xf)) as Hs'
    by (rewrite Hs at 1; by destruct Ho as [a [->|[x ->]]]).
  apply dp_target_selected; [done|]. rewrite Hs'. clear Hs Hs' Ho Ha. address_bits.
Qed.

(** The selection of an operation selects it again. *)
Lemma select_value_idem o cur : 0 <= cur < 2 ^ 32 -> select_value d o (select_value d o cur) = select_value d o cur.
Proof.
  intros Hc. unfold select_value. destruct o; try case_bool_decide; address_bits.
Qed.
End Addresses.

(** ** The interface and the chip together

    Packets one by one: what the chip sees of an operation posted to the
    interface. *)

Section Delivery.
Context {S : Type} `{System S} (v : adi) (lost : chip S -> Z) (identity : option Z).
Abbreviation pkt := (packet v lost identity).
Abbreviation pkts := (packets v lost identity).

Definition deliver (st : option Z * chip S) (o : swd_op) : option Z * chip S * result (option Z) :=
  let '(cur, c) := st in
  match o with
  | TargetSelect t =>
      if bool_decide (cur = Some t) then (cur, c, Ok None) else (Some t, (pkts c (preamble t).*1).1, Ok None)
  | _ => let '(c, r) := pkt c o in (if invalidates o then None else cur, c, r)
  end.

Fixpoint deliver_all (st : option Z * chip S) (l : list swd_op) : option Z * chip S * list (result (option Z)) :=
  match l with
  | [] => (st, [])
  | o :: l => let '(st, r) := deliver st o in let '(st, rs) := deliver_all st l in (st, r :: rs)
  end.

Lemma packets_app c l1 l2 :
  pkts c (l1 ++ l2) = let '(c, rs1) := pkts c l1 in let '(c, rs2) := pkts c l2 in (c, rs1 ++ rs2).
Proof.
  revert c. induction l1 as [|o l1 IH]; intros c; cbn [app packets]; [by destruct (pkts c l2)|].
  destruct (pkt c o) as [c1 r]. rewrite IH. destruct (pkts c1 l1) as [c2 rs1]. by destruct (pkts c2 l2).
Qed.

Lemma length_packets c l : length (pkts c l).2 = length l.
Proof.
  revert c. induction l as [|o l IH]; intros c; [done|]. cbn [packets]. destruct (pkt c o) as [c1 r].
  specialize (IH c1). destruct (pkts c1 l). cbn in *. lia.
Qed.

Lemma deliver_all_snoc st l o :
  deliver_all st (l ++ [o]) =
  let '(st, rs) := deliver_all st l in let '(st, r) := deliver st o in (st, rs ++ [r]).
Proof.
  revert st. induction l as [|x l IH]; intros st; cbn [app deliver_all]; [by destruct (deliver st o) as [[? ?] ?]|].
  destruct (deliver st x) as [st1 r]. rewrite IH. destruct (deliver_all st1 l) as [st2 rs]. by destruct (deliver st2 o).
Qed.

Lemma length_deliver_all st l : length (deliver_all st l).2 = length l.
Proof.
  revert st. induction l as [|o l IH]; intros st; [done|]. cbn [deliver_all]. destruct (deliver st o) as [st1 r].
  specialize (IH st1). destruct (deliver_all st1 l). cbn in *. lia.
Qed.

Lemma list_to_map_one (f : nat) (r : result (option Z)) : list_to_map [(f, r)] =@{outcomes} {[f := r]}.
Proof. done. Qed.

(** One more entry of the interface's batch settles its own future. *)
Lemma interface_results_packet cur cur' ws sl o (f : nat) rs r :
  length rs = length ws -> interface_results (mkInterfaceOut cur ws sl) rs !! f = None ->
  interface_results (mkInterfaceOut cur' (ws ++ [(o, Some f)]) sl) (rs ++ [r])
  = <[f := r]> (interface_results (mkInterfaceOut cur ws sl) rs).
Proof.
  unfold interface_results. cbn [wire selected]. intros Hlen [H1 H2]%lookup_union_None.
  rewrite zip_with_app, omap_app by done. cbn [zip zip_with omap list_omap fmap option_fmap option_map].
  rewrite list_to_map_app, list_to_map_one, map_union_assoc, insert_union_singleton_r; [done|].
  by rewrite lookup_union, H1, H2.
Qed.

Lemma omap_unbound {A B} (l : list A) (rs : list B) :
  omap (fun '((_, f), r) => (fun f : nat => (f, r)) <$> (f : option nat)) (zip ((fun o => (o, None)) <$> l) rs) = [].
Proof. revert rs. induction l as [|x l IH]; intros [|r rs]; try done. apply IH. Qed.

Lemma interface_results_selected cur cur' ws sl l (f : nat) rs rs' :
  length rs = length ws -> interface_results (mkInterfaceOut cur ws sl) rs !! f = None ->
  interface_results (mkInterfaceOut cur' (ws ++ ((fun o => (o, None)) <$> l)) (sl ++ [f])) (rs ++ rs')
  = <[f := Ok None]> (interface_results (mkInterfaceOut cur ws sl) rs).
Proof.
  unfold interface_results. cbn [wire selected]. intros Hlen [H1 H2]%lookup_union_None.
  rewrite zip_with_app, omap_app, (omap_unbound l), app_nil_r by done.
  rewrite fmap_app, list_to_map_app. cbn [fmap list_fmap]. rewrite list_to_map_one.
  rewrite <- map_union_assoc, (map_union_comm {[f := Ok None]}) by (by apply map_disjoint_singleton_l).
  rewrite map_union_assoc, insert_union_singleton_r; [done|]. by rewrite lookup_union, H1, H2.
Qed.

Lemma interface_delivers_from c0 ops : forall st c rs (k : nat),
  pkts c0 (wire st).*1 = (c, rs) -> (forall f, (k <= f)%nat -> interface_results st rs !! f = None) ->
  let st' := foldl interface_op st (zip ops (seq k (length ops))) in
  let '(cur', c', res) := deliver_all (current_target st, c) ops in
  exists rs', pkts c0 (wire st').*1 = (c', rs') /\ current_target st' = cur'
    /\ (forall f, (f < k)%nat -> interface_results st' rs' !! f = interface_results st rs !! f)
    /\ (forall i r, res !! i = Some r -> interface_results st' rs' !! (k + i)%nat = Some r).
Proof.
  induction ops as [|o ops IH]; intros [cur ws sl] c rs k Hrun Hfresh.
  - exists rs. split_and!; try done.
  - cbn [length seq zip zip_with foldl deliver_all]. cbn [wire current_target] in *.
    pose proof (length_packets c0 ws.*1) as Hlen. rewrite Hrun, length_fmap in Hlen. cbn [snd] in Hlen.
    assert (exists ws' sl' cur' c' r rs', interface_op (mkInterfaceOut cur ws sl) (o, k) = mkInterfaceOut cur' ws' sl'
      /\ deliver (cur, c) o = (cur', c', r) /\ pkts c0 ws'.*1 = (c', rs')
      /\ interface_results (mkInterfaceOut cur' ws' sl') rs' = <[k := r]> (interface_results (mkInterfaceOut cur ws sl) rs))
      as (ws'&sl'&cur'&c'&r&rs'&-> & -> & Hrun'&Hres).
    { assert ((exists t, o = TargetSelect t) \/ ~ exists t, o = TargetSelect t) as [[t ->]|Hn]
        by (destruct o; try (right; intros [? ?]; discriminate); left; by eexists).
      - unfold interface_op. cbn [deliver current_target wire selected]. case_bool_decide.
        + do 6 eexists. split_and!; [done|done|done|].
          rewrite <- (app_nil_r ws) at 1. rewrite <- (app_nil_r rs) at 1.
          apply (interface_results_selected cur cur ws sl [] k rs []); [done|by apply Hfresh].
        + destruct (pkts c (preamble t).*1) as [c' rs'] eqn:E. exists (ws ++ preamble t), (sl ++ [k]), (Some t), c', (Ok None), (rs ++ rs').
          split_and!; [done|done| |].
          * rewrite fmap_app, packets_app, Hrun, E. done.
          * apply interface_results_selected; [done|by apply Hfresh].
      - destruct (pkt c o) as [c' r] eqn:E.
        exists (ws ++ [(o, Some k)]), sl, (if invalidates o then None else cur), c', r, (rs ++ [r]). split_and!.
        + destruct o; try done. by destruct Hn; eexists.
        + unfold deliver. rewrite E. destruct o; try done. by destruct Hn; eexists.
        + rewrite fmap_app, packets_app, Hrun. cbn. by rewrite E.
        + apply interface_results_packet; [done|by apply Hfresh]. }
    cbn [wire current_target] in *.
    specialize (IH (mkInterfaceOut cur' ws' sl') c' rs' (Datatypes.S k) Hrun'). cbn [current_target] in IH.
    destruct (deliver_all (cur', c') ops) as [[cur2 c2] res]. destruct IH as (rs2&H1&H2&H3&H4).
    + intros f Hf. rewrite Hres, lookup_insert_ne by lia. apply Hfresh. lia.
    + exists rs2. split_and!; [done|done| |].
      * intros f Hf. rewrite H3, Hres, lookup_insert_ne by lia. done.
      * intros [|i] r' Hi; cbn in Hi.
        -- simplify_eq. rewrite Nat.add_0_r, H3, Hres by lia. apply lookup_insert_eq.
        -- rewrite Nat.add_succ_r. by apply (H4 i).
Qed.
End Delivery.

(** ** The simulation

    After part of a batch, with the values [vs] its operations are to have: the
    packets posted so far ran on the chip, the caches are the chip's registers,
    and each operation so far is in flight with its value in the chip's read
    buffer, settled, or bound to a packet that carries its value. *)

Section Simulation.
Context {S : Type} `{System S} (v : adi) (lost : chip S -> Z) (identity : option Z).
Context (d : sw_dp) (Hd : speaks d v) (start : option Z * chip S).
Abbreviation pkt := (packet v lost identity).
Abbreviation dlv := (deliver_all v lost identity).

Record simulates (l : lowering) (vs : list (option Z)) (cur : option Z) (c : chip S) (rs : list (result (option Z)))
    : Prop := {
  sim_run : dlv start (posted l) = (cur, c, rs);
  sim_chip : chosen c = true /\ sticky c = false;
  sim_select : sel c = select l /\ 0 <= select l < 2 ^ 32;
  sim_select1 : v = V6Large -> forall x, select1 l = Some x -> sel1 c = x;
  sim_records : forall f w, (f, w) ∈ records l -> exists x, vs !! f = Some x /\ rs !! w = Some (Ok x);
  sim_settled : forall f, f ∈ settled l -> vs !! f = Some None;
  sim_pending : forall f, pending l = Some f -> vs !! f = Some (Some (latch c));
  sim_covered : forall f, (f < length vs)%nat ->
    pending l = Some f \/ f ∈ settled l \/ exists w, (f, w) ∈ records l;
}.

Definition simulated (l : lowering) (vs : list (option Z)) (cur : option Z) (c : chip S) : Prop :=
  exists rs, simulates l vs cur c rs.

Definition plain (o : swd_op) : bool := match o with SwdRead _ _ | SwdWrite _ _ _ | SwdRun _ => true | _ => false end.

Lemma deliver_plain o l cur c rs c' r :
  plain o = true -> dlv start l = (cur, c, rs) -> pkt c o = (c', r) ->
  dlv start (l ++ [o]) = (cur, c', rs ++ [r]) /\ length rs = length l.
Proof.
  intros Ho Hrun Hp. rewrite deliver_all_snoc, Hrun. unfold deliver. rewrite Hp.
  pose proof (length_deliver_all v lost identity start l) as Hl. rewrite Hrun in Hl. by destruct o.
Qed.

(** One packet more: it may be bound to futures whose value it carries, put one
    more operation in flight, and change the caches with the chip. *)
Lemma simulated_packet o new l vs cur c l' vs' c' r :
  simulated l vs cur c -> plain o = true -> pkt c o = (c', r) -> chosen c' = true -> sticky c' = false ->
  posted l' = posted l ++ [o] -> records l' = records l ++ ((fun f => (f, length (posted l))) <$> new) ->
  settled l' = settled l -> sel c' = select l' -> 0 <= select l' < 2 ^ 32 ->
  (v = V6Large -> forall x, select1 l' = Some x -> sel1 c' = x) ->
  vs `prefix_of` vs' -> Forall (fun f => exists x, vs' !! f = Some x /\ r = Ok x) new ->
  (forall f, pending l' = Some f -> vs' !! f = Some (Some (latch c'))) ->
  (forall f, (f < length vs')%nat -> pending l' = Some f \/ f ∈ new \/ (pending l <> Some f /\ (f < length vs)%nat)) ->
  simulated l' vs' cur c'.
Proof.
  intros [rs []] Ho Hp Hch Hst Hpost Hrec Hset Hs Hb Hs1 Hvs Hnew Hpend Hcov.
  destruct (deliver_plain o _ _ _ _ _ _ Ho sim_run0 Hp) as [Hrun Hl].
  exists (rs ++ [r]). constructor; try done.
  - by rewrite Hpost.
  - intros f w. rewrite Hrec, elem_of_app. intros [Hf|(f'&[= -> ->]&Hf)%list_elem_of_fmap].
    + destruct (sim_records0 f w Hf) as (x&?&?). exists x. split; [by eapply prefix_lookup_Some|by apply lookup_app_l_Some].
    + rewrite Forall_forall in Hnew. destruct (Hnew f' Hf) as (x&?&->). exists x. split; [done|].
      by rewrite lookup_app_r, <- Hl, Nat.sub_diag by lia.
  - intros f. rewrite Hset. intros Hf. eapply prefix_lookup_Some; [by apply sim_settled0|done].
  - intros f Hf. rewrite Hset, Hrec. destruct (Hcov f Hf) as [?|[?|[Hn Hlt]]]; [by left| |].
    + right; right. exists (length (posted l)). apply elem_of_app. right. apply list_elem_of_fmap. by exists f.
    + destruct (sim_covered0 f Hlt) as [?|[?|[w ?]]]; [done|by right; left|].
      right; right. exists w. apply elem_of_app. by left.
Qed.

Lemma simulated_chip l vs cur c :
  simulated l vs cur c -> chosen c = true /\ sticky c = false /\ sel c = select l /\ 0 <= select l < 2 ^ 32
  /\ (v = V6Large -> forall x, select1 l = Some x -> sel1 c = x)
  /\ (forall f, pending l = Some f -> vs !! f = Some (Some (latch c)))
  /\ (forall f, pending l = Some f -> (f < length vs)%nat).
Proof.
  intros [rs []]. destruct sim_chip0, sim_select0. split_and!; try done; try lia.
  intros f Hf. apply sim_pending0 in Hf. by apply lookup_lt_Some in Hf.
Qed.

Lemma drain_simulated l vs cur c :
  simulated l vs cur c -> simulated (drain_pending l) vs cur c /\ pending (drain_pending l) = None
  /\ select (drain_pending l) = select l /\ select1 (drain_pending l) = select1 l.
Proof.
  intros Hsim. unfold drain_pending. destruct (pending l) as [f|] eqn:Ef; [|done]. split; [|done].
  destruct (simulated_chip _ _ _ _ Hsim) as (Hch&Hst&Hse&Hbd&Hs1&Hpe&Hlt). apply (simulated_packet (SwdRead false RDBUFF_REG) [f] l vs cur c _ vs c (Ok (Some (latch c)))); try done.
  - cbn. by rewrite Hch, Hst.
  - constructor; [|done]. eauto.
  - intros f' Hf. right. destruct (decide (f' = f)) as [->|]; [left; by left|right; split; [congruence|done]].
Qed.

Lemma write_select_simulated value l vs cur c :
  simulated l vs cur c -> 0 <= value < 2 ^ 32 ->
  exists c', simulated (write_select value l) vs cur c' /\ sys c' = sys c /\ sel1 c' = sel1 c
    /\ select (write_select value l) = value /\ select1 (write_select value l) = select1 l.
Proof.
  intros Hsim Hv. unfold write_select. destruct (Z.eqb_spec (select l) value) as [E|E]; [by exists c|].
  destruct (drain_simulated l vs cur c Hsim) as (Hdr&Hp&Hse&Hs1). set (l1 := drain_pending l) in *. destruct (simulated_chip _ _ _ _ Hdr) as (Hch&Hst&Hse'&Hbd&Hs1'&Hpe&Hlt).
  exists (mkChip value (sel1 c) (lost c) (sticky c) (chosen c) (sys c)). split; [|done].
  apply (simulated_packet (SwdWrite false SELECT_REG value) [] l1 vs cur c _ vs _ (Ok None)); try done.
  - cbn. by rewrite Hch, Hst.
  - by rewrite app_nil_r.
  - cbn. intros f Hf. congruence.
  - intros f Hf. right; right. split; [congruence|done].
Qed.

Lemma select1_for_spec o : select1_for d o =
  if is_ap o && bool_decide (v = V6Large) then Some (Z.shiftr (op_addr o) 32) else None.
Proof.
  unfold select1_for. destruct o; try done; cbn [is_ap op_addr andb].
  all: destruct v; cbn in Hd; [rewrite Hd| |]; [done| |]; destruct Hd as [-> Hs]; cbn.
  all: destruct (Z.ltb_spec 32 (default 0 (asize d))); try lia; done.
Qed.

Lemma bank_5 x : Z.land (Z.lor (Z.land x 0xFFFFFFF0) 5) 0xf = 5.
Proof. change 5 with (Z.lor (Z.ones 1) (Z.shiftl (Z.ones 1) 2)). address_bits. Qed.

Lemma select_for_simulated o l vs cur c :
  simulated l vs cur c -> dp_op_ok v o ->
  exists c', simulated (select_for d o l) vs cur c' /\ sys c' = sys c
    /\ sel c' = select_value d o (sel c') /\ (is_ap o = true -> v = V6Large -> sel1 c' = Z.shiftr (op_addr o) 32).
Proof.
  intros Hsim Ho. unfold select_for. rewrite select1_for_spec.
  set (l1 := match _ with Some _ => _ | None => _ end).
  assert (exists c1, simulated l1 vs cur c1 /\ sys c1 = sys c
    /\ (is_ap o = true -> v = V6Large -> sel1 c1 = Z.shiftr (op_addr o) 32)) as (c1&Hs1&Hsys1&Hsel1).
  { unfold l1. destruct (is_ap o && bool_decide (v = V6Large)) eqn:E.
    2:{ exists c. split_and!; try done. intros Ha Hv. rewrite Ha, bool_decide_eq_true_2 in E by done. done. }
    apply andb_true_iff in E as [Ha Hv%bool_decide_eq_true]. case_bool_decide as Hc.
    - exists c. split_and!; try done. intros _ _. destruct (simulated_chip _ _ _ _ Hsim) as (Hch&Hst&Hse&Hbd&Hs1&Hpe&Hlt). eauto.
    - destruct (drain_simulated l vs cur c Hsim) as (Hdr&Hp&Hse&_). set (l2 := drain_pending l) in *.
      destruct (write_select_simulated (Z.lor (Z.land (select l2) 0xFFFFFFF0) (Z.land (Z.shiftr SELECT1 4) 0xf)) l2 vs cur c Hdr)
        as (c2&Hw&Hy&_&Hsel&_).
      { apply lor_bound; by apply land_bound. }
      set (l3 := write_select _ l2) in *. destruct (simulated_chip _ _ _ _ Hw) as (Hch&Hst&Hse3&Hbd&Hs13&Hpe&Hlt). change (Z.land (Z.shiftr SELECT1 4) 0xf) with 5 in Hsel.
      assert (Hp3 : pending l3 = None).
      { unfold l3, write_select, drain_pending. destruct (_ =? _); [done|]. by rewrite Hp. }
      exists (mkChip (sel c2) (Z.shiftr (op_addr o) 32) (lost c2) (sticky c2) (chosen c2) (sys c2)). split_and!; [|done|done].
      apply (simulated_packet (SwdWrite false (Z.land SELECT1 0xc) (Z.shiftr (op_addr o) 32)) [] l3 vs cur c2 _ vs _ (Ok None)); try done.
      + cbn. rewrite Hch, Hst. change (Z.land SELECT1 0xc) with 4. cbn.
        by rewrite Hse3, Hsel, bank_5.
      + by rewrite app_nil_r.
      + cbn. by intros _ x [= <-].
      + cbn. intros f Hf. congruence.
      + intros f Hf. right; right. split; [congruence|done]. }
  clearbody l1. destruct (simulated_chip _ _ _ _ Hs1) as (_&_&_&Hbd&_).
  destruct (write_select_simulated (select_value d o (select l1)) l1 vs cur c1 Hs1) as (c2&Hw&Hy&Hz&Hsel&_).
  { by apply (select_value_bound d v). }
  exists c2. split_and!; [done|congruence| |by rewrite Hz]. destruct (simulated_chip _ _ _ _ Hw) as (_&_&Hse&_). rewrite Hse, Hsel. by rewrite select_value_idem.
Qed.

(** The usual packets: idle cycles; a packet bound to the next future. *)
Lemma simulated_idle n l vs cur c : simulated l vs cur c -> simulated (post (SwdRun n) l) vs cur c.
Proof.
  intros Hsim. destruct (simulated_chip _ _ _ _ Hsim) as (Hch&Hst&Hse&Hbd&Hs1&Hpe&Hlt).
  apply (simulated_packet (SwdRun n) [] l vs cur c _ vs c (Ok None)); try done.
  - by rewrite app_nil_r.
  - intros f Hf. destruct (decide (pending l = Some f)); [by left|right; by right].
Qed.

Lemma simulated_bound o x l vs cur c c' :
  simulated l vs cur c -> plain o = true -> pkt c o = (c', Ok x) -> chosen c' = chosen c -> sticky c' = sticky c ->
  sel c' = sel c -> sel1 c' = sel1 c -> (pending l = None \/ latch c' = latch c) ->
  simulated (bind_to (length vs) o l) (vs ++ [x]) cur c'.
Proof.
  intros Hsim Ho Hp Hch' Hst' Hse' Hs1' Hl. destruct (simulated_chip _ _ _ _ Hsim) as (Hch&Hst&Hse&Hbd&Hs1&Hpe&Hlt).
  apply (simulated_packet o [length vs] l vs cur c _ _ c' (Ok x)); try done; try congruence.
  - by rewrite Hse'.
  - by rewrite Hs1'.
  - by apply prefix_app_r.
  - constructor; [|done]. exists x. split; [|done]. by rewrite list_lookup_middle.
  - cbn. intros f Hf. destruct Hl as [Hl|Hl]; [congruence|]. rewrite Hl.
    eapply prefix_lookup_Some; [by apply Hpe|by apply prefix_app_r].
  - intros f. rewrite length_app. cbn. intros Hf.
    destruct (decide (f = length vs)) as [->|]; [right; left; by left|].
    destruct (decide (pending l = Some f)); [by left|]. right; right. split; [done|lia].
Qed.

Lemma simulated_result l vs cur c : simulated l vs cur c -> simulated (set_result (length vs) l) (vs ++ [None]) cur c.
Proof.
  intros [rs []]. exists rs. constructor; try done.
  - intros f w Hf. destruct (sim_records0 f w Hf) as (y&?&?). exists y. split; [by apply lookup_app_l_Some|done].
  - cbn. intros f [Hf| ->%list_elem_of_singleton]%elem_of_app; [by apply lookup_app_l_Some, sim_settled0|].
    by rewrite list_lookup_middle.
  - cbn. intros f Hf. by apply lookup_app_l_Some, sim_pending0.
  - cbn. intros f. rewrite length_app. cbn. intros Hf. destruct (decide (f = length vs)) as [->|].
    + right; left. apply elem_of_app. right. by left.
    + destruct (sim_covered0 f ltac:(lia)) as [?|[?|?]]; [by left|right; left; apply elem_of_app; by left|by right; right].
Qed.

(** One operation of the batch: its future gets what the operation gives, the
    system behind the port is what the operation leaves. *)
Definition lowers (o : dp_op) : Prop := forall l vs cur c s x,
  simulated l vs cur c -> dp_op_ok v o -> exec_dp (sys c) o = Some (s, x) ->
  exists c', simulated (lower_op d l (o, length vs)) (vs ++ [x]) cur c' /\ sys c' = s.

Lemma ApRead_lowers a : lowers (ApRead a).
Proof.
  intros l vs cur c s x Hsim Ho Hx. cbn [lower_op op_addr].
  assert (Hnew : (vs ++ [x]) !! length vs = Some x) by by rewrite list_lookup_middle.
  assert (Hpre : vs `prefix_of` vs ++ [x]) by by apply prefix_app_r.
  assert (Hcase : forall f, (f < length (vs ++ [x]))%nat -> f = length vs \/ (f < length vs)%nat)
    by (intros f; rewrite length_app; cbn; lia).
  destruct (select_for_simulated _ l vs cur c Hsim Ho) as (c1&H1&Hy&Hsel&Hsel1).
  set (l1 := select_for d _ l) in *. destruct (simulated_chip _ _ _ _ H1) as (Hch&Hst&Hse&Hbd&Hs1&Hpe&Hlt).
  cbn in Hx. apply bind_Some in Hx as ([s1 y]&Hr&[= -> <-]).
  pose proof (ap_address_selected d v Hd c1 (ApRead a) Ho eq_refl Hsel (Hsel1 eq_refl)) as Haddr. cbn [op_addr] in Haddr.
  set (c2 := mkChip (sel c1) (sel1 c1) y false true s).
  assert (pkt c1 (SwdRead true (Z.land a 0xc)) = (c2, Ok (Some (latch c1)))) as Hp.
  { cbn. by rewrite Hch, Hst, Haddr, Hy, Hr. }
  set (l2 := set_pending _ _).
  assert (simulated l2 (vs ++ [Some y]) cur c2) as H2.
  { apply (simulated_packet (SwdRead true (Z.land a 0xc)) (match pending l1 with Some f => [f] | None => [] end)
      l1 vs cur c1 _ _ c2 (Ok (Some (latch c1)))); try done; try (unfold l2; by destruct (pending l1)).
    - unfold l2. destruct (pending l1); [done|]. by rewrite app_nil_r.
    - destruct (pending l1) as [f|] eqn:Ef; [|done]. constructor; [|done]. exists (Some (latch c1)). split; [|done].
      by eapply prefix_lookup_Some; [apply Hpe|].
    - unfold l2. cbn. by intros f [= <-].
    - intros f Hf. destruct (Hcase f Hf) as [->|?]; [left; by unfold l2|]. right.
      destruct (pending l1) as [g|]; [|by right]. destruct (decide (f = g)) as [->|]; [left; by left|right; split; congruence]. }
  exists c2. split; [|done]. by apply simulated_idle.
Qed.

Lemma ApWrite_lowers a data : lowers (ApWrite a data).
Proof.
  intros l vs cur c s x Hsim Ho Hx. cbn [lower_op op_addr].
  destruct (select_for_simulated _ l vs cur c Hsim Ho) as (c1&H1&Hy&Hsel&Hsel1).
  destruct (drain_simulated _ _ _ _ H1) as (H2&Hp&_). set (l2 := drain_pending _) in *.
  cbn in Hx. apply bind_Some in Hx as (s1&Hw&[= -> <-]).
  destruct (simulated_chip _ _ _ _ H2) as (Hch&Hst&Hse&Hbd&Hs1&_).
  pose proof (ap_address_selected d v Hd c1 (ApWrite a data) Ho eq_refl Hsel (Hsel1 eq_refl)) as Haddr. cbn [op_addr] in Haddr.
  set (c2 := mkChip (sel c1) (sel1 c1) (lost (on_sys c1 s)) (sticky c1) (chosen c1) s).
  assert (simulated (bind_to (length vs) (SwdWrite true (Z.land a 0xc) data) l2) (vs ++ [None]) cur c2) as H3.
  { apply (simulated_bound (SwdWrite true (Z.land a 0xc) data) None l2 vs cur c1 c2); try done.
    - unfold packet. rewrite Hch. unfold answer. by rewrite Hst, Haddr, Hy, Hw.
    - by left. }
  exists c2. split; [|done]. by apply simulated_idle.
Qed.

Lemma DpRead_lowers a : lowers (DpRead a).
Proof.
  intros l vs cur c s x Hsim Ho Hx. cbn [lower_op op_addr].
  destruct Ho as [Ha Hb]. cbn in Hx. simplify_eq.
  destruct (select_for_simulated (DpRead a) l vs cur c Hsim) as (c1&H1&Hy&Hsel&_); [done|].
  destruct (simulated_chip _ _ _ _ H1) as (Hch&Hst&Hse&Hbd&Hs1&_).
  assert (Z.land (Z.land a 0xc) 8 = 0) as E8.
  { rewrite <- Z.land_assoc. change (Z.land 0xc 8) with 8. done. }
  rewrite (proj2 (Z.eqb_neq _ _)) by (intros E; rewrite E in E8; done).
  exists c1. split; [|done]. apply (simulated_bound _ _ _ vs cur c1 c1); try done; [|by right].
  unfold packet. rewrite Hch. unfold answer. rewrite Hst, E8. cbn [andb]. rewrite Z.eqb_refl.
  pose proof (dp_address_selected d c1 (DpRead a)) as Haddr. cbn [op_addr] in Haddr.
  by rewrite Haddr, Hy by first [done|eexists; by left].
Qed.

Lemma DpWrite_lowers a data : lowers (DpWrite a data).
Proof.
  intros l vs cur c s x Hsim Ho Hx. cbn [lower_op op_addr].
  destruct Ho as (Ha&H4&Hn&Hr). cbn in Hx. simplify_eq.
  destruct (select_for_simulated (DpWrite a data) l vs cur c Hsim) as (c1&H1&Hy&Hsel&_); [done|].
  destruct (drain_simulated _ _ _ _ H1) as (H2&Hp&_). destruct (simulated_chip _ _ _ _ H2) as (Hch&Hst&Hse&Hbd&Hs1&_).
  pose proof (dp_address_selected d c1 (DpWrite a data)) as Haddr. cbn [op_addr] in Haddr.
  rewrite H4 in *. specialize (Haddr ltac:(by eexists; right; eexists) Ha Hsel).
  exists (destroyed lost (on_sys c1 (dp_write (sys c) a data))). split; [|done].
  apply (simulated_bound _ _ _ vs cur c1); try done; [|by left].
  unfold packet. rewrite Hch. unfold answer. rewrite Hst, Haddr, Hy. cbn [andb Z.eqb].
  rewrite (proj2 (Z.eqb_neq _ _)); [done|]. intros E. apply Hn. rewrite <- Haddr. unfold dp_address, dp_target. by rewrite E.
Qed.

Lemma Abort_lowers what : lowers (Abort what).
Proof.
  intros l vs cur c s x Hsim Ho Hx. cbn [lower_op op_addr].
  cbn in Hx. simplify_eq. destruct (drain_simulated l vs cur c Hsim) as (H2&Hp&_).
  destruct (simulated_chip _ _ _ _ H2) as (Hch&Hst&Hse&Hbd&Hs1&_).
  exists (mkChip (sel c) (sel1 c) (lost c) false true (dp_abort (sys c) what)). split; [|done].
  apply (simulated_bound _ _ _ vs cur c); try done; [|by left].
  unfold packet. rewrite Hch. unfold answer. by rewrite Hst, Hch.
Qed.

Lemma Run_lowers cycles : lowers (Run cycles).
Proof.
  intros l vs cur c s x Hsim Ho Hx. cbn [lower_op op_addr].
  cbn in Hx. simplify_eq. exists c. split; [|done].
  apply (simulated_result (post (SwdRun cycles) l)). by apply simulated_idle.
Qed.

Lemma swd_lower_op_simulated o : lowers o.
Proof.
  destruct o; [apply ApRead_lowers|apply ApWrite_lowers|apply DpRead_lowers|apply DpWrite_lowers|apply Abort_lowers|apply Run_lowers].
Qed.

Lemma swd_lower_ops_simulated batch : forall l vs cur c s xs,
  simulated l vs cur c -> Forall (dp_op_ok v) batch -> exec_dps (sys c) batch = Some (s, xs) ->
  exists c', simulated (foldl (lower_op d) l (zip batch (seq (length vs) (length batch)))) (vs ++ xs) cur c'
    /\ sys c' = s.
Proof.
  induction batch as [|o batch IH]; intros l vs cur c s xs Hsim Hok Hx.
  - cbn in Hx. simplify_eq. exists c. by rewrite app_nil_r.
  - apply Forall_cons in Hok as [Ho Hok]. apply exec_dps_cons in Hx as (s1&x&xs'&Hx&Hxs&->).
    destruct (swd_lower_op_simulated o l vs cur c s1 x Hsim Ho Hx) as (c1&H1&Hy). cbn [length seq zip zip_with foldl].
    rewrite <- Hy in Hxs. destruct (IH _ _ _ _ _ _ H1 Hok Hxs) as (c2&H2&Hy2). exists c2. split; [|done].
    rewrite length_app, Nat.add_1_r, <- app_assoc in H2. done.
Qed.

(** Futures bound to packets that carry their values are settled with them. *)
Lemma settle_futures_spec l vs cur c rs (results : outcomes) f x :
  simulates l vs cur c rs -> pending l = None -> (forall w r, rs !! w = Some r -> results !! w = Some r) ->
  vs !! f = Some x -> settle_futures l results !! f = Some (Ok x).
Proof.
  intros [] Hp Hres Hx. unfold settle_futures.
  set (good := fun m : outcomes => forall g r, m !! g = Some r -> exists y, vs !! g = Some y /\ r = Ok y).
  assert (Hfold : forall recs m, good m -> (forall g w, (g, w) ∈ recs -> (g, w) ∈ records l) ->
    good (foldl (settle_record results) m recs)
    /\ forall g, is_Some (m !! g) \/ (exists w, (g, w) ∈ recs) -> is_Some (foldl (settle_record results) m recs !! g)).
  { induction recs as [|[g w] recs IH]; intros m Hm Hin; cbn [foldl].
    - split; [done|]. intros g [?|[w Hw]]; [done|]. by apply not_elem_of_nil in Hw.
    - destruct (sim_records0 g w) as (y&Hy&Hw); [apply Hin; by left|]. apply Hres in Hw as Hw'.
      set (m1 := settle_record results m (g, w)).
      assert (good m1 /\ is_Some (m1 !! g) /\ forall g', is_Some (m !! g') -> is_Some (m1 !! g')) as (Hm1&Hg&Hmono).
      { unfold m1, settle_record. case_bool_decide as Hd'; [done|]. rewrite Hw'. cbn [translate]. split_and!.
        - intros g' r. rewrite lookup_insert_Some. intros [[<- <-]|[_ Hr]]; [by exists y|by apply Hm].
        - rewrite lookup_insert_eq. done.
        - intros g' Hg'. destruct (decide (g' = g)) as [->|]; [done|]. by rewrite lookup_insert_ne. }
      destruct (IH m1 Hm1) as [H1 H2]; [intros ?? ?; apply Hin; by right|]. split; [done|].
      intros g' [?|[w' [[= -> ->]|?]%elem_of_cons]]; apply H2; [left; by apply Hmono|by left|right; by eexists]. }
  destruct (Hfold (records l) (list_to_map ((fun f => (f, Ok None)) <$> settled l))) as [Hgood Hcov]; [|done|].
  { intros g r Hg%elem_of_list_to_map_2. apply list_elem_of_fmap in Hg as (g'&[= -> ->]&Hg). eauto. }
  destruct (Hcov f) as [r Hr].
  - apply lookup_lt_Some in Hx as Hlt. destruct (sim_covered0 f Hlt) as [?|[Hs|?]]; [congruence| |by right].
    left. destruct (list_to_map ((fun f : nat => (f, Ok None)) <$> settled l) !! f) as [r|] eqn:E; [done|].
    apply not_elem_of_list_to_map_2 in E. destruct E. rewrite <- list_fmap_compose. cbn.
    apply list_elem_of_fmap. by exists f.
  - destruct (Hgood f r Hr) as (y&Hy&->). rewrite Hr. congruence.
Qed.

End Simulation.

(** ** Batches *)

Section Batches.
Context {S : Type} `{System S} (v : adi) (lost : chip S -> Z) (identity : option Z).

(** The port and the chip agree: the caches are the chip's registers, unless the
    port is going to select its chip on a shared wire, which resets both. *)
Definition kept (d : sw_dp) (current : option Z) : Prop :=
  match targetsel d with Some t => current = Some t | None => True end.

Definition agrees (d : sw_dp) (current : option Z) (c : chip S) : Prop :=
  sticky c = false /\ (forall t, targetsel d = Some t -> identity = Some t) /\
  (kept d current -> chosen c = true /\ sel c = d_select d /\ 0 <= d_select d < 2 ^ 32
    /\ (v = V6Large -> forall x, d_select1 d = Some x -> sel1 c = x)).

Lemma simulated_start st posted se se1 cur c rs :
  deliver_all v lost identity st posted = (cur, c, rs) -> chosen c = true -> sticky c = false ->
  sel c = se -> 0 <= se < 2 ^ 32 -> (v = V6Large -> forall x, se1 = Some x -> sel1 c = x) ->
  simulated v lost identity st (mkLowering posted [] [] se se1 None) [] cur c.
Proof.
  intros Hrun Hch Hst Hse Hb Hs1. exists rs. constructor; try done; cbn; intros; try lia.
  all: by match goal with Hin : _ ∈ [] |- _ => apply not_elem_of_nil in Hin end.
Qed.

Lemma swd_start_simulated d current c :
  agrees d current c ->
  exists c', simulated v lost identity (current, c) (start_lowering d current) []
    (match targetsel d with Some t => Some t | None => current end) c' /\ sys c' = sys c.
Proof.
  unfold agrees, kept, start_lowering. intros (Hst&Hid&Hk). destruct (targetsel d) as [t|].
  - specialize (Hid t eq_refl). case_bool_decide as Hc.
    + destruct (Hk Hc) as (Hch&Hse&Hb&Hs1). exists c. split; [|done]. subst current.
      eapply simulated_start; try done. cbn. by rewrite bool_decide_eq_true_2.
    + exists (mkChip 0 (lost c) (lost c) (sticky c) true (sys c)). split; [|done].
      apply simulated_start with [Ok None]; try done. cbn.
      rewrite bool_decide_eq_false_2, Hid, Z.eqb_refl by done. cbn. by rewrite Hst.
  - destruct (Hk I) as (Hch&Hse&Hb&Hs1). exists c. split; [|done]. by eapply simulated_start.
Qed.

Lemma swd_flush_refines d current batch c s vs :
  speaks d v -> agrees d current c -> Forall (dp_op_ok v) batch -> exec_dps (sys c) batch = Some (s, vs) ->
  exists d' current' c' m, flush v lost identity d current batch c = (d', current', c', m)
    /\ sys c' = s /\ speaks d' v /\ agrees d' current' c'
    /\ forall f x, vs !! f = Some x -> m !! f = Some (Ok x).
Proof.
  intros Hd Hag Hok Hx. destruct (swd_start_simulated d current c Hag) as (c0&H0&Hy0).
  rewrite <- Hy0 in Hx. destruct (swd_lower_ops_simulated v lost identity d Hd _ batch _ _ _ _ _ _ H0 Hok Hx) as (c1&H1&Hy1).
  apply drain_simulated in H1 as (H1&Hp&_). change (zip batch (seq (length []) (length batch))) with (with_futures batch) in *.
  set (l := flush_lower d current batch) in *. change (drain_pending _) with l in H1, Hp. cbn [app] in H1.
  pose proof H1 as (rs&Hsim). pose proof (sim_run _ _ _ _ _ _ _ _ _ Hsim) as Hrun.
  pose proof (interface_delivers_from v lost identity c (posted l) (mkInterfaceOut current [] []) c [] 0 eq_refl (fun f _ => eq_refl)) as Hif.
  cbn [current_target] in Hif. rewrite Hrun in Hif. destruct Hif as (rs'&Hpk&Hcur&_&Hres).
  unfold flush. fold l. change (foldl _ _ _) with (interface_flush current (with_futures (posted l))) in *.
  rewrite Hpk. do 4 eexists. split; [done|]. split; [done|]. split; [by destruct v|]. split.
  - destruct Hag as (_&Hid&_). apply simulated_chip in H1 as (?&?&?&?&?&?). by split_and!.
  - intros f x Hf. by eapply settle_futures_spec.
Qed.

(** A sequence of batches, each flushed after the one before. *)
Fixpoint flushes (d : sw_dp) (current : option Z) (batches : list (list dp_op)) (c : chip S) : chip S * list outcomes :=
  match batches with
  | [] => (c, [])
  | batch :: batches =>
      let '(d, current, c, m) := flush v lost identity d current batch c in
      let '(c, ms) := flushes d current batches c in (c, m :: ms)
  end.

Fixpoint exec_batches (s : S) (batches : list (list dp_op)) : option (S * list (list (option Z))) :=
  match batches with
  | [] => Some (s, [])
  | batch :: batches => '(s, vs) ← exec_dps s batch; '(s, vss) ← exec_batches s batches; Some (s, vs :: vss)
  end.
End Batches.

(** The port as its clients see it. *)
#[refine] #[global] Instance sw_port {S} `{System S} v lost identity : DebugPort S (sw_dp * option Z * chip S) := {
  port_version := v;
  port_flush p batch :=
    let '(d, current, c) := p in
    let '(d, current, c, m) := flush v lost identity d current batch c in ((d, current, c), m);
  port_sys p := sys p.2;
  port_ok p := speaks p.1.1 v /\ agrees v identity p.1.1 p.1.2 p.2;
}.
Proof.
  intros [[d current] c] batch s vs [Hd Hag] Hok Hx.
  destruct (swd_flush_refines v lost identity d current batch c s vs Hd Hag Hok Hx) as (d'&cur'&c'&m&E&Hy&Hd'&Hag'&Hm).
  rewrite E. exists (d', cur', c'), m. split_and!; try done. intros f x Hf. exists x. split; [by apply Hm|by right].
Defined.

(** The futures of a batch are settled with these values. *)
Definition settled_with (vs : list (option Z)) (m : outcomes) : Prop :=
  forall f x, vs !! f = Some x -> m !! f = Some (Ok x).

(** ** Theorems *)

(** C8: the debug port over SWD does what its operations say.  Whatever the
    batches of register accesses, aborts and idle cycles, on any architecture
    version, for a single chip or one of several on a wire: as long as no access
    faults, every future is settled with the value its operation has at its own
    address, and the system is left as the operations leave it, although SELECT
    is written only when it changes and an AP read's data arrives with a later
    packet. *)
Theorem swd_port_refines {S} `{System S} v lost identity d current batches c s vss :
  speaks d v -> agrees v identity d current c -> Forall (Forall (dp_op_ok v)) batches ->
  exec_batches (sys c) batches = Some (s, vss) ->
  exists c' ms, flushes v lost identity d current batches c = (c', ms) /\ sys c' = s /\ Forall2 settled_with vss ms.
Proof.
  revert d current c vss. induction batches as [|batch batches IH]; intros d current c vss Hd Hag Hok Hx.
  - cbn in Hx. simplify_eq. by exists c, [].
  - apply Forall_cons in Hok as [Hb Hok]. cbn in Hx.
    apply bind_Some in Hx as ([s1 vs]&Hvs&([s2 vss']&Hvss&[= -> <-])%bind_Some).
    destruct (swd_flush_refines v lost identity d current batch c s1 vs Hd Hag Hb Hvs) as (d1&cur1&c1&m&E&Hy&Hd1&Hag1&Hm).
    rewrite <- Hy in Hvss. destruct (IH d1 cur1 c1 vss' Hd1 Hag1 Hok Hvss) as (c2&ms&E2&Hy2&Hms).
    exists c2, (m :: ms). cbn. rewrite E, E2. split_and!; [done|done|]. by constructor.
Qed.

(** Two ports of one version, the second on a shared wire that another target
    holds. *)
Definition sample_port : sw_dp := mkSwDp 0 None (Some 5) None None.
Definition sample_chip : chip registers := mkChip 0 0 0 false true sample_registers.
Definition sample_lost (c : chip registers) : Z := 0xdeadbeef.

Lemma swd_port_refines_witness :
  exists c ms, flushes V5 sample_lost (Some 7) (mkSwDp 0x10 None (Some 5) None (Some 7)) (Some 3)
      [[ApWrite 0x01000004 0x20000000; ApRead 0x010000fc; DpRead TARGETID; ApRead 0x01000004; ApRead 0x010000f8];
       [Run 8; ApRead 0x01000004; Abort 0x1e]]
      (mkChip 0x50 0 0 false false sample_registers) = (c, ms)
    /\ Forall2 settled_with
         [[None; Some 0x24770011; Some 0x11; Some 0x20000000; Some 0xe00ff003]; [None; Some 0x20000000; None]] ms.
Proof.
  edestruct (swd_port_refines (S := registers) V5 sample_lost (Some 7) (mkSwDp 0x10 None (Some 5) None (Some 7)) (Some 3)
    [[ApWrite 0x01000004 0x20000000; ApRead 0x010000fc; DpRead TARGETID; ApRead 0x01000004; ApRead 0x010000f8];
     [Run 8; ApRead 0x01000004; Abort 0x1e]] (mkChip 0x50 0 0 false false sample_registers)) as (c&ms&E&_&Hms).
  - reflexivity.
  - split; [reflexivity|]. split; [intros t [= <-]; reflexivity|]. intros Hk. discriminate Hk.
  - repeat constructor; vm_compute; congruence.
  - vm_compute. reflexivity.
  - exists c, ms. split; [exact E|exact Hms].
Defined.

(** *** What faults do

    A write whose access faults is reported as done: its packet is
    acknowledged before the access is made. *)
Theorem swd_write_fault_unreported :
  let '(_, _, c, m) := flush V5 sample_lost None sample_port None [ApWrite broken_register 1] sample_chip in
  m !! 0%nat = Some (Ok None) /\ sticky c = true.
Proof. split; vm_compute; reflexivity. Qed.

(** A write of SELECT that the chip refuses still updates the port's copy: once
    the error is cleared, the port reads the wrong register. *)
Theorem swd_fault_desynchronises_select :
  exists c m1 m2 m3, flushes V5 sample_lost None sample_port None
      [[ApRead broken_register; ApRead 0x010000f8]; [Abort ABORT_ALL]; [ApRead 0x010000f8]] sample_chip = (c, [m1; m2; m3])
    /\ m1 !! 0%nat = Some (Err DpAccessFailure) /\ m1 !! 1%nat = Some (Err DpAccessFailure)
    /\ m3 !! 0%nat = Some (Ok (Some 0xbad)) /\ exec_dp (sys sample_chip) (ApRead 0x010000f8) = Some (sample_registers, Some 0xe00ff003).
Proof.
  destruct (flushes V5 sample_lost None sample_port None
      [[ApRead broken_register; ApRead 0x010000f8]; [Abort ABORT_ALL]; [ApRead 0x010000f8]] sample_chip) as [c ms] eqn:E.
  vm_compute in E. injection E as <- <-. do 4 eexists. split; [reflexivity|]. repeat split; vm_compute; reflexivity.
Qed.

(** Two ports of a shared wire that flush before the interface does: the second
    trusts a selection that the first is about to change, and its copy of SELECT
    outlives the reset. *)
Theorem shared_wire_race :
  let ours := mkSwDp 0x010000f0 None (Some 5) None (Some 7) in
  let theirs := mkSwDp 0 None (Some 5) None (Some 8) in
  let first := flush_lower theirs (Some 7) [Run 1] in
  let second := flush_lower ours (Some 7) [ApRead 0x010000f8] in
  let chip := mkChip 0x010000f0 0 0 false true (mkRegisters (list_to_map [(0x010000f8, 1); (0x00000008, 2)]) ∅ 0) in
  let io := interface_flush (Some 7) (with_futures (posted first ++ posted second)) in
  let '(_, rs) := packets V5 sample_lost (Some 7) chip (fst <$> wire io) in
  let drained := (length (posted first) + 3)%nat in
  records second = [(0%nat, 3%nat)] /\ interface_results io rs !! drained = Some (Ok (Some 2)).
Proof. split; vm_compute; reflexivity. Qed.
