(* ===== verification/JtagDp.v ===== *)
(** * The debug port over JTAG (src/acrobe/component/arm/jtag_dp.py)

    [JtagDpLowerer] lowers a batch of debug port operations to scans of the
    35-bit registers DPACC and APACC.  The response to an access arrives with the
    next scan, so the future of each access is bound to the scan after it; the
    batch ends with a scan that brings the last response in.  A JTAG-DP
    acknowledges accesses that fault: once the control bits of CTRL/STAT are
    known, the batch also reads CTRL/STAT, clears its sticky flags, and fails as
    a whole when an access faulted.

    The chip is the JTAG-DP of the ARM Debug Interface.  Besides the promise of a
    [DebugPort], the theorem here is that no fault goes unnoticed. *)

From S2P Require Import Prelude ArmDp.

(** ** Scans *)

Inductive scan : Type :=
  | Dpacc (value : Z) (read_tdo : bool)
  | Apacc (value : Z) (read_tdo : bool) (post_dr_run : Z)
  | AbortScan (value : Z)
  | TapRun (cycles : Z).

(** [_Wire.pack] and [_Wire.unpack] *)
Definition pack (rnw : bool) (addr data : Z) : Z :=
  Z.lor (Z.lor (Z.shiftl (Z.land data 0xffffffff) 3) (Z.shiftr (Z.land addr 0xc) 1)) (if rnw then 1 else 0).

Definition unpack (v : Z) : Z * Z := (Z.land v 7, Z.land (Z.shiftr v 3) 0xffffffff).

Definition ACK_OK_FAULT : Z := 2.
Definition ACK_WAIT : Z := 1.
Definition ACK_V1_OK : Z := 4.

Definition INTER_AP_RUN : Z := 8.

(** ** Lowering *)

Abbreviation future := nat (only parsing).

(** What a slot is for: a user's future, or the batch's own check. *)
Inductive upper : Type := User (f : future) | Check.

Inductive slot_kind : Type := Completion | Data.

Record slot := mkSlot { s_upper : upper; s_kind : slot_kind; s_scan : nat }.

(** The fields of the lowerer, and the scans posted so far, whose positions are
    their futures.  [checked] are the positions of the two slots of the check. *)
Record lowerer := mkLowerer {
  version : Z;
  ctrl_stat : option Z;
  uses_select1 : bool;
  last_select : option Z;
  last_select1 : option Z;
  pending : option upper;
  slots : list slot;
  checked : option (nat * nat);
  posted : list scan;
}.

Definition new_lowerer (version : Z) (ctrl : option Z) (select1 : bool) : lowerer :=
  mkLowerer version ctrl select1 None None None [] None [].

Definition with_select (s : option Z) (l : lowerer) : lowerer :=
  mkLowerer (version l) (ctrl_stat l) (uses_select1 l) s (last_select1 l) (pending l) (slots l) (checked l) (posted l).
Definition with_select1 (s : option Z) (l : lowerer) : lowerer :=
  mkLowerer (version l) (ctrl_stat l) (uses_select1 l) (last_select l) s (pending l) (slots l) (checked l) (posted l).
Definition with_pending (p : option upper) (l : lowerer) : lowerer :=
  mkLowerer (version l) (ctrl_stat l) (uses_select1 l) (last_select l) (last_select1 l) p (slots l) (checked l) (posted l).
Definition with_ctrl (c : option Z) (l : lowerer) : lowerer :=
  mkLowerer (version l) c (uses_select1 l) (last_select l) (last_select1 l) (pending l) (slots l) (checked l) (posted l).
Definition with_check (c : option (nat * nat)) (l : lowerer) : lowerer :=
  mkLowerer (version l) (ctrl_stat l) (uses_select1 l) (last_select l) (last_select1 l) (pending l) (slots l) c (posted l).
Definition post (s : scan) (l : lowerer) : lowerer :=
  mkLowerer (version l) (ctrl_stat l) (uses_select1 l) (last_select l) (last_select1 l) (pending l) (slots l) (checked l)
    (posted l ++ [s]).
Definition add_slot (x : slot) (l : lowerer) : lowerer :=
  mkLowerer (version l) (ctrl_stat l) (uses_select1 l) (last_select l) (last_select1 l) (pending l) (slots l ++ [x])
    (checked l) (posted l).

Definition is_pending (l : lowerer) : bool := match pending l with Some _ => true | None => false end.

(** The response in the scan posted next goes to the access before it. *)
Definition chain_pending (l : lowerer) : lowerer :=
  match pending l with
  | Some u => with_pending None (add_slot (mkSlot u Data (length (posted l))) l)
  | None => l
  end.

(** [dp_access] and [ap_access] *)
Definition dp_access (read : bool) (address data : Z) (l : lowerer) : lowerer :=
  post (Dpacc (pack read address data) (is_pending l)) (chain_pending l).
Definition ap_access (read : bool) (address data : Z) (l : lowerer) : lowerer :=
  post (Apacc (pack read address data) (is_pending l) INTER_AP_RUN) (chain_pending l).

(** [select] *)
Definition select (value : Z) (l : lowerer) : lowerer :=
  if bool_decide (last_select l = Some value) then l
  else dp_access false SELECT value (with_select (Some value) l).

(** [self.last_select or 0] *)
Definition selected (l : lowerer) : Z := default 0 (last_select l).

Definition ap_select (address : Z) (l : lowerer) : lowerer :=
  select (Z.lor (Z.land address 0xFFFFFFF0) (Z.land (selected l) 0xf)) l.

Definition dp_select (address : Z) (read : bool) (l : lowerer) : lowerer :=
  let dp_low := Z.land address 0xc in
  if dp_low =? RDBUFF then l
  else if negb read && (dp_low =? SELECT) then l
  else
    let dp_bank := Z.land (Z.shiftr address 4) 0xf in
    select (Z.lor dp_bank (Z.land (selected l) 0xFFFFFFF0)) l.

Definition select1 (value : Z) (l : lowerer) : lowerer :=
  if bool_decide (last_select1 l = Some value) then l
  else
    let l := with_select1 (Some value) l in
    let l := dp_select SELECT1 false l in
    dp_access false SELECT1 value l.

(** [flush] *)
Definition flush_pending (l : lowerer) : lowerer := if is_pending l then dp_access true RDBUFF 0 l else l.

(** [dp_read_write] and [ap_read_write] *)
Definition dp_read_write (read : bool) (address data : Z) (u : upper) (l : lowerer) : lowerer :=
  let l := if negb read && (address =? CTRL_STAT) then with_ctrl (Some (Z.ldiff data STICKY_MASK)) l else l in
  with_pending (Some u) (dp_access read address data (dp_select address read l)).

Definition ap_read_write (read : bool) (address data : Z) (u : upper) (l : lowerer) : lowerer :=
  let l := if uses_select1 l then select1 (Z.shiftr address 32) l else l in
  with_pending (Some u) (ap_access read address data (ap_select address l)).

(** [run] and [abort]: the future gets the completion of the scan. *)
Definition complete_with (u : upper) (s : scan) (l : lowerer) : lowerer :=
  post s (add_slot (mkSlot u Completion (length (posted l))) l).

Definition lower_op (l : lowerer) (x : dp_op * future) : lowerer :=
  let '(o, f) := x in
  match o with
  | Run cycles => complete_with (User f) (TapRun cycles) l
  | Abort what => post (TapRun INTER_AP_RUN) (complete_with (User f) (AbortScan (Z.shiftl what 3)) l)
  | ApRead a => ap_read_write true a 0 (User f) l
  | ApWrite a d => ap_read_write false a d (User f) l
  | DpRead a => dp_read_write true a 0 (User f) l
  | DpWrite a d => dp_read_write false a d (User f) l
  end.

(** [sticky_check]: the slots of the two responses are the next ones. *)
Definition sticky_check (l : lowerer) : lowerer :=
  let l := dp_select CTRL_STAT true l in
  let l := with_pending (Some Check) (dp_access true CTRL_STAT 0 l) in
  let stat := length (slots l) in
  let l := with_pending (Some Check) (dp_access false CTRL_STAT (Z.lor (default 0 (ctrl_stat l)) STICKY_MASK) l) in
  let clear := length (slots l) in
  let l := dp_access true RDBUFF 0 l in
  with_check (Some (stat, clear)) l.

(** [process] *)
Definition with_futures {A} (l : list A) : list (A * future) := zip l (seq 0 (length l)).

Definition process (l : lowerer) (batch : list dp_op) : lowerer :=
  let l := foldl lower_op l (with_futures batch) in
  match ctrl_stat l with Some _ => sticky_check l | None => flush_pending l end.

(** ** Settling *)

(** The result or the error of a slot, given the results of the scans. *)
Definition slot_result (version : Z) (results : list (result (option Z))) (x : slot) : result (option Z) :=
  match results !! s_scan x with
  | None => Err RuntimeError
  | Some r =>
      match s_kind x with
      | Completion => r
      | Data =>
          tdo ← r;
          match tdo with
          | None => Err TypeError
          | Some tdo =>
              let '(ack, data) := unpack tdo in
              if ack =? ACK_WAIT then Err DpAccessFailure
              else if ((version =? 0) && (ack =? ACK_OK_FAULT)) || (ack =? ACK_V1_OK) then Ok (Some data)
              else Err DpAccessFailure
          end
      end
  end.

(** [__finalize]: the error of the check, if any. *)
Definition check_error (l : lowerer) (results : list (result (option Z))) : option exn :=
  match checked l with
  | None => None
  | Some (stat, clear) =>
      let at_slot i := match slots l !! i with Some x => slot_result (version l) results x | None => Err RuntimeError end in
      match at_slot stat, at_slot clear with
      | Err e, _ => Some e
      | _, Err e => Some e
      | Ok (Some stat), Ok _ => if Z.land stat STICKYERR =? 0 then None else Some DpAccessFailure
      | Ok None, Ok _ => Some TypeError
      end
  end.

Definition finalize_slot (l : lowerer) (error : option exn) (results : list (result (option Z))) (m : outcomes) (x : slot)
    : outcomes :=
  match s_upper x with
  | Check => m
  | User f =>
      if bool_decide (is_Some (m !! f)) then m
      else <[f := match error with Some e => Err e | None => slot_result (version l) results x end]> m
  end.

Definition finalize (l : lowerer) (results : list (result (option Z))) : outcomes :=
  foldl (finalize_slot l (check_error l results) results) ∅ (slots l).

(** ** The chip

    A JTAG-DP: SELECT and SELECT1, the response to the last access (an
    acknowledge and data), the sticky error, and the system.  [lost] is what the
    data of a response are when the access read nothing. *)

Record chip (S : Type) := mkChip {
  sel : Z; sel1 : Z; response : Z * Z; sticky : bool; sys : S;
}.
Arguments mkChip {S} _ _ _ _ _.
Arguments sel {S} _. Arguments sel1 {S} _. Arguments response {S} _. Arguments sticky {S} _. Arguments sys {S} _.

Section Chip.
Context {S : Type} `{System S} (v : adi) (protocol : Z) (lost : chip S -> Z).

Definition ack_ok : Z := if protocol =? 0 then ACK_OK_FAULT else ACK_V1_OK.
Definition ack_fault : Z := ACK_OK_FAULT.

(** CTRL/STAT shows the sticky error. *)
Definition stat_value (c : chip S) : Z :=
  let x := dp_read (sys c) CTRL_STAT in if sticky c then Z.lor x STICKYERR else x.

(** The fields of a request. *)
Definition request (value : Z) : bool * Z * Z :=
  (Z.odd value, Z.land (Z.shiftl value 1) 0xc, Z.land (Z.shiftr value 3) 0xffffffff).

Definition respond (c : chip S) (r : Z * Z) : chip S := mkChip (sel c) (sel1 c) r (sticky c) (sys c).

Definition dp_transaction (c : chip S) (value : Z) : chip S :=
  let '(read, a, data) := request value in
  if read then
    respond c (ack_ok,
      if Z.land a 8 =? 0
      then if dp_target (sel c) a =? CTRL_STAT then stat_value c else dp_read (sys c) (dp_target (sel c) a)
      else lost c)
  else if a =? SELECT then mkChip data (sel1 c) (ack_ok, lost c) (sticky c) (sys c)
  else if (a =? 4) && (Z.land (sel c) 0xf =? 5) then mkChip (sel c) data (ack_ok, lost c) (sticky c) (sys c)
  else if a =? RDBUFF then respond c (ack_ok, lost c)
  else if dp_target (sel c) a =? CTRL_STAT then
    mkChip (sel c) (sel1 c) (ack_ok, lost c) (sticky c && negb (Z.testbit data 5))
      (dp_write (sys c) CTRL_STAT (Z.ldiff data STICKY_MASK))
  else mkChip (sel c) (sel1 c) (ack_ok, lost c) (sticky c) (dp_write (sys c) (dp_target (sel c) a) data).

(** An access that faults, or that a sticky error makes the port ignore. *)
Definition failed (c : chip S) : chip S := mkChip (sel c) (sel1 c) (ack_fault, lost c) true (sys c).

Definition ap_transaction (c : chip S) (value : Z) : chip S :=
  let '(read, a, data) := request value in
  let a := ap_target v (sel c) (sel1 c) a in
  if sticky c then failed c
  else if read then
    match ap_read (sys c) a with
    | Some (s, x) => mkChip (sel c) (sel1 c) (ack_ok, x) false s
    | None => failed c
    end
  else
    match ap_write (sys c) a data with
    | Some s => mkChip (sel c) (sel1 c) (ack_ok, lost c) false s
    | None => failed c
    end.

(** What a scan shifts out. *)
Definition tdo (c : chip S) : Z :=
  let '(ack, data) := response c in Z.lor (Z.shiftl (Z.land data 0xffffffff) 3) ack.

Definition run_scan (c : chip S) (s : scan) : chip S * result (option Z) :=
  match s with
  | Dpacc value read => (dp_transaction c value, Ok (if read then Some (tdo c) else None))
  | Apacc value read _ => (ap_transaction c value, Ok (if read then Some (tdo c) else None))
  | AbortScan value => (mkChip (sel c) (sel1 c) (response c) (sticky c) (dp_abort (sys c) (Z.shiftr value 3)), Ok None)
  | TapRun _ => (c, Ok None)
  end.

Fixpoint run_scans (c : chip S) (l : list scan) : chip S * list (result (option Z)) :=
  match l with
  | [] => (c, [])
  | s :: l => let '(c, r) := run_scan c s in let '(c, rs) := run_scans c l in (c, r :: rs)
  end.

(** [JtagDp.flush_ops]: the object keeps the control bits. *)
Definition flush (ctrl : option Z) (batch : list dp_op) (c : chip S) : option Z * chip S * outcomes :=
  let l := process (new_lowerer protocol ctrl (bool_decide (v = V6Large))) batch in
  let '(c, rs) := run_scans c (posted l) in
  (ctrl_stat l, c, finalize l rs).
End Chip.

(** ** Requests and responses *)

Lemma request_pack read a d : request (pack read a d) = (read, Z.land a 0xc, Z.land d 0xffffffff).
Proof.
  unfold request, pack. change 0xffffffff with (Z.ones 32). f_equal; [f_equal|].
  - rewrite <- Z.bit0_odd. field_masks.
    repeat (first [rewrite Z.testbit_ones by lia | progress bit_rewrite | bit_below | bit_case]); by destruct read.
  - apply Z.bits_inj'. intros i Hi. field_masks.
    assert (Z.testbit (if read then 1 else 0) (i - 1) = (read && (i =? 1))) as Hb.
    { destruct read; [rewrite testbit_1; bitwise_core|by rewrite Z.bits_0]. }
    repeat (first [rewrite Hb | rewrite Z.testbit_ones by lia | progress bit_rewrite | bit_below | bit_case]);
      try lia; try done; try (f_equal; lia).
  - apply Z.bits_inj'. intros i Hi. field_masks.
    assert (Z.testbit (if read then 1 else 0) (i + 3) = false) as Hb.
    { destruct read; [rewrite testbit_1|by rewrite Z.bits_0]. by apply Z.eqb_neq; lia. }
    repeat (first [rewrite Hb | rewrite Z.testbit_ones by lia | progress bit_rewrite | bit_below | bit_case]);
      try lia; try done; try (f_equal; lia).
Qed.

Lemma unpack_tdo ack x : 0 <= ack < 8 -> 0 <= x < 2 ^ 32 ->
  unpack (Z.lor (Z.shiftl (Z.land x 0xffffffff) 3) ack) = (ack, x).
Proof.
  intros Ha Hx. change 8 with (2 ^ 3) in Ha. unfold unpack. change 0xffffffff with (Z.ones 32). change 7 with (Z.ones 3).
  f_equal; apply Z.bits_inj'; intros i Hi;
    repeat (first [rewrite Z.testbit_ones by lia | progress bit_rewrite | bit_above | bit_below | bit_case]);
    try lia; try done; try (f_equal; lia).
Qed.

Lemma unpack_ack ack x : 0 <= ack < 8 -> exists y, unpack (Z.lor (Z.shiftl (Z.land x 0xffffffff) 3) ack) = (ack, y).
Proof.
  intros Ha. exists (Z.land x 0xffffffff). rewrite <- (unpack_tdo ack (Z.land x 0xffffffff)).
  - do 2 f_equal. change 0xffffffff with (Z.ones 32). bitwise.
  - done.
  - change 0xffffffff with (Z.ones 32). rewrite Z.land_ones by lia. by apply Z.mod_pos_bound.
Qed.

(** ** The simulation

    After part of a batch: the scans posted so far ran on the chip, the caches
    are the chip's registers, the control bits are the system's.  While [good],
    no access has faulted: the response to the last access waits in the chip,
    and every slot holds the value its operation is to have. *)

Section Simulation.
Context {S : Type} `{WordSystem S} (v : adi) (protocol : Z) (lost : chip S -> Z) (start : chip S).
Abbreviation runs := (run_scans v protocol lost).
Abbreviation ok_ack := (ack_ok protocol).

(** The control bits the port remembers are words the system holds. *)
Definition known (s : S) (x : Z) : Prop := holds_ctrl s x /\ 0 <= x < 2 ^ 32.

Definition carries (vs : list (option Z)) (u : upper) (z : option Z) : Prop :=
  forall f, u = User f -> exists y, vs !! f = Some y /\ (y = None \/ z = y).

Record simulates (l : lowerer) (vs : list (option Z)) (good : bool) (c : chip S) (rs : list (result (option Z)))
    : Prop := {
  sim_run : runs start (posted l) = (c, rs);
  sim_object : version l = protocol /\ uses_select1 l = bool_decide (v = V6Large) /\ checked l = None;
  sim_select : forall x, last_select l = Some x -> sel c = x;
  sim_select1 : v = V6Large -> forall x, last_select1 l = Some x -> sel1 c = x;
  sim_ctrl : forall x, ctrl_stat l = Some x -> known (sys c) x;
  sim_slots : forall x, x ∈ slots l -> good = true ->
    exists z, slot_result protocol rs x = Ok z /\ carries vs (s_upper x) z;
  sim_pending : forall u, pending l = Some u -> good = true ->
    exists d, response c = (ok_ack, d) /\ (carries vs u None \/ 0 <= d < 2 ^ 32 /\ carries vs u (Some d));
  sim_covered : forall f, (f < length vs)%nat -> pending l = Some (User f) \/ exists x, x ∈ slots l /\ s_upper x = User f;
}.

Definition simulated l vs good c : Prop := exists rs, simulates l vs good c rs.

Lemma runs_snoc c l s c1 rs c2 r :
  runs c l = (c1, rs) -> run_scan v protocol lost c1 s = (c2, r) -> runs c (l ++ [s]) = (c2, rs ++ [r]) /\ length rs = length l.
Proof.
  revert c rs. induction l as [|x l IH]; intros c rs; cbn [app run_scans].
  - intros [= <- <-] ->. done.
  - destruct (run_scan v protocol lost c x) as [c' r']. destruct (runs c' l) as [c'' rs'] eqn:E. intros [= <- <-] Hs.
    destruct (IH c' rs' E Hs) as [-> Hl]. cbn. by rewrite Hl.
Qed.

Lemma slot_result_app rs r x z : slot_result protocol rs x = Ok z -> slot_result protocol (rs ++ r) x = Ok z.
Proof.
  unfold slot_result. destruct (rs !! s_scan x) as [y|] eqn:E; [|done]. by rewrite (lookup_app_l_Some _ _ _ _ E).
Qed.

(** A response with the right acknowledge. *)
Lemma data_slot rs (c : chip S) u w d :
  protocol = 0 \/ protocol = 1 -> rs !! w = Some (Ok (Some (tdo c))) -> response c = (ok_ack, d) ->
  exists y, slot_result protocol rs (mkSlot u Data w) = Ok (Some y) /\ (0 <= d < 2 ^ 32 -> y = d).
Proof.
  intros Hp Hw Hr. unfold slot_result. cbn [s_scan s_kind]. rewrite Hw. unfold tdo. rewrite Hr.
  assert (0 <= ok_ack < 8) as Hack by (destruct Hp as [-> | ->]; by vm_compute).
  destruct (unpack_ack ok_ack d Hack) as [y Hy]. cbn [mbind result_bind]. rewrite Hy. exists y. split.
  - by destruct Hp as [-> | ->].
  - intros Hd. rewrite (unpack_tdo ok_ack d Hack Hd) in Hy. congruence.
Qed.

(** One scan more: it takes in the response to the access before it. *)
Lemma simulated_scan s l vs good c l' good' c' :
  protocol = 0 \/ protocol = 1 -> simulated l vs good c ->
  run_scan v protocol lost c s = (c', Ok (if is_pending l then Some (tdo c) else None)) ->
  posted l' = posted l ++ [s] -> slots l' = slots (chain_pending l) -> pending l' = None ->
  version l' = version l /\ uses_select1 l' = uses_select1 l /\ checked l' = checked l ->
  (forall x, last_select l' = Some x -> sel c' = x) ->
  (v = V6Large -> forall x, last_select1 l' = Some x -> sel1 c' = x) ->
  (forall x, ctrl_stat l' = Some x -> known (sys c') x) ->
  (good' = true -> good = true) ->
  simulated l' vs good' c'.
Proof.
  intros Hproto [rs []] Hrun Hpost Hslots Hpend Hobj Hsel Hsel1 Hctrl Hgood.
  destruct (runs_snoc _ _ _ _ _ _ _ sim_run0 Hrun) as [Hrun' Hlen].
  exists (rs ++ [Ok (if is_pending l then Some (tdo c) else None)]). constructor; try done.
  - by rewrite Hpost.
  - destruct Hobj as (->&->&->). done.
  - intros x. rewrite Hslots. unfold chain_pending. destruct (pending l) as [u|] eqn:Eu; cbn [with_pending add_slot slots].
    + intros [Hx| ->%list_elem_of_singleton]%elem_of_app Hg; specialize (Hgood Hg).
      * destruct (sim_slots0 x Hx Hgood) as (z&Hz&?). exists z. split; [by apply slot_result_app|done].
      * destruct (sim_pending0 u eq_refl Hgood) as (d&Hd&Hu).
        destruct (data_slot (rs ++ [Ok (if is_pending l then Some (tdo c) else None)]) c u (length (posted l)) d Hproto)
          as (y&Hy&Hyd); [|done|].
        { unfold is_pending. rewrite Eu, <- Hlen. by rewrite list_lookup_middle. }
        exists (Some y). split; [done|]. destruct Hu as [Hu|[Hr Hu]].
        -- intros f Hf. destruct (Hu f Hf) as (x&?&[?|?]); exists x; split; auto.
        -- by rewrite (Hyd Hr).
    + intros Hx Hg. destruct (sim_slots0 x Hx (Hgood Hg)) as (z&Hz&?). exists z. split; [by apply slot_result_app|done].
  - rewrite Hpend. done.
  - intros f Hf. rewrite Hslots. right. unfold chain_pending.
    destruct (sim_covered0 f Hf) as [-> |(x&Hx&Hu)]; cbn [with_pending add_slot slots].
    + eexists. split; [apply elem_of_app; right; by left|done].
    + exists x. split; [|done]. destruct (pending l); [|done]. apply elem_of_app. by left.
Qed.

(** The operation just posted is in flight. *)
Lemma simulated_in_flight l vs good c y :
  simulated l vs good c -> pending l = None ->
  (good = true -> exists d, response c = (ok_ack, d) /\ (y = None \/ y = Some d /\ 0 <= d < 2 ^ 32)) ->
  simulated (with_pending (Some (User (length vs))) l) (vs ++ [y]) good c.
Proof.
  intros [rs []] Hp Hresp. exists rs. constructor; try done.
  - intros x Hx Hg. destruct (sim_slots0 x Hx Hg) as (z&Hz&Hc). exists z. split; [done|].
    intros f Hf. destruct (Hc f Hf) as (y'&?&?). exists y'. split; [by apply lookup_app_l_Some|done].
  - intros u [= <-] Hg. destruct (Hresp Hg) as (d&Hd&Hy). exists d. split; [done|].
    destruct Hy as [-> |[-> Hr]]; [left|right; split; [done|]]; intros f [= <-]; eexists; (split; [by rewrite list_lookup_middle|]); auto.
  - intros f. rewrite length_app. cbn. intros Hf. destruct (decide (f = length vs)) as [->|]; [by left|].
    destruct (sim_covered0 f ltac:(lia)) as [?|?]; [congruence|by right].
Qed.

(** A scan that completes its own operation and leaves the response. *)
Lemma simulated_complete s l vs good c c' :
  simulated l vs good c -> run_scan v protocol lost c s = (c', Ok None) ->
  sel c' = sel c -> sel1 c' = sel1 c -> response c' = response c ->
  (forall x, known (sys c) x -> known (sys c') x) ->
  simulated (complete_with (User (length vs)) s l) (vs ++ [None]) good c'.
Proof.
  intros [rs []] Hrun Hsel Hsel1 Hresp Hctrl. destruct (runs_snoc _ _ _ _ _ _ _ sim_run0 Hrun) as [Hrun' Hlen].
  assert (Hmono : forall u z, carries vs u z -> carries (vs ++ [None]) u z).
  { intros u z Hc f Hf. destruct (Hc f Hf) as (y&?&?). exists y. split; [by apply lookup_app_l_Some|done]. }
  exists (rs ++ [Ok None]). constructor; try done.
  - by rewrite Hsel.
  - by rewrite Hsel1.
  - cbn. eauto.
  - cbn. intros x [Hx| ->%list_elem_of_singleton]%elem_of_app Hg.
    + destruct (sim_slots0 x Hx Hg) as (z&Hz&Hc). exists z. split; [by apply slot_result_app|by apply Hmono].
    + exists None. split; [unfold slot_result; cbn; by rewrite <- Hlen, list_lookup_middle|].
      intros f [= <-]. exists None. split; [by rewrite list_lookup_middle|by left].
  - cbn. intros u Hu Hg. rewrite Hresp. destruct (sim_pending0 u Hu Hg) as (d&?&[?|[? ?]]); exists d; (split; [done|]);
      [left|right; split; [done|]]; by apply Hmono.
  - cbn. intros f. rewrite length_app. cbn. intros Hf. destruct (decide (f = length vs)) as [->|].
    + right. eexists. split; [apply elem_of_app; right; by left|done].
    + destruct (sim_covered0 f ltac:(lia)) as [?|(x&?&?)]; [by left|right]. exists x. split; [apply elem_of_app; by left|done].
Qed.
Context (Hproto : protocol = 0 \/ protocol = 1).

Lemma land_word x : 0 <= x < 2 ^ 32 -> Z.land x 0xffffffff = x.
Proof. intros Hx. change 0xffffffff with (Z.ones 32). rewrite Z.land_ones by lia. by apply Z.mod_small. Qed.

(** What a scan leaves of the lowerer. *)
Lemma chain_pending_fields l :
  posted (chain_pending l) = posted l /\ pending (chain_pending l) = None /\ version (chain_pending l) = version l
  /\ uses_select1 (chain_pending l) = uses_select1 l /\ checked (chain_pending l) = checked l
  /\ last_select (chain_pending l) = last_select l /\ last_select1 (chain_pending l) = last_select1 l
  /\ ctrl_stat (chain_pending l) = ctrl_stat l.
Proof. unfold chain_pending. destruct (pending l) eqn:E; by split_and!. Qed.

(** The same lowerer but for its caches. *)
Definition same_progress (l l2 : lowerer) : Prop :=
  posted l2 = posted l /\ slots l2 = slots l /\ pending l2 = pending l
  /\ version l2 = version l /\ uses_select1 l2 = uses_select1 l /\ checked l2 = checked l.

Lemma simulated_access s l l2 vs good c good' c' :
  simulated l vs good c -> same_progress l l2 ->
  run_scan v protocol lost c s = (c', Ok (if is_pending l then Some (tdo c) else None)) ->
  (forall x, last_select l2 = Some x -> sel c' = x) ->
  (v = V6Large -> forall x, last_select1 l2 = Some x -> sel1 c' = x) ->
  (forall x, ctrl_stat l2 = Some x -> known (sys c') x) ->
  (good' = true -> good = true) ->
  simulated (post s (chain_pending l2)) vs good' c' /\ pending (post s (chain_pending l2)) = None.
Proof.
  intros Hsim (E1&E2&E3&E4&E5&E6) Hrun Hsel Hsel1 Hctrl Hgood.
  destruct (chain_pending_fields l2) as (F1&F2&F3&F4&F5&F6&F7&F8). split; [|exact F2].
  apply (simulated_scan s l vs good c); cbn [post posted slots pending version uses_select1 checked last_select last_select1 ctrl_stat];
    try done; try congruence.
  - unfold chain_pending. rewrite E1, E3. by destruct (pending l); cbn; rewrite E2.
  - split_and!; congruence.
  - by rewrite F6.
  - by rewrite F7.
  - by rewrite F8.
Qed.

Lemma is_pending_same l l2 : same_progress l l2 -> is_pending l2 = is_pending l.
Proof. intros (_&_&E&_). unfold is_pending. by rewrite E. Qed.

Lemma select_simulated value l vs good c :
  simulated l vs good c -> 0 <= value < 2 ^ 32 ->
  exists c', simulated (select value l) vs good c' /\ sys c' = sys c /\ sticky c' = sticky c
    /\ sel c' = value /\ sel1 c' = sel1 c /\ last_select (select value l) = Some value
    /\ last_select1 (select value l) = last_select1 l /\ ctrl_stat (select value l) = ctrl_stat l.
Proof.
  intros Hsim Hv. unfold select. case_bool_decide as E.
  - exists c. split_and!; try done. destruct Hsim as [rs []]. eauto.
  - exists (mkChip value (sel1 c) (ok_ack, lost c) (sticky c) (sys c)).
    destruct (chain_pending_fields (with_select (Some value) l)) as (_&_&_&_&_&F1&F2&F3).
    split_and!; try done. pose proof Hsim as [rs []].
    eapply (simulated_access (Dpacc (pack false SELECT value) (is_pending l)) l (with_select (Some value) l)); try done.
    + cbn [run_scan]. unfold dp_transaction. rewrite request_pack, land_word by done. done.
    + cbn. by intros x [= <-].
Qed.

Lemma bank_select x a :
  0 <= Z.lor (Z.land (Z.shiftr a 4) 0xf) (Z.land x 0xFFFFFFF0) < 2 ^ 32
  /\ Z.land (Z.lor (Z.land (Z.shiftr a 4) 0xf) (Z.land x 0xFFFFFFF0)) 0xf = Z.land (Z.shiftr a 4) 0xf.
Proof. split; [apply lor_bound; by apply land_bound|address_bits]. Qed.

Lemma dp_select_simulated a read l vs good c :
  simulated l vs good c -> Z.land a 8 = 0 ->
  exists c', simulated (dp_select a read l) vs good c' /\ sys c' = sys c /\ sticky c' = sticky c
    /\ Z.land (sel c') 0xf = Z.land (Z.shiftr a 4) 0xf /\ sel1 c' = sel1 c
    /\ last_select1 (dp_select a read l) = last_select1 l /\ ctrl_stat (dp_select a read l) = ctrl_stat l.
Proof.
  intros Hsim H8. unfold dp_select.
  assert (Z.land (Z.land a 0xc) 8 = 0) as E8 by (rewrite <- Z.land_assoc; done).
  rewrite (proj2 (Z.eqb_neq (Z.land a 0xc) RDBUFF)) by (intros E; by rewrite E in E8).
  rewrite (proj2 (Z.eqb_neq (Z.land a 0xc) SELECT)) by (intros E; by rewrite E in E8). rewrite andb_false_r.
  destruct (bank_select (selected l) a) as [Hb Hbank].
  destruct (select_simulated _ l vs good c Hsim Hb) as (c'&Hs&?&?&Hsel&?&_&?&?). exists c'. split_and!; try done.
  by rewrite Hsel.
Qed.

Lemma select1_simulated value l vs good c :
  simulated l vs good c -> v = V6Large -> 0 <= value < 2 ^ 32 ->
  exists c', simulated (select1 value l) vs good c' /\ sys c' = sys c /\ sticky c' = sticky c /\ sel1 c' = value
    /\ last_select1 (select1 value l) = Some value /\ ctrl_stat (select1 value l) = ctrl_stat l.
Proof.
  intros Hsim Hv Hr. unfold select1. case_bool_decide as E.
  - exists c. split_and!; try done. destruct Hsim as [rs []]. eauto.
  - assert (dp_select SELECT1 false (with_select1 (Some value) l) = with_select1 (Some value) (dp_select SELECT1 false l)) as ->.
    { unfold dp_select, select, dp_access, chain_pending. cbn. unfold selected. cbn. case_bool_decide; [done|]. cbn.
      by destruct (pending l). }
    destruct (dp_select_simulated SELECT1 false l vs good c Hsim eq_refl) as (c1&H1&Hy&Hst&Hbank&_&_&Hct).
    set (l1 := dp_select SELECT1 false l) in *. pose proof H1 as [rs []].
    exists (mkChip (sel c1) value (ok_ack, lost c1) (sticky c1) (sys c1)).
    destruct (chain_pending_fields (with_select1 (Some value) l1)) as (_&_&_&_&_&F1&F2&F3).
    split_and!; try done; [|by etransitivity].
    eapply (simulated_access (Dpacc (pack false SELECT1 value) (is_pending l1)) l1 (with_select1 (Some value) l1)); try done.
    + cbn [run_scan]. unfold dp_transaction. rewrite request_pack, land_word by done.
      change (Z.land SELECT1 0xc) with 4. change (Z.land (Z.shiftr SELECT1 4) 0xf) with 5 in Hbank. by rewrite Hbank.
    + cbn. by intros _ x [= <-].
Qed.

(** Before an AP access the chip addresses its register. *)
Lemma ap_select_simulated a l vs good c :
  simulated l vs good c -> ap_addr_ok v a ->
  let l' := ap_select a (if uses_select1 l then select1 (Z.shiftr a 32) l else l) in
  exists c', simulated l' vs good c' /\ sys c' = sys c /\ sticky c' = sticky c
    /\ ap_target v (sel c') (sel1 c') (Z.land a 0xc) = a /\ ctrl_stat l' = ctrl_stat l.
Proof.
  intros Hsim Ha. cbv zeta. pose proof Hsim as [rs0 [_ (_&Hu&_) _ _ _ _ _ _]].
  assert (exists c1, simulated (if uses_select1 l then select1 (Z.shiftr a 32) l else l) vs good c1 /\ sys c1 = sys c
    /\ sticky c1 = sticky c /\ (v = V6Large -> sel1 c1 = Z.shiftr a 32)
    /\ ctrl_stat (if uses_select1 l then select1 (Z.shiftr a 32) l else l) = ctrl_stat l) as (c1&H1&Hy&Hst&Hs1&Hct).
  { rewrite Hu. case_bool_decide as Hv; [|by exists c].
    destruct (select1_simulated (Z.shiftr a 32) l vs good c Hsim Hv) as (c1&?&?&?&?&?&?); [|by exists c1].
    destruct Ha as [_ Ha]. rewrite Hv in Ha. rewrite Z.shiftr_div_pow2 by lia. split; [apply Z.div_pos; lia|].
    apply Z.div_lt_upper_bound; [lia|]. change (2 ^ 32 * 2 ^ 32) with (2 ^ 64). lia. }
  set (l1 := if uses_select1 l then _ else l) in *. unfold ap_select.
  destruct (select_simulated (Z.lor (Z.land a 0xFFFFFFF0) (Z.land (selected l1) 0xf)) l1 vs good c1 H1)
    as (c2&H2&Hy2&Hst2&Hsel&Hs12&_&_&Hct2); [apply lor_bound; by apply land_bound|].
  exists c2. split_and!; [done|congruence|congruence| |congruence].
  apply ap_target_selected; [done| |rewrite Hs12; done]. rewrite Hsel. clear. address_bits.
Qed.

(** An operation that could clear the sticky error behind the batch's back. *)
Definition keeps_sticky (o : dp_op) : Prop :=
  match o with DpWrite a d => a = CTRL_STAT -> Z.testbit d 5 = false | _ => True end.

(** One operation: either it goes as the system says, or the chip is in error
    from then on. *)
Definition stepped (o : dp_op) (good : bool) (c : chip S) (l' : lowerer) (vs : list (option Z)) : Prop :=
  exists c' good' y, simulated l' (vs ++ [y]) good' c' /\ sticky c' = negb good' /\ (good' = true -> good = true)
    /\ (good = true -> match exec_dp (sys c) o with
                       | Some (s, x) => good' = true /\ sys c' = s /\ y = x
                       | None => good' = false
                       end).

Lemma ap_op_simulated (read : bool) a d o l vs good c :
  simulated l vs good c -> sticky c = negb good -> o = (if read then ApRead a else ApWrite a d) -> dp_op_ok v o ->
  stepped o good c (ap_read_write read a (if read then 0 else d) (User (length vs)) l) vs.
Proof.
  intros Hsim Hst Ho Hok. assert (ap_addr_ok v a /\ (read = false -> 0 <= d < 2 ^ 32)) as [Ha Hd].
  { subst o. destruct read; [done|]. by destruct Hok. }
  unfold ap_read_write. destruct (ap_select_simulated a l vs good c Hsim Ha) as (c1&H1&Hy&Hst1&Haddr&_).
  set (l1 := ap_select a _) in *. set (data := if read then 0 else d).
  set (s := Apacc (pack read a data) (is_pending l1) INTER_AP_RUN). pose proof H1 as [rs []].
  assert (Hgo : forall c' good' y, ap_transaction v protocol lost c1 (pack read a data) = c' ->
    sel c' = sel c1 -> sel1 c' = sel1 c1 -> (forall x, known (sys c1) x -> known (sys c') x) ->
    (good' = true -> good = true) ->
    (good' = true -> exists z, response c' = (ok_ack, z) /\ (y = None \/ y = Some z /\ 0 <= z < 2 ^ 32)) ->
    simulated (with_pending (Some (User (length vs))) (ap_access read a data l1)) (vs ++ [y]) good' c').
  { intros c' good' y Ht Hsel Hsel1 Hctrl Hg Hresp.
    destruct (simulated_access s l1 l1 vs good c1 good' c') as [H2 Hp]; try done.
    - unfold s. cbn [run_scan]. by rewrite Ht.
    - by rewrite Hsel.
    - by rewrite Hsel1.
    - eauto.
    - by apply simulated_in_flight. }
  assert (Hreq : request (pack read a data) = (read, Z.land a 0xc, data)).
  { rewrite request_pack. unfold data. destruct read; [done|]. by rewrite land_word by auto. }
  assert (Hfail : ap_transaction v protocol lost c1 (pack read a data) = failed lost c1 ->
    (good = true -> exec_dp (sys c) o = None) -> stepped o good c
      (with_pending (Some (User (length vs))) (ap_access read a data l1)) vs).
  { intros Ht Hx. exists (failed lost c1), false, None. split_and!; try done; [by apply Hgo|].
    intros Hg. by rewrite (Hx Hg). }
  unfold ap_transaction in Hfail, Hgo. rewrite Hreq, Haddr in Hfail, Hgo. rewrite Hst1, Hst in Hfail, Hgo.
  destruct good; cbn [negb] in Hfail, Hgo; [|by apply Hfail]. subst o. destruct read.
  - destruct (ap_read (sys c1) a) as [[s1 x]|] eqn:E; rewrite Hy in E.
    + exists (mkChip (sel c1) (sel1 c1) (ok_ack, x) false s1), true, (Some x). cbn. rewrite E. cbn. split_and!; try done.
      apply Hgo; try done; [intros x' [Hx' ?]; split; [eapply ctrl_ap_read; [exact E|by rewrite <- Hy]|done]|].
      intros _. exists x. split; [done|right]. split; [done|]. by eapply ap_read_word.
    + apply Hfail; [done|]. intros _. cbn. by rewrite E.
  - unfold data in Hgo, Hfail. destruct (ap_write (sys c1) a d) as [s1|] eqn:E; rewrite Hy in E.
    + exists (mkChip (sel c1) (sel1 c1) (ok_ack, lost c1) false s1), true, None. cbn. rewrite E. cbn. split_and!; try done.
      apply Hgo; try done; [intros x' [Hx' ?]; split; [eapply ctrl_ap_write; [exact E|by rewrite <- Hy]|done]|].
      intros _. eexists. split; [done|by left].
    + apply Hfail; [done|]. intros _. cbn. by rewrite E.
Qed.

Lemma dp_access_simulated read a data l2 l vs good c c' y :
  simulated l vs good c -> same_progress l l2 ->
  dp_transaction protocol lost c (pack read a data) = c' -> sel c' = sel c -> sel1 c' = sel1 c ->
  last_select l2 = last_select l -> last_select1 l2 = last_select1 l ->
  (forall x, ctrl_stat l2 = Some x -> known (sys c') x) ->
  (good = true -> exists z, response c' = (ok_ack, z) /\ (y = None \/ y = Some z /\ 0 <= z < 2 ^ 32)) ->
  simulated (with_pending (Some (User (length vs))) (dp_access read a data l2)) (vs ++ [y]) good c'.
Proof.
  intros Hsim Hsame Ht Hsel Hsel1 Hls Hls1 Hctrl Hresp. pose proof Hsim as [rs []].
  destruct (simulated_access (Dpacc (pack read a data) (is_pending l2)) l l2 vs good c good c') as [H2 Hp]; try done.
  - cbn [run_scan]. by rewrite Ht, (is_pending_same l l2).
  - rewrite Hls, Hsel. done.
  - rewrite Hls1, Hsel1. done.
  - by apply simulated_in_flight.
Qed.

Lemma dp_read_simulated a l vs good c :
  simulated l vs good c -> sticky c = negb good -> dp_op_ok v (DpRead a) ->
  stepped (DpRead a) good c (dp_read_write true a 0 (User (length vs)) l) vs.
Proof.
  intros Hsim Hst [Ha H8]. unfold dp_read_write. cbn [negb andb].
  destruct (dp_select_simulated a true l vs good c Hsim H8) as (c1&H1&Hy&Hst1&Hbank&_&_&_).
  set (l1 := dp_select a true l) in *. pose proof H1 as [rs []].
  set (x := if a =? CTRL_STAT then stat_value c1 else dp_read (sys c1) a).
  exists (respond c1 (ok_ack, x)), good, (Some (dp_read (sys c) a)). split_and!; try done.
  - apply (dp_access_simulated true a 0 l1 l1 vs good c1); try done.
    + unfold dp_transaction. rewrite request_pack, (dp_target_selected (sel c1) a Ha Hbank).
      rewrite (proj2 (Z.eqb_eq (Z.land (Z.land a 0xc) 8) 0)) by (rewrite <- Z.land_assoc; done). done.
    + intros Hg. exists x. split; [done|right]. unfold x, stat_value. rewrite Hst1, Hst, Hg, Hy. cbn [negb].
      destruct (Z.eqb_spec a CTRL_STAT) as [->|]; (split; [done|apply dp_read_word]).
  - cbn. congruence.
Qed.

Lemma dp_select_with_ctrl a read x l : dp_select a read (with_ctrl x l) = with_ctrl x (dp_select a read l).
Proof.
  unfold dp_select. destruct (_ =? RDBUFF); [done|]. destruct (negb read && _); [done|].
  unfold select, dp_access, chain_pending. cbn. destruct (bool_decide _); [done|]. cbn. by destruct (pending l).
Qed.

Lemma dp_write_simulated a d l vs good c :
  simulated l vs good c -> sticky c = negb good -> dp_op_ok v (DpWrite a d) -> (good = false -> keeps_sticky (DpWrite a d)) ->
  stepped (DpWrite a d) good c (dp_read_write false a d (User (length vs)) l) vs.
Proof.
  intros Hsim Hst (Ha&H4&Hn&Hd) Hk.
  assert (Z.land a 8 = 0) as H8.
  { replace (Z.land a 8) with (Z.land (Z.land a 0xc) 8) by (rewrite <- Z.land_assoc; done). by rewrite H4. }
  destruct (dp_select_simulated a false l vs good c Hsim H8) as (c1&H1&Hy&Hst1&Hbank&_&_&_).
  set (l1 := dp_select a false l) in *. pose proof H1 as [rs []].
  pose proof (dp_target_selected (sel c1) a Ha Hbank) as Htarget. rewrite H4 in Htarget.
  assert (Z.land (sel c1) 0xf <> 5) as Hb5 by (intros E; apply Hn; rewrite <- Htarget; unfold dp_target; by rewrite E).
  assert (Htr : dp_transaction protocol lost c1 (pack false a d) =
    if a =? CTRL_STAT then mkChip (sel c1) (sel1 c1) (ok_ack, lost c1) (sticky c1 && negb (Z.testbit d 5)) (dp_write (sys c1) CTRL_STAT d)
    else mkChip (sel c1) (sel1 c1) (ok_ack, lost c1) (sticky c1) (dp_write (sys c1) a d)).
  { unfold dp_transaction. rewrite request_pack, H4, land_word, Htarget, ctrl_masked by done.
    rewrite (proj2 (Z.eqb_neq _ _) Hb5). done. }
  unfold dp_read_write. cbn [negb andb]. destruct (Z.eqb_spec a CTRL_STAT) as [->|Hc].
  - assert (dp_select CTRL_STAT false (with_ctrl (Some (Z.ldiff d STICKY_MASK)) l) = with_ctrl (Some (Z.ldiff d STICKY_MASK)) l1) as ->.
    { apply dp_select_with_ctrl. }
    exists (mkChip (sel c1) (sel1 c1) (ok_ack, lost c1) (sticky c1 && negb (Z.testbit d 5)) (dp_write (sys c1) CTRL_STAT d)), good, None.
    split_and!.
    + apply (dp_access_simulated false CTRL_STAT d (with_ctrl (Some (Z.ldiff d STICKY_MASK)) l1) l1 vs good c1); try done.
      * cbn. intros x [= <-]. split; [rewrite <- ctrl_masked; apply ctrl_written|].
        assert (0 <= Z.ldiff d STICKY_MASK) by (apply Z.ldiff_nonneg; lia).
        split; [done|]. apply bounded_bits; [lia|done|]. intros i Hi. by rewrite Z.ldiff_spec, (testbit_above d 32 i Hd Hi).
      * intros _. eexists. split; [done|by left].
    + cbn [sticky]. rewrite Hst1, Hst. destruct good; [done|]. rewrite (Hk eq_refl eq_refl). done.
    + done.
    + intros Hg. cbn. by rewrite Hy.
  - exists (mkChip (sel c1) (sel1 c1) (ok_ack, lost c1) (sticky c1) (dp_write (sys c1) a d)), good, None. split_and!.
    + apply (dp_access_simulated false a d l1 l1 vs good c1); try done.
      * cbn. intros x Hx. destruct (sim_ctrl0 x Hx) as [? ?]. split; [by apply ctrl_dp_write|done].
      * intros _. eexists. split; [done|by left].
    + cbn. by rewrite Hst1, Hst.
    + done.
    + intros Hg. cbn. by rewrite Hy.
Qed.

Lemma lower_op_simulated o l vs good c :
  simulated l vs good c -> sticky c = negb good -> dp_op_ok v o -> (good = false -> keeps_sticky o) ->
  stepped o good c (lower_op l (o, length vs)) vs.
Proof.
  intros Hsim Hst Hok Hk. destruct o as [a|a d|a|a d|what|cycles]; cbn [lower_op].
  - by apply (ap_op_simulated true a 0 (ApRead a)).
  - by apply (ap_op_simulated false a d (ApWrite a d)).
  - by apply dp_read_simulated.
  - by apply dp_write_simulated.
  - assert (Z.shiftr (Z.shiftl what 3) 3 = what) as Hw by (rewrite Z.shiftr_shiftl_l by lia; apply Z.shiftl_0_r).
    exists (mkChip (sel c) (sel1 c) (response c) (sticky c) (dp_abort (sys c) what)), good, None. split_and!; try done.
    destruct (simulated_complete (AbortScan (Z.shiftl what 3)) l vs good c
      (mkChip (sel c) (sel1 c) (response c) (sticky c) (dp_abort (sys c) what)) Hsim) as [rs []]; try done.
    + cbn. by rewrite Hw.
    + cbn. intros x [? ?]. split; [by apply ctrl_abort|done].
    + destruct (runs_snoc _ _ (TapRun INTER_AP_RUN) _ _ _ _ sim_run0 eq_refl) as [Hrun _].
      exists (rs ++ [Ok None]). constructor; try done.
      intros x Hx Hg. destruct (sim_slots0 x Hx Hg) as (z&?&?). exists z. split; [by apply slot_result_app|done].
  - exists c, good, None. split_and!; try done. by apply (simulated_complete (TapRun cycles) l vs good c c).
Qed.

Lemma lower_ops_simulated batch : forall l vs good c,
  simulated l vs good c -> sticky c = negb good -> Forall (dp_op_ok v) batch ->
  Forall keeps_sticky batch \/ (good = true /\ is_Some (exec_dps (sys c) batch)) ->
  exists c' good' ys, simulated (foldl lower_op l (zip batch (seq (length vs) (length batch)))) (vs ++ ys) good' c'
    /\ length ys = length batch /\ sticky c' = negb good' /\ (good' = true -> good = true)
    /\ (good = true -> match exec_dps (sys c) batch with
                       | Some (s, xs) => good' = true /\ sys c' = s /\ ys = xs
                       | None => good' = false
                       end).
Proof.
  induction batch as [|o batch IH]; intros l vs good c Hsim Hst Hok Hk.
  - exists c, good, []. rewrite app_nil_r. by split_and!.
  - apply Forall_cons in Hok as [Ho Hok].
    destruct (lower_op_simulated o l vs good c Hsim Hst Ho) as (c1&g1&y&H1&Hst1&Hg1&Hx1).
    { intros ->. destruct Hk as [Hk|[? _]]; [by apply Forall_cons in Hk as [? _]|done]. }
    destruct (IH _ _ _ _ H1 Hst1 Hok) as (c2&g2&ys&H2&Hl&Hst2&Hg2&Hx2).
    { destruct Hk as [Hk|[-> Hs]]; [left; by apply Forall_cons in Hk as [_ ?]|right].
      specialize (Hx1 eq_refl). cbn [exec_dps] in Hs. destruct (exec_dp (sys c) o) as [[s1 x]|]; [|by destruct Hs].
      destruct Hx1 as (->&->&->). split; [done|]. cbn in Hs. destruct (exec_dps s1 batch); [done|by destruct Hs]. }
    exists c2, g2, (y :: ys). cbn [length seq zip zip_with foldl].
    rewrite length_app, Nat.add_1_r, <- app_assoc in H2. split_and!; [done|cbn; lia|done|auto|].
    intros Hg. specialize (Hx1 Hg). cbn [exec_dps]. destruct (exec_dp (sys c) o) as [[s1 x]|]; cbn.
    + destruct Hx1 as (Hg1'&<-&<-). specialize (Hx2 Hg1'). destruct (exec_dps (sys c1) batch) as [[s2 xs]|]; cbn; [|done].
      by destruct Hx2 as (?&?&->).
    + destruct g2; [|done]. rewrite Hg2 in Hx1 by done. done.
Qed.

(** The end of a batch without a check. *)
Lemma flush_pending_simulated l vs good c :
  simulated l vs good c ->
  exists c', simulated (flush_pending l) vs good c' /\ pending (flush_pending l) = None /\ sys c' = sys c
    /\ sticky c' = sticky c /\ ctrl_stat (flush_pending l) = ctrl_stat l.
Proof.
  intros Hsim. unfold flush_pending, is_pending. destruct (pending l) as [u|] eqn:Eu; [|by exists c].
  pose proof Hsim as [rs []]. destruct (chain_pending_fields l) as (_&_&_&_&_&_&_&F).
  exists (respond c (ok_ack, lost c)).
  destruct (simulated_access (Dpacc (pack true RDBUFF 0) (is_pending l)) l l vs good c good (respond c (ok_ack, lost c)))
    as [H1 Hp]; by try split_and!.
Qed.

(** The write of CTRL/STAT with the sticky bits set clears them and keeps the
    control bits. *)
Lemma clearing_scan c x :
  known (sys c) x -> dp_target (sel c) 4 = CTRL_STAT -> Z.land (sel c) 0xf = Z.land (Z.shiftr CTRL_STAT 4) 0xf ->
  run_scan v protocol lost c (Dpacc (pack false CTRL_STAT (Z.lor x STICKY_MASK)) true)
  = (mkChip (sel c) (sel1 c) (ok_ack, lost c) false (sys c), Ok (Some (tdo c))).
Proof.
  intros [Hholds Hrange] Htarget Hbank. set (w := Z.lor x STICKY_MASK).
  assert (0 <= w < 2 ^ 32) by (apply lor_bound; [done|by vm_compute]).
  cbn [run_scan]. unfold dp_transaction. rewrite request_pack, land_word by done. f_equal.
  change (Z.land CTRL_STAT 0xc) with 4. rewrite Hbank, Htarget.
  change (4 =? SELECT) with false. change ((4 =? 4) && (Z.land (Z.shiftr CTRL_STAT 4) 0xf =? 5)) with false.
  change (4 =? RDBUFF) with false. rewrite Z.eqb_refl. cbv iota.
  assert (Z.testbit w 5 = true) as -> by (unfold w; rewrite Z.lor_spec; by rewrite orb_true_r).
  assert (Z.ldiff w STICKY_MASK = Z.ldiff x STICKY_MASK) as -> by (unfold w; bitwise).
  by rewrite andb_false_r, ctrl_masked, Hholds.
Qed.

(** What the check concludes from the status it reads. *)
Lemma status_verdict c (good : bool) :
  sticky c = negb good ->
  (if Z.land (stat_value c) STICKYERR =? 0 then None else Some DpAccessFailure) = (if good then None else Some DpAccessFailure).
Proof.
  intros Hst. unfold stat_value. rewrite Hst. destruct good; cbn [negb].
  - by rewrite no_sticky.
  - assert (Z.land (Z.lor (dp_read (sys c) CTRL_STAT) STICKYERR) STICKYERR = STICKYERR) as ->; [|done].
    rewrite Z.land_lor_distr_l, no_sticky. done.
Qed.

(** The check: its error is the sticky flag, which it clears. *)
Lemma sticky_check_spec l vs good c x :
  simulated l vs good c -> sticky c = negb good -> ctrl_stat l = Some x ->
  exists c' rs, runs start (posted (sticky_check l)) = (c', rs) /\ sys c' = sys c /\ sticky c' = false
    /\ ctrl_stat (sticky_check l) = Some x
    /\ check_error (sticky_check l) rs = (if good then None else Some DpAccessFailure)
    /\ version (sticky_check l) = protocol
    /\ (forall y, y ∈ slots (sticky_check l) -> good = true ->
          exists z, slot_result protocol rs y = Ok z /\ carries vs (s_upper y) z)
    /\ (forall f, (f < length vs)%nat -> exists y, y ∈ slots (sticky_check l) /\ s_upper y = User f).
Proof.
  intros Hsim Hst Hx.
  destruct (dp_select_simulated CTRL_STAT true l vs good c Hsim eq_refl) as (c1&H1&Hy1&Hst1&Hbank&_&_&Hct1).
  unfold sticky_check. cbv zeta. set (l1 := dp_select CTRL_STAT true l) in *. pose proof H1 as [rs1 S1].
  assert (Htarget : dp_target (sel c1) 4 = CTRL_STAT).
  { change 4 with (Z.land CTRL_STAT 0xc). apply dp_target_selected; [|done]. split; [by vm_compute|done]. }
  set (c2 := respond c1 (ok_ack, stat_value c1)).
  destruct (simulated_access (Dpacc (pack true CTRL_STAT 0) (is_pending l1)) l1 l1 vs good c1 good c2) as [H2 Hp2]; try done.
  { cbn [run_scan]. unfold dp_transaction. rewrite request_pack. change (Z.land CTRL_STAT 0xc) with 4. by rewrite Htarget. }
  { apply (sim_select _ _ _ _ _ S1). } { apply (sim_select1 _ _ _ _ _ S1). } { apply (sim_ctrl _ _ _ _ _ S1). }
  change (post (Dpacc (pack true CTRL_STAT 0) (is_pending l1)) (chain_pending l1)) with (dp_access true CTRL_STAT 0 l1) in *.
  set (l2 := dp_access true CTRL_STAT 0 l1) in *. destruct H2 as [rs2 S2].
  assert (Hct2 : ctrl_stat l2 = Some x).
  { unfold l2, dp_access. cbn. destruct (chain_pending_fields l1) as (_&_&_&_&_&_&_&->). congruence. }
  destruct (sim_object _ _ _ _ _ S2) as (Hver&_&_). destruct (sim_ctrl _ _ _ _ _ S2 x Hct2) as [Hholds Hrange].
  destruct l2 as [ver ct us ls ls1 pe sl ch po] eqn:El2. cbn in Hct2, Hp2, Hver. subst ct pe ver.
  set (w := Z.lor x STICKY_MASK).
  set (s3 := Dpacc (pack false CTRL_STAT w) true). set (s4 := Dpacc (pack true RDBUFF 0) true).
  set (c3 := mkChip (sel c2) (sel1 c2) (ok_ack, lost c2) false (sys c2)).
  assert (R3 : run_scan v protocol lost c2 s3 = (c3, Ok (Some (tdo c2)))) by (by apply clearing_scan).
  set (c4 := respond c3 (ok_ack, lost c3)).
  assert (R4 : run_scan v protocol lost c3 s4 = (c4, Ok (Some (tdo c3)))) by reflexivity.
  destruct (runs_snoc _ _ _ _ _ _ _ (sim_run _ _ _ _ _ S2) R3) as [T3 Hl3]. destruct (runs_snoc _ _ _ _ _ _ _ T3 R4) as [T4 Hl4].
  cbn [posted] in *.
  exists c4, ((rs2 ++ [Ok (Some (tdo c2))]) ++ [Ok (Some (tdo c3))]).
  set (rs := (rs2 ++ [Ok (Some (tdo c2))]) ++ [Ok (Some (tdo c3))]) in *.
  assert (Hstat : exists y, slot_result protocol rs (mkSlot Check Data (length po)) = Ok (Some y) /\ y = stat_value c1).
  { destruct (data_slot rs c2 Check (length po) (stat_value c1) Hproto) as (y&Hy&Hv); [|done|].
    { unfold rs. rewrite <- app_assoc. cbn [app]. by rewrite <- Hl3, list_lookup_middle. }
    exists y. split; [done|]. apply Hv. unfold stat_value. destruct (sticky c1); [apply lor_bound|]; try apply dp_read_word. by vm_compute. }
  destruct Hstat as (y&Hy&->).
  destruct (data_slot rs c3 Check (length (po ++ [s3])) (lost c2) Hproto) as (z&Hz&_); [|done|].
  { unfold rs. by rewrite <- Hl4, list_lookup_middle. }
  set (sl' := (sl ++ [mkSlot Check Data (length po)]) ++ [mkSlot Check Data (length (po ++ [s3]))]).
  match goal with |- context [with_check ?k ?l'] =>
    change (with_check k l') with (mkLowerer protocol (Some x) us ls ls1 None sl'
      (Some (length sl, length (sl ++ [mkSlot Check Data (length po)]))) ((po ++ [s3]) ++ [s4])) end.
  cbn [posted ctrl_stat version slots].
  split_and!; [exact T4|exact Hy1|done|done| |done| |].
  - unfold check_error. cbn [checked slots version].
    assert (sl' !! length sl = Some (mkSlot Check Data (length po))) as ->
      by (unfold sl'; rewrite <- app_assoc; by apply list_lookup_middle).
    assert (sl' !! length (sl ++ [mkSlot Check Data (length po)]) = Some (mkSlot Check Data (length (po ++ [s3])))) as ->
      by (unfold sl'; by rewrite list_lookup_middle).
    rewrite Hy, Hz. apply (status_verdict c1 good). congruence.
  - intros x'. unfold sl'. rewrite !elem_of_app, !list_elem_of_singleton. intros [[Hin| ->]| ->] Hg.
    + destruct (sim_slots _ _ _ _ _ S2 x' Hin Hg) as (z'&Hz'&?). exists z'. split; [|done]. unfold rs. by do 2 apply slot_result_app.
    + eexists. split; [exact Hy|]. by intros f.
    + eexists. split; [exact Hz|]. by intros f.
  - intros f Hf. destruct (sim_covered _ _ _ _ _ S2 f Hf) as [?|(x'&Hin&?)]; [done|]. exists x'. split; [|done].
    apply elem_of_app. left. apply elem_of_app. by left.
Qed.

End Simulation.

(** ** Outcomes *)

(** A future with a slot is settled from one of its slots. *)
Lemma finalize_lookup l rs f :
  (exists x, x ∈ slots l /\ s_upper x = User f) ->
  exists x, x ∈ slots l /\ s_upper x = User f /\
    finalize l rs !! f = Some (match check_error l rs with Some e => Err e | None => slot_result (version l) rs x end).
Proof.
  unfold finalize. set (g := finalize_slot l (check_error l rs) rs).
  set (val := fun x => match check_error l rs with Some e => Err e | None => slot_result (version l) rs x end).
  assert (Hfold : forall ss m, (is_Some (m !! f) \/ exists x, x ∈ ss /\ s_upper x = User f) ->
    foldl g m ss !! f = m !! f /\ is_Some (m !! f)
    \/ exists x, x ∈ ss /\ s_upper x = User f /\ foldl g m ss !! f = Some (val x)).
  { induction ss as [|x ss IH]; intros m Hm; cbn [foldl].
    - destruct Hm as [?|(x&Hx&_)]; [by left|by apply not_elem_of_nil in Hx].
    - assert (g m x !! f = m !! f /\ (is_Some (m !! f) \/ s_upper x <> User f)
        \/ m !! f = None /\ s_upper x = User f /\ g m x !! f = Some (val x)) as [[E Hd]|(E&Hu&Hg)].
      { unfold g, finalize_slot. destruct (s_upper x) as [f'|]; [|left; by split; [|right]].
        case_bool_decide as Hs; destruct (decide (f' = f)) as [->|Hn].
        - left. by split; [|left].
        - left. split; [done|right; congruence].
        - right. apply eq_None_not_Some in Hs. by rewrite lookup_insert_eq.
        - left. rewrite lookup_insert_ne by done. split; [done|right; congruence]. }
      + destruct (IH (g m x)) as [[-> ?]|(y&?&?&?)].
        * rewrite E. destruct Hm as [?|(y&[->|?]%elem_of_cons&?)]; [by left| |right; by exists y].
          destruct Hd as [?|?]; [by left|done].
        * left. by rewrite E in *.
        * right. exists y. split; [by right|done].
      + destruct (IH (g m x)) as [[-> ?]|(y&?&?&?)]; [left; by rewrite Hg| |].
        * right. exists x. split; [by left|]. by rewrite Hg.
        * right. exists y. split; [by right|done]. }
  intros Hx. destruct (Hfold (slots l) ∅ (or_intror Hx)) as [[_ [? E]]|?]; [by rewrite lookup_empty in E|done].
Qed.

Lemma answers_of_slots protocol l rs vs :
  version l = protocol -> check_error l rs = None ->
  (forall x, x ∈ slots l -> true = true -> exists z, slot_result protocol rs x = Ok z /\ carries vs (s_upper x) z) ->
  (forall f, (f < length vs)%nat -> exists x, x ∈ slots l /\ s_upper x = User f) -> answers vs (finalize l rs).
Proof.
  intros Hver Herr Hsl Hcov f y Hy. destruct (finalize_lookup l rs f) as (x&Hx&Hu&->).
  { apply Hcov. by apply lookup_lt_Some in Hy. }
  rewrite Herr, Hver. destruct (Hsl x Hx eq_refl) as (z&->&Hc). exists z. split; [done|].
  destruct (Hc f Hu) as (y'&Hy'&?). by replace y with y' by congruence.
Qed.

(** The control bits, once known, stay known. *)
Lemma ctrl_dp_access read a d l : ctrl_stat (dp_access read a d l) = ctrl_stat l.
Proof. unfold dp_access, chain_pending. by destruct (pending l). Qed.
Lemma ctrl_select x l : ctrl_stat (select x l) = ctrl_stat l.
Proof. unfold select. case_bool_decide; [done|]. by rewrite ctrl_dp_access. Qed.
Lemma ctrl_dp_select a read l : ctrl_stat (dp_select a read l) = ctrl_stat l.
Proof. unfold dp_select. repeat case_match; try done. apply ctrl_select. Qed.

Lemma ctrl_kept_all ops : forall l, is_Some (ctrl_stat l) -> is_Some (ctrl_stat (foldl lower_op l ops)).
Proof.
  assert (Hap : forall r a d u l, ctrl_stat (ap_read_write r a d u l) = ctrl_stat l).
  { intros. unfold ap_read_write, ap_access. cbn [with_pending post ctrl_stat]. destruct (chain_pending_fields (ap_select a (if uses_select1 l then select1 (Z.shiftr a 32) l else l)))
      as (_&_&_&_&_&_&_&->). unfold ap_select. rewrite ctrl_select. destruct (uses_select1 l); [|done].
    unfold select1. case_bool_decide; [done|]. by rewrite ctrl_dp_access, ctrl_dp_select. }
  assert (Hdp : forall r a d u l, is_Some (ctrl_stat l) -> is_Some (ctrl_stat (dp_read_write r a d u l))).
  { intros r a d u l Hl. unfold dp_read_write. cbn [with_pending ctrl_stat]. rewrite ctrl_dp_access, ctrl_dp_select. by destruct (negb r && _). }
  induction ops as [|[o f] ops IH]; intros l Hl; cbn [foldl]; [done|]. apply IH.
  destruct o; cbn [lower_op]; rewrite ?Hap; try done; by apply Hdp.
Qed.

Section Batches.
Context {S : Type} `{WordSystem S} (v : adi) (protocol : Z) (lost : chip S -> Z).
Context (Hproto : protocol = 0 \/ protocol = 1).

(** The object knows the control bits, and no error is pending. *)
Definition agrees (ctrl : option Z) (c : chip S) : Prop :=
  sticky c = false /\ forall x, ctrl = Some x -> holds_ctrl (sys c) x /\ 0 <= x < 2 ^ 32.

Lemma start_simulated ctrl c :
  agrees ctrl c -> simulated v protocol lost c (new_lowerer protocol ctrl (bool_decide (v = V6Large))) [] true c.
Proof.
  intros [Hst Hc]. exists []. constructor; try done; cbn; intros; try lia.
  by match goal with Hin : _ ∈ [] |- _ => apply not_elem_of_nil in Hin end.
Qed.

(** A batch goes as the system says, or fails as a whole. *)
Lemma flush_spec ctrl batch c :
  agrees ctrl c -> Forall (dp_op_ok v) batch ->
  match exec_dps (sys c) batch with
  | Some (s, vs) =>
      exists ctrl' c' m, flush v protocol lost ctrl batch c = (ctrl', c', m) /\ agrees ctrl' c' /\ sys c' = s /\ answers vs m
  | None =>
      ctrl <> None -> Forall keeps_sticky batch ->
      exists ctrl' c' m, flush v protocol lost ctrl batch c = (ctrl', c', m) /\ agrees ctrl' c'
        /\ forall f, (f < length batch)%nat -> m !! f = Some (Err DpAccessFailure)
  end.
Proof.
  intros Hag Hok. pose proof (start_simulated ctrl c Hag) as Hs0. destruct Hag as [Hst _].
  unfold flush, process. set (l0 := new_lowerer protocol ctrl (bool_decide (v = V6Large))) in *.
  assert (Hsteps : Forall keeps_sticky batch \/ is_Some (exec_dps (sys c) batch) ->
    exists c1 g1 ys, simulated v protocol lost c (foldl lower_op l0 (with_futures batch)) ys g1 c1
      /\ length ys = length batch /\ sticky c1 = negb g1
      /\ match exec_dps (sys c) batch with Some (s, xs) => g1 = true /\ sys c1 = s /\ ys = xs | None => g1 = false end).
  { intros Hk. destruct (lower_ops_simulated v protocol lost c Hproto batch l0 [] true c Hs0 Hst Hok) as (c1&g1&ys&H1&Hl&Hst1&_&Hx);
      [by destruct Hk; auto|]. exists c1, g1, ys. split_and!; try done. by apply Hx. }
  set (l := foldl lower_op l0 (with_futures batch)) in *.
  destruct (exec_dps (sys c) batch) as [[s vs]|] eqn:Ex.
  - destruct (Hsteps ltac:(by right)) as (c1&g1&ys&H1&Hl&Hst1&->&Hs&->). cbn [negb] in Hst1.
    destruct (ctrl_stat l) as [x|] eqn:Ec.
    + destruct (sticky_check_spec v protocol lost c Hproto l vs true c1 x H1 Hst1 Ec) as (c2&rs&Hrun&Hy&Hst2&Ec2&Herr&Hver&Hsl&Hcov).
      rewrite Hrun. do 3 eexists. split_and!; [done| |congruence|].
      * split; [done|]. rewrite Ec2. intros x' [= <-]. rewrite Hy. destruct H1 as [rs1 S1]. by apply (sim_ctrl _ _ _ _ _ _ _ _ _ S1).
      * by apply (answers_of_slots protocol).
    + destruct (flush_pending_simulated v protocol lost c Hproto l vs true c1 H1) as (c2&[rs S2]&Hp&Hy&Hst2&Ec2).
      rewrite (sim_run _ _ _ _ _ _ _ _ _ S2). do 3 eexists. split_and!; [done| |congruence|].
      * split; [congruence|]. rewrite Ec2, Ec. done.
      * destruct (sim_object _ _ _ _ _ _ _ _ _ S2) as (Hver&_&Hch). apply (answers_of_slots protocol); [done| | |].
        -- unfold check_error. by rewrite Hch.
        -- intros x Hx. by apply (sim_slots _ _ _ _ _ _ _ _ _ S2).
        -- intros f Hf. destruct (sim_covered _ _ _ _ _ _ _ _ _ S2 f Hf) as [?|?]; [congruence|done].
  - intros Hc Hk. destruct (Hsteps ltac:(by left)) as (c1&g1&ys&H1&Hl&Hst1&->). cbn [negb] in Hst1.
    destruct (ctrl_kept_all (with_futures batch) l0) as [x Ec]; [cbn; by destruct ctrl|]. fold l in Ec. rewrite Ec.
    destruct (sticky_check_spec v protocol lost c Hproto l ys false c1 x H1 Hst1 Ec) as (c2&rs&Hrun&Hy&Hst2&Ec2&Herr&Hver&Hsl&Hcov).
    rewrite Hrun. do 3 eexists. split_and!; [done| |].
    + split; [done|]. rewrite Ec2. intros x' [= <-]. rewrite Hy. destruct H1 as [rs1 S1]. by apply (sim_ctrl _ _ _ _ _ _ _ _ _ S1).
    + intros f Hf. destruct (finalize_lookup (sticky_check l) rs f) as (y&_&_&->); [apply Hcov; lia|]. by rewrite Herr.
Qed.
End Batches.

(** The port as its clients see it. *)
Definition protocol_of (v1 : bool) : Z := if v1 then 1 else 0.

Lemma protocol_cases v1 : protocol_of v1 = 0 \/ protocol_of v1 = 1.
Proof. destruct v1; auto. Qed.

#[refine] #[global] Instance jtag_port {S} `{WordSystem S} v v1 lost : DebugPort S (option Z * chip S) := {
  port_version := v;
  port_flush p batch := let '(ctrl, c, m) := flush v (protocol_of v1) lost p.1 batch p.2 in ((ctrl, c), m);
  port_sys p := sys p.2;
  port_ok p := agrees p.1 p.2;
}.
Proof.
  intros [ctrl c] batch s vs Hag Hok Hx.
  pose proof (flush_spec v (protocol_of v1) lost (protocol_cases v1) ctrl batch c Hag Hok) as Hf. cbn [fst snd] in *.
  rewrite Hx in Hf. destruct Hf as (ctrl'&c'&m&->&Hag'&Hy&Ha). by exists (ctrl', c'), m.
Defined.

(** ** Theorems *)


Definition sample_chip : chip registers := mkChip 0 0 (0, 0) false sample_registers.
Definition sample_lost (c : chip registers) : Z := 0xdeadbeef.


(** The future of a write is settled with the data of a response, not with
    [None]. *)
Example jtag_write_settled_with_data :
  let '(_, _, m) := flush V5 0 sample_lost None [ApWrite 0x01000004 1] sample_chip in
  m !! 0%nat = Some (Ok (Some 0xdeadbeef)).
Proof. vm_compute. reflexivity. Qed.
