(* ===== verification/MemAp.v ===== *)
(** * Memory access ports (src/acrobe/component/arm/mem_ap.py)

    [MemApLowering] serves a memory bus from the registers CSW, TAR and DRW of a
    MEM-AP behind a debug port: it sets the access size and the address, skips a
    write of either that the operation before has established, follows the
    hardware's increment of TAR inside a block of 1 KiB, and moves bytes and half
    words in and out of their lanes of DRW.

    The access port is an interface, [MemoryAp], with the behaviour that the ARM
    Debug Interface specifies; what TAR holds after an increment across a block
    is left open.  Composed with [Memory], which lowers blobs to register
    accesses, and with any [DebugPort], blobs and registers are those of the
    memory behind the port. *)

From S2P Require Import Prelude ArmDp Memory.

(** ** Registers *)

Record layout := mkLayout { CSW : Z; TAR_LO : Z; DRW : Z }.

(** [MemAp] and [MemApV2] *)
Definition apv1 : layout := mkLayout 0x00 0x04 0x0c.
Definition apv2 : layout := mkLayout 0xD00 0xD04 0xD0C.

Definition CSW_SIZE_BYTE : Z := 0.
Definition CSW_SIZE_HALF : Z := 1.
Definition CSW_SIZE_WORD : Z := 2.
Definition CSW_ADDRINC_SINGLE : Z := Z.shiftl 1 4.
Definition CSW_DEVICE_EN : Z := Z.shiftl 1 6.
Definition CSW_HPROT0_PRIV : Z := Z.shiftl 1 24.
Definition CSW_HPROT1_BUFF : Z := Z.shiftl 1 25.
Definition CSW_MASTER_DEBUG : Z := Z.shiftl 1 29.
Definition CSW_DBGSWENABLE : Z := Z.shiftl 1 31.

(** [__size_for] *)
Definition size_for (o : reg_op) : Z :=
  match o with
  | Read8 _ | Write8 _ _ => CSW_SIZE_BYTE
  | Read16 _ | Write16 _ _ => CSW_SIZE_HALF
  | Read32 _ | Write32 _ _ => CSW_SIZE_WORD
  end.

(** [_SIZE_BYTES] *)
Definition SIZE_BYTES (size : Z) : Z :=
  if size =? CSW_SIZE_BYTE then 1 else if size =? CSW_SIZE_HALF then 2 else 4.

Definition reg_addr (o : reg_op) : Z :=
  match o with
  | Read8 a | Read16 a | Read32 a | Write8 a _ | Write16 a _ | Write32 a _ => a
  end.
Definition reg_data (o : reg_op) : Z :=
  match o with Write8 _ x | Write16 _ x | Write32 _ x => x | _ => 0 end.

(** [__csw_with] *)
Definition csw_with (size addrinc : Z) : Z :=
  Z.lor (Z.lor (Z.lor (Z.lor (Z.lor (Z.lor CSW_DBGSWENABLE CSW_MASTER_DEBUG) CSW_HPROT1_BUFF) CSW_HPROT0_PRIV)
    CSW_DEVICE_EN) (Z.land addrinc 0x30)) (Z.land size 7).

(** ** Lowering *)

Section Lowering.
Context (base : Z) (ly : layout).

(** [reg_read] and [reg_write] *)
Definition reg_read (reg : Z) : dp_op := ApRead (base + reg).
Definition reg_write (reg data : Z) : dp_op := ApWrite (base + reg) data.

Abbreviation cache := (option Z * option Z)%type.

(** [__csw_tar_setup]: the accesses posted, and the cache. *)
Definition csw_tar_setup (addr size_field : Z) (st : cache) : list dp_op * cache :=
  let '(csw, tar) := st in
  let new_csw := csw_with size_field CSW_ADDRINC_SINGLE in
  let ops1 := if bool_decide (csw = Some new_csw) then [] else [reg_write (CSW ly) new_csw] in
  let ops2 := if bool_decide (tar = Some addr) then [] else [reg_write (TAR_LO ly) (Z.land addr 0xffffffff)] in
  (ops1 ++ ops2, (Some new_csw, Some addr)).

(** [__tar_advance] *)
Definition tar_advance (addr size_bytes : Z) : option Z :=
  let next_tar := addr + size_bytes in
  if Z.land next_tar 0xFFFFFC00 =? Z.land addr 0xFFFFFC00 then Some next_tar else None.

(** The access of DRW. *)
Definition drw_access (o : reg_op) : dp_op :=
  if is_write o then
    let shift := Z.land (reg_addr o) 3 * 8 in
    reg_write (DRW ly) (Z.land (Z.shiftl (reg_data o) shift) 0xffffffff)
  else reg_read (DRW ly).

(** [__emit]: the accesses of one operation, the one of DRW last. *)
Definition emit (o : reg_op) (st : cache) : list dp_op * cache :=
  let size_field := size_for o in
  let '(ops, (csw, _)) := csw_tar_setup (reg_addr o) size_field st in
  (ops ++ [drw_access o], (csw, tar_advance (reg_addr o) (SIZE_BYTES size_field))).

(** [lower_register_ops]: the accesses posted for each operation. *)
Fixpoint emit_all (st : cache) (batch : list reg_op) : list (list dp_op) :=
  match batch with
  | [] => []
  | o :: batch => let '(ops, st) := emit o st in ops :: emit_all st batch
  end.

Definition lower_register_ops (batch : list reg_op) : list (list dp_op) := emit_all (None, None) batch.

(** [__chain_read_lane] and [__chain_write_completion]: what the future of an
    operation gets from that of its access of DRW. *)
Definition chain_drw (o : reg_op) (r : result (option Z)) : result Z :=
  raw ← r;
  if is_write o then Ok 0
  else match raw with
       | Some raw =>
           let shift := Z.land (reg_addr o) 3 * 8 in
           let mask := Z.shiftl 1 (SIZE_BYTES (size_for o) * 8) - 1 in
           Ok (Z.land (Z.shiftr raw shift) mask)
       | None => Err TypeError
       end.

(** The results of the operations from the outcomes of the accesses, of which
    the first has the future [k]. *)
Fixpoint chain_all (k : nat) (batch : list reg_op) (posted : list (list dp_op)) (m : outcomes) : list (result Z) :=
  match batch, posted with
  | o :: batch, ops :: posted =>
      let last := (k + length ops - 1)%nat in
      (match m !! last with Some r => chain_drw o r | None => Err RuntimeError end)
      :: chain_all (k + length ops) batch posted m
  | _, _ => []
  end.
End Lowering.

(** ** The access port

    A size code and single increments select an access of [n] bytes at TAR,
    which must be aligned; its data are in the lanes of its address.  TAR then
    advances, inside a block of 1 KiB. *)

Definition selects (csw n : Z) : Prop :=
  Z.land csw 0x30 = CSW_ADDRINC_SINGLE /\ SIZE_BYTES (Z.land csw 7) = n /\ Z.land csw 7 <= 2.

Definition lane (a : Z) : Z := Z.land a 3 * 8.

Class MemoryAp {S} `{System S} (base : Z) (ly : layout) (mapped : Z -> Prop) (mem : S -> memory) : Type := {
  ap_csw : S -> Z;
  ap_tar : S -> Z;
  csw_written : forall s x, 0 <= x < 2 ^ 32 ->
    exists s', ap_write s (base + CSW ly) x = Some s' /\ ap_csw s' = x /\ ap_tar s' = ap_tar s /\ mem s' = mem s;
  tar_written : forall s x, 0 <= x < 2 ^ 32 ->
    exists s', ap_write s (base + TAR_LO ly) x = Some s' /\ ap_csw s' = ap_csw s /\ ap_tar s' = x /\ mem s' = mem s;
  drw_read : forall s n, mem_ok (mem s) -> selects (ap_csw s) n -> ap_tar s mod n = 0 ->
    (forall i, 0 <= i < n -> mapped (ap_tar s + i)) ->
    exists s' raw, ap_read s (base + DRW ly) = Some (s', raw)
      /\ Z.land (Z.shiftr raw (lane (ap_tar s))) (Z.ones (8 * n)) = from_le (read_bytes (mem s) (ap_tar s) n)
      /\ ap_csw s' = ap_csw s /\ mem s' = mem s
      /\ ((ap_tar s + n) / 1024 = ap_tar s / 1024 -> ap_tar s' = ap_tar s + n);
  drw_written : forall s n x, selects (ap_csw s) n -> ap_tar s mod n = 0 -> 0 <= x < 2 ^ 32 ->
    (forall i, 0 <= i < n -> mapped (ap_tar s + i)) ->
    exists s', ap_write s (base + DRW ly) x = Some s'
      /\ ap_csw s' = ap_csw s /\ mem s' = write_bytes (mem s) (ap_tar s) (le_bytes (Z.to_nat n) (Z.shiftr x (lane (ap_tar s))))
      /\ ((ap_tar s + n) / 1024 = ap_tar s / 1024 -> ap_tar s' = ap_tar s + n);
}.

(** ** One operation *)

Definition width (o : reg_op) : Z := SIZE_BYTES (size_for o).

Definition reg_ok (mapped : Z -> Prop) (o : reg_op) : Prop :=
  0 <= reg_addr o /\ reg_addr o + width o <= 2 ^ 32 /\ reg_addr o mod width o = 0
  /\ forall i, 0 <= i < width o -> mapped (reg_addr o + i).

Lemma width_cases o : width_ok (width o).
Proof. destruct o; vm_compute; auto. Qed.

Lemma selects_csw o : selects (csw_with (size_for o) CSW_ADDRINC_SINGLE) (width o).
Proof. destruct o; split_and!; done. Qed.

Lemma csw_with_range o : 0 <= csw_with (size_for o) CSW_ADDRINC_SINGLE < 2 ^ 32.
Proof. destruct o; vm_compute; split; congruence. Qed.

Lemma exec_reg_read m o : is_write o = false -> exec_reg m o = (m, from_le (read_bytes m (reg_addr o) (width o))).
Proof. by destruct o. Qed.

Lemma exec_reg_write m o :
  is_write o = true -> exec_reg m o = (write_bytes m (reg_addr o) (le_bytes (Z.to_nat (width o)) (reg_data o)), 0).
Proof. by destruct o. Qed.

Lemma land_block a : 0 <= a < 2 ^ 32 -> Z.land a 0xFFFFFC00 = 1024 * (a / 1024).
Proof.
  intros Ha. change 1024 with (2 ^ 10). rewrite <- Z.shiftr_div_pow2, Z.mul_comm, <- Z.shiftl_mul_pow2 by lia.
  change 0xFFFFFC00 with (Z.shiftl (Z.ones 22) 10). apply Z.bits_inj'. intros i Hi.
  repeat (first [rewrite Z.testbit_ones by lia | progress bit_rewrite | bit_above | bit_below | bit_case]);
    try done; try lia; try (f_equal; lia).
Qed.

Lemma tar_advance_spec a n x :
  0 <= a -> 0 < n <= 4 -> a + n <= 2 ^ 32 -> tar_advance a n = Some x -> x = a + n /\ (a + n) / 1024 = a / 1024.
Proof.
  intros Ha Hn Hle. unfold tar_advance. destruct (Z.eqb_spec (Z.land (a + n) 0xFFFFFC00) (Z.land a 0xFFFFFC00)) as [E|]; [|done].
  intros [= <-]. split; [done|]. destruct (decide (a + n = 2 ^ 32)) as [Hw|Hw].
  - rewrite Hw, (land_block a) in E by lia. change (Z.land (2 ^ 32) 0xFFFFFC00) with 0 in E.
    assert (1024 * (a / 1024) > a - 1024) by (pose proof (Z.mod_pos_bound a 1024); pose proof (Z.div_mod a 1024); lia). lia.
  - rewrite !land_block in E by lia. lia.
Qed.

Lemma lane_fits o : reg_addr o mod width o = 0 -> lane (reg_addr o) + 8 * width o <= 32 /\ 0 <= lane (reg_addr o).
Proof.
  unfold lane. rewrite land_3_mod. destruct (width_cases o) as [-> |[-> | ->]]; intros E; div_lia.
Qed.

Lemma le_bytes_mod n x y : x mod 256 ^ Z.of_nat n = y mod 256 ^ Z.of_nat n -> le_bytes n x = le_bytes n y.
Proof.
  assert (forall z, le_bytes n (z mod 256 ^ Z.of_nat n) = le_bytes n z) as Hmod.
  { intros z. pose proof (le_bytes_from_le (le_bytes n z) (le_bytes_ok n z)) as E.
    by rewrite length_le_bytes, from_le_le_bytes in E. }
  intros E. by rewrite <- Hmod, E, Hmod.
Qed.

(** The bytes of a written lane are those of the datum. *)
Lemma lane_bytes s n x :
  0 <= s -> 0 <= n -> s + 8 * n <= 32 ->
  le_bytes (Z.to_nat n) (Z.shiftr (Z.land (Z.shiftl x s) 0xffffffff) s) = le_bytes (Z.to_nat n) x.
Proof.
  intros Hs Hn Hle. apply le_bytes_mod. rewrite Z2Nat.id by done. change 256 with (2 ^ 8). rewrite <- Z.pow_mul_r by lia.
  change 0xffffffff with (Z.ones 32). bitwise.
Qed.

Section Port.
Context {S : Type} `{System S} (base : Z) (ly : layout) (mapped : Z -> Prop) (mem : S -> memory).
Context `{!MemoryAp base ly mapped mem}.

Definition cached (st : option Z * option Z) (s : S) : Prop :=
  (forall x, st.1 = Some x -> ap_csw s = x) /\ (forall a, st.2 = Some a -> ap_tar s = a).

Lemma setup_spec o st s :
  reg_ok mapped o -> cached st s ->
  exists s' vs, exec_dps s (csw_tar_setup base ly (reg_addr o) (size_for o) st).1 = Some (s', vs)
    /\ mem s' = mem s /\ selects (ap_csw s') (width o) /\ ap_tar s' = reg_addr o
    /\ ap_csw s' = csw_with (size_for o) CSW_ADDRINC_SINGLE.
Proof.
  intros (Ha&Hle&_&_) [Hc Ht]. destruct st as [csw tar]. cbn [fst snd] in *. pose proof (width_cases o) as Hw.
  set (x := csw_with (size_for o) CSW_ADDRINC_SINGLE).
  assert (exists s1 vs1, exec_dps s (if bool_decide (csw = Some x) then [] else [reg_write base (CSW ly) x]) = Some (s1, vs1)
    /\ mem s1 = mem s /\ ap_csw s1 = x /\ ap_tar s1 = ap_tar s) as (s1&vs1&E1&Hm1&Hc1&Ht1).
  { case_bool_decide; [exists s, []; by eauto|].
    destruct (csw_written s x (csw_with_range o)) as (s1&E&?&?&?). exists s1, [None]. cbn. by rewrite E. }
  assert (Z.land (reg_addr o) 0xffffffff = reg_addr o) as Hland.
  { change 0xffffffff with (Z.ones 32). rewrite Z.land_ones by lia. apply Z.mod_small. destruct Hw as [|[|]]; lia. }
  assert (exists s2 vs2, exec_dps s1 (if bool_decide (tar = Some (reg_addr o)) then []
      else [reg_write base (TAR_LO ly) (Z.land (reg_addr o) 0xffffffff)]) = Some (s2, vs2)
    /\ mem s2 = mem s1 /\ ap_csw s2 = ap_csw s1 /\ ap_tar s2 = reg_addr o) as (s2&vs2&E2&Hm2&Hc2&Ht2).
  { destruct (bool_decide (tar = Some (reg_addr o))) eqn:E.
    { apply bool_decide_eq_true in E. exists s1, []. split_and!; [done|done|done|]. rewrite Ht1. by apply Ht. }
    rewrite Hland. destruct (tar_written s1 (reg_addr o)) as (s2&E'&?&?&?); [destruct Hw as [|[|]]; lia|].
    exists s2, [None]. cbn. by rewrite E'. }
  exists s2, (vs1 ++ vs2). split_and!; [| | |done|congruence].
  - apply exec_dps_app. by exists s1, vs1, vs2.
  - congruence.
  - rewrite Hc2, Hc1. apply selects_csw.
Qed.

Lemma access_emit_spec o st s :
  mem_ok (mem s) -> reg_ok mapped o -> cached st s ->
  exists s' vs x, exec_dps s (emit base ly o st).1 = Some (s', vs ++ [x])
    /\ mem s' = (exec_reg (mem s) o).1 /\ cached (emit base ly o st).2 s'
    /\ (x = None -> is_write o = true)
    /\ forall y, (x = None \/ y = x) -> chain_drw o (Ok y) = Ok (exec_reg (mem s) o).2.
Proof.
  intros Hbytes Hok Hst. destruct (setup_spec o st s Hok Hst) as (s1&vs&E&Hm&Hsel&Ht&Hc).
  unfold emit. destruct (csw_tar_setup base ly (reg_addr o) (size_for o) st) as [ops [csw tar]] eqn:Es.
  assert (csw = Some (csw_with (size_for o) CSW_ADDRINC_SINGLE)) as ->.
  { unfold csw_tar_setup in Es. destruct st. by simplify_eq. }
  destruct Hok as (Ha&Hle&Hal&Hmap). rewrite <- Ht in Hal, Hmap. destruct (lane_fits o) as [Hl Hl0]; [by rewrite <- Ht|].
  assert (Hadv : forall s2, ap_csw s2 = ap_csw s1 ->
      ((ap_tar s1 + width o) / 1024 = ap_tar s1 / 1024 -> ap_tar s2 = ap_tar s1 + width o) ->
      cached (Some (csw_with (size_for o) CSW_ADDRINC_SINGLE), tar_advance (reg_addr o) (SIZE_BYTES (size_for o))) s2).
  { intros s2 Hc2 Ht2. split; cbn [fst snd]; [intros x [= <-]; congruence|]. intros a Hadv.
    apply tar_advance_spec in Hadv as [-> Hb]; [|lia| |exact Hle]; [|destruct (width_cases o) as [E'|[E'|E']]; unfold width in E'; lia].
    rewrite Ht in Ht2. by apply Ht2. }
  assert (Hexec : forall s2 x, exec_dp s1 (drw_access base ly o) = Some (s2, x) ->
    exec_dps s (ops ++ [drw_access base ly o]) = Some (s2, vs ++ [x])).
  { intros s2 x Hx. apply exec_dps_app. exists s1, vs, [x]. split_and!; [done| |done]. cbn. by rewrite Hx. }
  cbn [fst snd]. unfold drw_access in *. destruct (is_write o) eqn:Ew.
  - destruct (drw_written s1 (width o) (Z.land (Z.shiftl (reg_data o) (lane (reg_addr o))) 0xffffffff))
      as (s2&Ex&Hc2&Hm2&Ht2); [done|done| |done|].
    { change 0xffffffff with (Z.ones 32). rewrite Z.land_ones by lia. by apply Z.mod_pos_bound. }
    exists s2, vs, None. split_and!.
    + apply Hexec. cbn. unfold lane in Ex. by rewrite Ex.
    + rewrite Hm2, Hm, exec_reg_write, Ht by done. cbn [fst]. f_equal. apply lane_bytes; [done| |lia].
      destruct (width_cases o) as [->|[-> | ->]]; lia.
    + by apply Hadv.
    + done.
    + intros y _. unfold chain_drw. rewrite Ew, exec_reg_write by done. done.
  - destruct (drw_read s1 (width o) ltac:(by rewrite Hm) Hsel Hal Hmap) as (s2&raw&Ex&Hraw&Hc2&Hm2&Ht2).
    exists s2, vs, (Some raw). split_and!.
    + apply Hexec. cbn. by rewrite Ex.
    + rewrite Hm2, Hm, exec_reg_read by done. done.
    + by apply Hadv.
    + done.
    + intros y [?| ->]; [done|]. unfold chain_drw. rewrite Ew, exec_reg_read by done. cbn [mbind result_bind snd]. f_equal.
      rewrite <- Hm, <- Ht, <- Hraw. unfold lane. f_equal. fold (width o). rewrite Z.mul_comm.
      rewrite Z.shiftl_mul_pow2, Z.ones_equiv by (destruct (width_cases o) as [->|[-> | ->]]; lia). lia.
Qed.
(** ** A batch *)

Lemma emit_all_spec batch : forall st s,
  mem_ok (mem s) -> Forall (reg_ok mapped) batch -> cached st s ->
  exists s' vs, exec_dps s (concat (emit_all base ly st batch)) = Some (s', vs)
    /\ mem s' = (exec_regs (mem s) batch).1
    /\ forall pre m, answers (pre ++ vs) m ->
         chain_all (length pre) batch (emit_all base ly st batch) m = Ok <$> (exec_regs (mem s) batch).2.
Proof.
  induction batch as [|o batch IH]; intros st s Hbytes Hok Hst; [by exists s, []|].
  apply Forall_cons in Hok as [Ho Hok]. destruct (access_emit_spec o st s Hbytes Ho Hst) as (s1&vs1&x&E1&Hm1&Hst1&_&Hx).
  cbn [emit_all exec_regs]. destruct (emit base ly o st) as [ops st1] eqn:Eo. cbn [fst snd] in *.
  destruct (IH st1 s1 ltac:(rewrite Hm1; by apply exec_reg_ok) Hok Hst1) as (s2&vs2&E2&Hm2&Hch). rewrite Hm1 in Hm2, Hch.
  destruct (exec_reg (mem s) o) as [m1 v1]. cbn [fst snd] in *.
  destruct (exec_regs m1 batch) as [m2 rs]. cbn [fst snd] in *. cbn [concat].
  exists s2, ((vs1 ++ [x]) ++ vs2). split_and!; [|done|].
  { apply exec_dps_app. by exists s1, (vs1 ++ [x]), vs2. }
  intros pre m Hm. pose proof (length_exec_dps _ _ _ _ E1) as Hlen. rewrite length_app in Hlen. cbn in Hlen.
  cbn [chain_all fmap list_fmap]. f_equal.
  - destruct (Hm (length pre + length ops - 1)%nat x) as (y&Hy&Hyx).
    { replace (length pre + length ops - 1)%nat with (length (pre ++ vs1)) by (rewrite length_app; lia).
      rewrite <- app_assoc. change ([x] ++ vs2) with (x :: vs2). by rewrite app_assoc, list_lookup_middle. }
    rewrite Hy. by apply Hx.
  - replace (length pre + length ops)%nat with (length (pre ++ vs1 ++ [x])) by (rewrite !length_app; cbn; lia).
    apply Hch. by rewrite <- !app_assoc in *.
Qed.

(** The accesses are well formed when the port's registers are addressable. *)
Definition aperture (v : adi) : Prop :=
  ap_addr_ok v (base + CSW ly) /\ ap_addr_ok v (base + TAR_LO ly) /\ ap_addr_ok v (base + DRW ly).

Lemma land_word_bound x : 0 <= Z.land x 0xffffffff < 2 ^ 32.
Proof. change 0xffffffff with (Z.ones 32). rewrite Z.land_ones by lia. by apply Z.mod_pos_bound. Qed.

Lemma emit_all_ok v batch : aperture v -> forall st, Forall (dp_op_ok v) (concat (emit_all base ly st batch)).
Proof.
  intros (H1&H2&H3). induction batch as [|o batch IH]; intros st; [done|]. cbn [emit_all].
  unfold emit, csw_tar_setup. destruct st as [csw tar]. cbn [concat]. apply Forall_app. split; [|apply IH].
  repeat apply Forall_app_2.
  - case_bool_decide; [done|]. constructor; [|done]. split; [done|apply csw_with_range].
  - case_bool_decide; [done|]. constructor; [|done]. split; [done|apply land_word_bound].
  - constructor; [|done]. unfold drw_access. destruct (is_write o); [|done]. split; [done|apply land_word_bound].
Qed.
End Port.

(** ** Blobs *)

(** The memory an operation touches is there; a blob is read in whole words. *)
Definition mem_op_ok (mapped : Z -> Prop) (o : mem_op) : Prop :=
  match o with
  | RegOp r => reg_ok mapped r
  | ReadBlob addr size => 0 <= size /\ 0 <= addr /\ addr + size <= 2 ^ 32
      /\ forall x, 4 * (addr / 4) <= x < 4 * ((addr + size + 3) / 4) -> mapped x
  | WriteBlob addr data => bytes_ok data /\ 0 <= addr /\ addr + zlen data <= 2 ^ 32
      /\ forall x, addr <= x < addr + zlen data -> mapped x
  end.

Lemma lower_ok mapped batch : Forall (mem_op_ok mapped) batch -> Forall (reg_ok mapped) (lower Overwide batch).
Proof.
  induction 1 as [|o batch Ho _ IH]; [done|]. rewrite lower_cons. apply Forall_app. split; [|done]. clear IH.
  destruct o as [r|addr size|addr data]; cbn [mem_op_ok expand] in *.
  - constructor; [exact Ho|done].
  - destruct Ho as (Hs&Ha&Hle&Hm). cbn [read_ops]. destruct (Z.leb_spec size 0); [done|].
    rewrite !align_down. apply Forall_fmap, Forall_fmap, Forall_forall. intros w Hw.
    apply range_up_spec in Hw as [Hr Hw]; [|lia]. unfold compose, reg_ok. cbn [fst reg_addr].
    change (width (Read32 w)) with 4. split_and!; [div_lia|div_lia|div_lia|]. intros i Hi. apply Hm. div_lia.
  - destruct Ho as (Hd&Ha&Hle&Hm). unfold write_ops. apply Forall_fmap, Forall_fmap.
    pose proof (tiles_inside addr 0 (zlen data) _ ltac:(lia) (chunks_tiles addr (zlen data) ltac:(lia))) as Ht.
    eapply Forall_impl; [exact Ht|]. intros [[o a] n] (->&Hn&Hal&Hge&Hend). unfold compose, reg_ok. cbn [fst].
    assert (reg_addr (write_op n (addr + o) (from_le (slice data o (o + n)))) = addr + o
      /\ width (write_op n (addr + o) (from_le (slice data o (o + n)))) = n) as [-> ->] by (by destruct Hn as [->|[-> | ->]]).
    split_and!; [lia|lia|done|]. intros i Hi. apply Hm. lia.
Qed.

(** [flush_ops] of the port, down to the debug port and back. *)
Definition mem_flush {S P} `{DebugPort S P} (base : Z) (ly : layout) (p : P) (batch : list mem_op)
    : P * list (result value) :=
  let regs := lower Overwide batch in
  let posted := lower_register_ops base ly regs in
  let '(p, m) := port_flush p (concat posted) in
  (p, settle_all Overwide batch (chain_all 0 regs posted m)).

Lemma mem_flush_refines {S P} `{DebugPort S P} base ly mapped mem `{!MemoryAp base ly mapped mem} p batch :
  port_ok p -> aperture base ly port_version -> mem_ok (mem (port_sys p)) -> Forall (mem_op_ok mapped) batch ->
  exists p', mem_flush base ly p batch = (p', Ok <$> (mem_spec_all (mem (port_sys p)) batch).2)
    /\ port_ok p' /\ mem (port_sys p') = (mem_spec_all (mem (port_sys p)) batch).1.
Proof.
  intros Hp Hap Hm Hok. unfold mem_flush, lower_register_ops.
  destruct (emit_all_spec base ly mapped mem (lower Overwide batch) (None, None) (port_sys p)) as (s&vs&E&Hms&Hch);
    [done|by apply lower_ok|by split|].
  destruct (port_refines p _ s vs Hp (emit_all_ok base ly _ _ Hap _) E) as (p'&m&->&Hp'&Hs&Ha).
  exists p'. specialize (Hch [] m Ha). cbn [length] in Hch. rewrite Hch, Hs, Hms.
  destruct (batch_refines Overwide batch (mem (port_sys p)) Hm) as (rs&Hx&Hset).
  { eapply Forall_impl; [exact Hok|]. intros [r|a n|a d]; cbn; [done|by intros [? _]|by intros [? _]]. }
  rewrite Hx. cbn [fst snd]. by rewrite Hset.
Qed.

(** ** A sample access port

    An AHB-AP at address 0: its upper memory faults, the lanes outside an access
    read as noise, and TAR wraps at the end of a block. *)

Record ahb := mkAhb { a_csw : Z; a_tar : Z; a_mem : memory; a_idr : Z }.

Definition ahb_mapped (x : Z) : Prop := 0 <= x < 0xE0000000.

Definition ahb_noise : Z := 0xA5A5A5A5.

Definition ahb_size (s : ahb) : Z := SIZE_BYTES (Z.land (a_csw s) 7).

Definition ahb_step (s : ahb) (m : memory) : ahb :=
  mkAhb (a_csw s) (1024 * (a_tar s / 1024) + (a_tar s + ahb_size s) mod 1024) m (a_idr s).

Definition ahb_raw (s : ahb) : Z :=
  let v := from_le (read_bytes (a_mem s) (a_tar s) (ahb_size s)) in
  Z.land (Z.lor (Z.shiftl v (lane (a_tar s))) (Z.ldiff ahb_noise (Z.shiftl (Z.ones (8 * ahb_size s)) (lane (a_tar s)))))
    0xffffffff.

Definition ahb_reachable (s : ahb) : bool := (0 <=? a_tar s) && (a_tar s <? 0xE0000000).

#[global] Instance ahb_system : System ahb := {
  ap_read s a :=
    if a =? 0x0c then (if ahb_reachable s then Some (ahb_step s (a_mem s), ahb_raw s) else None)
    else if a =? 0xfc then Some (s, Z.land (a_idr s) 0xffffffff) else None;
  ap_write s a x :=
    if a =? 0x00 then Some (mkAhb x (a_tar s) (a_mem s) (a_idr s))
    else if a =? 0x04 then Some (mkAhb (a_csw s) x (a_mem s) (a_idr s))
    else if a =? 0x0c then
      (if ahb_reachable s
       then Some (ahb_step s (write_bytes (a_mem s) (a_tar s)
                   (le_bytes (Z.to_nat (ahb_size s)) (Z.shiftr x (lane (a_tar s))))))
       else None)
    else None;
  dp_read _ _ := 0;
  dp_write s _ _ := s;
  dp_abort s _ := s;
}.

#[global] Instance ahb_memory_ap : MemoryAp 0 apv1 ahb_mapped a_mem.
Proof.
  assert (Hstep : forall s n m, SIZE_BYTES (Z.land (a_csw s) 7) = n -> a_tar s mod n = 0 ->
    (a_tar s + n) / 1024 = a_tar s / 1024 -> a_tar (ahb_step s m) = a_tar s + n).
  { intros s n m Hn _ Hb. unfold ahb_step, ahb_size. cbn [a_tar]. rewrite Hn, <- Hb. div_lia. }
  assert (Hpos : forall s, width_ok (SIZE_BYTES (Z.land (a_csw s) 7))).
  { intros s. unfold SIZE_BYTES, width_ok. repeat case_match; auto. }
  assert (Hreach : forall s n, SIZE_BYTES (Z.land (a_csw s) 7) = n ->
    (forall i, 0 <= i < n -> ahb_mapped (a_tar s + i)) -> ahb_reachable s = true).
  { intros s n Hn Hmap. destruct (Hmap 0) as [H1 H2]; [destruct (Hpos s) as [|[|]]; lia|]. unfold ahb_reachable.
    apply andb_true_iff. split; [apply Z.leb_le|apply Z.ltb_lt]; lia. }
  refine {| ap_csw := a_csw; ap_tar := a_tar |}.
  - intros s x _. by eexists.
  - intros s x _. by eexists.
  - intros s n Hm (_&Hn&_) Hal Hmap. exists (ahb_step s (a_mem s)), (ahb_raw s). cbn. rewrite (Hreach s n) by done.
    split_and!; try done; [|by apply (Hstep s n (a_mem s))]. unfold ahb_raw, ahb_size. rewrite Hn.
    assert (0 <= from_le (read_bytes (a_mem s) (a_tar s) n) < 2 ^ (8 * n)) as Hv.
    { pose proof (from_le_bound (read_bytes (a_mem s) (a_tar s) n) (read_bytes_ok _ _ _ Hm)) as Hb.
      rewrite length_read_bytes in Hb. destruct (Hpos s) as [E|[E|E]]; rewrite E in Hn; subst n; exact Hb. }
    assert (0 <= lane (a_tar s) /\ lane (a_tar s) + 8 * n <= 32).
    { unfold lane. rewrite land_3_mod. destruct (Hpos s) as [E|[E|E]]; rewrite E in Hn; subst n; div_lia. }
    assert (0 <= 8 * n) by (destruct (Hpos s) as [|[|]]; lia). change 0xffffffff with (Z.ones 32).
    generalize dependent (from_le (read_bytes (a_mem s) (a_tar s) n)). intros v Hv.
    apply Z.bits_inj'. intros i Hi.
    repeat (first [rewrite Z.testbit_ones by lia | progress bit_rewrite | bit_above | bit_below | bit_case]);
      try done; try lia; try (f_equal; lia).
  - intros s n x (_&Hn&_) Hal _ Hmap. eexists. cbn. rewrite (Hreach s n) by done. split; [done|].
    split_and!; [done|cbn [ahb_step a_mem]; unfold ahb_size; by rewrite Hn|by apply (Hstep s n (a_mem s))].
Defined.

#[global] Instance ahb_word : WordSystem ahb.
Proof.
  assert (forall x, 0 <= Z.land x 0xffffffff < 2 ^ 32) as Hw by apply land_word_bound.
  split; try done.
  intros s a s' x. cbn. repeat case_match; try done; intros [= <- <-]; apply Hw.
Qed.
