(* ===== verification/ArmMemory.v ===== *)
(** * Memory behind a debug port

    The whole path of a memory access on an ARM target: blobs are split into
    register accesses ([Memory]), those into accesses of CSW, TAR and DRW
    ([MemAp]), those into SWD packets ([SwDp]) or JTAG scans ([JtagDp]), and the
    answers are put together again on the way back. *)

From S2P Require Import Prelude Memory ArmDp SwDp JtagDp MemAp.

Section Access.
Context {S P : Type} `{DebugPort S P} (base : Z) (ly : layout).

(** Batches of the access port, one after the other. *)
Fixpoint mem_flushes (p : P) (batches : list (list mem_op)) : P * list (list (result value)) :=
  match batches with
  | [] => (p, [])
  | batch :: batches =>
      let '(p, rs) := mem_flush base ly p batch in
      let '(p, rss) := mem_flushes p batches in (p, rs :: rss)
  end.
End Access.

Fixpoint mem_spec_batches (m : memory) (batches : list (list mem_op)) : memory * list (list value) :=
  match batches with
  | [] => (m, [])
  | batch :: batches =>
      let '(m, vs) := mem_spec_all m batch in let '(m, vss) := mem_spec_batches m batches in (m, vs :: vss)
  end.

Lemma mem_spec_all_ok batch : forall m, mem_ok m -> Forall op_ok batch -> mem_ok (mem_spec_all m batch).1.
Proof.
  induction batch as [|o batch IH]; intros m Hm Hok; [done|]. apply Forall_cons in Hok as [Ho Hok]. cbn [mem_spec_all].
  destruct (settle_spec Overwide m o Hm Ho) as (_&_&_&_&Hm1). destruct (mem_spec m o) as [m1 v1].
  specialize (IH m1 Hm1 Hok). by destruct (mem_spec_all m1 batch).
Qed.

(** ** Theorems *)

(** C7: memory through a debug port is memory.  Whatever batches of byte, half
    word, word and blob accesses are made through a MEM-AP of either layout,
    behind any debug port, they read and write the bytes of the memory behind it
    in order, although writes of CSW and TAR are skipped, TAR is left to advance
    by itself inside a block, blobs are read in whole words, and the contents of
    CSW and TAR are unknown at the head of each batch. *)
Theorem mem_ap_serves_memory {S P} `{DebugPort S P} base ly mapped mem `{!MemoryAp base ly mapped mem} p batches :
  port_ok p -> aperture base ly port_version -> mem_ok (mem (port_sys p)) -> Forall (Forall (mem_op_ok mapped)) batches ->
  exists p', mem_flushes base ly p batches
      = (p', map (map Ok) (mem_spec_batches (mem (port_sys p)) batches).2)
    /\ mem (port_sys p') = (mem_spec_batches (mem (port_sys p)) batches).1.
Proof.
  revert p. induction batches as [|batch batches IH]; intros p Hp Ha Hm Hok; [by exists p|].
  apply Forall_cons in Hok as [Hb Hok]. cbn [mem_flushes mem_spec_batches].
  destruct (mem_flush_refines base ly mapped mem p batch Hp Ha Hm Hb) as (p1&->&Hp1&Hm1).
  assert (mem_ok (mem (port_sys p1))) as Hok1.
  { rewrite Hm1. apply mem_spec_all_ok; [done|]. eapply Forall_impl; [exact Hb|].
    intros [r|a n|a d]; cbn; [done|by intros [? _]|by intros [? _]]. }
  destruct (IH p1 Hp1 Ha Hok1 Hok) as (p2&->&Hm2). rewrite Hm1 in *.
  destruct (mem_spec_all (mem (port_sys p)) batch) as [m1 vs]. cbn [fst snd] in *.
  destruct (mem_spec_batches m1 batches) as [m2 vss]. by exists p2.
Qed.

Definition sample_ahb : ahb := mkAhb 0 0 sample_memory 0x24770011.

(** A blob written across a block of TAR and read back, over SWD. *)
Definition sample_batches : list (list mem_op) :=
  [[WriteBlob 0x13fd [1; 2; 3; 4; 5; 6]; RegOp (Read16 0x13fe)]; [ReadBlob 0x13fc 8; RegOp (Write8 0x1001 0x1ff); ReadBlob 0x1000 3]].

Definition sw_sample : sw_dp * option Z * SwDp.chip ahb :=
  (SwDp.sample_port, None, SwDp.mkChip 0 0 0 false true sample_ahb).

Lemma sample_batches_ok : Forall (Forall (mem_op_ok ahb_mapped)) sample_batches.
Proof.
  assert (Hw : forall a d, forallb (fun b => (0 <=? b) && (b <? 256)) d = true -> 0 <= a -> a + zlen d <= 0x10000 ->
    mem_op_ok ahb_mapped (WriteBlob a d)).
  { intros a d Hd H1 H2. split_and!; [|lia|lia|unfold ahb_mapped; lia]. apply Forall_forall. intros x Hx.
    apply list_elem_of_In in Hx. apply (proj1 (forallb_forall _ _) Hd), andb_true_iff in Hx as [?%Z.leb_le ?%Z.ltb_lt]. done. }
  assert (Hr : forall a n, 0 <= n -> 0 <= a -> a + n <= 0x10000 -> mem_op_ok ahb_mapped (ReadBlob a n)).
  { intros a n H1 H2 H3. split_and!; [lia|lia|lia|]. unfold ahb_mapped. intros x Hx. div_lia. }
  assert (Hreg : forall r, 0 <= reg_addr r <= 0x10000 -> reg_addr r mod width r = 0 -> mem_op_ok ahb_mapped (RegOp r)).
  { intros r H1 H2. pose proof (width_cases r) as Hwd. unfold mem_op_ok, reg_ok, ahb_mapped.
    destruct Hwd as [E|[E|E]]; rewrite E in *; split_and!; try done; intros; lia. }
  repeat first [apply Hw; [reflexivity|lia|cbn; lia] | apply Hr; lia | apply Hreg; [cbn; lia|reflexivity] | constructor].
Qed.

Lemma mem_ap_serves_memory_witness :
  exists p, @mem_flushes ahb _ _ (sw_port V5 (fun _ => 0xdead) None) 0 apv1 sw_sample sample_batches
  = (p, [[Ok VNone; Ok (VInt 0x302)]; [Ok (VBytes [1; 1; 2; 3; 4; 5; 6; 1]); Ok VNone; Ok (VBytes [1; 0xff; 3])]]).
Proof.
  destruct (@mem_ap_serves_memory ahb _ _ (sw_port V5 (fun _ => 0xdead) None) 0 apv1 ahb_mapped a_mem ahb_memory_ap
    sw_sample sample_batches) as (p&E&_).
  - split; [reflexivity|]. split; [reflexivity|]. split; [intros t Ht; discriminate Ht|]. intros _.
    split; [reflexivity|]. split; [reflexivity|]. split; [cbn; lia|]. intros Hv. discriminate Hv.
  - repeat split; vm_compute; congruence.
  - exact sample_memory_ok.
  - exact sample_batches_ok.
  - exists p. rewrite E. vm_compute. reflexivity.
Defined.

(** The same batches over JTAG. *)
Example memory_over_jtag :
  (@mem_flushes ahb _ _ (jtag_port V5 false (fun _ => 0xdead)) 0 apv1 (None, JtagDp.mkChip 0 0 (0, 0) false sample_ahb) sample_batches).2
  = [[Ok VNone; Ok (VInt 0x302)]; [Ok (VBytes [1; 1; 2; 3; 4; 5; 6; 1]); Ok VNone; Ok (VBytes [1; 0xff; 3])]].
Proof. vm_compute. reflexivity. Qed.

(** A write to memory that is not there: over SWD it is reported as done, and
    the next access fails; over JTAG it fails. *)
Theorem unmapped_write_over_swd :
  let '(p, rs) := @mem_flushes ahb _ _ (sw_port V5 (fun _ => 0xdead) None) 0 apv1 sw_sample
    [[RegOp (Write32 0xE0001000 1)]; [RegOp (Read32 0x1000)]] in
  rs = [[Ok VNone]; [Err DpAccessFailure]].
Proof. vm_compute. reflexivity. Qed.

Example unmapped_write_over_jtag :
  (@mem_flushes ahb _ _ (jtag_port V5 false (fun _ => 0xdead)) 0 apv1
    (Some 0x50000000, JtagDp.mkChip 0 0 (0, 0) false sample_ahb)
    [[RegOp (Write32 0xE0001000 1)]; [RegOp (Read32 0x1000)]]).2
  = [[Err DpAccessFailure]; [Ok (VInt 0x04030201)]].
Proof. vm_compute. reflexivity. Qed.

(** An address above 4 GiB reaches the register of its lower half: TAR_HI is
    never written. *)
Theorem high_address_truncated a :
  0 <= a < 2 ^ 32 -> lower_register_ops 0 apv1 [Read32 (2 ^ 32 + a)] = lower_register_ops 0 apv1 [Read32 a].
Proof.
  intros Ha. assert (Z.land (2 ^ 32 + a) 0xffffffff = Z.land a 0xffffffff) as E.
  { change 0xffffffff with (Z.ones 32). rewrite !Z.land_ones by lia. rewrite <- Z.add_mod_idemp_l, Z.mod_same by lia. done. }
  unfold lower_register_ops, emit_all, emit, csw_tar_setup. cbn [reg_addr size_for].
  rewrite !bool_decide_eq_false_2 by done. by rewrite E.
Qed.
