(* ===== verification/Rtt.v ===== *)
(** * Real-time transfer over target memory (src/acrobe/target/rtt.py)

    The host's side of SEGGER RTT: it finds a control block in the target's RAM,
    checks it, and moves bytes through two ring buffers that the target and the
    host share, UP from the target and DOWN to it.  The memory is read and written
    through a memory bus ([Memory]); each definition here is the host's code
    between two points where it waits.

    This file holds the operations and the search for the control block;
    [RttStreams] the interleaving with the target. *)

From Stdlib Require Import Ascii String.
From S2P Require Import Prelude Memory PyText.

Open Scope Z_scope.

(** ** Constants *)

Definition RTT_MAGIC : list Z := lit "SEGGER RTT" ++ replicate 6 0.
Definition RTT_MAGIC_LEN : Z := 16.
Definition RTT_HEADER_LEN : Z := RTT_MAGIC_LEN + 8.
Definition RTT_BUFFER_DESC_LEN : Z := 24.
Definition RTT_MAX_BUFFERS : Z := 32.
Definition RTT_MAX_BUFFER_SIZE : Z := 64 * 1024.
Definition SCAN_CHUNK : Z := 4096.

(** ** State *)

(** The fields of a descriptor that the target does not touch after it set
    them: name, buffer, size, flags. *)
Abbreviation reference := (Z * Z * Z * Z)%type.

Record rtt := mkRtt {
  up_channel : Z; down_channel : Z;
  cb_addr : option Z; fixed_cb_addr : option Z;
  up_buf_addr : Z; up_buf_size : Z; up_buf_rdoff : Z;
  up_desc_addr : Z; up_desc_rdoff_addr : Z; up_ref : option reference;
  down_buf_addr : Z; down_buf_size : Z; down_buf_wroff : Z;
  down_desc_addr : Z; down_desc_rdoff_addr : Z; down_desc_wroff_addr : Z; down_ref : option reference;
  rx_queue : list Z;
}.

(** Assignments to single attributes. *)
Definition set_rx (q : list Z) (s : rtt) : rtt :=
  mkRtt (up_channel s) (down_channel s) (cb_addr s) (fixed_cb_addr s) (up_buf_addr s) (up_buf_size s) (up_buf_rdoff s)
    (up_desc_addr s) (up_desc_rdoff_addr s) (up_ref s) (down_buf_addr s) (down_buf_size s) (down_buf_wroff s)
    (down_desc_addr s) (down_desc_rdoff_addr s) (down_desc_wroff_addr s) (down_ref s) q.
Definition set_rdoff (x : Z) (s : rtt) : rtt :=
  mkRtt (up_channel s) (down_channel s) (cb_addr s) (fixed_cb_addr s) (up_buf_addr s) (up_buf_size s) x
    (up_desc_addr s) (up_desc_rdoff_addr s) (up_ref s) (down_buf_addr s) (down_buf_size s) (down_buf_wroff s)
    (down_desc_addr s) (down_desc_rdoff_addr s) (down_desc_wroff_addr s) (down_ref s) (rx_queue s).
Definition set_wroff (x : Z) (s : rtt) : rtt :=
  mkRtt (up_channel s) (down_channel s) (cb_addr s) (fixed_cb_addr s) (up_buf_addr s) (up_buf_size s) (up_buf_rdoff s)
    (up_desc_addr s) (up_desc_rdoff_addr s) (up_ref s) (down_buf_addr s) (down_buf_size s) x
    (down_desc_addr s) (down_desc_rdoff_addr s) (down_desc_wroff_addr s) (down_ref s) (rx_queue s).
Definition set_cb (a : option Z) (s : rtt) : rtt :=
  mkRtt (up_channel s) (down_channel s) a (fixed_cb_addr s) (up_buf_addr s) (up_buf_size s) (up_buf_rdoff s)
    (up_desc_addr s) (up_desc_rdoff_addr s) (up_ref s) (down_buf_addr s) (down_buf_size s) (down_buf_wroff s)
    (down_desc_addr s) (down_desc_rdoff_addr s) (down_desc_wroff_addr s) (down_ref s) (rx_queue s).

(** The parent RAM. *)
Record ram := mkRam { ram_address : Z; ram_end : Z }.

(** ** Searching *)

(** The offsets of a chunk at which the magic stands, in steps of four. *)
Fixpoint find_magic (n : nat) (offset : Z) (chunk : list Z) : option Z :=
  match n with
  | O => None
  | S n =>
      if zlen chunk - RTT_MAGIC_LEN + 1 <=? offset then None
      else if bool_decide (slice chunk offset (offset + RTT_MAGIC_LEN) = RTT_MAGIC) then Some offset
      else find_magic n (offset + 4) chunk
  end.

(** [__scan]; the fuel bounds the chunks. *)
Fixpoint scan_from (fuel : nat) (r : ram) (m : memory) (cursor : Z) : result Z :=
  match fuel with
  | O => Err OutOfFuel
  | S fuel =>
      let chunk_end := Z.min (cursor + SCAN_CHUNK) (ram_end r) in
      if chunk_end - cursor <? RTT_MAGIC_LEN then Err RttError
      else
        let chunk := read_bytes m cursor (chunk_end - cursor) in
        match find_magic (length chunk) 0 chunk with
        | Some offset => Ok (cursor + offset)
        | None =>
            if chunk_end =? ram_end r then Err RttError
            else scan_from fuel r m (Z.land (chunk_end - (RTT_MAGIC_LEN - 1) + 3) (Z.lnot 3))
        end
  end.

Definition scan (r : ram) (m : memory) : result Z :=
  scan_from (S (Z.to_nat (ram_end r - ram_address r))) r m (ram_address r).

(** ** Descriptors *)

(** The words of [struct.unpack("<6I")]. *)
Definition word_at (l : list Z) (i : Z) : Z := from_le (slice l (4 * i) (4 * i + 4)).

Definition check_side (r : ram) (buf size wr rd : Z) : result unit :=
  _ ← guard_or ((0 <? size) && (size <=? RTT_MAX_BUFFER_SIZE)) RttError;
  _ ← guard_or ((ram_address r <=? buf) && (buf <? ram_end r)) RttError;
  _ ← guard_or (negb (ram_end r <? buf + size)) RttError;
  guard_or (negb ((size <=? wr) || (size <=? rd))) RttError.

(** [__resolve_descriptors], for the control block at [cb]: the header and the
    two descriptors are read one after the other, each from the memory as it is
    then. *)
Definition resolve_descriptors (r : ram) (mh mu md : memory) (cb : Z) (s : rtt) : result rtt :=
  let header := read_bytes mh cb RTT_HEADER_LEN in
  _ ← guard_or (bool_decide (slice_to header RTT_MAGIC_LEN = RTT_MAGIC)) RttError;
  let max_up := word_at header 4 in
  let max_down := word_at header 5 in
  _ ← guard_or (negb (RTT_MAX_BUFFERS <? max_up)) RttError;
  _ ← guard_or (negb (RTT_MAX_BUFFERS <? max_down)) RttError;
  _ ← guard_or (negb ((0 <? max_up) && negb ((0 <=? up_channel s) && (up_channel s <? max_up)))) RttError;
  _ ← guard_or (negb ((0 <? max_down) && negb ((0 <=? down_channel s) && (down_channel s <? max_down)))) RttError;
  let has_up := 0 <? max_up in
  let up_desc := cb + RTT_HEADER_LEN + up_channel s * RTT_BUFFER_DESC_LEN in
  let up := read_bytes mu up_desc RTT_BUFFER_DESC_LEN in
  let down_desc := cb + RTT_HEADER_LEN + max_up * RTT_BUFFER_DESC_LEN + down_channel s * RTT_BUFFER_DESC_LEN in
  let has_down := 0 <? max_down in
  let down := read_bytes md down_desc RTT_BUFFER_DESC_LEN in
  _ ← (if has_up then check_side r (word_at up 1) (word_at up 2) (word_at up 3) (word_at up 4) else Ok tt);
  _ ← (if has_down then check_side r (word_at down 1) (word_at down 2) (word_at down 3) (word_at down 4) else Ok tt);
  let on (b : bool) (x : Z) := if b then x else 0 in
  Ok (mkRtt (up_channel s) (down_channel s) (Some cb) (fixed_cb_addr s)
    (on has_up (word_at up 1)) (on has_up (word_at up 2)) (on has_up (word_at up 4))
    (on has_up up_desc) (on has_up (up_desc + 16))
    (if has_up then Some (word_at up 0, word_at up 1, word_at up 2, word_at up 5) else None)
    (on has_down (word_at down 1)) (on has_down (word_at down 2)) (on has_down (word_at down 3))
    (on has_down down_desc) (on has_down (down_desc + 16)) (on has_down (down_desc + 12))
    (if has_down then Some (word_at down 0, word_at down 1, word_at down 2, word_at down 5) else None)
    (rx_queue s)).

(** One round of [__establish_cb] over a memory that does not change meanwhile:
    [true] when a control block was accepted; otherwise the address goes back to
    the one the user gave. *)
Definition establish_round (r : ram) (m : memory) (s : rtt) : bool * rtt :=
  match (match cb_addr s with Some a => Ok a | None => scan r m end) with
  | Ok cb =>
      match resolve_descriptors r m m m cb s with
      | Ok s' => (true, s')
      | Err _ => (false, set_cb (fixed_cb_addr s) s)
      end
  | Err _ => (false, s)
  end.

(** [__validate_magic], [__validate_up_descriptor],
    [__validate_down_descriptor] *)
Definition validate_magic (magic : list Z) : result unit := guard_or (bool_decide (magic = RTT_MAGIC)) RttError.

Definition validate_up_descriptor (s : rtt) (desc : list Z) : result Z :=
  _ ← guard_or (bool_decide (Some (word_at desc 0, word_at desc 1, word_at desc 2, word_at desc 5) = up_ref s)) RttError;
  _ ← guard_or (word_at desc 4 =? up_buf_rdoff s) RttError;
  _ ← guard_or (negb (word_at desc 2 <=? word_at desc 3)) RttError;
  Ok (word_at desc 3).

Definition validate_down_descriptor (s : rtt) (desc : list Z) : result unit :=
  _ ← guard_or (bool_decide (Some (word_at desc 0, word_at desc 1, word_at desc 2, word_at desc 5) = down_ref s)) RttError;
  _ ← guard_or (word_at desc 3 =? down_buf_wroff s) RttError;
  guard_or (negb (word_at desc 2 <=? word_at desc 4)) RttError.

(** ** Polling *)

(** The reads of the first phase of [__poll_cycle], each from the memory as it is
    then, and their validation, which gives the position to drain to if there is
    something new. *)
Definition snapshot (s : rtt) (mm mu md : memory) : list Z * list Z * list Z :=
  (match cb_addr s with Some a => read_bytes mm a RTT_MAGIC_LEN | None => [] end,
   read_bytes mu (up_desc_addr s) RTT_BUFFER_DESC_LEN, read_bytes md (down_desc_addr s) RTT_BUFFER_DESC_LEN).

Definition poll_validate (s : rtt) (snap : list Z * list Z * list Z) : result (option Z) :=
  let '(magic, up, down) := snap in
  _ ← validate_magic magic;
  wroff ← match up_ref s with Some _ => Some <$> validate_up_descriptor s up | None => Ok None end;
  _ ← match down_ref s with Some _ => validate_down_descriptor s down | None => Ok tt end;
  Ok (match wroff with
      | Some w => if w =? up_buf_rdoff s then None else Some w
      | None => None
      end).

(** The second phase: the reads of the new bytes, as address and size; the
    writeback of RdOff; what is done with the bytes once both are through. *)
Definition drain_requests (wroff : Z) (s : rtt) : list (Z * Z) :=
  let rd := up_buf_rdoff s in
  if rd <? wroff then [(up_buf_addr s + rd, wroff - rd)]
  else [(up_buf_addr s + rd, up_buf_size s - rd); (up_buf_addr s, wroff)].

Definition writeback (wroff : Z) (s : rtt) (m : memory) : memory :=
  write_bytes m (up_desc_rdoff_addr s) (le_bytes 4 wroff).

Definition drained (wroff : Z) (data : list Z) (s : rtt) : rtt :=
  set_rdoff wroff (set_rx (rx_queue s ++ data) s).

(** ** Delivering *)

(** [ReadSome], [Read(None)] and [Read(size)] of the pipe. *)
Inductive read_request : Type := ReadSome (max_size : Z) | ReadAny | ReadExactly (size : Z).

(** [__deliver], once the control block is known: an error when there is no UP
    buffer, [None] while there is not enough to read. *)
Definition deliver (q : read_request) (s : rtt) : result (option (list Z * rtt)) :=
  if up_buf_size s =? 0 then Err RttError
  else if bool_decide (rx_queue s = []) then Ok None
  else
    let give n := Ok (Some (slice_to (rx_queue s) n, set_rx (slice_from (rx_queue s) n) s)) in
    match q with
    | ReadSome max_size => give (Z.min max_size (zlen (rx_queue s)))
    | ReadAny => give (zlen (rx_queue s))
    | ReadExactly size => if zlen (rx_queue s) <? size then Ok None else give size
    end.

(** ** Writing *)

(** [__down_free_space], given the RdOff that was read. *)
Definition down_free_space (rdoff : Z) (s : rtt) : Z :=
  let size := down_buf_size s in
  let wr := down_buf_wroff s in
  if wr <? rdoff then rdoff - wr - 1 else size - wr + rdoff - 1.

(** [__down_push]: the writes of the data, the new WrOff, its write. *)
Definition push_requests (data : list Z) (s : rtt) : list (Z * list Z) :=
  let size := down_buf_size s in
  let wr := down_buf_wroff s in
  if wr + zlen data <=? size then [(down_buf_addr s + wr, data)]
  else
    let first := size - wr in
    [(down_buf_addr s + wr, slice_to data first); (down_buf_addr s, slice_from data first)].

Definition push_offset (data : list Z) (s : rtt) : Z := (down_buf_wroff s + zlen data) mod down_buf_size s.

Definition push_commit (wroff : Z) (s : rtt) (m : memory) : memory :=
  write_bytes m (down_desc_wroff_addr s) (le_bytes 4 wroff).

(** ** Memory windows *)

Lemma word_at_read_bytes m a n i :
  0 <= i -> 4 * i + 4 <= n -> word_at (read_bytes m a n) i = from_le (read_bytes m (a + 4 * i) 4).
Proof. intros Hi Hn. unfold word_at. rewrite slice_read_bytes by lia. do 2 f_equal. lia. Qed.

(** ** The search *)

Lemma find_magic_spec m c len n : forall o,
  0 <= o -> len < 4 * Z.of_nat n + o ->
  match find_magic n o (read_bytes m c len) with
  | Some x =>
      o <= x /\ (x - o) mod 4 = 0 /\ x + RTT_MAGIC_LEN <= len /\ read_bytes m (c + x) RTT_MAGIC_LEN = RTT_MAGIC /\
      forall y, o <= y < x -> (y - o) mod 4 = 0 -> read_bytes m (c + y) RTT_MAGIC_LEN <> RTT_MAGIC
  | None => forall y, o <= y -> y + RTT_MAGIC_LEN <= len -> (y - o) mod 4 = 0 ->
      read_bytes m (c + y) RTT_MAGIC_LEN <> RTT_MAGIC
  end.
Proof.
  unfold RTT_MAGIC_LEN. induction n as [|n IH]; intros o Ho Hn; cbn [find_magic].
  - intros y Hy Hy' _. lia.
  - unfold RTT_MAGIC_LEN. rewrite length_read_bytes. destruct (_ <=? o) eqn:Hend; [apply Z.leb_le in Hend; intros y Hy Hy' _; lia|].
    apply Z.leb_gt in Hend. rewrite slice_read_bytes by lia.
    replace (o + 16 - o) with 16 by lia. destruct (bool_decide _) eqn:Hm; [apply bool_decide_eq_true in Hm|apply bool_decide_eq_false in Hm].
    + split; [lia|]. split; [by rewrite Z.sub_diag|]. split; [lia|]. split; [done|]. intros y Hy. lia.
    + assert (forall y, o <= y -> (y - o) mod 4 = 0 -> y = o \/ o + 4 <= y /\ (y - (o + 4)) mod 4 = 0) as Hnext.
      { intros y Hy Hmod. div_lia. }
      specialize (IH (o + 4) ltac:(lia) ltac:(lia)). destruct find_magic as [x|].
      * destruct IH as (H1&H2&H3&H4&H5). split; [lia|]. split; [div_lia|]. split; [done|]. split; [done|].
        intros y Hy Hmod. destruct (Hnext y ltac:(lia) Hmod) as [->|[]]; [done|]. apply H5; [lia|done].
      * intros y Hy Hy' Hmod. destruct (Hnext y ltac:(lia) Hmod) as [->|[]]; [done|]. by apply IH.
Qed.

(** What a search from [cursor] has to find. *)
Definition found_from (r : ram) (m : memory) (cursor : Z) (x : result Z) : Prop :=
  match x with
  | Ok a =>
      cursor <= a /\ a mod 4 = 0 /\ a + RTT_MAGIC_LEN <= ram_end r /\ read_bytes m a RTT_MAGIC_LEN = RTT_MAGIC /\
      forall b, cursor <= b < a -> b mod 4 = 0 -> read_bytes m b RTT_MAGIC_LEN <> RTT_MAGIC
  | Err e => e = RttError /\
      forall b, cursor <= b -> b + RTT_MAGIC_LEN <= ram_end r -> b mod 4 = 0 ->
        read_bytes m b RTT_MAGIC_LEN <> RTT_MAGIC
  end.

Lemma next_cursor c : c mod 4 = 0 -> Z.land (c + SCAN_CHUNK - (RTT_MAGIC_LEN - 1) + 3) (Z.lnot 3) = c + 4084.
Proof.
  intros Hc. unfold SCAN_CHUNK, RTT_MAGIC_LEN. rewrite align_down. div_lia.
Qed.

Lemma scan_from_spec r m fuel : forall cursor,
  cursor mod 4 = 0 -> ram_end r - cursor < Z.of_nat fuel -> 1 <= Z.of_nat fuel ->
  found_from r m cursor (scan_from fuel r m cursor).
Proof.
  induction fuel as [|fuel IH]; intros cursor Hc Hf Hf1; [lia|]. cbn [scan_from].
  destruct (_ <? RTT_MAGIC_LEN) eqn:Hshort.
  { split; [done|]. intros b Hb Hb' _. unfold RTT_MAGIC_LEN, SCAN_CHUNK in *. lia. }
  set (ce := Z.min _ _) in *. rewrite length_read_bytes.
  pose proof (find_magic_spec m cursor (ce - cursor) (Z.to_nat (ce - cursor)) 0 ltac:(lia)
    ltac:(unfold RTT_MAGIC_LEN in *; lia)) as Hfind.
  destruct find_magic as [x|].
  - destruct Hfind as (H1&H2&H3&H4&H5). cbn. split; [lia|]. split; [div_lia|]. split; [lia|]. split; [done|].
    intros b Hb Hmod. replace b with (cursor + (b - cursor)) by lia. apply H5; [lia|div_lia].
  - assert (forall b, cursor <= b -> b + RTT_MAGIC_LEN <= ce -> b mod 4 = 0 ->
      read_bytes m b RTT_MAGIC_LEN <> RTT_MAGIC) as Hnone.
    { intros b Hb Hb' Hmod. replace b with (cursor + (b - cursor)) by lia. apply Hfind; [lia|lia|div_lia]. }
    destruct (ce =? ram_end r) eqn:Hlast; [split; [done|]; apply Z.eqb_eq in Hlast; by rewrite <- Hlast|].
    assert (ce = cursor + SCAN_CHUNK) as Hce by lia. rewrite Hce, next_cursor by done.
    specialize (IH (cursor + 4084) ltac:(div_lia)). unfold SCAN_CHUNK, RTT_MAGIC_LEN in *.
    specialize (IH ltac:(lia) ltac:(lia)).
    assert (forall b, cursor <= b -> b mod 4 = 0 -> b < cursor + 4084 -> read_bytes m b 16 <> RTT_MAGIC) as Hskip.
    { intros b Hb Hmod Hlt. apply Hnone; [lia|div_lia|done]. }
    destruct (scan_from fuel r m (cursor + 4084)) as [a|e]; cbn in IH |- *; unfold RTT_MAGIC_LEN in *.
    + destruct IH as (H1&H2&H3&H4&H5). do 4 (split; [lia || done|]). intros b Hb Hmod.
      destruct (decide (b < cursor + 4084)); [by apply Hskip; [lia|..]|]. apply H5; [lia|done].
    + destruct IH as [-> H5]. split; [done|]. intros b Hb Hb' Hmod.
      destruct (decide (b < cursor + 4084)); [by apply Hskip|]. apply H5; [lia|done..].
Qed.

(** The search for the control block in a word-aligned RAM returns the
    address of the first word-aligned occurrence of the magic that lies wholly
    inside the RAM, whether or not it straddles two chunks; when there is none it
    fails with [RttError]; it always ends. *)
Theorem rtt_scan_finds r m :
  ram_address r mod 4 = 0 -> found_from r m (ram_address r) (scan r m).
Proof. intros Ha. apply scan_from_spec; [done|lia..]. Qed.

Definition straddling : memory := write_bytes ∅ 0x20000ff8 RTT_MAGIC.

Lemma rtt_scan_finds_witness :
  scan (mkRam 0x20000000 0x20004000) straddling = Ok 0x20000ff8 /\
  found_from (mkRam 0x20000000 0x20004000) straddling 0x20000000 (scan (mkRam 0x20000000 0x20004000) straddling).
Proof. split; [by vm_compute|]. apply rtt_scan_finds. done. Defined.
