(* ===== verification/RttStreams.v ===== *)
(** * RTT streams under interleaving (src/acrobe/target/rtt.py)

    The tasks of [Rtt] - the pump, the writer that holds the transmit lock and the
    reader that holds the receive lock - and the firmware run interleaved over one
    memory.  A step of a task is what it does between two memory accesses, so every
    access of the source is a step of its own; the memories that the reads of one
    batch saw are kept until the task is resumed with their values.

    The firmware is not part of the repository.  It is taken to keep RTT's
    protocol: it fills free slots of the UP ring and then advances WrOff, takes
    bytes from the DOWN ring and then advances RdOff, and touches nothing else of
    the control block.  The address of the control block is the one given by the
    user ([address=]); the search is [Rtt.scan].

    [sys] is the whole state with the history of both streams, [fire] one step.
    The UP stream is kept in every interleaving; the DOWN stream in those where
    the pump does not establish the control block anew while a write is under way,
    and only in those. *)

From S2P Require Import Prelude Memory Rtt.

(** ** Tasks *)

(** The pump: in the first phase of [__poll_cycle] with the memories its reads saw
    so far, in the second phase with the reads still to do, with RdOff written, or
    in [__resolve_descriptors]. *)
Inductive pump : Type :=
  | Sampling (seen : list memory)
  | Draining (wroff : Z) (todo : list (Z * Z)) (data : list Z)
  | Written (wroff : Z) (data : list Z)
  | Establishing (seen : list memory).

(** [__write_all] with its local variables, in [__down_free_space] and
    [__down_push]. *)
Inductive writer : Type :=
  | Idle
  | Asking (remaining : list Z)
  | Told (rdoff : Z) (remaining : list Z)
  | Pushing (todo : list (Z * list Z)) (new_wr : Z) (chunk remaining : list Z)
  | Committing (new_wr : Z) (chunk remaining : list Z).

Record sys := mkSys {
  host : rtt; mem : memory; pump_at : pump; writer_at : writer;
  emitted : list Z; delivered : list Z; sent : list Z; received : list Z;
}.

Definition on_pump (h : rtt) (m : memory) (p : pump) (x : sys) : sys :=
  mkSys h m p (writer_at x) (emitted x) (delivered x) (sent x) (received x).
Definition on_writer (h : rtt) (m : memory) (w : writer) (x : sys) : sys :=
  mkSys h m (pump_at x) w (emitted x) (delivered x) (sent x) (received x).

(** ** Rings and offsets *)

(** The addresses of [len] slots of a ring from [pos] on, and what they hold. *)
Definition window (buf size pos len : Z) : list Z := (fun i => buf + (pos + i) mod size) <$> seqZ 0 len.
Definition ring (m : memory) (buf size pos len : Z) : list Z := (fun a => m !!! a) <$> window buf size pos len.

Definition word (m : memory) (a : Z) : Z := from_le (read_bytes m a 4).

Definition used (size wr rd : Z) : Z := (wr - rd) mod size.

Inductive offset : Type := UpWr | UpRd | DownWr | DownRd.

#[export] Instance offset_eq_dec : EqDecision offset.
Proof. solve_decision. Defined.

Inductive event : Type :=
  | Sample | Validate | DrainRead | WriteBack | Drained | ResolveRead | Resolve
  | Deliver (q : read_request)
  | Write (data : list Z) | AskSpace | Choose | PushWrite | PushDone | Commit
  | Put (i b : Z) | Publish (n : Z) | Take (n : Z).

Section system.
(** The established host, which fixes where everything is. *)
Context (r : ram) (s0 : rtt).

Definition offset_addr (o : offset) : Z :=
  match o with
  | UpWr => up_desc_addr s0 + 12
  | UpRd => up_desc_rdoff_addr s0
  | DownWr => down_desc_wroff_addr s0
  | DownRd => down_desc_rdoff_addr s0
  end.

Definition offset_bound (o : offset) : Z :=
  match o with UpWr | UpRd => up_buf_size s0 | DownWr | DownRd => down_buf_size s0 end.

Definition off (o : offset) (m : memory) : Z := word m (offset_addr o).
Definition write_off (o : offset) (v : Z) (m : memory) : memory := write_bytes m (offset_addr o) (le_bytes 4 v).

Definition up_used (m : memory) : Z := used (up_buf_size s0) (off UpWr m) (off UpRd m).
Definition down_used (m : memory) : Z := used (down_buf_size s0) (off DownWr m) (off DownRd m).

Abbreviation up_ring m := (ring m (up_buf_addr s0) (up_buf_size s0)).
Abbreviation down_ring m := (ring m (down_buf_addr s0) (down_buf_size s0)).

(** What the rings hold. *)
Definition up_pending (m : memory) : list Z := up_ring m (off UpRd m) (up_used m).
Definition down_pending (m : memory) : list Z := down_ring m (off DownRd m) (down_used m).

(** ** Steps *)

Definition fire_pump (e : event) (x : sys) : option sys :=
  let h := host x in
  let m := mem x in
  match e, pump_at x with
  | Sample, Sampling l => if (length l <? 3)%nat then Some (on_pump h m (Sampling (l ++ [m])) x) else None
  | Validate, Sampling [mm; mu; md] =>
      match poll_validate h (snapshot h mm mu md) with
      | Ok None => Some (on_pump h m (Sampling []) x)
      | Ok (Some w) => Some (on_pump h m (Draining w (drain_requests w h) []) x)
      | Err _ => Some (on_pump (set_cb (fixed_cb_addr h) h) m (Establishing []) x)
      end
  | DrainRead, Draining w ((a, n) :: todo) d => Some (on_pump h m (Draining w todo (d ++ read_bytes m a n)) x)
  | WriteBack, Draining w [] d => Some (on_pump h (writeback w h m) (Written w d) x)
  | Drained, Written w d => Some (on_pump (drained w d h) m (Sampling []) x)
  | ResolveRead, Establishing l => if (length l <? 3)%nat then Some (on_pump h m (Establishing (l ++ [m])) x) else None
  | Resolve, Establishing [mh; mu; md] =>
      match cb_addr h with
      | Some cb =>
          match resolve_descriptors r mh mu md cb h with
          | Ok h' => Some (on_pump h' m (Sampling []) x)
          | Err _ => Some (on_pump (set_cb (fixed_cb_addr h) h) m (Establishing []) x)
          end
      | None => None
      end
  | _, _ => None
  end.

(** A write waits until the control block is known. *)
Definition ready (x : sys) : bool := match pump_at x with Establishing _ => false | _ => true end.

Definition fire_writer (e : event) (x : sys) : option sys :=
  let h := host x in
  let m := mem x in
  match e, writer_at x with
  | Write data, Idle =>
      if ready x && bool_decide (bytes_ok data) && negb (bool_decide (data = [])) && negb (down_buf_size h =? 0)
      then Some (mkSys h m (pump_at x) (Asking data) (emitted x) (delivered x) (sent x ++ data) (received x))
      else None
  | AskSpace, Asking rem => Some (on_writer h m (Told (word m (down_desc_rdoff_addr h)) rem) x)
  | Choose, Told rd rem =>
      let free := down_free_space rd h in
      if free =? 0 then Some (on_writer h m (Asking rem) x)
      else
        let chunk := slice_to rem free in
        Some (on_writer h m (Pushing (push_requests chunk h) (push_offset chunk h) chunk rem) x)
  | PushWrite, Pushing ((a, d) :: todo) w c rem => Some (on_writer h (write_bytes m a d) (Pushing todo w c rem) x)
  | PushDone, Pushing [] w c rem => Some (on_writer (set_wroff w h) m (Committing w c rem) x)
  | Commit, Committing w c rem =>
      let rest := slice_from rem (zlen c) in
      Some (on_writer h (push_commit w h m) (if bool_decide (rest = []) then Idle else Asking rest) x)
  | _, _ => None
  end.

Definition fire_target (e : event) (x : sys) : option sys :=
  let m := mem x in
  match e with
  | Put i b =>
      if (0 <=? i) && (i <? up_buf_size s0 - 1 - up_used m) && bool_decide (is_byte b)
      then Some (mkSys (host x) (<[up_buf_addr s0 + (off UpWr m + i) mod up_buf_size s0 := b]> m)
                   (pump_at x) (writer_at x) (emitted x) (delivered x) (sent x) (received x))
      else None
  | Publish n =>
      if (0 <=? n) && (n <=? up_buf_size s0 - 1 - up_used m)
      then Some (mkSys (host x) (write_off UpWr ((off UpWr m + n) mod up_buf_size s0) m)
                   (pump_at x) (writer_at x) (emitted x ++ up_ring m (off UpWr m) n) (delivered x) (sent x) (received x))
      else None
  | Take n =>
      if (0 <=? n) && (n <=? down_used m)
      then Some (mkSys (host x) (write_off DownRd ((off DownRd m + n) mod down_buf_size s0) m)
                   (pump_at x) (writer_at x) (emitted x) (delivered x) (sent x) (received x ++ down_ring m (off DownRd m) n))
      else None
  | _ => None
  end.

Definition fire (e : event) (x : sys) : option sys :=
  match e with
  | Sample | Validate | DrainRead | WriteBack | Drained | ResolveRead | Resolve => fire_pump e x
  | Write _ | AskSpace | Choose | PushWrite | PushDone | Commit => fire_writer e x
  | Put _ _ | Publish _ | Take _ => fire_target e x
  | Deliver q =>
      match deliver q (host x) with
      | Ok (Some (d, h)) =>
          Some (mkSys h (mem x) (pump_at x) (writer_at x) (emitted x) (delivered x ++ d) (sent x) (received x))
      | _ => None
      end
  end.

(** A schedule in which every state on the way satisfies [keep]. *)
Fixpoint run (keep : sys -> bool) (es : list event) (x : sys) : option sys :=
  match es with
  | [] => Some x
  | e :: es => match fire e x with Some y => if keep y then run keep es y else None | None => None end
  end.

Definition any : sys -> bool := fun _ => true.

(** The control block is not established anew under a write. *)
Definition calm (x : sys) : bool :=
  match pump_at x, writer_at x with Establishing _, Idle => true | Establishing _, _ => false | _, _ => true end.

Definition start (m0 : memory) : sys :=
  mkSys s0 m0 (Sampling []) Idle (rx_queue s0 ++ up_pending m0) [] (down_pending m0) [].

(** Bytes that left the ring and are not in the queue yet; bytes of a write
    that are not in the ring yet. *)
Definition in_flight (p : pump) : list Z := match p with Written _ d => d | _ => [] end.
Definition unsent (w : writer) : list Z :=
  match w with
  | Idle => []
  | Asking rem | Told _ rem | Pushing _ _ _ rem | Committing _ _ rem => rem
  end.

End system.

(** ** Arithmetic of a ring *)

Lemma mod_wrap x n : 0 <= x < 2 * n -> x mod n = if x <? n then x else x - n.
Proof.
  intros Hx. destruct (x <? n) eqn:E; [apply Z.mod_small; lia|]. apply Z.ltb_ge in E.
  rewrite <- (Z.mod_small (x - n) n) by lia. rewrite Zminus_mod, Z_mod_same_full, Z.sub_0_r. by rewrite Zmod_mod.
Qed.

Lemma used_wrap n wr rd : 0 <= wr < n -> 0 <= rd < n -> used n wr rd = if rd <=? wr then wr - rd else wr - rd + n.
Proof.
  intros Hw Hr. unfold used. destruct (rd <=? wr) eqn:E; [apply Z.mod_small; lia|]. apply Z.leb_gt in E.
  rewrite <- (Z.mod_small (wr - rd + n) n) by lia. rewrite Zplus_mod, Z_mod_same_full, Z.add_0_r. by rewrite Zmod_mod.
Qed.

Lemma used_bound n wr rd : 0 < n -> 0 <= used n wr rd < n.
Proof. intros Hn. apply Z.mod_pos_bound. done. Qed.

Lemma used_self n a : used n a a = 0.
Proof. unfold used. by rewrite Z.sub_diag, Zmod_0_l. Qed.

(** Moving the write offset on, and the read offset. *)
Lemma used_publish n wr rd k : 0 <= k -> used n wr rd + k < n -> 0 < n -> used n ((wr + k) mod n) rd = used n wr rd + k.
Proof.
  intros Hk Hu Hn. unfold used in *. rewrite Zminus_mod_idemp_l.
  replace (wr + k - rd) with (wr - rd + k) by lia. rewrite <- Zplus_mod_idemp_l. apply Z.mod_small.
  pose proof (Z.mod_pos_bound (wr - rd) n Hn). lia.
Qed.

Lemma used_take n wr rd k : 0 <= k <= used n wr rd -> 0 < n -> used n wr ((rd + k) mod n) = used n wr rd - k.
Proof.
  intros Hk Hn. unfold used in *. rewrite Zminus_mod_idemp_r.
  replace (wr - (rd + k)) with (wr - rd - k) by lia. rewrite <- Zminus_mod_idemp_l. apply Z.mod_small.
  pose proof (Z.mod_pos_bound (wr - rd) n Hn). lia.
Qed.

Lemma used_end n wr rd : 0 <= wr < n -> (rd + used n wr rd) mod n = wr.
Proof. intros Hw. unfold used. rewrite Zplus_mod_idemp_r. replace (rd + (wr - rd)) with wr by lia. by apply Z.mod_small. Qed.

(** ** Windows *)

Lemma length_window b n p l : length (window b n p l) = Z.to_nat l.
Proof. unfold window. by rewrite length_fmap, length_seqZ. Qed.

Lemma elem_of_window b n p l x : x ∈ window b n p l <-> exists i, 0 <= i < l /\ x = b + (p + i) mod n.
Proof.
  unfold window. rewrite list_elem_of_fmap. split.
  - intros (i&->&Hi). apply elem_of_seqZ in Hi. exists i. split; [lia|done].
  - intros (i&Hi&->). exists i. split; [done|]. apply elem_of_seqZ. lia.
Qed.

Lemma window_bound b n p l x : 0 < n -> x ∈ window b n p l -> b <= x < b + n.
Proof. intros Hn (i&_&->)%elem_of_window. pose proof (Z.mod_pos_bound (p + i) n Hn). lia. Qed.

Lemma window_app b n p k l :
  0 <= k -> 0 <= l -> window b n p (k + l) = window b n p k ++ window b n ((p + k) mod n) l.
Proof.
  intros Hk Hl. unfold window. rewrite seqZ_app, fmap_app by done. f_equal.
  replace (0 + k) with (k + 0) by lia. rewrite <- (fmap_add_seqZ k 0 l), <- list_fmap_compose.
  apply list_fmap_ext. intros _ i _. cbn. rewrite Zplus_mod_idemp_l. do 2 f_equal. lia.
Qed.

(** A window that does not wrap is a range; one that does is two. *)
Lemma window_seqZ b n p l : 0 <= p -> p + l <= n -> window b n p l = seqZ (b + p) l.
Proof.
  intros Hp Hl. unfold window. rewrite <- (Z.add_0_r (b + p)), <- (fmap_add_seqZ (b + p) 0 l).
  apply list_fmap_ext. intros _ i Hi%list_elem_of_lookup_2%elem_of_seqZ. rewrite Z.mod_small by lia. lia.
Qed.

Lemma window_two b n p l :
  0 <= p < n -> n - p <= l <= n -> window b n p l = seqZ (b + p) (n - p) ++ seqZ b (l - (n - p)).
Proof.
  intros Hp Hl. replace l with ((n - p) + (l - (n - p))) at 1 by lia. rewrite window_app by lia. f_equal.
  - apply window_seqZ; lia.
  - replace (p + (n - p)) with n by lia. rewrite Z_mod_same_full, window_seqZ by lia. f_equal. lia.
Qed.

Lemma window_slots b n p i j :
  0 <= p < n -> 0 <= i < n -> 0 <= j < n -> b + (p + i) mod n = b + (p + j) mod n -> i = j.
Proof.
  intros Hp Hi Hj E. rewrite !mod_wrap in E by lia.
  destruct (p + i <? n) eqn:E1, (p + j <? n) eqn:E2; lia.
Qed.

Lemma NoDup_window b n p l : 0 <= p < n -> l <= n -> NoDup (window b n p l).
Proof.
  intros Hp Hl. unfold window. apply NoDup_fmap_2_strong; [|apply NoDup_seqZ].
  intros i j Hi%elem_of_seqZ Hj%elem_of_seqZ. apply (window_slots b n p); lia.
Qed.

Lemma ring_app m b n p k l : 0 <= k -> 0 <= l -> ring m b n p (k + l) = ring m b n p k ++ ring m b n ((p + k) mod n) l.
Proof. intros Hk Hl. unfold ring. by rewrite window_app, fmap_app. Qed.

(** What a ring holds after its write offset moved on, and its read offset. *)
Lemma ring_agree m m' b n p k :
  0 < n -> (forall x, b <= x < b + n -> m' !!! x = m !!! x) -> ring m' b n p k = ring m b n p k.
Proof. intros Hn H. apply fmap_agree. intros x Hx. apply H. by eapply window_bound. Qed.

Lemma ring_publish m m' b n wr rd k :
  0 <= wr < n -> 0 <= k -> used n wr rd + k < n -> (forall x, b <= x < b + n -> m' !!! x = m !!! x) ->
  ring m' b n rd (used n ((wr + k) mod n) rd) = ring m b n rd (used n wr rd) ++ ring m b n wr k.
Proof.
  intros Hw Hk Hu Hm. pose proof (used_bound n wr rd ltac:(lia)). rewrite used_publish, ring_app, used_end by lia.
  f_equal; (apply ring_agree; [lia|done]).
Qed.

Lemma ring_take m m' b n wr rd k :
  0 <= wr < n -> 0 <= k <= used n wr rd -> (forall x, b <= x < b + n -> m' !!! x = m !!! x) ->
  ring m b n rd (used n wr rd) = ring m b n rd k ++ ring m' b n ((rd + k) mod n) (used n wr ((rd + k) mod n)).
Proof.
  intros Hw Hk Hm. rewrite used_take by lia. replace (used n wr rd) with (k + (used n wr rd - k)) at 1 by lia.
  rewrite ring_app by lia. f_equal. symmetry. apply ring_agree; [lia|done].
Qed.

(** ** Frames *)

Lemma word_agree m m' a : (forall x, a <= x < a + 4 -> m' !!! x = m !!! x) -> word m' a = word m a.
Proof. intros H. unfold word. by rewrite (read_bytes_agree m). Qed.

Lemma word_write m a v : 0 <= v < 2 ^ 32 -> word (write_bytes m a (le_bytes 4 v)) a = v.
Proof.
  intros Hv. unfold word. pose proof (read_write_bytes m a (le_bytes 4 v)) as E. rewrite length_le_bytes in E.
  change (Z.of_nat 4) with 4 in E. rewrite E, from_le_le_bytes. apply Z.mod_small. done.
Qed.

(** ** An accepted control block *)

Lemma guard_or_Ok b e : guard_or b e = Ok tt <-> b = true.
Proof. destruct b; cbn; split; congruence. Qed.

Lemma guard_bind {A} b e (k : unit -> result A) (x : A) : (guard_or b e ≫= k) = Ok x -> b = true /\ k tt = Ok x.
Proof. destruct b; cbn; intros H; [done|discriminate]. Qed.

Lemma guard_bind_true {A} b e (k : unit -> result A) : b = true -> (guard_or b e ≫= k) = k tt.
Proof. by intros ->. Qed.

Lemma check_side_Ok r buf size wr rd :
  check_side r buf size wr rd = Ok tt <->
  0 < size <= RTT_MAX_BUFFER_SIZE /\ ram_address r <= buf < ram_end r /\ buf + size <= ram_end r /\ wr < size /\ rd < size.
Proof.
  unfold check_side. split.
  - intros H. do 3 (apply guard_bind in H as [? H]). apply guard_or_Ok in H. lia.
  - intros H. rewrite !guard_bind_true by lia. apply guard_or_Ok. lia.
Qed.

(** Both channels present, everything in place. *)
Record accepted (r : ram) (mh mu md : memory) (cb : Z) (s s' : rtt) : Prop := {
  acc_magic : read_bytes mh cb RTT_MAGIC_LEN = RTT_MAGIC;
  acc_max_up : word mh (cb + 16) <= RTT_MAX_BUFFERS;
  acc_max_down : word mh (cb + 20) <= RTT_MAX_BUFFERS;
  acc_up_channel : 0 <= up_channel s < word mh (cb + 16);
  acc_down_channel : 0 <= down_channel s < word mh (cb + 20);
  acc_up : check_side r (word mu (up_desc_addr s' + 4)) (word mu (up_desc_addr s' + 8))
             (word mu (up_desc_addr s' + 12)) (word mu (up_desc_addr s' + 16)) = Ok tt;
  acc_down : check_side r (word md (down_desc_addr s' + 4)) (word md (down_desc_addr s' + 8))
             (word md (down_desc_addr s' + 12)) (word md (down_desc_addr s' + 16)) = Ok tt;
  acc_host :
    let ud := cb + RTT_HEADER_LEN + up_channel s * RTT_BUFFER_DESC_LEN in
    let dd := cb + RTT_HEADER_LEN + word mh (cb + 16) * RTT_BUFFER_DESC_LEN + down_channel s * RTT_BUFFER_DESC_LEN in
    s' = mkRtt (up_channel s) (down_channel s) (Some cb) (fixed_cb_addr s)
      (word mu (ud + 4)) (word mu (ud + 8)) (word mu (ud + 16)) ud (ud + 16)
      (Some (word mu (ud + 0), word mu (ud + 4), word mu (ud + 8), word mu (ud + 20)))
      (word md (dd + 4)) (word md (dd + 8)) (word md (dd + 12)) dd (dd + 16) (dd + 12)
      (Some (word md (dd + 0), word md (dd + 4), word md (dd + 8), word md (dd + 20)))
      (rx_queue s);
}.

Lemma word_at_desc m a i : 0 <= i < 6 -> word_at (read_bytes m a RTT_BUFFER_DESC_LEN) i = word m (a + 4 * i).
Proof. intros Hi. unfold RTT_BUFFER_DESC_LEN. by rewrite word_at_read_bytes by lia. Qed.

Lemma word_at_header m a i : 0 <= i < 6 -> word_at (read_bytes m a RTT_HEADER_LEN) i = word m (a + 4 * i).
Proof. intros Hi. change RTT_HEADER_LEN with 24. by rewrite word_at_read_bytes by lia. Qed.

Lemma header_magic m a : slice_to (read_bytes m a RTT_HEADER_LEN) RTT_MAGIC_LEN = read_bytes m a RTT_MAGIC_LEN.
Proof.
  change RTT_HEADER_LEN with (16 + 8). unfold RTT_MAGIC_LEN. rewrite slice_to_nonneg by done.
  unfold read_bytes. rewrite seqZ_app, fmap_app by done. apply take_app_length'.
  by rewrite length_fmap, length_seqZ.
Qed.

Lemma resolve_descriptors_Ok r mh mu md cb s s' :
  up_ref s' <> None -> down_ref s' <> None ->
  resolve_descriptors r mh mu md cb s = Ok s' <-> accepted r mh mu md cb s s'.
Proof.
  intros Hu Hd. unfold resolve_descriptors. cbv zeta. rewrite header_magic, !word_at_header by done.
  change (4 * 4) with 16. change (4 * 5) with 20. change (4 * 0) with 0. change (4 * 1) with 4.
  change (4 * 2) with 8. change (4 * 3) with 12. split.
  - intros H. do 5 (apply guard_bind in H as [? H]).
    destruct (0 <? word mh (cb + 16)) eqn:E1; [|apply bind_Ok in H as ([]&_&H); apply bind_Ok in H as ([]&_&H); by injection H as <-].
    destruct (0 <? word mh (cb + 20)) eqn:E2; [|apply bind_Ok in H as ([]&_&H); apply bind_Ok in H as ([]&_&H); by injection H as <-].
    apply bind_Ok in H as ([]&Hcu&H). apply bind_Ok in H as ([]&Hcd&H). injection H as <-.
    constructor; cbn [up_desc_addr down_desc_addr]; try done; try lia.
    match goal with H : bool_decide _ = true |- _ => by apply bool_decide_eq_true in H end.
  - intros [H1 H2 H3 H4 H5 H6 H7 H8]. cbn zeta in H8. rewrite H8 in H6, H7. cbn [up_desc_addr down_desc_addr] in H6, H7.
    rewrite !guard_bind_true by (apply bool_decide_eq_true_2 || lia; done).
    replace (0 <? word mh (cb + 16)) with true by lia. replace (0 <? word mh (cb + 20)) with true by lia.
    rewrite H6, H7. rewrite H8. done.
Qed.

(** The two ring buffers lie apart from each other and from the control block. *)
Definition apart (a n b k : Z) : Prop := a + n <= b \/ b + k <= a.

Record established (r : ram) (s0 : rtt) (m0 : memory) (cb : Z) : Prop := {
  est_resolved : resolve_descriptors r m0 m0 m0 cb s0 = Ok s0;
  est_fixed : fixed_cb_addr s0 = Some cb;
  est_up : up_ref s0 <> None;
  est_down : down_ref s0 <> None;
  est_mem : mem_ok m0;
  est_buffers : apart (up_buf_addr s0) (up_buf_size s0) (down_buf_addr s0) (down_buf_size s0);
  est_up_block : apart (up_buf_addr s0) (up_buf_size s0) cb (down_desc_addr s0 + RTT_BUFFER_DESC_LEN - cb);
  est_down_block : apart (down_buf_addr s0) (down_buf_size s0) cb (down_desc_addr s0 + RTT_BUFFER_DESC_LEN - cb);
}.

Lemma word_bound m a : mem_ok m -> 0 <= word m a.
Proof. intros Hm. unfold word. apply (from_le_bound (read_bytes m a 4)). by apply read_bytes_ok. Qed.

Lemma set_own_fields s : s = set_rx (rx_queue s) (set_rdoff (up_buf_rdoff s) (set_wroff (down_buf_wroff s) s)).
Proof. by destruct s. Qed.

Section invariant.
Context (r : ram) (s0 : rtt) (m0 : memory) (cb : Z) (E : established r s0 m0 cb).

Abbreviation U := (up_buf_size s0).
Abbreviation V := (down_buf_size s0).
Abbreviation off := (off s0).
Abbreviation write_off := (write_off s0).

Definition in_up (x : Z) : Prop := up_buf_addr s0 <= x < up_buf_addr s0 + U.
Definition in_down (x : Z) : Prop := down_buf_addr s0 <= x < down_buf_addr s0 + V.

(** What the firmware leaves alone once it is set up. *)
Definition fixed_part (x : Z) : Prop :=
  cb <= x < cb + 24 \/
  up_desc_addr s0 <= x < up_desc_addr s0 + 12 \/ up_desc_addr s0 + 20 <= x < up_desc_addr s0 + 24 \/
  down_desc_addr s0 <= x < down_desc_addr s0 + 12 \/ down_desc_addr s0 + 20 <= x < down_desc_addr s0 + 24.

Record good (m : memory) : Prop := {
  good_mem : mem_ok m;
  good_fixed : forall x, fixed_part x -> m !!! x = m0 !!! x;
  good_off : forall o, 0 <= off o m < offset_bound s0 o;
}.

(** The host differs from the established one in its queue and its two cached
    offsets. *)
Definition hosted (q : list Z) (rd wr : Z) : rtt := set_rx q (set_rdoff rd (set_wroff wr s0)).

Lemma host_accepted : accepted r m0 m0 m0 cb s0 s0.
Proof. apply resolve_descriptors_Ok; apply E. Qed.

Record layout : Prop := {
  lay_cb : cb_addr s0 = Some cb;
  lay_up_desc : cb + 24 <= up_desc_addr s0;
  lay_down_desc : up_desc_addr s0 + 24 <= down_desc_addr s0;
  lay_up_rd : up_desc_rdoff_addr s0 = up_desc_addr s0 + 16;
  lay_down_rd : down_desc_rdoff_addr s0 = down_desc_addr s0 + 16;
  lay_down_wr : down_desc_wroff_addr s0 = down_desc_addr s0 + 12;
  lay_up_size : 0 < U <= 65536;
  lay_down_size : 0 < V <= 65536;
  lay_buffers : apart (up_buf_addr s0) U (down_buf_addr s0) V;
  lay_up_block : apart (up_buf_addr s0) U cb (down_desc_addr s0 + 24 - cb);
  lay_down_block : apart (down_buf_addr s0) V cb (down_desc_addr s0 + 24 - cb);
}.

Lemma laid_out : layout.
Proof.
  pose proof host_accepted as [_ _ _ Hu Hd Hcu Hcd Hs]. apply check_side_Ok in Hcu, Hcd. cbn zeta in Hs.
  assert (forall {A} (f : rtt -> A), f s0 = f (mkRtt _ _ _ _ _ _ _ _ _ _ _ _ _ _ _ _ _ _)) as Hf
    by (intros A f; exact (f_equal f Hs)).
  pose proof (Hf _ up_desc_addr) as Hud. pose proof (Hf _ down_desc_addr) as Hdd.
  pose proof (Hf _ up_buf_size) as Hus. pose proof (Hf _ down_buf_size) as Hds.
  cbn [up_desc_addr down_desc_addr up_buf_size down_buf_size] in Hud, Hdd, Hus, Hds.
  rewrite <- Hud, <- Hdd in *. rewrite <- Hus in Hcu. rewrite <- Hds in Hcd.
  unfold RTT_HEADER_LEN, RTT_BUFFER_DESC_LEN, RTT_MAGIC_LEN, RTT_MAX_BUFFER_SIZE in *.
  constructor; try apply E; try (by rewrite Hs at 1); lia.
Qed.

Lemma good_start : good m0.
Proof.
  pose proof host_accepted as [_ _ _ _ _ Hu Hd Hs]. apply check_side_Ok in Hu, Hd. cbn zeta in Hs.
  pose proof laid_out as [_ _ _ L1 L2 L3 _ _ _ _ _]. pose proof (est_mem _ _ _ _ E) as Hm.
  pose proof (f_equal up_buf_size Hs) as Hus. pose proof (f_equal down_buf_size Hs) as Hds.
  pose proof (f_equal up_desc_addr Hs) as Hud. pose proof (f_equal down_desc_addr Hs) as Hdd.
  cbn [up_desc_addr down_desc_addr up_buf_size down_buf_size] in Hud, Hdd, Hus, Hds.
  rewrite <- Hud in Hus. rewrite <- Hdd in Hds. rewrite <- Hus in Hu. rewrite <- Hds in Hd.
  constructor; [done|done|]. intros o. unfold RttStreams.off. pose proof (word_bound m0 (offset_addr s0 o) Hm).
  destruct o; cbn [offset_addr offset_bound] in *; rewrite ?L1, ?L2, ?L3 in *; lia.
Qed.

Lemma word_fixed m a : good m -> (forall x, a <= x < a + 4 -> fixed_part x) -> word m a = word m0 a.
Proof. intros Hg Ha. apply word_agree. intros x Hx. apply Hg. auto. Qed.

(** The words of a descriptor, in a memory where the fixed part is kept. *)
Definition fixed_words (m : memory) (desc : Z) : Prop :=
  word m (desc + 0) = word m0 (desc + 0) /\ word m (desc + 4) = word m0 (desc + 4) /\
  word m (desc + 8) = word m0 (desc + 8) /\ word m (desc + 20) = word m0 (desc + 20).

Lemma desc_words m : good m -> fixed_words m (up_desc_addr s0) /\ fixed_words m (down_desc_addr s0).
Proof. intros Hg. split; repeat split; (apply word_fixed; [done|]; intros x Hx; unfold fixed_part; lia). Qed.

Record fields : Prop := {
  fld_up_desc : up_desc_addr s0 = cb + RTT_HEADER_LEN + up_channel s0 * RTT_BUFFER_DESC_LEN;
  fld_down_desc : down_desc_addr s0 =
    cb + RTT_HEADER_LEN + word m0 (cb + 16) * RTT_BUFFER_DESC_LEN + down_channel s0 * RTT_BUFFER_DESC_LEN;
  fld_up_buf : up_buf_addr s0 = word m0 (up_desc_addr s0 + 4);
  fld_up_size : U = word m0 (up_desc_addr s0 + 8);
  fld_down_buf : down_buf_addr s0 = word m0 (down_desc_addr s0 + 4);
  fld_down_size : V = word m0 (down_desc_addr s0 + 8);
  fld_up_ref : up_ref s0 = Some (word m0 (up_desc_addr s0 + 0), up_buf_addr s0, U, word m0 (up_desc_addr s0 + 20));
  fld_down_ref : down_ref s0 =
    Some (word m0 (down_desc_addr s0 + 0), down_buf_addr s0, V, word m0 (down_desc_addr s0 + 20));
  fld_up_rd : up_buf_rdoff s0 = off UpRd m0;
  fld_down_wr : down_buf_wroff s0 = off DownWr m0;
}.

Lemma host_fields : fields.
Proof.
  pose proof (acc_host _ _ _ _ _ _ _ host_accepted) as Hs. cbn zeta in Hs.
  pose proof (f_equal up_desc_addr Hs) as Hud. pose proof (f_equal down_desc_addr Hs) as Hdd.
  cbn [up_desc_addr down_desc_addr] in Hud, Hdd. rewrite <- Hud, <- Hdd in Hs.
  assert (up_buf_addr s0 = word m0 (up_desc_addr s0 + 4)) as H1 by exact (f_equal up_buf_addr Hs).
  assert (U = word m0 (up_desc_addr s0 + 8)) as H2 by exact (f_equal up_buf_size Hs).
  assert (down_buf_addr s0 = word m0 (down_desc_addr s0 + 4)) as H3 by exact (f_equal down_buf_addr Hs).
  assert (V = word m0 (down_desc_addr s0 + 8)) as H4 by exact (f_equal down_buf_size Hs).
  constructor; try done.
  - rewrite H1, H2. exact (f_equal up_ref Hs).
  - rewrite H3, H4. exact (f_equal down_ref Hs).
  - unfold RttStreams.off. cbn [offset_addr]. rewrite (lay_up_rd laid_out). exact (f_equal up_buf_rdoff Hs).
  - unfold RttStreams.off. cbn [offset_addr]. rewrite (lay_down_wr laid_out). exact (f_equal down_buf_wroff Hs).
Qed.

Lemma resolve_again q rd wr mh mu md :
  good mh -> good mu -> good md ->
  resolve_descriptors r mh mu md cb (hosted q rd wr) = Ok (hosted q (off UpRd mu) (off DownWr md)).
Proof.
  intros Hh Hu Hd. pose proof laid_out as [L0 L1 L2 L3 L4 L5 _ _ _ _ _].
  pose proof host_accepted as [A1 A2 A3 A4 A5 A6 A7 _]. destruct host_fields as [F1 F2 F3 F4 F5 F6 F7 F8 _ _].
  assert (word mh (cb + 16) = word m0 (cb + 16)) as W1 by (apply word_fixed; [done|]; intros x Hx; unfold fixed_part; lia).
  assert (word mh (cb + 20) = word m0 (cb + 20)) as W2 by (apply word_fixed; [done|]; intros x Hx; unfold fixed_part; lia).
  destruct (desc_words mu Hu) as [(U1&U2&U3&U4) _]. destruct (desc_words md Hd) as [_ (D1&D2&D3&D4)].
  apply check_side_Ok in A6, A7.
  pose proof (good_off _ Hu UpRd) as B1. pose proof (good_off _ Hu UpWr) as B2.
  pose proof (good_off _ Hd DownRd) as B3. pose proof (good_off _ Hd DownWr) as B4.
  unfold RttStreams.off in B1, B2, B3, B4. cbn [offset_addr offset_bound] in B1, B2, B3, B4.
  rewrite L3 in B1. rewrite L4 in B3. rewrite L5 in B4.
  apply resolve_descriptors_Ok; [apply E..|].
  constructor; cbn [hosted set_rx set_rdoff set_wroff up_channel down_channel up_desc_addr down_desc_addr].
  - rewrite <- A1. apply read_bytes_agree. intros x Hx. apply Hh. unfold fixed_part, RTT_MAGIC_LEN in *. lia.
  - by rewrite W1.
  - by rewrite W2.
  - by rewrite W1.
  - by rewrite W2.
  - apply check_side_Ok. rewrite U2, U3. rewrite <- F3, <- F4 in *. lia.
  - apply check_side_Ok. rewrite D2, D3. rewrite <- F5, <- F6 in *. lia.
  - rewrite W1, <- F1, <- F2, U1, U2, U3, U4, D1, D2, D3, D4.
    rewrite <- F3, <- F4, <- F5, <- F6, <- F7, <- F8, <- L0, <- L3, <- L4, <- L5. done.
Qed.

Lemma validate_again q rd wr mm mu md :
  good mm -> good mu -> good md ->
  poll_validate (hosted q rd wr) (snapshot (hosted q rd wr) mm mu md) =
    if (off UpRd mu =? rd) && (off DownWr md =? wr)
    then Ok (if off UpWr mu =? rd then None else Some (off UpWr mu))
    else Err RttError.
Proof.
  intros Hm Hu Hd. pose proof laid_out as [L0 L1 L2 L3 L4 L5 _ _ _ _ _].
  destruct host_fields as [F1 F2 F3 F4 F5 F6 F7 F8 _ _].
  pose proof (good_off _ Hu UpWr) as B2. pose proof (good_off _ Hd DownRd) as B3.
  assert (read_bytes mm cb RTT_MAGIC_LEN = RTT_MAGIC) as Hmagic.
  { rewrite <- (acc_magic _ _ _ _ _ _ _ host_accepted). apply read_bytes_agree. intros x Hx. apply Hm.
    unfold fixed_part, RTT_MAGIC_LEN in *. lia. }
  unfold poll_validate, snapshot, validate_magic, validate_up_descriptor, validate_down_descriptor, hosted, set_rx, set_rdoff, set_wroff.
  cbn [cb_addr up_desc_addr down_desc_addr up_ref down_ref up_buf_rdoff down_buf_wroff].
  rewrite !word_at_desc by done. rewrite L0, Hmagic, F7, F8, (bool_decide_eq_true_2 (RTT_MAGIC = RTT_MAGIC)) by done.
  change (4 * 0) with 0. change (4 * 1) with 4. change (4 * 2) with 8. change (4 * 3) with 12. change (4 * 4) with 16.
  change (4 * 5) with 20.
  destruct (desc_words mu Hu) as [(U1&U2&U3&U4) _]. destruct (desc_words md Hd) as [_ (D1&D2&D3&D4)].
  rewrite U1, U2, U3, U4, D1, D2, D3, D4, <- F3, <- F4, <- F5, <- F6.
  rewrite !bool_decide_eq_true_2 by done. unfold RttStreams.off in *. cbn [offset_addr offset_bound] in *.
  rewrite L3, L4, L5 in *. cbn [guard_or].
  replace (U <=? word mu (up_desc_addr s0 + 12)) with false by lia.
  replace (V <=? word md (down_desc_addr s0 + 16)) with false by lia. cbn.
  destruct (word mu (up_desc_addr s0 + 16) =? rd), (word md (down_desc_addr s0 + 12) =? wr); done.
Qed.

(** *** What a write leaves alone *)

Lemma offset_in_block o : cb + 24 <= offset_addr s0 o /\ offset_addr s0 o + 4 <= down_desc_addr s0 + 24.
Proof. pose proof laid_out as [_ L1 L2 L3 L4 L5 _ _ _ _ _]. destruct o; cbn [offset_addr]; lia. Qed.

Lemma offset_bound_word o v : 0 <= v < offset_bound s0 o -> 0 <= v < 2 ^ 32.
Proof. pose proof laid_out as [_ _ _ _ _ _ L1 L2 _ _ _]. destruct o; cbn [offset_bound]; lia. Qed.

Lemma write_off_out o v m x : x < offset_addr s0 o \/ offset_addr s0 o + 4 <= x -> write_off o v m !!! x = m !!! x.
Proof. intros Hx. unfold RttStreams.write_off. apply write_bytes_out. rewrite length_le_bytes. lia. Qed.

Lemma off_write_off o v m o' :
  0 <= v < offset_bound s0 o -> off o' (write_off o v m) = if decide (o = o') then v else off o' m.
Proof.
  intros Hv%offset_bound_word. pose proof laid_out as [_ L1 L2 L3 L4 L5 _ _ _ _ _].
  destruct (decide (o = o')) as [<-|Hne].
  - by apply word_write.
  - apply word_agree. intros x Hx. apply write_off_out. destruct o, o'; try done; cbn [offset_addr] in *; lia.
Qed.

Lemma good_write_off o v m : good m -> 0 <= v < offset_bound s0 o -> good (write_off o v m).
Proof.
  intros Hg Hv. pose proof laid_out as [_ L1 L2 L3 L4 L5 _ _ _ _ _]. constructor.
  - apply write_bytes_ok; [apply Hg|apply le_bytes_ok].
  - intros x Hx. rewrite <- (good_fixed _ Hg x Hx). apply write_off_out.
    unfold fixed_part in Hx. destruct o; cbn [offset_addr]; lia.
  - intros o'. rewrite off_write_off by done. destruct (decide (o = o')) as [<-|]; [done|]. apply Hg.
Qed.

Lemma buffers_write_off o v m x : in_up x \/ in_down x -> write_off o v m !!! x = m !!! x.
Proof.
  intros Hx. apply write_off_out. pose proof (offset_in_block o). unfold in_up, in_down in Hx.
  pose proof (lay_up_block laid_out) as L1. pose proof (lay_down_block laid_out) as L2. unfold apart in *. lia.
Qed.

Lemma frame_block m m' :
  good m -> mem_ok m' -> (forall x, cb <= x < down_desc_addr s0 + 24 -> m' !!! x = m !!! x) ->
  good m' /\ forall o, off o m' = off o m.
Proof.
  intros Hg Hm' Heq. pose proof laid_out as [_ L1 L2 _ _ _ _ _ _ _ _].
  assert (forall o, off o m' = off o m) as Hoff.
  { intros o. apply word_agree. intros x Hx. pose proof (offset_in_block o). apply Heq. lia. }
  split; [|done]. constructor; [done| |].
  - intros x Hx. rewrite Heq; [by apply Hg|]. unfold fixed_part in Hx. lia.
  - intros o. rewrite Hoff. apply Hg.
Qed.

Lemma put_frame m x b :
  good m -> in_up x -> is_byte b ->
  good (<[x := b]> m) /\ (forall o, off o (<[x := b]> m) = off o m) /\ forall y, in_down y -> <[x := b]> m !!! y = m !!! y.
Proof.
  intros Hg Hx Hb. pose proof (lay_up_block laid_out) as L1. pose proof (lay_buffers laid_out) as L2.
  unfold apart, in_up, in_down in *.
  destruct (frame_block m (<[x := b]> m)) as [H1 H2]; [done| | |].
  - intros y. destruct (decide (x = y)) as [<-|]; [by rewrite lookup_total_insert_eq|].
    rewrite lookup_total_insert_ne by done. apply Hg.
  - intros y Hy. rewrite lookup_total_insert_ne by lia. done.
  - split; [done|]. split; [done|]. intros y Hy. rewrite lookup_total_insert_ne by lia. done.
Qed.

(** Writes of the host stay inside the DOWN buffer. *)
Definition inside (p : Z * list Z) : Prop :=
  bytes_ok p.2 /\ down_buf_addr s0 <= p.1 /\ p.1 + zlen p.2 <= down_buf_addr s0 + V.

Lemma push_frame m p :
  good m -> inside p ->
  good (write_bytes m p.1 p.2) /\ (forall o, off o (write_bytes m p.1 p.2) = off o m) /\
  forall y, in_up y -> write_bytes m p.1 p.2 !!! y = m !!! y.
Proof.
  intros Hg (Hb&H1&H2). pose proof (lay_down_block laid_out) as L1. pose proof (lay_buffers laid_out) as L2.
  unfold apart, in_up in *.
  destruct (frame_block m (write_bytes m p.1 p.2)) as [H3 H4]; [done| | |].
  - apply write_bytes_ok; [apply Hg|done].
  - intros y Hy. apply write_bytes_out. lia.
  - split; [done|]. split; [done|]. intros y Hy. apply write_bytes_out. lia.
Qed.

Lemma up_window x p l : x ∈ window (up_buf_addr s0) U p l -> in_up x.
Proof. apply window_bound. apply laid_out. Qed.

Lemma down_window x p l : x ∈ window (down_buf_addr s0) V p l -> in_down x.
Proof. apply window_bound. apply laid_out. Qed.

(** The requests of the host are windows of the rings. *)
Lemma drain_window q rd wr w :
  0 <= rd < U -> 0 <= w < U -> w <> rd ->
  (drain_requests w (hosted q rd wr) ≫= fun p => seqZ p.1 p.2) = window (up_buf_addr s0) U rd (used U w rd).
Proof.
  intros Hrd Hw Hne. unfold drain_requests, hosted, set_rx, set_rdoff, set_wroff. cbn [up_buf_rdoff up_buf_size up_buf_addr].
  rewrite used_wrap by done. destruct (rd <? w) eqn:Hlt; cbn.
  - apply Z.ltb_lt in Hlt. rewrite (proj2 (Z.leb_le rd w)) by lia. rewrite app_nil_r, window_seqZ by lia. done.
  - apply Z.ltb_ge in Hlt. rewrite (proj2 (Z.leb_gt rd w)) by lia. rewrite app_nil_r, window_two by lia.
    do 2 f_equal. lia.
Qed.

Lemma free_space q rd wr rd' :
  0 <= wr < V -> 0 <= rd' < V -> down_free_space rd' (hosted q rd wr) = V - 1 - used V wr rd'.
Proof.
  intros Hw Hr. unfold down_free_space, hosted, set_rx, set_rdoff, set_wroff. cbn [down_buf_size down_buf_wroff].
  rewrite used_wrap by done. destruct (wr <? rd') eqn:Hlt.
  - apply Z.ltb_lt in Hlt. rewrite (proj2 (Z.leb_gt rd' wr)) by lia. lia.
  - apply Z.ltb_ge in Hlt. rewrite (proj2 (Z.leb_le rd' wr)) by lia. lia.
Qed.

Lemma push_window q rd wr c :
  0 <= wr < V -> zlen c < V -> bytes_ok c ->
  Forall inside (push_requests c (hosted q rd wr)) /\
  (push_requests c (hosted q rd wr) ≫= fun p => zip (seqZ p.1 (zlen p.2)) p.2)
  = zip (window (down_buf_addr s0) V wr (zlen c)) c.
Proof.
  intros Hw Hc Hb. unfold push_requests, hosted, set_rx, set_rdoff, set_wroff. cbn [down_buf_size down_buf_wroff down_buf_addr].
  destruct (wr + zlen c <=? V) eqn:Hle.
  - apply Z.leb_le in Hle. split.
    + constructor; [|done]. split; [done|]. cbn. lia.
    + cbn. by rewrite app_nil_r, window_seqZ by lia.
  - apply Z.leb_gt in Hle. rewrite slice_to_nonneg, slice_from_nonneg by lia. split.
    + constructor; [|constructor; [|done]]; (split; [by apply Forall_take || by apply Forall_drop|]); cbn;
        rewrite ?length_take, ?length_drop; lia.
    + cbn. rewrite app_nil_r, window_two by lia. rewrite length_take, length_drop.
      set (k := Z.to_nat (V - wr)). rewrite <- (zip_with_app pair _ _ (take k c) (drop k c)), take_drop.
      * do 2 f_equal; f_equal; unfold k; lia.
      * rewrite length_seqZ, length_take. unfold k. lia.
Qed.

(** *** The UP stream *)

Definition pump_ok (rd : Z) (m : memory) (p : pump) : Prop :=
  match p with
  | Sampling l =>
      rd = off UpRd m /\
      Forall (fun m' => good m' /\ off UpRd m' = rd /\ used U (off UpWr m') rd <= up_used s0 m) l
  | Draining w todo d =>
      rd = off UpRd m /\ 0 <= w < U /\ w <> rd /\ used U w rd <= up_used s0 m /\
      exists done, done ++ (todo ≫= fun p => seqZ p.1 p.2) = window (up_buf_addr s0) U rd (used U w rd) /\
        d = (fun a => m !!! a) <$> done
  | Written w _ => w = off UpRd m
  | Establishing l => Forall (fun m' => good m' /\ off UpRd m' = off UpRd m) l
  end.

Definition writer_ok (w : writer) : Prop :=
  match w with
  | Idle => True
  | Asking rem => bytes_ok rem
  | Told rd rem => 0 <= rd < V /\ bytes_ok rem
  | Pushing todo w _ rem => Forall inside todo /\ 0 <= w < V /\ bytes_ok rem
  | Committing w _ rem => 0 <= w < V /\ bytes_ok rem
  end.

Definition inv (x : sys) : Prop :=
  exists q rd wr,
    host x = hosted q rd wr /\ 0 <= rd < U /\ 0 <= wr < V /\ good (mem x) /\
    pump_ok rd (mem x) (pump_at x) /\ writer_ok (writer_at x) /\
    emitted x = delivered x ++ q ++ in_flight (pump_at x) ++ up_pending s0 (mem x).

(** A change of the memory that the reader's side of the UP ring does not see. *)
Record keeps (m m' : memory) : Prop := {
  keeps_rd : off UpRd m' = off UpRd m;
  keeps_used : up_used s0 m <= up_used s0 m';
  keeps_data : forall x, x ∈ window (up_buf_addr s0) U (off UpRd m) (up_used s0 m) -> m' !!! x = m !!! x;
}.

Lemma window_le p k l x : k <= l -> x ∈ window (up_buf_addr s0) U p k -> x ∈ window (up_buf_addr s0) U p l.
Proof. rewrite !elem_of_window. intros Hk (i&Hi&->). exists i. split; [lia|done]. Qed.

Lemma pump_keeps rd m m' p : keeps m m' -> pump_ok rd m p -> pump_ok rd m' p.
Proof.
  intros [K1 K2 K3]. destruct p as [l|w todo d|w d|l]; cbn; rewrite K1.
  - intros [-> Hl]. split; [done|]. eapply Forall_impl; [exact Hl|]. cbn. intros m1 (H1&H2&H3). repeat split; try apply H1; lia.
  - intros (->&H2&H3&H4&done&H5&->). repeat split; try lia. exists done. split; [done|]. symmetry. apply fmap_agree.
    intros x Hx. apply K3. apply (window_le _ (used U w (off UpRd m))); [done|]. rewrite <- H5. apply elem_of_app. by left.
  - done.
  - done.
Qed.

Lemma pending_keeps m m' : keeps m m' -> up_used s0 m' = up_used s0 m -> up_pending s0 m' = up_pending s0 m.
Proof. intros [K1 K2 K3] Hu. unfold up_pending, ring. rewrite K1, Hu. by apply fmap_agree. Qed.

(** Everything the host writes, but for RdOff, and the firmware's reads. *)
Lemma keeps_of m m' :
  off UpRd m' = off UpRd m -> off UpWr m' = off UpWr m -> (forall x, in_up x -> m' !!! x = m !!! x) ->
  keeps m m' /\ up_pending s0 m' = up_pending s0 m.
Proof.
  intros H1 H2 H3. assert (up_used s0 m' = up_used s0 m) as Hu by (unfold up_used; by rewrite H1, H2).
  assert (keeps m m') as K; [|split; [done|by apply pending_keeps]].
  constructor; [done|lia|]. intros x Hx%up_window. by apply H3.
Qed.

Lemma put_keeps m i b :
  good m -> 0 <= i < U - 1 - up_used s0 m ->
  let m' := <[up_buf_addr s0 + (off UpWr m + i) mod U := b]> m in
  off UpRd m' = off UpRd m -> off UpWr m' = off UpWr m -> keeps m m' /\ up_pending s0 m' = up_pending s0 m.
Proof.
  intros Hg Hi m' H1 H2. assert (up_used s0 m' = up_used s0 m) as Hu by (unfold up_used; by rewrite H1, H2).
  assert (keeps m m') as K; [|split; [done|by apply pending_keeps]].
  constructor; [done|lia|]. intros x (j&Hj&->)%elem_of_window. unfold m'. rewrite lookup_total_insert_ne; [done|].
  pose proof (good_off _ Hg UpRd) as B1. pose proof (good_off _ Hg UpWr) as B2. cbn [offset_bound] in B1, B2.
  rewrite <- (used_end U (off UpWr m) (off UpRd m)) at 1 by done. fold (up_used s0 m).
  rewrite Zplus_mod_idemp_l. intros Heq. rewrite <- Z.add_assoc in Heq.
  apply (window_slots (up_buf_addr s0) U (off UpRd m)) in Heq; lia.
Qed.

Lemma publish_pending m n :
  good m -> 0 <= n <= U - 1 - up_used s0 m ->
  let m' := write_off UpWr ((off UpWr m + n) mod U) m in
  good m' /\ keeps m m' /\ up_pending s0 m' = up_pending s0 m ++ ring m (up_buf_addr s0) U (off UpWr m) n.
Proof.
  intros Hg Hn m'. pose proof (lay_up_size laid_out) as LU.
  assert (0 <= (off UpWr m + n) mod U < offset_bound s0 UpWr) as Hb by (cbn [offset_bound]; apply Z.mod_pos_bound; lia).
  assert (off UpRd m' = off UpRd m) as H1 by (unfold m'; by rewrite off_write_off).
  assert (up_used s0 m' = up_used s0 m + n) as Hu.
  { unfold up_used. rewrite H1. unfold m'. rewrite off_write_off by done. cbn. apply used_publish; [lia| |lia].
    fold (up_used s0 m). lia. }
  assert (forall x, in_up x -> m' !!! x = m !!! x) as Hx by (intros x Hx; apply buffers_write_off; by left).
  split; [by apply good_write_off|]. split.
  - constructor; [done|lia|]. intros x Hw%up_window. by apply Hx.
  - pose proof (good_off _ Hg UpWr) as B2. cbn [offset_bound] in B2. unfold up_pending, up_used. rewrite H1.
    unfold m' at 2. rewrite off_write_off by done. cbn. apply ring_publish; [done|lia| |done].
    fold (up_used s0 m). lia.
Qed.

Lemma hosted_self : s0 = hosted (rx_queue s0) (off UpRd m0) (off DownWr m0).
Proof. rewrite <- (fld_up_rd host_fields), <- (fld_down_wr host_fields). apply set_own_fields. Qed.

Lemma inv_start : inv (start s0 m0).
Proof.
  pose proof (good_off _ good_start UpRd) as B1. pose proof (good_off _ good_start DownWr) as B2.
  exists (rx_queue s0), (off UpRd m0), (off DownWr m0).
  split; [apply hosted_self|]. do 2 (split; [done|]). split; [apply good_start|]. split; [by split|]. by split.
Qed.

(** Reading the whole of a drain. *)
Lemma drained_data m w rd d :
  (exists done, done ++ (([] : list (Z * Z)) ≫= fun p => seqZ p.1 p.2) = window (up_buf_addr s0) U rd (used U w rd) /\
     d = (fun a => m !!! a) <$> done) -> d = ring m (up_buf_addr s0) U rd (used U w rd).
Proof. intros (done&H&->). cbn in H. rewrite app_nil_r in H. by rewrite H. Qed.

Lemma writeback_pending m w d :
  good m -> 0 <= w < U -> used U w (off UpRd m) <= up_used s0 m ->
  d = ring m (up_buf_addr s0) U (off UpRd m) (used U w (off UpRd m)) ->
  up_pending s0 m = d ++ up_pending s0 (write_off UpRd w m).
Proof.
  intros Hg Hw Hle ->. pose proof (lay_up_size laid_out) as LU. pose proof (good_off _ Hg UpRd) as B. cbn [offset_bound] in B.
  assert (off UpRd (write_off UpRd w m) = w) as H1 by by rewrite off_write_off.
  assert (off UpWr (write_off UpRd w m) = off UpWr m) as H2 by by rewrite off_write_off.
  pose proof (good_off _ Hg UpWr) as B2. cbn [offset_bound] in B2. pose proof (used_bound U w (off UpRd m) ltac:(lia)).
  pose proof (used_end U w (off UpRd m) Hw) as He.
  unfold up_pending, up_used. rewrite H1, H2. rewrite <- He at 3 4.
  apply ring_take; [done|split; [lia|done]|]. intros x Hx. apply buffers_write_off. by left.
Qed.

Lemma inv_pump e x y : inv x -> fire_pump r e x = Some y -> inv y.
Proof.
  intros (q&rd&wr&Hh&Hrd&Hwr&Hg&Hp&Hw&Hs) Hf. unfold fire_pump in Hf.
  destruct e; try discriminate; destruct (pump_at x) as [l|w todo d|w d|l] eqn:Ep; try discriminate; cbn [pump_ok in_flight] in *.
  - (* Sample *) destruct Hp as [-> Hl]. case_match; [|discriminate]. injection Hf as <-.
    exists q, (off UpRd (mem x)), wr. do 4 (split; [done|]). split; [|split; [exact Hw|exact Hs]]. cbn. split; [done|].
    apply Forall_app. split; [done|]. constructor; [|done]. split; [done|]. split; [done|]. unfold up_used. lia.
  - (* Validate *) destruct Hp as [-> Hl]. destruct l as [|mm [|mu [|md [|]]]]; try discriminate.
    apply Forall_cons in Hl as [(G1&_) Hl]. apply Forall_cons in Hl as [(G2&R2&W2) Hl]. apply Forall_cons in Hl as [(G3&R3&_) _].
    rewrite Hh, validate_again in Hf by done.
    destruct ((_ =? _) && _); [destruct (off UpWr mu =? _) eqn:En|]; injection Hf as <-.
    + exists q, (off UpRd (mem x)), wr. do 4 (split; [done|]). split; [by split|]. split; [exact Hw|exact Hs].
    + apply Z.eqb_neq in En. exists q, (off UpRd (mem x)), wr. do 4 (split; [done|]). split; [|split; [exact Hw|exact Hs]]. cbn.
      split; [done|]. split; [apply (good_off _ G2 UpWr)|]. split; [done|]. split; [done|].
      exists []. cbn. split; [|done]. apply drain_window; [done|apply (good_off _ G2 UpWr)|done].
    + exists q, (off UpRd (mem x)), wr. split; [|do 3 (split; [done|]); split; [by constructor|split; [exact Hw|exact Hs]]].
      cbn. unfold hosted, set_cb, set_rx, set_rdoff, set_wroff. cbn.
      by rewrite (est_fixed _ _ _ _ E), (lay_cb laid_out).
  - (* DrainRead *) destruct Hp as (->&H2&H3&H4&done&H5&->). destruct todo as [|[a n] todo]; [discriminate|]. injection Hf as <-.
    exists q, (off UpRd (mem x)), wr. do 4 (split; [done|]). split; [|split; [exact Hw|exact Hs]]. cbn.
    repeat (split; [done|]). exists (done ++ seqZ a n). rewrite <- H5. cbn. rewrite <- app_assoc. split; [done|].
    by rewrite fmap_app.
  - (* WriteBack *) destruct Hp as (->&H2&H3&H4&H5). destruct todo; [|discriminate]. apply drained_data in H5.
    assert (writeback w (host x) (mem x) = write_off UpRd w (mem x)) as Ew by by rewrite Hh.
    rewrite Ew in Hf. injection Hf as <-.
    exists q, (off UpRd (mem x)), wr. cbn [on_pump host mem pump_at writer_at emitted delivered pump_ok in_flight]. do 3 (split; [done|]). split; [by apply good_write_off|].
    split; [by rewrite off_write_off|]. split; [done|]. rewrite Hs. cbn. by rewrite (writeback_pending _ w d).
  - (* Drained *) subst w. injection Hf as <-. exists (q ++ d), (off UpRd (mem x)), wr. cbn. rewrite Hh.
    split; [done|]. split; [apply (good_off _ Hg UpRd)|]. do 2 (split; [done|]). split; [done|]. split; [done|].
    rewrite Hs. cbn. by rewrite <- !app_assoc.
  - (* ResolveRead *) case_match; [|discriminate]. injection Hf as <-.
    exists q, rd, wr. do 4 (split; [done|]). split; [|split; [exact Hw|exact Hs]]. cbn.
    apply Forall_app. split; [done|]. by constructor.
  - (* Resolve *) destruct l as [|mh [|mu [|md [|]]]]; try discriminate.
    apply Forall_cons in Hp as [(G1&_) Hl]. apply Forall_cons in Hl as [(G2&R2) Hl]. apply Forall_cons in Hl as [(G3&R3) _].
    rewrite Hh in Hf. change (cb_addr (hosted q rd wr)) with (cb_addr s0) in Hf. rewrite (lay_cb laid_out) in Hf.
    rewrite resolve_again in Hf by done. injection Hf as <-.
    exists q, (off UpRd mu), (off DownWr md). cbn. split; [done|]. split; [apply (good_off _ G2 UpRd)|].
    split; [apply (good_off _ G3 DownWr)|]. split; [done|]. split; [done|]. split; [exact Hw|exact Hs].
Qed.

Lemma chunk_bounds q rd wr rd' (rem : list Z) :
  0 <= wr < V -> 0 <= rd' < V -> let c := slice_to rem (down_free_space rd' (hosted q rd wr)) in
  zlen c <= V - 1 - used V wr rd' /\ zlen c < V /\ rem = c ++ slice_from rem (zlen c).
Proof.
  intros Hw Hr c. pose proof (lay_down_size laid_out) as LV. pose proof (used_bound V wr rd' ltac:(lia)) as Hu.
  unfold c. rewrite free_space by done. set (f := V - 1 - used V wr rd') in *.
  rewrite slice_to_nonneg by lia. rewrite length_take, slice_from_nonneg by lia. split; [lia|]. split; [lia|].
  rewrite Nat2Z.id. rewrite <- (take_drop (Z.to_nat f `min` length rem) rem) at 1. f_equal.
  destruct (decide (Z.to_nat f <= length rem)%nat) as [H|H]; [by rewrite Nat.min_l|].
  rewrite Nat.min_r, !take_ge by lia. done.
Qed.

(** The writer and the firmware change nothing the pump's side relies on. *)
Lemma inv_keeps x y :
  inv x -> host y = host x -> pump_at y = pump_at x -> emitted y = emitted x -> delivered y = delivered x ->
  good (mem y) -> writer_ok (writer_at y) ->
  keeps (mem x) (mem y) /\ up_pending s0 (mem y) = up_pending s0 (mem x) -> inv y.
Proof.
  intros (q&rd&wr&Hh&Hrd&Hwr&Hg&Hp&Hw&Hs) E1 E2 E3 E4 G W [K P].
  exists q, rd, wr. rewrite E1, E2, E3, E4, P. do 4 (split; [done|]). split; [by apply (pump_keeps rd (mem x))|]. done.
Qed.

Lemma keeps_refl m : keeps m m /\ up_pending s0 m = up_pending s0 m.
Proof. split; [|done]. by constructor. Qed.

Lemma inv_writer e x y : inv x -> fire_writer e x = Some y -> inv y.
Proof.
  intros Hi Hf. pose proof Hi as (q&rd&wr&Hh&Hrd&Hwr&Hg&Hp&Hw&Hs). unfold fire_writer in Hf.
  destruct e; try discriminate; destruct (writer_at x) as [|rem|rd' rem|todo w c rem|w c rem] eqn:Ew; try discriminate; cbn [writer_ok] in Hw.
  - (* Write *) destruct (_ && bool_decide (bytes_ok data) && _ && _) eqn:Hc; [|discriminate]. injection Hf as <-.
    apply (inv_keeps x); try done; try apply keeps_refl. cbn. rewrite !andb_true_iff in Hc. destruct Hc as [[[_ Hb] _] _].
    by apply bool_decide_eq_true in Hb.
  - (* AskSpace *) injection Hf as <-. apply (inv_keeps x); try done; try apply keeps_refl. cbn. split; [|done].
    rewrite Hh. apply (good_off _ Hg DownRd).
  - (* Choose *) destruct Hw as [Hr Hb]. rewrite Hh in Hf. pose proof (chunk_bounds q rd wr rd' rem Hwr Hr) as (C1&C2&C3).
    destruct (_ =? 0); injection Hf as <-; (apply (inv_keeps x); try done; try apply keeps_refl).
    cbn [on_writer writer_at writer_ok].
    set (c := slice_to _ _) in *. assert (bytes_ok c) as Hcb by (rewrite C3 in Hb; by apply Forall_app in Hb as [? _]).
    split; [by apply push_window|]. split; [|done]. unfold push_offset. apply Z.mod_pos_bound. apply laid_out.
  - (* PushWrite *) destruct todo as [|[a d] todo]; [discriminate|]. injection Hf as <-. destruct Hw as (Hin&Hw1&Hb).
    apply Forall_cons in Hin as [Hin Hrest]. destruct (push_frame _ _ Hg Hin) as (F1&F2&F3).
    apply (inv_keeps x); try done. by apply keeps_of.
  - (* PushDone *) destruct todo; [|discriminate]. injection Hf as <-. destruct Hw as (_&Hw1&Hb).
    exists q, rd, w. cbn [on_writer host mem pump_at writer_at emitted delivered]. rewrite Hh. by repeat (split; [done|]).
  - (* Commit *) destruct Hw as (Hw1&Hb). assert (push_commit w (host x) (mem x) = write_off DownWr w (mem x)) as Ec by by rewrite Hh.
    rewrite Ec in Hf. injection Hf as <-. apply (inv_keeps x); try done.
    + by apply good_write_off.
    + cbn. case_match; [done|]. unfold slice_from. by apply Forall_drop.
    + cbn [on_writer mem]. apply keeps_of; [by rewrite off_write_off..|]. intros z Hz. apply buffers_write_off. by left.
Qed.

Lemma inv_target e x y : inv x -> fire_target s0 e x = Some y -> inv y.
Proof.
  intros Hi Hf. pose proof Hi as (q&rd&wr&Hh&Hrd&Hwr&Hg&Hp&Hw&Hs). pose proof laid_out as L. unfold fire_target in Hf.
  destruct e as [| | | | | | | | | | | | | |i b|n|n]; try discriminate; (destruct (_ && _) eqn:Hc; [|discriminate]); injection Hf as <-.
  - (* Put *) rewrite !andb_true_iff in Hc. destruct Hc as [[H1 H2] Hb]. apply bool_decide_eq_true in Hb.
    destruct (put_frame (mem x) (up_buf_addr s0 + (off UpWr (mem x) + i) mod U) b) as (F1&F2&F3); [done| |done|].
    { unfold in_up. pose proof (Z.mod_pos_bound (off UpWr (mem x) + i) U (proj1 (lay_up_size L))). lia. }
    apply (inv_keeps x); try done. apply put_keeps; [done|lia|by rewrite F2..].
  - (* Publish *) destruct (publish_pending (mem x) n Hg ltac:(lia)) as (G&K&P).
    exists q, rd, wr. cbn [host mem pump_at writer_at emitted delivered]. do 4 (split; [done|]).
    split; [by apply (pump_keeps rd (mem x))|]. split; [done|]. rewrite P, Hs. by rewrite <- !app_assoc.
  - (* Take *) assert (0 <= (off DownRd (mem x) + n) mod V < offset_bound s0 DownRd) as Hb
      by (apply Z.mod_pos_bound; apply L).
    apply (inv_keeps x); try done; [by apply good_write_off|].
    cbn [on_writer mem]. apply keeps_of; [by rewrite off_write_off..|]. intros z Hz. apply buffers_write_off. by left.
Qed.

Lemma slice_split {A} (l : list A) n : slice_to l n ++ slice_from l n = l.
Proof. unfold slice_to, slice_from. apply take_drop. Qed.

Lemma deliver_splits q s d s' :
  deliver q s = Ok (Some (d, s')) -> exists rest, rx_queue s = d ++ rest /\ s' = set_rx rest s.
Proof.
  unfold deliver. repeat case_match; intros H'; try discriminate; injection H' as <- <-; eexists; (split; [|done]);
    by rewrite slice_split.
Qed.

Lemma inv_fire e x y : inv x -> fire r s0 e x = Some y -> inv y.
Proof.
  intros Hi Hf. destruct e; cbn [fire] in Hf;
    try (by eapply inv_pump); try (by eapply inv_writer); try (by eapply inv_target).
  destruct Hi as (qu&rd&wr&Hh&Hrd&Hwr&Hg&Hp&Hw&Hs).
  destruct (deliver q (host x)) as [[[d h]|]|] eqn:Ed; try discriminate. injection Hf as <-.
  apply deliver_splits in Ed as (rest&Hq&->). exists rest, rd, wr. cbn [host mem pump_at writer_at emitted delivered].
  rewrite Hh in *. split; [done|]. do 5 (split; [done|]). cbn in Hq. rewrite Hs, Hq. by rewrite <- !app_assoc.
Qed.

Lemma inv_run keep es x y : inv x -> run r s0 keep es x = Some y -> inv y.
Proof.
  revert x. induction es as [|e es IH]; intros x Hi Hr; cbn [run] in Hr; [by injection Hr as <-|].
  destruct (fire r s0 e x) as [z|] eqn:Ez; [|discriminate]. destruct (keep z); [|discriminate].
  apply (IH z); [by eapply inv_fire|done].
Qed.

(** *** The DOWN stream *)

Abbreviation pairs := (fun p : Z * list Z => zip (seqZ p.1 (zlen p.2)) p.2).

(** The writer, with the offset the host has cached. *)
Definition sending (m : memory) (wr : Z) (w : writer) : Prop :=
  match w with
  | Idle | Asking _ => wr = off DownWr m
  | Told rd _ => wr = off DownWr m /\ down_used s0 m <= used V wr rd
  | Pushing todo nw c rem =>
      wr = off DownWr m /\ nw = (wr + zlen c) mod V /\ down_used s0 m + zlen c <= V - 1 /\
      rem = c ++ slice_from rem (zlen c) /\
      exists done, done ++ (todo ≫= pairs) = zip (window (down_buf_addr s0) V wr (zlen c)) c /\
        Forall (fun p => m !!! p.1 = p.2) done
  | Committing nw c rem =>
      wr = nw /\ nw = (off DownWr m + zlen c) mod V /\ down_used s0 m + zlen c <= V - 1 /\
      rem = c ++ slice_from rem (zlen c) /\ ring m (down_buf_addr s0) V (off DownWr m) (zlen c) = c
  end.

Definition undisturbed (m : memory) (p : pump) (w : writer) : Prop :=
  match p with Establishing l => w = Idle /\ Forall (fun m' => off DownWr m' = off DownWr m) l | _ => True end.

Definition inv_down (x : sys) : Prop :=
  sending (mem x) (down_buf_wroff (host x)) (writer_at x) /\ undisturbed (mem x) (pump_at x) (writer_at x) /\
  sent x = received x ++ down_pending s0 (mem x) ++ unsent (writer_at x).

(** A change of the memory that leaves the DOWN ring alone, its read offset
    moved on by [k]. *)
Record passes (k : Z) (m m' : memory) : Prop := {
  pass_wr : off DownWr m' = off DownWr m;
  pass_rd : off DownRd m' = (off DownRd m + k) mod V;
  pass_data : forall x, in_down x -> m' !!! x = m !!! x;
}.

Lemma passes_used k m m' : 0 <= k <= down_used s0 m -> passes k m m' -> down_used s0 m' = down_used s0 m - k.
Proof.
  intros Hk [P1 P2 _]. unfold down_used in *. rewrite P1, P2. apply used_take; [done|apply laid_out].
Qed.

Lemma passes_pending k m m' :
  good m -> 0 <= k <= down_used s0 m -> passes k m m' ->
  down_pending s0 m = ring m (down_buf_addr s0) V (off DownRd m) k ++ down_pending s0 m'.
Proof.
  intros Hg Hk [P1 P2 P3]. pose proof (good_off _ Hg DownWr) as B. unfold down_pending, down_used in *.
  rewrite P1, P2. by apply ring_take.
Qed.

Lemma sending_passes k m m' wr w :
  good m -> 0 <= k <= down_used s0 m -> passes k m m' -> sending m wr w -> sending m' wr w.
Proof.
  intros Hg Hk P. pose proof (passes_used k m m' Hk P) as Hu. destruct P as [P1 P2 P3].
  destruct w as [|rem|rd rem|todo nw c rem|nw c rem]; cbn; rewrite P1, ?Hu; try done.
  - intros [-> H]. split; [done|]. lia.
  - intros (->&H1&H2&H3&done&H4&H5). split; [done|]. split; [done|]. split; [lia|]. split; [done|].
    exists done. split; [done|]. apply Forall_forall. intros p Hp. rewrite Forall_forall in H5. rewrite <- (H5 p Hp).
    apply P3. apply (down_window p.1 (off DownWr m) (zlen c)).
    assert (p ∈ zip (window (down_buf_addr s0) V (off DownWr m) (zlen c)) c) as Hz by (rewrite <- H4; apply elem_of_app; by left).
    destruct p as [a b]. by apply elem_of_zip_l in Hz.
  - intros (->&H1&H2&H3&H4). split; [done|]. split; [done|]. split; [lia|]. split; [done|]. rewrite <- H4 at 2.
    apply ring_agree; [apply laid_out|done].
Qed.

Lemma undisturbed_passes m m' p w : off DownWr m' = off DownWr m -> undisturbed m p w -> undisturbed m' p w.
Proof. intros H. destruct p; cbn; try done. by rewrite H. Qed.

Lemma passes_0 m m' :
  good m -> off DownWr m' = off DownWr m -> off DownRd m' = off DownRd m -> (forall x, in_down x -> m' !!! x = m !!! x) ->
  passes 0 m m'.
Proof.
  intros Hg H1 H2 H3. constructor; [done| |done]. pose proof (good_off _ Hg DownRd) as B. cbn [offset_bound] in B.
  rewrite Z.add_0_r, Z.mod_small by done. done.
Qed.

(** A step that leaves the DOWN side alone. *)
Lemma down_passes x y :
  good (mem x) -> inv_down x -> passes 0 (mem x) (mem y) -> down_buf_wroff (host y) = down_buf_wroff (host x) ->
  writer_at y = writer_at x -> sent y = sent x -> received y = received x ->
  (pump_at y = pump_at x \/ forall l, pump_at y <> Establishing l) -> inv_down y.
Proof.
  intros Hg (D1&D2&D3) P E1 E2 E3 E4 Hp. pose proof (lay_down_size laid_out) as LV.
  assert (0 <= 0 <= down_used s0 (mem x)) as H0 by (split; [done|]; apply used_bound; lia).
  split; [|split].
  - rewrite E1, E2. by apply (sending_passes 0 (mem x)).
  - destruct Hp as [->|Hn]; [|by destruct (pump_at y); [..|edestruct Hn]]. rewrite E2. eapply undisturbed_passes; [apply P|done].
  - rewrite E2, E3, E4, D3. by rewrite (passes_pending 0 (mem x) (mem y)).
Qed.

(** Free slots are not occupied ones. *)
Lemma free_slots m k x :
  good m -> down_used s0 m + k <= V - 1 -> x ∈ window (down_buf_addr s0) V (off DownRd m) (down_used s0 m) ->
  x ∈ window (down_buf_addr s0) V (off DownWr m) k -> False.
Proof.
  intros Hg Hk (i&Hi&->)%elem_of_window (j&Hj&Heq)%elem_of_window.
  pose proof (good_off _ Hg DownRd) as B1. pose proof (good_off _ Hg DownWr) as B2. cbn [offset_bound] in B1, B2.
  rewrite <- (used_end V (off DownWr m) (off DownRd m)) in Heq by done. fold (down_used s0 m) in Heq.
  rewrite Zplus_mod_idemp_l, <- Z.add_assoc in Heq.
  apply (window_slots (down_buf_addr s0) V (off DownRd m)) in Heq; lia.
Qed.

Lemma elem_of_pairs a d x b : (x, b) ∈ pairs (a, d) -> a <= x < a + zlen d /\ d !! Z.to_nat (x - a) = Some b.
Proof.
  cbn. intros Hi. apply elem_of_lookup_zip_with in Hi as (i&x'&b'&Heq&Hx&Hb). injection Heq as <- <-.
  apply lookup_seqZ in Hx as [-> Hi]. split; [lia|]. by replace (Z.to_nat (a + Z.of_nat i - a)) with i by lia.
Qed.

Lemma pushed_pairs m a d : Forall (fun p => write_bytes m a d !!! p.1 = p.2) (pairs (a, d)).
Proof.
  apply Forall_forall. intros [x b] [Hx Hb]%elem_of_pairs. cbn. rewrite lookup_write_bytes, bool_decide_eq_true_2 by done.
  by apply list_lookup_total_correct.
Qed.

Lemma fst_pairs p : (pairs p).*1 = seqZ p.1 (zlen p.2).
Proof. cbn. apply fst_zip. rewrite length_seqZ. lia. Qed.

(** One write of a push: it fills slots no earlier write filled, all of them free. *)
Lemma push_sends m wr a d todo nw c rem :
  good m -> inside (a, d) -> sending m wr (Pushing ((a, d) :: todo) nw c rem) ->
  sending (write_bytes m a d) wr (Pushing todo nw c rem) /\ down_pending s0 (write_bytes m a d) = down_pending s0 m.
Proof.
  intros Hg Hin (->&H1&H2&H3&done&H4&H5). destruct (push_frame m (a, d) Hg Hin) as (_&F2&_). cbn [fst snd] in F2.
  pose proof (good_off _ Hg DownWr) as B. cbn [offset_bound] in B.
  assert (down_used s0 (write_bytes m a d) = down_used s0 m) as Hu by (unfold down_used; by rewrite !F2).
  assert ((done ++ pairs (a, d) ++ (todo ≫= pairs)).*1 = window (down_buf_addr s0) V (off DownWr m) (zlen c)) as Hfst.
  { cbn in H4 |- *. rewrite H4. apply fst_zip. rewrite length_window. lia. }
  rewrite !fmap_app in Hfst. split.
  - cbn [sending]. rewrite F2, Hu. do 4 (split; [done|]). exists (done ++ pairs (a, d)). rewrite <- app_assoc. split; [done|].
    apply Forall_app. split; [|apply pushed_pairs]. rewrite Forall_forall in H5 |- *. intros p Hp. rewrite <- (H5 p Hp).
    apply write_bytes_out. pose proof (NoDup_window (down_buf_addr s0) V (off DownWr m) (zlen c) B ltac:(unfold down_used in *; pose proof (used_bound V (off DownWr m) (off DownRd m) ltac:(lia)); lia)) as Hnd.
    rewrite <- Hfst in Hnd. apply NoDup_app in Hnd as (_&Hnd&_). specialize (Hnd p.1 ltac:(by apply list_elem_of_fmap_2)).
    destruct (decide (a <= p.1 < a + zlen d)); [|lia]. destruct Hnd. apply elem_of_app. left. rewrite fst_pairs.
    by apply elem_of_seqZ.
  - unfold down_pending. rewrite Hu, F2. apply fmap_agree. intros x Hx. apply write_bytes_out.
    destruct (decide (a <= x < a + zlen d)); [|lia]. destruct (free_slots m (zlen c) x Hg); [done..|].
    rewrite <- Hfst. apply elem_of_app. right. apply elem_of_app. left. rewrite fst_pairs. by apply elem_of_seqZ.
Qed.

(** All the writes of a push are through. *)
Lemma pushed_ring m wr c :
  (exists done, done ++ (([] : list (Z * list Z)) ≫= pairs) = zip (window (down_buf_addr s0) V wr (zlen c)) c /\
     Forall (fun p => m !!! p.1 = p.2) done) -> ring m (down_buf_addr s0) V wr (zlen c) = c.
Proof.
  intros (done&H&Hd). cbn in H. rewrite app_nil_r in H. subst done. unfold ring.
  assert (length (window (down_buf_addr s0) V wr (zlen c)) = length c) as Hl by (rewrite length_window; lia).
  revert Hl Hd. generalize (window (down_buf_addr s0) V wr (zlen c)). clear. induction c as [|b c IH]; intros [|a l] Hl Hd; try done.
  cbn in Hd. apply Forall_cons in Hd as [Ha Hd]. cbn in Ha |- *. f_equal; [done|]. apply IH; [by injection Hl|done].
Qed.

Lemma commit_pending m nw c rem wr :
  good m -> sending m wr (Committing nw c rem) ->
  let m' := write_off DownWr nw m in
  good m' /\ off DownWr m' = wr /\ down_pending s0 m' = down_pending s0 m ++ c.
Proof.
  intros Hg (->&->&H2&_&H4) m'. pose proof (lay_down_size laid_out) as LV.
  assert (0 <= (off DownWr m + zlen c) mod V < offset_bound s0 DownWr) as Hb by (cbn [offset_bound]; apply Z.mod_pos_bound; lia).
  pose proof (good_off _ Hg DownWr) as B. cbn [offset_bound] in B.
  split; [by apply good_write_off|]. split; [unfold m'; by rewrite off_write_off|].
  assert (off DownWr m' = (off DownWr m + zlen c) mod V /\ off DownRd m' = off DownRd m) as [O1 O2]
    by (unfold m'; by rewrite !off_write_off).
  unfold down_pending, down_used in *. rewrite O1, O2. rewrite (ring_publish m); [by rewrite H4|done|lia|lia|].
  intros x Hx. apply buffers_write_off. by right.
Qed.

Lemma passes_up_off o v m :
  good m -> 0 <= v < offset_bound s0 o -> o = UpWr \/ o = UpRd -> passes 0 m (write_off o v m).
Proof.
  intros Hg Hv Ho. apply passes_0; [done| | |].
  1-2: rewrite off_write_off by done; by destruct Ho as [-> | ->].
  intros x Hx. apply buffers_write_off. by right.
Qed.

Lemma inv_down_pump e x y : inv x -> inv_down x -> fire_pump r e x = Some y -> calm y = true -> inv_down y.
Proof.
  intros (q&rd&wr&Hh&Hrd&Hwr&Hg&Hp&_) Hd Hf Hc. pose proof Hd as (D1&D2&D3). unfold fire_pump in Hf.
  pose proof (passes_0 (mem x) (mem x) Hg eq_refl eq_refl (fun _ _ => eq_refl)) as P0.
  destruct e; try discriminate; destruct (pump_at x) as [l|w todo d|w d|l] eqn:Ep; try discriminate; cbn [pump_ok undisturbed] in *.
  - case_match; [|discriminate]. injection Hf as <-. apply (down_passes x); try done. by right.
  - destruct Hp as [-> Hl]. destruct l as [|mm [|mu [|md [|]]]]; try discriminate.
    destruct (poll_validate _ _) as [[w|]|] eqn:Ev; injection Hf as <-.
    1-2: by apply (down_passes x); try done; by right.
    unfold calm in Hc. cbn in Hc. split; [done|]. split; [|done]. cbn. split; [by destruct (writer_at x)|done].
  - destruct todo as [|[a n] todo]; [discriminate|]. injection Hf as <-. apply (down_passes x); try done. by right.
  - destruct Hp as (->&H2&_). destruct todo; [|discriminate].
    assert (writeback w (host x) (mem x) = write_off UpRd w (mem x)) as Ew by by rewrite Hh.
    rewrite Ew in Hf. injection Hf as <-. apply (down_passes x); try done; [|by right].
    apply passes_up_off; [done|done|by right].
  - injection Hf as <-. apply (down_passes x); try done. by right.
  - case_match; [|discriminate]. injection Hf as <-. split; [done|]. split; [|done]. cbn. destruct D2 as [D2 D4].
    split; [done|]. apply Forall_app. split; [done|]. by constructor.
  - destruct l as [|mh [|mu [|md [|]]]]; try discriminate. destruct D2 as [D2 D4].
    apply Forall_cons in D4 as [_ D4]. apply Forall_cons in D4 as [_ D4]. apply Forall_cons in D4 as [D4 _].
    apply Forall_cons in Hp as [(G1&_) Hl]. apply Forall_cons in Hl as [(G2&R2) Hl]. apply Forall_cons in Hl as [(G3&R3) _].
    rewrite Hh in Hf. change (cb_addr (hosted q rd wr)) with (cb_addr s0) in Hf. rewrite (lay_cb laid_out) in Hf.
    rewrite resolve_again in Hf by done. injection Hf as <-. split; [|done]. cbn. by rewrite D2.
Qed.

Lemma inv_down_writer e x y : inv x -> inv_down x -> fire_writer e x = Some y -> inv_down y.
Proof.
  intros (q&rd&wr&Hh&Hrd&Hwr&Hg&Hp&Hw&_) (D1&D2&D3) Hf. unfold fire_writer in Hf.
  assert (forall m w, writer_at x <> Idle -> undisturbed m (pump_at x) w) as Hbusy.
  { intros m w Hi. destruct (pump_at x); cbn; try done. by destruct D2 as [? _]. }
  destruct e; try discriminate; destruct (writer_at x) as [|rem|rd' rem|todo w c rem|w c rem] eqn:Ew; try discriminate;
    cbn [writer_ok] in Hw.
  - destruct (ready x && _ && _ && _) eqn:Hc; [|discriminate]. injection Hf as <-.
    rewrite !andb_true_iff in Hc. destruct Hc as [[[Hr _] _] _]. split; [done|]. split.
    + unfold ready in Hr. cbn. by destruct (pump_at x).
    + cbn. rewrite D3. cbn. by rewrite app_nil_r, app_assoc.
  - injection Hf as <-. split; [|split; [by apply Hbusy|done]]. cbn in D1 |- *. split; [done|]. rewrite D1, Hh. apply Z.le_refl.
  - destruct Hw as [Hr Hb]. cbn [sending] in D1. destruct D1 as [D1 Hle].
    pose proof (chunk_bounds q rd wr rd' rem Hwr Hr) as (C1&C2&C3).
    rewrite Hh in Hf, D1, Hle. cbn in D1, Hle.
    destruct (_ =? 0); injection Hf as <-; (split; [|split; [by apply Hbusy|done]]); cbn [on_writer host mem writer_at]; [done|].
    set (c := slice_to _ _) in *.
    assert (bytes_ok c) as Hcb by (rewrite C3 in Hb; by apply Forall_app in Hb as [? _]).
    cbn [sending]. change (down_buf_wroff (hosted q rd wr)) with wr. split; [done|]. split; [done|]. split; [lia|].
    split; [done|]. exists []. split; [|done]. by apply push_window.
  - destruct todo as [|[a d] todo]; [discriminate|]. injection Hf as <-. destruct Hw as (Hin&_). apply Forall_cons in Hin as [Hin _].
    destruct (push_sends (mem x) _ a d todo w c rem Hg Hin D1) as [S1 S2].
    split; [done|]. split; [by apply Hbusy|]. cbn [on_writer mem sent received writer_at unsent]. by rewrite S2.
  - destruct todo; [|discriminate]. injection Hf as <-. destruct D1 as (D1&E1&E2&E3&E4). apply pushed_ring in E4.
    split; [|split; [by apply Hbusy|done]]. cbn. rewrite D1 in *. done.
  - assert (push_commit w (host x) (mem x) = write_off DownWr w (mem x)) as Ec by by rewrite Hh.
    rewrite Ec in Hf. injection Hf as <-. destruct (commit_pending _ _ _ _ _ Hg D1) as (G&O&P). destruct D1 as (_&_&_&E3&_).
    split; [|split; [by apply Hbusy|]]; cbn [on_writer host mem writer_at sent received].
    + case_match; cbn [sending]; by rewrite O.
    + rewrite D3, P. cbn. rewrite E3 at 1. rewrite <- !app_assoc. do 3 f_equal. case_match eqn:Hb; [|done].
      by apply bool_decide_eq_true in Hb.
Qed.

Lemma inv_down_target e x y : inv x -> inv_down x -> fire_target s0 e x = Some y -> inv_down y.
Proof.
  intros (q&rd&wr&Hh&Hrd&Hwr&Hg&Hp&Hw&_) Hd Hf. pose proof Hd as (D1&D2&D3). pose proof laid_out as L. unfold fire_target in Hf.
  destruct e as [| | | | | | | | | | | | | |i b|n|n]; try discriminate; (destruct (_ && _) eqn:Hc; [|discriminate]); injection Hf as <-.
  - rewrite !andb_true_iff in Hc. destruct Hc as [_ Hb]. apply bool_decide_eq_true in Hb.
    destruct (put_frame (mem x) (up_buf_addr s0 + (off UpWr (mem x) + i) mod U) b) as (F1&F2&F3); [done| |done|].
    { unfold in_up. pose proof (Z.mod_pos_bound (off UpWr (mem x) + i) U (proj1 (lay_up_size L))). lia. }
    apply (down_passes x); try done; [|by left]. by apply passes_0.
  - apply (down_passes x); try done; [|by left]. apply passes_up_off; [done| |by left].
    cbn [offset_bound]. apply Z.mod_pos_bound. apply L.
  - assert (0 <= n <= down_used s0 (mem x)) as Hn by lia.
    assert (0 <= (off DownRd (mem x) + n) mod V < offset_bound s0 DownRd) as Hb by (apply Z.mod_pos_bound; apply L).
    assert (passes n (mem x) (write_off DownRd ((off DownRd (mem x) + n) mod V) (mem x))) as P.
    { constructor; [by rewrite off_write_off..|]. intros z Hz. apply buffers_write_off. by right. }
    split; [by apply (sending_passes n (mem x))|]. split; [eapply undisturbed_passes; [apply P|done]|].
    cbn [mem sent received writer_at]. rewrite D3, (passes_pending n (mem x) _ Hg Hn P). by rewrite <- !app_assoc.
Qed.

Lemma inv_down_fire e x y : inv x -> inv_down x -> fire r s0 e x = Some y -> calm y = true -> inv_down y.
Proof.
  intros Hi Hd Hf Hc. destruct e; cbn [fire] in Hf;
    try (by eapply inv_down_pump); try (by eapply inv_down_writer); try (by eapply inv_down_target).
  pose proof Hi as (qu&rd&wr&Hh&Hrd&Hwr&Hg&_). destruct (deliver q (host x)) as [[[d h]|]|] eqn:Ed; try discriminate. injection Hf as <-.
  apply deliver_splits in Ed as (rest&Hq&->). apply (down_passes x); try done; [|by left]. by apply passes_0.
Qed.

Lemma inv_down_start : inv_down (start s0 m0).
Proof.
  split; [|split; [done|cbn; by rewrite app_nil_r]]. cbn. apply (fld_down_wr host_fields).
Qed.

Lemma inv_down_run es x y :
  inv x -> inv_down x -> run r s0 calm es x = Some y -> inv_down y.
Proof.
  revert x. induction es as [|e es IH]; intros x Hi Hd Hr; cbn [run] in Hr; [by injection Hr as <-|].
  destruct (fire r s0 e x) as [z|] eqn:Ez; [|discriminate]. destruct (calm z) eqn:Hc; [|discriminate].
  apply (IH z); [by eapply inv_fire|by eapply inv_down_fire|done].
Qed.

(** *** Progress *)

Lemma run_schedule_app keep es es' x :
  run r s0 keep (es ++ es') x = match run r s0 keep es x with Some y => run r s0 keep es' y | None => None end.
Proof.
  revert x. induction es as [|e es IH]; intros x; cbn [run app]; [done|].
  destruct (fire r s0 e x) as [y|]; [|done]. by destruct (keep y).
Qed.

Lemma run_drain todo : forall h m w wt em de se re d,
  run r s0 calm (replicate (length todo) DrainRead) (mkSys h m (Draining w todo d) wt em de se re)
  = Some (mkSys h m (Draining w [] (d ++ (todo ≫= fun p => read_bytes m p.1 p.2))) wt em de se re).
Proof.
  induction todo as [|[a n] todo IH]; intros; cbn; [by rewrite app_nil_r|].
  unfold on_pump. cbn. rewrite IH. by rewrite <- app_assoc.
Qed.

(** The events of one poll cycle that drains to [w]. *)
Definition poll_events (h : rtt) (wr : Z) : list event :=
  [Sample; Sample; Sample; Validate] ++
  (if wr =? up_buf_rdoff h then [] else replicate (length (drain_requests wr h)) DrainRead ++ [WriteBack; Drained]).

Lemma poll_cycle x :
  inv x -> inv_down x -> pump_at x = Sampling [] -> writer_at x = Idle ->
  exists y, run r s0 calm (poll_events (host x) (off UpWr (mem x))) x = Some y /\ pump_at y = Sampling [] /\
    emitted y = emitted x /\ delivered y = delivered x /\ off UpWr (mem y) = off UpRd (mem y).
Proof.
  intros (q&rd&wr&Hh&Hrd&Hwr&Hg&Hp&_) (D1&_) Ep Ew. destruct x as [h m p wt em de se re].
  cbn [host mem pump_at writer_at emitted delivered] in *. subst h p wt. cbn in D1, Hp.
  destruct Hp as [-> _]. unfold poll_events. cbn [up_buf_rdoff hosted set_rx set_rdoff set_wroff].
  rewrite run_schedule_app.
  cbn [run fire fire_pump on_pump host mem pump_at writer_at emitted delivered sent received length Nat.ltb Nat.leb app calm].
  rewrite validate_again by done. rewrite <- D1, !Z.eqb_refl. cbn [andb].
  destruct (off UpWr m =? off UpRd m) eqn:Eo;
    unfold on_pump; cbn [calm pump_at writer_at host mem emitted delivered sent received].
  - eexists. split; [done|]. by apply Z.eqb_eq in Eo.
  - rewrite run_schedule_app, run_drain.
    cbn [run fire fire_pump on_pump host mem pump_at writer_at emitted delivered sent received calm].
    eexists. split; [done|]. cbn [host mem pump_at emitted delivered]. do 3 (split; [done|]).
    change (writeback _ _ m) with (write_off UpRd (off UpWr m) m). cbn [on_pump mem].
    pose proof (good_off _ Hg UpWr) as B. by rewrite !off_write_off.
Qed.

Lemma empty_pending m : off UpWr m = off UpRd m -> up_pending s0 m = [].
Proof. intros H. unfold up_pending, up_used. rewrite H, used_self. done. Qed.

End invariant.

(** ** The streams *)

(** C9: whatever the interleaving of the pump, of a writer, of readers and of the
    firmware, also when the control block is established anew in between, every
    byte the firmware published is, in order and exactly once, delivered to a
    reader, in the receive queue, on its way there, or still in the UP ring. *)
Theorem rtt_up_stream_in_order r s0 m0 cb es x :
  established r s0 m0 cb -> run r s0 any es (start s0 m0) = Some x ->
  emitted x = delivered x ++ rx_queue (host x) ++ in_flight (pump_at x) ++ up_pending s0 (mem x).
Proof.
  intros E Hr. destruct (inv_run r s0 m0 cb E any es _ _ (inv_start r s0 m0 cb E) Hr) as (q&rd&wr&Hh&_&_&_&_&_&Hs).
  by rewrite Hh.
Qed.

(** C32: as long as the control block is not established anew while a write is
    under way, every byte written is, in order and exactly once, taken by the
    firmware, in the DOWN ring, or still to be pushed. *)
Theorem rtt_down_stream_in_order r s0 m0 cb es x :
  established r s0 m0 cb -> run r s0 calm es (start s0 m0) = Some x ->
  sent x = received x ++ down_pending s0 (mem x) ++ unsent (writer_at x).
Proof.
  intros E Hr. by destruct (inv_down_run r s0 m0 cb E es _ _ (inv_start r s0 m0 cb E) (inv_down_start r s0 m0 cb E) Hr) as (_&_&H).
Qed.

(** A poll cycle that meets no write always completes: it accepts the control
    block and moves everything the UP ring holds to the end of the receive queue. *)
Theorem rtt_poll_empties_ring r s0 m0 cb es x :
  established r s0 m0 cb -> run r s0 calm es (start s0 m0) = Some x ->
  pump_at x = Sampling [] -> writer_at x = Idle ->
  exists y, run r s0 calm (poll_events (host x) (off s0 UpWr (mem x))) x = Some y /\
    pump_at y = Sampling [] /\ rx_queue (host y) = rx_queue (host x) ++ up_pending s0 (mem x) /\
    up_pending s0 (mem y) = [].
Proof.
  intros E Hr Hp Hw. pose proof (inv_run r s0 m0 cb E calm es _ _ (inv_start r s0 m0 cb E) Hr) as Hi.
  pose proof (inv_down_run r s0 m0 cb E es _ _ (inv_start r s0 m0 cb E) (inv_down_start r s0 m0 cb E) Hr) as Hd.
  destruct (poll_cycle r s0 m0 cb E x Hi Hd Hp Hw) as (y&Hy&Py&Ey&Dy&Oy). exists y. split; [done|]. split; [done|].
  pose proof (inv_run r s0 m0 cb E calm _ _ _ Hi Hy) as (q'&rd'&wr'&Hh'&_&_&_&_&_&Hs').
  destruct Hi as (q&rd&wr&Hh&_&_&_&_&_&Hs). pose proof (empty_pending s0 (mem y) Oy) as He. split; [|done].
  rewrite Ey, Dy, He, Py, Hs, Hp in Hs'. cbn [in_flight] in Hs'. apply app_inv_head in Hs'. rewrite !app_nil_r in Hs'.
  rewrite Hh, Hh'. cbn. by rewrite <- Hs'.
Qed.

(** ** A firmware *)

(** Four-byte rings, one channel each way. *)
Definition block : list Z :=
  RTT_MAGIC ++ ([1; 1; 0; 0x200; 4; 0; 0; 0; 0; 0x300; 4; 0; 0; 0] ≫= le_bytes 4).

Definition firmware : memory := write_bytes ∅ 0x100 block.
Definition sample_ram : ram := mkRam 0 0x1000.

Definition attached : rtt :=
  mkRtt 0 0 (Some 0x100) (Some 0x100) 0x200 4 0 0x118 0x128 (Some (0, 0x200, 4, 0))
    0x300 4 0 0x130 0x140 0x13c (Some (0, 0x300, 4, 0)) [].

Lemma attached_established : established sample_ram attached firmware 0x100.
Proof.
  constructor; try done; try (by vm_compute); try (by left; vm_compute); try (by right; vm_compute).
  apply write_bytes_ok; [|by repeat constructor]. intros a. rewrite lookup_total_empty. done.
Qed.

(** The firmware prints six bytes through a ring of four, the host writes four. *)
Definition session : list event :=
  [Put 0 65; Put 1 66; Put 2 67; Publish 3; Write [1; 2; 3; 4]; Sample; AskSpace; Sample; Choose; Sample; Validate;
   PushWrite; DrainRead; WriteBack; Put 0 68; Drained; PushDone; Publish 1; Commit; Take 2; Deliver (ReadSome 2);
   AskSpace; Choose; PushWrite; PushDone; Commit; Take 2].

Definition after_session : option sys := Eval vm_compute in run sample_ram attached calm session (start attached firmware).

Lemma rtt_up_stream_in_order_witness :
  exists x, run sample_ram attached any session (start attached firmware) = Some x /\
    emitted x = delivered x ++ rx_queue (host x) ++ in_flight (pump_at x) ++ up_pending attached (mem x) /\
    emitted x = [65; 66; 67; 68].
Proof.
  destruct after_session as [x|] eqn:Ex; [|vm_compute in Ex; discriminate]. injection Ex as Ex.
  exists x. assert (run sample_ram attached any session (start attached firmware) = Some x) as Hr by (rewrite <- Ex; by vm_compute).
  split; [done|]. split; [by apply (rtt_up_stream_in_order sample_ram attached firmware 0x100 session x attached_established)|].
  by rewrite <- Ex.
Defined.

Lemma rtt_down_stream_in_order_witness :
  exists x, run sample_ram attached calm session (start attached firmware) = Some x /\
    sent x = received x ++ down_pending attached (mem x) ++ unsent (writer_at x) /\ received x = [1; 2; 3; 4].
Proof.
  destruct after_session as [x|] eqn:Ex; [|vm_compute in Ex; discriminate]. injection Ex as Ex.
  exists x. assert (run sample_ram attached calm session (start attached firmware) = Some x) as Hr by (rewrite <- Ex; by vm_compute).
  split; [done|]. split; [by apply (rtt_down_stream_in_order sample_ram attached firmware 0x100 session x attached_established)|].
  by rewrite <- Ex.
Defined.

Lemma rtt_poll_empties_ring_witness :
  exists x y, run sample_ram attached calm (take 4 session) (start attached firmware) = Some x /\
    run sample_ram attached calm (poll_events (host x) (off attached UpWr (mem x))) x = Some y /\
    pump_at y = Sampling [] /\ rx_queue (host y) = rx_queue (host x) ++ up_pending attached (mem x) /\
    up_pending attached (mem y) = [] /\ up_pending attached (mem x) = [65; 66; 67].
Proof.
  destruct (run sample_ram attached calm (take 4 session) (start attached firmware)) as [x|] eqn:Ex;
    [|vm_compute in Ex; discriminate].
  assert (pump_at x = Sampling [] /\ writer_at x = Idle /\ up_pending attached (mem x) = [65; 66; 67]) as (H1&H2&H3).
  { vm_compute in Ex. injection Ex as <-. by vm_compute. }
  destruct (rtt_poll_empties_ring sample_ram attached firmware 0x100 (take 4 session) x attached_established Ex H1 H2) as (y&Hy).
  exists x, y. split; [done|]. destruct Hy as (Hy1&Hy2&Hy3&Hy4). by repeat split.
Defined.

(** ** What goes wrong under a write *)

(** [__down_push] updates the cached WrOff before the one in the target's memory:
    a poll whose reads fall in between takes the difference for a reset of the
    firmware and gives the control block up. *)
Definition overtaken : list event :=
  [Write [1; 2; 3; 4; 5; 6]; AskSpace; Choose; PushWrite; Sample; Sample; Sample; PushDone; Validate].

Example rtt_spurious_invalidation :
  (fun x => (pump_at x, off attached DownWr (mem x), down_buf_wroff (host x))) <$>
    run sample_ram attached any overtaken (start attached firmware) = Some (Establishing [], 0, 3).
Proof. by vm_compute. Qed.

(** The writer is not stopped by that: it goes on while the descriptors are read
    again, and the WrOff that was read before its next commit replaces the cached
    one after it.  The bytes that follow overwrite bytes the firmware has not
    taken: it receives 1 2 3 7 of the 1 2 3 4 5 6 7 that were written. *)
Definition rewound : list event :=
  overtaken ++ [Commit; ResolveRead; ResolveRead; Take 3; AskSpace; Choose; PushWrite; PushWrite; ResolveRead; PushDone;
    Resolve; Commit; Write [7]; AskSpace; Choose; PushWrite; PushDone; Commit; Take 1].

Theorem rtt_write_lost :
  exists x, run sample_ram attached any rewound (start attached firmware) = Some x /\
    sent x = [1; 2; 3; 4; 5; 6; 7] /\ received x = [1; 2; 3; 7] /\ down_pending attached (mem x) = [] /\ writer_at x = Idle.
Proof.
  destruct (run sample_ram attached any rewound (start attached firmware)) as [x|] eqn:Ex; [|vm_compute in Ex; discriminate].
  exists x. split; [done|]. vm_compute in Ex. injection Ex as <-. by vm_compute.
Qed.
