(* ===== verification/Engine.v ===== *)
(** * The batching engine (src/acrobe/engine.py)

    Every bus of the program is a [Batcher]: operations are posted one by one, a
    flush task hands them over to [flush_ops] in batches.  [BackgroundLowering]
    runs the batches of a node whose lowering has to wait.

    The event loop runs one task at a time; a task is left where it awaits.  Here
    each event is what happens between two such points, and [flush_ops] and
    [run_ops], which subclasses define, are any sequence of settled futures that
    ends with a return or an exception.  Locks serve their waiters in order.
    Futures live in a store; a client may cancel the one it waits for. *)

From S2P Require Import Prelude.

Abbreviation future := nat (only parsing).

(** ** Futures *)

Inductive outcome (V : Type) : Type := Done (r : result V) | Cancelled.
Arguments Done {V} _.
Arguments Cancelled {V}.

(** The settled futures of the loop; a future that is not there is pending. *)
Abbreviation futures V := (gmap nat (outcome V)).

Section futures.
Context {V : Type}.
Implicit Type fs : futures V.

Definition is_done (f : future) fs : bool := bool_decide (is_Some (fs !! f)).

(** [set_result] and [set_exception] raise on a future that is done. *)
Definition settle (f : future) (r : result V) fs : result (futures V) :=
  if is_done f fs then Err InvalidStateError else Ok (<[f := Done r]> fs).

(** [future.cancel] does nothing then. *)
Definition cancel (f : future) fs : futures V := if is_done f fs then fs else <[f := Cancelled]> fs.

(** [if future is not None and not future.done(): future.set_exception(exc)],
    over a batch. *)
Definition reject {Op : Type} (e : exn) (batch : list (Op * option future)) fs : futures V :=
  foldl (fun fs x => match snd x with
                     | Some f => if is_done f fs then fs else <[f := Done (Err e)]> fs
                     | None => fs
                     end) fs batch.

End futures.

(** The callback of [chain_future], when the source is done: the target, unless it
    is done, follows it ([transform] is [Ok] where the code passes none).
    [src.exception()] raises on a cancelled source, outside the [try]. *)
Definition chain_done {V W : Type} (transform : V -> result W) (src : outcome V) (target : option future)
    (ts : futures W) : result (futures W) :=
  match target with
  | None => Ok ts
  | Some t =>
      if is_done t ts then Ok ts
      else
        match src with
        | Cancelled => Err CancelledError
        | Done (Err e) => Ok (<[t := Done (Err e)]> ts)
        | Done (Ok v) => Ok (<[t := Done (transform v)]> ts)
        end
  end.

(** ** [Batcher] *)

Section batcher.
Context {Op V : Type}.

Abbreviation entry := (Op * option future)%type.

Record batcher := mkBatcher {
  pending : list entry;
  flush_task : option nat;
  waiting : list nat;                     (* flush tasks not yet inside the lock, in order *)
  running : option (nat * list entry);    (* the one inside, with its batch *)
  tasks : nat;                            (* tasks created so far *)
  store : futures V;
  created : nat;                          (* futures created so far *)
  posted : list entry;                    (* every post so far *)
  flushed : list (list entry);            (* every batch handed over so far *)
}.

Definition new_batcher : batcher := mkBatcher [] None [] None 0 ∅ 0 [] [].

Definition task_done (b : batcher) (t : nat) : bool :=
  negb (bool_decide (t ∈ waiting b)) && negb (bool_decide (fst <$> running b = Some t)).

(** [__ensure_flush] *)
Definition ensure_flush (b : batcher) : batcher :=
  if match flush_task b with None => true | Some t => task_done b t end
  then mkBatcher (pending b) (Some (tasks b)) (waiting b ++ [tasks b]) (running b) (S (tasks b)) (store b) (created b)
         (posted b) (flushed b)
  else b.

Definition enqueue (x : entry) (n : nat) (b : batcher) : batcher :=
  mkBatcher (pending b ++ [x]) (flush_task b) (waiting b) (running b) (tasks b) (store b) (created b + n)
    (posted b ++ [x]) (flushed b).

Definition post (op : Op) (b : batcher) : batcher := ensure_flush (enqueue (op, Some (created b)) 1 b).
Definition post_no_wait (op : Op) (b : batcher) : batcher := ensure_flush (enqueue (op, None) 0 b).

Definition with_store (fs : futures V) (b : batcher) : batcher :=
  mkBatcher (pending b) (flush_task b) (waiting b) (running b) (tasks b) fs (created b) (posted b) (flushed b).

(** [__run_flush], up to [flush_ops]. *)
Definition begin_flush (b : batcher) : option batcher :=
  match running b, waiting b with
  | None, t :: rest =>
      Some (mkBatcher [] None rest (Some (t, pending b)) (tasks b) (store b) (created b) (posted b)
              (flushed b ++ [pending b]))
  | _, _ => None
  end.

(** and after it. *)
Definition end_flush (r : result unit) (b : batcher) : option batcher :=
  match running b with
  | Some (_, batch) =>
      let fs := match r with Ok _ => store b | Err e => reject e batch (store b) end in
      Some (mkBatcher (pending b) (flush_task b) (waiting b) None (tasks b) fs (created b) (posted b) (flushed b))
  | None => None
  end.

(** What the loop may run next.  A future of a batch is settled by [flush_ops]
    or, later, by a callback it left behind. *)
Inductive event : Type :=
  | Post (op : Op) | PostNoWait (op : Op) | Begin | End (r : result unit)
  | Settle (f : future) (r : result V) | Cancel (f : future).

Definition of_batches (f : future) (b : batcher) : bool := bool_decide (Some f ∈ (concat (flushed b)).*2).

Definition step (e : event) (b : batcher) : option batcher :=
  match e with
  | Post op => Some (post op b)
  | PostNoWait op => Some (post_no_wait op b)
  | Begin => begin_flush b
  | End r => end_flush r b
  | Settle f r =>
      if of_batches f b && negb (is_done f (store b)) then Some (with_store (<[f := Done r]> (store b)) b) else None
  | Cancel f => if (f <? created b)%nat then Some (with_store (cancel f (store b)) b) else None
  end.

Fixpoint steps (es : list event) (b : batcher) : option batcher :=
  match es with
  | [] => Some b
  | e :: es => match step e b with Some b => steps es b | None => None end
  end.

End batcher.
Arguments batcher : clear implicits.
Arguments event : clear implicits.

(** ** [BackgroundLowering]

    A node whose [flush_ops] dispatches the batch to a background task. *)

Section background.
Context {Op V : Type}.
Abbreviation batch := (list (Op * option future)).

Record node := mkNode {
  front : batcher Op V;
  queued : list batch;           (* drain tasks waiting for the lock, in order *)
  draining : option batch;       (* the one inside it *)
  drained : list batch;          (* those that are through *)
}.

Definition new_node : node := mkNode new_batcher [] None [].

(** A flush: [flush_ops] is [dispatch] and does not wait. *)
Definition flush (n : node) : option node :=
  match begin_flush (front n) with
  | Some b =>
      match running b, end_flush (Ok tt) b with
      | Some (_, batch), Some b => Some (mkNode b (queued n ++ [batch]) (draining n) (drained n))
      | _, _ => None
      end
  | None => None
  end.

(** [__drain], up to [run_ops] and after it. *)
Definition begin_drain (n : node) : option node :=
  match draining n, queued n with
  | None, batch :: rest => Some (mkNode (front n) rest (Some batch) (drained n))
  | _, _ => None
  end.

Definition end_drain (r : result unit) (n : node) : option node :=
  match draining n with
  | Some batch =>
      let e := match r with Err e => e | Ok _ => RuntimeError end in
      Some (mkNode (with_store (reject e batch (store (front n))) (front n)) (queued n) None (drained n ++ [batch]))
  | None => None
  end.

Inductive node_event : Type :=
  | NPost (op : Op) | NPostNoWait (op : Op) | NFlush | NBegin | NEnd (r : result unit)
  | NSettle (f : future) (r : result V) | NCancel (f : future).

(** [run_ops] settles futures of the batch it was given. *)
Definition node_step (e : node_event) (n : node) : option node :=
  let with_front b := mkNode b (queued n) (draining n) (drained n) in
  match e with
  | NPost op => Some (with_front (post op (front n)))
  | NPostNoWait op => Some (with_front (post_no_wait op (front n)))
  | NFlush => flush n
  | NBegin => begin_drain n
  | NEnd r => end_drain r n
  | NSettle f r =>
      match draining n with
      | Some batch =>
          if bool_decide (Some f ∈ batch.*2) && negb (is_done f (store (front n)))
          then Some (with_front (with_store (<[f := Done r]> (store (front n))) (front n)))
          else None
      | None => None
      end
  | NCancel f => with_front <$> step (Cancel f) (front n)
  end.

Fixpoint node_steps (es : list node_event) (n : node) : option node :=
  match es with
  | [] => Some n
  | e :: es => match node_step e n with Some n => node_steps es n | None => None end
  end.

End background.
Arguments node : clear implicits.
Arguments node_event : clear implicits.

(** ** Order and progress *)

Section proofs.
Context {Op V : Type}.
Implicit Type b : batcher Op V.

(** At most one flush task waits, it is the one on record, and it waits exactly
    while something is pending; what was posted was handed over or is pending;
    a pending operation's future is not settled yet. *)
Record inv b : Prop := {
  inv_waiting : waiting b = match flush_task b with Some t => [t] | None => [] end;
  inv_fresh : forall t, t ∈ waiting b -> (t < tasks b)%nat /\ fst <$> running b <> Some t;
  inv_running : forall t batch, running b = Some (t, batch) -> (t < tasks b)%nat /\ exists l, flushed b = l ++ [batch];
  inv_pending : pending b = [] <-> waiting b = [];
  inv_posted : posted b = concat (flushed b) ++ pending b;
  inv_batches : Forall (fun batch => batch <> []) (flushed b);
  inv_futures : forall f, Some f ∈ (posted b).*2 -> (f < created b)%nat;
}.

Lemma inv_new : inv new_batcher.
Proof. constructor; cbn; try done; set_solver. Qed.

(** The task on record is never done: it is the one that waits. *)
Lemma recorded_waits b t : inv b -> flush_task b = Some t -> task_done b t = false.
Proof.
  intros Hi Ht. unfold task_done. rewrite (bool_decide_eq_true_2 (t ∈ waiting b)); [done|].
  rewrite (inv_waiting _ Hi), Ht. set_solver.
Qed.

Lemma inv_post (x : Op * option nat) n b :
  inv b -> (forall f, x.2 = Some f -> (f < created b + n)%nat) -> inv (ensure_flush (enqueue x n b)).
Proof.
  intros Hi Hx. pose proof (recorded_waits b) as Hrec. destruct Hi as [I1 I2 I3 I4 I5 I6 I7].
  assert (forall f, Some f ∈ (posted b ++ [x]).*2 -> (f < created b + n)%nat) as Hf.
  { intros f. rewrite fmap_app, elem_of_app. intros [H%I7|H]; [lia|]. apply Hx. set_solver. }
  assert (posted b ++ [x] = concat (flushed b) ++ pending b ++ [x]) as Hp by by rewrite I5, app_assoc.
  unfold ensure_flush, enqueue. cbn [flush_task pending waiting running tasks store created posted flushed].
  destruct (flush_task b) as [t|] eqn:Et.
  - specialize (Hrec t ltac:(by constructor; rewrite ?Et) eq_refl). unfold task_done in *. cbn [waiting running]. rewrite Hrec.
    constructor; cbn; try done. rewrite I1. split; [by destruct (pending b)|done].
  - constructor; cbn; try done.
    + by rewrite I1.
    + rewrite I1. intros t' ->%list_elem_of_singleton. split; [lia|]. destruct (running b) as [[t batch]|] eqn:Er; [|done].
      destruct (I3 t batch eq_refl). cbn. intros [= ->]. lia.
    + intros t batch Er. destruct (I3 t batch Er). split; [lia|done].
    + rewrite I1. by destruct (pending b).
Qed.

Lemma inv_begin b b' : inv b -> begin_flush b = Some b' -> inv b'.
Proof.
  intros [I1 I2 I3 I4 I5 I6 I7] Hb. unfold begin_flush in Hb.
  destruct (running b) eqn:Er; [discriminate|]. destruct (waiting b) as [|t rest] eqn:Ew; [discriminate|].
  injection Hb as <-. destruct (flush_task b) as [t'|]; [|discriminate]. injection I1 as -> ->.
  constructor; cbn; try done.
  - set_solver.
  - intros t batch [= <- <-]. split; [apply I2; set_solver|eauto].
  - by rewrite concat_app, app_nil_r, I5; cbn; rewrite app_nil_r.
  - apply Forall_app. split; [done|]. constructor; [|done]. intros Hn. by apply I4 in Hn.
Qed.

Lemma inv_store fs b : inv b -> inv (with_store fs b).
Proof. intros [I1 I2 I3 I4 I5 I6 I7]. by constructor. Qed.

Lemma inv_end r b b' : inv b -> end_flush r b = Some b' -> inv b'.
Proof.
  intros [I1 I2 I3 I4 I5 I6 I7] He. unfold end_flush in He. destruct (running b) as [[t batch]|]; [|discriminate].
  injection He as <-. constructor; cbn; try done. intros t' Ht. split; [by apply I2|done].
Qed.

Lemma inv_step e b b' : inv b -> step e b = Some b' -> inv b'.
Proof.
  intros Hi. destruct e as [op|op| |r|f r|f]; cbn [step].
  - intros [= <-]. apply inv_post; [done|]. cbn. intros f [= <-]. lia.
  - intros [= <-]. by apply inv_post.
  - by apply inv_begin.
  - by apply inv_end.
  - case_match; intros [= <-]. by apply inv_store.
  - case_match; intros [= <-]. by apply inv_store.
Qed.

Lemma inv_steps es b b' : inv b -> steps es b = Some b' -> inv b'.
Proof.
  revert b. induction es as [|e es IH]; intros b Hi Hs; cbn [steps] in Hs; [by injection Hs as <-|].
  destruct (step e b) as [b1|] eqn:E; [|discriminate]. apply (IH b1); [by eapply inv_step|done].
Qed.

(** Rejecting a batch leaves none of its futures pending and touches no settled
    one. *)
Lemma reject_done {W} e (l : list (Op * option nat)) (fs : futures W) f :
  Some f ∈ l.*2 \/ is_Some (fs !! f) -> is_Some (reject e l fs !! f).
Proof.
  revert fs. induction l as [|[o g] l IH]; intros fs Hf; cbn; [set_solver|].
  apply IH. cbn in Hf. rewrite elem_of_cons in Hf. destruct g as [g|]; [|destruct Hf as [[Hf|Hf]|Hf]; [done|by left|by right]].
  unfold is_done. case_bool_decide as Hg.
  - destruct Hf as [[[= ->]|Hf]|Hf]; [by right|by left|by right].
  - destruct (decide (f = g)) as [->|Hn]; [right; by rewrite lookup_insert_eq|].
    rewrite lookup_insert_ne by done. destruct Hf as [[[= ->]|Hf]|Hf]; [done|by left|by right].
Qed.

(** With no further post, what is pending is handed over. *)
Lemma flush_all b :
  inv b -> exists es b', Forall (fun e => e = Begin \/ e = End (Ok tt)) es /\ (length es <= 3)%nat /\
    steps es b = Some b' /\ pending b' = [] /\ running b' = None /\ posted b' = posted b.
Proof.
  intros [I1 I2 I3 I4 I5 I6 I7].
  assert (forall c : batcher Op V, running c = None -> (pending c = [] <-> waiting c = []) ->
    exists es c', Forall (fun e => e = Begin \/ e = End (Ok tt)) es /\ (length es <= 2)%nat /\
      steps es c = Some c' /\ pending c' = [] /\ running c' = None /\ posted c' = posted c) as Hfree.
  { intros c Hr Hp. destruct (waiting c) as [|t rest] eqn:Ew.
    - exists [], c. split; [done|]. split; [cbn; lia|]. cbn. split; [done|]. by rewrite Hp.
    - exists [Begin; End (Ok tt)]. cbn. unfold begin_flush. rewrite Hr, Ew. cbn. eexists. split; [|split; [lia|done]].
      constructor; [by left|]. constructor; [by right|done]. }
  destruct (running b) as [[t batch]|] eqn:Er.
  - destruct (Hfree (mkBatcher (pending b) (flush_task b) (waiting b) None (tasks b) (store b) (created b) (posted b) (flushed b)))
      as (es&c&H1&H2&H3&H4&H5&H6); [done|done|].
    exists (End (Ok tt) :: es), c. split; [constructor; [by right|done]|]. split; [cbn; lia|].
    cbn [steps step]. unfold end_flush. rewrite Er. done.
  - destruct (Hfree b) as (es&c&H1&H2&H); [done|done|]. exists es, c. split; [done|]. split; [lia|done].
Qed.
End proofs.

(** ** A node with a background task *)

Section node_proofs.
Context {Op V : Type}.
Implicit Type n : node Op V.

Record node_inv n : Prop := {
  ninv_front : inv (front n);
  ninv_idle : running (front n) = None;
  ninv_order : flushed (front n) = drained n ++ option_list (draining n) ++ queued n;
  ninv_done : forall f, Some f ∈ (concat (drained n)).*2 -> is_Some (store (front n) !! f);
}.

Lemma post_keeps (x : Op * option nat) k (b : batcher Op V) :
  running (ensure_flush (enqueue x k b)) = running b /\ flushed (ensure_flush (enqueue x k b)) = flushed b /\
  store (ensure_flush (enqueue x k b)) = store b.
Proof. unfold ensure_flush, enqueue. by case_match. Qed.

Lemma cancel_grows f (fs : futures V) g : is_Some (fs !! g) -> is_Some (cancel f fs !! g).
Proof.
  unfold cancel. case_match; [done|]. destruct (decide (g = f)) as [->|]; [by rewrite lookup_insert_eq|by rewrite lookup_insert_ne].
Qed.

Lemma node_inv_step e n n' : node_inv n -> node_step e n = Some n' -> node_inv n'.
Proof.
  intros [N1 N2 N3 N4] Hs. destruct e as [op|op| | |r|f r|f]; cbn [node_step] in Hs.
  - injection Hs as <-. destruct (post_keeps (op, Some (created (front n))) 1 (front n)) as (P1&P2&P3).
    constructor; cbn [front queued draining drained].
    + apply inv_post; [done|]. cbn. intros f [= <-]. lia.
    + unfold post. by rewrite P1.
    + unfold post. by rewrite P2.
    + unfold post. by rewrite P3.
  - injection Hs as <-. destruct (post_keeps (op, None) 0 (front n)) as (P1&P2&P3).
    constructor; cbn [front queued draining drained]; unfold post_no_wait.
    + by apply inv_post.
    + by rewrite P1.
    + by rewrite P2.
    + by rewrite P3.
  - unfold flush in Hs. destruct (begin_flush (front n)) as [b|] eqn:Eb; [|discriminate].
    pose proof (inv_begin _ _ N1 Eb) as Hi. unfold begin_flush in Eb. rewrite N2 in Eb.
    destruct (waiting (front n)) as [|t rest] eqn:Ew; [discriminate|]. injection Eb as <-. cbn in Hs. injection Hs as <-.
    constructor; cbn; try done.
    + by apply (inv_end (Ok tt) _ _ Hi).
    + rewrite N3. by rewrite <- !app_assoc.
  - unfold begin_drain in Hs. destruct (draining n) eqn:Ed; [discriminate|]. destruct (queued n) as [|batch rest] eqn:Eq; [discriminate|].
    injection Hs as <-. by constructor.
  - unfold end_drain in Hs. destruct (draining n) as [batch|] eqn:Ed; [|discriminate]. injection Hs as <-.
    constructor; cbn.
    + by apply inv_store.
    + done.
    + rewrite N3. by rewrite <- app_assoc.
    + intros f. rewrite concat_app, fmap_app, elem_of_app. cbn. rewrite app_nil_r. intros [Hf|Hf]; apply reject_done; [right|by left].
      by apply N4.
  - destruct (draining n) as [batch|] eqn:Ed; [|discriminate]. case_match; [|discriminate]. injection Hs as <-.
    constructor; cbn; try done; [by apply inv_store|]. intros g Hg%N4.
    destruct (decide (g = f)) as [->|]; [by rewrite lookup_insert_eq|by rewrite lookup_insert_ne].
  - cbn in Hs. case_match; [|discriminate]. injection Hs as <-.
    constructor; cbn; try done; [by apply inv_store|]. intros g Hg%N4. by apply cancel_grows.
Qed.

Lemma node_inv_new : node_inv (new_node : node Op V).
Proof. constructor; cbn; try done; [apply inv_new|set_solver]. Qed.

Lemma node_inv_steps es n n' : node_inv n -> node_steps es n = Some n' -> node_inv n'.
Proof.
  revert n. induction es as [|e es IH]; intros n Hi Hs; cbn [node_steps] in Hs; [by injection Hs as <-|].
  destruct (node_step e n) as [n1|] eqn:E; [|discriminate]. apply (IH n1); [by eapply node_inv_step|done].
Qed.

(** The background task works off what was dispatched. *)
Lemma drain_all q : forall n,
  queued n = q -> draining n = None ->
  exists es n', Forall (fun e => e = NBegin \/ e = NEnd (Ok tt)) es /\ node_steps es n = Some n' /\
    queued n' = [] /\ draining n' = None /\ posted (front n') = posted (front n) /\ pending (front n') = pending (front n).
Proof.
  induction q as [|batch q IH]; intros n Hq Hd; [by exists [], n|].
  set (n1 := mkNode (with_store (reject RuntimeError batch (store (front n))) (front n)) q None (drained n ++ [batch])).
  destruct (IH n1 eq_refl eq_refl) as (es&n'&H1&H2&H). exists (NBegin :: NEnd (Ok tt) :: es), n'.
  split; [constructor; [by left|]; constructor; [by right|done]|]. split; [|done].
  cbn. unfold begin_drain. rewrite Hd, Hq. exact H2.
Qed.

Lemma node_steps_app es es' n :
  node_steps (es ++ es') n = match node_steps es n with Some n' => node_steps es' n' | None => None end.
Proof.
  revert n. induction es as [|e es IH]; intros n; cbn [node_steps app]; [done|]. by destruct (node_step e n).
Qed.

Abbreviation own_step := (fun e : node_event Op V => e = NFlush \/ e = NBegin \/ e = NEnd (Ok tt)).

Lemma flush_front n :
  node_inv n -> exists es n', Forall own_step es /\ node_steps es n = Some n' /\ pending (front n') = [] /\
    draining n' = draining n /\ posted (front n') = posted (front n).
Proof.
  intros [N1 N2 N3 N4]. destruct (waiting (front n)) as [|t rest] eqn:Ew.
  - exists [], n. split; [done|]. split; [done|]. split; [|done]. by apply (inv_pending _ N1).
  - exists [NFlush]. cbn. unfold flush, begin_flush. rewrite N2, Ew. cbn. eexists.
    split; [constructor; [by left|done]|]. done.
Qed.

Lemma finish_drain n :
  exists es n', Forall own_step es /\ node_steps es n = Some n' /\ draining n' = None /\
    posted (front n') = posted (front n) /\ pending (front n') = pending (front n).
Proof.
  destruct (draining n) as [batch|] eqn:Ed; [|by exists [], n].
  exists [NEnd (Ok tt)]. cbn. unfold end_drain. rewrite Ed. eexists. split; [constructor; [by right; right|done]|]. done.
Qed.

Lemma node_quiesces n :
  node_inv n -> exists es n', Forall own_step es /\ node_steps es n = Some n' /\
    posted (front n') = posted (front n) /\ concat (drained n') = posted (front n).
Proof.
  intros Hn. destruct (flush_front n Hn) as (es1&n1&O1&S1&P1&_&Q1).
  destruct (finish_drain n1) as (es2&n2&O2&S2&D2&Q2&P2). destruct (drain_all _ n2 eq_refl D2) as (es3&n3&O3&S3&E3&D3&Q3&P3).
  assert (node_steps (es1 ++ es2 ++ es3) n = Some n3) as Hs by by rewrite !node_steps_app, S1, node_steps_app, S2.
  exists (es1 ++ es2 ++ es3), n3. split.
  { apply Forall_app. split; [done|]. apply Forall_app. split; [done|]. eapply Forall_impl; [exact O3|]. cbn. intros e []; tauto. }
  split; [done|]. split; [by rewrite Q3, Q2|]. pose proof (node_inv_steps _ _ _ Hn Hs) as [M1 M2 M3 M4].
  pose proof (inv_posted _ M1) as Hp. rewrite P3, P2, P1, app_nil_r, M3, D3, E3 in Hp. cbn in Hp. rewrite app_nil_r in Hp.
  by rewrite <- Hp, Q3, Q2.
Qed.
End node_proofs.

(** ** What clients rely on *)

(** C10: whatever is posted and however its flushes interleave with the posts, a
    batcher hands every operation to [flush_ops] exactly once, in the order of the
    posts, in batches that are never empty; and from every state, without a further
    post, at most three steps of its own leave nothing behind. *)
Theorem batcher_flushes_everything {Op V} (es : list (event Op V)) (b : batcher Op V) :
  steps es new_batcher = Some b ->
  (posted b = concat (flushed b) ++ pending b /\ Forall (fun batch => batch <> []) (flushed b)) /\
  exists es' b', Forall (fun e => e = Begin \/ e = End (Ok tt)) es' /\ (length es' <= 3)%nat /\
    steps es' b = Some b' /\ running b' = None /\ concat (flushed b') = posted b.
Proof.
  intros Hs. pose proof (inv_steps _ _ _ inv_new Hs) as Hi. split; [split; apply Hi|].
  destruct (flush_all b Hi) as (es'&b'&H1&H2&H3&H4&H5&H6). exists es', b'. do 4 (split; [done|]).
  pose proof (inv_posted _ (inv_steps _ _ _ Hi H3)) as Hp. rewrite H4, app_nil_r in Hp. by rewrite <- Hp.
Qed.

(** C31: in a node that runs its batches in the background the operations are worked
    off in the order of their posts, batch by batch; every future of a batch that is
    through is settled or was cancelled by its client, whether [run_ops] settled it,
    left it or raised; and from every state the node can work off all that was
    posted without a further post. *)
Theorem background_node_settles {Op V} (es : list (node_event Op V)) (n : node Op V) :
  node_steps es new_node = Some n ->
  posted (front n) = concat (drained n ++ option_list (draining n) ++ queued n) ++ pending (front n) /\
  (forall f, Some f ∈ (concat (drained n)).*2 -> is_Some (store (front n) !! f)) /\
  exists es' n', Forall (fun e => e = NFlush \/ e = NBegin \/ e = NEnd (Ok tt)) es' /\ node_steps es' n = Some n' /\
    posted (front n') = posted (front n) /\ concat (drained n') = posted (front n).
Proof.
  intros Hs. pose proof (node_inv_steps _ _ _ node_inv_new Hs) as Hn. split; [|split; [apply Hn|by apply node_quiesces]].
  rewrite (inv_posted _ (ninv_front _ Hn)). by rewrite (ninv_order _ Hn).
Qed.

(** Two operations posted before the flush begins, one while it runs. *)
Definition sample_posts : list (event Z Z) :=
  [Post 1; Post 2; Begin; Post 3; Settle 0 (Ok 10); End (Err ValueError)].

Lemma batcher_flushes_everything_witness :
  exists b : batcher Z Z, steps sample_posts new_batcher = Some b /\
    posted b = concat (flushed b) ++ pending b /\ flushed b = [[(1, Some 0%nat); (2, Some 1%nat)]] /\
    store b !! 1%nat = Some (Done (Err ValueError)).
Proof.
  destruct (steps sample_posts new_batcher) as [b|] eqn:Eb; [|vm_compute in Eb; discriminate].
  destruct (batcher_flushes_everything sample_posts b Eb) as [[H _] _].
  exists b. split; [done|]. split; [done|]. vm_compute in Eb. injection Eb as <-. by vm_compute.
Defined.

Definition sample_node_events : list (node_event Z Z) :=
  [NPost 1; NPost 2; NFlush; NPost 3; NBegin; NSettle 0 (Ok 10); NEnd (Ok tt)].

Lemma background_node_settles_witness :
  exists n : node Z Z, node_steps sample_node_events new_node = Some n /\
    posted (front n) = concat (drained n ++ option_list (draining n) ++ queued n) ++ pending (front n) /\
    store (front n) !! 0%nat = Some (Done (Ok 10)) /\ store (front n) !! 1%nat = Some (Done (Err RuntimeError)).
Proof.
  destruct (node_steps sample_node_events new_node) as [n|] eqn:En; [|vm_compute in En; discriminate].
  destruct (background_node_settles sample_node_events n En) as (H&_).
  exists n. split; [done|]. split; [done|]. vm_compute in En. injection En as <-. by vm_compute.
Defined.

(** A cancelled source leaves the target of [chain_future] pending: the callback
    raises before it settles it. *)
Example cancelled_source_strands_target :
  chain_done (V := Z) (W := Z) Ok Cancelled (Some 0%nat) ∅ = Err CancelledError.
Proof. done. Qed.
