(* ===== verification/SpiFlash.v ===== *)
(** * SPI NOR flash (src/acrobe/component/spi_flash.py)

    The driver of a serial flash: reads, page programs and erases as commands on an
    SPI target, polling of the busy flag, identification through the JEDEC number
    and the SFDP tables, and the batches of blob accesses a node runs in the
    background ([Engine]).

    The chip is not part of the repository: [SpiTarget] is the transaction the
    driver calls, [NorFlash] states what JEDEC's command set says of it. *)

From S2P Require Import Prelude Memory Engine.

(** ** The chip, as the driver calls it *)

(** [target.transaction]: the bytes sent, the number of bytes read. *)
Class SpiTarget (C : Type) : Type := transact : C -> list Z -> Z -> C * result (list Z).

(** A coroutine of the driver: it works on the chip and returns or raises. *)
Definition io (C A : Type) : Type := C -> C * result A.

Section io.
Context {C : Type}.

Definition ret {A} (a : A) : io C A := fun c => (c, Ok a).
Definition raise {A} (e : exn) : io C A := fun c => (c, Err e).
Definition lift {A} (r : result A) : io C A := fun c => (c, r).
Definition bind {A B} (x : io C A) (k : A -> io C B) : io C B :=
  fun c => match x c with (c, Ok a) => k a c | (c, Err e) => (c, Err e) end.
Definition attempt {A B} (x : io C A) (k : result A -> io C B) : io C B :=
  fun c => let '(c, r) := x c in k r c.
End io.

Declare Scope io_scope.
Delimit Scope io_scope with io.
Notation "x <- a ; k" := (bind a (fun x => k)) (at level 100, a at next level, right associativity) : io_scope.
Notation "a ;; k" := (bind a (fun _ => k)) (at level 100, right associativity) : io_scope.
Open Scope io_scope.

(** ** Commands *)

Definition CMD_READ_JEDEC_ID : Z := 0x9f.
Definition CMD_FAST_READ : Z := 0x0b.
Definition CMD_PAGE_PROGRAM : Z := 0x02.
Definition CMD_CHIP_ERASE : Z := 0xc7.
Definition CMD_WRITE_ENABLE : Z := 0x06.
Definition CMD_WRITE_DISABLE : Z := 0x04.
Definition CMD_READ_STATUS : Z := 0x05.
Definition CMD_RESET_ENABLE : Z := 0x66.
Definition CMD_RESET : Z := 0x99.
Definition CMD_SFDP_READ : Z := 0x5a.
Definition STATUS_WIP : Z := 1.
Definition SECTOR_ERASE_4K : Z := 0x20.
Definition BLOCK_ERASE_64K : Z := 0xd8.
Definition READ_CHUNK : Z := 1024.
Definition ADDRESS_SIZE : Z := 3.

(** What [detect] finds out: the erase types are pairs of size and opcode. *)
Record flash := mkFlash { jedec_id : Z; total_size : Z; page_size : Z; sector_info : list (Z * Z) }.

(** [__init__] *)
Definition new_flash : flash := mkFlash 0 0 256 [].

Section driver.
Context {C : Type} `{SpiTarget C}.

Definition command (cmd : Z) (addr wdata : list Z) (rsize : Z) (dummy : nat) : io C (list Z) := fun c =>
  let '(c, r) := transact c (cmd :: addr ++ replicate dummy 0 ++ wdata) rsize in
  (c, if rsize =? 0 then _ ← r; Ok [] else r).

Definition addr_bytes (addr : Z) : result (list Z) := to_bytes_be ADDRESS_SIZE addr.

Definition read_status : io C Z :=
  data <- command CMD_READ_STATUS [] [] 1 0; lift (index data 0).

(** [__wait_ready]; the fuel bounds the polls. *)
Fixpoint wait_ready (polls : nat) : io C unit :=
  match polls with
  | O => raise OutOfFuel
  | S polls =>
      status <- read_status;
      if Z.land status STATUS_WIP =? 0 then ret tt else wait_ready polls
  end.

Definition write_enable : io C unit := command CMD_WRITE_ENABLE [] [] 0 0;; ret tt.
Definition write_disable : io C unit := command CMD_WRITE_DISABLE [] [] 0 0;; ret tt.

Definition erase_sector (polls : nat) (addr erase_cmd : Z) : io C unit :=
  write_enable;;
  a <- lift (addr_bytes addr);
  command erase_cmd a [] 0 0;;
  wait_ready polls.

Definition erase_chip (polls : nat) : io C unit :=
  write_enable;;
  command CMD_CHIP_ERASE [] [] 0 0;;
  wait_ready polls.

(** [sorted(self.sector_info, reverse=True)] *)
Definition largest_first (f : flash) : list (Z * Z) := sort_by (fun s => - (s.1 * 256 + s.2)) (sector_info f).

(** The erase type for what is left of a region. *)
Definition choose_sector (f : flash) (addr size : Z) : result (Z * Z) :=
  match list_find (fun s => addr mod s.1 = 0 /\ s.1 <= size) (largest_first f) with
  | Some (_, s) => Ok s
  | None =>
      s ← index (sector_info f) 0;
      _ ← guard_or (addr mod s.1 =? 0) AssertionError;
      Ok s
  end.

(** [erase]; one unit of fuel per sector. *)
Fixpoint erase (fuel polls : nat) (f : flash) (addr size : Z) : io C unit :=
  match fuel with
  | O => raise OutOfFuel
  | S fuel =>
      if size <=? 0 then ret tt
      else
        s <- lift (choose_sector f addr size);
        erase_sector polls addr s.2;;
        erase fuel polls f (addr + s.1) (size - s.1)
  end.

Definition page_program (polls : nat) (f : flash) (addr : Z) (data : list Z) : io C unit :=
  lift (guard_or (zlen data <=? page_size f) AssertionError);;
  write_enable;;
  a <- lift (addr_bytes addr);
  command CMD_PAGE_PROGRAM a data 0 0;;
  wait_ready polls.

(** [__program_pages]: the data from its offset on; one unit of fuel per page. *)
Fixpoint program_pages (fuel polls : nat) (f : flash) (addr : Z) (data : list Z) : io C unit :=
  match fuel with
  | O => raise OutOfFuel
  | S fuel =>
      if bool_decide (data = []) then ret tt
      else
        let page_offset := addr mod page_size f in
        let chunk_size := Z.min (page_size f - page_offset) (zlen data) in
        page_program polls f addr (slice_to data chunk_size);;
        program_pages fuel polls f (addr + chunk_size) (slice_from data chunk_size)
  end.

(** [__read_chunks] *)
Fixpoint read_chunks (fuel : nat) (addr size : Z) : io C (list Z) :=
  match fuel with
  | O => raise OutOfFuel
  | S fuel =>
      if size <=? 0 then ret []
      else
        let chunk := Z.min size READ_CHUNK in
        a <- lift (addr_bytes addr);
        d <- command CMD_FAST_READ a [] chunk 1;
        rest <- read_chunks fuel (addr + chunk) (size - chunk);
        ret (d ++ rest)
  end.

(** One operation of [run_ops]. *)
Definition run_op (polls : nat) (f : flash) (o : mem_op) : io C value :=
  match o with
  | ReadBlob addr size => d <- read_chunks (S (Z.to_nat size)) addr size; ret (VBytes d)
  | WriteBlob addr data => program_pages (S (length data)) polls f addr data;; ret VNone
  | RegOp _ => raise TypeError
  end.

(** [run_ops]: the store of futures afterwards, and how it ends; settling a future
    that was cancelled meanwhile raises. *)
Fixpoint run_ops (polls : nat) (f : flash) (batch : list (mem_op * option nat)) (fs : futures value) (c : C)
    : C * futures value * result unit :=
  match batch with
  | [] => (c, fs, Ok tt)
  | (o, fut) :: batch =>
      let '(c, r) := run_op polls f o c in
      match (match fut with Some x => settle x r fs | None => Ok fs end) with
      | Ok fs => run_ops polls f batch fs c
      | Err e => (c, fs, Err e)
      end
  end.

(** [BackgroundLowering.__drain] *)
Definition drain (polls : nat) (f : flash) (batch : list (mem_op * option nat)) (fs : futures value) (c : C)
    : C * futures value :=
  let '(c, fs, r) := run_ops polls f batch fs c in
  (c, reject (match r with Err e => e | Ok _ => RuntimeError end) batch fs).

(** The clients' calls, which a node passes to [run_ops] one by one. *)
Definition read (addr size : Z) : io C (list Z) := read_chunks (S (Z.to_nat size)) addr size.
Definition program (polls : nat) (f : flash) (addr : Z) (data : list Z) : io C unit :=
  program_pages (S (length data)) polls f addr data.
Definition write (polls : nat) (f : flash) (offset : Z) (data : list Z) : io C unit :=
  lift (guard_or (negb ((offset <? 0) || (total_size f <? offset + zlen data))) ValueError);;
  program polls f offset data.
Definition verify (addr : Z) (data : list Z) : io C bool :=
  readback <- read addr (zlen data); ret (bool_decide (readback = data)).

(** ** Identification *)

Definition read_jedec_id : io C Z := data <- command CMD_READ_JEDEC_ID [] [] 3 0; ret (from_be data).

Definition sfdp_read (addr size : Z) : io C (list Z) :=
  a <- lift (to_bytes_be 3 addr); command CMD_SFDP_READ a [] size 1.

(** [struct.unpack_from("<L", data, 4)]; the erase types, from the i-th on. *)
Definition unpack_long (data : list Z) (offset : Z) : result Z :=
  if zlen data <? offset + 4 then Err StructError else Ok (from_le (slice data offset (offset + 4))).

Fixpoint erase_types (n : nat) (i : Z) (data : list Z) : list (Z * Z) :=
  match n with
  | O => []
  | S n =>
      let off := 28 + 2 * i in
      match data !! Z.to_nat off, data !! Z.to_nat (off + 1) with
      | Some log2_size, Some opcode =>
          (if (log2_size =? 0) || (opcode =? 0) then [] else [(Z.shiftl 1 log2_size, opcode)]) ++ erase_types n (i + 1) data
      | _, _ => []
      end
  end.

(** [1 << n] with a negative count raises. *)
Definition lshift_1 (n : Z) : result Z := if n <? 0 then Err ValueError else Ok (Z.shiftl 1 n).

Definition sfdp_parse_basic (data : list Z) (f : flash) : result flash :=
  density ← unpack_long data 4;
  size ← (if Z.land density 0x80000000 =? 0 then Ok ((density + 1) / 8) else lshift_1 (Z.land density 0x7fffffff - 3));
  let page_bits := match data !! 0x28%nat with Some b => Z.land (Z.shiftr b 4) 0x0f | None => 0 end in
  let page := if (0x29 <? zlen data) && negb (page_bits =? 0) then Z.shiftl 1 page_bits else page_size f in
  Ok (mkFlash (jedec_id f) size page (erase_types 4 0 data)).

(** The parameter header of the basic table among those read: its pointer and
    length. *)
Fixpoint basic_header (n : nat) (i : Z) (ph_data : list Z) : result (option (Z * Z)) :=
  match n with
  | O => Ok None
  | S n =>
      let ph := slice ph_data (i * 8) ((i + 1) * 8) in
      jid_lo ← index ph 0; _ ← index ph 1; _ ← index ph 2; length ← index ph 3;
      let ptp := from_le (slice ph 4 8) in
      let jid := Z.lor jid_lo (Z.land (Z.shiftr ptp 16) 0xff00) in
      if jid =? 0xff00 then Ok (Some (Z.land ptp 0xffffff, length)) else basic_header n (i + 1) ph_data
  end.

Definition SFDP : list Z := [0x53; 0x46; 0x44; 0x50].

(** [__sfdp_detect] *)
Definition sfdp_detect (f : flash) : io C flash :=
  header <- sfdp_read 0 8;
  if bool_decide (slice_to header 4 = SFDP) then
    _ <- lift (index header 4); _ <- lift (index header 5);
    nph <- lift (index header 6);
    let nph := nph + 1 in
    ph_data <- sfdp_read 8 (nph * 8);
    h <- lift (basic_header (Z.to_nat nph) 0 ph_data);
    match h with
    | Some (ptp, length) => bfp <- sfdp_read ptp (length * 4); lift (sfdp_parse_basic bfp f)
    | None => ret f
    end
  else ret f.

(** [detect] *)
Definition default_sectors : list (Z * Z) := [(4096, SECTOR_ERASE_4K); (65536, BLOCK_ERASE_64K)].

Definition with_jedec (id : Z) (f : flash) : flash :=
  let capacity := Z.land id 0xff in
  mkFlash id (if 0x10 <=? capacity then Z.shiftl 1 capacity else total_size f) (page_size f) (sector_info f).

Definition with_sectors (l : list (Z * Z)) (f : flash) : flash := mkFlash (jedec_id f) (total_size f) (page_size f) l.

Definition detect (f : flash) : io C flash :=
  command CMD_RESET_ENABLE [] [] 0 0;;
  command CMD_RESET [] [] 0 0;;
  id <- read_jedec_id;
  if (id =? 0) || (id =? 0xffffff) then raise RuntimeError
  else
    let f := with_jedec id f in
    attempt (sfdp_detect f) (fun r =>
      match r with
      | Ok f => ret f
      | Err _ => ret (match sector_info f with [] => with_sectors default_sectors f | _ => f end)
      end).

End driver.

(** ** What JEDEC says of a chip *)

(** Programming clears bits; erasing sets them. *)
Definition nor_write (m : memory) (a : Z) (d : list Z) : memory :=
  write_bytes m a (zip_with Z.land (read_bytes m a (zlen d)) d).
Definition fill (m : memory) (a n : Z) : memory := write_bytes m a (replicate (Z.to_nat n) 0xff).

(** A chip of [size] bytes in pages of [page] that knows the erase types
    [sectors]: [busy] counts the status reads until an operation is through, never
    more than [limit]. *)
Class NorFlash (C : Type) `{SpiTarget C} (size page : Z) (sectors : list (Z * Z)) (limit : nat) : Type := {
  cells : C -> memory;
  busy : C -> nat;
  wel : C -> bool;
  nor_busy : forall c, (busy c <= limit)%nat;
  nor_status : forall c, exists c' s, transact c [CMD_READ_STATUS] 1 = (c', Ok [s]) /\
    Z.land s STATUS_WIP = (if (busy c =? 0)%nat then 0 else 1) /\ cells c' = cells c /\ busy c' = pred (busy c);
  nor_enable : forall c, busy c = O -> exists c', transact c [CMD_WRITE_ENABLE] 0 = (c', Ok []) /\
    cells c' = cells c /\ busy c' = O /\ wel c' = true;
  nor_read : forall c a n, busy c = O -> 0 <= a < 2 ^ 24 -> 0 < n -> a + n <= size -> exists c',
    transact c (CMD_FAST_READ :: be_bytes 3 a ++ [0]) n = (c', Ok (read_bytes (cells c) a n)) /\
    cells c' = cells c /\ busy c' = O;
  nor_program : forall c a d, busy c = O -> wel c = true -> 0 <= a < 2 ^ 24 -> bytes_ok d -> d <> [] ->
    a + zlen d <= size -> a mod page + zlen d <= page -> exists c',
    transact c (CMD_PAGE_PROGRAM :: be_bytes 3 a ++ d) 0 = (c', Ok []) /\ cells c' = nor_write (cells c) a d;
  nor_erase : forall c a s op, busy c = O -> wel c = true -> (s, op) ∈ sectors -> 0 <= a < 2 ^ 24 -> a mod s = 0 ->
    a + s <= size -> exists c', transact c (op :: be_bytes 3 a) 0 = (c', Ok []) /\ cells c' = fill (cells c) a s;
  nor_erase_chip : forall c, busy c = O -> wel c = true -> exists c',
    transact c [CMD_CHIP_ERASE] 0 = (c', Ok []) /\ cells c' = fill (cells c) 0 size;
}.

(** ** Memory *)

Lemma length_nor_data m a d : length (zip_with Z.land (read_bytes m a (zlen d)) d) = length d.
Proof. rewrite length_zip_with, length_read_bytes. lia. Qed.

Lemma nor_write_app m a d1 d2 : nor_write m a (d1 ++ d2) = nor_write (nor_write m a d1) (a + zlen d1) d2.
Proof.
  unfold nor_write at 1. rewrite length_app, Nat2Z.inj_add, read_bytes_app by lia.
  rewrite zip_with_app by (rewrite length_read_bytes; lia). rewrite write_bytes_app.
  rewrite length_nor_data. unfold nor_write at 1. f_equal. unfold nor_write.
  rewrite read_write_other by (rewrite length_nor_data; lia). done.
Qed.

Lemma fill_app m a x y : 0 <= x -> 0 <= y -> fill m a (x + y) = fill (fill m a x) (a + x) y.
Proof.
  intros Hx Hy. unfold fill. rewrite Z2Nat.inj_add, replicate_add, write_bytes_app by done.
  rewrite length_replicate, Z2Nat.id by done. done.
Qed.

Lemma addr_bytes_Ok a : 0 <= a < 2 ^ 24 -> addr_bytes a = Ok (be_bytes 3 a).
Proof. intros Ha. unfold addr_bytes, to_bytes_be, ADDRESS_SIZE. by rewrite to_bytes_le_Ok by done. Qed.

Lemma addr_bytes_high a : 2 ^ 24 <= a -> addr_bytes a = Err OverflowError.
Proof.
  intros Ha. unfold addr_bytes, to_bytes_be, to_bytes_le, ADDRESS_SIZE. change (3 <? 0) with false. cbv iota.
  replace ((0 <=? a) && (a <? 256 ^ 3)) with false; [done|]. change (256 ^ 3) with (2 ^ 24). lia.
Qed.

Section refinement.
Context {C : Type} `{SpiTarget C} (size page : Z) (sectors : list (Z * Z)) (limit : nat) `{!NorFlash C size page sectors limit}.
Context (polls : nat) (Hpolls : (limit < polls)%nat) (Hpage : 0 < page).

(** The chip is ready and holds [m]. *)
Definition holds (c : C) (m : memory) : Prop := busy c = O /\ cells c = m.

(** A coroutine that ends with [r] on a ready chip that held [m] and leaves
    [m']. *)
Definition does {A} (x : io C A) (m : memory) (r : result A) (m' : memory) : Prop :=
  forall c, holds c m -> exists c', x c = (c', r) /\ holds c' m'.

Lemma does_bind {A B} (x : io C A) (k : A -> io C B) m a m1 r m2 :
  does x m (Ok a) m1 -> does (k a) m1 r m2 -> does (bind x k) m r m2.
Proof.
  intros Hx Hk c Hc. destruct (Hx c Hc) as (c1&E1&H1). destruct (Hk c1 H1) as (c2&E2&H2).
  exists c2. unfold bind. by rewrite E1.
Qed.

Lemma does_ret {A} (a : A) m : does (ret a) m (Ok a) m.
Proof. intros c Hc. by exists c. Qed.

Lemma does_lift {A} (r : result A) m : does (lift r) m r m.
Proof. intros c Hc. by exists c. Qed.

Lemma does_lift_bind {A B} (a : A) (k : A -> io C B) m r m' : does (k a) m r m' -> does (bind (lift (Ok a)) k) m r m'.
Proof. intros Hk. eapply does_bind; [apply does_lift|done]. Qed.

Lemma wait_ready_done n : forall c, (busy c < n)%nat -> exists c', wait_ready n c = (c', Ok tt) /\ holds c' (cells c).
Proof.
  induction n as [|n IH]; intros c Hn; [lia|]. cbn [wait_ready].
  destruct (nor_status c) as (c1&s&E1&E2&E3&E4).
  assert (read_status c = (c1, Ok s)) as Es by (unfold read_status, bind, command; cbn [app replicate]; by rewrite E1).
  unfold bind. rewrite Es, E2. destruct (busy c =? 0)%nat eqn:Eb; cbn.
  - exists c1. split; [done|]. split; [|done]. apply Nat.eqb_eq in Eb. by rewrite E4, Eb.
  - apply Nat.eqb_neq in Eb. destruct (IH c1 ltac:(lia)) as (c'&E5&H5). exists c'. by rewrite <- E3.
Qed.

(** A command that changes the chip, after the write enable and before the wait. *)
Lemma does_enabled {A} (k : io C A) m r m' :
  (forall c, busy c = O -> wel c = true -> cells c = m -> exists c', k c = (c', r) /\ holds c' m') ->
  does (write_enable;; k) m r m'.
Proof.
  intros Hk c [Hb Hm]. destruct (nor_enable c Hb) as (c1&E1&E2&E3&E4).
  destruct (Hk c1 E3 E4 ltac:(congruence)) as (c2&E5&E6). exists c2. split; [|done].
  unfold write_enable, bind, command. cbn [app replicate]. rewrite E1. exact E5.
Qed.

Lemma does_modify cmd addr wdata c m' :
  (exists c', transact c (cmd :: addr ++ wdata) 0 = (c', Ok []) /\ cells c' = m') ->
  exists c', (command cmd addr wdata 0 0;; wait_ready polls) c = (c', Ok tt) /\ holds c' m'.
Proof.
  intros (c2&E5&E6). pose proof (nor_busy c2) as Hl. destruct (wait_ready_done polls c2 ltac:(lia)) as (c3&E7&H7).
  exists c3. unfold bind, command. cbn [app replicate]. rewrite E5. cbn. by rewrite E7, <- E6.
Qed.

Lemma page_program_does f m a d :
  page_size f = page -> 0 <= a < 2 ^ 24 -> bytes_ok d -> d <> [] -> a + zlen d <= size -> a mod page + zlen d <= page ->
  does (page_program polls f a d) m (Ok tt) (nor_write m a d).
Proof.
  intros Hf Ha Hd Hn Hs Hp. unfold page_program. pose proof (Z.mod_pos_bound a page Hpage).
  replace (zlen d <=? page_size f) with true by lia. apply does_lift_bind, does_enabled. intros c Hb Hw Hm.
  rewrite addr_bytes_Ok by done. apply does_modify. rewrite <- Hm. by apply nor_program.
Qed.

Lemma program_pages_does f fuel : forall m a d,
  page_size f = page -> 0 <= a -> bytes_ok d -> a + zlen d <= Z.min size (2 ^ 24) -> (length d < fuel)%nat ->
  does (program_pages fuel polls f a d) m (Ok tt) (nor_write m a d).
Proof.
  induction fuel as [|fuel IH]; intros m a d Hf Ha Hd Hs Hl; [lia|]. cbn [program_pages].
  destruct (bool_decide (d = [])) eqn:Hn.
  { apply bool_decide_eq_true in Hn as ->. apply does_ret. }
  apply bool_decide_eq_false in Hn. assert (0 < zlen d) as Hpos by (destruct d; [done|cbn; lia]).
  pose proof (Z.mod_pos_bound a page Hpage). rewrite Hf. set (k := Z.min (page - a mod page) (zlen d)) in *.
  rewrite slice_to_nonneg, slice_from_nonneg by lia.
  assert (length (take (Z.to_nat k) d) = Z.to_nat k) as Ht by (rewrite length_take; lia).
  rewrite <- (take_drop (Z.to_nat k) d) at 2. rewrite nor_write_app, Ht, Z2Nat.id by lia.
  eapply does_bind; [apply page_program_does|apply IH]; rewrite ?Ht, ?length_drop; try done; try lia.
  - by apply Forall_take.
  - intros E. apply (f_equal length) in E. rewrite Ht in E. cbn in E. lia.
  - by apply Forall_drop.
Qed.

Lemma read_chunks_does fuel : forall m a n,
  0 <= a -> a + n <= Z.min size (2 ^ 24) -> n < Z.of_nat fuel -> 1 <= Z.of_nat fuel ->
  does (read_chunks fuel a n) m (Ok (read_bytes m a n)) m.
Proof.
  induction fuel as [|fuel IH]; intros m a n Ha Hs Hf Hf1; [lia|]. cbn [read_chunks].
  destruct (n <=? 0) eqn:Hn.
  { unfold read_bytes. rewrite seqZ_nil by lia. apply does_ret. }
  apply Z.leb_gt in Hn. set (k := Z.min n READ_CHUNK). assert (0 < k <= n) as Hk by (unfold k, READ_CHUNK; lia).
  rewrite addr_bytes_Ok by lia. apply does_lift_bind.
  eapply (does_bind _ _ _ (read_bytes m a k) m).
  - intros c [Hb Hm]. destruct (nor_read c a k Hb ltac:(lia) ltac:(lia) ltac:(lia)) as (c'&E1&E2&E3).
    exists c'. unfold command. cbn [replicate]. rewrite app_nil_r, E1, Hm. replace (k =? 0) with false by lia.
    split; [done|]. split; [done|]. congruence.
  - eapply does_bind; [apply IH; lia|]. 
    assert (read_bytes m a n = read_bytes m a k ++ read_bytes m (a + k) (n - k)) as ->
      by (rewrite <- read_bytes_app by lia; f_equal; lia). apply does_ret.
Qed.

(** *** Erasing *)

(** The driver's erase types are the chip's, and the first of them divides the
    others. *)
Definition sectors_ok (f : flash) (unit : Z) : Prop :=
  0 < unit /\ (exists op, sector_info f !! 0%nat = Some (unit, op)) /\
  forall s, s ∈ sector_info f -> s ∈ sectors /\ 0 < s.1 /\ s.1 mod unit = 0.

Lemma choose_sector_Ok f unit a n :
  sectors_ok f unit -> a mod unit = 0 -> n mod unit = 0 -> 0 < n ->
  exists s, choose_sector f a n = Ok s /\ s ∈ sector_info f /\ a mod s.1 = 0 /\ s.1 <= n.
Proof.
  intros (Hu&(op&Hop)&Hs) Ha Hn Hpos. unfold choose_sector.
  assert (forall s, s ∈ largest_first f <-> s ∈ sector_info f) as Hin by (intros s; unfold largest_first; by rewrite sort_by_perm).
  destruct (list_find _ _) as [[i s]|] eqn:E.
  - apply list_find_Some in E as (E&[H1 H2]&_). exists s. split; [done|]. split; [|done]. apply Hin.
    by eapply list_elem_of_lookup_2.
  - apply list_find_None in E. rewrite Forall_forall in E.
    destruct (E (unit, op)); [apply Hin; by eapply list_elem_of_lookup_2|]. cbn. split; [done|].
    apply Z.divide_pos_le; [done|]. apply Z.mod_divide; [lia|done].
Qed.

Lemma erase_sector_does m a s :
  s ∈ sectors -> 0 <= a < 2 ^ 24 -> a mod s.1 = 0 -> a + s.1 <= size ->
  does (erase_sector polls a s.2) m (Ok tt) (fill m a s.1).
Proof.
  intros Hs Ha Hm Hsz. unfold erase_sector. apply does_enabled. intros c Hb Hw Hc. rewrite addr_bytes_Ok by done.
  apply does_modify. rewrite app_nil_r, <- Hc. destruct s as [s op]. by apply nor_erase.
Qed.

Lemma erase_does f unit fuel : forall m a n,
  sectors_ok f unit -> 0 <= a -> a mod unit = 0 -> n mod unit = 0 -> 0 <= n -> a + n <= Z.min size (2 ^ 24) ->
  n < Z.of_nat fuel -> does (erase fuel polls f a n) m (Ok tt) (fill m a n).
Proof.
  induction fuel as [|fuel IH]; intros m a n Hok Ha Hma Hmn Hn Hs Hf; [lia|]. cbn [erase].
  destruct (n <=? 0) eqn:E; [replace n with 0 by lia; apply does_ret|]. apply Z.leb_gt in E.
  destruct (choose_sector_Ok f unit a n Hok Hma Hmn E) as (s&->&Hin&Hms&Hle). apply does_lift_bind.
  pose proof Hok as (Hu&_&Hall). destruct (Hall s Hin) as (H1&H2&H3).
  eapply does_bind; [apply erase_sector_does; [done|lia|done|lia]|].
  replace (fill m a n) with (fill (fill m a s.1) (a + s.1) (n - s.1)) by (rewrite <- fill_app by lia; f_equal; lia).
  apply IH; try done; try lia.
  - by rewrite Zplus_mod, Hma, H3.
  - by rewrite Zminus_mod, Hmn, H3.
Qed.

Lemma erase_chip_does m : does (erase_chip polls) m (Ok tt) (fill m 0 size).
Proof.
  unfold erase_chip. apply does_enabled. intros c Hb Hw Hc. apply does_modify. cbn [app]. rewrite <- Hc. by apply nor_erase_chip.
Qed.

(** *** Batches *)

(** What an operation does to a flash, and what it is answered. *)
Definition nor_spec (m : memory) (o : mem_op) : memory * result value :=
  match o with
  | ReadBlob a n => if (2 ^ 24 <=? a) && (0 <? n) then (m, Err OverflowError) else (m, Ok (VBytes (read_bytes m a n)))
  | WriteBlob a d =>
      if (2 ^ 24 <=? a) && (0 <? zlen d) then (m, Err OverflowError) else (nor_write m a d, Ok VNone)
  | RegOp _ => (m, Err TypeError)
  end.

(** Inside the chip and below the reach of three address bytes, or wholly above
    it. *)
Definition window_ok (a n : Z) : Prop := 0 <= a /\ (a + n <= Z.min size (2 ^ 24) \/ 2 ^ 24 <= a).

Definition blob_ok (o : mem_op) : Prop :=
  match o with
  | ReadBlob a n => 0 <= n /\ window_ok a n
  | WriteBlob a d => bytes_ok d /\ window_ok a (zlen d)
  | RegOp _ => True
  end.

Lemma does_err {A B} e (k : A -> io C B) m : does (bind (lift (Err e)) k) m (Err e) m.
Proof. intros c Hc. by exists c. Qed.

Lemma does_bind_err {A B} (x : io C A) (k : A -> io C B) m e m' : does x m (Err e) m' -> does (bind x k) m (Err e) m'.
Proof. intros Hx c Hc. destruct (Hx c Hc) as (c'&E&Hc'). exists c'. unfold bind. by rewrite E. Qed.

Lemma high_program_does f m a d fuel :
  page_size f = page -> 2 ^ 24 <= a -> d <> [] -> does (program_pages (S fuel) polls f a d) m (Err OverflowError) m.
Proof.
  intros Hf Ha Hd. cbn [program_pages]. rewrite bool_decide_eq_false_2 by done. apply does_bind_err.
  unfold page_program. pose proof (Z.mod_pos_bound a page Hpage). rewrite Hf.
  set (k := Z.min (page - a mod page) (zlen d)). assert (0 <= k <= page) as Hk by lia. rewrite slice_to_nonneg, length_take by lia.
  clearbody k. rewrite (proj2 (Z.leb_le (Z.of_nat (Z.to_nat k `min` length d)%nat) page)) by lia. apply does_lift_bind, does_enabled. intros c Hb Hw Hm.
  rewrite addr_bytes_high by done. by exists c.
Qed.

Lemma run_op_does f m o :
  page_size f = page -> blob_ok o -> does (run_op polls f o) m (nor_spec m o).2 (nor_spec m o).1.
Proof.
  intros Hf Ho. destruct o as [rg|a n|a d]; cbn [run_op nor_spec blob_ok] in *.
  - intros c Hc. by exists c.
  - destruct Ho as (Hn&Ha&Hw). destruct ((2 ^ 24 <=? a) && (0 <? n)) eqn:E; cbn [fst snd].
    + apply does_bind_err. cbn [read_chunks]. replace (n <=? 0) with false by lia. rewrite addr_bytes_high by lia. apply does_err.
    + destruct (decide (n = 0)) as [->|Hn0]; [cbn; apply does_ret|].
      eapply does_bind; [apply read_chunks_does; lia|apply does_ret].
  - destruct Ho as (Hd&Ha&Hw). destruct ((2 ^ 24 <=? a) && (0 <? zlen d)) eqn:E; cbn [fst snd].
    + apply does_bind_err, high_program_does; [done|lia|]. intros ->. by rewrite andb_false_r in E.
    + destruct (decide (d = [])) as [->|Hd0]; [cbn; apply does_ret|].
      assert (0 < zlen d) by (destruct d; [done|cbn; lia]).
      eapply does_bind; [apply program_pages_does; try done; lia|apply does_ret].
Qed.

(** The operations of a batch one by one, and the store of futures. *)
Fixpoint nor_spec_all (m : memory) (batch : list (mem_op * option nat)) (fs : futures value) : memory * futures value :=
  match batch with
  | [] => (m, fs)
  | (o, fut) :: batch =>
      let '(m, r) := nor_spec m o in
      nor_spec_all m batch (match fut with Some x => <[x := Done r]> fs | None => fs end)
  end.

(** The futures of the batch are distinct and pending. *)
Definition awaiting (batch : list (mem_op * option nat)) (fs : futures value) : Prop :=
  NoDup (omap snd batch) /\ forall x, x ∈ omap snd batch -> fs !! x = None.

Lemma run_ops_does f batch : forall m fs c,
  page_size f = page -> Forall (fun x => blob_ok x.1) batch -> awaiting batch fs -> holds c m ->
  exists c', run_ops polls f batch fs c = (c', (nor_spec_all m batch fs).2, Ok tt) /\ holds c' (nor_spec_all m batch fs).1.
Proof.
  induction batch as [|[o fut] batch IH]; intros m fs c Hf Hok Haw Hc; cbn [run_ops nor_spec_all]; [by exists c|].
  apply Forall_cons in Hok as [Ho Hok]. cbn in Ho. pose proof (run_op_does f m o Hf Ho) as Hop.
  destruct (nor_spec m o) as [m1 r] eqn:Es. cbn [fst snd] in Hop.
  assert (exists fs1, (match fut with Some x => settle x r fs | None => Ok fs end) = Ok fs1 /\
    fs1 = (match fut with Some x => <[x := Done r]> fs | None => fs end) /\ awaiting batch fs1) as (fs1&E1&<-&Haw1).
  { destruct Haw as [Hnd Hp]. destruct fut as [x|]; cbn in Hnd, Hp; [|by exists fs].
    apply NoDup_cons in Hnd as [Hx Hnd]. eexists. split; [|split; [done|split; [done|]]].
    - unfold settle, is_done. rewrite bool_decide_eq_false_2; [done|]. rewrite Hp by set_solver. by intros [].
    - intros y Hy. rewrite lookup_insert_ne by (intros ->; done). apply Hp. set_solver. }
  destruct (Hop c Hc) as (c1&Ec&Hc1). rewrite Ec, E1. by apply IH.
Qed.

Lemma spec_settles batch : forall m fs x,
  x ∈ omap snd batch \/ is_Some (fs !! x) -> is_Some ((nor_spec_all m batch fs).2 !! x).
Proof.
  induction batch as [|[o fut] batch IH]; intros m fs x Hx; cbn [nor_spec_all]; [set_solver|].
  destruct (nor_spec m o) as [m1 r]. apply IH. cbn in Hx. destruct fut as [y|]; [|done]. cbn in Hx.
  destruct (decide (x = y)) as [->|Hn]; [right; by rewrite lookup_insert_eq|]. rewrite lookup_insert_ne by done. set_solver.
Qed.

(** Nothing is left to reject. *)
Lemma reject_settled {Op W} e (l : list (Op * option nat)) (fs : futures W) :
  (forall x, x ∈ omap snd l -> is_Some (fs !! x)) -> reject e l fs = fs.
Proof.
  revert fs. induction l as [|[o g] l IH]; intros fs Hl; cbn; [done|]. destruct g as [g|]; cbn in Hl; [|by apply IH].
  unfold is_done. rewrite bool_decide_eq_true_2 by (apply Hl; set_solver). apply IH. set_solver.
Qed.

Lemma drain_does f batch m fs c :
  page_size f = page -> Forall (fun x => blob_ok x.1) batch -> awaiting batch fs -> holds c m ->
  exists c', drain polls f batch fs c = (c', (nor_spec_all m batch fs).2) /\ holds c' (nor_spec_all m batch fs).1.
Proof.
  intros Hf Hok Haw Hc. destruct (run_ops_does f batch m fs c Hf Hok Haw Hc) as (c'&E&H'). exists c'. split; [|done].
  unfold drain. rewrite E, reject_settled; [done|]. intros x Hx. apply spec_settles. by left.
Qed.
End refinement.

(** ** What a client sees *)

(** C13: a batch of reads and programs of a ready chip, and of operations a flash
    has no use for, is worked off in order: every pending future is settled with
    the bytes the flash holds at that point, with [None] for a program, which clears
    the bits it should and no others, or with the exception of an operation that
    cannot be made; the chip is ready again. *)
Theorem spi_flash_serves_batches {C} `{SpiTarget C} size page sectors limit `{!NorFlash C size page sectors limit}
    polls f batch fs c m :
  (limit < polls)%nat -> 0 < page -> page_size f = page -> Forall (fun x => blob_ok size x.1) batch ->
  awaiting batch fs -> holds size page sectors limit c m ->
  exists c', drain polls f batch fs c = (c', (nor_spec_all m batch fs).2) /\
    holds size page sectors limit c' (nor_spec_all m batch fs).1.
Proof. intros Hp Hpg Hf Hok Haw Hc. by apply (drain_does size page sectors limit polls Hp Hpg f batch m fs c). Qed.

Lemma nor_write_blank m a d n b :
  bytes_ok d -> a <= b -> b + zlen d <= a + n -> nor_write (fill m a n) b d = write_bytes (fill m a n) b d.
Proof.
  intros Hd Hb Hn. unfold nor_write. f_equal.
  assert (read_bytes (fill m a n) b (zlen d) = replicate (length d) 0xff) as ->.
  { apply list_eq. intros i. destruct (decide (i < length d)%nat).
    - rewrite lookup_read_bytes, lookup_replicate_2 by lia. unfold fill.
      rewrite lookup_write_bytes, length_replicate, bool_decide_eq_true_2 by lia. f_equal. apply lookup_total_replicate_2. lia.
    - rewrite !lookup_ge_None_2; rewrite ?length_read_bytes, ?length_replicate; [done|lia..]. }
  clear Hn. induction Hd as [|x d Hx _ IH]; cbn; [done|]. rewrite IH. f_equal.
  change 255 with (Z.ones 8). rewrite Z.land_comm, Z.land_ones by lia. apply Z.mod_small. exact Hx.
Qed.

(** C21: erasing a region made of whole sectors, programming data anywhere inside it
    and verifying succeeds; the data is there, the rest of the region is blank, and
    nothing else of the flash has changed. *)
Theorem spi_flash_erase_program_verify {C} `{SpiTarget C} size page sectors limit `{!NorFlash C size page sectors limit}
    polls f unit a n b d c m :
  (limit < polls)%nat -> 0 < page -> page_size f = page -> sectors_ok sectors f unit ->
  0 <= a -> a mod unit = 0 -> n mod unit = 0 -> 0 <= n -> a + n <= Z.min size (2 ^ 24) ->
  bytes_ok d -> a <= b -> b + zlen d <= a + n -> holds size page sectors limit c m ->
  exists c', (erase (S (Z.to_nat n)) polls f a n;; program polls f b d;; verify b d) c = (c', Ok true) /\
    holds size page sectors limit c' (write_bytes (fill m a n) b d).
Proof.
  intros Hp Hpg Hf Hs Ha Hma Hmn Hn Hsz Hd Hb Hbn Hc.
  assert (does size page sectors limit (erase (S (Z.to_nat n)) polls f a n;; program polls f b d;; verify b d) m (Ok true)
    (write_bytes (fill m a n) b d)) as Hdoes; [|by apply Hdoes].
  eapply does_bind; [apply (erase_does size page sectors limit polls Hp f unit); try done; lia|].
  eapply does_bind; [apply (program_pages_does size page sectors limit polls Hp Hpg f); try done; lia|].
  rewrite nor_write_blank by done. unfold verify, read.
  eapply does_bind; [apply (read_chunks_does size page sectors limit polls Hp); lia|].
  rewrite read_write_bytes, bool_decide_eq_true_2 by done. apply does_ret.
Qed.

(** ** A chip *)

(** Sixty-four kilobytes; an operation is through after two status reads. *)
Record chip := mkChip { c_cells : memory; c_busy : nat; c_wel : bool }.

Definition sample_size : Z := 0x10000.
Definition sample_sectors : list (Z * Z) := [(4096, SECTOR_ERASE_4K); (65536, BLOCK_ERASE_64K)].

Definition changed (m : memory) : chip := mkChip m 2 false.

#[export] Instance chip_target : SpiTarget chip := fun c mosi n =>
  match mosi with
  | [5] => (mkChip (c_cells c) (pred (Nat.min 2 (c_busy c))) (c_wel c), Ok [if (c_busy c =? 0)%nat then 0 else 1])
  | [6] => (mkChip (c_cells c) (c_busy c) true, Ok [])
  | [0x9f] => (c, Ok [0xef; 0x40; 0x10])
  | [0xc7] => (changed (fill (c_cells c) 0 sample_size), Ok [])
  | 0x0b :: a2 :: a1 :: a0 :: _ => (c, Ok (read_bytes (c_cells c) (from_be [a2; a1; a0]) n))
  | 0x02 :: a2 :: a1 :: a0 :: d => (changed (nor_write (c_cells c) (from_be [a2; a1; a0]) d), Ok [])
  | [0x20; a2; a1; a0] => (changed (fill (c_cells c) (from_be [a2; a1; a0]) 4096), Ok [])
  | [0xd8; a2; a1; a0] => (changed (fill (c_cells c) (from_be [a2; a1; a0]) 65536), Ok [])
  | _ => (c, Ok (replicate (Z.to_nat n) 0xff))
  end.

Lemma be_bytes_3 a : 0 <= a < 2 ^ 24 -> exists a2 a1 a0, be_bytes 3 a = [a2; a1; a0] /\ from_be [a2; a1; a0] = a.
Proof.
  intros Ha. unfold be_bytes. destruct (le_bytes 3 a) as [|a0 [|a1 [|a2 [|]]]] eqn:E;
    try (apply (f_equal length) in E; rewrite length_le_bytes in E; discriminate).
  exists a2, a1, a0. split; [done|]. unfold from_be. change (reverse [a2; a1; a0]) with [a0; a1; a2].
  rewrite <- E, from_le_le_bytes. by apply Z.mod_small.
Qed.

#[export] Instance chip_nor : NorFlash chip sample_size 256 sample_sectors 2.
Proof.
  refine {| cells := c_cells; busy := fun c => Nat.min 2 (c_busy c); wel := c_wel |}.
  - intros c. lia.
  - intros c. eexists _, _. split; [done|]. cbn. destruct (c_busy c) as [|[|[|]]]; cbn; done.
  - intros c Hb. eexists. split; [done|]. done.
  - intros c a n Hb Ha Hn Hs. destruct (be_bytes_3 a Ha) as (a2&a1&a0&E&Ev). rewrite E. eexists. split; [|by split].
    rewrite <- Ev. reflexivity.
  - intros c a d Hb Hw Ha Hd Hn Hs Hp. destruct (be_bytes_3 a Ha) as (a2&a1&a0&E&Ev). rewrite E. eexists.
    split; [reflexivity|]. rewrite <- Ev. reflexivity.
  - intros c a s op Hb Hw Hin Ha Hm Hs. destruct (be_bytes_3 a Ha) as (a2&a1&a0&E&Ev). rewrite E.
    unfold sample_sectors in Hin. apply elem_of_cons in Hin as [[= -> ->]|Hin]; [|apply list_elem_of_singleton in Hin as [= -> ->]];
      (eexists; split; [reflexivity|]; rewrite <- Ev; reflexivity).
  - intros c Hb Hw. by eexists.
Defined.

Definition sample_flash : flash := mkFlash 0xef4010 sample_size 256 sample_sectors.
Definition blank_chip : chip := mkChip (fill ∅ 0x1000 0x200) 0 false.

Definition sample_batch : list (mem_op * option nat) :=
  [(WriteBlob 0x10fe [1; 2; 3; 4], Some 0%nat); (WriteBlob 0x10fe [5], None); (ReadBlob 0x10fe 3, Some 1%nat);
   (ReadBlob 0x1000000 4, Some 2%nat)].

Lemma spi_flash_serves_batches_witness :
  exists c', drain 3 sample_flash sample_batch ∅ blank_chip = (c', (nor_spec_all (c_cells blank_chip) sample_batch ∅).2) /\
    holds sample_size 256 sample_sectors 2 c' (nor_spec_all (c_cells blank_chip) sample_batch ∅).1 /\
    (nor_spec_all (c_cells blank_chip) sample_batch ∅).2 !! 1%nat = Some (Done (Ok (VBytes [1; 2; 3]))) /\
    (nor_spec_all (c_cells blank_chip) sample_batch ∅).2 !! 2%nat = Some (Done (Err OverflowError)).
Proof.
  destruct (spi_flash_serves_batches sample_size 256 sample_sectors 2 3 sample_flash sample_batch ∅ blank_chip (c_cells blank_chip))
    as (c'&E&Hc').
  - lia.
  - lia.
  - done.
  - unfold sample_batch. repeat apply Forall_cons_2; cbn; unfold window_ok, sample_size; try (split; [by repeat constructor|]); try lia.
    constructor.
  - split; [|done]. cbn. repeat (constructor; [set_solver|]). constructor.
  - done.
  - exists c'. split; [done|]. split; [done|]. split; by vm_compute.
Defined.

Lemma spi_flash_erase_program_verify_witness :
  exists c', (erase (S (Z.to_nat 0x2000)) 3 sample_flash 0x1000 0x2000;; program 3 sample_flash 0x10fe [1; 2; 3; 4];;
      verify 0x10fe [1; 2; 3; 4]) blank_chip = (c', Ok true) /\
    holds sample_size 256 sample_sectors 2 c' (write_bytes (fill (c_cells blank_chip) 0x1000 0x2000) 0x10fe [1; 2; 3; 4]).
Proof.
  apply (spi_flash_erase_program_verify sample_size 256 sample_sectors 2 3 sample_flash 4096); try done; try lia.
  - split; [lia|]. split; [by eexists|]. intros s Hs. split; [done|]. cbn in Hs.
    apply elem_of_cons in Hs as [->|Hs]; [done|]. by apply list_elem_of_singleton in Hs as ->.
  - by repeat constructor.
Defined.

(** ** Where it goes wrong *)

(** A chip without SFDP tables is not an error to [__sfdp_detect], so the default
    erase types are not taken, and the first erase fails. *)
Example no_sfdp_no_erase :
  (detect new_flash blank_chip).2 = Ok (mkFlash 0xef4010 sample_size 256 []) /\
  (erase 100 3 (mkFlash 0xef4010 sample_size 256 []) 0 4096 blank_chip).2 = Err IndexError.
Proof. by vm_compute. Qed.

(** A client that cancels the future of its operation makes the node reject the
    operations after it in the batch, whoever posted them. *)
Example cancelled_future_rejects_batch :
  (drain 3 sample_flash [(ReadBlob 0x1000 1, Some 0%nat); (ReadBlob 0x1001 1, Some 1%nat)] {[0%nat := Cancelled]} blank_chip).2
    !! 1%nat = Some (Done (Err InvalidStateError)).
Proof. by vm_compute. Qed.

(** The fallback of [erase] is the first erase type, not the smallest: a
    page-sized region at the start of the chip takes all of it along. *)
Example erase_takes_first_type :
  choose_sector (with_sectors [(65536, BLOCK_ERASE_64K); (4096, SECTOR_ERASE_4K)] sample_flash) 0 256
    = Ok (65536, BLOCK_ERASE_64K).
Proof. by vm_compute. Qed.
