(* ===== verification/Uf2.v ===== *)
(** * UF2 files (src/acrobe/vfs/uf2.py)

    A UF2 file is a sequence of 512-byte blocks, each with a target address and up
    to 256 bytes of payload.  The reader joins the payloads of consecutive
    addresses into regions and refuses a file with a malformed block.

    [block_bytes] writes a block down as the format defines it; the theorems relate
    the reader to it. *)

From S2P Require Import Prelude.

Definition UF2_MAGIC_START0 : Z := 0x0A324655.
Definition UF2_MAGIC_START1 : Z := 0x9E5D5157.
Definition UF2_MAGIC_END : Z := 0x0AB16F30.
Definition UF2_FLAG_NOT_MAIN_FLASH : Z := Z.shiftl 1 0.
Definition UF2_FLAG_FAMILY_ID_PRESENT : Z := Z.shiftl 1 13.
Definition UF2_BLOCK_SIZE : Z := 512.
Definition UF2_MAX_PAYLOAD : Z := 256.

Abbreviation region := (Z * list Z)%type.

(** ** The reader *)

(** The local variables of [__parse]; [cur] is [(cur_addr, cur_data)]. *)
Record parser := mkParser { regions : list region; family_ids : gset Z; cur : option region }.

(** [raw[off:off + UF2_BLOCK_SIZE]] for the offsets of [range]. *)
Fixpoint split_blocks (n : nat) (raw : list Z) : list (list Z) :=
  match n with
  | O => []
  | S n =>
      match raw with
      | [] => []
      | _ => slice_to raw UF2_BLOCK_SIZE :: split_blocks n (slice_from raw UF2_BLOCK_SIZE)
      end
  end.

(** A word of [struct.unpack]. *)
Definition word (block : list Z) (i : Z) : Z := from_le (slice block (4 * i) (4 * i + 4)).

(** [if cur_data: regions.append((cur_addr, bytes(cur_data)))] *)
Definition close_region (p : parser) : list region :=
  match cur p with
  | Some (a, d) => match d with [] => regions p | _ => regions p ++ [(a, d)] end
  | None => regions p
  end.

Definition add_payload (addr : Z) (payload : list Z) (p : parser) : parser :=
  match cur p with
  | Some (a, d) =>
      if addr =? a + zlen d then mkParser (regions p) (family_ids p) (Some (a, d ++ payload))
      else mkParser (close_region p) (family_ids p) (Some (addr, payload))
  | None => mkParser (close_region p) (family_ids p) (Some (addr, payload))
  end.

Definition parse_block (p : parser) (block : list Z) : result parser :=
  let flags := word block 2 in
  let target_addr := word block 3 in
  let payload_size := word block 4 in
  let magic_end := from_le (slice_from block (-4)) in
  _ ← guard_or ((word block 0 =? UF2_MAGIC_START0) && (word block 1 =? UF2_MAGIC_START1)) NoMatch;
  _ ← guard_or (magic_end =? UF2_MAGIC_END) NoMatch;
  if negb (Z.land flags UF2_FLAG_NOT_MAIN_FLASH =? 0) then Ok p
  else
    let p := if negb (Z.land flags UF2_FLAG_FAMILY_ID_PRESENT =? 0)
             then mkParser (regions p) ({[word block 7]} ∪ family_ids p) (cur p) else p in
    _ ← guard_or (payload_size <=? UF2_MAX_PAYLOAD) NoMatch;
    Ok (add_payload target_addr (slice block 32 (32 + payload_size)) p).

(** [__parse] *)
Definition parse (raw : list Z) : result (list region * gset Z) :=
  p ← foldM parse_block (mkParser [] ∅ None) (split_blocks (length raw) raw);
  Ok (close_region p, family_ids p).

(** The node: its regions and metadata. *)
Record uf2 := mkUf2 {
  u_regions : list region; block_count : Z; min_address : Z; max_address : Z; u_family_ids : list Z;
}.

(** [min] and [max] of a sequence that is not empty. *)
Definition minimum (x : Z) (l : list Z) : Z := foldl Z.min x l.
Definition maximum (x : Z) (l : list Z) : Z := foldl Z.max x l.

Definition start (raw : list Z) : result uf2 :=
  _ ← guard_or (zlen raw mod UF2_BLOCK_SIZE =? 0) NoMatch;
  _ ← guard_or (negb (zlen raw =? 0)) NoMatch;
  '(rs, families) ← parse raw;
  match rs with
  | [] => Err NoMatch
  | (a, d) :: rest =>
      Ok (mkUf2 rs (zlen raw / UF2_BLOCK_SIZE) (minimum a rest.*1)
            (maximum (a + zlen d) ((fun r => r.1 + zlen r.2) <$> rest)) (sort_by id (elements families)))
  end.

(** [Uf2Region.read] *)
Definition region_read (data : list Z) (offset size : Z) : result (list Z) :=
  if (offset <? 0) || (zlen data <? offset) then Err ValueError
  else
    let n := Z.min size (zlen data - offset) in
    if n <=? 0 then Ok [] else Ok (slice data offset (offset + n)).

(** ** The format *)

Record block := mkBlock {
  b_flags : Z; b_addr : Z; b_payload : list Z; b_no : Z; b_count : Z; b_family : Z;
}.

Definition block_bytes (b : block) : list Z :=
  ([UF2_MAGIC_START0; UF2_MAGIC_START1; b_flags b; b_addr b; zlen (b_payload b); b_no b; b_count b; b_family b] ≫= le_bytes 4)
  ++ b_payload b ++ replicate (476 - length (b_payload b)) 0 ++ le_bytes 4 UF2_MAGIC_END.

Definition is_word (x : Z) : Prop := 0 <= x < 2 ^ 32.

Definition block_ok (b : block) : Prop :=
  is_word (b_flags b) /\ is_word (b_addr b) /\ is_word (b_family b) /\ bytes_ok (b_payload b) /\ zlen (b_payload b) <= UF2_MAX_PAYLOAD.

(** The blocks that carry flash contents, and the bytes they put at their
    addresses. *)
Definition main_flash (b : block) : bool := Z.land (b_flags b) UF2_FLAG_NOT_MAIN_FLASH =? 0.
Definition has_family (b : block) : bool := negb (Z.land (b_flags b) UF2_FLAG_FAMILY_ID_PRESENT =? 0).

Definition spread (r : region) : list (Z * Z) := zip (seqZ r.1 (zlen r.2)) r.2.
Definition image (blocks : list block) : list (Z * Z) :=
  filter (fun b => main_flash b = true) blocks ≫= fun b => spread (b_addr b, b_payload b).
Definition families (blocks : list block) : gset Z :=
  list_to_set (b_family <$> filter (fun b => main_flash b = true /\ has_family b = true) blocks).

(** ** Blocks *)

Lemma word_head x l : is_word x -> word (le_bytes 4 x ++ l) 0 = x.
Proof.
  intros Hx. unfold word. change (4 * 0) with 0. rewrite slice_app_l by (rewrite ?length_le_bytes; lia).
  rewrite slice_full by (rewrite length_le_bytes; lia). rewrite from_le_le_bytes. by apply Z.mod_small.
Qed.

Lemma word_tail x l i : 0 <= i -> 4 * i + 4 <= zlen l -> word (le_bytes 4 x ++ l) (i + 1) = word l i.
Proof.
  intros Hi Hl. unfold word. f_equal. rewrite !slice_nonneg by (rewrite ?length_app, ?length_le_bytes; lia).
  rewrite drop_app_ge by (rewrite length_le_bytes; lia). rewrite length_le_bytes. f_equal; [lia|]. f_equal. lia.
Qed.

Lemma length_words l : length (l ≫= le_bytes 4) = (4 * length l)%nat.
Proof. induction l as [|x l IH]; [done|]. rewrite bind_cons, length_app, IH, length_le_bytes. cbn [length]. lia. Qed.

(** The words of a block. *)
Lemma word_block (l : list Z) rest (i : nat) x :
  Forall is_word l -> l !! i = Some x -> word ((l ≫= le_bytes 4) ++ rest) (Z.of_nat i) = x.
Proof.
  intros Hl. revert i. induction Hl as [|y l Hy Hl IH]; intros i Hi; [done|].
  rewrite bind_cons, <- app_assoc. destruct i as [|i].
  - injection Hi as ->. by apply word_head.
  - replace (Z.of_nat (S i)) with (Z.of_nat i + 1) by lia. rewrite word_tail; [by apply IH|lia|].
    rewrite length_app, length_words. apply lookup_lt_Some in Hi. cbn in Hi. lia.
Qed.

Lemma length_block_bytes b : block_ok b -> length (block_bytes b) = 512%nat.
Proof.
  intros (_&_&_&_&Hp). unfold block_bytes, UF2_MAX_PAYLOAD in *. rewrite !length_app, length_words, length_replicate, length_le_bytes.
  cbn [length]. lia.
Qed.

Lemma block_payload b : block_ok b -> slice (block_bytes b) 32 (32 + zlen (b_payload b)) = b_payload b.
Proof. intros Hb. unfold block_bytes. apply slice_app_mid; [by rewrite length_words|done]. Qed.

Lemma block_end b : block_ok b -> slice_from (block_bytes b) (-4) = le_bytes 4 UF2_MAGIC_END.
Proof.
  intros Hb. unfold slice_from, slice_bound. rewrite length_block_bytes by done. cbn [Z.ltb].
  replace (Z.to_nat _) with 508%nat by (cbn; lia). unfold block_bytes. rewrite !app_assoc. apply drop_app_length'.
  rewrite !length_app, length_words, length_replicate. destruct Hb as (_&_&_&_&Hp). unfold UF2_MAX_PAYLOAD in Hp. cbn [length]. lia.
Qed.

(** What the reader makes of a block. *)
Definition take_block (p : parser) (b : block) : parser :=
  if main_flash b then
    add_payload (b_addr b) (b_payload b)
      (if has_family b then mkParser (regions p) ({[b_family b]} ∪ family_ids p) (cur p) else p)
  else p.

Lemma parse_block_bytes p b :
  block_ok b -> is_word (b_no b) -> is_word (b_count b) -> parse_block p (block_bytes b) = Ok (take_block p b).
Proof.
  intros Hb N1 N2. pose proof Hb as (H1&H2&H3&H4&H5).
  assert (is_word (zlen (b_payload b)) /\ is_word UF2_MAGIC_START0 /\ is_word UF2_MAGIC_START1 /\ is_word UF2_MAGIC_END)
    as (W1&W2&W3&W4) by (unfold is_word, UF2_MAX_PAYLOAD, UF2_MAGIC_START0, UF2_MAGIC_START1, UF2_MAGIC_END in *; lia).
  pose proof (word_block [UF2_MAGIC_START0; UF2_MAGIC_START1; b_flags b; b_addr b; zlen (b_payload b); b_no b; b_count b; b_family b]
    (b_payload b ++ replicate (476 - length (b_payload b)) 0 ++ le_bytes 4 UF2_MAGIC_END)) as Hw.
  fold (block_bytes b) in Hw. specialize (fun i x => Hw i x ltac:(do 8 (apply Forall_cons_2; [done|]); apply Forall_nil_2; exact I)).
  unfold parse_block. rewrite (Hw 0%nat UF2_MAGIC_START0 eq_refl : word _ 0 = _), (Hw 1%nat UF2_MAGIC_START1 eq_refl : word _ 1 = _),
    (Hw 2%nat (b_flags b) eq_refl : word _ 2 = _), (Hw 3%nat (b_addr b) eq_refl : word _ 3 = _),
    (Hw 4%nat (zlen (b_payload b)) eq_refl : word _ 4 = _), (Hw 7%nat (b_family b) eq_refl : word _ 7 = _).
  rewrite block_end, block_payload by done. rewrite from_le_le_bytes, Z.mod_small by done. rewrite !Z.eqb_refl. cbn [andb guard_or].
  replace (zlen (b_payload b) <=? UF2_MAX_PAYLOAD) with true by lia.
  unfold take_block, main_flash, has_family. cbn. by destruct (_ =? 0).
Qed.

(** ** Regions *)

Lemma spread_app a d1 d2 : spread (a, d1 ++ d2) = spread (a, d1) ++ spread (a + zlen d1, d2).
Proof.
  unfold spread. cbn [fst snd]. rewrite length_app, Nat2Z.inj_add, seqZ_app by lia. apply zip_with_app.
  rewrite length_seqZ. lia.
Qed.

Lemma close_spread p : close_region p ≫= spread = (regions p ≫= spread) ++ from_option spread [] (cur p).
Proof.
  unfold close_region. destruct (cur p) as [[a [|x d]]|]; cbn [from_option].
  - rewrite (eq_refl : spread (a, []) = []). by rewrite app_nil_r.
  - rewrite bind_app. f_equal. rewrite bind_cons. apply app_nil_r.
  - by rewrite app_nil_r.
Qed.

(** A payload goes behind what was read before. *)
Lemma add_payload_spread a d p :
  close_region (add_payload a d p) ≫= spread = (close_region p ≫= spread) ++ spread (a, d).
Proof.
  rewrite !close_spread. unfold add_payload. destruct (cur p) as [[a0 d0]|] eqn:E.
  - destruct (a =? a0 + zlen d0) eqn:Ea; cbn [regions cur from_option].
    + apply Z.eqb_eq in Ea as ->. by rewrite spread_app, app_assoc.
    + rewrite close_spread, E. done.
  - cbn [regions cur from_option]. rewrite close_spread, E. done.
Qed.

Lemma take_blocks_spread blocks : forall p,
  close_region (foldl take_block p blocks) ≫= spread = (close_region p ≫= spread) ++ image blocks /\
  family_ids (foldl take_block p blocks) = family_ids p ∪ families blocks.
Proof.
  unfold image, families. induction blocks as [|b blocks IH]; intros p; cbn [foldl].
  { cbn. rewrite app_nil_r. split; [done|set_solver]. }
  destruct (IH (take_block p b)) as [-> ->]. unfold take_block. rewrite !filter_cons. destruct (main_flash b) eqn:Em.
  - rewrite decide_True by done. rewrite bind_cons, add_payload_spread, <- app_assoc. split.
    + f_equal. by destruct (has_family b).
    + assert (forall q, family_ids (add_payload (b_addr b) (b_payload b) q) = family_ids q) as Hq
        by (intros q; unfold add_payload; by repeat case_match).
      rewrite Hq. destruct (has_family b) eqn:Ef.
      * rewrite decide_True by done. cbn. set_solver.
      * rewrite decide_False by naive_solver. done.
  - rewrite decide_False by done. rewrite decide_False by naive_solver. done.
Qed.

(** No two regions in a row could have been one. *)
Fixpoint separated (l : list region) : Prop :=
  match l with
  | r1 :: ((r2 :: _) as rest) => r1.1 + zlen r1.2 <> r2.1 /\ separated rest
  | _ => True
  end.

Lemma separated_snoc l r1 r2 : separated (l ++ [r1]) -> r1.1 + zlen r1.2 <> r2.1 -> separated (l ++ [r1] ++ [r2]).
Proof.
  induction l as [|x l IH]; intros Hs Hr; [done|]. destruct l as [|y l]; [by destruct Hs|].
  destruct Hs as [H1 H2]. split; [done|]. by apply IH.
Qed.

Lemma separated_grow l a d d' : separated (l ++ [(a, d)]) -> separated (l ++ [(a, d')]).
Proof.
  induction l as [|x l IH]; intros Hs; [done|]. destruct l as [|y l]; [done|]. destruct Hs as [H1 H2]. split; [done|]. by apply IH.
Qed.

(** With payloads that are not empty, the current region is not empty either. *)
Definition tidy (p : parser) : Prop :=
  separated (close_region p) /\ match cur p with Some (_, d) => d <> [] | None => regions p = [] end.

Lemma add_payload_tidy a d p : d <> [] -> tidy p -> tidy (add_payload a d p).
Proof.
  intros Hd [Hs Hc]. destruct d as [|x d]; [done|]. unfold tidy, add_payload, close_region in *.
  destruct (cur p) as [[a0 [|y d0]]|] eqn:E; [done| |]; cbn [cur regions] in *.
  - destruct (a =? a0 + zlen (y :: d0)) eqn:Ea; cbn [cur regions app].
    + split; [|done]. by eapply separated_grow.
    + split; [|done]. rewrite <- app_assoc. apply separated_snoc; [done|]. cbn [fst snd]. lia.
  - split; [|done]. by rewrite Hc.
Qed.

Lemma take_blocks_tidy blocks : forall p,
  Forall (fun b => main_flash b = true -> b_payload b <> []) blocks -> tidy p -> tidy (foldl take_block p blocks).
Proof.
  induction blocks as [|b blocks IH]; intros p Hb Hp; [done|]. apply Forall_cons in Hb as [Hb Hbs]. cbn [foldl]. apply IH; [done|].
  unfold take_block. destruct (main_flash b); [|done]. apply add_payload_tidy; [by apply Hb|]. by destruct (has_family b).
Qed.

(** ** Files *)

Lemma split_blocks_bytes blocks n :
  Forall block_ok blocks -> (length blocks <= n)%nat -> split_blocks n (blocks ≫= block_bytes) = block_bytes <$> blocks.
Proof.
  revert n. induction blocks as [|b blocks IH]; intros n Hb Hn; [by destruct n|].
  apply Forall_cons in Hb as [Hb Hbs]. destruct n as [|n]; [cbn in Hn; lia|]. rewrite bind_cons. pose proof (length_block_bytes b Hb) as Hl.
  cbn [split_blocks fmap list_fmap]. destruct (block_bytes b ++ (blocks ≫= block_bytes)) eqn:E.
  { apply (f_equal length) in E. rewrite length_app, Hl in E. discriminate. }
  rewrite <- E. rewrite slice_to_nonneg, slice_from_nonneg by done. unfold UF2_BLOCK_SIZE.
  rewrite take_app_length', drop_app_length' by (rewrite Hl; done). f_equal. apply IH; [done|]. cbn in Hn. lia.
Qed.

Lemma length_file blocks : Forall block_ok blocks -> length (blocks ≫= block_bytes) = (512 * length blocks)%nat.
Proof.
  induction 1 as [|b blocks Hb _ IH]; [done|]. rewrite bind_cons, length_app, IH, length_block_bytes by done. cbn [length]. lia.
Qed.

Lemma parse_blocks blocks :
  Forall block_ok blocks -> Forall (fun b => is_word (b_no b) /\ is_word (b_count b)) blocks ->
  parse (blocks ≫= block_bytes)
  = Ok (close_region (foldl take_block (mkParser [] ∅ None) blocks), family_ids (foldl take_block (mkParser [] ∅ None) blocks)).
Proof.
  intros Hb Hn. unfold parse. rewrite split_blocks_bytes; [|done|rewrite length_file by done; lia].
  assert (forall p, foldM parse_block p (block_bytes <$> blocks) = Ok (foldl take_block p blocks)) as ->; [|done].
  induction Hb as [|b blocks Hb _ IH]; intros p; [done|]. apply Forall_cons in Hn as [[N1 N2] Hn]. cbn [fmap list_fmap foldM foldl].
  rewrite parse_block_bytes by done. cbn. by apply IH.
Qed.

Lemma minimum_le x l : minimum x l <= x /\ forall y, y ∈ l -> minimum x l <= y.
Proof.
  unfold minimum. revert x. induction l as [|z l IH]; intros x; cbn; [split; [lia|set_solver]|].
  destruct (IH (Z.min x z)) as [H1 H2]. split; [lia|]. intros y [->|Hy]%elem_of_cons; [lia|auto].
Qed.

Lemma maximum_ge x l : x <= maximum x l /\ forall y, y ∈ l -> y <= maximum x l.
Proof.
  unfold maximum. revert x. induction l as [|z l IH]; intros x; cbn; [split; [lia|set_solver]|].
  destruct (IH (Z.max x z)) as [H1 H2]. split; [lia|]. intros y [->|Hy]%elem_of_cons; [lia|auto].
Qed.

Lemma elem_of_spread r x v : (x, v) ∈ spread r -> r.1 <= x < r.1 + zlen r.2.
Proof. unfold spread. intros H%elem_of_zip_l%elem_of_seqZ. lia. Qed.


(** Two consecutive blocks, a metadata block, and one elsewhere. *)
Definition sample_blocks : list block :=
  [mkBlock 0x2000 0x10000000 [1; 2; 3] 0 4 0xE48BFF56; mkBlock 0x2000 0x10000003 [4; 5] 1 4 0xE48BFF56;
   mkBlock 0x2001 0 [9; 9] 2 4 0xE48BFF57; mkBlock 0 0x10000100 [6] 3 4 0].


(** A file with a block that lacks one of the three magic numbers is refused. *)
Definition magics_ok (b : list Z) : Prop :=
  word b 0 = UF2_MAGIC_START0 /\ word b 1 = UF2_MAGIC_START1 /\ from_le (slice_from b (-4)) = UF2_MAGIC_END.

Lemma parsed_magics l : forall p p', foldM parse_block p l = Ok p' -> Forall magics_ok l.
Proof.
  induction l as [|b l IH]; intros p p' Hp; [done|]. cbn [foldM] in Hp. apply bind_Ok in Hp as (p1&H1&Hp).
  constructor; [|by eapply IH]. unfold parse_block in H1. apply bind_Ok in H1 as ([]&G1&H1). apply bind_Ok in H1 as ([]&G2&_).
  unfold magics_ok. destruct (word b 0 =? _) eqn:E1, (word b 1 =? _) eqn:E2; try discriminate.
  destruct (_ =? UF2_MAGIC_END) eqn:E3; [|discriminate]. lia.
Qed.

Theorem uf2_refuses_malformed raw u :
  start raw = Ok u -> Forall magics_ok (split_blocks (length raw) raw) /\ zlen raw mod UF2_BLOCK_SIZE = 0.
Proof.
  unfold start. intros H. apply bind_Ok in H as ([]&G1&H). apply bind_Ok in H as ([]&G2&H).
  apply bind_Ok in H as ([rs fam]&H&_). unfold parse in H. apply bind_Ok in H as (p&H&_). split; [by eapply parsed_magics|].
  destruct (_ =? 0) eqn:E in G1; [lia|discriminate].
Qed.
