(* ===== verification/NodePath.v ===== *)
(** * Names and paths of nodes (src/acrobe/node.py)

    A node is named on the command line and in files by a path; a segment may carry
    options, [flash(page=256,file="a,b")].  This file models the option grammar
    ([Node.__parse_options] and the functions it calls) and the structural queries on
    paths that event subscriptions use ([Path]).

    Text is a list of character codes; [None] stands for the exception [_NotKvList],
    which [__parse_options] catches. *)

From S2P Require Import Prelude PyText.

Definition QUOTE : Z := 34.
Definition BACKSLASH : Z := 92.
Definition LPAR : Z := 40.
Definition RPAR : Z := 41.
Definition COMMA : Z := 44.
Definition EQUALS : Z := 61.
Definition SLASH : Z := 47.
Definition SPACE : Z := 32.
Definition TAB : Z := 9.

(** ** Options *)

(** The loop of [_split_top_level_commas]: the part since the last comma, the parts
    before it. *)
Fixpoint split_loop (l cur : list Z) (parts : list (list Z)) (depth : Z) (in_quote escaped : bool)
    : option (list (list Z)) :=
  match l with
  | [] => if negb (depth =? 0) || in_quote then None else Some (parts ++ [cur])
  | ch :: l =>
      if in_quote then
        if escaped then split_loop l (cur ++ [ch]) parts depth true false
        else if ch =? BACKSLASH then split_loop l (cur ++ [ch]) parts depth true true
        else if ch =? QUOTE then split_loop l (cur ++ [ch]) parts depth false false
        else split_loop l (cur ++ [ch]) parts depth true false
      else if ch =? QUOTE then split_loop l (cur ++ [ch]) parts depth true escaped
      else if ch =? LPAR then split_loop l (cur ++ [ch]) parts (depth + 1) false escaped
      else if ch =? RPAR then
        if depth - 1 <? 0 then None else split_loop l (cur ++ [ch]) parts (depth - 1) false escaped
      else if (ch =? COMMA) && (depth =? 0) then split_loop l [] (parts ++ [cur]) depth false escaped
      else split_loop l (cur ++ [ch]) parts depth false escaped
  end.

Definition split_top_level_commas (content : list Z) : option (list (list Z)) := split_loop content [] [] 0 false false.

(** [_decode_quoted], on the text between the quotes. *)
Fixpoint decode_inner (inner : list Z) : list Z :=
  match inner with
  | [] => []
  | ch :: rest =>
      match rest with
      | nxt :: rest' =>
          if (ch =? BACKSLASH) && (nxt =? QUOTE) then QUOTE :: decode_inner rest'
          else if (ch =? BACKSLASH) && (nxt =? BACKSLASH) then BACKSLASH :: decode_inner rest'
          else ch :: decode_inner rest
      | [] => [ch]
      end
  end.

Definition decode_quoted (s : list Z) : list Z := decode_inner (slice s 1 (-1)).

(** The search for the first ['='] outside quotes and parentheses: what stands
    before and after it. *)
Fixpoint find_equals (l key : list Z) (depth : Z) (in_quote escaped : bool) : option (list Z * list Z) :=
  match l with
  | [] => None
  | ch :: l =>
      if in_quote then
        if escaped then find_equals l (key ++ [ch]) depth true false
        else if ch =? BACKSLASH then find_equals l (key ++ [ch]) depth true true
        else if ch =? QUOTE then find_equals l (key ++ [ch]) depth false false
        else find_equals l (key ++ [ch]) depth true false
      else if ch =? QUOTE then find_equals l (key ++ [ch]) depth true escaped
      else if ch =? LPAR then find_equals l (key ++ [ch]) (depth + 1) false escaped
      else if ch =? RPAR then find_equals l (key ++ [ch]) (depth - 1) false escaped
      else if (ch =? EQUALS) && (depth =? 0) then Some (key, l)
      else find_equals l (key ++ [ch]) depth false escaped
  end.

(** A dict, in the order of its keys' first assignment. *)
Abbreviation dict := (list (list Z * list Z)).

Fixpoint dict_set (k v : list Z) (d : dict) : dict :=
  match d with
  | [] => [(k, v)]
  | (k', v') :: d => if bool_decide (k = k') then (k', v) :: d else (k', v') :: dict_set k v d
  end.

Definition ends_with (c : Z) (l : list Z) : bool := bool_decide (last l = Some c).

Definition decode_value (value : list Z) : option (list Z) :=
  if bool_decide (head value = Some QUOTE) && ends_with QUOTE value && (2 <=? zlen value) then Some (decode_quoted value)
  else if bool_decide (QUOTE ∈ value \/ SPACE ∈ value \/ TAB ∈ value) then None
  else Some value.

(** One entry of [_parse_kv_list]. *)
Definition parse_entry (d : dict) (entry : list Z) : option dict :=
  '(key, value) ← find_equals entry [] 0 false false;
  if bool_decide (key = []) then None
  else if bool_decide (SPACE ∈ key \/ TAB ∈ key \/ QUOTE ∈ key \/ BACKSLASH ∈ key) then None
  else decoded ← decode_value value; Some (dict_set key decoded d).

Fixpoint parse_entries (d : dict) (l : list (list Z)) : option dict :=
  match l with
  | [] => Some d
  | e :: l => d ← parse_entry d e; parse_entries d l
  end.

Definition parse_kv_list (content : list Z) : option dict :=
  if bool_decide (content = []) then None
  else entries ← split_top_level_commas content; parse_entries [] entries.

(** The forward scan of [__parse_options]: the last top-level group, as the
    positions of its parentheses; [None] when a parenthesis is unmatched. *)
Record scan := mkScan { depth : Z; in_quote : bool; escaped : bool; open_pos : Z; group : option (Z * Z) }.

Fixpoint scan_groups (i : Z) (l : list Z) (s : scan) : option scan :=
  match l with
  | [] => Some s
  | ch :: l =>
      let quoted q e := mkScan (depth s) q e (open_pos s) (group s) in
      if in_quote s then
        if escaped s then scan_groups (i + 1) l (quoted true false)
        else if ch =? BACKSLASH then scan_groups (i + 1) l (quoted true true)
        else if ch =? QUOTE then scan_groups (i + 1) l (quoted false false)
        else scan_groups (i + 1) l s
      else if ch =? QUOTE then scan_groups (i + 1) l (quoted true (escaped s))
      else if ch =? LPAR then
        scan_groups (i + 1) l (mkScan (depth s + 1) false (escaped s) (if depth s + 1 =? 1 then i else open_pos s) (group s))
      else if ch =? RPAR then
        if depth s =? 0 then None
        else scan_groups (i + 1) l (mkScan (depth s - 1) false (escaped s) (open_pos s)
               (if depth s - 1 =? 0 then Some (open_pos s, i) else group s))
      else scan_groups (i + 1) l s
  end.

Definition new_scan : scan := mkScan 0 false false (-1) None.

Definition parse_options (name : list Z) : list Z * dict :=
  match scan_groups 0 name new_scan with
  | None => (name, [])
  | Some s =>
      if in_quote s || negb (depth s =? 0) then (name, [])
      else
        match group s with
        | Some (op, cp) =>
            if cp =? zlen name - 1 then
              let content := slice name (op + 1) cp in
              if bool_decide (content = []) then (slice_to name op, [])
              else match parse_kv_list content with
                   | Some opts => (slice_to name op, opts)
                   | None => (name, [])
                   end
            else (name, [])
        | None => (name, [])
        end
  end.

(** ** Paths *)

Definition parts (path : list Z) : list (list Z) :=
  if bool_decide (path = []) then [] else filter (fun p => p <> []) (split_sep SLASH path).

(** [path.rsplit("/", 1)[0]], the whole path when there is no slash. *)
Fixpoint rsplit_head (path : list Z) : list Z :=
  match path with
  | [] => []
  | c :: l => if (c =? SLASH) && negb (bool_decide (SLASH ∈ l)) then [] else c :: rsplit_head l
  end.

Definition parent_of (path : list Z) : option (list Z) :=
  if bool_decide (path = []) then None
  else if starts_with [SLASH] path then
    if bool_decide (path = [SLASH]) then None
    else match rsplit_head path with [] => Some [SLASH] | h => Some h end
  else if negb (bool_decide (SLASH ∈ path)) then None
  else Some (rsplit_head path).

(** [rstrip("/")] *)
Definition rstrip_slash (l : list Z) : list Z := reverse ((fix go l := match l with c :: l' => if c =? SLASH then go l' else l | [] => [] end) (reverse l)).

Definition is_descendant_or_self (path ancestor : list Z) : bool :=
  if bool_decide (ancestor = []) then true
  else if bool_decide (path = ancestor) then true
  else starts_with (rstrip_slash ancestor ++ [SLASH]) path.

(** ** Writing options

    An option is a key, a value, and whether the value is written in quotes. *)

Record entry := mkEntry { e_key : list Z; e_value : list Z; e_quoted : bool }.

Fixpoint escape (v : list Z) : list Z :=
  match v with
  | [] => []
  | c :: v => if (c =? QUOTE) || (c =? BACKSLASH) then BACKSLASH :: c :: escape v else c :: escape v
  end.

Definition render_value (e : entry) : list Z :=
  if e_quoted e then QUOTE :: escape (e_value e) ++ [QUOTE] else e_value e.

Definition render_entry (e : entry) : list Z := e_key e ++ EQUALS :: render_value e.

Fixpoint join (sep : Z) (l : list (list Z)) : list Z :=
  match l with
  | [] => []
  | [x] => x
  | x :: l => x ++ sep :: join sep l
  end.

Definition render (name : list Z) (es : list entry) : list Z := name ++ LPAR :: join COMMA (map render_entry es) ++ [RPAR].

(** Characters that none of the scanners reacts to. *)
Definition plain (c : Z) : Prop := c <> QUOTE /\ c <> LPAR /\ c <> RPAR /\ c <> COMMA.

#[global] Instance plain_dec c : Decision (plain c) := ltac:(unfold plain; apply _).

Definition key_ok (k : list Z) : Prop :=
  k <> [] /\ Forall (fun c => plain c /\ c <> EQUALS /\ c <> SPACE /\ c <> TAB /\ c <> BACKSLASH) k.

(** A value in quotes is any text; a bare one is free of separators and white space. *)
Definition entry_ok (e : entry) : Prop :=
  key_ok (e_key e) /\ (e_quoted e = false -> Forall (fun c => plain c /\ c <> SPACE /\ c <> TAB) (e_value e)).

#[global] Instance entry_ok_dec e : Decision (entry_ok e) := ltac:(unfold entry_ok, key_ok; apply _).

(** A name whose parentheses and quotes are balanced. *)
Definition balanced (name : list Z) : bool :=
  match scan_groups 0 name new_scan with
  | Some s => negb (in_quote s) && (depth s =? 0)
  | None => false
  end.

Definition options_of (es : list entry) : dict := foldl (fun d e => dict_set (e_key e) (e_value e) d) [] es.

(** Decides every test of a character against a constant. *)
Ltac tests :=
  repeat match goal with
    | |- context [?a =? ?b] => destruct (Z.eqb_spec a b); subst; try (unfold plain, QUOTE, BACKSLASH, LPAR, RPAR, COMMA, EQUALS, SPACE, TAB in *; lia)
    end; cbn [orb andb negb].

Lemma escape_decoded v : decode_inner (escape v) = v.
Proof.
  induction v as [|c v IH]; [done|]. cbn [escape].
  destruct (Z.eqb_spec c QUOTE) as [->|]; [simpl; by rewrite IH|].
  destruct (Z.eqb_spec c BACKSLASH) as [->|]; [simpl; by rewrite IH|]. cbn [orb decode_inner].
  rewrite IH. replace (c =? BACKSLASH) with false by (symmetry; by apply Z.eqb_neq).
  destruct (escape v) eqn:He; [|done]. by rewrite <- IH.
Qed.

(** Inside quotes an escaped value is passed over as a whole. *)
Lemma split_quoted v rest cur ps d :
  split_loop (escape v ++ QUOTE :: rest) cur ps d true false = split_loop rest (cur ++ escape v ++ [QUOTE]) ps d false false.
Proof.
  revert cur. induction v as [|c v IH]; intros cur; [done|]. cbn [escape].
  destruct ((c =? QUOTE) || (c =? BACKSLASH)) eqn:Hc; simpl.
  - rewrite IH, <- !(assoc_L (++)). done.
  - apply orb_false_iff in Hc as [-> ->]. rewrite IH, <- !(assoc_L (++)). done.
Qed.

Lemma scan_quoted i v rest d o g :
  scan_groups i (escape v ++ QUOTE :: rest) (mkScan d true false o g)
  = scan_groups (i + zlen (escape v) + 1) rest (mkScan d false false o g).
Proof.
  revert i. induction v as [|c v IH]; intros i; [simpl; by rewrite Z.add_0_r|]. cbn [escape].
  destruct ((c =? QUOTE) || (c =? BACKSLASH)) eqn:Hc; simpl.
  - rewrite IH. f_equal. lia.
  - apply orb_false_iff in Hc as [-> ->]. rewrite IH. f_equal. lia.
Qed.

(** Plain characters are passed over. *)
Lemma split_plain l rest cur ps :
  Forall plain l -> split_loop (l ++ rest) cur ps 0 false false = split_loop rest (cur ++ l) ps 0 false false.
Proof.
  intros H. revert cur. induction H as [|c l [? ?] _ IH]; intros cur; [by rewrite app_nil_r|].
  simpl. tests. rewrite IH, <- (assoc_L (++)). done.
Qed.

Lemma scan_plain i l rest s :
  in_quote s = false -> Forall (fun c => c <> QUOTE /\ c <> LPAR /\ c <> RPAR) l ->
  scan_groups i (l ++ rest) s = scan_groups (i + zlen l) rest s.
Proof.
  intros Hq H. revert i. induction H as [|c l ? _ IH]; intros i; [simpl; by rewrite Z.add_0_r|].
  simpl. rewrite Hq. tests. rewrite IH. f_equal. lia.
Qed.

Lemma key_plain k : key_ok k -> Forall plain (k ++ [EQUALS]).
Proof.
  intros [_ H]. apply Forall_app. split; [eapply Forall_impl; [done|naive_solver]|].
  by repeat constructor.
Qed.

Lemma plain_scanned l : Forall plain l -> Forall (fun c => c <> QUOTE /\ c <> LPAR /\ c <> RPAR) l.
Proof. intros H. eapply Forall_impl; [done|unfold plain; naive_solver]. Qed.

Lemma split_entry e rest cur ps :
  entry_ok e -> split_loop (render_entry e ++ rest) cur ps 0 false false = split_loop rest (cur ++ render_entry e) ps 0 false false.
Proof.
  intros [Hk Hv]. unfold render_entry, render_value.
  assert (forall v r, (e_key e ++ EQUALS :: v) ++ r = (e_key e ++ [EQUALS]) ++ v ++ r) as Hsplit by (intros; by rewrite <- !(assoc_L (++))).
  rewrite Hsplit, split_plain by by apply key_plain. destruct (e_quoted e).
  - simpl. rewrite <- (assoc_L (++)). simpl. rewrite split_quoted, <- !(assoc_L (++)). done.
  - rewrite split_plain, <- !(assoc_L (++)); [done|]. eapply Forall_impl; [by apply Hv|naive_solver].
Qed.

Lemma scan_entry i e rest o g :
  entry_ok e ->
  scan_groups i (render_entry e ++ rest) (mkScan 1 false false o g)
  = scan_groups (i + zlen (render_entry e)) rest (mkScan 1 false false o g).
Proof.
  intros [Hk Hv]. unfold render_entry, render_value.
  assert (forall v r, (e_key e ++ EQUALS :: v) ++ r = (e_key e ++ [EQUALS]) ++ v ++ r) as Hsplit by (intros; by rewrite <- !(assoc_L (++))).
  rewrite Hsplit, scan_plain by (try done; by apply plain_scanned, key_plain). destruct (e_quoted e).
  - simpl. rewrite <- (assoc_L (++)). simpl. rewrite scan_quoted. f_equal. rewrite !length_app. simpl. rewrite length_app. simpl. lia.
  - rewrite scan_plain; [f_equal; rewrite !length_app; simpl; lia|done|].
    apply plain_scanned. eapply Forall_impl; [by apply Hv|naive_solver].
Qed.

Lemma split_entries es ps :
  es <> [] -> Forall entry_ok es ->
  split_loop (join COMMA (map render_entry es)) [] ps 0 false false = Some (ps ++ map render_entry es).
Proof.
  intros Hne H. revert ps. induction H as [|e es He _ IH]; intros ps; [done|].
  destruct es as [|e' es].
  - simpl. rewrite <- (app_nil_r (render_entry e)) at 1. rewrite split_entry by done. done.
  - cbn [map join]. rewrite split_entry by done. simpl.
    cbn [map] in IH. rewrite IH, <- (assoc_L (++)) by done. done.
Qed.

Lemma scan_entries i es rest o g :
  Forall entry_ok es ->
  scan_groups i (join COMMA (map render_entry es) ++ rest) (mkScan 1 false false o g)
  = scan_groups (i + zlen (join COMMA (map render_entry es))) rest (mkScan 1 false false o g).
Proof.
  intros H. revert i. induction H as [|e es He _ IH]; intros i; [simpl; by rewrite Z.add_0_r|].
  destruct es as [|e' es]; [by apply scan_entry|].
  cbn [map join]. rewrite <- (assoc_L (++)), scan_entry by done. simpl.
  cbn [map] in IH. rewrite IH. f_equal. rewrite length_app. simpl. lia.
Qed.

Lemma scan_app i l rest s :
  scan_groups i (l ++ rest) s = (s' ← scan_groups i l s; scan_groups (i + zlen l) rest s').
Proof.
  revert i s. induction l as [|c l IH]; intros i s; [simpl; by rewrite Z.add_0_r|].
  assert (forall s, scan_groups (i + 1) (l ++ rest) s = (s' ← scan_groups (i + 1) l s; scan_groups (i + zlen (c :: l)) rest s')) as IH'.
  { intros. rewrite IH. replace (i + 1 + zlen l) with (i + zlen (c :: l)) by (simpl; lia). done. }
  cbn [app scan_groups]. by repeat (rewrite IH' || case_match).
Qed.

(** Outside quotes nothing is pending. *)
Lemma scan_escaped i l s s' :
  (in_quote s = false -> escaped s = false) -> scan_groups i l s = Some s' -> in_quote s' = false -> escaped s' = false.
Proof.
  revert i s. induction l as [|c l IH]; intros i s Hs; [by intros [= <-]|].
  cbn [scan_groups]. repeat case_match; try done; intros H'; (eapply IH; [|exact H']); cbn; intros; auto; done.
Qed.

Lemma balanced_scan name :
  balanced name = true -> exists o g, scan_groups 0 name new_scan = Some (mkScan 0 false false o g).
Proof.
  unfold balanced. destruct (scan_groups _ _ _) as [s|] eqn:Hs; [|done].
  intros [Hq%negb_true_iff Hd%Z.eqb_eq]%andb_true_iff.
  assert (escaped s = false) as He by (eapply scan_escaped; [|exact Hs|exact Hq]; done).
  exists (open_pos s), (group s). destruct s; simpl in *; by subst.
Qed.

Lemma find_equals_key k v cur :
  key_ok k -> find_equals (k ++ EQUALS :: v) cur 0 false false = Some (cur ++ k, v).
Proof.
  intros [_ H]. revert cur. induction H as [|c k ? _ IH]; intros cur; [by rewrite app_nil_r|].
  simpl. destruct H as ((?&?&?&?)&?&_). tests. rewrite IH, <- (assoc_L (++)). done.
Qed.

Lemma key_accepted k : key_ok k -> ~ (SPACE ∈ k \/ TAB ∈ k \/ QUOTE ∈ k \/ BACKSLASH ∈ k).
Proof. intros [_ H]. rewrite Forall_forall in H. intros [Hc|[Hc|[Hc|Hc]]]; apply H in Hc; unfold plain in Hc; tauto. Qed.

Lemma decode_quoted_value v : decode_value (QUOTE :: escape v ++ [QUOTE]) = Some v.
Proof.
  unfold decode_value, ends_with. rewrite bool_decide_eq_true_2 by done.
  rewrite app_comm_cons, bool_decide_eq_true_2 by by rewrite last_snoc.
  replace (2 <=? zlen ((QUOTE :: escape v) ++ [QUOTE])) with true by (symmetry; apply Z.leb_le; rewrite length_app; cbn [length]; lia).
  cbn [andb]. unfold decode_quoted, slice, slice_bound.
  rewrite length_app. cbn [length]. replace (1 <? 0) with false by lia. replace (-1 <? 0) with true by lia.
  rewrite Z.min_l, Z.max_r by lia. change (Z.to_nat 1) with 1%nat. cbn [drop app].
  rewrite drop_0, take_app_length' by lia. by rewrite escape_decoded.
Qed.

Lemma decode_bare_value v :
  Forall (fun c => plain c /\ c <> SPACE /\ c <> TAB) v -> decode_value v = Some v.
Proof.
  intros H. unfold decode_value. rewrite bool_decide_eq_false_2.
  - cbn [andb]. rewrite bool_decide_eq_false_2; [done|].
    rewrite Forall_forall in H. intros [Hc|[Hc|Hc]]; apply H in Hc; unfold plain in Hc; tauto.
  - destruct H as [|c v [[? ?] ?] _]; [done|]. by intros [= ->].
Qed.

Lemma parse_rendered_entry d e : entry_ok e -> parse_entry d (render_entry e) = Some (dict_set (e_key e) (e_value e) d).
Proof.
  intros [Hk Hv]. unfold parse_entry, render_entry. rewrite find_equals_key by done. simpl.
  rewrite bool_decide_eq_false_2 by apply Hk. rewrite bool_decide_eq_false_2 by by apply key_accepted.
  unfold render_value. destruct (e_quoted e); [by rewrite decode_quoted_value|by rewrite decode_bare_value by auto].
Qed.

Lemma parse_rendered_entries d es :
  Forall entry_ok es ->
  parse_entries d (map render_entry es) = Some (foldl (fun d e => dict_set (e_key e) (e_value e) d) d es).
Proof.
  intros H. revert d. induction H as [|e es He _ IH]; intros d; [done|].
  simpl. rewrite parse_rendered_entry by done. apply IH.
Qed.

Lemma joined_not_empty e es : entry_ok e -> join COMMA (map render_entry (e :: es)) <> [].
Proof.
  intros [[Hk _] _]. unfold render_entry. cbn [map join].
  destruct (map _ es); destruct (e_key e); by simpl.
Qed.

Lemma parse_rendered_list es :
  es <> [] -> Forall entry_ok es -> parse_kv_list (join COMMA (map render_entry es)) = Some (options_of es).
Proof.
  intros Hne H. unfold parse_kv_list, split_top_level_commas. rewrite bool_decide_eq_false_2.
  - rewrite split_entries by done. by apply parse_rendered_entries.
  - destruct H; [done|]. by apply joined_not_empty.
Qed.

Lemma scan_rendered name es :
  balanced name = true -> Forall entry_ok es ->
  scan_groups 0 (render name es) new_scan
  = Some (mkScan 0 false false (zlen name) (Some (zlen name, zlen (render name es) - 1))).
Proof.
  intros (o & g & Hn)%balanced_scan Hes. unfold render. rewrite scan_app, Hn. simpl.
  rewrite scan_entries by done. simpl. rewrite length_app. simpl. rewrite length_app. simpl.
  do 4 f_equal. lia.
Qed.

(** C39: A name with options, written with its keys and its values bare or in quotes, is
    read back as that name and those options, for every name whose parentheses and
    quotes are balanced, every text as a quoted value, and also with no options, as
    [name()]; of options with the same key the last counts. *)
Theorem node_options_roundtrip name es :
  balanced name = true -> Forall entry_ok es -> parse_options (render name es) = (name, options_of es).
Proof.
  intros Hn Hes. unfold parse_options. rewrite scan_rendered by done. cbn -[render Z.sub slice slice_to].
  rewrite Z.eqb_refl.
  assert (slice (render name es) (zlen name + 1) (zlen (render name es) - 1) = join COMMA (map render_entry es)) as ->.
  { unfold render. change (LPAR :: ?l) with ([LPAR] ++ l). rewrite !(assoc_L (++)), <- (assoc_L (++) _ _ [RPAR]).
    apply slice_app_mid; rewrite !length_app; simpl; lia. }
  assert (slice_to (render name es) (zlen name) = name) as ->.
  { rewrite slice_to_nonneg, Nat2Z.id by lia. unfold render. by rewrite take_app_length. }
  destruct es as [|e es]; [done|]. inversion Hes; subst.
  rewrite bool_decide_eq_false_2 by by apply joined_not_empty.
  by rewrite parse_rendered_list.
Qed.

(** The name [f(x)] with a bare option [p] and a quoted option [f] whose value holds a
    comma, a quote and a parenthesis. *)
Lemma node_options_roundtrip_witness :
  parse_options [102; 40; 120; 41; 40; 112; 61; 50; 44; 102; 61; 34; 97; 44; 92; 34; 41; 34; 41]
  = ([102; 40; 120; 41], [([112], [50]); ([102], [97; 44; 34; 41])]).
Proof.
  refine (node_options_roundtrip [102; 40; 120; 41] [mkEntry [112] [50] false; mkEntry [102] [97; 44; 34; 41] true] _ _).
  - reflexivity.
  - apply (bool_decide_unpack _). vm_compute. exact I.
Defined.

(** A name that ends in parentheses with anything else in them has no options. *)
Example version_is_no_option : parse_options [120; 40; 49; 41] = ([120; 40; 49; 41], []).
Proof. reflexivity. Qed.

(** ** Paths as lists of components *)

Definition path_ok (p : list (list Z)) : Prop := Forall (fun c => c <> [] /\ SLASH ∉ c) p.

#[global] Instance path_ok_dec p : Decision (path_ok p) := ltac:(unfold path_ok; apply _).

Lemma split_join p : p <> [] -> path_ok p -> split_sep SLASH (join SLASH p) = p.
Proof.
  intros Hp H. induction H as [|c p [_ Hc] _ IH]; [done|].
  destruct p as [|c' p]; [by apply split_sep_single|].
  change (join SLASH (c :: c' :: p)) with (c ++ SLASH :: join SLASH (c' :: p)).
  rewrite split_sep_concat, split_sep_single, IH by done. done.
Qed.

Lemma join_app sep p q : p <> [] -> q <> [] -> join sep (p ++ q) = join sep p ++ sep :: join sep q.
Proof.
  intros Hp Hq. induction p as [|c p IH]; [done|]. destruct p as [|c' p]; [by destruct q|].
  change (join sep ((c :: c' :: p) ++ q)) with (c ++ sep :: join sep ((c' :: p) ++ q)).
  change (join sep (c :: c' :: p)) with (c ++ sep :: join sep (c' :: p)).
  rewrite IH, <- (assoc_L (++)) by done. done.
Qed.

Lemma join_empty p : path_ok p -> join SLASH p = [] -> p = [].
Proof. intros [|c p' [Hc _] _]; [done|]. destruct p'; cbn [join]; [done|]. by destruct c. Qed.

Lemma join_last p c : path_ok (p ++ [c]) -> exists l x, join SLASH (p ++ [c]) = l ++ [x] /\ x <> SLASH.
Proof.
  intros [_ [Hne Hc]%Forall_singleton]%Forall_app. destruct (exists_last Hne) as (c' & x & ->).
  rewrite elem_of_app, list_elem_of_singleton in Hc.
  destruct p as [|d p]; [exists c', x; naive_solver|].
  rewrite join_app by done. change (join SLASH [?c]) with c. exists (join SLASH (d :: p) ++ SLASH :: c'), x.
  rewrite <- (assoc_L (++)). naive_solver.
Qed.

Lemma rstrip_join a : path_ok a -> rstrip_slash (join SLASH a) = join SLASH a.
Proof.
  induction a as [|c a _] using rev_ind; [done|]. intros (l & x & -> & Hx)%join_last.
  unfold rstrip_slash. rewrite reverse_app. simpl.
  replace (x =? SLASH) with false by (symmetry; by apply Z.eqb_neq).
  change (x :: reverse l) with (reverse [x] ++ reverse l). rewrite <- reverse_app. by rewrite reverse_involutive.
Qed.

Lemma rsplit_head_app l c : SLASH ∉ c -> rsplit_head (l ++ SLASH :: c) = l.
Proof.
  intros Hc. induction l as [|x l IH]; simpl; [by rewrite bool_decide_eq_false_2|].
  rewrite IH, (bool_decide_eq_true_2 (_ ∈ l ++ _)) by set_solver. by rewrite andb_false_r.
Qed.

Lemma starts_with_spec pre l : starts_with pre l = true <-> exists r, l = pre ++ r.
Proof.
  unfold starts_with. rewrite bool_decide_eq_true. split.
  - intros H. exists (drop (length pre) l). by rewrite <- H at 1; rewrite take_drop.
  - intros [r ->]. by rewrite take_app_length.
Qed.

(** The descendants of a path are the paths with more components. *)
Lemma descendant_components p a :
  path_ok p -> path_ok a -> is_descendant_or_self (join SLASH p) (join SLASH a) = bool_decide (a `prefix_of` p).
Proof.
  intros Hp Ha. unfold is_descendant_or_self. apply eq_true_iff_eq. rewrite bool_decide_eq_true.
  case_bool_decide as Hroot; [apply join_empty in Hroot; [|done]; subst; split; [intros _; apply prefix_nil|done]|].
  assert (a <> []) as Hne by (by intros ->).
  case_bool_decide as Heq.
  - split; [intros _|done]. destruct p as [|c p]; [by rewrite <- Heq in Hroot|].
    assert (split_sep SLASH (join SLASH (c :: p)) = split_sep SLASH (join SLASH a)) as Hs by congruence.
    rewrite !split_join in Hs by done. by rewrite Hs.
  - rewrite rstrip_join, starts_with_spec by done. split.
    + intros [r Hr]. assert (p <> []) by (intros ->; destruct (join SLASH a); done).
      exists (split_sep SLASH r). rewrite <- (split_join p), Hr by done.
      rewrite <- (assoc_L (++)). cbn [app]. by rewrite split_sep_concat, split_join.
    + intros [q ->]. exists (join SLASH q). destruct q as [|c q]; [by rewrite app_nil_r in Heq|].
      rewrite join_app by done. by rewrite <- (assoc_L (++)).
Qed.

Lemma parts_join p : path_ok p -> parts (join SLASH p) = p.
Proof.
  intros Hp. unfold parts. case_bool_decide as Hj; [symmetry; by apply join_empty|].
  rewrite split_join by (done || by intros ->). clear Hj.
  induction Hp as [|c p [Hc _] _ IH]; [done|]. by rewrite filter_cons_True, IH.
Qed.

Lemma parent_of_join p c : path_ok (p ++ [c]) -> parent_of (join SLASH (p ++ [c])) = if bool_decide (p = []) then None else Some (join SLASH p).
Proof.
  intros Hok. pose proof Hok as [Hp [Hc Hs]%Forall_singleton]%Forall_app. unfold parent_of.
  rewrite bool_decide_eq_false_2 by (intros H; apply join_empty in H; [by destruct p|done]).
  assert (starts_with [SLASH] (join SLASH (p ++ [c])) = false) as ->.
  { apply not_true_is_false. intros [r Hr]%starts_with_spec.
    assert (p ++ [c] <> []) as Hne by by destruct p. apply (f_equal (split_sep SLASH)) in Hr. rewrite split_join in Hr by done.
    cbn [app] in Hr. change (SLASH :: r) with ([] ++ SLASH :: r) in Hr. rewrite split_sep_concat in Hr.
    rewrite Hr in Hok. by apply Forall_cons in Hok as [[? _] _]. }
  destruct p as [|d p]; [cbn [app join]; by rewrite bool_decide_eq_false_2|].
  rewrite join_app by done. change (join SLASH [?c]) with c. rewrite bool_decide_eq_true_2 by set_solver.
  rewrite rsplit_head_app by done. done.
Qed.

(** Paths written from components behave as those components: splitting, the parent and
    the test for descendants, also against siblings with a common beginning. *)
Theorem node_paths_structural p a c :
  path_ok (p ++ [c]) -> path_ok a ->
  let path := join SLASH (p ++ [c]) in
  parts path = p ++ [c]
  /\ parent_of path = (if bool_decide (p = []) then None else Some (join SLASH p))
  /\ is_descendant_or_self path (join SLASH a) = bool_decide (a `prefix_of` p ++ [c]).
Proof. intros. split_and!; [by apply parts_join|by apply parent_of_join|by apply descendant_components]. Qed.
